(* ===== verification/_CoqProject ===== *)
-Q . S2P
Prelude.v
GoInt.v
VmImage.v
VmMachine.v
VmExec.v
VmImageFacts.v
VmDecode.v
VmInvariant.v
VmSafety.v
VmDirectory.v
VmSyscall.v
VmProperties.v
VmBehaviour.v
WireReader.v
WireFacts.v
WireTables.v
WireTablesFacts.v
WireTokens.v
WireUnit.v
WireTokensFacts.v
WireUnitFacts.v
WireCanonical.v
WireSafety.v
WireProperties.v
CoreModel.v
CoreMarshal.v
CoreMarshalFacts.v
CoreBinding.v
CoreStream.v
CoreBindingFacts.v
CoreForeign.v
CoreForeignFacts.v
CoreAssembly.v
CoreAssemblyFacts.v
CoreCache.v
CoreCacheFacts.v
CoreProperties.v
HeapModel.v
HeapShape.v
HeapTrace.v
HeapSweep.v
HeapCollect.v
HeapAlloc.v
HeapGrow.v
HeapLife.v
HeapLimit.v
HeapProperties.v
SerialModel.v
SerialSpec.v
SerialSpecFacts.v
SerialRep.v
SerialFinish.v
SerialOps.v
SerialEvolve.v
SerialCalls.v
SerialSystem.v
SerialLoops.v
SerialProperties.v
SyntaxToken.v
SyntaxUnicode.v
SyntaxEncoding.v
SyntaxLiteral.v
SyntaxScan.v
SyntaxBytes.v
SyntaxRunes.v
SyntaxIdent.v
SyntaxGrammar.v
SyntaxStrings.v
SyntaxNumbers.v
SyntaxRuns.v
SyntaxScanner.v
SyntaxProperties.v
SyntaxParse.v
SyntaxBody.v
SyntaxDirective.v
SyntaxTokens.v
SyntaxParseFacts.v
SyntaxBodyFacts.v
SyntaxDirectiveFacts.v
SyntaxParseProperties.v
