(* ===== verification/Prelude.v ===== *)
(** * Renvo: a verification development

    Renvo is a self-hosting Go compiler. Its front end turns packages into a typed
    program, packs it into a _unit_ (one self-describing byte string), and a backend
    reads the unit back and emits machine code; one of the targets is a portable
    bytecode run by a virtual machine that hosts embed as an ordinary Go package.
    Programs that ask for it get a garbage-collected heap whose collector is itself
    Go code working on raw words. The development models the parts on which
    everything else depends: the unit format on both sides of the compiler, the
    virtual machine (both are places where untrusted bytes enter), the managed heap,
    the scheduler under goroutines, channels and select, and the scanner and the
    parser through which every source file enters the compiler.

    ** How Go is modelled

    - Go's [int] is 64 bits wide on the hosts that run this code and is a [Z]; no
      value that the modelled code computes comes near 2^63, as the range checks
      keep lengths and offsets below 2^32. Narrower integers are [Z]s with the
      wrap-around of each conversion written out ([GoInt]: [u8], [u16], [u32],
      [i32], shifts and little-endian access).
    - A byte slice or a string is a [list Z] of bytes ([byte_ok]); an index or a
      slice expression out of range is a run-time panic. Stateful methods are in the
      monad [GoM] ([None] is the panic), readers in the monad [Reader]
      ([WireReader]), whose results separate a value ([Ok]), the failure the code
      reports ([Err]) and a panic ([Panic]).
    - Allocation always succeeds and nil and empty slices are the same list. The
      capacity of an appended slice, which the language leaves to the allocator and
      the VM's accounting reads, is the parameter [slice_cap] of the model.

    ** The virtual machine: src/std/vm/vm.go

    - [VmImage]: the constants, [decodeImage] with its checksum, the routine table,
      [validateCode] with [instructionSize] and [validOperands], and [findRoutine].
    - [VmMachine]: the record [machine] (the fields of the Go struct), memory
      access, accounting ([charge], [noteMemory]), the operand stack, string tables,
      arithmetic, comparison and conversions.
    - [VmExec]: every opcode ([step]), call and return, the system calls over the
      in-memory files ([syscall], [open], [pread], [pwrite], directory records),
      [newMachine], [run] and [RunConfig]. The run loop takes [Steps + 2] as fuel:
      every instruction charges at least one step, so the limit stops the loop first
      (C1), and no theorem has fuel as a hypothesis.
    - [VmImageFacts], [VmDecode]: instruction boundaries as an inductive relation
      ([boundary]), the validator's exactness, the well-formedness [image_ok].
    - [VmInvariant], [VmSafety], [VmSyscall]: the machine invariant, a
      weakest-precondition rule per operation, and reachability of machine states as
      the reflexive transitive closure of [step].
    - [VmDirectory]: directory listings as the sorted next components below a path.
    - [VmProperties] (C1 to C3, C16, C24, C27 to C29, C34): termination, resource
      bounds, which panics are left and that they do happen, the decoder's soundness
      and round trip, and its rejection of corrupted bytes. [VmBehaviour]: what the
      operations compute.

    ** The unit format: src/backend/unit/unit.go and schema_generated.go

    - [WireReader]: variable-length integers, strings, nullable and signed values,
      spans, field lists. [appendVarint] recurses on the binary logarithm of its
      argument, [readVarint] reads at most five bytes as the code does.
    - [WireTables]: a record type, a writer and a reader for each table.
    - [WireTokens]: the packed token records and their delta encoding.
    - [WireUnit]: [Program], [Marshal], and [Unmarshal] with its header, its loop
      over the children, the duplicate and required tags and the range checks. The
      loop takes one more than the length of the data as fuel; C26 proves that any
      larger fuel gives the same result.
    - [WireFacts], [WireTablesFacts], [WireTokensFacts], [WireUnitFacts]: the
      typeclass [Codec] of readers that invert a writer on well-formed values, an
      instance per table, and the round trip of whole units.
    - [WireCanonical]: the converse, the typeclass [Canonical]: a reader consumes
      exactly what the writer appends for the value it returns, so that encodings
      are unique. [WireSafety]: what [Unmarshal] accepts, and that no bytes make it
      panic.
    - [WireProperties] (C6, C10, C26, C30, C31): the theorems.

    ** The compiler's side of units: src/internal/unit

    The front end has a unit package of its own: other record types, one exactly
    sized buffer per unit, and operations that edit a finished unit in place.
    - [CoreModel], [CoreMarshal]: [CoreProgram] and its tables, the writers of
      core_writer.go and [MarshalCore], with its release of tables that were
      written. [CoreMarshalFacts]: the sizes the buffer is allocated with, the
      translation between the two record families and the equality of the two
      writers, by which the front end and the backend agree on the format (C11), and
      the size of the buffer covers what is written.
    - [CoreBinding], [CoreStream]: reading and rewriting the target identity of a
      unit, in the reserve behind it or in a new buffer (C37, C38).
    - [CoreForeign], [CoreAssembly] and their facts: the foreign programs, the entry
      point and the assembly fragments that later stages attach without a change to
      any other child (C35, C39), and the panic of [ReadForeignPrograms] on a table
      without a count.
    - [CoreCache], [CoreCacheFacts]: the cache of parsed packages, its round trip
      and its rejection of other bytes (C36).
    - [CoreProperties] (C11, C35 to C39): the theorems.

    ** The managed heap: src/internal/managedheap

    - [HeapModel]: heap.go on a flat memory of 64-bit words ([gmap Z Z]; an access
      to an unmapped or misaligned word is a fault), all pointer arithmetic wrapping
      as [uintptr] does: [Init], [Alloc] with first fit, splitting and growth,
      [Mark], [Collect] with its trace, sweep and release of segments, [Close]. The
      interfaces Memory and Roots of the code are the class [Provider]; what the
      collector relies on is the class [ProviderLaws] and the hypotheses of the
      sections: the provider returns fresh, aligned, nonempty address ranges, takes
      them back, and MarkRoots marks the roots and nothing else. The instance
      [Shelf] of [HeapProperties] satisfies them.
    - [HeapShape]: the representation: segments tiled by blocks, the free list and
      the segment list as chains of pointers through those same words ([rep]).
    - [HeapTrace]: marking from the roots, the mark stack threaded through block
      headers, and the fixpoint it reaches: [reach], the blocks that words of
      reachable payloads point into. [HeapSweep], [HeapCollect]: coalescing of
      neighbours, release of empty segments, the accounts, and [Collect] as a whole.
      [HeapAlloc], [HeapGrow]: allocation.
    - [HeapLife]: [Init], [Close], and the transition relation [heap_step] of a heap
      with clients, whose reachable states satisfy [heap_ok].
    - [HeapLimit]: [ParseLimit] and [ResolveLimit] of limit.go.
    - [HeapProperties] (C5, C12, C25): no sequence of allocations, collections and
      client writes corrupts the heap; a collection retains exactly the reachable
      blocks; an allocation returns a zeroed, aligned payload disjoint from all live
      ones or nil; and limits are parsed exactly.
    - Loops over the heap take one more than the number of mapped words as fuel
      ([memFuel]); the weakest-precondition rules are total, so the theorems include
      that the fuel suffices.

    ** Goroutines and channels: src/x/runtime/serial

    - [SerialModel]: serial.go and copy_renvo.go. Objects shared through pointers
      live in stores and a pointer is an index; channels, jobs, waiters, select
      groups and bindings have the fields of the Go structs. A stack switch is a
      change of control: a stopped stack is the [place] in whose loop it stopped.
      [dispatch] is a call of the program, [loopOnce] one look of a waiting loop at
      its condition with the switch it makes, [exitJob] the end of a goroutine.
    - [SerialSpec]: what the handler promises, as a machine ([sys_step]) whose state
      has channels as queues, one list of waiting operations, and outcomes; a select
      statement is a party that completes as a whole. [SerialSpecFacts]: its
      invariant [spec_ok]: whoever waits has to, and a sender and a receiver wait on
      one channel only as cases of one statement. [SerialEvolve]: how calls change
      the waiting operations.
    - [SerialRep]: ring buffers against queues, and the representation [rep] of the
      machine's state by the stores. [SerialFinish]: the completion of a waiter, the
      removal of its siblings and the wakeup. [SerialOps], [SerialCalls]: every call
      refines the machine's. The loops of [ChanClose] take the number of waiters as
      fuel, which is proved to be enough.
    - [SerialSystem], [SerialLoops]: configurations reachable by a program within
      [call_ok], and the invariant of stacks, queue and waiters. They include the
      simulation. [SerialProperties] (C4, C13 to C15): the theorems.
    - [call_ok] is what the handler relies on: the size of a channel's buffer is a
      Go integer, a value that is sent does not overlap the memory where a receiver
      waits for one, and [Drain] is called on the stack of the main program. The
      theorems are about the runs that keep it. [loopOnce] follows the code outside
      it too: [drain_in_goroutine] shows how a goroutine that calls [Drain] loses
      the stack of the main program.

    ** Source files: src/internal/syntax

    - [SyntaxToken], [SyntaxUnicode], [SyntaxEncoding], [SyntaxLiteral],
      [SyntaxScan]: token.go, unicode.go with its packed tables, scan.go,
      literal.go, quoted_append.go, rune_literal.go, number_literal.go. [scanStep]
      is the body of the scanner's loop at one position. Every loop takes the length
      of the source as fuel; the theorems include that it is enough.
      [validSourceEncoding] reads machine words at aligned addresses; the word size
      and the address of the array are parameters.
    - [SyntaxGrammar]: the lexical grammar, stated apart from the scanner: escapes,
      bodies of literals, numbers, words, operators, comments, and the relation
      [lex] from a text to its lexemes with their lines.
    - [SyntaxBytes], [SyntaxRunes], [SyntaxIdent]: runs of bytes, UTF-8 and the word
      loop, binary search in the packed tables, identifiers. [SyntaxStrings],
      [SyntaxNumbers], [SyntaxRuns]: each kind of lexeme against the grammar.
      [SyntaxScanner]: the step and the loop.
    - [SyntaxProperties] (C7, C17, C18, C21, C23, C32, C33): the scanner never
      panics, and the tokens of a source it accepts are its lexemes with their
      physical lines; literals have the values of the grammar, and a string survives
      its canonical spelling; the encoding test, the table search and the keyword
      tests decide what they should.
    - [SyntaxParse]: parse.go and generics.go, the parser of declarations. A file
      grows while it is parsed and is the state of [GoM]; its source and its tokens
      do not change. [SyntaxBody]: body.go, the parser of statements, with the body
      as the state. Loops over tokens take the number of tokens as fuel, and the
      calls that nest statements take three for each token ([bodyFuel]); both are
      proved to be enough on the tokens of the scanner.
    - [SyntaxDirective]: export.go, reflect.go and type_name.go, which look for
      comments before a declaration; [SyntaxDirectiveFacts]: their loops as splits
      of the source.
    - [SyntaxTokens]: what the parsers know of the tokens ([toks_ok]), the groups of
      brackets in a list of tokens ([grouped], for any pair in the class [Brackets])
      and [skipBalanced]. [SyntaxParseFacts]: well-formed entries of a file
      ([import_ok], [decl_ok], [func_ok], [generic_ok]) and each parser of
      declarations. [SyntaxBodyFacts]: statement trees ([tree], [forest]) and their
      flat record, each parser of statements, and the simulation between the mode
      with expressions and the one without.
    - [SyntaxParseProperties] (C8, C9, C19, C20, C22, C40): every source is parsed
      without a panic into well-formed entries in the order of the source or an
      error; the body of every function it records is parsed into a tree that covers
      its block, with nothing but semicolons between the statements, or an error;
      groups are found exactly; the two modes record the same statements; the lines
      of linked files are physical; and an export directive is found exactly when it
      is there. Examples show valid sources that are read otherwise than Go reads
      them.

    ** Shared files

    This file has the monad, Go's indexing on lists, the hint databases [go] and
    [lenZ], the tactics and the list lemmas that the components share; [GoInt] has
    the integers.

    ** What is not modelled

    The loader and the checker, lowering, linkers, backends, the C front end, the
    definition languages of the backends, the ports of the standard library, device
    drivers and tools: programs of tens of thousands of lines each, whose
    correctness is that of the code they emit for machines that have no model here.
    Of src/internal/syntax, the calls of [parseFileMode] to the arena, which change
    the memory in use and not the answer. In unit.go the bring-up front end
    ([ConvertFiles], [scanSource], [parseTopLevel]) and file I/O. Host I/O enters
    the VM only through the arguments of [RunConfig], as in the code. Of the heap,
    calls back into it from MarkRoots other than Mark, which the busy flag turns
    into no-ops. Of the scheduler, targets without stacks, where a goroutine is a
    plain call, and the wrappers of runtime.go that turn a status into a panic. *)

From stdpp Require Export base numbers option list.
#[global] Open Scope Z_scope.
Create HintDb go.
Create Rewrite HintDb lenZ.

(** * Go computations: mutable state and run-time panics *)

(** A Go function that reads and writes the state [S] and may end in a run-time
    panic (an index out of range, a slice bound out of range): [None] is the panic. *)
Definition GoM (S A : Type) : Type := S → option (A * S).

#[global] Instance GoM_ret S : MRet (GoM S) := λ A a s, Some (a, s).
#[global] Instance GoM_bind S : MBind (GoM S) := λ A B f c s,
  match c s with
  | Some (a, s') => f a s'
  | None => None
  end.

Definition get {S} : GoM S S := λ s, Some (s, s).
Definition modify {S} (f : S → S) : GoM S unit := λ s, Some (tt, f s).
(** A panicking pure computation (an index expression) run inside a method. *)
Definition lift {S A} (o : option A) : GoM S A := λ s,
  match o with
  | Some a => Some (a, s)
  | None => None
  end.

(** Go's short-circuit [&&] on expressions that may panic. *)
Definition andO (a b : option bool) : option bool :=
  match a with
  | Some true => b
  | _ => a
  end.

Declare Scope go_scope.
Delimit Scope go_scope with go.
Infix "&&?" := andO (at level 40, left associativity) : go_scope.

(** * Go slices indexed by Go's int *)

Definition lenZ {A} (l : list A) : Z := Z.of_nat (length l).

(** [l[i]]: panics unless 0 <= i < len(l). *)
Definition lookupZ {A} (l : list A) (i : Z) : option A :=
  if i <? 0 then None else l !! Z.to_nat i.
Infix "!!z" := lookupZ (at level 20) : go_scope.
#[global] Open Scope go_scope.

(** [l[i] = x]: panics unless 0 <= i < len(l). *)
Definition insertZ {A} (l : list A) (i : Z) (x : A) : option (list A) :=
  if (0 <=? i) && (i <? lenZ l) then Some (<[Z.to_nat i := x]> l) else None.

(** The elements from [lo] up to [hi]. *)
Definition sublistZ {A} (l : list A) (lo hi : Z) : list A :=
  take (Z.to_nat (hi - lo)) (drop (Z.to_nat lo) l).

(** [l[lo:hi]] of a slice whose capacity is its length. *)
Definition sliceZ {A} (l : list A) (lo hi : Z) : option (list A) :=
  if (0 <=? lo) && (lo <=? hi) && (hi <=? lenZ l) then Some (sublistZ l lo hi) else None.

(** [l[at] = x_0, l[at+1] = x_1, ...], one store per element. *)
Fixpoint writeAll {A} (l : list A) (at_ : Z) (xs : list A) : option (list A) :=
  match xs with
  | [] => Some l
  | x :: xs => l' ← insertZ l at_ x; writeAll l' (at_ + 1) xs
  end.

(** * Weakest preconditions *)

(** [wp E c Q s]: run from [s], the computation [c] ends in a result and a state
    that satisfy [Q], or panics where [E] holds.  [wp False] excludes panics and
    [wp True] is partial correctness. *)
Definition wp {S A} (E : Prop) (c : GoM S A) (Q : A → S → Prop) (s : S) : Prop :=
  match c s with
  | Some (a, s') => Q a s'
  | None => E
  end.

(** * Lemmas on lists *)

Lemma filter_all {A} (P : A → Prop) `{!∀ x, Decision (P x)} (l : list A) :
  (∀ x, x ∈ l → P x) → filter P l = l.
Proof.
  induction l as [|x l IH]; intros HP; [done|].
  rewrite filter_cons_True by (apply HP; by left). f_equal. apply IH. intros y Hy. apply HP. by right.
Qed.

Lemma filter_none {A} (P : A → Prop) `{!∀ x, Decision (P x)} (l : list A) :
  (∀ x, x ∈ l → ¬ P x) → filter P l = [].
Proof.
  induction l as [|x l IH]; intros HP; [done|].
  rewrite filter_cons_False by (apply HP; by left). apply IH. intros y Hy. apply HP. by right.
Qed.

(** * Lemmas on Go slices *)

Section slices.
Context {A : Type}.
Implicit Types (l xs : list A) (i : Z) (x : A).

Lemma lenZ_nonneg l : 0 ≤ lenZ l.
Proof. unfold lenZ. lia. Qed.

Lemma lenZ_nil : lenZ (@nil A) = 0.
Proof. done. Qed.

Lemma lenZ_cons x l : lenZ (x :: l) = 1 + lenZ l.
Proof. unfold lenZ. simpl. lia. Qed.

Lemma lenZ_app l xs : lenZ (l ++ xs) = lenZ l + lenZ xs.
Proof. unfold lenZ. rewrite length_app. lia. Qed.

Lemma lenZ_replicate n x : lenZ (replicate n x) = Z.of_nat n.
Proof. unfold lenZ. by rewrite length_replicate. Qed.

Lemma lookupZ_to_nat l i : 0 ≤ i → l !!z i = l !! Z.to_nat i.
Proof. unfold lookupZ. intros. by rewrite (proj2 (Z.ltb_ge i 0)) by lia. Qed.

Lemma lookupZ_of_nat l (n : nat) : l !!z (Z.of_nat n) = l !! n.
Proof. rewrite lookupZ_to_nat by lia. by rewrite Nat2Z.id. Qed.

Lemma lookupZ_lt_Some l i x : l !!z i = Some x → 0 ≤ i < lenZ l.
Proof.
  unfold lookupZ, lenZ. destruct (Z.ltb_spec i 0); [done|].
  intros ?%lookup_lt_Some. lia.
Qed.

Lemma lookupZ_lt_is_Some l i : 0 ≤ i < lenZ l → ∃ x, l !!z i = Some x.
Proof.
  unfold lenZ. intros. rewrite lookupZ_to_nat by lia.
  apply lookup_lt_is_Some. lia.
Qed.

Lemma lookupZ_None l i : l !!z i = None ↔ i < 0 ∨ lenZ l ≤ i.
Proof.
  split.
  - intros H. destruct (decide (0 ≤ i < lenZ l)) as [Hr|]; [|lia].
    destruct (lookupZ_lt_is_Some l i Hr). congruence.
  - intros Hr. destruct (l !!z i) eqn:E; [|done]. apply lookupZ_lt_Some in E. lia.
Qed.

Lemma lookupZ_cons_0 x l : (x :: l) !!z 0 = Some x.
Proof. done. Qed.

Lemma lookupZ_cons_succ x l i : 0 ≤ i → (x :: l) !!z (i + 1) = l !!z i.
Proof.
  intros. rewrite !lookupZ_to_nat by lia.
  by replace (Z.to_nat (i + 1)) with (S (Z.to_nat i)) by lia.
Qed.

Lemma lookupZ_app_l l xs i : i < lenZ l → (l ++ xs) !!z i = l !!z i.
Proof.
  unfold lookupZ, lenZ. intros. destruct (Z.ltb_spec i 0); [done|].
  apply lookup_app_l. lia.
Qed.

Lemma lookupZ_app_r l xs i : lenZ l ≤ i → (l ++ xs) !!z i = xs !!z (i - lenZ l).
Proof.
  pose proof (lenZ_nonneg l). unfold lenZ in *. intros.
  rewrite !lookupZ_to_nat by lia. rewrite lookup_app_r by lia.
  f_equal. lia.
Qed.

Lemma lookupZ_Forall (P : A → Prop) l i x : Forall P l → l !!z i = Some x → P x.
Proof.
  intros HF Hi. pose proof (lookupZ_lt_Some _ _ _ Hi).
  rewrite lookupZ_to_nat in Hi by lia. by eapply Forall_lookup_1.
Qed.

(** ** Stores *)

Lemma insertZ_Some l i x : 0 ≤ i < lenZ l → insertZ l i x = Some (<[Z.to_nat i := x]> l).
Proof.
  unfold insertZ. intros.
  rewrite (proj2 (Z.leb_le 0 i)), (proj2 (Z.ltb_lt i (lenZ l))) by lia. done.
Qed.

Lemma insertZ_inv l i x l' :
  insertZ l i x = Some l' → 0 ≤ i < lenZ l ∧ l' = <[Z.to_nat i := x]> l.
Proof.
  unfold insertZ. destruct (Z.leb_spec 0 i), (Z.ltb_spec i (lenZ l)); simpl; try done.
  intros [= <-]. done.
Qed.

Lemma insertZ_length l i x l' : insertZ l i x = Some l' → lenZ l' = lenZ l.
Proof. intros [_ ->]%insertZ_inv. unfold lenZ. by rewrite length_insert. Qed.

Lemma insertZ_Forall (P : A → Prop) l i x l' :
  Forall P l → P x → insertZ l i x = Some l' → Forall P l'.
Proof. intros ?? [_ ->]%insertZ_inv. by apply Forall_insert. Qed.

Lemma insertZ_lookup_eq l i x l' : insertZ l i x = Some l' → l' !!z i = Some x.
Proof.
  intros [Hi ->]%insertZ_inv. rewrite lookupZ_to_nat by lia.
  apply list_lookup_insert_eq. unfold lenZ in Hi. lia.
Qed.

Lemma insertZ_lookup_ne l i j x l' : insertZ l i x = Some l' → i ≠ j → l' !!z j = l !!z j.
Proof.
  intros [Hi ->]%insertZ_inv Hne. unfold lookupZ.
  destruct (Z.ltb_spec j 0); [done|]. apply list_lookup_insert_ne. lia.
Qed.

(** ** Sub-slices *)

Lemma sliceZ_Some l lo hi :
  0 ≤ lo → lo ≤ hi → hi ≤ lenZ l → sliceZ l lo hi = Some (sublistZ l lo hi).
Proof.
  unfold sliceZ. intros.
  by rewrite (proj2 (Z.leb_le 0 lo)), (proj2 (Z.leb_le lo hi)), (proj2 (Z.leb_le hi _)).
Qed.

Lemma sliceZ_inv l lo hi xs :
  sliceZ l lo hi = Some xs → 0 ≤ lo ∧ lo ≤ hi ∧ hi ≤ lenZ l ∧ xs = sublistZ l lo hi.
Proof.
  unfold sliceZ.
  destruct (Z.leb_spec 0 lo), (Z.leb_spec lo hi), (Z.leb_spec hi (lenZ l)); simpl; try done.
  by intros [= <-].
Qed.

Lemma sublistZ_length l lo hi :
  0 ≤ lo → lo ≤ hi → hi ≤ lenZ l → lenZ (sublistZ l lo hi) = hi - lo.
Proof.
  unfold lenZ, sublistZ. intros. rewrite length_take, length_drop. lia.
Qed.

Lemma sublistZ_empty l lo hi : hi ≤ lo → sublistZ l lo hi = [].
Proof. intros. unfold sublistZ. by replace (Z.to_nat (hi - lo)) with 0%nat by lia. Qed.

Lemma sublistZ_Forall (P : A → Prop) l lo hi : Forall P l → Forall P (sublistZ l lo hi).
Proof. intros. apply Forall_take, Forall_drop. done. Qed.

Lemma sublistZ_app_exact l xs ys :
  sublistZ (l ++ xs ++ ys) (lenZ l) (lenZ l + lenZ xs) = xs.
Proof.
  unfold sublistZ, lenZ. rewrite Nat2Z.id.
  replace (Z.to_nat _) with (length xs) by lia.
  by rewrite drop_app_length, take_app_length.
Qed.

Lemma sublistZ_lookup l lo hi i :
  0 ≤ lo → 0 ≤ i < hi - lo → sublistZ l lo hi !!z i = l !!z (lo + i).
Proof.
  intros. unfold sublistZ. rewrite !lookupZ_to_nat by lia.
  rewrite lookup_take_lt by lia. rewrite lookup_drop. f_equal. lia.
Qed.

(** ** Runs of stores *)

Lemma writeAll_nil l i : writeAll l i [] = Some l.
Proof. done. Qed.

Lemma writeAll_length xs l i l' : writeAll l i xs = Some l' → lenZ l' = lenZ l.
Proof.
  revert l i. induction xs as [|x xs IH]; simpl; intros l i H; [congruence|].
  destruct (insertZ l i x) eqn:E; simpl in H; [|done].
  rewrite (IH _ _ H). by eapply insertZ_length.
Qed.

Lemma writeAll_Some xs l i :
  0 ≤ i → i + lenZ xs ≤ lenZ l → ∃ l', writeAll l i xs = Some l'.
Proof.
  revert l i. induction xs as [|x xs IH]; simpl; intros l i H0 Hl; [eauto|].
  rewrite lenZ_cons in Hl. pose proof (lenZ_nonneg xs).
  rewrite insertZ_Some by lia. simpl. apply IH; [lia|].
  unfold lenZ in *. rewrite length_insert. lia.
Qed.

Lemma writeAll_Forall (P : A → Prop) xs l i l' :
  Forall P l → Forall P xs → writeAll l i xs = Some l' → Forall P l'.
Proof.
  intros Hl Hxs. revert l i Hl. induction Hxs as [|x xs Hx Hxs IH]; simpl; intros l i Hl H.
  - congruence.
  - destruct (insertZ l i x) eqn:E; simpl in H; [|done].
    eapply IH; [|done]. by eapply insertZ_Forall.
Qed.

Lemma writeAll_lookup_out xs l i l' j :
  writeAll l i xs = Some l' → j < i ∨ i + lenZ xs ≤ j → l' !!z j = l !!z j.
Proof.
  revert l i. induction xs as [|x xs IH]; simpl; intros l i H Hj; [congruence|].
  rewrite lenZ_cons in Hj. pose proof (lenZ_nonneg xs).
  destruct (insertZ l i x) eqn:E; simpl in H; [|done].
  rewrite (IH _ _ H) by lia. eapply insertZ_lookup_ne; [done|lia].
Qed.

Lemma writeAll_lookup_in xs l i l' j :
  writeAll l i xs = Some l' → 0 ≤ j < lenZ xs → l' !!z (i + j) = xs !!z j.
Proof.
  revert l i j. induction xs as [|x xs IH]; simpl; intros l i j H Hj.
  { rewrite lenZ_nil in Hj. lia. }
  rewrite lenZ_cons in Hj.
  destruct (insertZ l i x) eqn:E; simpl in H; [|done].
  destruct (decide (j = 0)) as [->|].
  - rewrite (writeAll_lookup_out _ _ _ _ _ H) by lia. rewrite Z.add_0_r.
    by apply insertZ_lookup_eq in E.
  - replace (i + j) with (i + 1 + (j - 1)) by lia. rewrite (IH _ _ _ H) by lia.
    replace j with (j - 1 + 1) at 2 by lia. by rewrite lookupZ_cons_succ by lia.
Qed.

Lemma writeAll_nonneg xs l i l' : writeAll l i xs = Some l' → 0 < lenZ xs → 0 ≤ i.
Proof.
  destruct xs as [|x xs]; simpl; [rewrite lenZ_nil; lia|]. intros H _.
  destruct (insertZ l i x) eqn:E; [|done]. apply insertZ_inv in E as [? _]. lia.
Qed.

(** Two slices with the same elements at every index are equal. *)
Lemma lookupZ_ext l xs : (∀ i, l !!z i = xs !!z i) → l = xs.
Proof. intros H. apply list_eq. intros n. by rewrite <- !lookupZ_of_nat. Qed.

Lemma writeAll_slice xs l i l' :
  0 ≤ i → writeAll l i xs = Some l' → sublistZ l' i (i + lenZ xs) = xs.
Proof.
  intros Hi H. apply lookupZ_ext. intros j.
  destruct (decide (0 ≤ j < lenZ xs)) as [Hj|Hj].
  - rewrite sublistZ_lookup by lia. by eapply writeAll_lookup_in.
  - transitivity (@None A); [|symmetry]; apply lookupZ_None; [|lia].
    unfold sublistZ, lenZ in *. rewrite length_take. lia.
Qed.
End slices.

Lemma lookupZ_mid {A} (pre mid post : list A) k :
  0 ≤ k < lenZ mid → (pre ++ mid ++ post) !!z (lenZ pre + k) = mid !!z k.
Proof.
  intros. pose proof (lenZ_nonneg pre). rewrite lookupZ_app_r by lia.
  rewrite lookupZ_app_l by lia. f_equal. lia.
Qed.

Lemma sublistZ_app {A} (l : list A) a b c :
  0 ≤ a → a ≤ b → b ≤ c → sublistZ l a b ++ sublistZ l b c = sublistZ l a c.
Proof.
  intros. unfold sublistZ. replace (Z.to_nat b) with (Z.to_nat a + Z.to_nat (b - a))%nat by lia.
  replace (Z.to_nat (c - a)) with (Z.to_nat (b - a) + Z.to_nat (c - b))%nat by lia.
  rewrite <- drop_drop. by rewrite take_take_drop.
Qed.

Lemma sublistZ_cons {A} (l : list A) a b x :
  0 ≤ a → a < b → l !!z a = Some x → sublistZ l a b = x :: sublistZ l (a + 1) b.
Proof.
  intros Ha Hab Hx. rewrite <- (sublistZ_app l a (a + 1) b) by lia.
  replace (sublistZ l a (a + 1)) with [x]; [done|]. unfold sublistZ.
  replace (Z.to_nat (a + 1 - a)) with 1%nat by lia. rewrite lookupZ_to_nat in Hx by done.
  rewrite <- (take_drop_middle _ _ _ Hx) at 1.
  pose proof (lookup_lt_Some _ _ _ Hx). rewrite drop_app_length'; [done|].
  rewrite length_take. lia.
Qed.

#[export] Hint Rewrite @lenZ_nil @lenZ_cons @lenZ_app @lenZ_replicate : lenZ.

(** * Rules for weakest preconditions *)

Section wp_rules.
Context {S : Type} {E : Prop}.

Lemma wp_ret {A} (a : A) (Q : A → S → Prop) s : Q a s → wp E (mret a) Q s.
Proof. done. Qed.

Lemma wp_bind {A B} (c : GoM S A) (f : A → GoM S B) Q s :
  wp E c (λ a s', wp E (f a) Q s') s → wp E (c ≫= f) Q s.
Proof. unfold wp, mbind, GoM_bind. destruct (c s) as [[??]|]; done. Qed.

Lemma wp_get (Q : S → S → Prop) s : Q s s → wp E get Q s.
Proof. done. Qed.

Lemma wp_modify f (Q : unit → S → Prop) s : Q tt (f s) → wp E (modify f) Q s.
Proof. done. Qed.

Lemma wp_lift {A} (o : option A) a (Q : A → S → Prop) s :
  o = Some a → Q a s → wp E (lift o) Q s.
Proof. intros ->. done. Qed.

Lemma wp_lift_or {A} (o : option A) (Q : A → S → Prop) s :
  (∀ a, o = Some a → Q a s) → (o = None → E) → wp E (lift o) Q s.
Proof. unfold wp, lift. destruct o; auto. Qed.

Lemma wp_conseq {A} (c : GoM S A) (Q Q' : A → S → Prop) s :
  wp E c Q s → (∀ a s', Q a s' → Q' a s') → wp E c Q' s.
Proof. unfold wp. destruct (c s) as [[??]|]; auto. Qed.

Lemma wp_run {A} (c : GoM S A) (Q : A → S → Prop) s a s' :
  wp E c Q s → c s = Some (a, s') → Q a s'.
Proof. unfold wp. intros H E'. by rewrite E' in H. Qed.

Lemma run_bind {A B} (c : GoM S A) (f : A → GoM S B) s b s' :
  (c ≫= f) s = Some (b, s') → ∃ a s1, c s = Some (a, s1) ∧ f a s1 = Some (b, s').
Proof. unfold mbind, GoM_bind. destruct (c s) as [[a s1]|]; [eauto|done]. Qed.

Lemma run_lift {A} (o : option A) (s s' : S) a : lift o s = Some (a, s') → o = Some a ∧ s' = s.
Proof. unfold lift. destruct o; [by intros [= -> ->]|done]. Qed.

Lemma wp_panic {A} (c : GoM S A) (Q : A → S → Prop) s : wp E c Q s → c s = None → E.
Proof. unfold wp. intros H E'. by rewrite E' in H. Qed.
End wp_rules.

(** Reduces a [wp] goal by the structure of the computation. *)
Ltac wp_step :=
  lazymatch goal with
  | |- wp _ (mret _) _ _ => apply wp_ret
  | |- wp _ (_ ≫= _) _ _ => apply wp_bind
  | |- wp _ get _ _ => apply wp_get
  | |- wp _ (modify _) _ _ => apply wp_modify
  end.

(** Splits a successful run [H : (c ≫= f) s = Some _] into the runs of its parts. *)
Ltac run_step H :=
  lazymatch type of H with
  | (get ≫= _) _ = _ => change (get ≫= ?f) with (λ s, f s s) in H; cbv beta in H
  | (modify _ ≫= _) _ = _ => cbv beta in H
  | (lift _ ≫= _) _ = _ =>
      let a := fresh "a" in let s := fresh "s" in let E := fresh "E" in
      apply run_bind in H as (a&s&E&H); apply run_lift in E as [E ->]
  | (_ ≫= _) _ = _ =>
      let a := fresh "a" in let s := fresh "s" in let E := fresh "E" in
      apply run_bind in H as (a&s&E&H)
  end.

(** Proves a decidable closed statement by evaluating it. *)
Ltac by_decision := apply (bool_decide_eq_true_1 _); vm_compute; reflexivity.
