(* ===== verification/GoInt.v ===== *)
(** Go's fixed-width integers and little-endian byte access.

    An [int] is a [Z]; conversions to narrower types are written out as the
    wrap-around they perform.  A byte slice is a [list Z] whose elements satisfy
    [byte_ok]. *)

From S2P Require Import Prelude.

Definition u8 (z : Z) : Z := z `mod` 2 ^ 8.
Definition u16 (z : Z) : Z := z `mod` 2 ^ 16.
Definition u32 (z : Z) : Z := z `mod` 2 ^ 32.
Definition u64 (z : Z) : Z := z `mod` 2 ^ 64.
Definition i8 (z : Z) : Z := (z + 2 ^ 7) `mod` 2 ^ 8 - 2 ^ 7.
Definition i16 (z : Z) : Z := (z + 2 ^ 15) `mod` 2 ^ 16 - 2 ^ 15.
Definition i32 (z : Z) : Z := (z + 2 ^ 31) `mod` 2 ^ 32 - 2 ^ 31.
Definition i64 (z : Z) : Z := (z + 2 ^ 63) `mod` 2 ^ 64 - 2 ^ 63.

Definition byte_ok (b : Z) : Prop := 0 ≤ b < 2 ^ 8.
Definition u32_ok (z : Z) : Prop := 0 ≤ z < 2 ^ 32.
Definition u64_ok (z : Z) : Prop := 0 ≤ z < 2 ^ 64.
Definition i32_ok (z : Z) : Prop := - 2 ^ 31 ≤ z < 2 ^ 31.
Abbreviation bytes_ok := (Forall byte_ok).

(** [int(a) | int(b)<<8] *)
Definition le16 (a b : Z) : Z := Z.lor a (Z.shiftl b 8).
(** [int(a) | int(b)<<8 | int(c)<<16 | int(d)<<24] *)
Definition le32 (a b c d : Z) : Z :=
  Z.lor (Z.lor (Z.lor a (Z.shiftl b 8)) (Z.shiftl c 16)) (Z.shiftl d 24).
(** The four bytes [byte(v), byte(v>>8), byte(v>>16), byte(v>>24)]. *)
Definition bytes32 (v : Z) : list Z :=
  [u8 v; u8 (Z.shiftr v 8); u8 (Z.shiftr v 16); u8 (Z.shiftr v 24)].
Definition bytes16 (v : Z) : list Z := [u8 v; u8 (Z.shiftr v 8)].

(** * Ranges *)

#[export] Instance byte_ok_dec b : Decision (byte_ok b).
Proof. unfold byte_ok. apply _. Defined.
#[export] Instance u32_ok_dec z : Decision (u32_ok z).
Proof. unfold u32_ok. apply _. Defined.
#[export] Instance i32_ok_dec z : Decision (i32_ok z).
Proof. unfold i32_ok. apply _. Defined.

Lemma u8_range z : byte_ok (u8 z).
Proof. unfold byte_ok, u8. apply Z.mod_pos_bound. lia. Qed.

Lemma u32_range z : u32_ok (u32 z).
Proof. unfold u32_ok, u32. apply Z.mod_pos_bound. lia. Qed.

Lemma i32_range z : i32_ok (i32 z).
Proof.
  unfold i32_ok, i32. pose proof (Z.mod_pos_bound (z + 2 ^ 31) (2 ^ 32) ltac:(lia)). lia.
Qed.

Lemma u8_small z : byte_ok z → u8 z = z.
Proof. intros. by apply Z.mod_small. Qed.

Lemma u32_small z : u32_ok z → u32 z = z.
Proof. intros. by apply Z.mod_small. Qed.

Lemma u64_small z : u64_ok z → u64 z = z.
Proof. intros. by apply Z.mod_small. Qed.

Lemma u64_range z : u64_ok (u64 z).
Proof. apply Z.mod_pos_bound. lia. Qed.

Lemma i32_small z : i32_ok z → i32 z = z.
Proof. unfold i32_ok, i32. intros. rewrite Z.mod_small; lia. Qed.

(** [i32] identifies exactly the integers congruent modulo 2^32. *)
Lemma i32_eq_iff a b : i32 a = i32 b ↔ a `mod` 2 ^ 32 = b `mod` 2 ^ 32.
Proof.
  unfold i32. split; intros H.
  - assert ((a + 2 ^ 31) `mod` 2 ^ 32 = (b + 2 ^ 31) `mod` 2 ^ 32) as H' by lia.
    replace a with (a + 2 ^ 31 - 2 ^ 31) by lia.
    replace b with (b + 2 ^ 31 - 2 ^ 31) by lia.
    by rewrite Zminus_mod, H', <- Zminus_mod.
  - by rewrite Zplus_mod, H, <- Zplus_mod.
Qed.

Lemma i32_u32 z : i32 (u32 z) = i32 z.
Proof. apply i32_eq_iff. unfold u32. by rewrite Z.mod_mod by lia. Qed.

Lemma u32_i32 z : u32 (i32 z) = u32 z.
Proof.
  unfold u32, i32.
  rewrite Zminus_mod_idemp_l. f_equal. lia.
Qed.

#[export] Hint Resolve u8_range u32_range i32_range : go.

(** * Little-endian access *)

Lemma lor_shiftl_add a b n :
  0 ≤ n → 0 ≤ a < 2 ^ n → Z.lor a (Z.shiftl b n) = a + b * 2 ^ n.
Proof.
  intros Hn Ha. rewrite <- Z.shiftl_mul_pow2 by done.
  assert (Z.land a (Z.shiftl b n) = 0) as Hd.
  { apply Z.bits_inj'. intros i Hi. rewrite Z.land_spec, Z.bits_0.
    destruct (decide (i < n)).
    - rewrite Z.shiftl_spec_low by done. apply andb_false_r.
    - rewrite <- (Z.mod_small a (2 ^ n)) by done.
      rewrite Z.mod_pow2_bits_high by lia. done. }
  rewrite Z.add_nocarry_lxor by done.
  by rewrite <- (Z.lxor_lor a (Z.shiftl b n)) by done.
Qed.

Lemma le16_add a b : byte_ok a → le16 a b = a + b * 256.
Proof. unfold le16, byte_ok. intros. rewrite lor_shiftl_add; lia. Qed.

Lemma le32_add a b c d :
  byte_ok a → byte_ok b → byte_ok c →
  le32 a b c d = a + b * 2 ^ 8 + c * 2 ^ 16 + d * 2 ^ 24.
Proof.
  unfold le32, byte_ok. intros.
  rewrite (lor_shiftl_add a b) by lia.
  rewrite (lor_shiftl_add (a + _) c) by lia.
  rewrite (lor_shiftl_add (a + _ + _) d); lia.
Qed.

(** The grouping the VM reader uses. *)
Lemma le32_le16 a b c d :
  le32 a b c d = Z.lor (le16 a b) (Z.shiftl (le16 c d) 16).
Proof.
  unfold le32, le16. rewrite Z.shiftl_lor, Z.shiftl_shiftl by lia.
  by rewrite !Z.lor_assoc.
Qed.

Lemma le16_range a b : byte_ok a → byte_ok b → 0 ≤ le16 a b < 2 ^ 16.
Proof. intros. rewrite le16_add by done. unfold byte_ok in *. lia. Qed.

Lemma le32_range a b c d :
  byte_ok a → byte_ok b → byte_ok c → byte_ok d → u32_ok (le32 a b c d).
Proof. intros. rewrite le32_add by done. unfold byte_ok, u32_ok in *. lia. Qed.

Lemma u8_shiftr v k : 0 ≤ k → u8 (Z.shiftr v k) = (v `div` 2 ^ k) `mod` 2 ^ 8.
Proof. intros. unfold u8. by rewrite Z.shiftr_div_pow2. Qed.

Lemma le16_bytes v : le16 (u8 v) (u8 (Z.shiftr v 8)) = u16 v.
Proof.
  rewrite le16_add by apply u8_range. rewrite u8_shiftr by lia. unfold u8, u16.
  change (2 ^ 16) with (2 ^ 8 * 2 ^ 8). rewrite Z.rem_mul_r by lia. lia.
Qed.

Lemma le32_bytes v :
  le32 (u8 v) (u8 (Z.shiftr v 8)) (u8 (Z.shiftr v 16)) (u8 (Z.shiftr v 24)) = u32 v.
Proof.
  rewrite le32_add by apply u8_range. rewrite !u8_shiftr by lia. unfold u8, u32.
  change (2 ^ 32) with (2 ^ 8 * (2 ^ 8 * (2 ^ 8 * 2 ^ 8))).
  rewrite !Z.rem_mul_r by lia.
  rewrite !Z.div_div by lia. change (2 ^ 8 * 2 ^ 8) with (2 ^ 16).
  change (2 ^ 16 * 2 ^ 8) with (2 ^ 24). lia.
Qed.

Lemma bytes32_le32 a b c d :
  byte_ok a → byte_ok b → byte_ok c → byte_ok d → bytes32 (le32 a b c d) = [a; b; c; d].
Proof.
  intros. unfold bytes32. rewrite le32_add by done. rewrite !u8_shiftr by lia. unfold u8.
  unfold byte_ok in *. repeat f_equal; Z.div_mod_to_equations; lia.
Qed.

Lemma bytes16_le16 a b : byte_ok a → byte_ok b → bytes16 (le16 a b) = [a; b].
Proof.
  intros. unfold bytes16. rewrite le16_add by done. rewrite !u8_shiftr by lia. unfold u8.
  unfold byte_ok in *. repeat f_equal; Z.div_mod_to_equations; lia.
Qed.

Lemma bytes32_ok v : bytes_ok (bytes32 v).
Proof. unfold bytes32. repeat constructor; apply u8_range. Qed.

Lemma bytes16_ok v : bytes_ok (bytes16 v).
Proof. unfold bytes16. repeat constructor; apply u8_range. Qed.

#[export] Hint Resolve bytes32_ok bytes16_ok : go.

(** [x &^ 7] rounds down to a multiple of eight. *)
Lemma ldiff_7 x : Z.ldiff x 7 = x - x `mod` 8.
Proof.
  change 7 with (Z.ones 3). rewrite Z.ldiff_ones_r by lia.
  rewrite Z.shiftl_mul_pow2, Z.shiftr_div_pow2 by lia. change (2 ^ 3) with 8.
  pose proof (Z.div_mod x 8). lia.
Qed.
