(* ===== verification/VmImage.v ===== *)
(** The VM's program image (std/vm/vm.go): constants, the binary header, the
    code validator and the lookup of a routine by its entry point.

    Every operation that indexes a Go slice returns an [option]: [None] is the
    run-time panic the Go index expression would raise. *)

From S2P Require Import Prelude.
From S2P Require Import GoInt.

(** * Constants *)

Definition TrapNone : Z := 0.
Definition TrapInvalidLimits : Z := 1.
Definition TrapInvalidProgram : Z := 2.
Definition TrapStepLimit : Z := 3.
Definition TrapMemoryLimit : Z := 4.
Definition TrapInvalidInstruction : Z := 5.
Definition TrapDivisionByZero : Z := 6.
Definition TrapOutputLimit : Z := 7.

Definition headerSize : Z := 40.
Definition routineSize : Z := 12.
Definition routineFramed : Z := 1.
Definition version : Z := 1.
Definition minAddress : Z := 256.
Definition sysGetdents64 : Z := 217.

Definition regRax : Z := 0.
Definition regRdx : Z := 1.
Definition regRcx : Z := 2.
Definition regRdi : Z := 3.
Definition regRsi : Z := 4.
Definition regR8 : Z := 5.
Definition regR9 : Z := 6.
Definition regR10 : Z := 7.
Definition regCount : Z := 8.

Definition opExit : Z := 1.
Definition opBuildArgsEnv : Z := 2.
Definition opMovRegImm : Z := 3.
Definition opMovRegReg : Z := 4.
Definition opPushReg : Z := 5.
Definition opPushImm : Z := 6.
Definition opPopReg : Z := 7.
Definition opLoadStack : Z := 8.
Definition opStoreStack : Z := 9.
Definition opLeaStack : Z := 10.
Definition opLoadMem : Z := 11.
Definition opStoreMem : Z := 12.
Definition opLoadIndex : Z := 13.
Definition opStoreIndex : Z := 14.
Definition opAddRegReg : Z := 15.
Definition opSubRegReg : Z := 16.
Definition opMulRegReg : Z := 17.
Definition opDivRegReg : Z := 18.
Definition opModRegReg : Z := 19.
Definition opAndRegReg : Z := 20.
Definition opOrRegReg : Z := 21.
Definition opXorRegReg : Z := 22.
Definition opAndNotRegReg : Z := 23.
Definition opShlRegReg : Z := 24.
Definition opShrRegReg : Z := 25.
Definition opAddRegImm : Z := 26.
Definition opMulRegImm : Z := 27.
Definition opIncReg : Z := 28.
Definition opIncMem : Z := 29.
Definition opDecMem : Z := 30.
Definition opBoolNot : Z := 31.
Definition opNegReg : Z := 32.
Definition opCmpRegImm : Z := 33.
Definition opCmpRegReg : Z := 34.
Definition opSetCond : Z := 35.
Definition opJmp : Z := 36.
Definition opJz : Z := 37.
Definition opJnz : Z := 38.
Definition opJCond : Z := 39.
Definition opCall : Z := 40.
Definition opRet : Z := 41.
Definition opSyscall : Z := 42.
Definition opNop : Z := 43.
Definition opShrUnsignedRegReg : Z := 44.

Definition opBinaryRegImm : Z := 47.
Definition opPushRegLoadStack : Z := 48.
Definition opLoadStackPushReg : Z := 49.
Definition opPushRegMovImm : Z := 50.
Definition opLoadMemPushReg : Z := 51.
Definition opLoadStackPop : Z := 52.
Definition opMovRegImmPop : Z := 53.
Definition opMovRegRegPop : Z := 54.

Definition condEq : Z := 0.
Definition condNe : Z := 1.
Definition condLt : Z := 2.
Definition condLe : Z := 3.
Definition condGt : Z := 4.
Definition condGe : Z := 5.

(** * Data *)

Record routine := Routine { r_pc : Z; r_frameSize : Z; r_framed : bool }.

Record image := Image {
  i_code : list Z;
  i_data : list Z;
  i_dataBase : Z;
  i_bssBase : Z;
  i_bssSize : Z;
  i_routines : list routine
}.

#[export] Instance routine_eq_dec : EqDecision routine.
Proof. solve_decision. Defined.
#[export] Instance image_eq_dec : EqDecision image.
Proof. solve_decision. Defined.

(** * Byte access *)

Definition read16 (data : list Z) (at_ : Z) : option Z :=
  a ← data !!z at_;
  b ← data !!z (at_ + 1);
  Some (Z.lor a (Z.shiftl b 8)).

Definition read32 (data : list Z) (at_ : Z) : option Z :=
  lo ← read16 data at_;
  hi ← read16 data (at_ + 2);
  Some (Z.lor lo (Z.shiftl hi 16)).

Definition write32 (data : list Z) (at_ value : Z) : option (list Z) :=
  d1 ← insertZ data at_ (u8 value);
  d2 ← insertZ d1 (at_ + 1) (u8 (Z.shiftr value 8));
  d3 ← insertZ d2 (at_ + 2) (u8 (Z.shiftr value 16));
  insertZ d3 (at_ + 3) (u8 (Z.shiftr value 24)).

Definition align8 (value : Z) : Z := Z.ldiff (value + 7) 7.

(** The checksum loop, from the accumulators [a] and [b]. *)
Fixpoint checksum_from (a b : Z) (data : list Z) : Z * Z :=
  match data with
  | [] => (a, b)
  | x :: data =>
      let a' := (a + x) `mod` 65521 in
      checksum_from a' ((b + a') `mod` 65521) data
  end.

Definition checksum (data : list Z) : Z :=
  let '(a, b) := checksum_from 1 0 data in Z.lor a (Z.shiftl b 16).

(** * Conditions *)

Definition condition (flag cond : Z) : bool :=
  if cond =? condEq then flag =? 0
  else if cond =? condNe then negb (flag =? 0)
  else if cond =? condLt then flag <? 0
  else if cond =? condLe then flag <=? 0
  else if cond =? condGt then 0 <? flag
  else 0 <=? flag.

(** * Routine lookup *)

(** The binary search, one unit of [fuel] per iteration; [None] would be an
    index panic or exhausted fuel ([findRoutine_spec] excludes both). *)
Fixpoint findRoutine_loop (fuel : nat) (routines : list routine) (pc lo hi : Z) : option Z :=
  match fuel with
  | O => None
  | S fuel =>
      if lo <? hi then
        let mid := (lo + hi) `div` 2 in
        r ← routines !!z mid;
        if r_pc r <? pc then findRoutine_loop fuel routines pc (mid + 1) hi
        else findRoutine_loop fuel routines pc lo mid
      else Some lo
  end.

Definition findRoutine (routines : list routine) (pc : Z) : option Z :=
  lo ← findRoutine_loop (S (length routines)) routines pc 0 (lenZ routines);
  if lo <? lenZ routines then
    r ← routines !!z lo;
    Some (if r_pc r =? pc then lo else -1)
  else Some (-1).

(** * Instructions *)

Definition validSize (size : Z) : bool := (1 <=? size) && (size <=? 4).

Definition validLoadSize (size : Z) : bool :=
  validSize size || (size =? 66) || (size =? 129).

Definition validImmediateBinaryOpcode (op : Z) : bool :=
  (opAddRegReg <=? op) && (op <=? opMulRegReg) ||
  (opAndRegReg <=? op) && (op <=? opShrRegReg) || (op =? opShrUnsignedRegReg).

(** The size in bytes of an instruction, operands included. *)
Definition instructionSize (op : Z) : Z :=
  if op =? opBinaryRegImm then 7
  else if (op =? opPushRegLoadStack) || (op =? opLoadStackPushReg) || (op =? opPushRegMovImm) ||
          (op =? opLoadStackPop) || (op =? opMovRegImmPop) then 7
  else if op =? opLoadMemPushReg then 9
  else if op =? opMovRegRegPop then 5
  else if (op =? opMovRegImm) || (op =? opLoadStack) || (op =? opStoreStack) ||
          (op =? opLeaStack) || (op =? opAddRegImm) || (op =? opMulRegImm) ||
          (op =? opCmpRegImm) || (op =? opJCond) then 6
  else if (op =? opMovRegReg) || (opAddRegReg <=? op) && (op <=? opShrRegReg) ||
          (op =? opCmpRegReg) || (op =? opShrUnsignedRegReg) then 3
  else if (op =? opPushReg) || (op =? opPopReg) || (op =? opIncReg) || (op =? opIncMem) ||
          (op =? opDecMem) || (op =? opBoolNot) || (op =? opNegReg) || (op =? opSetCond) then 2
  else if (op =? opPushImm) || (op =? opJmp) || (op =? opJz) || (op =? opJnz) then 5
  else if (op =? opLoadMem) || (op =? opStoreMem) then 8
  else if (op =? opLoadIndex) || (op =? opStoreIndex) then 10
  else if op =? opCall then 9
  else if op =? opBuildArgsEnv then 13
  else 1.

Definition nextInstruction (code : list Z) (pc : Z) : Z :=
  match code !!z pc with
  | Some op => pc + instructionSize op
  | None => -1
  end.

(** [int(code[pc+k]) < regCount] *)
Definition regOperand (code : list Z) (at_ : Z) : option bool :=
  r ← code !!z at_; Some (r <? regCount).

(** A test on the byte at [at_]. *)
Definition byteTest (code : list Z) (at_ : Z) (test : Z → bool) : option bool :=
  b ← code !!z at_; Some (test b).

Definition validOperands (code : list Z) (pc : Z) : option bool :=
  op ← code !!z pc;
  let reg k := regOperand code (pc + k) in
  if (op <? opExit) || (opShrUnsignedRegReg <? op) &&
       ((op <? opBinaryRegImm) || (opMovRegRegPop <? op)) then Some false
  else if op =? opBinaryRegImm then
    reg 1 &&? byteTest code (pc + 6) validImmediateBinaryOpcode
  else if op =? opPushRegLoadStack then reg 1 &&? reg 2
  else if (op =? opLoadStackPushReg) || (op =? opLoadStackPop) || (op =? opMovRegImmPop) then
    reg 1 &&? reg 6
  else if op =? opMovRegRegPop then reg 1 &&? reg 2 &&? reg 3
  else if op =? opPushRegMovImm then reg 1 &&? reg 2
  else if op =? opLoadMemPushReg then
    reg 1 &&? reg 2 &&? reg 8 &&? byteTest code (pc + 7) validLoadSize
  else if (op =? opMovRegImm) || (op =? opLoadStack) || (op =? opStoreStack) ||
          (op =? opLeaStack) || (op =? opAddRegImm) || (op =? opMulRegImm) ||
          (op =? opCmpRegImm) then reg 1
  else if (op =? opMovRegReg) || (opAddRegReg <=? op) && (op <=? opShrRegReg) ||
          (op =? opCmpRegReg) || (op =? opShrUnsignedRegReg) then reg 1 &&? reg 2
  else if (op =? opPushReg) || (op =? opPopReg) || (op =? opIncReg) || (op =? opIncMem) ||
          (op =? opDecMem) || (op =? opBoolNot) || (op =? opNegReg) then reg 1
  else if op =? opSetCond then byteTest code (pc + 1) (λ c, c <=? condGe)
  else if op =? opJCond then byteTest code (pc + 1) (λ c, c <=? condGe)
  else if (op =? opLoadMem) || (op =? opStoreMem) then
    size ← code !!z (pc + 7);
    reg 1 &&? reg 2 &&?
      Some ((op =? opLoadMem) && validLoadSize size || (op =? opStoreMem) && validSize size)
  else if (op =? opLoadIndex) || (op =? opStoreIndex) then
    size ← code !!z (pc + 9);
    reg 1 &&? reg 2 &&? reg 3 &&?
      Some ((op =? opLoadIndex) && validLoadSize size || (op =? opStoreIndex) && validSize size)
  else Some true.

(** * Code validation *)

(** The first loop of [validateCode]: walk the instructions, recording in
    [starts] where each begins.  [Some None] is the rejection. *)
Fixpoint markStarts (fuel : nat) (code : list Z) (pc : Z) (starts : list bool)
    : option (option (list bool)) :=
  match fuel with
  | O => None
  | S fuel =>
      if pc <? lenZ code then
        starts ← insertZ starts pc true;
        let next := nextInstruction code pc in
        if (next <=? pc) || (lenZ code <? next) then Some None
        else
          ok ← validOperands code pc;
          if negb ok then Some None else markStarts fuel code next starts
      else if negb (pc =? lenZ code) then Some None
      else starts ← insertZ starts (lenZ code) true; Some (Some starts)
  end.

Fixpoint routineStarts (starts : list bool) (routines : list routine) : option bool :=
  match routines with
  | [] => Some true
  | r :: routines => starts !!z r_pc r &&? routineStarts starts routines
  end.

(** The branch target encoded at [pc], -1 when the instruction has none. *)
Definition branchTarget (code : list Z) (pc : Z) : option Z :=
  op ← code !!z pc;
  if (op =? opJmp) || (op =? opJz) || (op =? opJnz) || (op =? opCall) then read32 code (pc + 1)
  else if op =? opJCond then read32 code (pc + 2)
  else Some (-1).

(** The body of the last loop of [validateCode]: the branch or call target at [pc]. *)
Definition checkTarget (code : list Z) (routines : list routine) (starts : list bool) (pc : Z)
    : option bool :=
  op ← code !!z pc;
  target ← branchTarget code pc;
  bad ← (if 0 <=? target then
           if lenZ code <=? target then Some true
           else s ← starts !!z target; Some (negb s)
         else Some false);
  if (bad : bool) then Some false
  else if op =? opCall then i ← findRoutine routines target; Some (negb (i <? 0))
  else Some true.

Fixpoint checkTargets (fuel : nat) (code : list Z) (routines : list routine)
    (starts : list bool) (pc : Z) : option bool :=
  match fuel with
  | O => None
  | S fuel =>
      if pc <? lenZ code then
        ok ← checkTarget code routines starts pc;
        if negb ok then Some false
        else checkTargets fuel code routines starts (nextInstruction code pc)
      else Some true
  end.

(** One unit of fuel per instruction and one for the exit test. *)
Definition validateCode (code : list Z) (routines : list routine) : option bool :=
  marked ← markStarts (S (length code)) code 0 (replicate (S (length code)) false);
  match marked with
  | None => Some false
  | Some starts =>
      ok ← routineStarts starts routines;
      if negb ok then Some false
      else checkTargets (S (length code)) code routines starts 0
  end.

(** * The image decoder *)

(** The routine table: [count] entries from index [i], after those in [acc]. *)
Fixpoint decodeRoutines (count : nat) (program : list Z) (codeSize i : Z) (acc : list routine)
    : option (option (list routine)) :=
  match count with
  | O => Some (Some acc)
  | S count =>
      let at_ := headerSize + i * routineSize in
      flags ← read32 program (at_ + 8);
      pc ← read32 program at_;
      frameSize ← read32 program (at_ + 4);
      previous ← (if 0 <? i then p ← acc !!z (i - 1); Some (r_pc p) else Some (-1));
      if (pc <? 0) || (codeSize <=? pc) ||
         (frameSize <? 0) || negb (Z.land frameSize 3 =? 0) ||
         negb (flags =? 0) && negb (flags =? routineFramed) ||
         (i =? 0) && negb (pc =? 0) ||
         (0 <? i) && (pc <=? previous)
      then Some None
      else decodeRoutines count program codeSize (i + 1)
             (acc ++ [Routine pc frameSize (negb (Z.land flags routineFramed =? 0))])
  end.

Definition headerOk (program : list Z) : option bool :=
  if lenZ program <? headerSize then Some false
  else
    p0 ← program !!z 0; p1 ← program !!z 1; p2 ← program !!z 2; p3 ← program !!z 3;
    v ← read16 program 4;
    h ← read16 program 6;
    Some ((p0 =? 82) && (p1 =? 78) && (p2 =? 86) && (p3 =? 66) &&
          (v =? version) && (h =? headerSize)).

(** [Some None] is the rejected program. *)
Definition decodeImage (program : list Z) : option (option image) :=
  ok ← headerOk program;
  if negb ok then Some None
  else
    codeSize ← read32 program 8;
    dataSize ← read32 program 12;
    dataBase ← read32 program 16;
    bssBase ← read32 program 20;
    bssSize ← read32 program 24;
    routineCount ← read32 program 28;
    wantChecksum ← read32 program 32;
    if (codeSize <=? 0) || (dataSize <? 0) || (routineCount <=? 0) ||
       (dataBase <? minAddress) || (bssBase <? dataBase + dataSize) || (bssSize <? 0)
    then Some None
    else
      let tableSize := routineCount * routineSize in
      let codeAt := headerSize + tableSize in
      let dataAt := codeAt + codeSize in
      if (tableSize <? 0) || (codeAt <? headerSize) || (dataAt <? codeAt) ||
         (dataAt + dataSize <? dataAt) || negb (dataAt + dataSize =? lenZ program)
      then Some None
      else
        payload ← sliceZ program headerSize (lenZ program);
        if negb (checksum payload =? wantChecksum) then Some None
        else
          table ← decodeRoutines (Z.to_nat routineCount) program codeSize 0 [];
          match table with
          | None => Some None
          | Some routines =>
              code ← sliceZ program codeAt dataAt;
              data ← sliceZ program dataAt (lenZ program);
              valid ← validateCode code routines;
              Some (if negb valid then None
                    else Some (Image code data dataBase bssBase bssSize routines))
          end.
