(* ===== verification/VmMachine.v ===== *)
(** The VM's machine state and its primitive operations (std/vm/vm.go): bounded
    memory, the operand stack, resource accounting and the arithmetic unit.

    A method that returns [bool] is a [GoM machine bool]; the panics of its index
    expressions are the failures of the monad.  A method that returns a value and
    a success flag yields an [option]. *)

From S2P Require Import Prelude.
From S2P Require Import GoInt.
From S2P Require Import VmImage.

(** * Data *)

Record Limits := MkLimits { l_Steps : Z; l_Memory : Z }.

Record File := MkFile { f_Name : list Z; f_Data : list Z; f_Mode : Z }.

Record Config := MkConfig {
  c_Limits : Limits;
  c_Args : list (list Z);
  c_Env : list (list Z);
  c_Stdin : list Z;
  c_Files : list File
}.

Record Result := MkResult {
  ExitCode : Z; Steps : Z; PeakMemory : Z; Output : list Z; Stderr : list Z;
  Files : list File; Trap : Z; TrapPC : Z; TrapOpcode : Z
}.

Record callFrame := CallFrame {
  cf_pc : Z; cf_fp : Z; cf_sp : Z; cf_routine : Z; cf_drop : Z
}.

Record descriptor := Descriptor {
  d_file : Z; d_offset : Z; d_open : bool; d_data : list Z
}.

Record machine := Machine {
  m_image : image;
  m_limits : Limits;
  m_memory : list Z;
  m_regs : list Z;
  m_pc : Z;
  m_currentPC : Z;
  m_sp : Z;
  m_stackBase : Z;
  m_fp : Z;
  m_routine : Z;
  m_flag : Z;
  m_calls : list callFrame;
  m_steps : Z;
  m_peak : Z;
  m_output : list Z;
  m_stderr : list Z;
  m_trap : Z;
  m_args : list (list Z);
  m_env : list (list Z);
  m_stdin : list Z;
  m_stdinAt : Z;
  m_files : list File;
  m_fds : list descriptor
}.

(** Field assignments [m.f = v]. *)
Definition set_memory (v : list Z) (m : machine) : machine :=
  Machine m.(m_image) m.(m_limits) v m.(m_regs) m.(m_pc) m.(m_currentPC) m.(m_sp)
    m.(m_stackBase) m.(m_fp) m.(m_routine) m.(m_flag) m.(m_calls) m.(m_steps) m.(m_peak)
    m.(m_output) m.(m_stderr) m.(m_trap) m.(m_args) m.(m_env) m.(m_stdin) m.(m_stdinAt)
    m.(m_files) m.(m_fds).
Definition set_regs (v : list Z) (m : machine) : machine :=
  Machine m.(m_image) m.(m_limits) m.(m_memory) v m.(m_pc) m.(m_currentPC) m.(m_sp)
    m.(m_stackBase) m.(m_fp) m.(m_routine) m.(m_flag) m.(m_calls) m.(m_steps) m.(m_peak)
    m.(m_output) m.(m_stderr) m.(m_trap) m.(m_args) m.(m_env) m.(m_stdin) m.(m_stdinAt)
    m.(m_files) m.(m_fds).
Definition set_pc (v : Z) (m : machine) : machine :=
  Machine m.(m_image) m.(m_limits) m.(m_memory) m.(m_regs) v m.(m_currentPC) m.(m_sp)
    m.(m_stackBase) m.(m_fp) m.(m_routine) m.(m_flag) m.(m_calls) m.(m_steps) m.(m_peak)
    m.(m_output) m.(m_stderr) m.(m_trap) m.(m_args) m.(m_env) m.(m_stdin) m.(m_stdinAt)
    m.(m_files) m.(m_fds).
Definition set_currentPC (v : Z) (m : machine) : machine :=
  Machine m.(m_image) m.(m_limits) m.(m_memory) m.(m_regs) m.(m_pc) v m.(m_sp) m.(m_stackBase)
    m.(m_fp) m.(m_routine) m.(m_flag) m.(m_calls) m.(m_steps) m.(m_peak) m.(m_output)
    m.(m_stderr) m.(m_trap) m.(m_args) m.(m_env) m.(m_stdin) m.(m_stdinAt) m.(m_files)
    m.(m_fds).
Definition set_sp (v : Z) (m : machine) : machine :=
  Machine m.(m_image) m.(m_limits) m.(m_memory) m.(m_regs) m.(m_pc) m.(m_currentPC) v
    m.(m_stackBase) m.(m_fp) m.(m_routine) m.(m_flag) m.(m_calls) m.(m_steps) m.(m_peak)
    m.(m_output) m.(m_stderr) m.(m_trap) m.(m_args) m.(m_env) m.(m_stdin) m.(m_stdinAt)
    m.(m_files) m.(m_fds).
Definition set_stackBase (v : Z) (m : machine) : machine :=
  Machine m.(m_image) m.(m_limits) m.(m_memory) m.(m_regs) m.(m_pc) m.(m_currentPC) m.(m_sp) v
    m.(m_fp) m.(m_routine) m.(m_flag) m.(m_calls) m.(m_steps) m.(m_peak) m.(m_output)
    m.(m_stderr) m.(m_trap) m.(m_args) m.(m_env) m.(m_stdin) m.(m_stdinAt) m.(m_files)
    m.(m_fds).
Definition set_fp (v : Z) (m : machine) : machine :=
  Machine m.(m_image) m.(m_limits) m.(m_memory) m.(m_regs) m.(m_pc) m.(m_currentPC) m.(m_sp)
    m.(m_stackBase) v m.(m_routine) m.(m_flag) m.(m_calls) m.(m_steps) m.(m_peak)
    m.(m_output) m.(m_stderr) m.(m_trap) m.(m_args) m.(m_env) m.(m_stdin) m.(m_stdinAt)
    m.(m_files) m.(m_fds).
Definition set_routine (v : Z) (m : machine) : machine :=
  Machine m.(m_image) m.(m_limits) m.(m_memory) m.(m_regs) m.(m_pc) m.(m_currentPC) m.(m_sp)
    m.(m_stackBase) m.(m_fp) v m.(m_flag) m.(m_calls) m.(m_steps) m.(m_peak)
    m.(m_output) m.(m_stderr) m.(m_trap) m.(m_args) m.(m_env) m.(m_stdin) m.(m_stdinAt)
    m.(m_files) m.(m_fds).
Definition set_flag (v : Z) (m : machine) : machine :=
  Machine m.(m_image) m.(m_limits) m.(m_memory) m.(m_regs) m.(m_pc) m.(m_currentPC) m.(m_sp)
    m.(m_stackBase) m.(m_fp) m.(m_routine) v m.(m_calls) m.(m_steps) m.(m_peak)
    m.(m_output) m.(m_stderr) m.(m_trap) m.(m_args) m.(m_env) m.(m_stdin) m.(m_stdinAt)
    m.(m_files) m.(m_fds).
Definition set_calls (v : list callFrame) (m : machine) : machine :=
  Machine m.(m_image) m.(m_limits) m.(m_memory) m.(m_regs) m.(m_pc) m.(m_currentPC) m.(m_sp)
    m.(m_stackBase) m.(m_fp) m.(m_routine) m.(m_flag) v m.(m_steps) m.(m_peak)
    m.(m_output) m.(m_stderr) m.(m_trap) m.(m_args) m.(m_env) m.(m_stdin) m.(m_stdinAt)
    m.(m_files) m.(m_fds).
Definition set_steps (v : Z) (m : machine) : machine :=
  Machine m.(m_image) m.(m_limits) m.(m_memory) m.(m_regs) m.(m_pc) m.(m_currentPC) m.(m_sp)
    m.(m_stackBase) m.(m_fp) m.(m_routine) m.(m_flag) m.(m_calls) v m.(m_peak)
    m.(m_output) m.(m_stderr) m.(m_trap) m.(m_args) m.(m_env) m.(m_stdin) m.(m_stdinAt)
    m.(m_files) m.(m_fds).
Definition set_peak (v : Z) (m : machine) : machine :=
  Machine m.(m_image) m.(m_limits) m.(m_memory) m.(m_regs) m.(m_pc) m.(m_currentPC) m.(m_sp)
    m.(m_stackBase) m.(m_fp) m.(m_routine) m.(m_flag) m.(m_calls) m.(m_steps) v
    m.(m_output) m.(m_stderr) m.(m_trap) m.(m_args) m.(m_env) m.(m_stdin) m.(m_stdinAt)
    m.(m_files) m.(m_fds).
Definition set_output (v : list Z) (m : machine) : machine :=
  Machine m.(m_image) m.(m_limits) m.(m_memory) m.(m_regs) m.(m_pc) m.(m_currentPC) m.(m_sp)
    m.(m_stackBase) m.(m_fp) m.(m_routine) m.(m_flag) m.(m_calls) m.(m_steps) m.(m_peak)
    v m.(m_stderr) m.(m_trap) m.(m_args) m.(m_env) m.(m_stdin) m.(m_stdinAt) m.(m_files)
    m.(m_fds).
Definition set_stderr (v : list Z) (m : machine) : machine :=
  Machine m.(m_image) m.(m_limits) m.(m_memory) m.(m_regs) m.(m_pc) m.(m_currentPC) m.(m_sp)
    m.(m_stackBase) m.(m_fp) m.(m_routine) m.(m_flag) m.(m_calls) m.(m_steps) m.(m_peak)
    m.(m_output) v m.(m_trap) m.(m_args) m.(m_env) m.(m_stdin) m.(m_stdinAt) m.(m_files)
    m.(m_fds).
Definition set_trap (v : Z) (m : machine) : machine :=
  Machine m.(m_image) m.(m_limits) m.(m_memory) m.(m_regs) m.(m_pc) m.(m_currentPC) m.(m_sp)
    m.(m_stackBase) m.(m_fp) m.(m_routine) m.(m_flag) m.(m_calls) m.(m_steps) m.(m_peak)
    m.(m_output) m.(m_stderr) v m.(m_args) m.(m_env) m.(m_stdin) m.(m_stdinAt)
    m.(m_files) m.(m_fds).
Definition set_stdinAt (v : Z) (m : machine) : machine :=
  Machine m.(m_image) m.(m_limits) m.(m_memory) m.(m_regs) m.(m_pc) m.(m_currentPC) m.(m_sp)
    m.(m_stackBase) m.(m_fp) m.(m_routine) m.(m_flag) m.(m_calls) m.(m_steps) m.(m_peak)
    m.(m_output) m.(m_stderr) m.(m_trap) m.(m_args) m.(m_env) m.(m_stdin) v m.(m_files)
    m.(m_fds).
Definition set_files (v : list File) (m : machine) : machine :=
  Machine m.(m_image) m.(m_limits) m.(m_memory) m.(m_regs) m.(m_pc) m.(m_currentPC) m.(m_sp)
    m.(m_stackBase) m.(m_fp) m.(m_routine) m.(m_flag) m.(m_calls) m.(m_steps) m.(m_peak)
    m.(m_output) m.(m_stderr) m.(m_trap) m.(m_args) m.(m_env) m.(m_stdin) m.(m_stdinAt)
    v m.(m_fds).
Definition set_fds (v : list descriptor) (m : machine) : machine :=
  Machine m.(m_image) m.(m_limits) m.(m_memory) m.(m_regs) m.(m_pc) m.(m_currentPC) m.(m_sp)
    m.(m_stackBase) m.(m_fp) m.(m_routine) m.(m_flag) m.(m_calls) m.(m_steps) m.(m_peak)
    m.(m_output) m.(m_stderr) m.(m_trap) m.(m_args) m.(m_env) m.(m_stdin) m.(m_stdinAt)
    m.(m_files) v.

(** * Registers *)

Definition reg (r : Z) : GoM machine Z := m ← get; lift (m_regs m !!z r).

(** [m.regs[r] = v] for a value of type int32. *)
Definition setReg (r v : Z) : GoM machine unit :=
  m ← get;
  rs ← lift (insertZ (m_regs m) r v);
  modify (set_regs rs).

(** A stop: the trap code is recorded and the step reports failure. *)
Definition trapWith (t : Z) : GoM machine bool :=
  _ ← modify (set_trap t); mret false.

(** * Memory checks and accounting *)

Definition address (addr size : Z) : GoM machine bool :=
  m ← get;
  if (addr <? minAddress) || (size <? 0) || (lenZ (m_memory m) <? addr) ||
     (lenZ (m_memory m) - addr <? size)
  then trapWith TrapMemoryLimit
  else mret true.

Definition buffer (addr size : Z) : GoM machine bool :=
  if size =? 0 then mret true else address addr size.

Definition charge (cost : Z) : GoM machine bool :=
  m ← get;
  if (cost <? 0) || (l_Steps (m_limits m) - cost <? m_steps m) then trapWith TrapStepLimit
  else _ ← modify (λ m, set_steps (m_steps m + cost) m); mret true.

Definition updatePeak : GoM machine bool :=
  m ← get;
  let frameBytes := l_Memory (m_limits m) - m_fp m in
  let callBytes := lenZ (m_calls m) * 20 in
  let used := m_sp m + frameBytes + callBytes in
  if l_Memory (m_limits m) <? used then trapWith TrapMemoryLimit
  else
    _ ← (if m_peak m <? used then modify (set_peak used) else mret tt);
    mret true.

(** * Loads and stores *)

(** [size > 1] and [size > 2] of [store] write the second byte and the last two. *)
Definition storeBytes (memory : list Z) (addr size value : Z) : option (list Z) :=
  m1 ← insertZ memory addr (u8 value);
  m2 ← (if 1 <? size then insertZ m1 (addr + 1) (u8 (Z.shiftr value 8)) else Some m1);
  if 2 <? size then
    m3 ← insertZ m2 (addr + 2) (u8 (Z.shiftr value 16));
    insertZ m3 (addr + 3) (u8 (Z.shiftr value 24))
  else Some m2.

Definition accessSize (size : Z) : Z := if size =? 3 then 4 else size.

Definition load (addr size : Z) : GoM machine (option Z) :=
  ok ← address addr (accessSize size);
  if negb ok then mret None
  else
    m ← get;
    if size =? 1 then v ← lift (m_memory m !!z addr); mret (Some v)
    else if size =? 2 then v ← lift (read16 (m_memory m) addr); mret (Some v)
    else v ← lift (read32 (m_memory m) addr); mret (Some (u32 v)).

Definition store (addr size value : Z) : GoM machine bool :=
  ok ← address addr (accessSize size);
  if negb ok then mret false
  else
    m ← get;
    memory ← lift (storeBytes (m_memory m) addr size value);
    _ ← modify (set_memory memory);
    mret true.

(** Sizes 129 and 2 sign-extend a byte and a half word; 66 is the unsigned half. *)
Definition loadSized (addr size : Z) : GoM machine (option Z) :=
  if size =? 129 then
    v ← load addr 1; mret ((λ x, u32 (i8 x)) <$> v)
  else if size =? 66 then load addr 2
  else if size =? 2 then
    v ← load addr 2; mret ((λ x, u32 (i16 x)) <$> v)
  else load addr size.

(** The common tail [if ok { m.regs[reg] = int32(value) }; return ok]. *)
Definition assignLoaded (r : Z) (value : option Z) : GoM machine bool :=
  match value with
  | Some v => _ ← setReg r (i32 v); mret true
  | None => mret false
  end.

Definition loadStack (r offset : Z) : GoM machine bool :=
  m ← get;
  value ← load (m_fp m - offset) 4;
  assignLoaded r value.

Definition loadMem (r base disp size : Z) : GoM machine bool :=
  b ← reg base;
  value ← loadSized (b + disp) size;
  assignLoaded r value.

(** * The operand stack *)

Definition push (value : Z) : GoM machine bool :=
  m ← get;
  ok ← address (m_sp m) 4;
  if negb ok || (m_fp m <? m_sp m + 4) then trapWith TrapMemoryLimit
  else
    memory ← lift (write32 (m_memory m) (m_sp m) value);
    _ ← modify (set_memory memory);
    _ ← modify (λ m, set_sp (m_sp m + 4) m);
    updatePeak.

Definition pop : GoM machine (option Z) :=
  m ← get;
  if m_sp m - 4 <? m_stackBase m then
    _ ← modify (set_trap TrapInvalidInstruction); mret None
  else
    _ ← modify (λ m, set_sp (m_sp m - 4) m);
    m ← get;
    v ← lift (read32 (m_memory m) (m_sp m));
    mret (Some (i32 v)).

Definition popReg (r : Z) : GoM machine bool :=
  value ← pop;
  match value with
  | Some v => _ ← setReg r v; mret true
  | None => mret false
  end.

(** * Process arguments *)

(** The end of the string bytes laid out from [end_]; [None] when a string does
    not fit below [limit]. *)
Fixpoint stringsEnd (limit end_ : Z) (values : list (list Z)) : option Z :=
  match values with
  | [] => Some end_
  | v :: values =>
      if (limit <? end_) || (limit - end_ <? lenZ v) then None
      else stringsEnd limit (end_ + lenZ v) values
  end.

(** The loop that writes the string headers at [at_] and the bytes at [cursor]. *)
Fixpoint writeStrings (memory : list Z) (at_ cursor : Z) (values : list (list Z))
    : option (list Z) :=
  match values with
  | [] => Some memory
  | v :: values =>
      m1 ← write32 memory at_ cursor;
      m2 ← write32 m1 (at_ + 4) 0;
      m3 ← write32 m2 (at_ + 8) (lenZ v);
      m4 ← write32 m3 (at_ + 12) 0;
      m5 ← writeAll m4 cursor v;
      writeStrings m5 (at_ + 16) (cursor + lenZ v) values
  end.

Definition buildStrings (values : list (list Z)) : GoM machine (option Z) :=
  m ← get;
  let start := m_sp m in
  let dataAt := align8 (start + lenZ values * 16) in
  match stringsEnd (l_Memory (m_limits m)) dataAt values with
  | None => _ ← modify (set_trap TrapMemoryLimit); mret None
  | Some end0 =>
      let end_ := align8 end0 in
      if (start <? minAddress) || (end_ <? start) || (m_fp m <? end_) then
        _ ← modify (set_trap TrapMemoryLimit); mret None
      else
        memory ← lift (writeStrings (m_memory m) start dataAt values);
        _ ← modify (set_memory memory);
        _ ← modify (set_sp end_);
        ok ← updatePeak;
        mret (if (ok : bool) then Some start else None)
  end.

(** * The arithmetic unit *)

(** A shift count is [uint32(right)]: counts of 32 and more shift everything out. *)
Definition shl32 (left right : Z) : Z := i32 (Z.shiftl left (Z.min (u32 right) 32)).
Definition shr32 (left right : Z) : Z := Z.shiftr left (Z.min (u32 right) 32).
Definition shru32 (left right : Z) : Z := i32 (Z.shiftr (u32 left) (Z.min (u32 right) 32)).

(** The operators on int32 operands; [inr] is the trap. *)
Definition binaryOp (op left right : Z) : Z + Z :=
  if op =? opAddRegReg then inl (i32 (left + right))
  else if op =? opSubRegReg then inl (i32 (left - right))
  else if op =? opMulRegReg then inl (i32 (left * right))
  else if op =? opDivRegReg then
    if right =? 0 then inr TrapDivisionByZero
    else if (left =? -2147483647 - 1) && (right =? -1) then inl left
    else inl (Z.quot left right)
  else if op =? opModRegReg then
    if right =? 0 then inr TrapDivisionByZero
    else if (left =? -2147483647 - 1) && (right =? -1) then inl 0
    else inl (Z.rem left right)
  else if op =? opAndRegReg then inl (Z.land left right)
  else if op =? opOrRegReg then inl (Z.lor left right)
  else if op =? opXorRegReg then inl (Z.lxor left right)
  else if op =? opAndNotRegReg then inl (Z.ldiff left right)
  else if op =? opShlRegReg then inl (shl32 left right)
  else if op =? opShrRegReg then inl (shr32 left right)
  else if op =? opShrUnsignedRegReg then inl (shru32 left right)
  else inr TrapInvalidInstruction.

Definition binaryValue (op dst right : Z) : GoM machine bool :=
  left ← reg dst;
  match binaryOp op left right with
  | inl v => _ ← setReg dst v; mret true
  | inr t => trapWith t
  end.

Definition binary (op dst src : Z) : GoM machine bool :=
  right ← reg src;
  binaryValue op dst right.

Definition currentOpcode (m : machine) : option Z :=
  if (m_currentPC m <? 0) || (lenZ (i_code (m_image m)) <=? m_currentPC m) then Some 0
  else i_code (m_image m) !!z m_currentPC m.
