(* ===== verification/VmExec.v ===== *)
(** The VM's instruction interpreter, its system calls over an isolated in-memory
    file system, and the run loop (std/vm/vm.go). *)

From S2P Require Import Prelude.
From S2P Require Import GoInt.
From S2P Require Import VmImage.
From S2P Require Import VmMachine.

(** * Directories *)

Record directoryEntry := DirEntry { e_name : list Z; e_isDir : bool }.

Fixpoint stringPrefix (text prefix : list Z) : bool :=
  match prefix, text with
  | [], _ => true
  | p :: prefix, t :: text => (t =? p) && stringPrefix text prefix
  | _ :: _, [] => false
  end.

(** Go's [<] on strings: bytewise lexicographic. *)
Fixpoint stringLess (a b : list Z) : bool :=
  match a, b with
  | [], [] => false
  | [], _ :: _ => true
  | _ :: _, [] => false
  | x :: a, y :: b => (x <? y) || (x =? y) && stringLess a b
  end.

(** The name up to the first slash (byte 47), and whether there is one. *)
Fixpoint firstComponent (child : list Z) : list Z * bool :=
  match child with
  | [] => ([], false)
  | c :: child =>
      if c =? 47 then ([], true)
      else let '(name, isDir) := firstComponent child in (c :: name, isDir)
  end.

(** One step of the insertion into the sorted entry list. *)
Fixpoint insertEntry (child : list Z) (isDir : bool) (entries : list directoryEntry)
    : list directoryEntry :=
  match entries with
  | [] => [DirEntry child isDir]
  | e :: rest =>
      if stringLess (e_name e) child then e :: insertEntry child isDir rest
      else if bool_decide (e_name e = child) then
        DirEntry (e_name e) (e_isDir e || isDir) :: rest
      else DirEntry child isDir :: e :: rest
  end.

Definition directoryPrefix (name : list Z) : list Z :=
  match last name with
  | Some 47 => name
  | _ => name ++ [47]
  end.

Definition addFile (prefix : list Z) (entries : list directoryEntry) (file : File)
    : list directoryEntry :=
  let path := f_Name file in
  if (lenZ path <=? lenZ prefix) || negb (stringPrefix path prefix) then entries
  else
    let '(child, isDir) := firstComponent (drop (length prefix) path) in
    if lenZ child =? 0 then entries else insertEntry child isDir entries.

Definition directoryEntries (files : list File) (name : list Z) : list directoryEntry :=
  foldl (addFile (directoryPrefix name)) [] files.

(** The record of entry [i]: inode, record size, type and name at their offsets. *)
Definition direntRecord (i : Z) (e : directoryEntry) : option (list Z) :=
  let recordSize := Z.ldiff (20 + lenZ (e_name e) + 7) 7 in
  let zeros := replicate (Z.to_nat recordSize) 0 in
  d1 ← insertZ zeros 0 (u8 (i + 1));
  d2 ← insertZ d1 16 (u8 recordSize);
  d3 ← insertZ d2 17 (u8 (Z.shiftr recordSize 8));
  d4 ← insertZ d3 18 8;
  d5 ← (if e_isDir e then insertZ d4 18 4 else Some d4);
  writeAll d5 19 (e_name e).

Fixpoint direntRecords (i : Z) (entries : list directoryEntry) : option (list Z) :=
  match entries with
  | [] => Some []
  | e :: entries =>
      r ← direntRecord i e;
      rest ← direntRecords (i + 1) entries;
      Some (r ++ rest)
  end.

(** [Some None]: no file lies below [name]. *)
Definition directoryData (files : list File) (name : list Z) : option (option (list Z)) :=
  match directoryEntries files name with
  | [] => Some None
  | entries => data ← direntRecords 0 entries; Some (Some data)
  end.

(** * System calls *)

(** [m.regs[regRax] = v; return true] *)
Definition sysReturn (v : Z) : GoM machine bool :=
  _ ← setReg regRax (i32 v); mret true.

(** The index of the first file of that name, -1 when there is none. *)
Fixpoint findFile (i : Z) (files : list File) (name : list Z) : Z :=
  match files with
  | [] => -1
  | f :: files => if bool_decide (f_Name f = name) then i else findFile (i + 1) files name
  end.

Definition createFlag : Z := 64.
Definition exclusiveFlag : Z := 128.
Definition truncateFlag : Z := 512.

(** [flags&mask != 0] *)
Definition hasFlag (flags mask : Z) : bool := negb (Z.land flags mask =? 0).

Definition appendFd (d : descriptor) : GoM machine bool :=
  m ← get;
  let fd := lenZ (m_fds m) in
  _ ← modify (set_fds (m_fds m ++ [d]));
  sysReturn fd.

(** The part of [open] after the file lookup. *)
Definition openFile (name : list Z) (file0 flags : Z) : GoM machine bool :=
  m ← get;
  if (0 <=? file0) && hasFlag flags createFlag && hasFlag flags exclusiveFlag then sysReturn (-1)
  else if (file0 <? 0) && negb (hasFlag flags createFlag) then sysReturn (-1)
  else
    _ ← (if file0 <? 0 then modify (set_files (m_files m ++ [MkFile name [] 493])) else mret tt);
    m ← get;
    let file := if file0 <? 0 then lenZ (m_files m) - 1 else file0 in
    _ ← (if hasFlag flags truncateFlag then
           f ← lift (m_files m !!z file);
           files ← lift (insertZ (m_files m) file (MkFile (f_Name f) [] (f_Mode f)));
           modify (set_files files)
         else mret tt);
    appendFd (Descriptor file 0 true []).

Definition open : GoM machine bool :=
  addr ← reg regRdi;
  size0 ← reg regRdx;
  flags ← reg regRsi;
  ok ← buffer addr size0;
  if negb ok then mret false
  else
    m ← get;
    size ← (if 0 <? size0 then
              b ← lift (m_memory m !!z (addr + size0 - 1));
              mret (if b =? 0 then size0 - 1 else size0)
            else mret size0);
    name ← lift (sliceZ (m_memory m) addr (addr + size));
    let file := findFile 0 (m_files m) name in
    directory ← (if file <? 0 then lift (directoryData (m_files m) name) else mret None);
    match directory with
    | Some data =>
        if hasFlag flags (Z.lor createFlag truncateFlag) then sysReturn (-1)
        else appendFd (Descriptor (-1) 0 true data)
    | None => openFile name file flags
    end.

(** [fd < 3 || fd >= len(m.fds) || !m.fds[fd].open] is false: the descriptor. *)
Definition openDescriptor (m : machine) (fd : Z) : option descriptor :=
  if fd <? 3 then None
  else match m_fds m !!z fd with
       | Some d => if d_open d then Some d else None
       | None => None
       end.

Definition setFd (fd : Z) (f : descriptor → descriptor) : GoM machine unit :=
  m ← get;
  d ← lift (m_fds m !!z fd);
  fds ← lift (insertZ (m_fds m) fd (f d));
  modify (set_fds fds).

Definition withOffset (offset : Z) (d : descriptor) : descriptor :=
  Descriptor (d_file d) offset (d_open d) (d_data d).

Definition closed (d : descriptor) : descriptor :=
  Descriptor (d_file d) (d_offset d) false (d_data d).

Section Calls.
(** The capacity of a byte slice whose contents are the given bytes: Go leaves
    it to the allocator, at least the length. *)
Variable slice_cap : list Z → Z.

(** [data[lo:hi]], checked against the capacity. *)
Definition sliceCap (data : list Z) (lo hi : Z) : option (list Z) :=
  if (0 <=? lo) && (lo <=? hi) && (hi <=? slice_cap data) then Some (sublistZ data lo hi)
  else None.

(** The transfer at the end of [readAt]. *)
Definition readTransfer (fd addr size offset at_ : Z) (data : list Z) : GoM machine bool :=
  if at_ <? 0 then sysReturn (-1)
  else
    let count := if lenZ data <? at_ then 0
                 else if lenZ data - at_ <? size then lenZ data - at_ else size in
    ok ← charge count;
    if negb ok then mret false
    else
      m ← get;
      _ ← lift (sliceZ (m_memory m) addr (addr + count));
      source ← lift (sliceCap data at_ (at_ + count));
      memory ← lift (writeAll (m_memory m) addr source);
      _ ← modify (set_memory memory);
      _ ← (if offset <? 0 then
             if fd =? 0 then modify (set_stdinAt (at_ + count))
             else setFd fd (withOffset (at_ + count))
           else mret tt);
      sysReturn count.

Definition readAt (fd addr size offset : Z) : GoM machine bool :=
  ok ← buffer addr size;
  if negb ok then mret false
  else
    m ← get;
    if fd =? 0 then
      readTransfer fd addr size offset (if offset <? 0 then m_stdinAt m else offset) (m_stdin m)
    else
      match openDescriptor m fd with
      | None => sysReturn (-1)
      | Some d =>
          data ← (if d_file d <? 0 then mret (d_data d)
                  else f ← lift (m_files m !!z d_file d); mret (f_Data f));
          readTransfer fd addr size offset (if offset <? 0 then d_offset d else offset) data
      end.

(** Standard output and standard error. *)
Definition writeStream (fd addr size : Z) : GoM machine bool :=
  m ← get;
  let out := if fd =? 1 then m_output m else m_stderr m in
  if l_Memory (m_limits m) <? lenZ out + size then trapWith TrapOutputLimit
  else
    bytes ← lift (sliceZ (m_memory m) addr (addr + size));
    _ ← modify (if fd =? 1 then set_output (out ++ bytes) else set_stderr (out ++ bytes));
    sysReturn size.

(** [file.Data] extended with zeros to [n] bytes when shorter. *)
Definition growData (data : list Z) (n : Z) : list Z :=
  if lenZ data <? n then data ++ replicate (Z.to_nat (n - lenZ data)) 0 else data.

Definition writeFile (fd addr size offset : Z) (d : descriptor) : GoM machine bool :=
  m ← get;
  let at_ := if offset <? 0 then d_offset d else offset in
  let memoryLimit := l_Memory (m_limits m) in
  if (at_ <? 0) || (memoryLimit <? at_) || (memoryLimit - at_ <? size) then sysReturn (-1)
  else
    file ← lift (m_files m !!z d_file d);
    let grown := growData (f_Data file) (at_ + size) in
    bytes ← lift (sliceZ (m_memory m) addr (addr + size));
    data ← lift (writeAll grown at_ bytes);
    files ← lift (insertZ (m_files m) (d_file d) (MkFile (f_Name file) data (f_Mode file)));
    _ ← modify (set_files files);
    _ ← (if offset <? 0 then setFd fd (withOffset (at_ + size)) else mret tt);
    sysReturn size.

Definition writeAt (fd addr size offset : Z) : GoM machine bool :=
  okB ← buffer addr size;
  if negb okB then mret false
  else
    okC ← charge size;
    if negb okC then mret false
    else
      if (fd =? 1) || (fd =? 2) then writeStream fd addr size
      else
        m ← get;
        match openDescriptor m fd with
        | None => sysReturn (-1)
        | Some d => if d_file d <? 0 then sysReturn (-1) else writeFile fd addr size offset d
        end.

Definition sysClose : GoM machine bool :=
  fd ← reg regRdi;
  m ← get;
  match openDescriptor m fd with
  | None => sysReturn (-1)
  | Some _ => _ ← setFd fd closed; sysReturn 0
  end.

Definition sysChmod : GoM machine bool :=
  fd ← reg regRdi;
  m ← get;
  match openDescriptor m fd with
  | None => sysReturn (-1)
  | Some d =>
      if d_file d <? 0 then sysReturn (-1)
      else
        mode ← reg regRsi;
        f ← lift (m_files m !!z d_file d);
        files ← lift (insertZ (m_files m) (d_file d) (MkFile (f_Name f) (f_Data f) mode));
        _ ← modify (set_files files);
        sysReturn 0
  end.

Definition sysGetdents : GoM machine bool :=
  fd ← reg regRdi;
  m ← get;
  match openDescriptor m fd with
  | None => sysReturn (-1)
  | Some d =>
      if 0 <=? d_file d then sysReturn (-1)
      else
        addr ← reg regRsi;
        size ← reg regRdx;
        readAt fd addr size (-1)
  end.

Definition syscall : GoM machine bool :=
  number ← reg regRax;
  if (number =? 0) || (number =? 1) then
    fd ← reg regRdi;
    addr ← reg regRsi;
    size ← reg regRdx;
    ok ← buffer addr size;
    if negb ok then mret false
    else if number =? 0 then readAt fd addr size (-1)
    else writeAt fd addr size (-1)
  else if number =? 3 then sysClose
  else if (number =? 17) || (number =? 18) then
    fd ← reg regRdi;
    addr ← reg regRsi;
    size ← reg regRdx;
    offset ← reg regR10;
    if number =? 17 then readAt fd addr size offset else writeAt fd addr size offset
  else if number =? sysGetdents64 then sysGetdents
  else if number =? 2 then open
  else if number =? 91 then sysChmod
  else sysReturn (-1).

(** * Instructions *)

(** [int(code[i])] and [int32(read32(code, i))]. *)
Definition codeByte (i : Z) : GoM machine Z := m ← get; lift (i_code (m_image m) !!z i).
Definition codeInt32 (i : Z) : GoM machine Z :=
  m ← get; v ← lift (read32 (i_code (m_image m)) i); mret (i32 v).
(** [read32(code, i)], an unsigned quantity. *)
Definition codeWord (i : Z) : GoM machine Z := m ← get; lift (read32 (i_code (m_image m)) i).

(** [m.regs[int(code[i])]] *)
Definition regAt (i : Z) : GoM machine Z := r ← codeByte i; reg r.

(** The sequencing [if !m.a() { return false }; return m.b()]. *)
Definition andThen (a b : GoM machine bool) : GoM machine bool :=
  ok ← a; if (ok : bool) then b else mret false.

Definition stepBuildArgsEnv : GoM machine bool :=
  m0 ← get;
  args ← buildStrings (m_args m0);
  match args with
  | None => mret false
  | Some args =>
      env ← buildStrings (m_env m0);
      match env with
      | None => mret false
      | Some env =>
          _ ← setReg regRdi (i32 args);
          _ ← setReg regRsi (i32 (lenZ (m_args m0)));
          _ ← setReg regRdx (i32 (lenZ (m_args m0)));
          _ ← setReg regRcx (i32 env);
          _ ← setReg regR8 (i32 (lenZ (m_env m0)));
          _ ← setReg regR9 (i32 (lenZ (m_env m0)));
          _ ← modify (λ m, set_stackBase (m_sp m) m);
          mret true
      end
  end.

(** [m.regs[int(code[at])] = int32(read32(code, imm))] *)
Definition movImm (at_ imm : Z) : GoM machine bool :=
  v ← codeInt32 imm; r ← codeByte at_; _ ← setReg r v; mret true.

Definition movReg (dst src : Z) : GoM machine bool :=
  v ← regAt src; r ← codeByte dst; _ ← setReg r v; mret true.

Definition pushAt (i : Z) : GoM machine bool := v ← regAt i; push v.
Definition popAt (i : Z) : GoM machine bool := r ← codeByte i; popReg r.
Definition loadStackAt (r imm : Z) : GoM machine bool :=
  r ← codeByte r; off ← codeInt32 imm; loadStack r off.

(** The fused instructions (opcodes 48 to 54). *)
Definition stepFused (op pc : Z) : GoM machine bool :=
  if op =? opPushRegLoadStack then andThen (pushAt (pc + 1)) (loadStackAt (pc + 2) (pc + 3))
  else if op =? opLoadStackPushReg then andThen (loadStackAt (pc + 1) (pc + 2)) (pushAt (pc + 6))
  else if op =? opPushRegMovImm then andThen (pushAt (pc + 1)) (movImm (pc + 2) (pc + 3))
  else if op =? opLoadMemPushReg then
    andThen (r ← codeByte (pc + 1); base ← codeByte (pc + 2);
             disp ← codeInt32 (pc + 3); size ← codeByte (pc + 7);
             loadMem r base disp size)
            (pushAt (pc + 8))
  else if op =? opLoadStackPop then andThen (loadStackAt (pc + 1) (pc + 2)) (popAt (pc + 6))
  else if op =? opMovRegImmPop then andThen (movImm (pc + 1) (pc + 2)) (popAt (pc + 6))
  else andThen (movReg (pc + 1) (pc + 2)) (popAt (pc + 3)).

Definition stepLoadStore (op pc : Z) : GoM machine bool :=
  if (op =? opLoadStack) || (op =? opStoreStack) || (op =? opLeaStack) then
    r ← codeByte (pc + 1);
    off ← codeInt32 (pc + 2);
    m ← get;
    let addr := m_fp m - off in
    if op =? opLeaStack then
      ok ← address addr 0;
      if negb ok then mret false else _ ← setReg r (i32 addr); mret true
    else if op =? opLoadStack then loadStack r off
    else v ← reg r; store addr 4 (u32 v)
  else if (op =? opLoadMem) || (op =? opStoreMem) then
    r ← codeByte (pc + 1);
    base ← codeByte (pc + 2);
    b ← reg base;
    disp ← codeInt32 (pc + 3);
    size ← codeByte (pc + 7);
    if op =? opLoadMem then loadMem r base disp size
    else v ← reg r; store (b + disp) size (u32 v)
  else
    r ← codeByte (pc + 1);
    base ← codeByte (pc + 2);
    index ← codeByte (pc + 3);
    scale ← codeByte (pc + 4);
    b ← reg base;
    x ← reg index;
    disp ← codeInt32 (pc + 5);
    size ← codeByte (pc + 9);
    let addr := b + x * scale + disp in
    if op =? opLoadIndex then value ← loadSized addr size; assignLoaded r value
    else v ← reg r; store addr size (u32 v).

Definition stepArith (op pc : Z) : GoM machine bool :=
  if (opAddRegReg <=? op) && (op <=? opShrRegReg) || (op =? opShrUnsignedRegReg) then
    dst ← codeByte (pc + 1); src ← codeByte (pc + 2); binary op dst src
  else if op =? opBinaryRegImm then
    op' ← codeByte (pc + 6); dst ← codeByte (pc + 1); imm ← codeInt32 (pc + 2);
    binaryValue op' dst imm
  else if (op =? opAddRegImm) || (op =? opMulRegImm) then
    r ← codeByte (pc + 1); imm ← codeInt32 (pc + 2);
    v ← reg r;
    _ ← setReg r (if op =? opAddRegImm then i32 (v + imm) else i32 (v * imm));
    mret true
  else if op =? opIncReg then
    r ← codeByte (pc + 1); v ← reg r; _ ← setReg r (i32 (v + 1)); mret true
  else if (op =? opIncMem) || (op =? opDecMem) then
    addr ← regAt (pc + 1);
    value ← load addr 4;
    match value with
    | None => mret false
    | Some v => store addr 4 (u32 (if op =? opIncMem then v + 1 else v - 1))
    end
  else if op =? opBoolNot then
    r ← codeByte (pc + 1); v ← reg r; _ ← setReg r (if v =? 0 then 1 else 0); mret true
  else
    r ← codeByte (pc + 1); v ← reg r; _ ← setReg r (i32 (- v)); mret true.

Definition stepCall (pc next : Z) : GoM machine bool :=
  target ← codeWord (pc + 1);
  m ← get;
  targetRoutine ← lift (findRoutine (i_routines (m_image m)) target);
  if targetRoutine <? 0 then trapWith TrapInvalidInstruction
  else
    callee ← lift (i_routines (m_image m) !!z targetRoutine);
    frameSize ← (if r_framed callee then
                   caller ← lift (i_routines (m_image m) !!z m_routine m);
                   mret (r_frameSize caller)
                 else mret 0);
    let newFP := m_fp m - frameSize in
    if (newFP <? m_sp m) || (newFP <? 0) then trapWith TrapMemoryLimit
    else
      wordCount ← codeWord (pc + 5);
      let drop := if 6 <? wordCount then (wordCount - 6) * 4 else 0 in
      _ ← modify (λ m, set_calls
             (m_calls m ++ [CallFrame next (m_fp m) (m_sp m) (m_routine m) drop]) m);
      _ ← modify (set_fp newFP);
      _ ← modify (set_routine targetRoutine);
      _ ← modify (set_pc target);
      updatePeak.

Definition stepRet : GoM machine bool :=
  m ← get;
  match last (m_calls m) with
  | None => mret false
  | Some frame =>
      _ ← modify (set_calls (removelast (m_calls m)));
      if cf_sp frame - m_stackBase m <? cf_drop frame then trapWith TrapInvalidInstruction
      else
        _ ← modify (set_sp (cf_sp frame - cf_drop frame));
        _ ← modify (set_pc (cf_pc frame));
        _ ← modify (set_fp (cf_fp frame));
        _ ← modify (set_routine (cf_routine frame));
        mret true
  end.

Definition stepControl (op pc next : Z) : GoM machine bool :=
  if op =? opCmpRegImm then
    a ← regAt (pc + 1); b ← codeInt32 (pc + 2); _ ← modify (set_flag (i32 (a - b))); mret true
  else if op =? opCmpRegReg then
    a ← regAt (pc + 1); b ← regAt (pc + 2); _ ← modify (set_flag (i32 (a - b))); mret true
  else if op =? opSetCond then
    cond ← codeByte (pc + 1);
    m ← get;
    _ ← setReg regRax (if condition (m_flag m) cond then 1 else 0); mret true
  else if op =? opJmp then
    target ← codeWord (pc + 1); _ ← modify (set_pc target); mret true
  else if (op =? opJz) || (op =? opJnz) then
    m ← get;
    let zero := m_flag m =? 0 in
    if (op =? opJz) && zero || (op =? opJnz) && negb zero then
      target ← codeWord (pc + 1); _ ← modify (set_pc target); mret true
    else mret true
  else if op =? opJCond then
    cond ← codeByte (pc + 1);
    m ← get;
    if condition (m_flag m) cond then
      target ← codeWord (pc + 2); _ ← modify (set_pc target); mret true
    else mret true
  else if op =? opCall then stepCall pc next
  else if op =? opRet then stepRet
  else if op =? opSyscall then syscall
  else if op =? opNop then mret true
  else trapWith TrapInvalidInstruction.

(** The body of [step] once the opcode is fetched. *)
Definition dispatch (op pc next : Z) : GoM machine bool :=
  if op =? opExit then mret false
  else if op =? opBuildArgsEnv then stepBuildArgsEnv
  else if op =? opMovRegImm then movImm (pc + 1) (pc + 2)
  else if op =? opMovRegReg then movReg (pc + 1) (pc + 2)
  else if op =? opPushReg then pushAt (pc + 1)
  else if op =? opPushImm then v ← codeInt32 (pc + 1); push v
  else if op =? opPopReg then popAt (pc + 1)
  else if (opPushRegLoadStack <=? op) && (op <=? opMovRegRegPop) then stepFused op pc
  else if (op =? opLoadStack) || (op =? opStoreStack) || (op =? opLeaStack) ||
          (op =? opLoadMem) || (op =? opStoreMem) ||
          (op =? opLoadIndex) || (op =? opStoreIndex) then stepLoadStore op pc
  else if (opAddRegReg <=? op) && (op <=? opShrRegReg) || (op =? opShrUnsignedRegReg) ||
          (op =? opBinaryRegImm) || (op =? opAddRegImm) || (op =? opMulRegImm) ||
          (op =? opIncReg) || (op =? opIncMem) || (op =? opDecMem) ||
          (op =? opBoolNot) || (op =? opNegReg) then stepArith op pc
  else stepControl op pc next.

Definition step : GoM machine bool :=
  m ← get;
  if (m_pc m <? 0) || (lenZ (i_code (m_image m)) <=? m_pc m) then trapWith TrapInvalidInstruction
  else
    _ ← modify (set_currentPC (m_pc m));
    ok ← charge 1;
    if negb ok then mret false
    else
      let code := i_code (m_image m) in
      op ← lift (code !!z m_pc m);
      let next := nextInstruction code (m_pc m) in
      _ ← modify (set_pc next);
      dispatch op (m_pc m) next.

(** * Running *)

Inductive outcome {A : Type} :=
  | Returned (a : A)
  | Panicked
  | OutOfFuel.
Arguments outcome : clear implicits.

(** The loop [for m.trap == TrapNone { if !m.step() { break } }]. *)
Fixpoint runLoop (fuel : nat) (m : machine) : outcome machine :=
  match fuel with
  | O => OutOfFuel
  | S fuel =>
      if m_trap m =? TrapNone then
        match step m with
        | None => Panicked
        | Some (true, m') => runLoop fuel m'
        | Some (false, m') => Returned m'
        end
      else Returned m
  end.

(** [resultFiles], and the copy of the configured files at the start. *)
Definition copyFiles (files : list File) : list File :=
  (λ f, MkFile (f_Name f) ([] ++ f_Data f) (f_Mode f)) <$> files.

Definition trapResult (t : Z) : Result := MkResult 0 0 0 [] [] [] t 0 0.

Definition initialMachine (img : image) (config : Config) (memory : list Z) : machine :=
  let limits := c_Limits config in
  let staticEnd := i_bssBase img + i_bssSize img in
  Machine img limits memory (replicate 8 0) 0 0 staticEnd staticEnd (l_Memory limits) 0 0 []
    0 staticEnd [] [] TrapNone (c_Args config) (c_Env config) (c_Stdin config) 0
    (copyFiles (c_Files config)) (replicate 3 (Descriptor 0 0 false [])).

(** [copy(m.memory[dataBase:dataBase+len(data)], data)] into fresh memory. *)
Definition initialMemory (img : image) (limits : Limits) : option (list Z) :=
  let zeros := replicate (Z.to_nat (l_Memory limits)) 0 in
  _ ← sliceZ zeros (i_dataBase img) (i_dataBase img + lenZ (i_data img));
  writeAll zeros (i_dataBase img) (i_data img).

Definition machineResult (m : machine) : option Result :=
  rax ← m_regs m !!z regRax;
  op ← currentOpcode m;
  Some (MkResult rax (m_steps m) (m_peak m) (m_output m) (m_stderr m) (copyFiles (m_files m))
          (m_trap m) (m_currentPC m) op).

(** Each iteration but the last charges one step, so [Steps + 2] units of fuel
    are enough ([RunConfig_total]). *)
Definition runFuel (limits : Limits) : nat := S (S (Z.to_nat (l_Steps limits))).

Definition RunConfig (program : list Z) (config : Config) : outcome Result :=
  let limits := c_Limits config in
  if (l_Steps limits <=? 0) || (l_Memory limits <? minAddress) then
    Returned (trapResult TrapInvalidLimits)
  else
    match decodeImage program with
    | None => Panicked
    | Some None => Returned (trapResult TrapInvalidProgram)
    | Some (Some img) =>
        let staticEnd := i_bssBase img + i_bssSize img in
        if (staticEnd <? i_bssBase img) || (l_Memory limits <? staticEnd) then
          Returned (trapResult TrapMemoryLimit)
        else
          match initialMemory img limits with
          | None => Panicked
          | Some memory =>
              match runLoop (runFuel limits) (initialMachine img config memory) with
              | Returned m =>
                  match machineResult m with
                  | Some r => Returned r
                  | None => Panicked
                  end
              | Panicked => Panicked
              | OutOfFuel => OutOfFuel
              end
          end
    end.

Definition Run (program : list Z) (limits : Limits) : outcome Result :=
  RunConfig program (MkConfig limits [] [] [] []).
End Calls.

Arguments outcome : clear implicits.
