(* ===== verification/VmImageFacts.v ===== *)
(** Properties of the VM's program image: byte access, routine lookup, the code
    validator and the image decoder. *)

From S2P Require Import Prelude.
From S2P Require Import GoInt.
From S2P Require Import VmImage.

(** * Specifications *)

(** The positions at which an instruction of [code] may start: those reached from
    0 by stepping over whole instructions, the end of the code included. *)
Inductive boundary (code : list Z) : Z → Prop :=
  | boundary_0 : boundary code 0
  | boundary_next pc :
      boundary code pc → pc < lenZ code → boundary code (nextInstruction code pc).

(** The instruction at [pc] lies inside the code and has valid operands. *)
Definition instr_ok (code : list Z) (pc : Z) : Prop :=
  pc < nextInstruction code pc ≤ lenZ code ∧ validOperands code pc = Some true.

(** Its branch target, if any, is the start of an instruction; a call names a routine. *)
Definition target_ok (code : list Z) (routines : list routine) (pc : Z) : Prop :=
  ∀ t, branchTarget code pc = Some t → 0 ≤ t →
    t < lenZ code ∧ boundary code t ∧
    (code !!z pc = Some opCall → ∃ i, findRoutine routines t = Some i ∧ 0 ≤ i).

Record code_ok (code : list Z) (routines : list routine) : Prop := {
  code_ok_instr : ∀ pc, boundary code pc → pc < lenZ code → instr_ok code pc;
  code_ok_target : ∀ pc, boundary code pc → pc < lenZ code → target_ok code routines pc;
  code_ok_routine : ∀ r, r ∈ routines → boundary code (r_pc r)
}.

Definition routines_sorted (routines : list routine) : Prop :=
  ∀ i j ri rj, routines !!z i = Some ri → routines !!z j = Some rj → i < j →
    r_pc ri < r_pc rj.

(** * Byte access *)

Lemma read16_inv d at_ v :
  bytes_ok d → read16 d at_ = Some v → 0 ≤ at_ ∧ at_ + 2 ≤ lenZ d ∧ 0 ≤ v < 2 ^ 16.
Proof.
  unfold read16. intros Hd H.
  destruct (d !!z at_) as [a|] eqn:Ea; simpl in H; [|done].
  destruct (d !!z (at_ + 1)) as [b|] eqn:Eb; simpl in H; [|done].
  injection H as <-. pose proof (lookupZ_lt_Some _ _ _ Ea).
  pose proof (lookupZ_lt_Some _ _ _ Eb).
  split_and!; try lia; apply (le16_range a b); by eapply lookupZ_Forall.
Qed.

Lemma read32_bytes d at_ v :
  read32 d at_ = Some v ↔ ∃ a b c e,
    d !!z at_ = Some a ∧ d !!z (at_ + 1) = Some b ∧
    d !!z (at_ + 2) = Some c ∧ d !!z (at_ + 3) = Some e ∧ v = le32 a b c e.
Proof.
  unfold read32, read16. replace (at_ + 2 + 1) with (at_ + 3) by lia.
  split.
  - destruct (d !!z at_) as [a|]; simpl; [|done].
    destruct (d !!z (at_ + 1)) as [b|]; simpl; [|done].
    destruct (d !!z (at_ + 2)) as [c|]; simpl; [|done].
    destruct (d !!z (at_ + 3)) as [e|]; simpl; [|done].
    fold (le16 a b) (le16 c e). rewrite <- le32_le16. intros [= <-]. by exists a, b, c, e.
  - intros (a&b&c&e&->&->&->&->&->). simpl. by rewrite le32_le16.
Qed.

Lemma read32_Some d at_ :
  bytes_ok d → 0 ≤ at_ → at_ + 4 ≤ lenZ d → ∃ v, read32 d at_ = Some v ∧ u32_ok v.
Proof.
  intros Hd H0 H4.
  destruct (lookupZ_lt_is_Some d at_) as [a Ea]; [lia|].
  destruct (lookupZ_lt_is_Some d (at_ + 1)) as [b Eb]; [lia|].
  destruct (lookupZ_lt_is_Some d (at_ + 2)) as [c Ec]; [lia|].
  destruct (lookupZ_lt_is_Some d (at_ + 3)) as [e Ee]; [lia|].
  exists (le32 a b c e). split; [apply read32_bytes; by exists a, b, c, e|].
  apply le32_range; by eapply lookupZ_Forall.
Qed.

Lemma read32_inv d at_ v :
  bytes_ok d → read32 d at_ = Some v → 0 ≤ at_ ∧ at_ + 4 ≤ lenZ d ∧ u32_ok v.
Proof.
  intros Hd (a&b&c&e&Ea&Eb&Ec&Ee&->)%read32_bytes.
  pose proof (lookupZ_lt_Some _ _ _ Ea). pose proof (lookupZ_lt_Some _ _ _ Ee).
  split_and!; try lia; apply le32_range; by eapply lookupZ_Forall.
Qed.

Lemma write32_writeAll d at_ v : write32 d at_ v = writeAll d at_ (bytes32 v).
Proof.
  unfold write32, bytes32. simpl.
  destruct (insertZ d at_ _) as [d1|]; simpl; [|done].
  destruct (insertZ d1 (at_ + 1) _) as [d2|]; simpl; [|done].
  replace (at_ + 1 + 1) with (at_ + 2) by lia.
  destruct (insertZ d2 (at_ + 2) _) as [d3|]; simpl; [|done].
  replace (at_ + 2 + 1) with (at_ + 3) by lia.
  by destruct (insertZ d3 (at_ + 3) _).
Qed.

Lemma write32_Some d at_ v : 0 ≤ at_ → at_ + 4 ≤ lenZ d → ∃ d', write32 d at_ v = Some d'.
Proof. intros. rewrite write32_writeAll. apply writeAll_Some; [done|]. done. Qed.

Lemma write32_length d at_ v d' : write32 d at_ v = Some d' → lenZ d' = lenZ d.
Proof. rewrite write32_writeAll. apply writeAll_length. Qed.

Lemma write32_bytes_ok d at_ v d' : bytes_ok d → write32 d at_ v = Some d' → bytes_ok d'.
Proof. rewrite write32_writeAll. intros Hd. by apply writeAll_Forall, bytes32_ok. Qed.

(** A stored word reads back modulo 2^32. *)
Lemma write32_read32 d at_ v d' : write32 d at_ v = Some d' → read32 d' at_ = Some (u32 v).
Proof.
  rewrite write32_writeAll. intros H. apply read32_bytes.
  assert (∀ j, 0 ≤ j < 4 → d' !!z (at_ + j) = bytes32 v !!z j) as Hj.
  { intros. by eapply writeAll_lookup_in. }
  do 4 eexists. rewrite <- (Z.add_0_r at_) at 1.
  rewrite !Hj by lia. split_and!; try reflexivity. by rewrite le32_bytes.
Qed.

Lemma write32_frame d at_ v d' j :
  write32 d at_ v = Some d' → j < at_ ∨ at_ + 4 ≤ j → d' !!z j = d !!z j.
Proof. rewrite write32_writeAll. intros H Hj. by eapply writeAll_lookup_out. Qed.

(** * Opcodes *)

Definition validOps : list Z := seqZ 1 44 ++ seqZ 47 8.

(** Splits [H : op ∈ validOps] into one goal per opcode. *)
Ltac case_op H :=
  vm_compute in H;
  repeat (apply elem_of_cons in H as [->|H]); [..|by apply elem_of_nil in H].

Lemma validOps_spec op :
  (op <? opExit) || (opShrUnsignedRegReg <? op) &&
     ((op <? opBinaryRegImm) || (opMovRegRegPop <? op)) = false ↔ op ∈ validOps.
Proof.
  unfold validOps. rewrite elem_of_app, !elem_of_seqZ.
  unfold opExit, opShrUnsignedRegReg, opBinaryRegImm, opMovRegRegPop. lia.
Qed.

Lemma andO_total a b :
  (∃ x, a = Some x) → (∃ y, b = Some y) → ∃ z, a &&? b = Some z.
Proof. intros [[] ->] [y ->]; eauto. Qed.

Lemma andO_true a b : a &&? b = Some true ↔ a = Some true ∧ b = Some true.
Proof. destruct a as [[]|]; simpl; split; intros H; destruct_and?; done. Qed.

Lemma regOperand_total code i : 0 ≤ i < lenZ code → ∃ b, regOperand code i = Some b.
Proof. intros [x Hx]%lookupZ_lt_is_Some. unfold regOperand. rewrite Hx. simpl. eauto. Qed.

Lemma byteTest_total code i t : 0 ≤ i < lenZ code → ∃ b, byteTest code i t = Some b.
Proof. intros [x Hx]%lookupZ_lt_is_Some. unfold byteTest. rewrite Hx. simpl. eauto. Qed.

Lemma validOperands_total code pc :
  0 ≤ pc → pc < lenZ code → nextInstruction code pc ≤ lenZ code →
  ∃ b, validOperands code pc = Some b.
Proof.
  intros H0 Hlt Hnext. destruct (lookupZ_lt_is_Some code pc) as [op Hop]; [lia|].
  unfold nextInstruction in Hnext. unfold validOperands. rewrite Hop in *.
  cbn [mbind option_bind].
  destruct ((op <? opExit) || _) eqn:Hv; [eauto|].
  apply validOps_spec in Hv.
  case_op Hv; cbn -[regOperand byteTest Z.add validLoadSize validSize lookupZ] in *.
  all: try match goal with
    | |- context [?c !!z ?i ≫= _] =>
        destruct (lookupZ_lt_is_Some c i) as [? ->]; [lia|]; simpl
    end.
  all: repeat apply andO_total; try (apply regOperand_total; lia);
    try (apply byteTest_total; lia); eauto.
Qed.

Lemma validOperands_op code pc op :
  validOperands code pc = Some true → code !!z pc = Some op → op ∈ validOps.
Proof.
  unfold validOperands. intros H Hop. rewrite Hop in H. simpl in H. apply validOps_spec.
  by destruct (_ || _).
Qed.

Lemma nextInstruction_range code pc :
  0 ≤ pc → pc < lenZ code → pc < nextInstruction code pc ≤ pc + 13.
Proof.
  intros. destruct (lookupZ_lt_is_Some code pc) as [op Hop]; [lia|].
  unfold nextInstruction. rewrite Hop. unfold instructionSize. repeat case_match; lia.
Qed.

Lemma boundary_nonneg code pc : boundary code pc → 0 ≤ pc.
Proof.
  induction 1 as [|pc H IH Hlt]; [lia|]. pose proof (nextInstruction_range code pc). lia.
Qed.

(** * Routine lookup *)

Lemma findRoutine_loop_spec fuel routines pc lo hi :
  routines_sorted routines →
  0 ≤ lo → lo ≤ hi → hi ≤ lenZ routines → hi - lo < Z.of_nat fuel →
  (∀ i r, routines !!z i = Some r → i < lo → r_pc r < pc) →
  (∀ i r, routines !!z i = Some r → hi ≤ i → pc ≤ r_pc r) →
  ∃ k, findRoutine_loop fuel routines pc lo hi = Some k ∧ 0 ≤ k ≤ lenZ routines ∧
    (∀ i r, routines !!z i = Some r → i < k → r_pc r < pc) ∧
    (∀ i r, routines !!z i = Some r → k ≤ i → pc ≤ r_pc r).
Proof.
  intros Hs. revert lo hi. induction fuel as [|fuel IH]; intros lo hi H0 H1 H2 Hf Hlo Hhi; [lia|].
  cbn [findRoutine_loop]. destruct (Z.ltb_spec lo hi) as [Hlt|Hge].
  - set (mid := (lo + hi) `div` 2).
    assert (lo ≤ mid < hi) as Hmid by (unfold mid; Z.div_mod_to_equations; lia).
    destruct (lookupZ_lt_is_Some routines mid) as [r Hr]; [lia|]. rewrite Hr. simpl.
    destruct (Z.ltb_spec (r_pc r) pc).
    + apply IH; [lia..| |done]. intros i ri Hi Him.
      destruct (decide (i = mid)) as [->|]; [congruence|].
      pose proof (Hs i mid ri r Hi Hr). lia.
    + apply IH; [lia..|done|]. intros i ri Hi Him.
      destruct (decide (i = mid)) as [->|]; [rewrite Hr in Hi; injection Hi as <-; lia|].
      pose proof (Hs mid i r ri Hr Hi). lia.
  - exists lo. split_and!; [done|lia|lia|done|].
    intros i r Hi Hle. apply (Hhi i r); [done|lia].
Qed.

(** The binary search finds the routine that starts at [pc] exactly when there is one. *)
Lemma findRoutine_correct routines pc :
  routines_sorted routines →
  ∃ i, findRoutine routines pc = Some i ∧
    ((∃ r, routines !!z i = Some r ∧ r_pc r = pc) ∨
     (i = -1 ∧ ∀ r, r ∈ routines → r_pc r ≠ pc)).
Proof.
  intros Hs. pose proof (lenZ_nonneg routines).
  destruct (findRoutine_loop_spec (S (length routines)) routines pc 0 (lenZ routines))
    as (k&Hk&Hr&Hlo&Hhi); [done|lia|lia|lia|unfold lenZ; lia| | |].
  { intros i r Hi%lookupZ_lt_Some. lia. }
  { intros i r Hi%lookupZ_lt_Some. lia. }
  unfold findRoutine. rewrite Hk. cbn [mbind option_bind].
  assert (∀ r, r ∈ routines → ∃ i, routines !!z i = Some r) as Hin.
  { intros r [n Hn]%list_elem_of_lookup. exists (Z.of_nat n). by rewrite lookupZ_of_nat. }
  destruct (Z.ltb_spec k (lenZ routines)) as [Hlt|].
  - destruct (lookupZ_lt_is_Some routines k) as [r Hkr]; [lia|]. rewrite Hkr. simpl.
    destruct (Z.eqb_spec (r_pc r) pc) as [He|Hne]; eexists; (split; [done|]); [left; eauto|].
    right. split; [done|]. intros r' [i Hi]%Hin Heq.
    destruct (Z.lt_trichotomy i k) as [?|[->|?]].
    + specialize (Hlo i r' Hi). lia.
    + rewrite Hkr in Hi. congruence.
    + pose proof (Hs k i r r' Hkr Hi). specialize (Hhi k r Hkr). lia.
  - eexists; split; [done|]. right. split; [done|]. intros r' [i Hi]%Hin Heq.
    specialize (Hlo i r' Hi). apply lookupZ_lt_Some in Hi. lia.
Qed.

(** * The validator *)

(** What [starts] records when the first loop stands at [pc]: sound instruction
    starts below [pc], closed under stepping except for [pc] itself. *)
Record marking (code : list Z) (pc : Z) (starts : list bool) : Prop := {
  mark_length : lenZ starts = lenZ code + 1;
  mark_sound : ∀ i, starts !!z i = Some true → boundary code i ∧ i < pc ∧ instr_ok code i;
  mark_zero : pc = 0 ∨ starts !!z 0 = Some true;
  mark_next : ∀ i, starts !!z i = Some true →
    nextInstruction code i = pc ∨ starts !!z nextInstruction code i = Some true
}.

Definition marked (code : list Z) (starts : list bool) : Prop :=
  lenZ starts = lenZ code + 1 ∧
  (∀ i, starts !!z i = Some true ↔ boundary code i) ∧
  (∀ i, boundary code i → i < lenZ code → instr_ok code i).

Lemma insertZ_true l i l' :
  insertZ l i true = Some l' → ∀ j, l' !!z j = Some true ↔ j = i ∨ l !!z j = Some true.
Proof.
  intros H j. destruct (decide (j = i)) as [->|Hne].
  - apply insertZ_lookup_eq in H. split; [by left|done].
  - rewrite (insertZ_lookup_ne _ _ _ _ _ H) by done. split; [by right|by intros [?|?]].
Qed.

Lemma marking_step code pc starts s1 :
  marking code pc starts → boundary code pc → instr_ok code pc →
  insertZ starts pc true = Some s1 → marking code (nextInstruction code pc) s1.
Proof.
  intros [Hlen HA HB HC] Hb Hok Hs1. pose proof Hok as [Hn _].
  pose proof (insertZ_true _ _ _ Hs1) as Ht.
  pose proof (insertZ_length _ _ _ _ Hs1). pose proof (insertZ_inv _ _ _ _ Hs1) as [Hr _].
  split; [lia|..].
  - intros i [->|Hi]%Ht; [split; [done|split; [lia|done]]|].
    destruct (HA i Hi) as (?&?&?). split; [done|split; [lia|done]].
  - right. apply Ht. destruct HB as [->|]; auto.
  - intros i [->|Hi]%Ht; [by left|]. right. apply Ht. by apply HC.
Qed.

Lemma marking_end code starts s1 :
  marking code (lenZ code) starts → boundary code (lenZ code) →
  insertZ starts (lenZ code) true = Some s1 → marked code s1.
Proof.
  intros [Hlen HA HB HC] Hb Hs1. pose proof (insertZ_true _ _ _ Hs1) as Ht.
  assert (∀ i, boundary code i → s1 !!z i = Some true) as Hall.
  { induction 1 as [|p Hp IH Hlt]; apply Ht.
    - destruct HB as [<-|]; auto.
    - apply Ht in IH as [->|IH]; [lia|]. by apply HC. }
  split_and!.
  - by rewrite (insertZ_length _ _ _ _ Hs1).
  - intros i. split; [|apply Hall]. intros [->|Hi]%Ht; [done|]. by apply HA.
  - intros i [->|Hi]%Hall%Ht Hlt; [lia|]. by apply HA.
Qed.

(** The first loop visits every boundary, and stops at the first bad instruction. *)
Lemma markStarts_spec fuel code pc starts :
  boundary code pc → pc ≤ lenZ code → lenZ code - pc < Z.of_nat fuel →
  marking code pc starts →
  ∃ r, markStarts fuel code pc starts = Some r ∧
    match r with
    | Some starts' => marked code starts'
    | None => ∃ i, boundary code i ∧ i < lenZ code ∧ ¬ instr_ok code i
    end.
Proof.
  revert pc starts. induction fuel as [|fuel IH]; intros pc starts Hb Hle Hf Hm; [lia|].
  pose proof (boundary_nonneg _ _ Hb) as Hpc0. pose proof (mark_length _ _ _ Hm) as Hlen.
  assert (∃ s1, insertZ starts pc true = Some s1) as [s1 Hs1].
  { rewrite insertZ_Some by lia. eauto. }
  cbn [markStarts]. destruct (Z.ltb_spec pc (lenZ code)) as [Hlt|Hge].
  - rewrite Hs1. cbn [mbind option_bind].
    pose proof (nextInstruction_range code pc Hpc0 Hlt) as Hnext.
    destruct (Z.leb_spec (nextInstruction code pc) pc); [lia|].
    destruct (Z.ltb_spec (lenZ code) (nextInstruction code pc)) as [Hover|Hfit]; simpl.
    { eexists; split; [done|]. exists pc. split_and!; [done..|]. intros [??]. lia. }
    destruct (validOperands_total code pc Hpc0 Hlt Hfit) as [[] Hvalid]; rewrite Hvalid; simpl.
    2:{ eexists; split; [done|]. exists pc. split_and!; [done..|]. intros [??]. congruence. }
    apply IH; [by constructor|lia..|]. eapply marking_step; [done..| |done]. split; [lia|done].
  - assert (pc = lenZ code) as -> by lia. rewrite Z.eqb_refl, Hs1. simpl.
    eexists; split; [done|]. by eapply marking_end.
Qed.

Lemma markStarts_code code :
  ∃ r, markStarts (S (length code)) code 0 (replicate (S (length code)) false) = Some r ∧
    match r with
    | Some starts' => marked code starts'
    | None => ∃ i, boundary code i ∧ i < lenZ code ∧ ¬ instr_ok code i
    end.
Proof.
  assert (∀ i, replicate (S (length code)) false !!z i ≠ Some true) as Hf.
  { intros i Hi. pose proof (lookupZ_lt_Some _ _ _ Hi). rewrite lookupZ_to_nat in Hi by lia.
    by apply lookup_replicate in Hi as [? _]. }
  apply markStarts_spec; [constructor|apply lenZ_nonneg|unfold lenZ; lia|].
  split; [rewrite lenZ_replicate; unfold lenZ; lia| |by left|]; intros i Hi; by apply Hf in Hi.
Qed.

Lemma routineStarts_spec starts routines :
  (∀ r, r ∈ routines → 0 ≤ r_pc r < lenZ starts) →
  ∃ b, routineStarts starts routines = Some b ∧
    (b = true ↔ ∀ r, r ∈ routines → starts !!z r_pc r = Some true).
Proof.
  induction routines as [|r rs IH]; intros Hr; simpl.
  { eexists; split; [done|]. split; [|done]. intros _ r []%elem_of_nil. }
  destruct (lookupZ_lt_is_Some starts (r_pc r)) as [s Hs]; [apply Hr; left|].
  destruct IH as (b&Hb&Hspec); [intros; apply Hr; by right|]. rewrite Hs, Hb.
  destruct s; simpl; eexists; (split; [done|]).
  - rewrite Hspec. setoid_rewrite elem_of_cons. split; [intros ?? [->|?]|]; eauto.
  - split; [done|]. intros H. specialize (H r). rewrite Hs in H. discriminate H. left.
Qed.

(** Positions reached from a given one; [boundary] is what is reached from 0. *)
Inductive reaches (code : list Z) : Z → Z → Prop :=
  | reaches_refl pc : reaches code pc pc
  | reaches_step pc i :
      pc < lenZ code → reaches code (nextInstruction code pc) i → reaches code pc i.

Lemma reaches_boundary code pc i : boundary code pc → reaches code pc i → boundary code i.
Proof. intros Hb H. induction H as [|pc i Hlt H IH]; [done|]. apply IH. by constructor. Qed.

Lemma boundary_reaches code i : boundary code i → reaches code 0 i.
Proof.
  intros H. assert (∀ j k, reaches code j k → k < lenZ code →
    reaches code j (nextInstruction code k)) as Hr.
  { induction 1; intros; [|eapply reaches_step; eauto].
    eapply reaches_step; [done|constructor]. }
  induction H; [constructor|auto].
Qed.

Lemma branchTarget_total code pc :
  bytes_ok code → 0 ≤ pc → pc < lenZ code → instr_ok code pc →
  ∃ t, branchTarget code pc = Some t.
Proof.
  intros Hbytes H0 Hlt [[_ Hfit] _]. destruct (lookupZ_lt_is_Some code pc) as [op Hop]; [lia|].
  unfold branchTarget. unfold nextInstruction in Hfit. rewrite Hop in *. simpl.
  assert (∀ k, 0 ≤ k → pc + k + 4 ≤ pc + instructionSize op → ∃ t, read32 code (pc + k) = Some t)
    as Hread.
  { intros k ??. destruct (read32_Some code (pc + k)) as (t&?&_); [done|lia..|eauto]. }
  destruct ((op =? opJmp) || _ || _ || _) eqn:E.
  { apply Hread; [lia|]. rewrite !orb_true_iff, !Z.eqb_eq in E.
    destruct E as [[[->| ->]| ->]| ->]; cbn; lia. }
  destruct (Z.eqb_spec op opJCond) as [->|]; [|eauto]. apply Hread; cbn; lia.
Qed.

Lemma checkTarget_spec code routines starts pc :
  bytes_ok code → routines_sorted routines → marked code starts →
  boundary code pc → pc < lenZ code →
  ∃ b, checkTarget code routines starts pc = Some b ∧ (b = true ↔ target_ok code routines pc).
Proof.
  intros Hbytes Hsort (Hlen&Hstarts&Hok) Hb Hlt. pose proof (boundary_nonneg _ _ Hb).
  destruct (lookupZ_lt_is_Some code pc) as [op Hop]; [lia|].
  destruct (branchTarget_total code pc) as [t Ht]; [by auto..|].
  unfold checkTarget, target_ok. rewrite Hop, Ht. cbn [mbind option_bind].
  destruct (Z.leb_spec 0 t) as [Ht0|Ht0]; cbn [mbind option_bind].
  2:{ destruct (Z.eqb_spec op opCall) as [->|].
      - exfalso. unfold branchTarget in Ht. rewrite Hop in Ht. simpl in Ht.
        apply read32_inv in Ht as (_&_&?); [|done]. unfold u32_ok in *. lia.
      - eexists; split; [done|]. split; [|done]. intros _ ? [= <-]. lia. }
  destruct (Z.leb_spec (lenZ code) t) as [Hover|Hin].
  { eexists; split; [done|]. split; [done|]. intros Hall.
    destruct (Hall t eq_refl Ht0). lia. }
  destruct (lookupZ_lt_is_Some starts t) as [s Hs]; [lia|]. rewrite Hs. cbn [mbind option_bind].
  destruct s; simpl.
  2:{ eexists; split; [done|]. split; [done|]. intros Hall.
      destruct (Hall t eq_refl Ht0) as (_&Hbt&_). apply Hstarts in Hbt. congruence. }
  apply Hstarts in Hs. destruct (Z.eqb_spec op opCall) as [->|Hne].
  - destruct (findRoutine_correct routines t Hsort) as (i&Hi&_). rewrite Hi. simpl.
    eexists; split; [done|]. destruct (Z.ltb_spec i 0); simpl; split; try done.
    + intros Hall. destruct (Hall t eq_refl Ht0) as (_&_&Hc).
      destruct (Hc eq_refl) as (j&Hj&?). rewrite Hi in Hj. injection Hj as <-. lia.
    + intros _ ? [= <-] _. split_and!; [done..|]. intros _. by exists i.
  - eexists; split; [done|]. split; [|done]. intros _ ? [= <-] _.
    split_and!; [done..|]. intros [= ->]. done.
Qed.

Lemma checkTargets_spec fuel code routines starts pc :
  bytes_ok code → routines_sorted routines → marked code starts →
  boundary code pc → pc ≤ lenZ code → lenZ code - pc < Z.of_nat fuel →
  ∃ b, checkTargets fuel code routines starts pc = Some b ∧
    (b = true ↔ ∀ i, reaches code pc i → i < lenZ code → target_ok code routines i).
Proof.
  intros Hbytes Hsort Hm. revert pc. induction fuel as [|fuel IH]; intros pc Hb Hle Hf; [lia|].
  cbn [checkTargets]. destruct (Z.ltb_spec pc (lenZ code)) as [Hlt|Hge].
  2:{ eexists; split; [done|]. split; [|done]. intros _ i Hr Hi. destruct Hr; lia. }
  destruct (checkTarget_spec code routines starts pc) as (b&Hcb&Hspec); [done..|].
  rewrite Hcb. cbn [mbind option_bind]. destruct b; simpl.
  2:{ eexists; split; [done|]. split; [done|]. intros Hall. apply Hspec, Hall; [constructor|done]. }
  destruct (IH (nextInstruction code pc)) as (b&Hb'&Hspec').
  { by constructor. } { destruct Hm as (_&_&Hok). destruct (Hok pc Hb Hlt). lia. }
  { pose proof (nextInstruction_range code pc). pose proof (boundary_nonneg _ _ Hb). lia. }
  rewrite Hb'. eexists; split; [done|]. rewrite Hspec'. split; intros Hall i Hi Hilt.
  - inversion Hi; subst; [by apply Hspec|by apply Hall].
  - apply Hall; [by eapply reaches_step|done].
Qed.

(** The validator accepts exactly the well-formed code. *)
Lemma validateCode_spec code routines :
  bytes_ok code → routines_sorted routines →
  (∀ r, r ∈ routines → 0 ≤ r_pc r < lenZ code) →
  ∃ b, validateCode code routines = Some b ∧ (b = true ↔ code_ok code routines).
Proof.
  intros Hbytes Hsort Hr. unfold validateCode.
  destruct (markStarts_code code) as ([starts|]&Hm&Hspec); rewrite Hm; cbn [mbind option_bind].
  2:{ eexists; split; [done|]. split; [done|]. intros [Hok _ _].
      destruct Hspec as (i&?&?&Hbad). by destruct Hbad; apply Hok. }
  destruct Hspec as (Hlen&Hstarts&Hok).
  destruct (routineStarts_spec starts routines) as (br&Hbr&Hrs).
  { intros r Hin. specialize (Hr r Hin). lia. }
  rewrite Hbr. cbn [mbind option_bind]. destruct br; simpl.
  2:{ eexists; split; [done|]. split; [done|]. intros [_ _ Hrt].
      apply Hrs. intros. by apply Hstarts, Hrt. }
  destruct (checkTargets_spec (S (length code)) code routines starts 0) as (b&Hb&Ht);
    [done|done|done|constructor|apply lenZ_nonneg|unfold lenZ; lia|].
  eexists; split; [done|]. rewrite Ht. split.
  - intros Hall. split; [done| |].
    + intros pc Hpc Hlt. apply Hall; [by apply boundary_reaches|done].
    + intros r Hin. apply Hstarts. by apply Hrs.
  - intros [_ Htarget _] i Hi Hlt. apply Htarget; [|done].
    eapply reaches_boundary; [constructor|done].
Qed.
