(* ===== verification/VmDecode.v ===== *)
(** The image decoder: which images it produces, that it accepts every well-formed
    image, and that its checksum catches a corrupted byte. *)

From S2P Require Import Prelude.
From S2P Require Import GoInt.
From S2P Require Import VmImage.
From S2P Require Import VmImageFacts.

(** * Well-formed images *)

Definition routine_ok (codeSize : Z) (r : routine) : Prop :=
  0 ≤ r_pc r < codeSize ∧ u32_ok (r_frameSize r) ∧ Z.land (r_frameSize r) 3 = 0.

Record image_ok (img : image) : Prop := {
  image_code_bytes : bytes_ok (i_code img);
  image_data_bytes : bytes_ok (i_data img);
  image_sizes : 0 < lenZ (i_code img) < 2 ^ 32 ∧ lenZ (i_data img) < 2 ^ 32 ∧
    0 < lenZ (i_routines img) < 2 ^ 32;
  image_layout : minAddress ≤ i_dataBase img < 2 ^ 32 ∧ i_bssBase img < 2 ^ 32 ∧
    i_dataBase img + lenZ (i_data img) ≤ i_bssBase img ∧ 0 ≤ i_bssSize img < 2 ^ 32;
  image_first : ∀ r, i_routines img !!z 0 = Some r → r_pc r = 0;
  image_routines : Forall (routine_ok (lenZ (i_code img))) (i_routines img);
  image_sorted : routines_sorted (i_routines img);
  image_code : code_ok (i_code img) (i_routines img)
}.

(** The binary form of an image: the writer the decoder is measured against. *)
Definition encodeRoutine (r : routine) : list Z :=
  bytes32 (r_pc r) ++ bytes32 (r_frameSize r) ++ bytes32 (if r_framed r then routineFramed else 0).

Definition encodePayload (img : image) : list Z :=
  concat (encodeRoutine <$> i_routines img) ++ i_code img ++ i_data img.

Definition encodeHeader (img : image) : list Z :=
  [82; 78; 86; 66] ++ bytes16 version ++ bytes16 headerSize ++
  bytes32 (lenZ (i_code img)) ++ bytes32 (lenZ (i_data img)) ++
  bytes32 (i_dataBase img) ++ bytes32 (i_bssBase img) ++ bytes32 (i_bssSize img) ++
  bytes32 (lenZ (i_routines img)) ++ bytes32 (checksum (encodePayload img)) ++ bytes32 0.

Definition encodeImage (img : image) : list Z := encodeHeader img ++ encodePayload img.

(** * The routine table *)

Lemma routines_sorted_snoc rs r :
  routines_sorted rs → (∀ p, rs !!z (lenZ rs - 1) = Some p → r_pc p < r_pc r) →
  routines_sorted (rs ++ [r]).
Proof.
  intros Hs Hlast i j ri rj Hi Hj Hij.
  pose proof (lookupZ_lt_Some _ _ _ Hi) as Hri. pose proof (lookupZ_lt_Some _ _ _ Hj) as Hrj.
  autorewrite with lenZ in *.
  rewrite lookupZ_app_l in Hi by lia.
  destruct (decide (j < lenZ rs)).
  - rewrite lookupZ_app_l in Hj by lia. by eapply Hs.
  - rewrite lookupZ_app_r in Hj by lia. assert (j = lenZ rs) as -> by lia.
    rewrite Z.sub_diag in Hj. injection Hj as <-.
    destruct (lookupZ_lt_is_Some rs (lenZ rs - 1)) as [p Hp]; [lia|].
    specialize (Hlast p Hp). destruct (decide (i = lenZ rs - 1)) as [->|]; [congruence|].
    pose proof (Hs i _ ri p Hi Hp). lia.
Qed.

Lemma routines_sorted_inv rs i p r :
  routines_sorted rs → 0 < i → rs !!z (i - 1) = Some p → rs !!z i = Some r → r_pc p < r_pc r.
Proof. intros Hs Hi Hp Hr. eapply Hs; [done..|lia]. Qed.

(** What the decoded prefix of the table satisfies. *)
Record table_ok (codeSize : Z) (rs : list routine) : Prop := {
  table_routines : Forall (routine_ok codeSize) rs;
  table_sorted : routines_sorted rs;
  table_first : ∀ r, rs !!z 0 = Some r → r_pc r = 0
}.

Lemma table_ok_nil codeSize : table_ok codeSize [].
Proof. split; [constructor| |done]. intros ????[]%lookupZ_lt_Some. rewrite lenZ_nil in *. lia. Qed.

Lemma table_ok_snoc codeSize rs r :
  table_ok codeSize rs → routine_ok codeSize r →
  (rs = [] → r_pc r = 0) → (∀ p, rs !!z (lenZ rs - 1) = Some p → r_pc p < r_pc r) →
  table_ok codeSize (rs ++ [r]).
Proof.
  intros [Hf Hs H0] Hr Hz Hlast. split.
  - apply Forall_app. split; [done|]. by apply Forall_singleton.
  - by apply routines_sorted_snoc.
  - intros r'. destruct rs as [|r0 rs]; simpl; [intros [= <-]; by apply Hz|].
    intros [= <-]. by apply (H0 r0).
Qed.

Lemma decodeRoutines_spec count program codeSize i acc :
  bytes_ok program → i = lenZ acc →
  headerSize + (i + Z.of_nat count) * routineSize ≤ lenZ program →
  table_ok codeSize acc →
  ∃ r, decodeRoutines count program codeSize i acc = Some r ∧
    ∀ rs, r = Some rs → table_ok codeSize rs ∧ lenZ rs = i + Z.of_nat count.
Proof.
  intros Hbytes. revert i acc. induction count as [|count IH]; intros i acc Hi Hlen Hacc.
  { eexists; split; [done|]. intros rs [= <-]. split; [done|lia]. }
  pose proof (lenZ_nonneg acc).
  cbn [decodeRoutines]. unfold headerSize, routineSize in *.
  destruct (read32_Some program (40 + i * 12 + 8)) as (fl&Hfl&_); [done|lia..|].
  destruct (read32_Some program (40 + i * 12)) as (pc&Hpc&Hpcr); [done|lia..|].
  destruct (read32_Some program (40 + i * 12 + 4)) as (fs&Hfs&Hfsr); [done|lia..|].
  rewrite Hfl, Hpc, Hfs. cbn [mbind option_bind].
  assert (∃ prev, (if 0 <? i then p ← acc !!z (i - 1); Some (r_pc p) else Some (-1)) = Some prev ∧
    ∀ p, acc !!z (i - 1) = Some p → prev = r_pc p) as (prev&Hprev&Hlast).
  { destruct (Z.ltb_spec 0 i).
    - destruct (lookupZ_lt_is_Some acc (i - 1)) as [p ->]; [lia|]. simpl.
      eexists; split; [done|]. by intros ? [= ->].
    - eexists; split; [done|]. intros p Hp%lookupZ_lt_Some. lia. }
  rewrite Hprev. cbn [mbind option_bind].
  destruct (_ || _) eqn:Hbad; [eexists; split; [done|]; done|].
  rewrite !orb_false_iff in Hbad. destruct Hbad as ((((((H1&H2)&H3)&H4)&H5)&H6)&H7).
  destruct (IH (i + 1) (acc ++ [Routine pc fs (negb (Z.land fl routineFramed =? 0))]))
    as (r&Hr&Hspec).
  - by rewrite lenZ_app, lenZ_cons, lenZ_nil; lia.
  - lia.
  - apply table_ok_snoc; [done| | |]; cbn.
    + apply negb_false_iff, Z.eqb_eq in H4. split; cbn; [unfold u32_ok in *; lia|by split].
    + intros ->. rewrite lenZ_nil in Hi. subst i. simpl in H6. lia.
    + intros p. rewrite <- Hi. intros Hp. pose proof (Hlast p Hp).
      apply lookupZ_lt_Some in Hp. lia.
  - rewrite Hr. eexists; split; [done|]. intros rs Hrs.
    destruct (Hspec rs Hrs). split; [done|lia].
Qed.

(** * Decoding never panics and yields only well-formed images *)

Lemma headerOk_total program :
  bytes_ok program →
  ∃ b, headerOk program = Some b ∧ (b = true → headerSize ≤ lenZ program).
Proof.
  intros Hbytes. unfold headerOk.
  destruct (Z.ltb_spec (lenZ program) headerSize) as [|Hlen]; [by eexists|].
  unfold headerSize in *. unfold read16.
  repeat match goal with
  | |- context [program !!z ?i] =>
      destruct (lookupZ_lt_is_Some program i) as [? ->]; [lia|]; cbn [mbind option_bind]
  end.
  eexists; split; [done|]. by intros _.
Qed.

Ltac read_header program v H :=
  match goal with
  | |- context [read32 program ?at_ ≫= _] =>
      let E := fresh "E" in
      destruct (read32_Some program at_) as (v&E&H); [done|lia..|];
      rewrite E; cbn [mbind option_bind]; clear E
  end.

Lemma decodeImage_spec program :
  bytes_ok program →
  ∃ r, decodeImage program = Some r ∧ ∀ img, r = Some img → image_ok img.
Proof.
  intros Hbytes. unfold decodeImage.
  destruct (headerOk_total program Hbytes) as ([]&Hh&Hlen); rewrite Hh; cbn [mbind option_bind negb].
  2:{ eexists; split; [done|]. done. }
  specialize (Hlen eq_refl). unfold headerSize in Hlen.
  read_header program codeSize Hcs. read_header program dataSize Hds.
  read_header program dataBase Hdb. read_header program bssBase Hbb.
  read_header program bssSize Hbs. read_header program count Hc. read_header program want Hw.
  unfold u32_ok in *.
  destruct (_ || _) eqn:Hb1; [eexists; split; [done|]; done|].
  rewrite !orb_false_iff in Hb1. destruct Hb1 as (((((H1&H2)&H3)&H4)&H5)&H6).
  destruct (_ || _) eqn:Hb2; [eexists; split; [done|]; done|].
  rewrite !orb_false_iff in Hb2. destruct Hb2 as ((((H7&H8)&H9)&H10)&H11).
  unfold headerSize, routineSize in *. apply negb_false_iff, Z.eqb_eq in H11.
  rewrite (sliceZ_Some program 40 (lenZ program)) by lia. cbn [mbind option_bind].
  destruct (negb _); [eexists; split; [done|]; done|].
  destruct (decodeRoutines_spec (Z.to_nat count) program codeSize 0 [])
    as (rs&Hrs&Hspec); [done|done|unfold headerSize, routineSize; lia|apply table_ok_nil|].
  rewrite Hrs. cbn [mbind option_bind].
  destruct rs as [rs|]; [|eexists; split; [done|]; done].
  destruct (Hspec rs eq_refl) as [[Hf Hsort Hfirst] Hn]. clear Hspec.
  rewrite !sliceZ_Some by lia. cbn [mbind option_bind].
  set (code := sublistZ program _ _). set (data := sublistZ program _ (lenZ program)).
  assert (lenZ code = codeSize) as Hcode by (unfold code; rewrite sublistZ_length; lia).
  assert (lenZ data = dataSize) as Hdata by (unfold data; rewrite sublistZ_length; lia).
  assert (bytes_ok code) by by apply sublistZ_Forall.
  assert (bytes_ok data) by by apply sublistZ_Forall.
  destruct (validateCode_spec code rs) as (b&Hv&Hok); [done|done| |].
  { intros r Hin. rewrite Forall_forall in Hf. apply Hf in Hin as [? _]. lia. }
  rewrite Hv. cbn [mbind option_bind]. eexists; split; [done|].
  destruct b; simpl; [|done]. intros img [= <-].
  split; cbn; [done|done|lia|lia|done| |done|by apply Hok].
  by rewrite Hcode.
Qed.

(** * Every well-formed image is decoded from its binary form *)

Lemma read32_app pre v post at_ :
  at_ = lenZ pre → read32 (pre ++ bytes32 v ++ post) at_ = Some (u32 v).
Proof.
  intros ->. pose proof (lenZ_nonneg pre). apply read32_bytes.
  assert (∀ k, 0 ≤ k < 4 → (pre ++ bytes32 v ++ post) !!z (lenZ pre + k) = bytes32 v !!z k) as Hk.
  { intros k Hk. rewrite lookupZ_app_r by lia. rewrite lookupZ_app_l by (unfold lenZ; simpl; lia).
    f_equal. lia. }
  do 4 eexists. rewrite <- (Z.add_0_r (lenZ pre)) at 1. rewrite !Hk by lia.
  split_and!; try reflexivity. by rewrite le32_bytes.
Qed.

Lemma lenZ_encodeRoutine r : lenZ (encodeRoutine r) = routineSize.
Proof. done. Qed.

Lemma lenZ_table rs : lenZ (concat (encodeRoutine <$> rs)) = lenZ rs * routineSize.
Proof.
  induction rs as [|r rs IH]; [done|]. rewrite fmap_cons. cbn [concat].
  rewrite lenZ_app, lenZ_cons, IH, lenZ_encodeRoutine. lia.
Qed.

Lemma lenZ_header img : lenZ (encodeHeader img) = headerSize.
Proof. done. Qed.

(** The header word at offset [at_] of an encoded image. *)
Lemma read32_header img pre v post at_ payload :
  encodeHeader img = pre ++ bytes32 v ++ post → at_ = lenZ pre →
  read32 (encodeHeader img ++ payload) at_ = Some (u32 v).
Proof. intros -> ->. rewrite <- !app_assoc. by apply read32_app. Qed.

Lemma checksum_from_range xs a b :
  0 ≤ a < 65521 → 0 ≤ b < 65521 →
  0 ≤ (checksum_from a b xs).1 < 65521 ∧ 0 ≤ (checksum_from a b xs).2 < 65521.
Proof.
  revert a b. induction xs as [|x xs IH]; simpl; intros a b Ha Hb; [done|].
  apply IH; apply Z.mod_pos_bound; lia.
Qed.

(** The low half word of the checksum is the first accumulator. *)
Lemma checksum_low xs :
  u32_ok (checksum xs) ∧ checksum xs `mod` 2 ^ 16 = (checksum_from 1 0 xs).1.
Proof.
  unfold checksum. pose proof (checksum_from_range xs 1 0 ltac:(lia) ltac:(lia)) as [Ha Hb].
  destruct (checksum_from 1 0 xs) as [a b]. simpl in *.
  rewrite lor_shiftl_add by lia. split; [unfold u32_ok; lia|].
  rewrite Z.mod_add by lia. apply Z.mod_small. lia.
Qed.

(** The three words of the entry at index [lenZ done_]. *)
Lemma read_entry hdr done_ r rest tail pre v post :
  lenZ hdr = headerSize → encodeRoutine r = pre ++ bytes32 v ++ post →
  read32 (hdr ++ concat (encodeRoutine <$> (done_ ++ r :: rest)) ++ tail)
    (headerSize + lenZ done_ * routineSize + lenZ pre) = Some (u32 v).
Proof.
  intros Hhdr Hr. rewrite fmap_app, fmap_cons, concat_app. cbn [concat]. rewrite Hr.
  replace (hdr ++ _ ++ tail) with ((hdr ++ concat (encodeRoutine <$> done_) ++ pre) ++ bytes32 v ++
    post ++ concat (encodeRoutine <$> rest) ++ tail) by by rewrite <- !app_assoc.
  apply read32_app. rewrite !lenZ_app, lenZ_table. lia.
Qed.

Lemma decodeRoutines_encode hdr done_ rest tail codeSize :
  lenZ hdr = headerSize → codeSize < 2 ^ 32 → table_ok codeSize (done_ ++ rest) →
  decodeRoutines (length rest) (hdr ++ concat (encodeRoutine <$> (done_ ++ rest)) ++ tail)
    codeSize (lenZ done_) done_ = Some (Some (done_ ++ rest)).
Proof.
  intros Hhdr Hcs. revert done_. induction rest as [|r rest IH]; intros done_ Hok.
  { cbn [length decodeRoutines]. by rewrite app_nil_r. }
  pose proof (read_entry hdr done_ r rest tail [] _ _ Hhdr eq_refl) as H1.
  pose proof (read_entry hdr done_ r rest tail (bytes32 (r_pc r)) _ _ Hhdr eq_refl) as H2.
  pose proof (read_entry hdr done_ r rest tail (bytes32 (r_pc r) ++ bytes32 (r_frameSize r))
    _ [] Hhdr eq_refl) as H3.
  change (lenZ []) with 0 in H1. rewrite Z.add_0_r in H1.
  change (lenZ (bytes32 _)) with 4 in H2. change (lenZ (bytes32 _ ++ bytes32 _)) with 8 in H3.
  pose proof (lenZ_nonneg done_).
  assert ((done_ ++ r :: rest) !!z lenZ done_ = Some r) as Hat.
  { rewrite lookupZ_app_r by lia. by rewrite Z.sub_diag. }
  destruct Hok as [Hf Hs H0].
  destruct (lookupZ_Forall _ _ _ _ Hf Hat) as (Hpc&Hfs&H4).
  cbn [length decodeRoutines]. rewrite H1, H2, H3. cbn [mbind option_bind].
  rewrite !u32_small by (try done; unfold u32_ok; try lia; destruct (r_framed r); unfold routineFramed; lia).
  assert (∃ prev, (if 0 <? lenZ done_ then p ← done_ !!z (lenZ done_ - 1); Some (r_pc p)
    else Some (-1)) = Some prev ∧ (0 < lenZ done_ → prev < r_pc r)) as (prev&Hprev&Hlt).
  { destruct (Z.ltb_spec 0 (lenZ done_)); [|eexists; split; [done|lia]].
    destruct (lookupZ_lt_is_Some done_ (lenZ done_ - 1)) as [p Hp]; [lia|].
    rewrite Hp. eexists; split; [done|]. intros _.
    eapply routines_sorted_inv; [done|done| |done]. rewrite lookupZ_app_l by lia. done. }
  rewrite Hprev. cbn [mbind option_bind].
  assert (lenZ done_ = 0 → r_pc r = 0) as Hz.
  { intros E. rewrite E in Hat. by apply H0. }
  destruct (_ || _) eqn:Hbad.
  { exfalso. unfold u32_ok in Hfs. rewrite H4 in Hbad.
    destruct (r_framed r); cbn in Hbad; lia. }
  assert (Routine (r_pc r) (r_frameSize r) (negb (Z.land (if r_framed r then routineFramed else 0)
    routineFramed =? 0)) = r) as -> by by destruct r as [?? []].
  specialize (IH (done_ ++ [r])). rewrite <- !app_assoc in IH. cbn [app] in IH.
  rewrite lenZ_app, lenZ_cons, lenZ_nil, Z.add_0_r in IH. by apply IH.
Qed.

Lemma headerOk_encode img payload : headerOk (encodeHeader img ++ payload) = Some true.
Proof.
  unfold headerOk. rewrite lenZ_app, lenZ_header.
  rewrite (proj2 (Z.ltb_ge _ _)) by (pose proof (lenZ_nonneg payload); unfold headerSize; lia).
  reflexivity.
Qed.

Lemma image_table_ok img : image_ok img → table_ok (lenZ (i_code img)) (i_routines img).
Proof. intros []. by split. Qed.

(** The header words, read back from an encoded image. *)
Lemma header_words img payload :
  image_ok img → payload = encodePayload img →
  let read := read32 (encodeHeader img ++ payload) in
  read 8 = Some (lenZ (i_code img)) ∧ read 12 = Some (lenZ (i_data img)) ∧
  read 16 = Some (i_dataBase img) ∧ read 20 = Some (i_bssBase img) ∧
  read 24 = Some (i_bssSize img) ∧ read 28 = Some (lenZ (i_routines img)) ∧
  read 32 = Some (checksum payload).
Proof.
  intros [_ _ (Hcs&Hds&Hrs) (Hbase&Hbss&Hlay&Hbs) _ _ _ _] ->.
  pose proof (lenZ_nonneg (i_data img)). pose proof (checksum_low (encodePayload img)) as [Hck _].
  unfold minAddress in *. cbn zeta.
  assert (∀ n v post, encodeHeader img = take n (encodeHeader img) ++ bytes32 v ++ post →
    u32_ok v → (n ≤ 40)%nat →
    read32 (encodeHeader img ++ encodePayload img) (Z.of_nat n) = Some v) as Hread.
  { intros n v post He Hv Hn. rewrite (read32_header img _ _ _ _ _ He); [by rewrite u32_small|].
    pose proof (lenZ_header img) as Hl. unfold lenZ, headerSize in *. rewrite length_take. lia. }
  unfold u32_ok in *. split_and!.
  - eapply (Hread 8%nat); [done|lia..].
  - eapply (Hread 12%nat); [done|lia..].
  - eapply (Hread 16%nat); [done|lia..].
  - eapply (Hread 20%nat); [done|lia..].
  - eapply (Hread 24%nat); [done|lia..].
  - eapply (Hread 28%nat); [done|lia..].
  - eapply (Hread 32%nat); [done|lia..].
Qed.

Lemma sliceZ_app pre xs post lo hi :
  lo = lenZ pre → hi = lenZ pre + lenZ xs → sliceZ (pre ++ xs ++ post) lo hi = Some (xs : list Z).
Proof.
  intros -> ->. pose proof (lenZ_nonneg pre). pose proof (lenZ_nonneg xs).
  pose proof (lenZ_nonneg post).
  rewrite sliceZ_Some by (rewrite ?lenZ_app; lia). by rewrite sublistZ_app_exact.
Qed.

(** The decoder inverts the writer on well-formed images. *)
Lemma decodeImage_encode img :
  image_ok img → decodeImage (encodeImage img) = Some (Some img).
Proof.
  intros Hok. pose proof (image_table_ok img Hok) as Htable.
  set (payload := encodePayload img).
  pose proof (header_words img payload Hok eq_refl) as (H8&H12&H16&H20&H24&H28&H32).
  destruct Hok as [Hcb Hdb (Hcs&Hds&Hrs) (Hbase&Hbss&Hlay&Hbs) _ Hf Hsort Hcode].
  pose proof (lenZ_nonneg (i_data img)). unfold minAddress in *.
  assert (lenZ payload = lenZ (i_routines img) * 12 + lenZ (i_code img) + lenZ (i_data img))
    as Hlen by (unfold payload, encodePayload; rewrite !lenZ_app, lenZ_table; unfold routineSize; lia).
  pose proof (lenZ_header img) as Hh.
  unfold decodeImage, encodeImage. fold payload.
  rewrite headerOk_encode, H8, H12, H16, H20, H24, H28, H32. cbn [mbind option_bind negb].
  unfold headerSize, routineSize, minAddress in *.
  destruct (_ || _) eqn:Hbad; [lia|]. clear Hbad.
  rewrite lenZ_app. destruct (_ || _) eqn:Hbad; [lia|]. clear Hbad.
  rewrite <- (app_nil_r payload) at 1. rewrite sliceZ_app by lia. cbn [mbind option_bind].
  rewrite Z.eqb_refl. cbn [negb].
  assert (∀ {A} (l : list A), Z.to_nat (lenZ l) = length l) as Hnat
    by (intros; unfold lenZ; lia).
  pose proof (decodeRoutines_encode (encodeHeader img) [] (i_routines img)
    (i_code img ++ i_data img) (lenZ (i_code img)) Hh ltac:(lia) Htable) as Hd.
  change (lenZ []) with 0 in Hd. cbn [app] in Hd. fold (encodePayload img) payload in Hd.
  rewrite Hnat, Hd. cbn [mbind option_bind].
  rewrite <- lenZ_app.
  assert (encodeHeader img ++ payload = (encodeHeader img ++ concat (encodeRoutine <$> i_routines img)) ++
    i_code img ++ i_data img) as Hsplit by by rewrite <- app_assoc.
  pose proof (lenZ_table (i_routines img)) as Ht. unfold routineSize in Ht.
  rewrite Hsplit at 1. rewrite sliceZ_app by (rewrite lenZ_app; lia). cbn [mbind option_bind].
  rewrite app_assoc, <- (app_nil_r (i_data img)) in Hsplit. rewrite Hsplit.
  rewrite sliceZ_app by (autorewrite with lenZ; lia). cbn [mbind option_bind].
  destruct (validateCode_spec (i_code img) (i_routines img)) as (b&Hv&Hb); [done|done| |].
  { intros r Hin. rewrite Forall_forall in Hf. by apply Hf in Hin as [? _]. }
  rewrite Hv, (proj2 Hb Hcode). by destruct img.
Qed.

(** * Corrupted payloads *)

(** A change of one byte changes the first accumulator for good. *)
Lemma checksum_from_apart xs a a' b b' :
  (a - a') `mod` 65521 ≠ 0 →
  ((checksum_from a b xs).1 - (checksum_from a' b' xs).1) `mod` 65521 ≠ 0.
Proof.
  revert a a' b b'. induction xs as [|x xs IH]; simpl; intros a a' b b' H; [done|].
  apply IH. rewrite <- Zminus_mod. by replace (a + x - (a' + x)) with (a - a') by lia.
Qed.

Lemma checksum_from_app xs ys a b :
  checksum_from a b (xs ++ ys) =
    checksum_from (checksum_from a b xs).1 (checksum_from a b xs).2 ys.
Proof. revert a b. induction xs as [|x xs IH]; simpl; intros; [done|]. apply IH. Qed.

Lemma checksum_detects xs x x' ys :
  byte_ok x → byte_ok x' → x ≠ x' → checksum (xs ++ x :: ys) ≠ checksum (xs ++ x' :: ys).
Proof.
  unfold byte_ok. intros Hx Hx' Hne Heq.
  apply (f_equal (λ c, c `mod` 2 ^ 16)) in Heq.
  rewrite !(proj2 (checksum_low _)), !checksum_from_app in Heq. cbn [checksum_from] in Heq.
  set (a := (checksum_from 1 0 xs).1) in *.
  eapply (checksum_from_apart ys ((a + x) `mod` 65521) ((a + x') `mod` 65521)).
  - rewrite <- Zminus_mod. replace (a + x - (a + x')) with (x - x') by lia.
    intros Hm. apply Z.mod_divide in Hm as [k Hk]; [nia|lia].
  - by rewrite Heq, Z.sub_diag.
Qed.

Lemma read32_app_l xs ys k : k + 4 ≤ lenZ xs → read32 (xs ++ ys) k = read32 xs k.
Proof. intros. unfold read32, read16. by rewrite !lookupZ_app_l by lia. Qed.

Lemma headerOk_app_l hdr t t' :
  lenZ hdr = headerSize → lenZ t = lenZ t' → headerOk (hdr ++ t) = headerOk (hdr ++ t').
Proof.
  intros Hh Ht. unfold headerOk, read16. autorewrite with lenZ. rewrite Ht.
  unfold headerSize in *. by rewrite !lookupZ_app_l by lia.
Qed.

(** A payload whose checksum differs from that of an accepted program with the
    same header and length is rejected. *)
Lemma decodeImage_checksum hdr t t' img :
  lenZ hdr = headerSize → lenZ t = lenZ t' → checksum t ≠ checksum t' →
  decodeImage (hdr ++ t) = Some (Some img) → decodeImage (hdr ++ t') = Some None.
Proof.
  intros Hh Ht Hne. unfold decodeImage.
  rewrite (headerOk_app_l hdr t' t) by done.
  destruct (headerOk (hdr ++ t)) as [[]|]; cbn [mbind option_bind negb]; [|done..].
  unfold headerSize in *. rewrite !read32_app_l by lia.
  repeat match goal with
  | |- context [read32 hdr ?k] =>
      destruct (read32 hdr k) as [?|]; cbn [mbind option_bind]; [|done]
  end.
  destruct ((_ <=? 0) || _ || _ || _ || _ || _); [done|]. cbv zeta.
  rewrite !lenZ_app, <- Ht.
  destruct ((_ <? 0) || _ || _ || _ || _); [done|].
  assert (∀ u, sliceZ (hdr ++ u) 40 (lenZ hdr + lenZ u) = Some u) as Hslice.
  { intros u. rewrite <- (app_nil_r u) at 1. by apply sliceZ_app. }
  rewrite Hslice, Ht, Hslice. cbn [mbind option_bind].
  destruct (Z.eqb_spec (checksum t) z5) as [Hc|]; cbn [negb]; [|done].
  destruct (Z.eqb_spec (checksum t') z5) as [Hc'|]; cbn [negb]; [|done]. congruence.
Qed.
