(* ===== verification/VmInvariant.v ===== *)
(** The machine invariant, and its preservation by the VM's primitive operations:
    memory access, accounting, the operand stack, arithmetic. *)

From S2P Require Import Prelude.
From S2P Require Import GoInt.
From S2P Require Import VmImage.
From S2P Require Import VmImageFacts.
From S2P Require Import VmDecode.
From S2P Require Import VmMachine.

(** * The invariant *)

Definition frame_ok (img : image) (memory : Z) (f : callFrame) : Prop :=
  boundary (i_code img) (cf_pc f) ∧ 0 ≤ cf_sp f ≤ cf_fp f ∧ cf_fp f ≤ memory ∧
  0 ≤ cf_drop f ∧ 0 ≤ cf_routine f < lenZ (i_routines img).

Definition file_ok (f : File) : Prop := bytes_ok (f_Name f) ∧ bytes_ok (f_Data f).

Definition fd_ok (files : list File) (d : descriptor) : Prop :=
  0 ≤ d_offset d ∧ bytes_ok (d_data d) ∧ (d_open d = true → d_file d < lenZ files).

Record machine_ok (m : machine) : Prop := {
  ok_image : image_ok (m_image m);
  ok_limits : 0 < l_Steps (m_limits m) ∧ minAddress ≤ l_Memory (m_limits m);
  ok_memory : bytes_ok (m_memory m) ∧ lenZ (m_memory m) = l_Memory (m_limits m);
  ok_regs : Forall i32_ok (m_regs m) ∧ lenZ (m_regs m) = regCount;
  ok_pc : boundary (i_code (m_image m)) (m_pc m);
  ok_currentPC : 0 ≤ m_currentPC m;
  ok_stack : minAddress ≤ m_stackBase m ≤ m_sp m ∧ m_sp m ≤ m_fp m ≤ l_Memory (m_limits m);
  ok_routine : 0 ≤ m_routine m < lenZ (i_routines (m_image m));
  ok_flag : i32_ok (m_flag m);
  ok_calls : Forall (frame_ok (m_image m) (l_Memory (m_limits m))) (m_calls m);
  ok_steps : 0 ≤ m_steps m ≤ l_Steps (m_limits m);
  ok_peak : 0 ≤ m_peak m ≤ l_Memory (m_limits m);
  ok_output : bytes_ok (m_output m) ∧ lenZ (m_output m) ≤ l_Memory (m_limits m);
  ok_stderr : bytes_ok (m_stderr m) ∧ lenZ (m_stderr m) ≤ l_Memory (m_limits m);
  ok_args : Forall (Forall byte_ok) (m_args m) ∧ Forall (Forall byte_ok) (m_env m);
  ok_stdin : bytes_ok (m_stdin m) ∧ 0 ≤ m_stdinAt m;
  ok_files : Forall file_ok (m_files m);
  ok_fds : Forall (fd_ok (m_files m)) (m_fds m) ∧ 3 ≤ lenZ (m_fds m)
}.

Section Invariant.
Context (img : image) (lim : Limits) (n : Z).

(** The machine runs [img] under [lim] and has charged at least [n] steps. *)
Definition inv (m : machine) : Prop :=
  machine_ok m ∧ m_image m = img ∧ m_limits m = lim ∧ n ≤ m_steps m.

(** From any machine that satisfies the invariant, [c] keeps it and yields a
    result in [P], or panics where [E] holds. *)
Definition safe {A} (E : Prop) (c : GoM machine A) (P : A → Prop) : Prop :=
  ∀ m, inv m → wp E c (λ a m', P a ∧ inv m') m.

Definition any {A} (_ : A) : Prop := True.

(** ** Structural rules *)

Lemma safe_ret {A} E (a : A) (P : A → Prop) : P a → safe E (mret a) P.
Proof. intros H m Hm. by apply wp_ret. Qed.

Lemma safe_bind {A B} E (c : GoM machine A) (f : A → GoM machine B) P Q :
  safe E c P → (∀ a, P a → safe E (f a) Q) → safe E (c ≫= f) Q.
Proof.
  intros Hc Hf m Hm. apply wp_bind. eapply wp_conseq; [by apply Hc|].
  intros a m' [Ha Hm']. by apply Hf.
Qed.

Lemma safe_get {A} E (f : machine → GoM machine A) P :
  (∀ m, inv m → wp E (f m) (λ a m', P a ∧ inv m') m) → safe E (get ≫= f) P.
Proof. intros H m Hm. apply wp_bind, wp_get. by apply H. Qed.

Lemma safe_conseq {A} E (c : GoM machine A) (P Q : A → Prop) :
  safe E c P → (∀ a, P a → Q a) → safe E c Q.
Proof. intros H HPQ m Hm. eapply wp_conseq; [by apply H|]. intros a m' [??]. auto. Qed.

Lemma safe_modify E f : (∀ m, inv m → inv (f m)) → safe E (modify f) any.
Proof. intros H m Hm. apply wp_modify. split; [done|auto]. Qed.

Lemma safe_lift {A} E (o : option A) a (P : A → Prop) : o = Some a → P a → safe E (lift o) P.
Proof. intros ?? m ?. by eapply wp_lift. Qed.

Lemma safe_if {A} E (b : bool) (c d : GoM machine A) P :
  (b = true → safe E c P) → (b = false → safe E d P) → safe E (if b then c else d) P.
Proof. destruct b; auto. Qed.

(** The pattern [if !ok { return false }]. *)
Lemma safe_guard E (c d : GoM machine bool) :
  safe E c any → safe E d any →
  safe E (ok ← c; if negb ok then mret false else d) any.
Proof.
  intros Hc Hd. eapply safe_bind; [done|]. intros [] _; simpl; [done|]. by apply safe_ret.
Qed.

(** ** Assignments *)

Ltac assign := let K := fresh "K" in intros [K (?&?&?)]; split; [|done]; destruct K; split; cbn; auto.

Lemma inv_set_trap v m : inv m → inv (set_trap v m).
Proof. assign. Qed.
Lemma inv_set_pc v m : boundary (i_code img) v → inv m → inv (set_pc v m).
Proof. intros Hv. assign. by subst. Qed.
Lemma inv_set_currentPC v m : 0 ≤ v → inv m → inv (set_currentPC v m).
Proof. intros Hv. assign. Qed.
Lemma inv_set_regs v m : Forall i32_ok v → lenZ v = regCount → inv m → inv (set_regs v m).
Proof. intros ??. assign. Qed.
Lemma inv_set_memory v m :
  bytes_ok v → lenZ v = l_Memory lim → inv m → inv (set_memory v m).
Proof. intros ??. assign. split; [done|]. by subst. Qed.
Lemma inv_set_sp v m :
  m_stackBase m ≤ v → v ≤ m_fp m → inv m → inv (set_sp v m).
Proof. intros ??. assign. lia. Qed.
Lemma inv_set_fp v m : m_sp m ≤ v → v ≤ l_Memory lim → inv m → inv (set_fp v m).
Proof. intros ??. assign. subst. lia. Qed.
Lemma inv_set_stackBase m : inv m → inv (set_stackBase (m_sp m) m).
Proof. assign. lia. Qed.
Lemma inv_set_routine v m : 0 ≤ v < lenZ (i_routines img) → inv m → inv (set_routine v m).
Proof. intros ?. assign. by subst. Qed.
Lemma inv_set_flag v m : i32_ok v → inv m → inv (set_flag v m).
Proof. intros ?. assign. Qed.
Lemma inv_set_calls v m :
  Forall (frame_ok img (l_Memory lim)) v → inv m → inv (set_calls v m).
Proof. intros ?. assign. by subst. Qed.
Lemma inv_set_steps v m : m_steps m ≤ v ≤ l_Steps lim → inv m → inv (set_steps v m).
Proof.
  intros Hv [H (?&?&?)]. split; [|split_and!; [done..|cbn; lia]].
  destruct H; split; cbn; auto. subst. lia.
Qed.
Lemma inv_set_peak v m : 0 ≤ v ≤ l_Memory lim → inv m → inv (set_peak v m).
Proof. intros ?. assign. by subst. Qed.
Lemma inv_set_output v m :
  bytes_ok v → lenZ v ≤ l_Memory lim → inv m → inv (set_output v m).
Proof. intros ??. assign. split; [done|]. by subst. Qed.
Lemma inv_set_stderr v m :
  bytes_ok v → lenZ v ≤ l_Memory lim → inv m → inv (set_stderr v m).
Proof. intros ??. assign. split; [done|]. by subst. Qed.
Lemma inv_set_stdinAt v m : 0 ≤ v → inv m → inv (set_stdinAt v m).
Proof. intros ?. assign. by destruct ok_stdin0. Qed.
Lemma inv_set_files v m :
  Forall file_ok v → lenZ (m_files m) ≤ lenZ v → inv m → inv (set_files v m).
Proof.
  intros ? Hl. assign. destruct ok_fds0 as [Hf ?]. split; [|done].
  eapply Forall_impl; [exact Hf|]. intros d (?&?&Ho). split_and!; [done..|].
  intros Hop. specialize (Ho Hop). lia.
Qed.
Lemma inv_set_fds v m : Forall (fd_ok (m_files m)) v → 3 ≤ lenZ v → inv m → inv (set_fds v m).
Proof. intros ??. assign. Qed.
End Invariant.

Section Primitives.
Context {img : image} {lim : Limits} {n : Z}.
Abbreviation inv := (inv img lim n).
Abbreviation safe := (safe img lim n).

Lemma inv_ok m : inv m → machine_ok m.
Proof. by intros [? _]. Qed.
Lemma inv_limits m : inv m → m_limits m = lim.
Proof. by intros (_&_&?&_). Qed.
Lemma inv_image m : inv m → m_image m = img.
Proof. by intros (_&?&_). Qed.

(** The stack pointers of a machine, in terms of the fixed limits. *)
Lemma inv_stack m :
  inv m → minAddress ≤ m_stackBase m ≤ m_sp m ∧ m_sp m ≤ m_fp m ≤ l_Memory lim.
Proof. intros Hm. rewrite <- (inv_limits m Hm). apply ok_stack, Hm. Qed.
Lemma inv_memory m : inv m → bytes_ok (m_memory m) ∧ lenZ (m_memory m) = l_Memory lim.
Proof. intros Hm. rewrite <- (inv_limits m Hm). apply ok_memory, Hm. Qed.

(** ** Registers and traps *)

Lemma safe_reg E r : 0 ≤ r < regCount → safe E (reg r) i32_ok.
Proof.
  intros Hr. apply safe_get. intros m Hm. destruct (ok_regs m (inv_ok m Hm)) as [Hf Hl].
  destruct (lookupZ_lt_is_Some (m_regs m) r) as [v Hv]; [lia|].
  eapply wp_lift; [done|]. split; [|done]. by eapply lookupZ_Forall.
Qed.

Lemma safe_setReg E r v : 0 ≤ r < regCount → i32_ok v → safe E (setReg r v) any.
Proof.
  intros Hr Hv. apply safe_get. intros m Hm. destruct (ok_regs m (inv_ok m Hm)) as [Hf Hl].
  apply wp_bind. eapply wp_lift; [apply insertZ_Some; lia|]. apply wp_modify.
  split; [done|]. apply inv_set_regs; [by apply Forall_insert| |done].
  unfold lenZ in *. by rewrite length_insert.
Qed.

Lemma safe_trapWith E t : safe E (trapWith t) any.
Proof.
  eapply safe_bind; [apply safe_modify; intros; by apply inv_set_trap|].
  intros _ _. by apply safe_ret.
Qed.

(** A register assignment that ends a step. *)
Lemma safe_setReg_true E r v :
  0 ≤ r < regCount → i32_ok v → safe E (_ ← setReg r v; mret true) any.
Proof.
  intros. eapply safe_bind; [by apply safe_setReg|]. intros _ _. by apply safe_ret.
Qed.

(** ** Checks and accounting *)

(** A successful check leaves the machine as it was. *)
Lemma wp_address E addr size m :
  inv m → wp E (address addr size)
    (λ ok m', (ok = true → m' = m ∧ minAddress ≤ addr ∧ 0 ≤ size ∧ addr + size ≤ l_Memory lim) ∧
              inv m') m.
Proof.
  intros Hm. apply wp_bind, wp_get. pose proof (inv_memory m Hm) as [_ Hl].
  destruct (_ || _) eqn:Hbad.
  - apply wp_bind, wp_modify, wp_ret. split; [done|]. by apply inv_set_trap.
  - apply wp_ret. split; [|done]. intros _. split; [done|lia].
Qed.

Lemma safe_address E addr size :
  safe E (address addr size)
    (λ ok, ok = true → minAddress ≤ addr ∧ 0 ≤ size ∧ addr + size ≤ l_Memory lim).
Proof.
  intros m Hm. eapply wp_conseq; [by apply wp_address|]. intros ok m' [Hok ?].
  split; [|done]. intros. by apply Hok.
Qed.

Lemma safe_buffer E addr size :
  safe E (buffer addr size)
    (λ ok, ok = true → size = 0 ∨ minAddress ≤ addr ∧ 0 ≤ size ∧ addr + size ≤ l_Memory lim).
Proof.
  unfold buffer. destruct (Z.eqb_spec size 0) as [->|]; [apply safe_ret; by left|].
  eapply safe_conseq; [apply safe_address|]. intros ok Hok ?. right. by apply Hok.
Qed.

Lemma safe_charge E cost : safe E (charge cost) any.
Proof.
  apply safe_get. intros m Hm. destruct (_ || _) eqn:Hbad.
  - eapply wp_conseq; [by apply safe_trapWith|]. done.
  - apply wp_bind, wp_modify, wp_ret. split; [done|].
    rewrite (inv_limits m Hm) in Hbad. apply inv_set_steps; [lia|done].
Qed.

Lemma safe_updatePeak E : safe E updatePeak any.
Proof.
  apply safe_get. intros m Hm. pose proof (inv_stack m Hm). rewrite (inv_limits m Hm).
  pose proof (lenZ_nonneg (m_calls m)). unfold minAddress in *.
  destruct (Z.ltb_spec (l_Memory lim)
    (m_sp m + (l_Memory lim - m_fp m) + lenZ (m_calls m) * 20)).
  - eapply wp_conseq; [by apply safe_trapWith|]. done.
  - apply wp_bind. destruct (Z.ltb_spec (m_peak m)
      (m_sp m + (l_Memory lim - m_fp m) + lenZ (m_calls m) * 20)); simpl.
    + apply wp_modify, wp_ret. split; [done|]. apply inv_set_peak; [lia|done].
    + by apply wp_ret, wp_ret.
Qed.

(** ** Loads and stores *)

Lemma storeBytes_Some memory addr size value :
  1 ≤ size ≤ 4 → bytes_ok memory → 0 ≤ addr → addr + accessSize size ≤ lenZ memory →
  ∃ memory', storeBytes memory addr size value = Some memory' ∧
    bytes_ok memory' ∧ lenZ memory' = lenZ memory.
Proof.
  unfold storeBytes, accessSize. intros Hs Hb H0 Hl.
  assert (∀ d i v, bytes_ok d → lenZ d = lenZ memory → 0 ≤ i < lenZ memory →
    ∃ d', insertZ d i (u8 v) = Some d' ∧ bytes_ok d' ∧ lenZ d' = lenZ memory) as Hins.
  { intros d i v Hd Hdl Hi. eexists. split; [apply insertZ_Some; lia|].
    split; [by apply Forall_insert; [|apply u8_range]|].
    unfold lenZ in *. by rewrite length_insert. }
  assert (addr + 1 ≤ lenZ memory) by (destruct (Z.eqb_spec size 3); lia).
  destruct (Hins memory addr value) as (m1&->&?&?); [done|done|lia|]. cbn [mbind option_bind].
  destruct (Z.ltb_spec 1 size); cbn [mbind option_bind].
  2:{ destruct (Z.ltb_spec 2 size); [lia|]. eauto. }
  assert (addr + 2 ≤ lenZ memory) by (destruct (Z.eqb_spec size 3); lia).
  destruct (Hins m1 (addr + 1) (Z.shiftr value 8)) as (m2&->&?&?); [done|done|lia|].
  cbn [mbind option_bind]. destruct (Z.ltb_spec 2 size); [|eauto].
  assert (addr + 4 ≤ lenZ memory) by (destruct (Z.eqb_spec size 3); lia).
  destruct (Hins m2 (addr + 2) (Z.shiftr value 16)) as (m3&->&?&?); [done|done|lia|].
  cbn [mbind option_bind].
  destruct (Hins m3 (addr + 3) (Z.shiftr value 24)) as (m4&->&?&?); [done|done|lia|]. eauto.
Qed.

Lemma safe_load E addr size :
  1 ≤ size ≤ 4 → safe E (load addr size) (λ o, ∀ v, o = Some v → u32_ok v).
Proof.
  intros Hs. eapply safe_bind; [apply safe_address|]. intros [] Hok; simpl; [|by apply safe_ret].
  destruct (Hok eq_refl) as (Ha&_&Hl). unfold minAddress, accessSize in *.
  apply safe_get. intros m Hm. pose proof (inv_memory m Hm) as [Hb Hlen].
  destruct (Z.eqb_spec size 1) as [->|].
  { destruct (lookupZ_lt_is_Some (m_memory m) addr) as [v Hv]; [simpl in Hl; lia|].
    apply wp_bind. eapply wp_lift; [done|]. apply wp_ret. split; [|done]. intros ? [= <-].
    pose proof (lookupZ_Forall _ _ _ _ Hb Hv). unfold byte_ok, u32_ok in *. lia. }
  destruct (Z.eqb_spec size 2) as [->|].
  { destruct (lookupZ_lt_is_Some (m_memory m) addr) as [v Hv]; [simpl in Hl; lia|].
    destruct (lookupZ_lt_is_Some (m_memory m) (addr + 1)) as [w Hw]; [simpl in Hl; lia|].
    apply wp_bind. eapply wp_lift; [unfold read16; rewrite Hv, Hw; done|]. apply wp_ret.
    split; [|done]. intros ? [= <-].
    pose proof (le16_range v w (lookupZ_Forall _ _ _ _ Hb Hv) (lookupZ_Forall _ _ _ _ Hb Hw)).
    unfold le16, u32_ok in *. lia. }
  destruct (read32_Some (m_memory m) addr) as (v&Hv&_);
    [done|lia|destruct (Z.eqb_spec size 3); lia|].
  apply wp_bind. eapply wp_lift; [done|]. apply wp_ret. split; [|done].
  intros ? [= <-]. apply u32_range.
Qed.

Lemma safe_store E addr size value :
  1 ≤ size ≤ 4 → safe E (store addr size value) any.
Proof.
  intros Hs. eapply safe_bind; [apply safe_address|]. intros [] Hok; simpl; [|by apply safe_ret].
  destruct (Hok eq_refl) as (Ha&_&Hl). unfold minAddress in *.
  apply safe_get. intros m Hm. pose proof (inv_memory m Hm) as [Hb Hlen].
  destruct (storeBytes_Some (m_memory m) addr size value) as (d&Hd&Hdb&Hdl); [done|done|lia|lia|].
  apply wp_bind. eapply wp_lift; [done|]. apply wp_bind, wp_modify, wp_ret.
  split; [done|]. apply inv_set_memory; [done|lia|done].
Qed.

Lemma safe_loadSized E addr size :
  validLoadSize size = true → safe E (loadSized addr size) (λ o, ∀ v, o = Some v → u32_ok v).
Proof.
  intros Hs. unfold loadSized.
  assert (∀ (f : Z → Z) k, 1 ≤ k ≤ 4 →
    safe E (v ← load addr k; mret ((λ x, u32 (f x)) <$> v)) (λ o, ∀ v, o = Some v → u32_ok v))
    as Hext.
  { intros f k Hk. eapply safe_bind; [by apply safe_load|]. intros o _. apply safe_ret.
    intros v. destruct o; simpl; [intros [= <-]; apply u32_range|done]. }
  unfold validLoadSize, validSize in Hs.
  destruct (Z.eqb_spec size 129); [by apply Hext|].
  destruct (Z.eqb_spec size 66); [by apply safe_load|].
  destruct (Z.eqb_spec size 2); [by apply Hext|]. apply safe_load. lia.
Qed.

Lemma safe_assignLoaded E r o : 0 ≤ r < regCount → safe E (assignLoaded r o) any.
Proof.
  intros Hr. destruct o; [|by apply safe_ret]. apply safe_setReg_true; [done|apply i32_range].
Qed.

Lemma safe_loadStack E r off : 0 ≤ r < regCount → safe E (loadStack r off) any.
Proof.
  intros Hr. apply safe_get. intros m Hm.
  assert (safe E (v ← load (m_fp m - off) 4; assignLoaded r v) any) as H; [|by apply H].
  eapply safe_bind; [by apply safe_load|]. intros. by apply safe_assignLoaded.
Qed.

Lemma safe_loadMem E r base disp size :
  0 ≤ r < regCount → 0 ≤ base < regCount → validLoadSize size = true →
  safe E (loadMem r base disp size) any.
Proof.
  intros. eapply safe_bind; [by apply safe_reg|]. intros b _.
  eapply safe_bind; [by apply safe_loadSized|]. intros. by apply safe_assignLoaded.
Qed.

(** ** The stack *)

Lemma safe_push E v : safe E (push v) any.
Proof.
  apply safe_get. intros m Hm. apply wp_bind.
  eapply wp_conseq; [by apply wp_address|]. intros ok m1 [Hok Hm1].
  destruct (negb ok || _) eqn:Hbad.
  { eapply wp_conseq; [by apply safe_trapWith|]. done. }
  destruct ok; [|done]. destruct (Hok eq_refl) as (->&?&_&?). simpl in Hbad.
  pose proof (inv_memory m Hm) as [Hb Hl]. pose proof (inv_stack m Hm).
  unfold minAddress in *.
  destruct (write32_Some (m_memory m) (m_sp m) v) as [d Hd]; [lia|lia|].
  apply wp_bind. eapply wp_lift; [done|]. apply wp_bind, wp_modify, wp_bind, wp_modify.
  apply safe_updatePeak. apply inv_set_sp; cbn; [lia|lia|]. apply inv_set_memory; [| |done].
  - by eapply write32_bytes_ok.
  - by rewrite (write32_length _ _ _ _ Hd).
Qed.

Lemma safe_pop E : safe E pop (λ o, ∀ v, o = Some v → i32_ok v).
Proof.
  apply safe_get. intros m Hm. pose proof (inv_memory m Hm) as [Hb Hl].
  pose proof (inv_stack m Hm). unfold minAddress in *.
  destruct (Z.ltb_spec (m_sp m - 4) (m_stackBase m)).
  { apply wp_bind, wp_modify, wp_ret. split; [done|]. by apply inv_set_trap. }
  apply wp_bind, wp_modify, wp_bind, wp_get, wp_bind.
  change (m_memory (set_sp _ _)) with (m_memory m). change (m_sp (set_sp ?x _)) with x.
  destruct (read32_Some (m_memory m) (m_sp m - 4)) as (v&Hv&_); [done|lia|lia|].
  eapply wp_lift; [done|]. apply wp_ret. split; [intros ? [= <-]; apply i32_range|].
  apply inv_set_sp; [lia|lia|done].
Qed.

Lemma safe_popReg E r : 0 ≤ r < regCount → safe E (popReg r) any.
Proof.
  intros Hr. eapply safe_bind; [apply safe_pop|]. intros [v|] Hv; [|by apply safe_ret].
  apply safe_setReg_true; [done|by apply Hv].
Qed.

(** ** Process arguments *)

Definition totalLength (values : list (list Z)) : Z := foldr (λ v acc, lenZ v + acc) 0 values.

Lemma totalLength_nonneg values : 0 ≤ totalLength values.
Proof.
  induction values as [|v values IH]; simpl; [lia|]. pose proof (lenZ_nonneg v). lia.
Qed.

Lemma stringsEnd_spec limit end_ values e :
  stringsEnd limit end_ values = Some e → e = end_ + totalLength values.
Proof.
  revert end_. induction values as [|v values IH]; simpl; intros end_; [intros [= ->]; lia|].
  destruct (_ || _); [done|]. intros ->%IH. lia.
Qed.

Lemma align8_bounds v : v ≤ align8 v ≤ v + 7.
Proof. unfold align8. rewrite ldiff_7. pose proof (Z.mod_pos_bound (v + 7) 8). lia. Qed.

Lemma writeStrings_Some values memory at_ cursor :
  bytes_ok memory → Forall (Forall byte_ok) values →
  0 ≤ at_ → at_ + lenZ values * 16 ≤ lenZ memory →
  0 ≤ cursor → cursor + totalLength values ≤ lenZ memory →
  ∃ memory', writeStrings memory at_ cursor values = Some memory' ∧
    bytes_ok memory' ∧ lenZ memory' = lenZ memory.
Proof.
  intros Hb Hv. revert memory at_ cursor Hb.
  induction Hv as [|v values Hv Hvs IH]; intros memory at_ cursor Hb Ha Hal Hc Hcl; [by eexists|].
  rewrite lenZ_cons in Hal. simpl in Hcl.
  pose proof (lenZ_nonneg values). pose proof (lenZ_nonneg v).
  pose proof (totalLength_nonneg values). cbn [writeStrings].
  assert (∀ d i x, bytes_ok d → lenZ d = lenZ memory → 0 ≤ i → i + 4 ≤ lenZ memory →
    ∃ d', write32 d i x = Some d' ∧ bytes_ok d' ∧ lenZ d' = lenZ memory) as Hw.
  { intros d i x Hd Hdl ??. destruct (write32_Some d i x) as [d' Hd']; [lia|lia|].
    exists d'. split; [done|]. split; [by eapply write32_bytes_ok|].
    by rewrite (write32_length _ _ _ _ Hd'). }
  destruct (Hw memory at_ cursor) as (m1&->&?&?); [done|done|lia|lia|]. cbn [mbind option_bind].
  destruct (Hw m1 (at_ + 4) 0) as (m2&->&?&?); [done|done|lia|lia|]. cbn [mbind option_bind].
  destruct (Hw m2 (at_ + 8) (lenZ v)) as (m3&->&?&?); [done|done|lia|lia|].
  cbn [mbind option_bind].
  destruct (Hw m3 (at_ + 12) 0) as (m4&->&?&?); [done|done|lia|lia|]. cbn [mbind option_bind].
  destruct (writeAll_Some v m4 cursor) as [m5 Hm5]; [lia|lia|]. rewrite Hm5.
  cbn [mbind option_bind]. pose proof (writeAll_length _ _ _ _ Hm5).
  destruct (IH m5 (at_ + 16) (cursor + lenZ v)) as (d&->&?&?);
    [by eapply writeAll_Forall, Hm5|lia|lia|lia|lia|]. exists d. split; [done|split; [done|lia]].
Qed.

Lemma safe_buildStrings E values :
  Forall (Forall byte_ok) values → safe E (buildStrings values) any.
Proof.
  intros Hv. apply safe_get. intros m Hm. pose proof (inv_memory m Hm) as [Hb Hl].
  pose proof (inv_stack m Hm). rewrite (inv_limits m Hm).
  assert (wp E (_ ← modify (set_trap TrapMemoryLimit); mret None)
    (λ (o : option Z) m', any o ∧ inv m') m) as Htrap.
  { apply wp_bind, wp_modify, wp_ret. split; [done|]. by apply inv_set_trap. }
  cbv zeta. destruct (stringsEnd (l_Memory lim) (align8 (m_sp m + lenZ values * 16)) values)
    as [e|] eqn:He; [|done]. apply stringsEnd_spec in He.
  destruct (_ || _) eqn:Hbad; [done|].
  pose proof (align8_bounds (m_sp m + lenZ values * 16)). pose proof (align8_bounds e).
  pose proof (totalLength_nonneg values). pose proof (lenZ_nonneg values).
  unfold minAddress in *.
  destruct (writeStrings_Some values (m_memory m) (m_sp m) (align8 (m_sp m + lenZ values * 16)))
    as (d&Hd&Hdb&Hdl); [done|done|lia|lia|lia|lia|].
  apply wp_bind. eapply wp_lift; [done|]. apply wp_bind, wp_modify, wp_bind, wp_modify, wp_bind.
  eapply wp_conseq; [apply safe_updatePeak|].
  - apply inv_set_sp; cbn; [lia|lia|]. apply inv_set_memory; [done|lia|done].
  - intros ok m' [_ Hm']. apply wp_ret. by destruct ok.
Qed.

(** ** Arithmetic *)

Lemma i32_ok_shiftr v k : 0 ≤ k → i32_ok v → i32_ok (Z.shiftr v k).
Proof.
  unfold i32_ok. intros Hk Hv. rewrite Z.shiftr_div_pow2 by done.
  assert (0 < 2 ^ k) by (apply Z.pow_pos_nonneg; lia). split.
  - apply Z.div_le_lower_bound; nia.
  - apply Z.div_lt_upper_bound; nia.
Qed.

(** Bitwise operations stay within int32: all bits from 31 up are the sign. *)
Lemma i32_ok_bits v : i32_ok v ↔ ∀ i, 31 ≤ i → Z.testbit v i = Z.testbit v 31.
Proof.
  split.
  - intros Hv i Hi. assert (Z.shiftr v 31 = 0 ∨ Z.shiftr v 31 = -1) as Hs.
    { unfold i32_ok in Hv. rewrite Z.shiftr_div_pow2 by lia. Z.div_mod_to_equations. lia. }
    replace i with (i - 31 + 31) by lia. rewrite <- Z.shiftr_spec by lia.
    change 31 with (0 + 31) at 3. rewrite <- Z.shiftr_spec by lia.
    destruct Hs as [-> | ->]; [by rewrite !Z.bits_0|by rewrite !Z.bits_m1 by lia].
  - intros Hb. assert (Z.shiftr v 31 = 0 ∨ Z.shiftr v 31 = -1) as Hs.
    { destruct (Z.testbit v 31) eqn:E; [right|left]; apply Z.bits_inj'; intros i Hi;
        rewrite Z.shiftr_spec, Hb by lia; [by rewrite Z.bits_m1|by rewrite Z.bits_0]. }
    unfold i32_ok. rewrite Z.shiftr_div_pow2 in Hs by lia. Z.div_mod_to_equations. lia.
Qed.

Lemma i32_ok_quot a b :
  (b =? 0) = false → (a =? -2147483647 - 1) && (b =? -1) = false →
  i32_ok a → i32_ok b →
  i32_ok (Z.quot a b).
Proof.
  unfold i32_ok. intros Hb Hov Ha Hbr.
  assert (b = -1 ∨ b = 1 ∨ 2 ≤ Z.abs b) as [->|[->|Hb2]] by lia.
  - change (-1) with (- (1)). rewrite Z.quot_opp_r, Z.quot_1_r by lia. lia.
  - rewrite Z.quot_1_r. lia.
  - pose proof (Z.quot_abs a b ltac:(lia)) as Habs.
    rewrite Z.quot_div_nonneg in Habs by lia.
    assert (Z.abs a / Z.abs b < 2 ^ 31) by (apply Z.div_lt_upper_bound; nia). lia.
Qed.

Lemma i32_ok_rem a b : (b =? 0) = false → i32_ok a → i32_ok b → i32_ok (Z.rem a b).
Proof.
  unfold i32_ok. intros Hb Ha Hbr.
  pose proof (Z.rem_bound_abs a b ltac:(lia)). lia.
Qed.

Lemma binaryOp_range op left right v :
  i32_ok left → i32_ok right → binaryOp op left right = inl v → i32_ok v.
Proof.
  intros Hl Hr. unfold binaryOp.
  repeat case_match; try done; intros [= <-]; try apply i32_range; try done.
  all: try (apply i32_ok_bits; intros i Hi;
    rewrite ?Z.land_spec, ?Z.lor_spec, ?Z.lxor_spec, ?Z.ldiff_spec by lia;
    by rewrite (proj1 (i32_ok_bits left) Hl i), (proj1 (i32_ok_bits right) Hr i)).
  all: try (unfold i32_ok; lia).
  all: try (apply i32_ok_shiftr; [unfold u32; pose proof (Z.mod_pos_bound right (2 ^ 32)); lia|done]).
  - by apply i32_ok_quot.
  - by apply i32_ok_rem.
Qed.
End Primitives.
