(* ===== verification/VmSafety.v ===== *)
(** Safety of the interpreter: every instruction preserves the machine invariant,
    and only a system call can panic. *)

From S2P Require Import Prelude.
From S2P Require Import GoInt.
From S2P Require Import VmImage.
From S2P Require Import VmImageFacts.
From S2P Require Import VmDecode.
From S2P Require Import VmMachine.
From S2P Require Import VmInvariant.
From S2P Require Import VmExec.

(** Replaces the closed conditions of a goal by their values. *)
Ltac decide_ifs :=
  repeat match goal with
  | |- context [if ?b then _ else _] =>
      let b' := eval vm_compute in b in
      lazymatch b' with
      | true => change b with true
      | false => change b with false
      end; cbv iota
  end.

Ltac decide_ifs_in H :=
  repeat match type of H with
  | context [if ?b then _ else _] =>
      let b' := eval vm_compute in b in
      lazymatch b' with
      | true => change b with true in H
      | false => change b with false in H
      end; cbv iota in H
  end.

Section Instructions.
Context (slice_cap : list Z → Z) {img : image} {lim : Limits} {n : Z}.
Context (Himg : image_ok img).
Abbreviation inv := (inv img lim n).
Abbreviation safe := (safe img lim n).
Abbreviation code := (i_code img).

(** ** Operands *)

Lemma safe_codeByte E i v : code !!z i = Some v → safe E (codeByte i) (λ b, b = v).
Proof.
  intros Hi. apply safe_get. intros m Hm. rewrite (inv_image m Hm). by eapply wp_lift.
Qed.

Lemma safe_codeWord E i :
  0 ≤ i → i + 4 ≤ lenZ code → safe E (codeWord i) (λ w, read32 code i = Some w ∧ u32_ok w).
Proof.
  intros H0 H4. destruct (read32_Some code i) as (w&Hw&?); [apply Himg|done..|].
  apply safe_get. intros m Hm. rewrite (inv_image m Hm). by eapply wp_lift.
Qed.

Lemma safe_codeInt32 E i : 0 ≤ i → i + 4 ≤ lenZ code → safe E (codeInt32 i) i32_ok.
Proof.
  intros H0 H4. destruct (read32_Some code i) as (w&Hw&?); [apply Himg|done..|].
  apply safe_get. intros m Hm. rewrite (inv_image m Hm). apply wp_bind.
  eapply wp_lift; [done|]. apply wp_ret. split; [apply i32_range|done].
Qed.

Lemma regOperand_true i :
  regOperand code i = Some true → ∃ r, code !!z i = Some r ∧ 0 ≤ r < regCount.
Proof.
  unfold regOperand. destruct (code !!z i) as [r|] eqn:Hi; simpl; [|done].
  intros [= Hr]. exists r. split; [done|].
  pose proof (lookupZ_Forall _ _ _ _ (image_code_bytes _ Himg) Hi). unfold byte_ok in *. lia.
Qed.

Lemma byteTest_true i t :
  byteTest code i t = Some true → ∃ b, code !!z i = Some b ∧ byte_ok b ∧ t b = true.
Proof.
  unfold byteTest. destruct (code !!z i) as [b|] eqn:Hi; simpl; [|done].
  intros [= Hb]. exists b. split_and!; [done|..|done];
    pose proof (lookupZ_Forall _ _ _ _ (image_code_bytes _ Himg) Hi); unfold byte_ok in *; lia.
Qed.

(** A register operand fetched from the code. *)
Lemma safe_codeReg E i :
  regOperand code i = Some true → safe E (codeByte i) (λ r, 0 ≤ r < regCount).
Proof.
  intros (r&Hi&Hr)%regOperand_true. eapply safe_conseq; [by apply safe_codeByte|].
  by intros ? ->.
Qed.

Lemma safe_regAt E i : regOperand code i = Some true → safe E (regAt i) i32_ok.
Proof. intros. eapply safe_bind; [by apply safe_codeReg|]. intros. by apply safe_reg. Qed.

Lemma safe_andThen E a b : safe E a any → safe E b any → safe E (andThen a b) any.
Proof.
  intros. eapply safe_bind; [done|]. intros [] _; [done|]. by apply safe_ret.
Qed.

Lemma safe_movImm E at_ imm :
  regOperand code at_ = Some true → 0 ≤ imm → imm + 4 ≤ lenZ code →
  safe E (movImm at_ imm) any.
Proof.
  intros. eapply safe_bind; [by apply safe_codeInt32|]. intros v Hv.
  eapply safe_bind; [by apply safe_codeReg|]. intros r Hr. by apply safe_setReg_true.
Qed.

Lemma safe_movReg E dst src :
  regOperand code dst = Some true → regOperand code src = Some true →
  safe E (movReg dst src) any.
Proof.
  intros. eapply safe_bind; [by apply safe_regAt|]. intros v Hv.
  eapply safe_bind; [by apply safe_codeReg|]. intros r Hr. by apply safe_setReg_true.
Qed.

Lemma safe_pushAt E i : regOperand code i = Some true → safe E (pushAt i) any.
Proof. intros. eapply safe_bind; [by apply safe_regAt|]. intros. by apply safe_push. Qed.

Lemma safe_popAt E i : regOperand code i = Some true → safe E (popAt i) any.
Proof. intros. eapply safe_bind; [by apply safe_codeReg|]. intros. by apply safe_popReg. Qed.

Lemma safe_loadStackAt E r imm :
  regOperand code r = Some true → 0 ≤ imm → imm + 4 ≤ lenZ code →
  safe E (loadStackAt r imm) any.
Proof.
  intros. eapply safe_bind; [by apply safe_codeReg|]. intros r' Hr.
  eapply safe_bind; [by apply safe_codeInt32|]. intros. by apply safe_loadStack.
Qed.

(** ** Handlers *)

Lemma safe_buildArgsEnv E : safe E stepBuildArgsEnv any.
Proof.
  apply safe_get. intros m Hm. destruct (ok_args m (inv_ok m Hm)) as [Ha He].
  assert (∀ c : GoM machine bool, safe E c any → wp E c (λ a m', any a ∧ inv m') m) as Hgo
    by (intros c Hc; by apply Hc).
  apply Hgo. eapply safe_bind; [by apply safe_buildStrings|]. intros [a|] _; [|by apply safe_ret].
  eapply safe_bind; [by apply safe_buildStrings|]. intros [e|] _; [|by apply safe_ret].
  do 6 (eapply safe_bind; [apply safe_setReg; [split; [discriminate|reflexivity]|apply i32_range]|]; intros _ _).
  eapply safe_bind; [apply safe_modify; intros; by apply inv_set_stackBase|].
  intros. by apply safe_ret.
Qed.

Lemma safe_binaryValue E op dst right :
  0 ≤ dst < regCount → i32_ok right → safe E (binaryValue op dst right) any.
Proof.
  intros. eapply safe_bind; [by apply safe_reg|]. intros left Hleft.
  destruct (binaryOp op left right) eqn:Hop; [|apply safe_trapWith].
  apply safe_setReg_true; [done|]. exact (binaryOp_range op left right _ Hleft H0 Hop).
Qed.

Lemma safe_setFlag E v : i32_ok v → safe E (_ ← modify (set_flag v); mret true) any.
Proof.
  intros. eapply safe_bind; [apply safe_modify; intros; by apply inv_set_flag|].
  intros. by apply safe_ret.
Qed.

Lemma safe_jump E target :
  boundary code target → safe E (_ ← modify (set_pc target); mret true) any.
Proof.
  intros. eapply safe_bind; [apply safe_modify; intros; by apply inv_set_pc|].
  intros. by apply safe_ret.
Qed.

Lemma safe_ret_instr E : safe E stepRet any.
Proof.
  apply safe_get. intros m Hm. pose proof (ok_calls m (inv_ok m Hm)) as Hcalls.
  pose proof (inv_stack m Hm) as Hstack.
  rewrite (inv_image m Hm), (inv_limits m Hm) in Hcalls.
  destruct (last (m_calls m)) as [f|] eqn:Hlast; [|by apply wp_ret].
  apply last_Some in Hlast as [calls Hc]. rewrite Hc in *.
  apply Forall_app in Hcalls as [Hcs (Hpc&Hsp&Hfp&Hdrop&Hr)%Forall_singleton].
  apply wp_bind, wp_modify. rewrite removelast_last.
  assert (inv (set_calls calls m)) as Hm1 by by apply inv_set_calls.
  destruct (Z.ltb_spec (cf_sp f - m_stackBase m) (cf_drop f)).
  { by apply safe_trapWith. }
  apply wp_bind, wp_modify, wp_bind, wp_modify, wp_bind, wp_modify, wp_bind, wp_modify, wp_ret.
  split; [done|]. destruct Hm1 as [K (?&?&?)]. split; [|done]. destruct K; split; cbn in *; auto.
  - by subst.
  - subst. lia.
  - by subst.
Qed.

Lemma safe_call E pc :
  0 ≤ pc → pc + 9 ≤ lenZ code → boundary code (pc + 9) → target_ok code (i_routines img) pc →
  code !!z pc = Some opCall → safe E (stepCall pc (pc + 9)) any.
Proof.
  intros H0 Hlen Hnext Htarget Hop.
  eapply safe_bind; [apply safe_codeWord; lia|]. intros target [Hread Hrange].
  assert (branchTarget code pc = Some target) as Hbt.
  { unfold branchTarget. rewrite Hop. simpl. done. }
  destruct (Htarget target Hbt) as (_&Hb&Hcall); [unfold u32_ok in *; lia|].
  destruct (Hcall Hop) as (i&Hi&Hi0).
  apply safe_get. intros m Hm. rewrite (inv_image m Hm).
  apply wp_bind. eapply wp_lift; [done|]. rewrite (proj2 (Z.ltb_ge i 0)) by done.
  destruct (findRoutine_correct (i_routines img) target) as (j&Hj&Hcase); [apply Himg|].
  rewrite Hi in Hj. injection Hj as <-.
  destruct Hcase as [(callee&Hcallee&_)|[-> _]]; [|lia].
  apply wp_bind. eapply wp_lift; [done|].
  pose proof (ok_routine m (inv_ok m Hm)) as Hr. rewrite (inv_image m Hm) in Hr.
  destruct (lookupZ_lt_is_Some (i_routines img) (m_routine m)) as [caller Hcaller]; [done|].
  destruct (lookupZ_Forall _ _ _ _ (image_routines _ Himg) Hcaller) as (_&Hfs&_).
  apply wp_bind. eapply (wp_conseq _ (λ fs m', m' = m ∧ 0 ≤ fs)).
  { destruct (r_framed callee); [|by apply wp_ret]. apply wp_bind. eapply wp_lift; [done|].
    apply wp_ret. split; [done|]. unfold u32_ok in Hfs. lia. }
  intros fs m' [-> Hfs0]. pose proof (inv_stack m Hm).
  cbv beta zeta. destruct (_ || _) eqn:Hbad; [by apply safe_trapWith|].
  destruct (read32_Some code (pc + 5)) as (w&Hw&_); [apply Himg|lia|lia|].
  apply wp_bind, wp_bind, wp_get. rewrite (inv_image m Hm). eapply wp_lift; [done|].
  apply wp_bind, wp_modify, wp_bind, wp_modify, wp_bind, wp_modify, wp_bind, wp_modify.
  apply safe_updatePeak.
  apply inv_set_pc; [done|]. apply inv_set_routine; [by eapply lookupZ_lt_Some|].
  apply inv_set_fp; [cbn; lia|lia|]. apply inv_set_calls; [|done].
  apply Forall_app. split; [|apply Forall_singleton].
  { pose proof (ok_calls m (inv_ok m Hm)) as Hc.
    by rewrite (inv_image m Hm), (inv_limits m Hm) in Hc. }
  unfold frame_ok, minAddress in *. cbn. split_and!; try lia; [done|]. case_match; lia.
Qed.

Lemma safe_trap_instr E t : safe E (trapWith t) any.
Proof. apply safe_trapWith. Qed.

(** A byte operand of any kind. *)
Lemma safe_codeAny E i : 0 ≤ i < lenZ code → safe E (codeByte i) byte_ok.
Proof.
  intros [b Hb]%lookupZ_lt_is_Some. eapply safe_conseq; [by apply safe_codeByte|].
  intros ? ->. by eapply lookupZ_Forall, Hb; apply Himg.
Qed.

(** The size operand of a load or store, checked by the validator. *)
Lemma safe_codeSize E i (t : Z → bool) b :
  code !!z i = Some b → t b = true → safe E (codeByte i) (λ s, t s = true).
Proof.
  intros Hb Ht. eapply safe_conseq; [by apply safe_codeByte|]. by intros ? ->.
Qed.

Lemma safe_condJump E (c : bool) i :
  (∀ t, read32 code i = Some t → 0 ≤ t → boundary code t) →
  0 ≤ i → i + 4 ≤ lenZ code →
  safe E (if c then target ← codeWord i; _ ← modify (set_pc target); mret true
          else mret true) any.
Proof.
  intros Ht H0 H4. destruct c; [|by apply safe_ret].
  eapply safe_bind; [by apply safe_codeWord|]. intros t [Hr Hu]. apply safe_jump.
  apply Ht; [done|]. unfold u32_ok in Hu. lia.
Qed.

(** [safe] under a read of the current state that the continuation only inspects. *)
Lemma safe_get_any {A} E (f : machine → GoM machine A) P :
  (∀ m, inv m → safe E (f m) P) → safe E (get ≫= f) P.
Proof. intros H. apply safe_get. intros m Hm. by apply H. Qed.

(** One operand fetch or register access. *)
Ltac operand :=
  lazymatch goal with
  | |- VmInvariant.safe _ _ _ _ (codeByte _) _ => apply safe_codeReg; assumption
  | |- VmInvariant.safe _ _ _ _ (codeInt32 _) _ => apply safe_codeInt32; lia
  | |- VmInvariant.safe _ _ _ _ (regAt _) _ => apply safe_regAt; assumption
  | |- VmInvariant.safe _ _ _ _ (reg _) _ => apply safe_reg; assumption
  end.
Ltac fetch := eapply safe_bind; [operand|intros ? ?].
Ltac finish :=
  lazymatch goal with
  | |- VmInvariant.safe _ _ _ _ (mret _) _ => by apply safe_ret
  | |- VmInvariant.safe _ _ _ _ (trapWith _) _ => apply safe_trap_instr
  | |- VmInvariant.safe _ _ _ _ (setReg _ _ ≫= _) _ =>
      apply safe_setReg_true; [assumption|try apply i32_range]
  | |- VmInvariant.safe _ _ _ _ (modify (set_flag _) ≫= _) _ => apply safe_setFlag, i32_range
  end.

(** What the validator knows about the instruction [op] at [pc]. *)
Record fetched (op pc : Z) : Prop := {
  fetch_op : code !!z pc = Some op;
  fetch_pc : 0 ≤ pc;
  fetch_next : pc + instructionSize op ≤ lenZ code;
  fetch_valid : validOperands code pc = Some true;
  fetch_boundary : boundary code (pc + instructionSize op);
  fetch_target : target_ok code (i_routines img) pc
}.

Lemma boundary_fetched pc op :
  boundary code pc → code !!z pc = Some op → fetched op pc.
Proof.
  intros Hb Hop. pose proof (lookupZ_lt_Some _ _ _ Hop) as Hr.
  destruct (image_code _ Himg) as [Hi Ht _].
  destruct (Hi pc Hb) as [[_ Hn] Hv]; [lia|].
  pose proof (boundary_next _ _ Hb (proj2 Hr)) as Hbn.
  unfold nextInstruction in Hn, Hbn. rewrite Hop in Hn, Hbn.
  split; [done|lia|lia|done|done|]. apply Ht; [done|lia].
Qed.

(** The operand facts of a concrete opcode, from [fetched]. *)
Ltac operands H :=
  destruct H as [Hop Hpc Hnext Hvalid Hboundary Htarget];
  unfold validOperands in Hvalid; rewrite Hop in Hvalid; cbn [mbind option_bind] in Hvalid;
  cbv zeta in Hvalid; decide_ifs_in Hvalid; cbn in Hnext;
  rewrite ?andO_true in Hvalid; destruct_and? Hvalid.

Ltac piece :=
  first [ apply safe_pushAt; assumption
        | apply safe_popAt; assumption
        | apply safe_loadStackAt; [assumption|lia|lia]
        | apply safe_movImm; [assumption|lia|lia]
        | apply safe_movReg; assumption ].

Lemma safe_fused E op pc :
  48 ≤ op ≤ 54 → fetched op pc → safe E (stepFused op pc) any.
Proof.
  intros Hr H. assert (op ∈ seqZ 48 7) as Hin by (apply elem_of_seqZ; lia).
  case_op Hin; operands H; unfold stepFused; decide_ifs; apply safe_andThen; try piece.
  do 3 fetch. match goal with H : byteTest _ _ _ = Some true |- _ =>
    apply byteTest_true in H as (size&Hs&_&Ht) end.
  eapply safe_bind; [by eapply safe_codeSize|]. intros s Hs'. by apply safe_loadMem.
Qed.

(** Names the size byte of a load or store and splits the validator's test on it. *)
Ltac size_operand Hvalid :=
  match type of Hvalid with
  | (?c !!z ?i ≫= _) = _ =>
      destruct (c !!z i) as [size|] eqn:Hsize; [|done]; cbn [mbind option_bind] in Hvalid;
      rewrite ?andO_true in Hvalid; destruct_and! Hvalid;
      match goal with H : Some (_ || _) = Some true |- _ =>
        injection H as H; cbn -[validLoadSize validSize] in H; rewrite ?orb_false_r in H end
  end.

Lemma validSize_range size : validSize size = true → 1 ≤ size ≤ 4.
Proof. unfold validSize. lia. Qed.

Lemma safe_loadStore E op pc :
  op ∈ [8; 9; 10; 11; 12; 13; 14] → fetched op pc → safe E (stepLoadStore op pc) any.
Proof.
  intros Hin H. case_op Hin; operands H; unfold stepLoadStore; decide_ifs.
  1-3: do 2 fetch; apply safe_get_any; intros m Hm; cbv zeta.
  4-7: size_operand Hvalid.
  - by apply safe_loadStack.
  - fetch. apply safe_store; lia.
  - eapply safe_bind; [apply safe_address|]. intros [] _; simpl; finish.
  - do 4 fetch. eapply safe_bind; [by eapply safe_codeSize|]. intros s Hs. by apply safe_loadMem.
  - do 4 fetch. eapply safe_bind; [by eapply safe_codeSize|]. intros s Hs%validSize_range.
    fetch. by apply safe_store.
  - do 3 fetch. eapply safe_bind; [apply safe_codeAny; lia|]. intros scale _. do 3 fetch.
    eapply safe_bind; [by eapply safe_codeSize|]. intros s Hs. cbv zeta.
    eapply safe_bind; [by apply safe_loadSized|]. intros. by apply safe_assignLoaded.
  - do 3 fetch. eapply safe_bind; [apply safe_codeAny; lia|]. intros scale _. do 3 fetch.
    eapply safe_bind; [by eapply safe_codeSize|]. intros s Hs%validSize_range. cbv zeta.
    fetch. by apply safe_store.
Qed.

Lemma safe_arith E op pc :
  op ∈ [15; 16; 17; 18; 19; 20; 21; 22; 23; 24; 25; 44; 47; 26; 27; 28; 29; 30; 31; 32] →
  fetched op pc → safe E (stepArith op pc) any.
Proof.
  intros Hin H. case_op Hin; operands H; unfold stepArith; decide_ifs.
  1-12: do 2 fetch; unfold binary; fetch; by apply safe_binaryValue.
  - eapply safe_bind; [apply safe_codeAny; lia|]. intros op' _. do 2 fetch.
    by apply safe_binaryValue.
  - do 3 fetch. finish.
  - do 3 fetch. finish.
  - do 2 fetch. finish.
  - fetch. eapply safe_bind; [by apply safe_load|]. intros [v|] _; [|finish].
    by apply safe_store.
  - fetch. eapply safe_bind; [by apply safe_load|]. intros [v|] _; [|finish].
    by apply safe_store.
  - do 2 fetch. finish. case_match; unfold i32_ok; lia.
  - do 2 fetch. finish.
Qed.

Lemma target_boundary pc t :
  target_ok code (i_routines img) pc → branchTarget code pc = Some t → 0 ≤ t → boundary code t.
Proof. intros Ht Hb H0. by destruct (Ht t Hb H0) as (_&?&_). Qed.

(** A branch target the validator checked. *)
Ltac branch pc Hop Htarget :=
  apply (target_boundary pc); [done| |];
  [unfold branchTarget; rewrite Hop; cbn [mbind option_bind]; cbv zeta; decide_ifs; done|].

Lemma safe_control E op pc :
  op ∈ [33; 34; 35; 36; 37; 38; 39; 40; 41; 42; 43] → fetched op pc →
  (op = opSyscall → safe E (syscall slice_cap) any) →
  safe E (stepControl slice_cap op pc (pc + instructionSize op)) any.
Proof.
  intros Hin H Hsys. case_op Hin; operands H; unfold stepControl; decide_ifs.
  - do 2 fetch. finish.
  - do 2 fetch. finish.
  - eapply safe_bind; [apply safe_codeAny; lia|]. intros cond _.
    apply safe_get_any. intros m Hm.
    apply safe_setReg_true; [split; [discriminate|reflexivity]|].
    case_match; unfold i32_ok; lia.
  - eapply safe_bind; [apply safe_codeWord; lia|]. intros t [Hr Hu]. apply safe_jump.
    branch pc Hop Htarget. unfold u32_ok in Hu. lia.
  - apply safe_get_any. intros m Hm. cbv zeta. apply safe_condJump; [|lia|lia].
    intros t Hr ?. by branch pc Hop Htarget.
  - apply safe_get_any. intros m Hm. cbv zeta. apply safe_condJump; [|lia|lia].
    intros t Hr ?. by branch pc Hop Htarget.
  - eapply safe_bind; [apply safe_codeAny; lia|]. intros cond _.
    apply safe_get_any. intros m Hm. apply safe_condJump; [|lia|lia].
    intros t Hr ?. by branch pc Hop Htarget.
  - by apply safe_call.
  - apply safe_ret_instr.
  - by apply Hsys.
  - finish.
Qed.

(** The body of a step, for an opcode the validator accepted. *)
Lemma safe_dispatch E op pc :
  fetched op pc → (op = opSyscall → safe E (syscall slice_cap) any) →
  safe E (dispatch slice_cap op pc (pc + instructionSize op)) any.
Proof.
  intros H Hsys. pose proof (validOperands_op _ _ _ (fetch_valid _ _ H) (fetch_op _ _ H)) as Hin.
  assert (op ∈ [8; 9; 10; 11; 12; 13; 14] ∨
    op ∈ [15; 16; 17; 18; 19; 20; 21; 22; 23; 24; 25; 44; 47; 26; 27; 28; 29; 30; 31; 32] ∨
    op ∈ [33; 34; 35; 36; 37; 38; 39; 40; 41; 42; 43] ∨ 48 ≤ op ≤ 54 ∨ op ∈ seqZ 1 7) as Hclass.
  { unfold validOps in Hin. rewrite elem_of_app, !elem_of_seqZ in Hin.
    rewrite elem_of_seqZ, !list_elem_of_In. simpl. lia. }
  destruct Hclass as [Hc|[Hc|[Hc|[Hc|Hc]]]].
  - pose proof (safe_loadStore E op pc Hc H) as Hs. case_op Hc; unfold dispatch; decide_ifs; done.
  - pose proof (safe_arith E op pc Hc H) as Hs. case_op Hc; unfold dispatch; decide_ifs; done.
  - pose proof (safe_control E op pc Hc H Hsys) as Hs.
    case_op Hc; unfold dispatch; decide_ifs; done.
  - pose proof (safe_fused E op pc Hc H) as Hs.
    assert (op ∈ seqZ 48 7) as Hc' by (apply elem_of_seqZ; lia).
    case_op Hc'; unfold dispatch; decide_ifs; done.
  - case_op Hc; operands H; unfold dispatch; decide_ifs; try piece.
    + by apply safe_ret.
    + apply safe_buildArgsEnv.
    + eapply safe_bind; [apply safe_codeInt32; lia|]. intros. by apply safe_push.
Qed.
End Instructions.
