(* ===== verification/VmDirectory.v ===== *)
(** Directory listings of the VM's in-memory file system: the entries below a
    path, in order, and the total encoding of the directory records. *)

From Stdlib Require Import Sorting.Sorted.
From S2P Require Import Prelude.
From S2P Require Import GoInt.
From S2P Require Import VmImage.
From S2P Require Import VmImageFacts.
From S2P Require Import VmDecode.
From S2P Require Import VmMachine.
From S2P Require Import VmInvariant.
From S2P Require Import VmExec.

#[local] Set Warnings "-clear-no-such-hyp".

Definition entry_ok (e : directoryEntry) : Prop := bytes_ok (e_name e).

(** * Well-formed entries *)

Lemma firstComponent_bytes child : bytes_ok child → bytes_ok (firstComponent child).1.
Proof.
  induction 1 as [|c child Hc _ IH]; simpl; [constructor|].
  destruct (c =? 47); [constructor|]. destruct (firstComponent child). by constructor.
Qed.

Lemma insertEntry_ok child isDir entries :
  bytes_ok child → Forall entry_ok entries → Forall entry_ok (insertEntry child isDir entries).
Proof.
  intros Hc. induction 1 as [|e entries He Hes IH]; simpl; [by repeat constructor|].
  repeat case_match; by repeat constructor.
Qed.

Lemma addFile_ok prefix entries file :
  file_ok file → Forall entry_ok entries → Forall entry_ok (addFile prefix entries file).
Proof.
  intros [Hn _] He. unfold addFile. case_match; [done|].
  destruct (firstComponent _) as [child isDir] eqn:Hf. case_match; [done|].
  apply insertEntry_ok; [|done]. change child with (child, isDir).1. rewrite <- Hf.
  by apply firstComponent_bytes, Forall_drop.
Qed.

Lemma directoryEntries_ok files name :
  Forall file_ok files → Forall entry_ok (directoryEntries files name).
Proof.
  unfold directoryEntries. intros Hf.
  assert (Forall entry_ok (@nil directoryEntry)) as H0 by constructor. revert H0.
  generalize (@nil directoryEntry). induction Hf as [|f files Hf Hfs IH]; simpl; [done|].
  intros entries He. by apply IH, addFile_ok.
Qed.

(** * Encoding *)

Lemma direntRecord_Some i e :
  entry_ok e → ∃ r, direntRecord i e = Some r ∧ bytes_ok r.
Proof.
  intros He. unfold direntRecord. cbv zeta.
  pose proof (lenZ_nonneg (e_name e)).
  assert (20 + lenZ (e_name e) ≤ Z.ldiff (20 + lenZ (e_name e) + 7) 7) as Hsize.
  { rewrite ldiff_7. Z.div_mod_to_equations. lia. }
  set (size := Z.ldiff _ 7) in *. set (zeros := replicate _ 0).
  assert (lenZ zeros = size) as Hz by (unfold zeros; rewrite lenZ_replicate; lia).
  assert (bytes_ok zeros) as Hzb by (apply Forall_replicate; unfold byte_ok; lia).
  assert (∀ d j x, lenZ d = size → bytes_ok d → 0 ≤ j < 20 → byte_ok x →
    ∃ d', insertZ d j x = Some d' ∧ lenZ d' = size ∧ bytes_ok d') as Hins.
  { intros d j x Hd Hdb Hj Hx. eexists. split; [apply insertZ_Some; lia|].
    split; [unfold lenZ in *; by rewrite length_insert|by apply Forall_insert]. }
  destruct (Hins zeros 0 (u8 (i + 1))) as (d1&->&?&?); [done|done|lia|apply u8_range|].
  destruct (Hins d1 16 (u8 size)) as (d2&Hd2&?&?); [done|done|lia|apply u8_range|].
  cbn [mbind option_bind]. rewrite Hd2.
  destruct (Hins d2 17 (u8 (Z.shiftr size 8))) as (d3&Hd3&?&?); [done|done|lia|apply u8_range|].
  cbn [mbind option_bind]. rewrite Hd3.
  destruct (Hins d3 18 8) as (d4&Hd4&?&?); [done|done|lia|unfold byte_ok; lia|].
  cbn [mbind option_bind]. rewrite Hd4. cbn [mbind option_bind].
  assert (∃ d5, (if e_isDir e then insertZ d4 18 4 else Some d4) = Some d5 ∧
    lenZ d5 = size ∧ bytes_ok d5) as (d5&->&?&?).
  { destruct (e_isDir e); [apply Hins; [done|done|lia|unfold byte_ok; lia]|eauto]. }
  cbn [mbind option_bind]. destruct (writeAll_Some (e_name e) d5 19) as [r Hr]; [lia|lia|].
  exists r. split; [done|]. by eapply writeAll_Forall, Hr.
Qed.

Lemma direntRecords_Some i entries :
  Forall entry_ok entries → ∃ d, direntRecords i entries = Some d ∧ bytes_ok d.
Proof.
  intros He. revert i. induction He as [|e entries He _ IH]; intros i; simpl.
  { eexists; split; [done|constructor]. }
  destruct (direntRecord_Some i e He) as (r&->&?). destruct (IH (i + 1)) as (d&Hd&?).
  cbn [mbind option_bind]. rewrite Hd. eexists; split; [done|]. by apply Forall_app.
Qed.

(** [directoryData] never panics. *)
Lemma directoryData_total files name :
  Forall file_ok files →
  ∃ o, directoryData files name = Some o ∧ ∀ data, o = Some data → bytes_ok data.
Proof.
  intros Hf. unfold directoryData. pose proof (directoryEntries_ok _ name Hf) as He.
  destruct (directoryEntries files name) as [|e entries]; [by exists None|].
  destruct (direntRecords_Some 0 _ He) as (d&->&?). simpl. eexists; split; [done|].
  by intros ? [= <-].
Qed.

(** * The order of the entries *)

Lemma stringLess_irrefl a : stringLess a a = false.
Proof. induction a as [|x a IH]; [done|]. simpl. rewrite Z.ltb_irrefl, IH. lia. Qed.

Lemma stringLess_trans a b c :
  stringLess a b = true → stringLess b c = true → stringLess a c = true.
Proof.
  revert b c. induction a as [|x a IH]; intros [|y b] [|z c]; simpl; try done.
  rewrite !orb_true_iff, !andb_true_iff, !Z.ltb_lt, !Z.eqb_eq. intros [?|[-> ?]] [?|[-> ?]];
    [left; lia|by left|by left|right]. split; [done|]. by eapply IH.
Qed.

Lemma stringLess_total a b : stringLess a b = false → a ≠ b → stringLess b a = true.
Proof.
  revert b. induction a as [|x a IH]; intros [|y b]; simpl; try done.
  rewrite orb_false_iff, andb_false_iff, Z.ltb_ge, Z.eqb_neq, orb_true_iff, andb_true_iff, Z.ltb_lt,
    Z.eqb_eq.
  intros [? [?|Hl]] Hne; [left; lia|]. destruct (decide (x = y)) as [->|]; [|left; lia].
  right. split; [done|]. apply IH; [done|]. congruence.
Qed.

Definition entryLess (e1 e2 : directoryEntry) : Prop :=
  stringLess (e_name e1) (e_name e2) = true.

(** The entries below a name, as a set of names and of directories. *)
Definition listed (entries : list directoryEntry) (c : list Z) : Prop :=
  ∃ e, e ∈ entries ∧ e_name e = c.
Definition listed_dir (entries : list directoryEntry) (c : list Z) : Prop :=
  ∃ e, e ∈ entries ∧ e_name e = c ∧ e_isDir e = true.

Lemma listed_cons e entries c : listed (e :: entries) c ↔ e_name e = c ∨ listed entries c.
Proof.
  unfold listed. setoid_rewrite elem_of_cons. split.
  - intros (e'&[->|?]&?); eauto.
  - intros [?|(e'&?&?)]; eauto.
Qed.

Lemma listed_dir_cons e entries c :
  listed_dir (e :: entries) c ↔ (e_name e = c ∧ e_isDir e = true) ∨ listed_dir entries c.
Proof.
  unfold listed_dir. setoid_rewrite elem_of_cons. split.
  - intros (e'&[->|?]&?); eauto.
  - intros [?|(e'&?&?)]; eauto.
Qed.

Lemma listed_nil c : ¬ listed [] c.
Proof. by intros (?&?%elem_of_nil&_). Qed.
Lemma listed_dir_nil c : ¬ listed_dir [] c.
Proof. by intros (?&?%elem_of_nil&_). Qed.

Lemma insertEntry_listed child isDir entries c :
  listed (insertEntry child isDir entries) c ↔ c = child ∨ listed entries c.
Proof.
  induction entries as [|e entries IH]; simpl.
  - rewrite listed_cons. simpl. pose proof (listed_nil c). naive_solver.
  - destruct (stringLess _ _); [rewrite !listed_cons, IH; naive_solver|].
    case_bool_decide; rewrite !listed_cons; simpl; naive_solver.
Qed.

Lemma insertEntry_listed_dir child isDir entries c :
  listed_dir (insertEntry child isDir entries) c ↔
    (c = child ∧ isDir = true) ∨ listed_dir entries c.
Proof.
  induction entries as [|e entries IH]; simpl.
  - rewrite listed_dir_cons. simpl. pose proof (listed_dir_nil c). naive_solver.
  - destruct (stringLess _ _); [rewrite !listed_dir_cons, IH; naive_solver|].
    case_bool_decide; rewrite !listed_dir_cons; simpl; [|naive_solver].
    rewrite orb_true_iff. naive_solver.
Qed.

Lemma insertEntry_sorted child isDir entries :
  StronglySorted entryLess entries → StronglySorted entryLess (insertEntry child isDir entries).
Proof.
  induction 1 as [|e entries Hs IH Hall]; simpl; [by repeat constructor|].
  assert (∀ (P : directoryEntry → Prop),
    (∀ e', e_name e' = child → P e') → Forall P entries →
    (∀ e1 e2, e_name e1 = e_name e2 → P e1 → P e2) → Forall P (insertEntry child isDir entries))
    as Hins.
  { intros P Hc HP Hext. clear -Hc HP Hext. induction HP as [|e1 entries He1 HP IH]; simpl.
    - constructor; [by apply Hc|constructor].
    - repeat case_match; repeat constructor; auto. by eapply Hext, He1. }
  destruct (stringLess (e_name e) child) eqn:Hl.
  - constructor; [done|]. apply Hins; unfold entryLess in *; [congruence|done|congruence].
  - case_bool_decide as Heq; [by constructor|].
    pose proof (stringLess_total _ _ Hl Heq) as Hgt. constructor; [by constructor|].
    constructor; [done|]. eapply Forall_impl; [exact Hall|]. intros e' He'.
    by eapply stringLess_trans.
Qed.

(** * Which entries are listed *)

(** [path] lies below [prefix], its next component is [child], and [isDir] says
    whether more components follow. *)
Definition child_of (prefix path child : list Z) (isDir : bool) : Prop :=
  ∃ rest, path = prefix ++ rest ∧ firstComponent rest = (child, isDir) ∧ child ≠ [].

Lemma stringPrefix_spec text prefix :
  stringPrefix text prefix = true ↔ ∃ rest, text = prefix ++ rest.
Proof.
  revert text. induction prefix as [|p prefix IH]; intros text.
  { split; [|by destruct text]. intros _. by exists text. }
  destruct text as [|t text]; [split; [done|]; by intros [??]|]. simpl.
  rewrite andb_true_iff, Z.eqb_eq, IH. split.
  - intros [-> [rest ->]]. by exists rest.
  - intros [rest [= -> ->]]. eauto.
Qed.

Lemma addFile_cases prefix entries f :
  (∃ child isDir, child_of prefix (f_Name f) child isDir ∧
     addFile prefix entries f = insertEntry child isDir entries) ∨
  ((∀ child isDir, ¬ child_of prefix (f_Name f) child isDir) ∧ addFile prefix entries f = entries).
Proof.
  unfold addFile. cbv zeta. destruct (stringPrefix (f_Name f) prefix) eqn:Hp.
  - apply stringPrefix_spec in Hp as [rest Hr]. rewrite Hr, drop_app_length, lenZ_app.
    pose proof (lenZ_nonneg rest). simpl. rewrite orb_false_r.
    destruct (Z.leb_spec (lenZ prefix + lenZ rest) (lenZ prefix)).
    { right. split; [|done]. intros child isDir (rest'&->%app_inv_head&Hf&Hne).
      destruct rest' as [|x rest']; [|rewrite lenZ_cons in *; pose proof (lenZ_nonneg rest'); lia].
      simpl in Hf. congruence. }
    destruct (firstComponent rest) as [child isDir] eqn:Hf.
    destruct (Z.eqb_spec (lenZ child) 0) as [Hz|Hz].
    + right. split; [|done]. intros child' isDir' (rest'&->%app_inv_head&Hf'&Hne).
      destruct child; [|rewrite lenZ_cons in Hz; pose proof (lenZ_nonneg child); lia].
      congruence.
    + left. exists child, isDir. split; [|done]. exists rest. split_and!; [done..|].
      by intros ->.
  - right. rewrite orb_true_r. split; [|done]. intros child isDir (rest&Hr&_).
    assert (stringPrefix (f_Name f) prefix = true) by (apply stringPrefix_spec; eauto). congruence.
Qed.

Lemma addFiles_spec prefix files entries :
  StronglySorted entryLess entries →
  let result := foldl (addFile prefix) entries files in
  StronglySorted entryLess result ∧
  (∀ c, listed result c ↔
    listed entries c ∨ ∃ f isDir, f ∈ files ∧ child_of prefix (f_Name f) c isDir) ∧
  (∀ c, listed_dir result c ↔
    listed_dir entries c ∨ ∃ f, f ∈ files ∧ child_of prefix (f_Name f) c true).
Proof.
  cbv zeta. revert entries. induction files as [|f files IH]; intros entries Hs; simpl.
  { split_and!; [done|..]; intros c; split; eauto; intros [?|(?&H)]; try done.
    - by destruct H as (?&?%elem_of_nil&_).
    - by destruct H as (?%elem_of_nil&_). }
  assert (∀ c d d', child_of prefix (f_Name f) c d → ∀ c', child_of prefix (f_Name f) c' d' →
    c' = c ∧ d' = d) as Hfun.
  { intros c d d' (rest&Hr&Hf&_) c' (rest'&Hr'&Hf'&_). rewrite Hr in Hr'.
    apply app_inv_head in Hr' as ->. rewrite Hf in Hf'. by injection Hf' as -> ->. }
  destruct (addFile_cases prefix entries f) as [(child&isDir&Hc&->)|[Hno ->]].
  - destruct (IH (insertEntry child isDir entries)) as (?&Hl&Hd); [by apply insertEntry_sorted|].
    split_and!; [done|..]; intros c.
    + rewrite Hl, insertEntry_listed. setoid_rewrite elem_of_cons. split.
      * intros [[->|?]|(f'&d&?&?)]; eauto 10.
      * intros [?|(f'&d&[->|?]&Hc')]; eauto. left. left. by destruct (Hfun _ _ _ Hc _ Hc').
      all: eauto 10.
    + rewrite Hd, insertEntry_listed_dir. setoid_rewrite elem_of_cons. split.
      * intros [[[-> ->]|?]|(f'&?&?)]; eauto 10.
      * intros [?|(f'&[->|?]&Hc')]; eauto. left. left. by destruct (Hfun _ _ _ Hc _ Hc').
  - destruct (IH entries Hs) as (?&Hl&Hd). split_and!; [done|..]; intros c.
    + rewrite Hl. setoid_rewrite elem_of_cons. split; [naive_solver|].
      intros [?|(f'&d&[->|?]&Hc')]; eauto. by apply Hno in Hc'.
    + rewrite Hd. setoid_rewrite elem_of_cons. split; [naive_solver|].
      intros [?|(f'&[->|?]&Hc')]; eauto. by apply Hno in Hc'.
Qed.
