(* ===== verification/VmSyscall.v ===== *)
(** Safety of the system calls: each preserves the machine invariant, and panics
    only for a zero-length transfer at an address outside memory or a read
    positioned past the end of its source.

    Steps and runs: each step charges, so the loop ends within its fuel; every
    reachable machine satisfies the invariant. *)

From stdpp Require Import relations.
From S2P Require Import Prelude.
From S2P Require Import GoInt.
From S2P Require Import VmImage.
From S2P Require Import VmMachine.
From S2P Require Import VmExec.
From S2P Require Import VmImageFacts.
From S2P Require Import VmDecode.
From S2P Require Import VmInvariant.
From S2P Require Import VmSafety.
From S2P Require Import VmDirectory.

(** [m.memory[addr:addr+0]] with [addr] out of range: [buffer] accepts every
    address for an empty transfer. *)
Definition badEmpty (m : machine) (addr size : Z) : Prop :=
  size = 0 ∧ ¬ (0 ≤ addr ≤ lenZ (m_memory m)).

(** The bytes a read takes and the position it starts from. *)
Definition readSource (m : machine) (fd offset : Z) : option (list Z * Z) :=
  if fd =? 0 then Some (m_stdin m, if offset <? 0 then m_stdinAt m else offset)
  else
    d ← openDescriptor m fd;
    data ← (if d_file d <? 0 then Some (d_data d) else f_Data <$> m_files m !!z d_file d);
    Some (data, if offset <? 0 then d_offset d else offset).

Section Syscalls.
Context {slice_cap : list Z → Z} {img : image} {lim : Limits} {n : Z}.
Context (slice_cap_le : ∀ data, lenZ data ≤ slice_cap data).
Abbreviation inv := (inv img lim n).
Abbreviation safe := (safe img lim n).

(** A read that starts past the capacity of its source. *)
Definition badPosition (m : machine) (fd offset : Z) : Prop :=
  ∃ data at_, readSource m fd offset = Some (data, at_) ∧ slice_cap data < at_.

(** The system calls that may panic. *)
Definition fault (m : machine) : Prop :=
  ∃ rax rdi rsi rdx r10,
    m_regs m !!z regRax = Some rax ∧ m_regs m !!z regRdi = Some rdi ∧
    m_regs m !!z regRsi = Some rsi ∧ m_regs m !!z regRdx = Some rdx ∧
    m_regs m !!z regR10 = Some r10 ∧
    ((rax = 0 ∨ rax = 1 ∨ rax = 17 ∨ rax = 18 ∨ rax = sysGetdents64) ∧ badEmpty m rsi rdx ∨
     rax = 2 ∧ badEmpty m rdi rdx ∨
     (rax = 0 ∨ rax = sysGetdents64) ∧ badPosition m rdi (-1) ∨
     rax = 17 ∧ badPosition m rdi r10).

(** ** Common steps *)

Lemma safe_sysReturn E v : safe E (sysReturn v) any.
Proof. apply safe_setReg_true; [split; [discriminate|reflexivity]|apply i32_range]. Qed.

Lemma safe_setFd E fd f d m :
  inv m → m_fds m !!z fd = Some d → (fd_ok (m_files m) d → fd_ok (m_files m) (f d)) →
  wp E (setFd fd f) (λ _ m', inv m') m.
Proof.
  intros Hm Hd Hf. destruct (ok_fds m (inv_ok m Hm)) as [Hfds Hl].
  pose proof (lookupZ_lt_Some _ _ _ Hd). pose proof (lookupZ_Forall _ _ _ _ Hfds Hd).
  apply wp_bind, wp_get, wp_bind. eapply wp_lift; [done|]. apply wp_bind.
  eapply wp_lift; [by apply insertZ_Some|]. apply wp_modify.
  apply inv_set_fds; [apply Forall_insert; auto| |done].
  unfold lenZ in *. by rewrite length_insert.
Qed.

Lemma openDescriptor_Some m fd d :
  openDescriptor m fd = Some d → 3 ≤ fd ∧ m_fds m !!z fd = Some d ∧ d_open d = true.
Proof.
  unfold openDescriptor. destruct (Z.ltb_spec fd 3); [done|].
  destruct (m_fds m !!z fd) as [d'|]; [|done]. by destruct (d_open d') eqn:?; [intros [= <-]|].
Qed.

(** An open descriptor is well formed. *)
Lemma openDescriptor_ok m fd d :
  inv m → openDescriptor m fd = Some d →
  m_fds m !!z fd = Some d ∧ fd_ok (m_files m) d ∧ d_file d < lenZ (m_files m).
Proof.
  intros Hm (_&Hd&Ho)%openDescriptor_Some. split; [done|].
  destruct (ok_fds m (inv_ok m Hm)) as [Hfds _].
  pose proof (lookupZ_Forall _ _ _ _ Hfds Hd) as Hok. split; [done|]. by apply Hok.
Qed.

Lemma file_lookup m i :
  inv m → 0 ≤ i → i < lenZ (m_files m) → ∃ f, m_files m !!z i = Some f ∧ file_ok f.
Proof.
  intros Hm ??. destruct (lookupZ_lt_is_Some (m_files m) i) as [f Hf]; [lia|].
  exists f. split; [done|]. eapply lookupZ_Forall; [|done]. apply (ok_files m (inv_ok m Hm)).
Qed.

(** Replacing a file. *)
Lemma inv_update_file m i f files :
  inv m → file_ok f → insertZ (m_files m) i f = Some files → inv (set_files files m).
Proof.
  intros Hm Hf Hi. apply inv_set_files; [| |done].
  - eapply insertZ_Forall, Hi; [|done]. apply (ok_files m (inv_ok m Hm)).
  - by rewrite (insertZ_length _ _ _ _ Hi).
Qed.

Lemma wp_appendFd E d m :
  inv m → fd_ok (m_files m) d → wp E (appendFd d) (λ b m', any b ∧ inv m') m.
Proof.
  intros Hm Hd. apply wp_bind, wp_get, wp_bind, wp_modify, safe_sysReturn.
  destruct (ok_fds m (inv_ok m Hm)) as [Hfds Hl].
  apply inv_set_fds; [apply Forall_app; by split; [|apply Forall_singleton]| |done].
  autorewrite with lenZ. lia.
Qed.

Lemma wp_buffer E addr size m :
  inv m → wp E (buffer addr size) (λ ok m',
    (ok = true → m' = m ∧
      (size = 0 ∨ minAddress ≤ addr ∧ 0 ≤ size ∧ addr + size ≤ l_Memory lim)) ∧ inv m') m.
Proof.
  intros Hm. unfold buffer. destruct (Z.eqb_spec size 0).
  { apply wp_ret. split; [|done]. intros _. split; [done|by left]. }
  eapply wp_conseq; [exact (wp_address E addr size m Hm)|]. intros ok m' [Hok ?].
  split; [|done]. intros [-> ?]%Hok. split; [done|by right].
Qed.

(** ** Reading *)

Lemma readSource_ok m fd offset data at_ :
  inv m → readSource m fd offset = Some (data, at_) →
  bytes_ok data ∧ (offset < 0 → 0 ≤ at_) ∧ (0 ≤ offset → at_ = offset) ∧
  (fd = 0 ∨ fd ≠ 0 ∧ ∃ d, m_fds m !!z fd = Some d).
Proof.
  intros Hm. unfold readSource. destruct (Z.eqb_spec fd 0) as [->|Hne].
  { intros [= <- <-]. destruct (ok_stdin m (inv_ok m Hm)).
    split_and!; [done|intros; case_match; lia|intros; case_match; lia|by left]. }
  destruct (openDescriptor m fd) as [d|] eqn:Hd; [|done]. simpl.
  destruct (openDescriptor_ok _ _ _ Hm Hd) as (Hfd&(Ho&Hb&_)&Hlt).
  destruct (Z.ltb_spec (d_file d) 0); simpl.
  - intros [= <- <-]. split_and!; [done|intros; case_match; lia|intros; case_match; lia|eauto].
  - destruct (file_lookup m (d_file d)) as (f&->&[_ ?]); [done..|]. simpl. intros [= <- <-].
    split_and!; [done|intros; case_match; lia|intros; case_match; lia|eauto].
Qed.

Lemma wp_readTransfer (E : Prop) fd addr size offset data at_ m :
  inv m → bytes_ok data → (fd = 0 ∨ fd ≠ 0 ∧ ∃ d, m_fds m !!z fd = Some d) →
  size = 0 ∨ minAddress ≤ addr ∧ 0 ≤ size ∧ addr + size ≤ l_Memory lim →
  (badEmpty m addr size → E) → (slice_cap data < at_ → E) →
  wp E (readTransfer slice_cap fd addr size offset at_ data) (λ b m', any b ∧ inv m') m.
Proof.
  intros Hm Hb Hfd Hsize HE1 HE2. unfold readTransfer.
  destruct (Z.ltb_spec at_ 0); [by apply safe_sysReturn|]. cbv zeta.
  set (count := if lenZ data <? at_ then 0 else _).
  assert (0 ≤ count ∧ (0 ≤ size → count ≤ size) ∧ (lenZ data < at_ → count = 0) ∧
    (at_ ≤ lenZ data → at_ + count ≤ lenZ data)) as (Hc0&Hcs&Hcz&Hcl).
  { unfold count. destruct (Z.ltb_spec (lenZ data) at_); [lia|].
    destruct (Z.ltb_spec (lenZ data - at_) size); lia. }
  pose proof (inv_memory m Hm) as [Hmb Hml].
  apply wp_bind, wp_bind, wp_get. destruct (_ || _) eqn:Hch.
  { apply wp_bind, wp_modify, wp_ret, wp_ret. split; [done|]. by apply inv_set_trap. }
  apply wp_bind, wp_modify, wp_ret. cbn [negb].
  assert (inv (set_steps (m_steps m + count) m)) as Hm1.
  { rewrite (inv_limits m Hm) in Hch. apply inv_set_steps; [lia|done]. }
  apply wp_bind, wp_get. change (m_memory (set_steps _ _)) with (m_memory m).
  apply wp_bind. apply wp_lift_or; [|intros Hn; apply HE1].
  2:{ unfold sliceZ in Hn. destruct Hsize as [->|(?&?&?)].
      - split; [done|]. intros ?. assert (count = 0) by lia. case_match; [done|lia].
      - unfold minAddress in *. case_match; [done|lia]. }
  intros ? (?&?&?&_)%sliceZ_inv. apply wp_bind, wp_lift_or; [|intros Hn; apply HE2].
  2:{ unfold sliceCap in Hn. pose proof (slice_cap_le data). case_match; [done|].
      destruct (decide (lenZ data < at_)); [|lia]. lia. }
  intros source Hsrc. unfold sliceCap in Hsrc. case_match eqn:Hcond; [|done].
  injection Hsrc as <-. pose proof (lenZ_nonneg data).
  assert (lenZ (sublistZ data at_ (at_ + count)) = count) as Hlen.
  { destruct (decide (lenZ data < at_)).
    - rewrite sublistZ_empty by lia. rewrite lenZ_nil. lia.
    - rewrite sublistZ_length by lia. lia. }
  destruct (writeAll_Some (sublistZ data at_ (at_ + count)) (m_memory m) addr)
    as [mem Hmem]; [lia|lia|].
  apply wp_bind. eapply wp_lift; [done|]. apply wp_bind, wp_modify.
  assert (inv (set_memory mem (set_steps (m_steps m + count) m))) as Hm2.
  { apply inv_set_memory; [|rewrite (writeAll_length _ _ _ _ Hmem); lia|done].
    eapply writeAll_Forall, Hmem; [done|]. by apply sublistZ_Forall. }
  apply wp_bind. destruct (Z.ltb_spec offset 0); [|by apply wp_ret, safe_sysReturn].
  destruct Hfd as [->|[Hne [d Hd]]]; [|rewrite (proj2 (Z.eqb_neq fd 0)) by done].
  - apply wp_modify, safe_sysReturn. apply inv_set_stdinAt; [lia|done].
  - eapply wp_conseq; [apply (safe_setFd E fd _ d); [done|exact Hd|]|].
    + intros (?&?&?). split_and!; [simpl; lia|done..].
    + intros ? m' ?. by apply safe_sysReturn.
Qed.

Lemma wp_readAt (E : Prop) fd addr size offset m :
  inv m → (badEmpty m addr size → E) → (badPosition m fd offset → E) →
  wp E (readAt slice_cap fd addr size offset) (λ b m', any b ∧ inv m') m.
Proof.
  intros Hm HE1 HE2. apply wp_bind. eapply wp_conseq; [by apply wp_buffer|].
  intros ok m' [Hok Hm']. destruct ok; cbn [negb]; [|by apply wp_ret].
  destruct (Hok eq_refl) as [-> Hsize]. apply wp_bind, wp_get.
  assert (∀ data at_, readSource m fd offset = Some (data, at_) →
    wp E (readTransfer slice_cap fd addr size offset at_ data) (λ b m', any b ∧ inv m') m) as Hgo.
  { intros data at_ Hsrc. destruct (readSource_ok _ _ _ _ _ Hm Hsrc) as (?&_&_&?).
    apply wp_readTransfer; [done..|]. intros ?. apply HE2. by exists data, at_. }
  destruct (Z.eqb_spec fd 0) as [->|Hne]; [by apply Hgo|].
  unfold readSource in Hgo. rewrite (proj2 (Z.eqb_neq fd 0)) in Hgo by done.
  destruct (openDescriptor m fd) as [d|] eqn:Hd; [|by apply safe_sysReturn].
  destruct (openDescriptor_ok _ _ _ Hm Hd) as (Hfd&_&Hlt). cbn [mbind option_bind] in Hgo.
  apply wp_bind. destruct (Z.ltb_spec (d_file d) 0); [by apply wp_ret, Hgo|].
  destruct (file_lookup m (d_file d)) as (f&Hf&_); [done..|].
  apply wp_bind. eapply wp_lift; [done|]. apply wp_ret, Hgo. by rewrite Hf.
Qed.

(** ** Writing *)

Lemma wp_slice (E : Prop) addr size m (Q : list Z → machine → Prop) :
  inv m → size = 0 ∨ minAddress ≤ addr ∧ 0 ≤ size ∧ addr + size ≤ l_Memory lim →
  (badEmpty m addr size → E) →
  (∀ bytes, lenZ bytes = size → bytes_ok bytes → Q bytes m) →
  wp E (lift (sliceZ (m_memory m) addr (addr + size))) Q m.
Proof.
  intros Hm Hsize HE HQ. pose proof (inv_memory m Hm) as [Hmb Hml].
  apply wp_lift_or.
  - intros bytes (?&?&?&->)%sliceZ_inv. apply HQ; [rewrite sublistZ_length; lia|].
    by apply sublistZ_Forall.
  - intros Hn. apply HE. unfold sliceZ in Hn. unfold minAddress in *. split.
    + destruct Hsize as [->|?]; [done|]. case_match; [done|lia].
    + intros ?. destruct Hsize as [->|?]; case_match; try done; lia.
Qed.

Lemma wp_writeStream (E : Prop) fd addr size m :
  inv m → size = 0 ∨ minAddress ≤ addr ∧ 0 ≤ size ∧ addr + size ≤ l_Memory lim →
  (badEmpty m addr size → E) →
  wp E (writeStream fd addr size) (λ b m', any b ∧ inv m') m.
Proof.
  intros Hm Hsize HE. apply wp_bind, wp_get. rewrite (inv_limits m Hm). cbv zeta.
  destruct (ok_output m (inv_ok m Hm)) as [Hob _].
  destruct (ok_stderr m (inv_ok m Hm)) as [Heb _].
  destruct (Z.ltb_spec (l_Memory lim) (lenZ (if fd =? 1 then m_output m else m_stderr m) + size)).
  { by apply safe_trapWith. }
  apply wp_bind, wp_slice; [done..|]. intros bytes Hl Hb. apply wp_bind, wp_modify, safe_sysReturn.
  destruct (fd =? 1); [apply inv_set_output|apply inv_set_stderr]; try done;
    try (autorewrite with lenZ; lia); by apply Forall_app.
Qed.

Lemma growData_length data k : lenZ (growData data k) = Z.max (lenZ data) k.
Proof.
  unfold growData. destruct (Z.ltb_spec (lenZ data) k); autorewrite with lenZ; lia.
Qed.

Lemma growData_bytes data k : bytes_ok data → bytes_ok (growData data k).
Proof.
  intros Hd. unfold growData. case_match; [|done]. apply Forall_app. split; [done|].
  apply Forall_replicate. unfold byte_ok. lia.
Qed.

Lemma wp_writeFile (E : Prop) fd addr size offset d m :
  inv m → size = 0 ∨ minAddress ≤ addr ∧ 0 ≤ size ∧ addr + size ≤ l_Memory lim →
  m_fds m !!z fd = Some d → 0 ≤ d_file d < lenZ (m_files m) →
  (badEmpty m addr size → E) →
  wp E (writeFile fd addr size offset d) (λ b m', any b ∧ inv m') m.
Proof.
  intros Hm Hsize Hfd Hfile HE. apply wp_bind, wp_get. rewrite (inv_limits m Hm). cbv zeta.
  set (at_ := if offset <? 0 then d_offset d else offset).
  destruct (_ || _) eqn:Hrange; [by apply safe_sysReturn|].
  destruct (file_lookup m (d_file d)) as (f&Hf&[Hn Hdata]); [done|lia..|].
  apply wp_bind. eapply wp_lift; [done|].
  apply wp_bind, wp_slice; [done..|]. intros bytes Hl Hb.
  destruct (writeAll_Some bytes (growData (f_Data f) (at_ + size)) at_) as [data Hw];
    [lia|rewrite growData_length; lia|].
  apply wp_bind. eapply wp_lift; [done|].
  assert (inv (set_files (<[Z.to_nat (d_file d) := MkFile (f_Name f) data (f_Mode f)]> (m_files m)) m))
    as Hm1.
  { eapply (inv_update_file m (d_file d)); [done| |by apply insertZ_Some]. split; [done|].
    eapply writeAll_Forall, Hw; [by apply growData_bytes|done]. }
  apply wp_bind. eapply wp_lift; [by apply insertZ_Some|]. apply wp_bind, wp_modify, wp_bind.
  destruct (Z.ltb_spec offset 0); [|by apply wp_ret, safe_sysReturn].
  eapply wp_conseq; [apply (safe_setFd E fd _ d); [done|exact Hfd|]|].
  + intros (?&?&?). split_and!; [|done..]. simpl. destruct Hsize; lia.
  + intros ? m' ?. by apply safe_sysReturn.
Qed.

Lemma wp_writeAt (E : Prop) fd addr size offset m :
  inv m → (badEmpty m addr size → E) →
  wp E (writeAt fd addr size offset) (λ b m', any b ∧ inv m') m.
Proof.
  intros Hm HE. apply wp_bind. eapply wp_conseq; [by apply wp_buffer|].
  intros ok m' [Hok Hm']. destruct ok; cbn [negb]; [|by apply wp_ret].
  destruct (Hok eq_refl) as [-> Hsize].
  apply wp_bind, wp_bind, wp_get. destruct (_ || _) eqn:Hch.
  { apply wp_bind, wp_modify, wp_ret, wp_ret. split; [done|]. by apply inv_set_trap. }
  apply wp_bind, wp_modify, wp_ret. cbn [negb].
  assert (inv (set_steps (m_steps m + size) m)) as Hm1.
  { rewrite (inv_limits m Hm) in Hch. apply inv_set_steps; [lia|done]. }
  destruct ((fd =? 1) || (fd =? 2)); [by apply wp_writeStream|].
  apply wp_bind, wp_get.
  destruct (openDescriptor _ fd) as [d|] eqn:Hd; [|by apply safe_sysReturn].
  destruct (openDescriptor_ok _ _ _ Hm1 Hd) as (Hfd&_&Hlt).
  destruct (Z.ltb_spec (d_file d) 0); [by apply safe_sysReturn|]. by apply wp_writeFile.
Qed.

(** ** Files and descriptors *)

Lemma wp_reg E r m (Q : Z → machine → Prop) :
  inv m → 0 ≤ r < regCount → (∀ v, m_regs m !!z r = Some v → Q v m) → wp E (reg r) Q m.
Proof.
  intros Hm Hr HQ. destruct (ok_regs m (inv_ok m Hm)) as [_ Hl].
  destruct (lookupZ_lt_is_Some (m_regs m) r) as [v Hv]; [lia|].
  apply wp_bind, wp_get. eapply wp_lift; [done|]. by apply HQ.
Qed.

Lemma findFile_range i files name :
  0 ≤ i → findFile i files name = -1 ∨ i ≤ findFile i files name < i + lenZ files.
Proof.
  revert i. induction files as [|f files IH]; intros i Hi; simpl; [by left|].
  rewrite lenZ_cons. pose proof (lenZ_nonneg files).
  case_bool_decide; [lia|]. destruct (IH (i + 1)); lia.
Qed.

Lemma fd_ok_fresh files file data :
  file < lenZ files → bytes_ok data → fd_ok files (Descriptor file 0 true data).
Proof. intros. by split_and!. Qed.

Lemma wp_openFile E name file0 flags m :
  inv m → bytes_ok name → file0 < lenZ (m_files m) →
  wp E (openFile name file0 flags) (λ b m', any b ∧ inv m') m.
Proof.
  intros Hm Hname Hfile. apply wp_bind, wp_get.
  destruct (_ && _ && _); [by apply safe_sysReturn|].
  destruct (_ && _); [by apply safe_sysReturn|].
  apply wp_bind. eapply (wp_conseq _ (λ _ m', inv m' ∧
    (file0 < 0 → 0 < lenZ (m_files m')) ∧ (0 ≤ file0 → file0 < lenZ (m_files m')))).
  { destruct (Z.ltb_spec file0 0); [apply wp_modify|apply wp_ret; split_and!; [done|lia|lia]].
    assert (0 < lenZ (m_files m ++ [MkFile name [] 493])).
    { autorewrite with lenZ. pose proof (lenZ_nonneg (m_files m)). lia. }
    split_and!; [|done|lia]. apply inv_set_files; [| |done].
    - apply Forall_app. split; [apply (ok_files m (inv_ok m Hm))|].
      apply Forall_singleton. by split; [|constructor].
    - autorewrite with lenZ. lia. }
  intros _ m1 (Hm1&Hneg&Hpos). apply wp_bind, wp_get. cbv zeta.
  set (file := if file0 <? 0 then _ else _).
  assert (0 ≤ file < lenZ (m_files m1)) as Hr.
  { unfold file. destruct (Z.ltb_spec file0 0); [|lia]. specialize (Hneg ltac:(done)). lia. }
  apply wp_bind. eapply (wp_conseq _ (λ _ m', inv m' ∧ lenZ (m_files m') = lenZ (m_files m1))).
  { destruct (hasFlag _ _); [|by apply wp_ret].
    destruct (file_lookup m1 file) as (f&Hf&[Hn _]); [done|lia..|].
    apply wp_bind. eapply wp_lift; [done|]. apply wp_bind.
    eapply wp_lift; [by apply insertZ_Some|]. apply wp_modify. split.
    - eapply (inv_update_file m1 file); [done| |by apply insertZ_Some]. by split; [|constructor].
    - unfold lenZ. simpl. by rewrite length_insert. }
  intros _ m2 [Hm2 Hl]. apply wp_appendFd; [done|]. apply fd_ok_fresh; [lia|constructor].
Qed.

Lemma wp_open (E : Prop) m :
  inv m →
  (∀ rdi rdx, m_regs m !!z regRdi = Some rdi → m_regs m !!z regRdx = Some rdx →
    badEmpty m rdi rdx → E) →
  wp E open (λ b m', any b ∧ inv m') m.
Proof.
  intros Hm HE. apply wp_bind, wp_reg; [done|split; [discriminate|reflexivity]|].
  intros addr Haddr. apply wp_bind, wp_reg; [done|split; [discriminate|reflexivity]|].
  intros size0 Hsize0. specialize (HE addr size0 Haddr Hsize0).
  apply wp_bind, wp_reg; [done|split; [discriminate|reflexivity]|]. intros flags _.
  apply wp_bind. eapply wp_conseq; [by apply wp_buffer|].
  intros ok m' [Hok Hm']. destruct ok; cbn [negb]; [|by apply wp_ret].
  destruct (Hok eq_refl) as [-> Hsize]. apply wp_bind, wp_get.
  pose proof (inv_memory m Hm) as [Hmb Hml].
  apply wp_bind. eapply (wp_conseq _ (λ size m', m' = m ∧ 0 ≤ size ≤ size0 ∧
    (size0 = 0 → size = 0))).
  { destruct (Z.ltb_spec 0 size0); [|apply wp_ret; split; [done|lia]].
    destruct (lookupZ_lt_is_Some (m_memory m) (addr + size0 - 1)) as [b Hb];
      [unfold minAddress in *; lia|].
    apply wp_bind. eapply wp_lift; [done|]. apply wp_ret. split; [done|]. case_match; lia. }
  intros size m' (->&Hs&Hs0).
  apply wp_bind, wp_slice; [done|lia| |].
  { intros [-> Hout]. apply HE. split; [|done].
    unfold minAddress in *. lia. }
  intros name _ Hname. cbv zeta. apply wp_bind.
  pose proof (findFile_range 0 (m_files m) name ltac:(done)) as Hf.
  pose proof (lenZ_nonneg (m_files m)).
  eapply (wp_conseq _ (λ o m', m' = m ∧ ∀ data, o = Some data → bytes_ok data)).
  { destruct (_ <? 0); [|by apply wp_ret].
    destruct (directoryData_total (m_files m) name) as (o&Ho&?); [apply (ok_files m (inv_ok m Hm))|].
    by eapply wp_lift. }
  intros [data|] m' [-> Hdata]; [|apply wp_openFile; [done|done|lia]].
  destruct (hasFlag _ _); [by apply safe_sysReturn|].
  apply wp_appendFd; [done|]. apply fd_ok_fresh; [lia|by apply Hdata].
Qed.

Lemma safe_close E : safe E sysClose any.
Proof.
  intros m Hm. apply wp_bind, wp_reg; [done|split; [discriminate|reflexivity]|].
  intros fd _. apply wp_bind, wp_get.
  destruct (openDescriptor m fd) as [d|] eqn:Hd; [|by apply safe_sysReturn].
  destruct (openDescriptor_ok _ _ _ Hm Hd) as (Hfd&_&_).
  apply wp_bind. eapply wp_conseq; [apply (safe_setFd E fd _ d); [done|exact Hfd|]|].
  - intros (?&?&?). by split_and!.
  - intros ? m' ?. by apply safe_sysReturn.
Qed.

Lemma safe_chmod E : safe E sysChmod any.
Proof.
  intros m Hm. apply wp_bind, wp_reg; [done|split; [discriminate|reflexivity]|].
  intros fd _. apply wp_bind, wp_get.
  destruct (openDescriptor m fd) as [d|] eqn:Hd; [|by apply safe_sysReturn].
  destruct (openDescriptor_ok _ _ _ Hm Hd) as (Hfd&_&Hlt).
  destruct (Z.ltb_spec (d_file d) 0); [by apply safe_sysReturn|].
  apply wp_bind, wp_reg; [done|split; [discriminate|reflexivity]|]. intros mode _.
  destruct (file_lookup m (d_file d)) as (f&Hf&?); [done|lia..|].
  apply wp_bind. eapply wp_lift; [done|]. apply wp_bind.
  eapply wp_lift; [by apply insertZ_Some|]. apply wp_bind, wp_modify, safe_sysReturn.
  by eapply (inv_update_file m (d_file d)); [| |by apply insertZ_Some].
Qed.

Ltac register := apply wp_bind, wp_reg; [done|split; [discriminate|reflexivity]|].

(** Every system call keeps the invariant, and panics only on a [fault]. *)
Lemma wp_syscall m : inv m → wp (fault m) (syscall slice_cap) (λ b m', any b ∧ inv m') m.
Proof.
  intros Hm. register. intros rax Hrax.
  assert (∃ rdi rsi rdx r10, m_regs m !!z regRdi = Some rdi ∧ m_regs m !!z regRsi = Some rsi ∧
    m_regs m !!z regRdx = Some rdx ∧ m_regs m !!z regR10 = Some r10)
    as (rdi&rsi&rdx&r10&Hrdi&Hrsi&Hrdx&Hr10).
  { destruct (ok_regs m (inv_ok m Hm)) as [_ Hl].
    assert (∀ r, 0 ≤ r < regCount → ∃ v, m_regs m !!z r = Some v) as Hreg
      by (intros; apply lookupZ_lt_is_Some; lia).
    destruct (Hreg regRdi), (Hreg regRsi), (Hreg regRdx), (Hreg regR10);
      try (split; [discriminate|reflexivity]). eauto 10. }
  assert (((rax = 0 ∨ rax = 1 ∨ rax = 17 ∨ rax = 18 ∨ rax = sysGetdents64) ∧
      badEmpty m rsi rdx ∨ rax = 2 ∧ badEmpty m rdi rdx ∨
     (rax = 0 ∨ rax = sysGetdents64) ∧ badPosition m rdi (-1) ∨
     rax = 17 ∧ badPosition m rdi r10) → fault m) as Hfault.
  { intros ?. by exists rax, rdi, rsi, rdx, r10. }
  destruct ((rax =? 0) || (rax =? 1)) eqn:Hrw.
  { register. intros ? Hv; rewrite Hrdi in Hv; injection Hv as <-.
    register. intros ? Hv; rewrite Hrsi in Hv; injection Hv as <-.
    register. intros ? Hv; rewrite Hrdx in Hv; injection Hv as <-.
    apply wp_bind. eapply wp_conseq; [by apply wp_buffer|].
    intros ok m' [Hok Hm']. destruct ok; cbn [negb]; [|by apply wp_ret].
    destruct (Hok eq_refl) as [-> _].
    destruct (Z.eqb_spec rax 0); [|assert (rax = 1) by lia];
      [apply wp_readAt|apply wp_writeAt]; try done; intros ?; apply Hfault; tauto. }
  destruct (rax =? 3); [by apply safe_close|].
  destruct ((rax =? 17) || (rax =? 18)) eqn:Hat.
  { register. intros ? Hv; rewrite Hrdi in Hv; injection Hv as <-.
    register. intros ? Hv; rewrite Hrsi in Hv; injection Hv as <-.
    register. intros ? Hv; rewrite Hrdx in Hv; injection Hv as <-.
    register. intros ? Hv; rewrite Hr10 in Hv; injection Hv as <-.
    destruct (Z.eqb_spec rax 17); [|assert (rax = 18) by lia];
      [apply wp_readAt|apply wp_writeAt]; try done; intros ?; apply Hfault; tauto. }
  destruct (Z.eqb_spec rax sysGetdents64).
  { register. intros ? Hv; rewrite Hrdi in Hv; injection Hv as <-. apply wp_bind, wp_get.
    destruct (openDescriptor m rdi); [|by apply safe_sysReturn].
    case_match; [by apply safe_sysReturn|].
    register. intros ? Hv; rewrite Hrsi in Hv; injection Hv as <-.
    register. intros ? Hv; rewrite Hrdx in Hv; injection Hv as <-.
    apply wp_readAt; [done|..]; intros ?; apply Hfault; tauto. }
  destruct (Z.eqb_spec rax 2).
  { apply wp_open; [done|]. intros ?? Ha Hb ?.
    rewrite Hrdi in Ha. rewrite Hrdx in Hb. simplify_eq. apply Hfault; tauto. }
  destruct (rax =? 91); [by apply safe_chmod|by apply safe_sysReturn].
Qed.
End Syscalls.

Section Runs.
Context {slice_cap : list Z → Z} (slice_cap_le : ∀ data, lenZ data ≤ slice_cap data).
Context {img : image} {lim : Limits}.

(** The machine is about to make a system call that may panic. *)
Definition at_fault (m : machine) : Prop :=
  i_code (m_image m) !!z m_pc m = Some opSyscall ∧ fault (slice_cap := slice_cap) m.

(** One iteration of the loop that continues. *)
Definition next (m m' : machine) : Prop :=
  m_trap m = TrapNone ∧ step slice_cap m = Some (true, m').

Abbreviation inv := (inv img lim).

Lemma inv_weaken n n' m : n' ≤ n → inv n m → inv n' m.
Proof. intros ? (?&?&?&?). split_and!; [done..|lia]. Qed.

Lemma inv_self n m : inv n m → inv (m_steps m) m.
Proof. intros (?&?&?&?). by split_and!. Qed.

(** A step keeps the invariant, and when it continues it has charged. *)
Lemma wp_step_inv n m :
  inv n m →
  wp (at_fault m) (step slice_cap) (λ b m', inv n m' ∧ (b = true → inv (m_steps m + 1) m')) m.
Proof.
  intros Hm. assert (image_ok img) as Himg.
  { rewrite <- (inv_image m Hm). apply (ok_image m (inv_ok m Hm)). }
  apply wp_bind, wp_get. destruct (_ || _) eqn:Hpc.
  { apply wp_bind, wp_modify, wp_ret. split; [by apply inv_set_trap|done]. }
  pose proof (ok_pc m (inv_ok m Hm)) as Hb. rewrite (inv_image m Hm) in Hb, Hpc |- *.
  pose proof (boundary_nonneg _ _ Hb).
  apply wp_bind, wp_modify, wp_bind, wp_bind, wp_get.
  change (m_steps (set_currentPC _ m)) with (m_steps m).
  change (m_limits (set_currentPC _ m)) with (m_limits m).
  assert (inv n (set_currentPC (m_pc m) m)) as Hm1 by by apply inv_set_currentPC.
  destruct ((1 <? 0) || _) eqn:Hch.
  { apply wp_bind, wp_modify, wp_ret, wp_ret. split; [by apply inv_set_trap|done]. }
  rewrite (inv_limits m Hm) in Hch.
  apply wp_bind, wp_modify, wp_ret. cbn [negb]. cbv zeta.
  assert (inv (m_steps m + 1) (set_steps (m_steps m + 1) (set_currentPC (m_pc m) m))) as Hm2.
  { apply (inv_self n). apply inv_set_steps; [cbn; lia|done]. }
  destruct (lookupZ_lt_is_Some (i_code img) (m_pc m)) as [op Hop]; [lia|].
  pose proof (boundary_fetched Himg _ _ Hb Hop) as Hfetch.
  apply wp_bind. eapply wp_lift; [done|]. apply wp_bind, wp_modify.
  unfold nextInstruction. rewrite Hop.
  assert (inv (m_steps m + 1) (set_pc (m_pc m + instructionSize op)
    (set_steps (m_steps m + 1) (set_currentPC (m_pc m) m)))) as Hm3
    by by apply inv_set_pc; [apply fetch_boundary|].
  assert (n ≤ m_steps m + 1) as Hn by (destruct Hm as (_&_&_&?); lia).
  apply (wp_conseq _ (λ b m', any b ∧ inv (m_steps m + 1) m')).
  2:{ intros b m' [_ ?]. split; [by eapply inv_weaken|done]. }
  destruct (decide (op = opSyscall)) as [->|Hns].
  - pose proof (wp_syscall slice_cap_le _ Hm3) as Hs. unfold wp in Hs |- *.
    change (dispatch slice_cap opSyscall (m_pc m) _) with (syscall slice_cap).
    destruct (syscall slice_cap _) as [[??]|]; [done|]. split; [|done].
    by rewrite (inv_image m Hm).
  - by apply safe_dispatch.
Qed.

Lemma reachable_inv n m m' : inv n m → rtc next m m' → inv n m'.
Proof.
  intros Hm Hr. induction Hr as [|m m1 m2 [_ Hs] _ IH]; [done|]. apply IH.
  pose proof (wp_step_inv _ _ Hm) as Hw. by destruct (wp_run _ _ _ _ _ Hw Hs).
Qed.

(** The loop ends in a result or in a panic that a reachable machine explains. *)
Lemma runLoop_spec fuel n m :
  inv n m → l_Steps lim - m_steps m < Z.of_nat fuel - 1 →
  (∃ m', runLoop slice_cap fuel m = Returned m' ∧ inv n m') ∨
  (runLoop slice_cap fuel m = Panicked ∧
    ∃ m', rtc next m m' ∧ m_trap m' = TrapNone ∧ at_fault m').
Proof.
  revert m. induction fuel as [|fuel IH]; intros m Hm Hf.
  { pose proof (ok_steps m (inv_ok m Hm)) as Hs. rewrite (inv_limits m Hm) in Hs. lia. }
  simpl. destruct (Z.eqb_spec (m_trap m) TrapNone) as [Ht|]; [|by left; eauto].
  pose proof (wp_step_inv _ _ Hm) as Hw.
  destruct (step slice_cap m) as [[[] m']|] eqn:Hs.
  - destruct (wp_run _ _ _ _ _ Hw Hs) as [Hm' Hsteps].
    destruct (Hsteps eq_refl) as (_&_&_&?).
    destruct (IH m' Hm') as [?|[Hp (m''&Hr&?)]]; [lia|by left|right].
    split; [done|]. exists m''. split; [|done]. eapply rtc_l; [|done]. by split.
  - left. eexists. split; [done|]. by destruct (wp_run _ _ _ _ _ Hw Hs).
  - right. split; [done|]. exists m. split_and!; [apply rtc_refl|done|].
    by eapply wp_panic, Hs.
Qed.
End Runs.

(** * The initial machine *)

(** What the host passes to [RunConfig]: byte strings. *)
Definition config_ok (config : Config) : Prop :=
  Forall (Forall byte_ok) (c_Args config) ∧ Forall (Forall byte_ok) (c_Env config) ∧
  bytes_ok (c_Stdin config) ∧ Forall file_ok (c_Files config).

Lemma copyFiles_id files : copyFiles files = files.
Proof. induction files as [|[] files IH]; [done|]. unfold copyFiles in *. by rewrite fmap_cons, IH. Qed.

Lemma initialMemory_Some img lim :
  image_ok img → i_dataBase img + lenZ (i_data img) ≤ l_Memory lim →
  ∃ memory, initialMemory img lim = Some memory ∧ bytes_ok memory ∧
    lenZ memory = l_Memory lim.
Proof.
  intros Himg Hfit. unfold initialMemory.
  destruct (image_layout _ Himg) as (?&_&_&_). pose proof (lenZ_nonneg (i_data img)).
  unfold minAddress in *.
  set (zeros := replicate _ _).
  assert (lenZ zeros = l_Memory lim) as Hz by (unfold zeros; rewrite lenZ_replicate; lia).
  rewrite sliceZ_Some by lia. cbn [mbind option_bind].
  destruct (writeAll_Some (i_data img) zeros (i_dataBase img)) as [d Hd]; [lia|lia|].
  exists d. split; [done|]. split; [|rewrite (writeAll_length _ _ _ _ Hd); lia].
  eapply writeAll_Forall, Hd; [|apply Himg]. apply Forall_replicate. unfold byte_ok. lia.
Qed.

Lemma initial_inv img config memory :
  image_ok img → config_ok config → 0 < l_Steps (c_Limits config) →
  i_bssBase img + i_bssSize img ≤ l_Memory (c_Limits config) →
  bytes_ok memory → lenZ memory = l_Memory (c_Limits config) →
  inv img (c_Limits config) 0 (initialMachine img config memory).
Proof.
  intros Himg (Ha&He&Hin&Hf) Hs Hfit Hmb Hml.
  destruct (image_layout _ Himg) as (?&?&?&?). pose proof (lenZ_nonneg (i_data img)).
  split; [|by split_and!]. split; cbn; unfold minAddress in *.
  all: try done; try lia; try (split; [done|lia]).
  - split; [|done]. repeat constructor; unfold i32_ok; lia.
  - apply boundary_0.
  - destruct (image_sizes _ Himg); lia.
  - split; [constructor|]. rewrite lenZ_nil. lia.
  - split; [constructor|]. rewrite lenZ_nil. lia.
  - by rewrite copyFiles_id.
  - split; [|done]. repeat constructor; simpl; try done; by constructor.
Qed.
