(* ===== verification/VmProperties.v ===== *)
(** What the virtual machine guarantees for every program: termination, resource
    bounds, freedom from panics, and the properties of its image decoder. *)

From stdpp Require Import relations.
From S2P Require Import Prelude.
From S2P Require Import GoInt.
From S2P Require Import VmImage.
From S2P Require Import VmImageFacts.
From S2P Require Import VmDecode.
From S2P Require Import VmMachine.
From S2P Require Import VmInvariant.
From S2P Require Import VmExec.
From S2P Require Import VmSafety.
From S2P Require Import VmSyscall.

(** * Runs of an image *)

(** The machine that [RunConfig] starts for [program], when it gets that far. *)
Definition startOf (program : list Z) (config : Config) : option machine :=
  match decodeImage program with
  | Some (Some img) => initialMachine img config <$> initialMemory img (c_Limits config)
  | _ => None
  end.

(** The resources a result reports lie within the configured limits. *)
Record result_ok (limits : Limits) (r : Result) : Prop := {
  result_exit : i32_ok (ExitCode r);
  result_steps : 0 ≤ Steps r ≤ Z.max 0 (l_Steps limits);
  result_peak : 0 ≤ PeakMemory r ≤ Z.max 0 (l_Memory limits);
  result_output : bytes_ok (Output r) ∧ lenZ (Output r) ≤ Z.max 0 (l_Memory limits);
  result_stderr : bytes_ok (Stderr r) ∧ lenZ (Stderr r) ≤ Z.max 0 (l_Memory limits);
  result_files : Forall file_ok (Files r)
}.

Section Program.
Context (slice_cap : list Z → Z) (slice_cap_le : ∀ data, lenZ data ≤ slice_cap data).

Lemma trapResult_ok limits t : result_ok limits (trapResult t).
Proof. split; simpl; unfold i32_ok; rewrite ?lenZ_nil; split_and?; try lia; constructor. Qed.

Lemma machineResult_ok img lim n m :
  inv img lim n m → ∃ r, machineResult m = Some r ∧ result_ok lim r.
Proof.
  intros Hm. unfold machineResult. destruct (inv_ok m Hm). rewrite (inv_limits m Hm) in *.
  destruct ok_regs as [Hr Hl]. destruct (lookupZ_lt_is_Some (m_regs m) regRax) as [rax Hrax];
    [rewrite Hl; split; [discriminate|reflexivity]|].
  rewrite Hrax. cbn [mbind option_bind]. unfold currentOpcode.
  assert (∃ op, (if (m_currentPC m <? 0) || (lenZ (i_code (m_image m)) <=? m_currentPC m)
    then Some 0 else i_code (m_image m) !!z m_currentPC m) = Some op) as [op ->].
  { case_match; [eauto|]. apply lookupZ_lt_is_Some. lia. }
  cbn [mbind option_bind]. eexists. split; [done|]. rewrite copyFiles_id.
  destruct ok_output, ok_stderr. split; simpl; try done; try lia; try (split; [done|lia]).
  by eapply lookupZ_Forall, Hrax.
Qed.

(** Every run either returns a result within the limits, or panics at a system
    call of a machine it reached. *)
Lemma RunConfig_cases program config :
  bytes_ok program → config_ok config →
  (∃ r, RunConfig slice_cap program config = Returned r ∧ result_ok (c_Limits config) r) ∨
  (RunConfig slice_cap program config = Panicked ∧
    ∃ img m m', decodeImage program = Some (Some img) ∧ startOf program config = Some m ∧
      rtc (next (slice_cap := slice_cap)) m m' ∧ m_trap m' = TrapNone ∧
      at_fault (slice_cap := slice_cap) m' ∧ inv img (c_Limits config) 0 m').
Proof.
  intros Hp Hc. unfold RunConfig, startOf. cbv zeta.
  assert (∀ t, ∃ r, Returned (trapResult t) = Returned r ∧ result_ok (c_Limits config) r) as Htrap
    by (intros; eexists; split; [done|apply trapResult_ok]).
  destruct ((_ <=? 0) || _) eqn:Hlim; [by left|].
  destruct (decodeImage_spec program Hp) as (o&->&Himg).
  destruct o as [img|]; [|by left]. specialize (Himg img eq_refl).
  destruct ((_ <? i_bssBase img) || _) eqn:Hfit; [by left|]. destruct (image_layout _ Himg) as (?&?&?&?).
  destruct (initialMemory_Some img (c_Limits config)) as (memory&->&?&?); [done|lia|].
  assert (inv img (c_Limits config) 0 (initialMachine img config memory)) as Hinv
    by (apply initial_inv; done || lia).
  destruct (runLoop_spec slice_cap_le (runFuel (c_Limits config)) 0 _ Hinv)
    as [(m'&->&Hm')|[-> (m'&?&?&?)]].
  - unfold runFuel. cbn. lia.
  - left. destruct (machineResult_ok _ _ _ _ Hm') as (r&->&?). eauto.
  - right. split; [done|]. exists img, (initialMachine img config memory), m'.
    split_and!; [done..|]. by eapply reachable_inv.
Qed.
End Program.

(** * Sample programs *)

Definition sampleImage (code : list Z) : image := Image code [] 256 256 0 [Routine 0 0 false].
Definition sampleProgram (code : list Z) : list Z := encodeImage (sampleImage code).
Definition sampleConfig : Config := MkConfig (MkLimits 100 1024) [] [] [] [].

(** [mov rax, 9; exit] *)
Definition exit9 : list Z := [3; 0; 9; 0; 0; 0; 1].
(** [mov rsi, -1; syscall; exit]: a read of no bytes to address -1. *)
Definition readNowhere : list Z := [3; 4; 255; 255; 255; 255; 42; 1].
(** [mov rax, 17; mov r10, 100; mov rsi, 256; syscall; exit]: a positioned read
    of no bytes beyond the end of the standard input. *)
Definition readBeyond : list Z :=
  [3; 0; 17; 0; 0; 0; 3; 7; 100; 0; 0; 0; 3; 4; 0; 1; 0; 0; 42; 1].

Lemma sampleConfig_ok : config_ok sampleConfig.
Proof. split_and!; constructor. Defined.

Lemma sample_image_ok code :
  bytes_ok (sampleProgram code) →
  decodeImage (sampleProgram code) = Some (Some (sampleImage code)) → image_ok (sampleImage code).
Proof. intros Hb Hd. destruct (decodeImage_spec _ Hb) as (o&Ho&Hok). apply Hok. congruence. Qed.

(** The machine about to run [code] in fresh memory. *)
Definition sampleMachine (code : list Z) : machine :=
  initialMachine (sampleImage code) sampleConfig (replicate 1024 0).

Lemma sample_machine_ok code : image_ok (sampleImage code) → machine_ok (sampleMachine code).
Proof.
  intros Himg. eapply (initial_inv (sampleImage code) sampleConfig (replicate 1024 0));
    [done|apply sampleConfig_ok|done..|by_decision|done].
Qed.

(** The panics that the safety theorem leaves open do occur. *)
Example read_empty_out_of_range_panics :
  RunConfig lenZ (sampleProgram readNowhere) sampleConfig = Panicked.
Proof. vm_compute. reflexivity. Qed.

Example read_past_end_panics :
  RunConfig lenZ (sampleProgram readBeyond) sampleConfig = Panicked.
Proof. vm_compute. reflexivity. Qed.

Example exit9_returns :
  ∃ r, RunConfig lenZ (sampleProgram exit9) sampleConfig = Returned r ∧
    ExitCode r = 9 ∧ Steps r = 2 ∧ Trap r = TrapNone.
Proof. eexists. split; [vm_compute; reflexivity|done]. Qed.

(** * Properties *)

(** C1. Running any byte string as a program terminates: the loop of [RunConfig]
    ends within the step limit, for every configuration. *)
Theorem RunConfig_terminates slice_cap program config :
  (∀ data, lenZ data ≤ slice_cap data) → bytes_ok program → config_ok config →
  (∃ r, RunConfig slice_cap program config = Returned r) ∨
  RunConfig slice_cap program config = Panicked.
Proof.
  intros Hcap Hp Hc. destruct (RunConfig_cases _ Hcap program config) as [(r&?&_)|[? _]]; eauto.
Qed.

Lemma RunConfig_terminates_witness :
  (∃ r, RunConfig lenZ (sampleProgram exit9) sampleConfig = Returned r) ∨
  RunConfig lenZ (sampleProgram exit9) sampleConfig = Panicked.
Proof.
  apply (RunConfig_terminates lenZ (sampleProgram exit9) sampleConfig);
    [done|by_decision|apply sampleConfig_ok].
Defined.

(** C2. A run stays within its limits: the steps charged, the peak memory and
    both output streams of a result are bounded by the configured limits, and
    the exit code is an int32. *)
Theorem RunConfig_bounds slice_cap program config r :
  (∀ data, lenZ data ≤ slice_cap data) → bytes_ok program → config_ok config →
  RunConfig slice_cap program config = Returned r → result_ok (c_Limits config) r.
Proof.
  intros Hcap Hp Hc Hr. destruct (RunConfig_cases _ Hcap program config) as [(r'&Hr'&?)|[Hr' _]];
    [done..| |]; rewrite Hr in Hr'; [by injection Hr' as ->|done].
Qed.

Lemma RunConfig_bounds_witness :
  ∃ r, RunConfig lenZ (sampleProgram exit9) sampleConfig = Returned r ∧
    result_ok (c_Limits sampleConfig) r.
Proof.
  eexists. split; [vm_compute; reflexivity|].
  apply (RunConfig_bounds lenZ (sampleProgram exit9) sampleConfig);
    [done|by_decision|apply sampleConfig_ok|vm_compute; reflexivity].
Defined.

(** C3. Memory safety: a run panics only at a system call that transfers no
    bytes at an address outside memory, or that reads at a position beyond its
    source; every other index the interpreter computes is in range. *)
Theorem RunConfig_panic slice_cap program config :
  (∀ data, lenZ data ≤ slice_cap data) → bytes_ok program → config_ok config →
  RunConfig slice_cap program config = Panicked →
  ∃ m m', startOf program config = Some m ∧ rtc (next (slice_cap := slice_cap)) m m' ∧
    m_trap m' = TrapNone ∧ at_fault (slice_cap := slice_cap) m'.
Proof.
  intros Hcap Hp Hc Hr. destruct (RunConfig_cases _ Hcap program config) 
    as [(r'&Hr'&_)|[_ (img&m&m'&_&?&?&?&?&_)]]; [done..|congruence|]. eauto 10.
Qed.

Lemma RunConfig_panic_witness :
  ∃ m m', startOf (sampleProgram readNowhere) sampleConfig = Some m ∧
    rtc (next (slice_cap := lenZ)) m m' ∧ m_trap m' = TrapNone ∧ at_fault (slice_cap := lenZ) m'.
Proof.
  apply (RunConfig_panic lenZ (sampleProgram readNowhere) sampleConfig);
    [done|by_decision|apply sampleConfig_ok|vm_compute; reflexivity].
Defined.

(** C29. A valid program without system-call instructions always returns a result. *)
Theorem RunConfig_no_syscall slice_cap program config img :
  (∀ data, lenZ data ≤ slice_cap data) → bytes_ok program → config_ok config →
  decodeImage program = Some (Some img) →
  (∀ pc, boundary (i_code img) pc → i_code img !!z pc ≠ Some opSyscall) →
  ∃ r, RunConfig slice_cap program config = Returned r.
Proof.
  intros Hcap Hp Hc Hd Hno.
  destruct (RunConfig_cases _ Hcap program config)
    as [(r'&?&_)|[_ (img'&m&m'&Hd'&_&_&_&[Hf _]&Hm')]]; [done..|eauto|].
  rewrite Hd in Hd'. injection Hd' as <-. exfalso.
  pose proof (ok_pc m' (inv_ok m' Hm')) as Hb. rewrite (inv_image m' Hm') in *.
  by apply (Hno (m_pc m')).
Qed.

Lemma RunConfig_no_syscall_witness :
  ∃ r, RunConfig lenZ (sampleProgram exit9) sampleConfig = Returned r.
Proof.
  apply (RunConfig_no_syscall lenZ (sampleProgram exit9) sampleConfig (sampleImage exit9));
    [done|by_decision|apply sampleConfig_ok|vm_compute; reflexivity|].
  intros pc _ Hpc. apply (lookupZ_Forall (λ b, b ≠ opSyscall) exit9 pc opSyscall); [|done..].
  by_decision.
Defined.

(** C16. A step, whatever the instruction, keeps the machine well formed: memory,
    registers, stack pointers, call frames, descriptors, files and accounting;
    a step that continues has charged for itself. *)
Theorem step_invariant slice_cap m b m' :
  (∀ data, lenZ data ≤ slice_cap data) → machine_ok m → step slice_cap m = Some (b, m') →
  machine_ok m' ∧ m_image m' = m_image m ∧ m_limits m' = m_limits m ∧
  m_steps m ≤ m_steps m' ∧ (b = true → m_steps m < m_steps m').
Proof.
  intros Hcap Hm Hs.
  assert (inv (m_image m) (m_limits m) (m_steps m) m) as Hinv by by split_and!.
  destruct (wp_run _ _ _ _ _ (wp_step_inv Hcap _ _ Hinv) Hs) as [(?&?&?&?) Hb].
  split_and!; [done..|]. intros Htrue. destruct (Hb Htrue) as (_&_&_&?). lia.
Qed.

Lemma step_invariant_witness :
  ∃ b m', step lenZ (sampleMachine exit9) = Some (b, m') ∧ machine_ok m' ∧
    m_steps (sampleMachine exit9) ≤ m_steps m'.
Proof.
  eexists _, _. split; [vm_compute; reflexivity|].
  edestruct (step_invariant lenZ (sampleMachine exit9)) as (?&_&_&?&_);
    [done| |vm_compute; reflexivity|split; done].
  apply sample_machine_ok, sample_image_ok; [by_decision|vm_compute; reflexivity].
Defined.

(** C24. The decoder never panics, and every image it accepts is well formed: the
    routine table is sorted and in range, the memory layout ordered, and every
    instruction reached from a boundary has valid operands and targets. *)
Theorem decodeImage_sound program :
  bytes_ok program → ∃ r, decodeImage program = Some r ∧ ∀ img, r = Some img → image_ok img.
Proof. apply decodeImage_spec. Qed.

Lemma decodeImage_sound_witness :
  bytes_ok (sampleProgram exit9) ∧
  ∃ r, decodeImage (sampleProgram exit9) = Some r ∧ ∀ img, r = Some img → image_ok img.
Proof. split; [by_decision|]. apply decodeImage_sound. by_decision. Defined.

(** C28. Every well-formed image, written in the binary format, is decoded back to
    itself. *)
Theorem decodeImage_roundtrip img :
  image_ok img → decodeImage (encodeImage img) = Some (Some img).
Proof. apply decodeImage_encode. Qed.

Lemma decodeImage_roundtrip_witness :
  decodeImage (encodeImage (sampleImage exit9)) = Some (Some (sampleImage exit9)).
Proof.
  apply decodeImage_roundtrip, sample_image_ok; [by_decision|vm_compute; reflexivity].
Defined.

(** C34. A program that differs from an accepted one in a single payload byte is
    rejected. *)
Theorem decodeImage_corrupted hdr xs x x' ys img :
  lenZ hdr = headerSize → byte_ok x → byte_ok x' → x ≠ x' →
  decodeImage (hdr ++ xs ++ x :: ys) = Some (Some img) →
  decodeImage (hdr ++ xs ++ x' :: ys) = Some None.
Proof.
  intros Hh Hx Hx' Hne. apply decodeImage_checksum; [done| |by apply checksum_detects].
  autorewrite with lenZ. done.
Qed.

Lemma decodeImage_corrupted_witness :
  decodeImage (encodeHeader (sampleImage exit9) ++
    concat (encodeRoutine <$> i_routines (sampleImage exit9)) ++ 4 :: drop 1 exit9) = Some None.
Proof.
  apply (decodeImage_corrupted _ _ 3 4 (drop 1 exit9) (sampleImage exit9));
    [reflexivity|by_decision|by_decision|done|vm_compute; reflexivity].
Defined.

(** C27. The code validator is exact: on sorted routine tables it returns, without
    panicking, whether every instruction and target reachable from the start is
    valid. *)
Theorem validateCode_exact code routines :
  bytes_ok code → routines_sorted routines → (∀ r, r ∈ routines → 0 ≤ r_pc r < lenZ code) →
  ∃ b, validateCode code routines = Some b ∧ (b = true ↔ code_ok code routines).
Proof. apply validateCode_spec. Qed.

Lemma validateCode_exact_witness :
  ∃ b, validateCode exit9 [Routine 0 0 false] = Some b ∧
    (b = true ↔ code_ok exit9 [Routine 0 0 false]).
Proof.
  apply validateCode_exact; [by_decision| |].
  - intros i j ri rj Hi%lookupZ_lt_Some Hj%lookupZ_lt_Some. change (lenZ _) with 1 in *. lia.
  - intros r Hr%list_elem_of_singleton. subst. by_decision.
Defined.

(** The two panics that the memory-safety theorem leaves open do occur, so a
    guest can stop its host: an empty read at an address outside memory, and a
    positioned read beyond the end of its source. *)
Theorem guest_reads_panic :
  RunConfig lenZ (sampleProgram readNowhere) sampleConfig = Panicked ∧
  RunConfig lenZ (sampleProgram readBeyond) sampleConfig = Panicked.
Proof. split; vm_compute; reflexivity. Qed.
