(* ===== verification/VmBehaviour.v ===== *)
(** Functional behaviour of the VM's operations: loads after stores, the operand
    stack, calls and returns, comparisons, division, the process arguments and
    the in-memory files. *)

From Stdlib Require Import Sorting.Sorted.
From S2P Require Import Prelude.
From S2P Require Import GoInt.
From S2P Require Import VmImage.
From S2P Require Import VmImageFacts.
From S2P Require Import VmDecode.
From S2P Require Import VmMachine.
From S2P Require Import VmInvariant.
From S2P Require Import VmExec.
From S2P Require Import VmSafety.
From S2P Require Import VmDirectory.
From S2P Require Import VmSyscall.
From S2P Require Import VmProperties.

(** * Memory *)

(** The bytes a store of [size] writes. *)
Definition storedBytes (size value : Z) : list Z :=
  if size =? 1 then [u8 value] else if size =? 2 then bytes16 value else bytes32 value.

Lemma storedBytes_length size value :
  1 ≤ size ≤ 4 → lenZ (storedBytes size value) = accessSize size.
Proof.
  intros. unfold storedBytes, accessSize. assert (size ∈ seqZ 1 4) as Hin by (apply elem_of_seqZ; lia).
  by case_op Hin.
Qed.

Lemma storeBytes_writeAll d addr size value :
  1 ≤ size ≤ 4 → storeBytes d addr size value = writeAll d addr (storedBytes size value).
Proof.
  intros. assert (size ∈ seqZ 1 4) as Hin by (apply elem_of_seqZ; lia).
  unfold storeBytes, storedBytes, bytes16, bytes32.
  case_op Hin; cbn [writeAll Z.eqb Pos.eqb]; repeat match goal with
  | |- context [if ?b then _ else _] => let b' := eval vm_compute in b in change b with b'; cbv iota
  end; replace (addr + 1 + 1) with (addr + 2) by lia; replace (addr + 2 + 1) with (addr + 3) by lia.
  - by destruct (insertZ d addr _).
  - destruct (insertZ d addr _) as [d1|]; [|done]. simpl. by destruct (insertZ d1 (addr + 1) _).
  - destruct (insertZ d addr _) as [d1|]; [|done]. simpl.
    destruct (insertZ d1 (addr + 1) _) as [d2|]; [|done]. simpl.
    destruct (insertZ d2 (addr + 2) _) as [d3|]; [|done]. simpl. by destruct (insertZ d3 _ _).
  - destruct (insertZ d addr _) as [d1|]; [|done]. simpl.
    destruct (insertZ d1 (addr + 1) _) as [d2|]; [|done]. simpl.
    destruct (insertZ d2 (addr + 2) _) as [d3|]; [|done]. simpl. by destruct (insertZ d3 _ _).
Qed.

(** A successful check has no effect. *)
Lemma address_run addr size m m' :
  address addr size m = Some (true, m') →
  m' = m ∧ minAddress ≤ addr ∧ 0 ≤ size ∧ addr + size ≤ lenZ (m_memory m).
Proof.
  unfold address. intros H. unfold mbind, GoM_bind, get in H. destruct (_ || _) eqn:Hb; [done|].
  injection H as <-. split; [done|lia].
Qed.

Lemma address_succeeds addr size m :
  minAddress ≤ addr → 0 ≤ size → addr + size ≤ lenZ (m_memory m) →
  address addr size m = Some (true, m).
Proof.
  intros. unfold address, mbind, GoM_bind, get. destruct (_ || _) eqn:Hb; [lia|done].
Qed.

Lemma store_run addr size value m m' :
  1 ≤ size ≤ 4 → store addr size value m = Some (true, m') →
  minAddress ≤ addr ∧ addr + accessSize size ≤ lenZ (m_memory m) ∧
  ∃ memory, writeAll (m_memory m) addr (storedBytes size value) = Some memory ∧
    m' = set_memory memory m.
Proof.
  intros Hs H. unfold store in H. apply run_bind in H as (ok&m1&Ha&H). destruct ok; [|done].
  apply address_run in Ha as (->&?&_&?). split_and!; [done..|].
  cbn [negb] in H. run_step H. run_step H. rewrite storeBytes_writeAll in E by done. exists a.
  split; [done|]. by injection H as <-.
Qed.

(** What a load of [size] finds after the bytes of a store of [size]. *)
Lemma load_stored addr size value memory memory' m :
  1 ≤ size ≤ 4 → minAddress ≤ addr → addr + accessSize size ≤ lenZ memory →
  writeAll memory addr (storedBytes size value) = Some memory' → m_memory m = memory' →
  load addr size m = Some (Some (value `mod` 2 ^ (8 * accessSize size)), m).
Proof.
  intros Hs Ha Hl Hw Hm. unfold load, mbind, GoM_bind, get, lift.
  pose proof (storedBytes_length size value Hs) as Hsl.
  pose proof (writeAll_length _ _ _ _ Hw) as Hlen.
  assert (0 ≤ accessSize size) by (unfold accessSize; case_match; lia).
  rewrite address_succeeds by (rewrite ?Hm; lia). cbn [negb]. rewrite Hm.
  assert (∀ k, 0 ≤ k < accessSize size → memory' !!z (addr + k) = storedBytes size value !!z k)
    as Hk by (intros; eapply writeAll_lookup_in; [done|lia]).
  assert (size ∈ seqZ 1 4) as Hin by (apply elem_of_seqZ; lia).
  assert (3 ≤ size → read32 memory' addr = Some (u32 value)) as Hread.
  { intros. eapply write32_read32 with (d := memory). rewrite write32_writeAll.
    unfold storedBytes in Hw.
    by rewrite (proj2 (Z.eqb_neq size 1)), (proj2 (Z.eqb_neq size 2)) in Hw by lia. }
  case_op Hin; cbn.
  - rewrite <- (Z.add_0_r addr), Hk by done. done.
  - unfold read16. rewrite <- (Z.add_0_r addr) at 1. rewrite !Hk by done. cbn.
    change (value `mod` 2 ^ (8 * 2)) with (u16 value). by rewrite <- le16_bytes.
  - rewrite Hread by done. unfold u32. by rewrite Zmod_mod.
  - rewrite Hread by done. unfold u32. by rewrite Zmod_mod.
Qed.

(** * The stack *)

Lemma updatePeak_run m m' :
  updatePeak m = Some (true, m') → ∃ peak, m' = set_peak peak m.
Proof.
  unfold updatePeak. intros H. run_step H. cbv zeta in H. destruct (_ <? _); [done|].
  destruct (_ <? _); injection H as <-; [eauto|]. exists (m_peak m). by destruct m.
Qed.

Lemma push_run v m m' :
  push v m = Some (true, m') →
  minAddress ≤ m_sp m ∧ m_sp m + 4 ≤ m_fp m ∧
  ∃ memory peak, write32 (m_memory m) (m_sp m) v = Some memory ∧
    m' = set_peak peak (set_sp (m_sp m + 4) (set_memory memory m)).
Proof.
  intros H. unfold push in H. run_step H. run_step H.
  destruct (negb a || _) eqn:Hb; [done|]. destruct a; [|done]. simpl in Hb.
  apply address_run in E as (->&?&_&?). split_and!; [done|lia|].
  run_step H. exists a. apply updatePeak_run in H as [peak ->]. eauto.
Qed.

Lemma pop_word m v :
  minAddress ≤ m_stackBase m → m_stackBase m + 4 ≤ m_sp m →
  read32 (m_memory m) (m_sp m - 4) = Some v →
  pop m = Some (Some (i32 v), set_sp (m_sp m - 4) m).
Proof.
  intros ?? Hr. unfold pop, mbind, GoM_bind, get, modify, lift.
  rewrite (proj2 (Z.ltb_ge _ _)) by lia. cbn. by rewrite Hr.
Qed.

(** * Calls *)

Lemma stepCall_run pc next m m' :
  stepCall pc next m = Some (true, m') →
  ∃ wordCount, read32 (i_code (m_image m)) (pc + 5) = Some wordCount ∧
    m_calls m' = m_calls m ++ [CallFrame next (m_fp m) (m_sp m) (m_routine m)
      (if 6 <? wordCount then (wordCount - 6) * 4 else 0)] ∧
    m_sp m' = m_sp m ∧ m_stackBase m' = m_stackBase m ∧ m_memory m' = m_memory m ∧
    read32 (i_code (m_image m)) (pc + 1) = Some (m_pc m').
Proof.
  unfold stepCall. intros H. run_step H. rename E into Htarget.
  apply run_bind in Htarget as (?&?&[= <- <-]&[Ht ->]%run_lift).
  run_step H. run_step H. destruct (_ <? _); [done|]. run_step H.
  apply run_bind in H as (fs&m1&Hfs&H).
  assert (m1 = m) as ->.
  { destruct (r_framed _); [|by injection Hfs as <-].
    apply run_bind in Hfs as (?&?&[_ ->]%run_lift&Hfs). by injection Hfs as <-. }
  cbv zeta in H. destruct (_ || _); [done|].
  apply run_bind in H as (w&m1&Hw&H). apply run_bind in Hw as (?&?&[= <- <-]&[Hw ->]%run_lift).
  exists w. split; [done|]. apply updatePeak_run in H as [peak ->]. done.
Qed.

Lemma stepRet_frame m calls f :
  m_calls m = calls ++ [f] → cf_drop f ≤ cf_sp f - m_stackBase m →
  stepRet m = Some (true, set_routine (cf_routine f) (set_fp (cf_fp f) (set_pc (cf_pc f)
    (set_sp (cf_sp f - cf_drop f) (set_calls calls m))))).
Proof.
  intros Hc Hd. unfold stepRet, mbind, GoM_bind, get. rewrite Hc, last_snoc, removelast_last.
  cbn. rewrite (proj2 (Z.ltb_ge _ _)) by lia. done.
Qed.

(** * Process arguments *)

(** The Go string header at [at_] that points to the bytes of [v] at [ptr]. *)
Definition string_at (memory : list Z) (at_ ptr : Z) (v : list Z) : Prop :=
  read32 memory at_ = Some (u32 ptr) ∧ read32 memory (at_ + 4) = Some 0 ∧
  read32 memory (at_ + 8) = Some (u32 (lenZ v)) ∧ read32 memory (at_ + 12) = Some 0 ∧
  ∀ j, 0 ≤ j < lenZ v → memory !!z (ptr + j) = v !!z j.

(** Consecutive headers from [at_], for strings laid out from [ptr]. *)
Fixpoint strings_at (memory : list Z) (at_ ptr : Z) (values : list (list Z)) : Prop :=
  match values with
  | [] => True
  | v :: values =>
      string_at memory at_ ptr v ∧ strings_at memory (at_ + 16) (ptr + lenZ v) values
  end.

Lemma read32_ext d d' k : (∀ j, k ≤ j < k + 4 → d !!z j = d' !!z j) → read32 d k = read32 d' k.
Proof. intros H. unfold read32, read16. by rewrite !H by lia. Qed.

Lemma string_at_ext d d' at_ ptr v :
  (∀ j, at_ ≤ j < at_ + 16 → d !!z j = d' !!z j) →
  (∀ j, ptr ≤ j < ptr + lenZ v → d !!z j = d' !!z j) →
  string_at d at_ ptr v → string_at d' at_ ptr v.
Proof.
  intros Hh Hd (H1&H2&H3&H4&H5).
  split_and!; try (erewrite <- read32_ext; [eassumption|]; intros; apply Hh; lia).
  intros j Hj. rewrite <- Hd by lia. by apply H5.
Qed.

Lemma writeStrings_inv memory at_ cursor v values memory' :
  writeStrings memory at_ cursor (v :: values) = Some memory' →
  ∃ m1 m2 m3 m4 m5, write32 memory at_ cursor = Some m1 ∧ write32 m1 (at_ + 4) 0 = Some m2 ∧
    write32 m2 (at_ + 8) (lenZ v) = Some m3 ∧ write32 m3 (at_ + 12) 0 = Some m4 ∧
    writeAll m4 cursor v = Some m5 ∧
    writeStrings m5 (at_ + 16) (cursor + lenZ v) values = Some memory'.
Proof.
  cbn [writeStrings]. intros H.
  repeat match type of H with
  | (?o ≫= _) = _ => destruct o eqn:?; cbn [mbind option_bind] in H; [|done]
  end. eauto 15.
Qed.

Lemma writeStrings_frame values memory at_ cursor memory' j :
  writeStrings memory at_ cursor values = Some memory' →
  j < at_ ∨ at_ + lenZ values * 16 ≤ j → j < cursor ∨ cursor + totalLength values ≤ j →
  memory' !!z j = memory !!z j.
Proof.
  revert memory at_ cursor. induction values as [|v values IH]; intros memory at_ cursor H Hh Hd.
  { by injection H as ->. }
  rewrite lenZ_cons in Hh. simpl in Hd. pose proof (lenZ_nonneg values). pose proof (lenZ_nonneg v).
  pose proof (totalLength_nonneg values).
  apply writeStrings_inv in H as (m1&m2&m3&m4&m5&W1&W2&W3&W4&W5&H).
  rewrite (IH _ _ _ H) by lia. rewrite (writeAll_lookup_out _ _ _ _ _ W5) by lia.
  rewrite (write32_frame _ _ _ _ _ W4), (write32_frame _ _ _ _ _ W3) by lia.
  by rewrite (write32_frame _ _ _ _ _ W2), (write32_frame _ _ _ _ _ W1) by lia.
Qed.

Lemma writeStrings_spec values memory at_ cursor memory' :
  writeStrings memory at_ cursor values = Some memory' →
  at_ + lenZ values * 16 ≤ cursor → strings_at memory' at_ cursor values.
Proof.
  revert memory at_ cursor. induction values as [|v values IH]; intros memory at_ cursor H Hl; [done|].
  rewrite lenZ_cons in Hl. pose proof (lenZ_nonneg values). pose proof (lenZ_nonneg v).
  apply writeStrings_inv in H as (m1&m2&m3&m4&m5&W1&W2&W3&W4&W5&H).
  split; [|by apply (IH m5); [|lia]].
  apply (string_at_ext m5).
  1,2: intros j Hj; symmetry; apply (writeStrings_frame _ _ _ _ _ _ H); lia.
  assert (∀ d d' k w x, write32 d k w = Some d' → k + 4 ≤ x ∨ x + 4 ≤ k →
    read32 d' x = read32 d x) as Hout.
  { intros d d' k w x Hw Hx. apply read32_ext. intros j ?.
    apply (write32_frame _ _ _ _ _ Hw). lia. }
  assert (∀ x, x + 4 ≤ cursor → read32 m5 x = read32 m4 x) as Hdata.
  { intros x Hx. apply read32_ext. intros j ?. apply (writeAll_lookup_out _ _ _ _ _ W5). lia. }
  split_and!; rewrite ?Hdata by lia.
  - rewrite (Hout _ _ _ _ _ W4), (Hout _ _ _ _ _ W3), (Hout _ _ _ _ _ W2) by lia.
    by apply write32_read32 in W1.
  - rewrite (Hout _ _ _ _ _ W4), (Hout _ _ _ _ _ W3) by lia. by apply write32_read32 in W2.
  - rewrite (Hout _ _ _ _ _ W4) by lia. by apply write32_read32 in W3.
  - by apply write32_read32 in W4.
  - intros j Hj. by apply (writeAll_lookup_in _ _ _ _ _ W5).
Qed.

(** * Files *)

(** [n] bytes of a slice at [at_], padded with zeros beyond its end. *)
Definition padded (data : list Z) (j : Z) : Z :=
  match data !!z j with Some b => b | None => 0 end.

Lemma growData_lookup data k j :
  0 ≤ j < Z.max (lenZ data) k → growData data k !!z j = Some (padded data j).
Proof.
  intros Hj. unfold growData, padded. destruct (Z.ltb_spec (lenZ data) k).
  - destruct (decide (j < lenZ data)).
    + rewrite lookupZ_app_l by done. by destruct (lookupZ_lt_is_Some data j) as [b ->]; [lia|].
    + rewrite lookupZ_app_r by lia. rewrite (proj2 (lookupZ_None data j)) by lia.
      rewrite lookupZ_to_nat by lia. apply lookup_replicate_2. lia.
  - by destruct (lookupZ_lt_is_Some data j) as [b ->]; [lia|].
Qed.

Lemma sysReturn_run v m b m' :
  sysReturn v m = Some (b, m') →
  ∃ rs, insertZ (m_regs m) regRax (i32 v) = Some rs ∧ m' = set_regs rs m.
Proof.
  intros H. unfold sysReturn in H. run_step H. unfold setReg in E. run_step E. run_step E.
  injection E as <-. injection H as <- <-. eauto.
Qed.

Lemma sysReturn_rax v m b m' : sysReturn v m = Some (b, m') → m_regs m' !!z regRax = Some (i32 v).
Proof. intros (rs&Hrs&->)%sysReturn_run. by eapply insertZ_lookup_eq. Qed.

Lemma buffer_run addr size m m' : buffer addr size m = Some (true, m') → m' = m.
Proof.
  unfold buffer. case_match; [by intros [= <-]|]. intros Ha. by apply address_run in Ha as [-> _].
Qed.

Lemma charge_run cost m m' : charge cost m = Some (true, m') → m' = set_steps (m_steps m + cost) m.
Proof.
  unfold charge. intros H. run_step H. destruct (_ || _); [done|]. by injection H as <-.
Qed.

(** A positioned write that succeeds replaces exactly the given bytes of the
    file, extended with zeros when it ends beyond the old end. *)
Lemma writeFile_run fd addr size offset d m b m' :
  writeFile fd addr size offset d m = Some (b, m') →
  0 ≤ offset → 0 < size → i32_ok size → m_regs m' !!z regRax = Some size →
  ∃ f bytes data files, m_files m !!z d_file d = Some f ∧
    sliceZ (m_memory m) addr (addr + size) = Some bytes ∧
    writeAll (growData (f_Data f) (offset + size)) offset bytes = Some data ∧
    insertZ (m_files m) (d_file d) (MkFile (f_Name f) data (f_Mode f)) = Some files ∧
    m_files m' = files ∧ m_fds m' = m_fds m ∧ m_memory m' = m_memory m.
Proof.
  intros H Ho Hs Hi Hrax. unfold writeFile in H. run_step H.
  rewrite (proj2 (Z.ltb_ge offset 0)) in H by done. cbv zeta in H. destruct (_ || _ || _).
  { apply sysReturn_rax in H. rewrite Hrax in H. injection H as H.
    rewrite i32_small in H by (unfold i32_ok; lia). lia. }
  run_step H. run_step H. run_step H. run_step H. exists a, a0, a1, a2.
  apply run_bind in H as (?&?&[= <- <-]&H). apply run_bind in H as (?&?&[= <- <-]&H).
  apply sysReturn_run in H as (rs&_&->). done.
Qed.

Lemma writeAt_run fd addr size offset m m' :
  writeAt fd addr size offset m = Some (true, m') →
  fd ≠ 1 → fd ≠ 2 → 0 ≤ offset → 0 < size → i32_ok size → m_regs m' !!z regRax = Some size →
  ∃ d m1 b, openDescriptor m fd = Some d ∧ 0 ≤ d_file d ∧ m1 = set_steps (m_steps m + size) m ∧
    writeFile fd addr size offset d m1 = Some (b, m').
Proof.
  intros H ????? Hrax. unfold writeAt in H. run_step H. destruct a; [|done]. cbn [negb] in H.
  apply buffer_run in E as ->. run_step H. destruct a; [|done]. cbn [negb] in H.
  apply charge_run in E as ->. destruct ((fd =? 1) || (fd =? 2)) eqn:?; [lia|]. run_step H.
  assert (∀ mm b, sysReturn (-1) mm = Some (b, m') → False) as Hno.
  { intros mm b Hr%sysReturn_rax. rewrite Hrax in Hr. injection Hr as Hr.
    rewrite i32_small in Hr by (unfold i32_ok; lia). lia. }
  change (openDescriptor (set_steps _ m) fd) with (openDescriptor m fd) in H.
  destruct (openDescriptor m fd) as [d|]; [|by apply Hno in H].
  destruct (Z.ltb_spec (d_file d) 0); [by apply Hno in H|]. eauto 10.
Qed.

Lemma readTransfer_run slice_cap fd addr size offset data m b m' :
  readTransfer slice_cap fd addr size offset offset data m = Some (b, m') →
  0 ≤ offset → 0 ≤ size → offset + size ≤ lenZ data → b = true →
  m_regs m' !!z regRax = Some (i32 size) ∧ m_files m' = m_files m ∧ m_fds m' = m_fds m ∧
  writeAll (m_memory m) addr (sublistZ data offset (offset + size)) = Some (m_memory m').
Proof.
  intros H Ho Hs Hl ->. unfold readTransfer in H.
  rewrite !(proj2 (Z.ltb_ge offset 0)) in H by done. cbv zeta in H.
  rewrite (proj2 (Z.ltb_ge (lenZ data) offset)) in H by lia.
  assert ((if lenZ data - offset <? size then lenZ data - offset else size) = size) as Hc
    by (case_match; lia).
  rewrite Hc in H. clear Hc. run_step H. destruct a; [|done]. cbn [negb] in H. apply charge_run in E as ->.
  run_step H. run_step H. run_step H. run_step H.
  unfold sliceCap in E0. destruct (_ && _) in E0; [|done]. injection E0 as <-.
  apply run_bind in H as (?&?&[= <- <-]&H). apply run_bind in H as (?&?&[= <- <-]&H).
  pose proof (sysReturn_rax _ _ _ _ H). apply sysReturn_run in H as (rs&_&->). done.
Qed.

Lemma readAt_file slice_cap fd addr size offset d f m m' :
  readAt slice_cap fd addr size offset m = Some (true, m') → fd ≠ 0 →
  openDescriptor m fd = Some d → 0 ≤ d_file d → m_files m !!z d_file d = Some f → 0 ≤ offset →
  readTransfer slice_cap fd addr size offset offset (f_Data f) m = Some (true, m').
Proof.
  intros H Hfd Hd Hf Hlook Ho. unfold readAt in H. run_step H. destruct a; [|done].
  cbn [negb] in H. apply buffer_run in E as ->. run_step H.
  rewrite (proj2 (Z.eqb_neq fd 0)), Hd in H by done.
  rewrite (proj2 (Z.ltb_ge offset 0)), (proj2 (Z.ltb_ge (d_file d) 0)) in H by done.
  apply run_bind in H as (data&m1&E&H). apply run_bind in E as (f'&m2&E&Hret).
  apply run_lift in E as [E ->]. injection Hret as <- <-. rewrite Hlook in E. by injection E as <-.
Qed.

(** * Arithmetic *)

(** The comparison a condition code stands for. *)
Definition compareSpec (cond a b : Z) : bool :=
  if cond =? condEq then a =? b
  else if cond =? condNe then negb (a =? b)
  else if cond =? condLt then a <? b
  else if cond =? condLe then a <=? b
  else if cond =? condGt then b <? a
  else b <=? a.

Lemma i32_sub_eq a b : i32_ok a → i32_ok b → i32 (a - b) = 0 ↔ a = b.
Proof.
  unfold i32_ok, i32. intros. Z.div_mod_to_equations. lia.
Qed.

(** * Properties *)

(** A store of one, two or four bytes changes only the bytes it names, and a
    load of the same size returns the stored value, truncated to that size. *)
Theorem store_load addr size value m m' :
  1 ≤ size ≤ 4 → store addr size value m = Some (true, m') →
  load addr size m' = Some (Some (value `mod` 2 ^ (8 * accessSize size)), m') ∧
  (∀ j, j < addr ∨ addr + accessSize size ≤ j → m_memory m' !!z j = m_memory m !!z j).
Proof.
  intros Hs H. destruct (store_run _ _ _ _ _ Hs H) as (?&?&memory&Hw&->). split.
  - by eapply load_stored.
  - intros j Hj. eapply writeAll_lookup_out; [done|]. by rewrite storedBytes_length.
Qed.

Lemma store_load_witness :
  ∃ m', store 300 2 70000 (sampleMachine exit9) = Some (true, m') ∧
    load 300 2 m' = Some (Some 4464, m').
Proof.
  eexists. split; [vm_compute; reflexivity|].
  refine (proj1 (store_load 300 2 70000 (sampleMachine exit9) _ _ _));
    [lia|vm_compute; reflexivity].
Defined.

(** A value pushed on the operand stack is what the next pop returns, with
    the stack pointer back where it was; nothing else in memory changes. *)
Theorem push_pop v m m' :
  machine_ok m → i32_ok v → push v m = Some (true, m') →
  pop m' = Some (Some v, set_sp (m_sp m) m') ∧
  (∀ j, j < m_sp m ∨ m_sp m + 4 ≤ j → m_memory m' !!z j = m_memory m !!z j).
Proof.
  intros Hm Hv H. destruct (push_run _ _ _ H) as (?&?&memory&peak&Hw&->).
  destruct (ok_stack m Hm) as [? _]. split.
  - rewrite (pop_word _ (u32 v)); cbn; [|lia..|].
    + rewrite i32_u32, i32_small by done. by rewrite Z.add_simpl_r.
    + rewrite Z.add_simpl_r. by apply write32_read32 in Hw.
  - intros j Hj. by apply (write32_frame _ _ _ _ _ Hw).
Qed.

Lemma push_pop_witness :
  ∃ m', push (-5) (sampleMachine exit9) = Some (true, m') ∧
    pop m' = Some (Some (-5), set_sp (m_sp (sampleMachine exit9)) m').
Proof.
  eexists. split; [vm_compute; reflexivity|].
  refine (proj1 (push_pop (-5) (sampleMachine exit9) _ _ _ _)).
  - apply sample_machine_ok, sample_image_ok; [by_decision|vm_compute; reflexivity].
  - by_decision.
  - vm_compute. reflexivity.
Defined.

(** A return undoes its call: whatever the callee did, once its own frame is
    back on top of the call stack, a return resumes after the call in the
    caller's routine and frame, with the stack-passed arguments dropped. *)
Theorem call_ret pc next m m1 m2 words :
  stepCall pc next m = Some (true, m1) →
  read32 (i_code (m_image m)) (pc + 5) = Some words →
  m_calls m2 = m_calls m1 → m_stackBase m2 = m_stackBase m →
  4 * Z.max 0 (words - 6) ≤ m_sp m - m_stackBase m →
  ∃ m3, stepRet m2 = Some (true, m3) ∧
    m_pc m3 = next ∧ m_fp m3 = m_fp m ∧ m_routine m3 = m_routine m ∧
    m_sp m3 = m_sp m - 4 * Z.max 0 (words - 6) ∧ m_calls m3 = m_calls m ∧
    m_memory m3 = m_memory m2 ∧ m_regs m3 = m_regs m2.
Proof.
  intros Hcall Hwords Hcalls Hbase Hdrop.
  destruct (stepCall_run _ _ _ _ Hcall) as (words'&Hw&Hc&_).
  rewrite Hwords in Hw. injection Hw as <-. rewrite Hc in Hcalls.
  eexists. split.
  { eapply stepRet_frame; [exact Hcalls|]. cbn. destruct (Z.ltb_spec 6 words); lia. }
  cbn. split_and!; try done. destruct (Z.ltb_spec 6 words); lia.
Qed.

(** [call 10; exit; ret], the routine at 10 being the return. *)
Definition callMachine : machine :=
  initialMachine (Image [40; 10; 0; 0; 0; 0; 0; 0; 0; 1; 41] [] 256 256 0
    [Routine 0 0 false; Routine 10 0 false]) sampleConfig (replicate 1024 0).

Lemma call_ret_witness :
  ∃ m1 m3, stepCall 0 9 callMachine = Some (true, m1) ∧ m_pc m1 = 10 ∧
    stepRet m1 = Some (true, m3) ∧ m_pc m3 = 9.
Proof.
  eexists. edestruct (call_ret 0 9 callMachine) as (m3&Hret&Hpc&_);
    [vm_compute; reflexivity|vm_compute; reflexivity|reflexivity|reflexivity|vm_compute; done|].
  exists m3. split; [vm_compute; reflexivity|]. split; [reflexivity|]. split; [exact Hret|exact Hpc].
Defined.

(** The process arguments are laid out as Go string headers: after
    [buildStrings], entry [i] holds a pointer to the bytes of the i-th string and
    its length, in order, and memory below the table is unchanged. *)
Theorem buildStrings_layout values m m' start :
  buildStrings values m = Some (Some start, m') →
  start = m_sp m ∧
  strings_at (m_memory m') start (align8 (start + lenZ values * 16)) values ∧
  (∀ j, j < start → m_memory m' !!z j = m_memory m !!z j).
Proof.
  intros H. unfold buildStrings in H. run_step H. cbv zeta in H.
  pose proof (align8_bounds (m_sp m + lenZ values * 16)). pose proof (lenZ_nonneg values).
  destruct (stringsEnd _ _ _) as [e|]; [|done]. destruct (_ || _); [done|].
  run_step H. apply run_bind in H as (?&?&[= <- <-]&H). apply run_bind in H as (?&?&[= <- <-]&H).
  run_step H. destruct a0; [|done]. injection H as <- <-.
  apply updatePeak_run in E0 as [peak ->]. cbn. split_and!; [done|eapply writeStrings_spec; [exact E|lia]|].
  intros j Hj. eapply writeStrings_frame; [exact E|by left|left; lia].
Qed.

Lemma buildStrings_layout_witness :
  ∃ m', buildStrings [[65; 66]; [67]] (sampleMachine exit9) = Some (Some 256, m') ∧
    strings_at (m_memory m') 256 (align8 288) [[65; 66]; [67]].
Proof.
  eexists. split; [vm_compute; reflexivity|].
  edestruct (buildStrings_layout [[65; 66]; [67]] (sampleMachine exit9)) as (_&Hs&_);
    [vm_compute; reflexivity|exact Hs].
Defined.

(** What a positioned write stores, a positioned read of the same range
    returns: the read copies the written bytes to its own buffer, and the file
    keeps its other bytes, with zeros where it was extended. *)
Theorem pwrite_pread slice_cap fd addr addr' size offset m m1 m2 :
  fd ≠ 0 → fd ≠ 1 → fd ≠ 2 → 0 ≤ offset → 0 < size → i32_ok size →
  writeAt fd addr size offset m = Some (true, m1) → m_regs m1 !!z regRax = Some size →
  readAt slice_cap fd addr' size offset m1 = Some (true, m2) →
  m_regs m2 !!z regRax = Some size ∧
  sublistZ (m_memory m2) addr' (addr' + size) = sublistZ (m_memory m) addr (addr + size) ∧
  ∃ d f f', openDescriptor m fd = Some d ∧ m_files m !!z d_file d = Some f ∧
    m_files m2 !!z d_file d = Some f' ∧ f_Name f' = f_Name f ∧
    lenZ (f_Data f') = Z.max (lenZ (f_Data f)) (offset + size) ∧
    ∀ j, 0 ≤ j < lenZ (f_Data f') → j < offset ∨ offset + size ≤ j →
      f_Data f' !!z j = Some (padded (f_Data f) j).
Proof.
  intros Hf0 Hf1 Hf2 Ho Hs Hi Hw Hrax Hr.
  destruct (writeAt_run _ _ _ _ _ _ Hw) as (d&m0&b&Hd&Hdf&->&Hwf); [done..|].
  destruct (writeFile_run _ _ _ _ _ _ _ _ Hwf) as (f&bytes&data&files&Hf&Hb&Hdata&Hfiles&Hm&Hfds&Hmem);
    [done..|].
  apply sliceZ_inv in Hb as (?&?&?&Hb). cbn in Hb, Hf, Hfds, Hmem, Hfiles.
  assert (lenZ bytes = size) as Hbl by (subst bytes; rewrite sublistZ_length; cbn in *; lia).
  pose proof (writeAll_length _ _ _ _ Hdata) as Hdl. rewrite growData_length in Hdl.
  pose proof (insertZ_lookup_eq _ _ _ _ Hfiles) as Hf'. rewrite <- Hm in Hf'.
  assert (openDescriptor m1 fd = Some d) as Hd1 by (unfold openDescriptor; by rewrite Hfds).
  pose proof (readAt_file _ _ _ _ _ _ _ _ _ Hr Hf0 Hd1 Hdf Hf' Ho) as Ht. cbn [f_Data] in Ht.
  apply readTransfer_run in Ht as (Hrax2&Hfiles2&_&Hwr); [|lia..|done].
  rewrite i32_small in Hrax2 by done.
  split; [done|]. split.
  - assert (sublistZ data offset (offset + size) = bytes) as Hsub.
    { rewrite <- Hbl. by eapply writeAll_slice, Hdata. }
    rewrite Hsub in Hwr. rewrite <- Hb, <- Hbl. eapply writeAll_slice, Hwr.
    eapply writeAll_nonneg; [exact Hwr|]. lia.
  - exists d, f, (MkFile (f_Name f) data (f_Mode f)). cbn.
    split_and!; [done|done|by rewrite Hfiles2|done|lia|].
    intros j Hj Hout. rewrite (writeAll_lookup_out _ _ _ _ _ Hdata) by lia.
    apply growData_lookup. lia.
Qed.

(** A machine with one open file of three bytes, and two bytes of data at 300. *)
Definition fileMachine : machine :=
  set_fds (replicate 3 (Descriptor 0 0 false []) ++ [Descriptor 0 0 true []])
    (set_files [MkFile [97] [1; 2; 3] 0]
      (set_memory (<[300%nat := 7]> (<[301%nat := 8]> (replicate 1024 0)))
        (sampleMachine exit9))).

Lemma pwrite_pread_witness :
  ∃ m1 m2, writeAt 3 300 2 5 fileMachine = Some (true, m1) ∧
    readAt lenZ 3 400 2 5 m1 = Some (true, m2) ∧ m_regs m2 !!z regRax = Some 2 ∧
    sublistZ (m_memory m2) 400 402 = [7; 8].
Proof.
  eexists _, _. split; [vm_compute; reflexivity|]. split; [vm_compute; reflexivity|].
  edestruct (pwrite_pread lenZ 3 300 400 2 5 fileMachine) as (Hrax&Hsub&_);
    [done..|by_decision|vm_compute; reflexivity|vm_compute; reflexivity|vm_compute; reflexivity|].
  split; [exact Hrax|exact Hsub].
Defined.

(** Comparison is exact up to overflow: after the compare instruction on
    registers holding [a] and [b], a condition code tests the comparison it
    stands for, inverted exactly when the code is an order and [a - b] leaves
    the int32 range. *)
Theorem compare_condition slice_cap pc next m m1 r1 r2 a b cond :
  i_code (m_image m) !!z (pc + 1) = Some r1 → m_regs m !!z r1 = Some a →
  i_code (m_image m) !!z (pc + 2) = Some r2 → m_regs m !!z r2 = Some b →
  i32_ok a → i32_ok b →
  stepControl slice_cap opCmpRegReg pc next m = Some (true, m1) →
  condition (m_flag m1) cond =
    xorb (negb (cond =? condEq) && negb (cond =? condNe) &&
          negb ((- 2 ^ 31 <=? a - b) && (a - b <? 2 ^ 31)))
         (compareSpec cond a b).
Proof.
  intros Hr1 Ha Hr2 Hb Hai Hbi H. cbn in H.
  assert (m_flag m1 = i32 (a - b)) as ->.
  { unfold regAt, codeByte, reg, mbind, GoM_bind, get, lift in H.
    rewrite Hr1, Ha, Hr2, Hb in H. by injection H as <-. }
  unfold condition, compareSpec, condEq, condNe, condLt, condLe, condGt, i32_ok in *.
  assert (i32 (a - b) = a - b ∧ - 2 ^ 31 ≤ a - b < 2 ^ 31 ∨
    i32 (a - b) = a - b - 2 ^ 32 ∧ 2 ^ 31 ≤ a - b ∨
    i32 (a - b) = a - b + 2 ^ 32 ∧ a - b < - 2 ^ 31) as Hi.
  { unfold i32. Z.div_mod_to_equations. lia. }
  assert (∀ o c c', (o = true → c = negb c') → (o = false → c = c') → c = xorb o c') as Hxor.
  { intros [] c c' H1 H2; [rewrite (H1 eq_refl)|rewrite (H2 eq_refl)]; by destruct c'. }
  apply Hxor; intros Ho; repeat case_match; lia.
Qed.

Lemma compare_condition_witness :
  ∃ m1, stepControl lenZ opCmpRegReg 0 3
          (initialMachine (Image [34; 0; 1; 1] [] 256 256 0 [Routine 0 0 false])
             sampleConfig (replicate 1024 0)) = Some (true, m1) ∧
    condition (m_flag m1) condLe = true.
Proof.
  eexists. split; [vm_compute; reflexivity|].
  rewrite (compare_condition lenZ 0 3
    (initialMachine (Image [34; 0; 1; 1] [] 256 256 0 [Routine 0 0 false])
       sampleConfig (replicate 1024 0)) _ 0 1 0 0 condLe); try reflexivity; by_decision.
Defined.

(** Division and remainder on int32 satisfy the division identity modulo
    2^32, the remainder smaller than the divisor and signed as the dividend,
    the overflowing quotient included; a zero divisor traps. *)
Theorem division_spec left right :
  i32_ok left → i32_ok right →
  (right = 0 → binaryOp opDivRegReg left right = inr TrapDivisionByZero ∧
               binaryOp opModRegReg left right = inr TrapDivisionByZero) ∧
  (right ≠ 0 → ∃ q r,
     binaryOp opDivRegReg left right = inl q ∧ binaryOp opModRegReg left right = inl r ∧
     i32_ok q ∧ i32_ok r ∧ i32 (q * right + r) = left ∧ Z.abs r < Z.abs right ∧
     (r = 0 ∨ Z.sgn r = Z.sgn left)).
Proof.
  intros Hl Hr. split; [by intros ->|]. intros Hne.
  change (binaryOp opDivRegReg left right) with
    (if right =? 0 then inr TrapDivisionByZero
     else if (left =? -2147483647 - 1) && (right =? -1) then inl left
     else inl (Z.quot left right) : Z + Z).
  change (binaryOp opModRegReg left right) with
    (if right =? 0 then inr TrapDivisionByZero
     else if (left =? -2147483647 - 1) && (right =? -1) then inl 0
     else inl (Z.rem left right) : Z + Z).
  rewrite (proj2 (Z.eqb_neq right 0)) by done.
  destruct ((left =? -2147483647 - 1) && (right =? -1)) eqn:Hov.
  - exists left, 0. assert (left = - 2 ^ 31 ∧ right = -1) as [-> ->] by lia.
    split_and!; try done; by_decision || (by left).
  - exists (Z.quot left right), (Z.rem left right). split_and!; try done.
    + apply i32_ok_quot; [lia|done..].
    + apply i32_ok_rem; [lia|done..].
    + rewrite Z.mul_comm, <- Z.quot_rem' by done. by apply i32_small.
    + by apply Z.rem_bound_abs.
    + destruct (decide (Z.rem left right = 0)); [by left|right]. by apply Z.rem_sign_nz.
Qed.

Lemma division_spec_witness :
  ∃ q r, binaryOp opDivRegReg (- 2 ^ 31) (-1) = inl q ∧
    binaryOp opModRegReg (- 2 ^ 31) (-1) = inl r ∧ i32 (q * -1 + r) = - 2 ^ 31.
Proof.
  destruct (division_spec (- 2 ^ 31) (-1)) as [_ H]; [by_decision..|].
  destruct H as (q&r&?&?&_&_&?&_); [done|]. eauto.
Defined.

(** A directory listing is exact and ordered: its entries are strictly
    increasing in name (so distinct), they are the next path components of the
    files below the directory, and an entry is a directory exactly when some
    file lies below it. *)
Theorem directoryEntries_spec files name :
  let entries := directoryEntries files name in
  StronglySorted entryLess entries ∧
  (∀ c, listed entries c ↔
    ∃ f isDir, f ∈ files ∧ child_of (directoryPrefix name) (f_Name f) c isDir) ∧
  (∀ c, listed_dir entries c ↔
    ∃ f, f ∈ files ∧ child_of (directoryPrefix name) (f_Name f) c true).
Proof.
  cbv zeta. unfold directoryEntries.
  destruct (addFiles_spec (directoryPrefix name) files [] ltac:(constructor)) as (?&Hl&Hd).
  split_and!; [done|..]; intros c.
  - rewrite Hl. split; [|by right]. by intros [?%listed_nil|?].
  - rewrite Hd. split; [|by right]. by intros [?%listed_dir_nil|?].
Qed.
