(* ===== verification/WireReader.v ===== *)
(** The primitive encodings of the unit format (backend/unit/unit.go): variable
    length integers, strings, nullable and signed values, spans and field lists,
    with the readers that invert them.

    A reader takes the data and a position.  Its result is a value and the next
    position, the failure the Go code reports ([ok == false] or a non-nil error),
    or the run-time panic of an index expression. *)

From S2P Require Import Prelude.
From S2P Require Import GoInt.

(** * Results *)

Inductive res (A : Type) :=
  | Ok (a : A)
  | Err
  | Panic.
Arguments Ok {A} _.
Arguments Err {A}.
Arguments Panic {A}.

#[export] Instance res_ret : MRet res := λ A, Ok.
#[export] Instance res_bind : MBind res := λ A B f r,
  match r with Ok a => f a | Err => Err | Panic => Panic end.

(** An index expression: out of range is a panic. *)
Definition index {A} (o : option A) : res A :=
  match o with Some a => Ok a | None => Panic end.

(** [if !cond { return err }] *)
Definition check (b : bool) : res unit := if b then Ok tt else Err.

Definition Reader (A : Type) := list Z → Z → res (A * Z).

#[export] Instance Reader_ret : MRet Reader := λ A a data pos, Ok (a, pos).
#[export] Instance Reader_bind : MBind Reader := λ A B f rd data pos,
  match rd data pos with
  | Ok (a, next) => f a data next
  | Err => Err
  | Panic => Panic
  end.

(** [if cond { return err }] inside a reader. *)
Definition reject (b : bool) : Reader unit := λ data pos, if b then Err else Ok (tt, pos).

(** The loop [for i := 0; i < count; i++ { ...; out = append(out, item) }]. *)
Fixpoint readLoop {A} (n : nat) (rd : Reader A) (out : list A) : Reader (list A) :=
  match n with
  | O => mret out
  | S n => item ← rd; readLoop n rd (out ++ [item])
  end.

(** * Writing *)

(** [for v >= 0x80 { out = append(out, byte(v)|0x80); v = v >> 7 }] and the final
    byte; one iteration per seven bits, so the bit length of [v] is fuel enough. *)
Fixpoint appendVarint_loop (fuel : nat) (out : list Z) (v : Z) : list Z :=
  match fuel with
  | O => out
  | S fuel =>
      if 128 <=? v then appendVarint_loop fuel (out ++ [Z.lor (u8 v) 128]) (Z.shiftr v 7)
      else out ++ [u8 v]
  end.

Definition appendVarint (out : list Z) (v : Z) : list Z :=
  appendVarint_loop (S (Z.to_nat (Z.log2 v))) out v.

Definition appendString (out text : list Z) : list Z :=
  appendVarint out (lenZ text) ++ text.

Definition appendNullable (out : list Z) (v : Z) : list Z := appendVarint out (v + 1).

Definition appendSigned (out : list Z) (v : Z) : list Z :=
  if v <? 0 then appendVarint out (- v * 2 - 1) else appendVarint out (v * 2).

Definition appendBool (out : list Z) (b : bool) : list Z :=
  if b then appendVarint out 1 else appendVarint out 0.

Definition appendFixed32 (out : list Z) (value : Z) : list Z :=
  out ++ [u8 value; u8 (Z.shiftr value 8); u8 (Z.shiftr value 16); u8 (Z.shiftr value 24)].

Record ExprSpan := MkExprSpan { es_StartTok : Z; es_EndTok : Z }.

Definition appendSpan (out : list Z) (span : ExprSpan) : list Z :=
  let out := appendVarint out (es_StartTok span) in
  appendVarint out (es_EndTok span - es_StartTok span).

Definition appendSpanList (out : list Z) (spans : list ExprSpan) : list Z :=
  foldl appendSpan (appendVarint out (lenZ spans)) spans.

Definition appendNullableSpan (out : list Z) (start end_ : Z) : list Z :=
  if (start <? 0) && (end_ <? 0) then appendVarint out 0
  else appendVarint (appendVarint out (start + 1)) (end_ - start).

Record Field := MkField {
  fd_NameTok : Z; fd_TypeStart : Z; fd_TypeEnd : Z; fd_Variadic : bool
}.

Definition appendField (out : list Z) (field : Field) : list Z :=
  let out := appendNullable out (fd_NameTok field) in
  let out := appendVarint out (fd_TypeStart field) in
  let out := appendVarint out (fd_TypeEnd field - fd_TypeStart field) in
  appendBool out (fd_Variadic field).

Definition appendFieldList (out : list Z) (fields : list Field) : list Z :=
  foldl appendField (appendVarint out (lenZ fields)) fields.

(** * Reading *)

(** The loop condition [pos < len(data) && shift <= 28] admits five iterations. *)
Fixpoint readVarint_loop (fuel : nat) (value shift : Z) : Reader Z := λ data pos,
  match fuel with
  | O => Err
  | S fuel =>
      if (pos <? lenZ data) && (shift <=? 28) then
        match data !!z pos with
        | None => Panic
        | Some b =>
            let pos := pos + 1 in
            if (28 <=? shift) && (16 <=? b) then Err
            else
              let value := Z.lor value (Z.shiftl (Z.land b 127) shift) in
              if b <? 128 then
                if (0 <? shift) && (b =? 0) then Err else Ok (value, pos)
              else readVarint_loop fuel value (shift + 7) data pos
        end
      else Err
  end.

Definition readVarint : Reader Z := readVarint_loop 6 0 0.

Definition readNullable : Reader Z := value ← readVarint; mret (value - 1).

(** A length-prefixed byte string. *)
Definition readString : Reader (list Z) := λ data pos,
  match readVarint data pos with
  | Ok (size, next) =>
      let end_ := next + size in
      if (end_ <? next) || (lenZ data <? end_) then Err
      else text ← index (sliceZ data next end_); Ok (text, end_)
  | Err => Err
  | Panic => Panic
  end.

Definition readSigned : Reader Z :=
  value ← readVarint;
  mret (if Z.land value 1 =? 1 then - (value `quot` 2) - 1 else value `quot` 2).

(** A flag: [value, n, ok := readVarint(...); if !ok || value > 1 { error }]. *)
Definition readBool : Reader bool :=
  value ← readVarint; _ ← reject (1 <? value); mret (value =? 1).

Definition readFixed32 : Reader Z := λ data pos,
  a ← index (data !!z pos); b ← index (data !!z (pos + 1));
  c ← index (data !!z (pos + 2)); d ← index (data !!z (pos + 3));
  Ok (le32 a b c d, pos + 4).

Definition readSpan : Reader ExprSpan :=
  startTok ← readVarint;
  tokCount ← readVarint;
  mret (MkExprSpan startTok (startTok + tokCount)).

Definition readSpanList : Reader (list ExprSpan) :=
  count ← readVarint; readLoop (Z.to_nat count) readSpan [].

Definition readField : Reader Field :=
  nameTok ← readNullable;
  typeStart ← readVarint;
  typeCount ← readVarint;
  variadic ← readBool;
  mret (MkField nameTok typeStart (typeStart + typeCount) variadic).

Definition readFieldList : Reader (list Field) :=
  count ← readVarint; readLoop (Z.to_nat count) readField [].

Definition readNullableSpan : Reader (Z * Z) :=
  encodedStart ← readVarint;
  if encodedStart =? 0 then mret (-1, -1)
  else
    count ← readVarint;
    let start := encodedStart - 1 in
    mret (start, start + count).

(** A whole table: a count, that many records, and no trailing data. *)
Definition readTable {A} (rd : Reader A) (data : list Z) : res (list A) :=
  '(count, next) ← readVarint data 0;
  '(items, pos) ← readLoop (Z.to_nat count) rd [] data next;
  if negb (pos =? lenZ data) then Err else Ok items.
