(* ===== verification/WireFacts.v ===== *)
(** Round trips of the primitive encodings: a typeclass of readers that invert a
    writer, and its instances. *)

From S2P Require Import Prelude.
From S2P Require Import GoInt.
From S2P Require Import WireReader.

(** * Writers as appended bytes *)

Definition varint (v : Z) : list Z := appendVarint [] v.

#[global] Arguments varint : simpl never.
#[global] Arguments appendVarint : simpl never.
#[global] Arguments readVarint : simpl never.

Lemma appendVarint_loop_app fuel out v :
  appendVarint_loop fuel out v = out ++ appendVarint_loop fuel [] v.
Proof.
  revert out v. induction fuel as [|fuel IH]; intros out v; simpl; [by rewrite app_nil_r|].
  destruct (128 <=? v); [|done]. rewrite IH, (IH [_]). by rewrite <- app_assoc.
Qed.

Lemma appendVarint_app out v : appendVarint out v = out ++ varint v.
Proof. apply appendVarint_loop_app. Qed.

Lemma varint_small v : v < 128 → varint v = [u8 v].
Proof. intros. unfold varint, appendVarint. simpl. by rewrite (proj2 (Z.leb_gt 128 v)). Qed.

(** More fuel than the bit length changes nothing. *)
Lemma appendVarint_loop_fuel fuel fuel' out v :
  v < 2 ^ Z.of_nat fuel → v < 2 ^ Z.of_nat fuel' → (0 < fuel)%nat → (0 < fuel')%nat →
  appendVarint_loop fuel out v = appendVarint_loop fuel' out v.
Proof.
  revert fuel' out v. induction fuel as [|fuel IH]; intros [|fuel'] out v H H' ??; try lia.
  simpl. destruct (Z.leb_spec 128 v) as [Hv|]; [|done].
  rewrite Nat2Z.inj_succ, Z.pow_succ_r in H, H' by lia.
  assert (Z.shiftr v 7 < 2 ^ Z.of_nat fuel ∧ Z.shiftr v 7 < 2 ^ Z.of_nat fuel') as [??].
  { rewrite Z.shiftr_div_pow2 by lia. split; apply Z.div_lt_upper_bound; lia. }
  apply IH; [done|done|..].
  - destruct fuel; [simpl in *; lia|lia].
  - destruct fuel'; [simpl in *; lia|lia].
Qed.

Lemma log2_fuel v : v < 2 ^ Z.of_nat (S (Z.to_nat (Z.log2 v))).
Proof.
  rewrite Nat2Z.inj_succ, Z2Nat.id by apply Z.log2_nonneg.
  destruct (decide (0 < v)); [by apply Z.log2_spec|].
  pose proof (Z.log2_nonneg v). assert (0 < 2 ^ Z.succ (Z.log2 v)) by (apply Z.pow_pos_nonneg; lia).
  lia.
Qed.

Lemma varint_big v : 128 ≤ v → varint v = Z.lor (u8 v) 128 :: varint (Z.shiftr v 7).
Proof.
  intros Hv. unfold varint, appendVarint at 1. simpl.
  rewrite (proj2 (Z.leb_le 128 v)) by done. rewrite appendVarint_loop_app. simpl. f_equal.
  unfold appendVarint. pose proof (log2_fuel v) as Hl. pose proof (Z.log2_nonneg v).
  assert (7 ≤ Z.log2 v) by (change 7 with (Z.log2 128); by apply Z.log2_le_mono).
  rewrite Nat2Z.inj_succ, Z2Nat.id, Z.pow_succ_r in Hl by lia.
  apply appendVarint_loop_fuel; [|apply log2_fuel|lia|lia].
  rewrite Z2Nat.id, Z.shiftr_div_pow2 by lia. apply Z.div_lt_upper_bound; lia.
Qed.

(** Induction on the number of groups of seven bits. *)
Lemma varint_ind (P : Z → Prop) :
  (∀ v, v < 128 → P v) → (∀ v, 128 ≤ v → P (Z.shiftr v 7) → P v) → ∀ v, P v.
Proof.
  intros Hs Hb v. destruct (decide (v < 128)); [by apply Hs|].
  assert (∀ n v, (Z.to_nat v < n)%nat → P v) as Hind; [|by apply (Hind (S (Z.to_nat v))); lia].
  intros k. induction k as [|k IH]; [lia|]. intros w Hw.
  destruct (decide (w < 128)); [by apply Hs|]. apply Hb; [lia|]. apply IH.
  rewrite Z.shiftr_div_pow2 by lia. assert (w `div` 2 ^ 7 < w) by (apply Z.div_lt; lia).
  assert (0 ≤ w `div` 2 ^ 7) by (apply Z.div_pos; lia). lia.
Qed.

Lemma varint_ok v : bytes_ok (varint v).
Proof.
  induction v as [v Hv|v Hv IH] using varint_ind.
  - rewrite varint_small by done. by repeat constructor; apply u8_range.
  - rewrite varint_big by done. constructor; [|done]. pose proof (u8_range v).
    unfold byte_ok in *. split; [apply Z.lor_nonneg; lia|].
    apply Z.log2_lt_cancel. rewrite Z.log2_lor by lia.
    assert (Z.log2 (u8 v) ≤ 7) by (apply (Z.log2_le_mono _ 255); lia). simpl. lia.
Qed.

(** The seven low bits of a continued byte. *)
Lemma continued_low v : Z.land (Z.lor (u8 v) 128) 127 = v `mod` 128.
Proof.
  change 127 with (Z.ones 7). rewrite Z.land_ones by lia. apply Z.bits_inj'. intros i Hi.
  change 128 with (2 ^ 7). destruct (decide (i < 7)).
  - rewrite !Z.mod_pow2_bits_low by lia. rewrite Z.lor_spec. unfold u8.
    rewrite Z.mod_pow2_bits_low by lia. rewrite Z.pow2_bits_false by lia. apply orb_false_r.
  - by rewrite !Z.mod_pow2_bits_high by lia.
Qed.

Lemma continued_high v : 128 ≤ Z.lor (u8 v) 128.
Proof.
  pose proof (u8_range v). unfold byte_ok in *.
  assert (Z.ldiff 128 (Z.lor (u8 v) 128) = 0) as Hd.
  { apply Z.bits_inj'. intros i Hi. rewrite Z.ldiff_spec, Z.lor_spec, Z.bits_0.
    by destruct (Z.testbit 128 i), (Z.testbit (u8 v) i). }
  apply Z.ldiff_le in Hd; [lia|]. apply Z.lor_nonneg. lia.
Qed.

(** * Readers that invert writers *)

(** [rd] reads [a] from exactly the bytes [bs], wherever they occur. *)
Definition reads {A} (rd : Reader A) (bs : list Z) (a : A) : Prop :=
  ∀ pre post, rd (pre ++ bs ++ post) (lenZ pre) = Ok (a, lenZ pre + lenZ bs).

Lemma reads_ret {A} (a : A) : reads (mret a) [] a.
Proof. intros pre post. unfold mret, Reader_ret. rewrite lenZ_nil. by rewrite Z.add_0_r. Qed.

Lemma reads_bind {A B} (rd : Reader A) (f : A → Reader B) bs bs' a b :
  reads rd bs a → reads (f a) bs' b → reads (rd ≫= f) (bs ++ bs') b.
Proof.
  intros Ha Hb pre post. unfold mbind, Reader_bind. rewrite <- app_assoc, Ha.
  rewrite app_assoc. rewrite <- lenZ_app, Hb. f_equal. f_equal. rewrite !lenZ_app. lia.
Qed.

Lemma reads_reject {A} (b : bool) (rd : Reader A) bs a :
  b = false → reads rd bs a → reads (_ ← reject b; rd) bs a.
Proof. intros -> H pre post. unfold mbind, Reader_bind, reject. apply H. Qed.

Lemma reads_varint_loop fuel v value shift :
  0 ≤ v → 0 ≤ shift → 0 ≤ value < 2 ^ shift → v < 2 ^ (32 - shift) → shift ≤ 28 →
  shift `mod` 7 = 0 → 35 ≤ shift + 7 * Z.of_nat fuel → (shift = 0 ∨ 0 < v) →
  reads (readVarint_loop fuel value shift) (varint v) (value + v * 2 ^ shift).
Proof.
  revert value shift fuel. induction v as [v Hv|v Hv IH] using varint_ind;
    intros value shift [|fuel] H0 Hs Hvalue Hlt Hs28 Hmod Hfuel Hnz pre post; try lia.
  - rewrite varint_small by done. simpl.
    rewrite u8_small by (unfold byte_ok; lia).
    assert (lenZ pre < lenZ (pre ++ v :: post)) as Hpos.
    { autorewrite with lenZ. pose proof (lenZ_nonneg post). lia. }
    rewrite (proj2 (Z.ltb_lt _ _) Hpos), (proj2 (Z.leb_le shift 28)) by lia. cbn [andb].
    rewrite lookupZ_app_r, Z.sub_diag by lia. rewrite lookupZ_cons_0.
    assert ((28 <=? shift) && (16 <=? v) = false) as ->.
    { destruct (decide (shift = 28)) as [->|]; [simpl in Hlt|]; lia. }
    rewrite (proj2 (Z.ltb_lt v 128)) by done.
    assert ((0 <? shift) && (v =? 0) = false) as -> by lia.
    change 127 with (Z.ones 7). rewrite Z.land_ones, Z.mod_small by lia.
    by rewrite lor_shiftl_add by lia.
  - rewrite varint_big by done. cbn [readVarint_loop app].
    set (b := Z.lor (u8 v) 128). set (rest := varint _ ++ post).
    assert (shift ≤ 21) as Hs21.
    { assert (2 ^ 7 < 2 ^ (32 - shift)) as Hp by (change (2 ^ 7) with 128; lia).
      apply Z.pow_lt_mono_r_iff in Hp; [|lia..]. Z.div_mod_to_equations. lia. }
    assert (lenZ pre < lenZ (pre ++ b :: rest)) as Hpos.
    { autorewrite with lenZ. pose proof (lenZ_nonneg rest). lia. }
    rewrite (proj2 (Z.ltb_lt _ _) Hpos), (proj2 (Z.leb_le shift 28)) by lia. cbn [andb].
    rewrite lookupZ_app_r, Z.sub_diag by lia. rewrite lookupZ_cons_0.
    pose proof (continued_high v) as Hhigh. fold b in Hhigh.
    assert ((28 <=? shift) && (16 <=? b) = false) as -> by lia.
    rewrite (proj2 (Z.ltb_ge b 128)) by done.
    unfold b at 1. rewrite continued_low. cbv zeta.
    pose proof (Z.mod_pos_bound v 128 ltac:(lia)) as Hm.
    rewrite lor_shiftl_add by lia.
    replace (pre ++ b :: rest) with ((pre ++ [b]) ++ varint (Z.shiftr v 7) ++ post)
      by (unfold rest; by rewrite <- app_assoc).
    replace (lenZ pre + 1) with (lenZ (pre ++ [b])) by (autorewrite with lenZ; lia).
    rewrite IH.
    + f_equal. f_equal; [|autorewrite with lenZ; lia].
      rewrite Z.pow_add_r by lia. rewrite Z.shiftr_div_pow2 by lia. change (2 ^ 7) with 128.
      rewrite (Z.div_mod v 128) at 3 by lia. ring.
    + rewrite Z.shiftr_div_pow2 by lia. apply Z.div_pos; lia.
    + lia.
    + rewrite Z.pow_add_r by lia. assert (0 < 2 ^ shift) by (apply Z.pow_pos_nonneg; lia). nia.
    + rewrite Z.shiftr_div_pow2 by lia. apply Z.div_lt_upper_bound; [lia|].
      rewrite <- Z.pow_add_r by lia. by replace (7 + (32 - (shift + 7))) with (32 - shift) by lia.
    + lia.
    + Z.div_mod_to_equations. lia.
    + lia.
    + right. rewrite Z.shiftr_div_pow2 by lia. apply Z.div_str_pos. lia.
Qed.

Lemma reads_varint v : u32_ok v → reads readVarint (varint v) v.
Proof.
  intros Hv. unfold u32_ok in Hv.
  replace v with (0 + v * 2 ^ 0) at 2 by lia. apply reads_varint_loop; try lia; done.
Qed.

(** A value already known to be read, under an equation. *)
Lemma reads_eq {A} (rd : Reader A) bs bs' a a' :
  reads rd bs a → bs = bs' → a = a' → reads rd bs' a'.
Proof. by intros ? <- <-. Qed.

Lemma reads_whole {A} (rd : Reader A) bs a : reads rd bs a → rd bs 0 = Ok (a, lenZ bs).
Proof. intros H. pose proof (H [] []) as H0. by rewrite app_nil_r in H0. Qed.

(** [readTable] is the counted list, followed by the end of the data. *)
Lemma readTable_counted {A} (rd : Reader A) data :
  readTable rd data =
    match (count ← readVarint; readLoop (Z.to_nat count) rd []) data 0 with
    | Ok (items, pos) => if negb (pos =? lenZ data) then Err else Ok items
    | Err => Err
    | Panic => Panic
    end.
Proof.
  unfold readTable, mbind, Reader_bind, res_bind.
  destruct (readVarint data 0) as [[count next]| |]; [|done..].
  by destruct (readLoop _ _ _ _ _) as [[items pos]| |].
Qed.

(** * Codecs *)

(** A record format: what a writer appends, a reader inverts. *)
Class Codec (A : Type) := {
  codec_ok : A → Prop;
  codec_append : list Z → A → list Z;
  codec_read : Reader A;
  codec_app out a : codec_append out a = out ++ codec_append [] a;
  codec_reads a : codec_ok a → reads codec_read (codec_append [] a) a
}.

Create HintDb wire.
Create Rewrite HintDb wire.

Lemma reads_ret_eq {A} (a b : A) : a = b → reads (mret a) [] b.
Proof. intros ->. apply reads_ret. Qed.

Section Lists.
Context {A : Type} `{Codec A}.

Lemma foldl_append out items :
  foldl codec_append out items = out ++ foldl codec_append [] items.
Proof.
  revert out. induction items as [|a items IH]; intros out; simpl; [by rewrite app_nil_r|].
  rewrite IH, codec_app, (IH (codec_append [] a)). by rewrite <- app_assoc.
Qed.

Lemma reads_loop acc items :
  Forall codec_ok items →
  reads (readLoop (length items) codec_read acc) (foldl codec_append [] items) (acc ++ items).
Proof.
  intros Hok. revert acc. induction Hok as [|a items Ha _ IH]; intros acc; cbn.
  { apply reads_ret_eq. by rewrite app_nil_r. }
  rewrite foldl_append. eapply reads_bind; [by apply codec_reads|].
  replace (acc ++ a :: items) with ((acc ++ [a]) ++ items) by by rewrite <- app_assoc. apply IH.
Qed.

(** A counted list: the pattern of [readSpanList] and [readFieldList]. *)
Lemma reads_counted items :
  Forall codec_ok items → u32_ok (lenZ items) →
  reads (count ← readVarint; readLoop (Z.to_nat count) codec_read [])
    (varint (lenZ items) ++ foldl codec_append [] items) items.
Proof.
  intros Hok Hlen. eapply reads_bind; [by apply reads_varint|].
  unfold lenZ. rewrite Nat2Z.id. by apply reads_loop.
Qed.

(** A whole table reads back. *)
Lemma table_roundtrip items :
  Forall codec_ok items → u32_ok (lenZ items) →
  readTable codec_read (foldl codec_append (appendVarint [] (lenZ items)) items) = Ok items.
Proof.
  intros Hok Hlen. rewrite foldl_append. fold (varint (lenZ items)).
  rewrite readTable_counted, (reads_whole _ _ _ (reads_counted _ Hok Hlen)).
  by rewrite Z.eqb_refl.
Qed.
End Lists.
