(* ===== verification/WireTables.v ===== *)
(** The tables of the unit format (backend/unit/unit.go): one record type, one
    writer and one reader per table.  The writer of a record is the body of the
    loop of its encoder; the reader is the body of the loop of its decoder, whose
    count, loop and trailing-data check are [readTable]. *)

From S2P Require Import Prelude.
From S2P Require Import GoInt.
From S2P Require Import WireReader.

(** [if next+n > len(data) { return error }] *)
Definition need (n : Z) : Reader unit := λ data pos,
  if lenZ data <? pos + n then Err else Ok (tt, pos).

(** ** Declaration records *)

Record Decl := MkDecl {
  dc_Kind : Z; dc_NameStart : Z; dc_NameEnd : Z; dc_StartTok : Z; dc_EndTok : Z
}.

Definition appendDecl (out : list Z) (item : Decl) : list Z :=
  let out := appendVarint out (dc_Kind item) in
  let out := appendVarint out (dc_NameStart item) in
  let out := appendVarint out (dc_NameEnd item - dc_NameStart item) in
  let out := appendVarint out (dc_StartTok item) in
  appendVarint out (dc_EndTok item - dc_StartTok item).

Definition encodeDecls (items : list Decl) : list Z :=
  foldl appendDecl (appendVarint [] (lenZ items)) items.

(** The loop body of [decodeDecls]. *)
Definition readDecl : Reader Decl :=
  kind ← readVarint;
  nameStart ← readVarint;
  nameSize ← readVarint;
  startTok ← readVarint;
  tokCount ← readVarint;
  mret (MkDecl
    kind nameStart (nameStart + nameSize) startTok (startTok + tokCount)).

Definition decodeDecls : list Z → res (list Decl) := readTable readDecl.

(** ** Symbol records *)

Record Symbol := MkSymbol {
  sy_Name : list Z; sy_Kind : Z; sy_Package : Z; sy_Token : Z; sy_OwnerKind : Z;
  sy_OwnerIndex : Z
}.

Definition appendSymbol (out : list Z) (item : Symbol) : list Z :=
  let out := appendString out (sy_Name item) in
  let out := appendVarint out (sy_Kind item) in
  let out := appendNullable out (sy_Package item) in
  let out := appendVarint out (sy_Token item) in
  let out := appendVarint out (sy_OwnerKind item) in
  appendVarint out (sy_OwnerIndex item).

Definition encodeSymbols (items : list Symbol) : list Z :=
  foldl appendSymbol (appendVarint [] (lenZ items)) items.

(** The loop body of [decodeSymbols]. *)
Definition readSymbol : Reader Symbol :=
  name ← readString;
  kind ← readVarint;
  package ← readNullable;
  token ← readVarint;
  ownerKind ← readVarint;
  ownerIndex ← readVarint;
  mret (MkSymbol
    name kind package token ownerKind ownerIndex).

Definition decodeSymbols : list Z → res (list Symbol) := readTable readSymbol.

(** ** Declaration metadata records *)

Record DeclMeta := MkDeclMeta {
  dm_DeclIndex : Z; dm_Symbol : Z; dm_ValueIndex : Z; dm_TypeStart : Z; dm_TypeEnd : Z;
  dm_ValueStart : Z; dm_ValueEnd : Z; dm_Values : list ExprSpan; dm_Alias : bool
}.

Definition appendDeclMeta (out : list Z) (item : DeclMeta) : list Z :=
  let out := appendVarint out (dm_DeclIndex item) in
  let out := appendNullable out (dm_Symbol item) in
  let out := appendVarint out (dm_ValueIndex item) in
  let out := appendBool out (dm_Alias item) in
  let out := appendNullableSpan out (dm_TypeStart item) (dm_TypeEnd item) in
  let out := appendNullableSpan out (dm_ValueStart item) (dm_ValueEnd item) in
  appendSpanList out (dm_Values item).

Definition encodeDeclMeta (items : list DeclMeta) : list Z :=
  foldl appendDeclMeta (appendVarint [] (lenZ items)) items.

(** The loop body of [decodeDeclMeta]. *)
Definition readDeclMeta : Reader DeclMeta :=
  declIndex ← readVarint;
  symbol ← readNullable;
  valueIndex ← readVarint;
  alias ← readBool;
  '(typeStart, typeEnd) ← readNullableSpan;
  '(valueStart, valueEnd) ← readNullableSpan;
  values ← readSpanList;
  mret (MkDeclMeta
    declIndex symbol valueIndex typeStart typeEnd valueStart valueEnd values alias).

Definition decodeDeclMeta : list Z → res (list DeclMeta) := readTable readDeclMeta.

(** ** Function records *)

Record Func := MkFunc {
  fn_NameStart : Z; fn_NameEnd : Z; fn_StartTok : Z; fn_NameTok : Z; fn_ReceiverStart : Z;
  fn_ReceiverEnd : Z; fn_BodyStart : Z; fn_BodyEnd : Z; fn_EndTok : Z
}.

Definition appendFunc (out : list Z) (item : Func) : list Z :=
  let out := appendVarint out (fn_NameStart item) in
  let out := appendVarint out (fn_NameEnd item - fn_NameStart item) in
  let out := appendVarint out (fn_StartTok item) in
  let out := appendVarint out (fn_NameTok item - fn_StartTok item) in
  let out := appendVarint out (fn_ReceiverStart item) in
  let out := appendVarint out (fn_ReceiverEnd item - fn_ReceiverStart item) in
  let out := appendVarint out (fn_BodyStart item) in
  let out := appendVarint out (fn_BodyEnd item - fn_BodyStart item) in
  appendVarint out (fn_EndTok item - fn_BodyEnd item).

Definition encodeFuncs (items : list Func) : list Z :=
  foldl appendFunc (appendVarint [] (lenZ items)) items.

(** The loop body of [decodeFuncs]. *)
Definition readFunc : Reader Func :=
  nameStart ← readVarint;
  nameSize ← readVarint;
  startTok ← readVarint;
  nameTokDelta ← readVarint;
  receiverStart ← readVarint;
  receiverCount ← readVarint;
  bodyStart ← readVarint;
  bodyCount ← readVarint;
  endCount ← readVarint;
  mret (MkFunc
    nameStart (nameStart + nameSize) startTok (startTok + nameTokDelta) receiverStart
    (receiverStart + receiverCount) bodyStart (bodyStart + bodyCount)
    (bodyStart + bodyCount + endCount)).

Definition decodeFuncs : list Z → res (list Func) := readTable readFunc.

(** ** Signature records *)

Record FuncSignature := MkFuncSignature {
  sg_FuncIndex : Z; sg_Receiver : list Field; sg_Params : list Field; sg_Results : list Field
}.

Definition appendFuncSignature (out : list Z) (item : FuncSignature) : list Z :=
  let out := appendVarint out (sg_FuncIndex item) in
  let out := appendFieldList out (sg_Receiver item) in
  let out := appendFieldList out (sg_Params item) in
  appendFieldList out (sg_Results item).

Definition encodeSignatures (items : list FuncSignature) : list Z :=
  foldl appendFuncSignature (appendVarint [] (lenZ items)) items.

(** The loop body of [decodeSignatures]. *)
Definition readFuncSignature : Reader FuncSignature :=
  funcIndex ← readVarint;
  receiver ← readFieldList;
  params ← readFieldList;
  results ← readFieldList;
  mret (MkFuncSignature
    funcIndex receiver params results).

Definition decodeSignatures : list Z → res (list FuncSignature) := readTable readFuncSignature.

(** ** Statement records *)

Record Statement := MkStatement {
  st_FuncIndex : Z; st_Kind : Z; st_StartTok : Z; st_EndTok : Z; st_ExprStart : Z;
  st_ExprEnd : Z; st_BodyStart : Z; st_BodyEnd : Z; st_ElseStart : Z; st_ElseEnd : Z
}.

Definition appendStatement (out : list Z) (item : Statement) : list Z :=
  let out := appendVarint out (st_FuncIndex item) in
  let out := appendVarint out (st_Kind item) in
  let out := appendVarint out (st_StartTok item) in
  let out := appendVarint out (st_EndTok item - st_StartTok item) in
  let out := appendNullableSpan out (st_ExprStart item) (st_ExprEnd item) in
  let out := appendNullableSpan out (st_BodyStart item) (st_BodyEnd item) in
  appendNullableSpan out (st_ElseStart item) (st_ElseEnd item).

Definition encodeStatements (items : list Statement) : list Z :=
  foldl appendStatement (appendVarint [] (lenZ items)) items.

(** The loop body of [decodeStatements]. *)
Definition readStatement : Reader Statement :=
  funcIndex ← readVarint;
  kind ← readVarint;
  startTok ← readVarint;
  tokCount ← readVarint;
  '(exprStart, exprEnd) ← readNullableSpan;
  '(bodyStart, bodyEnd) ← readNullableSpan;
  '(elseStart, elseEnd) ← readNullableSpan;
  mret (MkStatement
    funcIndex kind startTok (startTok + tokCount) exprStart exprEnd bodyStart bodyEnd elseStart
    elseEnd).

Definition decodeStatements : list Z → res (list Statement) := readTable readStatement.

(** ** Type records *)

Record TypeInfo := MkTypeInfo {
  ti_NameStart : Z; ti_NameEnd : Z; ti_Kind : Z; ti_Decl : Z; ti_Symbol : Z; ti_Alias : bool;
  ti_TypeStart : Z; ti_TypeEnd : Z; ti_LenStart : Z; ti_LenEnd : Z; ti_KeyStart : Z;
  ti_KeyEnd : Z; ti_ElemStart : Z; ti_ElemEnd : Z
}.

Definition appendTypeInfo (out : list Z) (item : TypeInfo) : list Z :=
  let out := appendVarint out (ti_Kind item) in
  let out := appendVarint out (ti_NameStart item) in
  let out := appendVarint out (ti_NameEnd item - ti_NameStart item) in
  let out := appendVarint out (ti_Decl item) in
  let out := appendNullable out (ti_Symbol item) in
  let out := appendBool out (ti_Alias item) in
  let out := appendNullableSpan out (ti_TypeStart item) (ti_TypeEnd item) in
  let out := appendNullableSpan out (ti_LenStart item) (ti_LenEnd item) in
  let out := appendNullableSpan out (ti_KeyStart item) (ti_KeyEnd item) in
  appendNullableSpan out (ti_ElemStart item) (ti_ElemEnd item).

Definition encodeTypes (items : list TypeInfo) : list Z :=
  foldl appendTypeInfo (appendVarint [] (lenZ items)) items.

(** The loop body of [decodeTypes]. *)
Definition readTypeInfo : Reader TypeInfo :=
  kind ← readVarint;
  nameStart ← readVarint;
  nameSize ← readVarint;
  decl ← readVarint;
  symbol ← readNullable;
  alias ← readBool;
  '(typeStart, typeEnd) ← readNullableSpan;
  '(lenStart, lenEnd) ← readNullableSpan;
  '(keyStart, keyEnd) ← readNullableSpan;
  '(elemStart, elemEnd) ← readNullableSpan;
  mret (MkTypeInfo
    nameStart (nameStart + nameSize) kind decl symbol alias typeStart typeEnd lenStart lenEnd
    keyStart keyEnd elemStart elemEnd).

Definition decodeTypes : list Z → res (list TypeInfo) := readTable readTypeInfo.

(** ** Type field records *)

Record TypeFields := MkTypeFields {
  tf_TypeIndex : Z; tf_Fields : list Field
}.

Definition appendTypeFields (out : list Z) (item : TypeFields) : list Z :=
  let out := appendVarint out (tf_TypeIndex item) in
  appendFieldList out (tf_Fields item).

Definition encodeTypeFields (items : list TypeFields) : list Z :=
  foldl appendTypeFields (appendVarint [] (lenZ items)) items.

(** The loop body of [decodeTypeFields]. *)
Definition readTypeFields : Reader TypeFields :=
  typeIndex ← readVarint;
  fields ← readFieldList;
  mret (MkTypeFields
    typeIndex fields).

Definition decodeTypeFields : list Z → res (list TypeFields) := readTable readTypeFields.

(** ** Function type records *)

Record TypeFuncSig := MkTypeFuncSig {
  ts_TypeIndex : Z; ts_Params : list Field; ts_Results : list Field
}.

Definition appendTypeFuncSig (out : list Z) (item : TypeFuncSig) : list Z :=
  let out := appendVarint out (ts_TypeIndex item) in
  let out := appendFieldList out (ts_Params item) in
  appendFieldList out (ts_Results item).

Definition encodeTypeFuncs (items : list TypeFuncSig) : list Z :=
  foldl appendTypeFuncSig (appendVarint [] (lenZ items)) items.

(** The loop body of [decodeTypeFuncs]. *)
Definition readTypeFuncSig : Reader TypeFuncSig :=
  typeIndex ← readVarint;
  params ← readFieldList;
  results ← readFieldList;
  mret (MkTypeFuncSig
    typeIndex params results).

Definition decodeTypeFuncs : list Z → res (list TypeFuncSig) := readTable readTypeFuncSig.

(** ** Method records *)

Record MethodInfo := MkMethodInfo {
  mi_NameTok : Z; mi_TypeIndex : Z; mi_Symbol : Z; mi_FuncIndex : Z; mi_Pointer : bool
}.

Definition appendMethodInfo (out : list Z) (item : MethodInfo) : list Z :=
  let out := appendVarint out (mi_NameTok item) in
  let out := appendVarint out (mi_TypeIndex item) in
  let out := appendVarint out (mi_Symbol item) in
  let out := appendVarint out (mi_FuncIndex item) in
  appendBool out (mi_Pointer item).

Definition encodeMethods (items : list MethodInfo) : list Z :=
  foldl appendMethodInfo (appendVarint [] (lenZ items)) items.

(** The loop body of [decodeMethods]. *)
Definition readMethodInfo : Reader MethodInfo :=
  nameTok ← readVarint;
  typeIndex ← readVarint;
  symbol ← readVarint;
  funcIndex ← readVarint;
  pointer ← readBool;
  mret (MkMethodInfo
    nameTok typeIndex symbol funcIndex pointer).

Definition decodeMethods : list Z → res (list MethodInfo) := readTable readMethodInfo.

(** ** Type reference records *)

Record TypeRef := MkTypeRef {
  tr_OwnerKind : Z; tr_OwnerIndex : Z; tr_Kind : Z; tr_Token : Z; tr_BaseTok : Z;
  tr_DotTok : Z; tr_Package : Z; tr_Symbol : Z
}.

Definition appendTypeRef (out : list Z) (item : TypeRef) : list Z :=
  let out := appendVarint out (tr_OwnerKind item) in
  let out := appendVarint out (tr_OwnerIndex item) in
  let out := appendVarint out (tr_Kind item) in
  let out := appendVarint out (tr_Token item) in
  let out := appendVarint out (tr_BaseTok item) in
  let out := appendVarint out (tr_DotTok item) in
  let out := appendNullable out (tr_Package item) in
  appendNullable out (tr_Symbol item).

Definition encodeTypeRefs (items : list TypeRef) : list Z :=
  foldl appendTypeRef (appendVarint [] (lenZ items)) items.

(** The loop body of [decodeTypeRefs]. *)
Definition readTypeRef : Reader TypeRef :=
  ownerKind ← readVarint;
  ownerIndex ← readVarint;
  kind ← readVarint;
  token ← readVarint;
  baseTok ← readVarint;
  dotTok ← readVarint;
  package ← readNullable;
  symbol ← readNullable;
  mret (MkTypeRef
    ownerKind ownerIndex kind token baseTok dotTok package symbol).

Definition decodeTypeRefs : list Z → res (list TypeRef) := readTable readTypeRef.

(** ** Local declaration records *)

Record LocalDecl := MkLocalDecl {
  ld_FuncIndex : Z; ld_Kind : Z; ld_NameStart : Z; ld_NameEnd : Z; ld_Token : Z; ld_Scope : Z;
  ld_ValueIndex : Z; ld_TypeStart : Z; ld_TypeEnd : Z; ld_ValueStart : Z; ld_ValueEnd : Z;
  ld_Values : list ExprSpan; ld_Alias : bool
}.

Definition appendLocalDecl (out : list Z) (item : LocalDecl) : list Z :=
  let out := appendVarint out (ld_FuncIndex item) in
  let out := appendVarint out (ld_Kind item) in
  let out := appendVarint out (ld_NameStart item) in
  let out := appendVarint out (ld_NameEnd item - ld_NameStart item) in
  let out := appendVarint out (ld_Token item) in
  let out := appendNullable out (ld_Scope item) in
  let out := appendVarint out (ld_ValueIndex item) in
  let out := appendBool out (ld_Alias item) in
  let out := appendNullableSpan out (ld_TypeStart item) (ld_TypeEnd item) in
  let out := appendNullableSpan out (ld_ValueStart item) (ld_ValueEnd item) in
  appendSpanList out (ld_Values item).

Definition encodeLocals (items : list LocalDecl) : list Z :=
  foldl appendLocalDecl (appendVarint [] (lenZ items)) items.

(** The loop body of [decodeLocals]. *)
Definition readLocalDecl : Reader LocalDecl :=
  funcIndex ← readVarint;
  kind ← readVarint;
  nameStart ← readVarint;
  nameSize ← readVarint;
  token ← readVarint;
  scope ← readNullable;
  valueIndex ← readVarint;
  alias ← readBool;
  '(typeStart, typeEnd) ← readNullableSpan;
  '(valueStart, valueEnd) ← readNullableSpan;
  values ← readSpanList;
  mret (MkLocalDecl
    funcIndex kind nameStart (nameStart + nameSize) token scope valueIndex typeStart typeEnd
    valueStart valueEnd values alias).

Definition decodeLocals : list Z → res (list LocalDecl) := readTable readLocalDecl.

(** ** Index expression records *)

Record IndexExpr := MkIndexExpr {
  ix_OwnerKind : Z; ix_OwnerIndex : Z; ix_StartTok : Z; ix_EndTok : Z; ix_BaseStart : Z;
  ix_BaseEnd : Z; ix_OpenTok : Z; ix_CloseTok : Z; ix_IndexStart : Z; ix_IndexEnd : Z
}.

Definition appendIndexExpr (out : list Z) (item : IndexExpr) : list Z :=
  let out := appendVarint out (ix_OwnerKind item) in
  let out := appendVarint out (ix_OwnerIndex item) in
  let out := appendVarint out (ix_StartTok item) in
  let out := appendVarint out (ix_EndTok item - ix_StartTok item) in
  let out := appendVarint out (ix_BaseStart item) in
  let out := appendVarint out (ix_BaseEnd item - ix_BaseStart item) in
  let out := appendVarint out (ix_OpenTok item) in
  let out := appendVarint out (ix_CloseTok item) in
  let out := appendVarint out (ix_IndexStart item) in
  appendVarint out (ix_IndexEnd item - ix_IndexStart item).

Definition encodeIndexes (items : list IndexExpr) : list Z :=
  foldl appendIndexExpr (appendVarint [] (lenZ items)) items.

(** The loop body of [decodeIndexes]. *)
Definition readIndexExpr : Reader IndexExpr :=
  ownerKind ← readVarint;
  ownerIndex ← readVarint;
  startTok ← readVarint;
  tokCount ← readVarint;
  baseStart ← readVarint;
  baseCount ← readVarint;
  openTok ← readVarint;
  closeTok ← readVarint;
  indexStart ← readVarint;
  indexCount ← readVarint;
  mret (MkIndexExpr
    ownerKind ownerIndex startTok (startTok + tokCount) baseStart (baseStart + baseCount)
    openTok closeTok indexStart (indexStart + indexCount)).

Definition decodeIndexes : list Z → res (list IndexExpr) := readTable readIndexExpr.

(** ** Composite expression records *)

Record CompositeExpr := MkCompositeExpr {
  cx_OwnerKind : Z; cx_OwnerIndex : Z; cx_StartTok : Z; cx_EndTok : Z; cx_TypeStart : Z;
  cx_TypeEnd : Z; cx_OpenTok : Z; cx_CloseTok : Z; cx_Elems : list ExprSpan
}.

Definition appendCompositeExpr (out : list Z) (item : CompositeExpr) : list Z :=
  let out := appendVarint out (cx_OwnerKind item) in
  let out := appendVarint out (cx_OwnerIndex item) in
  let out := appendVarint out (cx_StartTok item) in
  let out := appendVarint out (cx_EndTok item - cx_StartTok item) in
  let out := appendVarint out (cx_TypeStart item) in
  let out := appendVarint out (cx_TypeEnd item - cx_TypeStart item) in
  let out := appendVarint out (cx_OpenTok item) in
  let out := appendVarint out (cx_CloseTok item) in
  appendSpanList out (cx_Elems item).

Definition encodeComposites (items : list CompositeExpr) : list Z :=
  foldl appendCompositeExpr (appendVarint [] (lenZ items)) items.

(** The loop body of [decodeComposites]. *)
Definition readCompositeExpr : Reader CompositeExpr :=
  ownerKind ← readVarint;
  ownerIndex ← readVarint;
  startTok ← readVarint;
  tokCount ← readVarint;
  typeStart ← readVarint;
  typeCount ← readVarint;
  openTok ← readVarint;
  closeTok ← readVarint;
  elems ← readSpanList;
  mret (MkCompositeExpr
    ownerKind ownerIndex startTok (startTok + tokCount) typeStart (typeStart + typeCount)
    openTok closeTok elems).

Definition decodeComposites : list Z → res (list CompositeExpr) := readTable readCompositeExpr.

(** ** Assignment records *)

Record Assignment := MkAssignment {
  asg_FuncIndex : Z; asg_Kind : Z; asg_StartTok : Z; asg_EndTok : Z; asg_OpTok : Z;
  asg_LeftStart : Z; asg_LeftEnd : Z; asg_RightStart : Z; asg_RightEnd : Z;
  asg_Targets : list ExprSpan; asg_Values : list ExprSpan
}.

Definition appendAssignment (out : list Z) (item : Assignment) : list Z :=
  let out := appendVarint out (asg_FuncIndex item) in
  let out := appendVarint out (asg_Kind item) in
  let out := appendVarint out (asg_StartTok item) in
  let out := appendVarint out (asg_EndTok item - asg_StartTok item) in
  let out := appendVarint out (asg_OpTok item) in
  let out := appendVarint out (asg_LeftStart item) in
  let out := appendVarint out (asg_LeftEnd item - asg_LeftStart item) in
  let out := appendVarint out (asg_RightStart item) in
  let out := appendVarint out (asg_RightEnd item - asg_RightStart item) in
  let out := appendSpanList out (asg_Targets item) in
  appendSpanList out (asg_Values item).

Definition encodeAssignments (items : list Assignment) : list Z :=
  foldl appendAssignment (appendVarint [] (lenZ items)) items.

(** The loop body of [decodeAssignments]. *)
Definition readAssignment : Reader Assignment :=
  funcIndex ← readVarint;
  kind ← readVarint;
  startTok ← readVarint;
  tokCount ← readVarint;
  opTok ← readVarint;
  leftStart ← readVarint;
  leftCount ← readVarint;
  rightStart ← readVarint;
  rightCount ← readVarint;
  targets ← readSpanList;
  values ← readSpanList;
  mret (MkAssignment
    funcIndex kind startTok (startTok + tokCount) opTok leftStart (leftStart + leftCount)
    rightStart (rightStart + rightCount) targets values).

Definition decodeAssignments : list Z → res (list Assignment) := readTable readAssignment.

(** ** Return records *)

Record Return := MkReturn {
  rt_FuncIndex : Z; rt_StartTok : Z; rt_EndTok : Z; rt_Values : list ExprSpan
}.

Definition appendReturn (out : list Z) (item : Return) : list Z :=
  let out := appendVarint out (rt_FuncIndex item) in
  let out := appendVarint out (rt_StartTok item) in
  let out := appendVarint out (rt_EndTok item - rt_StartTok item) in
  appendSpanList out (rt_Values item).

Definition encodeReturns (items : list Return) : list Z :=
  foldl appendReturn (appendVarint [] (lenZ items)) items.

(** The loop body of [decodeReturns]. *)
Definition readReturn : Reader Return :=
  funcIndex ← readVarint;
  startTok ← readVarint;
  tokCount ← readVarint;
  values ← readSpanList;
  mret (MkReturn
    funcIndex startTok (startTok + tokCount) values).

Definition decodeReturns : list Z → res (list Return) := readTable readReturn.

(** ** Call records *)

Record Call := MkCall {
  cl_OwnerKind : Z; cl_OwnerIndex : Z; cl_Kind : Z; cl_CalleeTok : Z; cl_BaseTok : Z;
  cl_DotTok : Z; cl_ArgsStart : Z; cl_ArgsEnd : Z; cl_Args : list ExprSpan
}.

Definition appendCall (out : list Z) (item : Call) : list Z :=
  let out := appendVarint out (cl_OwnerKind item) in
  let out := appendVarint out (cl_OwnerIndex item) in
  let out := appendVarint out (cl_Kind item) in
  let out := appendVarint out (cl_CalleeTok item) in
  let out := appendVarint out (cl_BaseTok item) in
  let out := appendVarint out (cl_DotTok item) in
  let out := appendVarint out (cl_ArgsStart item) in
  let out := appendVarint out (cl_ArgsEnd item - cl_ArgsStart item) in
  appendSpanList out (cl_Args item).

Definition encodeCalls (items : list Call) : list Z :=
  foldl appendCall (appendVarint [] (lenZ items)) items.

(** The loop body of [decodeCalls]. *)
Definition readCall : Reader Call :=
  ownerKind ← readVarint;
  ownerIndex ← readVarint;
  kind ← readVarint;
  calleeTok ← readVarint;
  baseTok ← readVarint;
  dotTok ← readVarint;
  argsStart ← readVarint;
  argsCount ← readVarint;
  args ← readSpanList;
  mret (MkCall
    ownerKind ownerIndex kind calleeTok baseTok dotTok argsStart (argsStart + argsCount) args).

Definition decodeCalls : list Z → res (list Call) := readTable readCall.

(** ** Name reference records *)

Record NameRef := MkNameRef {
  nr_OwnerKind : Z; nr_OwnerIndex : Z; nr_Kind : Z; nr_Token : Z; nr_Index : Z; nr_Package : Z
}.

Definition appendNameRef (out : list Z) (item : NameRef) : list Z :=
  let out := appendVarint out (nr_OwnerKind item) in
  let out := appendVarint out (nr_OwnerIndex item) in
  let out := appendVarint out (nr_Kind item) in
  let out := appendVarint out (nr_Token item) in
  let out := appendNullable out (nr_Index item) in
  appendNullable out (nr_Package item).

Definition encodeRefs (items : list NameRef) : list Z :=
  foldl appendNameRef (appendVarint [] (lenZ items)) items.

(** The loop body of [decodeRefs]. *)
Definition readNameRef : Reader NameRef :=
  ownerKind ← readVarint;
  ownerIndex ← readVarint;
  kind ← readVarint;
  token ← readVarint;
  index ← readNullable;
  package ← readNullable;
  mret (MkNameRef
    ownerKind ownerIndex kind token index package).

Definition decodeRefs : list Z → res (list NameRef) := readTable readNameRef.

(** ** Selector records *)

Record Selector := MkSelector {
  sl_OwnerKind : Z; sl_OwnerIndex : Z; sl_Kind : Z; sl_BaseTok : Z; sl_DotTok : Z;
  sl_NameTok : Z; sl_BaseKind : Z; sl_BaseIndex : Z; sl_BasePackage : Z; sl_Package : Z;
  sl_Symbol : Z
}.

Definition appendSelector (out : list Z) (item : Selector) : list Z :=
  let out := appendVarint out (sl_OwnerKind item) in
  let out := appendVarint out (sl_OwnerIndex item) in
  let out := appendVarint out (sl_Kind item) in
  let out := appendVarint out (sl_BaseTok item) in
  let out := appendVarint out (sl_DotTok item) in
  let out := appendVarint out (sl_NameTok item) in
  let out := appendVarint out (sl_BaseKind item) in
  let out := appendNullable out (sl_BaseIndex item) in
  let out := appendNullable out (sl_BasePackage item) in
  let out := appendNullable out (sl_Package item) in
  appendNullable out (sl_Symbol item).

Definition encodeSelectors (items : list Selector) : list Z :=
  foldl appendSelector (appendVarint [] (lenZ items)) items.

(** The loop body of [decodeSelectors]. *)
Definition readSelector : Reader Selector :=
  ownerKind ← readVarint;
  ownerIndex ← readVarint;
  kind ← readVarint;
  baseTok ← readVarint;
  dotTok ← readVarint;
  nameTok ← readVarint;
  baseKind ← readVarint;
  baseIndex ← readNullable;
  basePackage ← readNullable;
  package ← readNullable;
  symbol ← readNullable;
  mret (MkSelector
    ownerKind ownerIndex kind baseTok dotTok nameTok baseKind baseIndex basePackage package
    symbol).

Definition decodeSelectors : list Z → res (list Selector) := readTable readSelector.

(** ** Package records *)

Record PackageInfo := MkPackageInfo {
  pk_Name : list Z; pk_ImportPath : list Z; pk_GraphKeyA : Z; pk_GraphKeyB : Z;
  pk_SourceKeyA : Z; pk_SourceKeyB : Z; pk_TextStart : Z; pk_TextEnd : Z; pk_TokenStart : Z;
  pk_TokenEnd : Z; pk_DeclStart : Z; pk_DeclEnd : Z; pk_FuncStart : Z; pk_FuncEnd : Z
}.

Definition appendPackageInfo (out : list Z) (item : PackageInfo) : list Z :=
  let out := appendString out (pk_Name item) in
  let out := appendString out (pk_ImportPath item) in
  let out := appendFixed32 out (pk_GraphKeyA item) in
  let out := appendFixed32 out (pk_GraphKeyB item) in
  let out := appendFixed32 out (pk_SourceKeyA item) in
  let out := appendFixed32 out (pk_SourceKeyB item) in
  let out := appendVarint out (pk_TextStart item) in
  let out := appendVarint out (pk_TextEnd item - pk_TextStart item) in
  let out := appendVarint out (pk_TokenStart item) in
  let out := appendVarint out (pk_TokenEnd item - pk_TokenStart item) in
  let out := appendVarint out (pk_DeclStart item) in
  let out := appendVarint out (pk_DeclEnd item - pk_DeclStart item) in
  let out := appendVarint out (pk_FuncStart item) in
  appendVarint out (pk_FuncEnd item - pk_FuncStart item).

Definition encodePackages (items : list PackageInfo) : list Z :=
  foldl appendPackageInfo (appendVarint [] (lenZ items)) items.

(** The loop body of [decodePackages]. *)
Definition readPackageInfo : Reader PackageInfo :=
  name ← readString;
  importPath ← readString;
  _ ← need 16;
  graphKeyA ← readFixed32;
  graphKeyB ← readFixed32;
  sourceKeyA ← readFixed32;
  sourceKeyB ← readFixed32;
  textStart ← readVarint;
  textLength ← readVarint;
  tokenStart ← readVarint;
  tokenLength ← readVarint;
  declStart ← readVarint;
  declLength ← readVarint;
  funcStart ← readVarint;
  funcLength ← readVarint;
  mret (MkPackageInfo
    name importPath graphKeyA graphKeyB sourceKeyA sourceKeyB textStart
    (textStart + textLength) tokenStart (tokenStart + tokenLength) declStart
    (declStart + declLength) funcStart (funcStart + funcLength)).

Definition decodePackages : list Z → res (list PackageInfo) := readTable readPackageInfo.

(** ** Import records *)

Record Import := MkImport {
  im_Name : list Z; im_ImportPath : list Z; im_Package : Z; im_NameTok : Z; im_PathTok : Z;
  im_Dot : bool; im_Blank : bool
}.

(** [flags |= 1] for a dot import, [flags |= 2] for a blank one. *)
Definition importFlags (item : Import) : Z :=
  let flags := 0 in
  let flags := if im_Dot item then Z.lor flags 1 else flags in
  if im_Blank item then Z.lor flags 2 else flags.

Definition appendImport (out : list Z) (item : Import) : list Z :=
  let out := appendString out (im_Name item) in
  let out := appendString out (im_ImportPath item) in
  let out := appendNullable out (im_Package item) in
  let out := appendNullable out (im_NameTok item) in
  let out := appendVarint out (im_PathTok item) in
  appendVarint out (importFlags item).

Definition encodeImports (items : list Import) : list Z :=
  foldl appendImport (appendVarint [] (lenZ items)) items.

(** The loop body of [decodeImports]. *)
Definition readImport : Reader Import :=
  name ← readString;
  importPath ← readString;
  pkg ← readNullable;
  nameTok ← readNullable;
  pathTok ← readVarint;
  flags ← readVarint;
  _ ← reject (3 <? flags);
  let dot := negb (Z.land flags 1 =? 0) in
  let blank := negb (Z.land flags 2 =? 0) in
  _ ← reject (dot && blank);
  mret (MkImport name importPath pkg nameTok pathTok dot blank).

Definition decodeImports : list Z → res (list Import) := readTable readImport.

(** ** Initialisation order *)

Definition encodeInitOrder (order : list Z) : list Z :=
  foldl appendVarint (appendVarint [] (lenZ order)) order.

Definition decodeInitOrder : list Z → res (list Z) := readTable readVarint.

(** ** Constant records *)

Definition ConstInt : Z := 1.
Definition ConstString : Z := 2.
Definition ConstBool : Z := 3.

Record ConstValue := MkConstValue {
  cv_DeclIndex : Z; cv_Kind : Z; cv_Int : Z; cv_String : list Z; cv_Bool : bool
}.

Definition appendConstValue (out : list Z) (item : ConstValue) : list Z :=
  let out := appendVarint out (cv_DeclIndex item) in
  let out := appendVarint out (cv_Kind item) in
  if cv_Kind item =? ConstInt then appendSigned out (cv_Int item)
  else if cv_Kind item =? ConstString then appendString out (cv_String item)
  else appendBool out (cv_Bool item).

Definition encodeConsts (items : list ConstValue) : list Z :=
  foldl appendConstValue (appendVarint [] (lenZ items)) items.

(** The loop body of [decodeConsts]. *)
Definition readConstValue : Reader ConstValue :=
  decl ← readVarint;
  kind ← readVarint;
  if kind =? ConstInt then value ← readSigned; mret (MkConstValue decl kind value [] false)
  else if kind =? ConstString then
    value ← readString; mret (MkConstValue decl kind 0 value false)
  else if kind =? ConstBool then
    value ← readBool; mret (MkConstValue decl kind 0 [] value)
  else _ ← reject true; mret (MkConstValue decl kind 0 [] false).

Definition decodeConsts : list Z → res (list ConstValue) := readTable readConstValue.

(** ** Interface type records *)

Record InterfaceMethod := MkInterfaceMethod {
  imd_NameTok : Z; imd_Params : list Field; imd_Results : list Field
}.

Record InterfaceEmbed := MkInterfaceEmbed { ie_TypeStart : Z; ie_TypeEnd : Z }.

Record TypeIface := MkTypeIface {
  tif_TypeIndex : Z; tif_Methods : list InterfaceMethod; tif_Embeds : list InterfaceEmbed
}.

Definition appendInterfaceEmbed (out : list Z) (item : InterfaceEmbed) : list Z :=
  let out := appendVarint out (ie_TypeStart item) in
  appendVarint out (ie_TypeEnd item - ie_TypeStart item).

Definition appendInterfaceMethod (out : list Z) (item : InterfaceMethod) : list Z :=
  let out := appendVarint out (imd_NameTok item) in
  let out := appendFieldList out (imd_Params item) in
  appendFieldList out (imd_Results item).

Definition appendTypeIface (out : list Z) (item : TypeIface) : list Z :=
  let out := appendVarint out (tif_TypeIndex item) in
  let out := appendVarint out (lenZ (tif_Embeds item)) in
  let out := foldl appendInterfaceEmbed out (tif_Embeds item) in
  let out := appendVarint out (lenZ (tif_Methods item)) in
  foldl appendInterfaceMethod out (tif_Methods item).

Definition encodeTypeInterfaces (items : list TypeIface) : list Z :=
  foldl appendTypeIface (appendVarint [] (lenZ items)) items.

Definition readInterfaceEmbed : Reader InterfaceEmbed :=
  typeStart ← readVarint;
  typeCount ← readVarint;
  mret (MkInterfaceEmbed typeStart (typeStart + typeCount)).

Definition readInterfaceMethod : Reader InterfaceMethod :=
  nameTok ← readVarint;
  params ← readFieldList;
  results ← readFieldList;
  mret (MkInterfaceMethod nameTok params results).

(** The loop body of [decodeTypeInterfaces]. *)
Definition readTypeIface : Reader TypeIface :=
  typeIndex ← readVarint;
  embeds ← (embedCount ← readVarint; readLoop (Z.to_nat embedCount) readInterfaceEmbed []);
  methods ← (methodCount ← readVarint; readLoop (Z.to_nat methodCount) readInterfaceMethod []);
  mret (MkTypeIface typeIndex methods embeds).

Definition decodeTypeInterfaces : list Z → res (list TypeIface) := readTable readTypeIface.
