(* ===== verification/WireTablesFacts.v ===== *)
(** Every table of the unit format reads back what it writes: a codec per record. *)

From S2P Require Import Prelude.
From S2P Require Import GoInt.
From S2P Require Import WireReader.
From S2P Require Import WireFacts.
From S2P Require Import WireTables.

(** * Field ranges *)

(** What a nullable field can hold: -1 or an index. *)
Definition nullable_ok (v : Z) : Prop := u32_ok (v + 1).

(** A half-open range written as its start and length. *)
Definition span_ok (start end_ : Z) : Prop := u32_ok start ∧ u32_ok (end_ - start).

(** A range that may be absent: (-1, -1). *)
Definition nullable_span_ok (start end_ : Z) : Prop :=
  start = -1 ∧ end_ = -1 ∨ 0 ≤ start ∧ u32_ok (start + 1) ∧ u32_ok (end_ - start).

(** * Primitive fields *)

#[local] Arguments appendString : simpl never.
#[local] Arguments appendNullable : simpl never.
#[local] Arguments appendSigned : simpl never.
#[local] Arguments appendBool : simpl never.
#[local] Arguments appendFixed32 : simpl never.
#[local] Arguments appendNullableSpan : simpl never.
#[local] Arguments appendSpanList : simpl never.
#[local] Arguments appendFieldList : simpl never.

Lemma varint_append v : appendVarint [] v = varint v.
Proof. done. Qed.

(** The bytes each writer appends. *)
Definition stringBytes (s : list Z) : list Z := appendString [] s.
Definition boolBytes (b : bool) : list Z := appendBool [] b.
Definition signedBytes (v : Z) : list Z := appendSigned [] v.
Definition nullableSpanBytes (a b : Z) : list Z := appendNullableSpan [] a b.

Lemma appendString_app out s : appendString out s = out ++ stringBytes s.
Proof.
  unfold stringBytes, appendString. rewrite appendVarint_app. by rewrite <- app_assoc.
Qed.
Lemma appendNullable_app out v : appendNullable out v = out ++ varint (v + 1).
Proof. apply appendVarint_app. Qed.
Lemma appendBool_app out b : appendBool out b = out ++ boolBytes b.
Proof. destruct b; apply appendVarint_app. Qed.
Lemma appendSigned_app out v : appendSigned out v = out ++ signedBytes v.
Proof. unfold signedBytes, appendSigned. case_match; apply appendVarint_app. Qed.
Lemma appendFixed32_app out v : appendFixed32 out v = out ++ bytes32 v.
Proof. done. Qed.
Lemma appendNullableSpan_app out a b :
  appendNullableSpan out a b = out ++ nullableSpanBytes a b.
Proof.
  unfold nullableSpanBytes, appendNullableSpan. case_match; [apply appendVarint_app|].
  rewrite !(appendVarint_app (appendVarint _ _)), !(appendVarint_app _ (a + 1)).
  by rewrite <- !app_assoc.
Qed.

Lemma reads_nullable v : nullable_ok v → reads readNullable (varint (v + 1)) v.
Proof.
  intros Hv. rewrite <- (app_nil_r (varint _)). eapply reads_bind; [by apply reads_varint|].
  apply reads_ret_eq. lia.
Qed.

Lemma reads_bool b : reads readBool (boolBytes b) b.
Proof.
  rewrite <- (app_nil_r (boolBytes _)).
  destruct b; (eapply reads_bind; [by apply reads_varint|]);
    (apply reads_reject; [done|]); by apply reads_ret_eq.
Qed.

Lemma reads_string s : u32_ok (lenZ s) → reads readString (stringBytes s) s.
Proof.
  intros Hs pre post. unfold readString, stringBytes, appendString. rewrite varint_append, <- app_assoc.
  rewrite reads_varint by done. cbv zeta. pose proof (lenZ_nonneg s). pose proof (lenZ_nonneg post).
  rewrite app_assoc. pose proof (lenZ_app pre (varint (lenZ s))) as Hl.
  assert (lenZ ((pre ++ varint (lenZ s)) ++ s ++ post) =
    lenZ pre + lenZ (varint (lenZ s)) + lenZ s + lenZ post) as Hlen
    by (autorewrite with lenZ; lia).
  destruct (_ || _) eqn:Hb; [lia|]. rewrite sliceZ_Some by (pose proof (lenZ_nonneg pre);
    pose proof (lenZ_nonneg (varint (lenZ s))); lia).
  rewrite <- Hl, sublistZ_app_exact. cbn. f_equal. f_equal. rewrite !lenZ_app. lia.
Qed.

Lemma reads_signed v : - 2 ^ 31 ≤ v < 2 ^ 31 → reads readSigned (signedBytes v) v.
Proof.
  intros Hv. rewrite <- (app_nil_r (signedBytes _)). unfold signedBytes, appendSigned.
  assert (∀ w, Z.land w 1 = w `mod` 2) as Hodd.
  { intros w. change 1 with (Z.ones 1). by rewrite Z.land_ones. }
  destruct (Z.ltb_spec v 0); (eapply reads_bind; [apply reads_varint; unfold u32_ok; lia|]);
    apply reads_ret_eq; rewrite Hodd.
  - rewrite (proj2 (Z.eqb_eq _ _)) by (Z.div_mod_to_equations; lia).
    rewrite Z.quot_div_nonneg by lia. Z.div_mod_to_equations. lia.
  - rewrite (proj2 (Z.eqb_neq _ _)) by (Z.div_mod_to_equations; lia).
    rewrite Z.quot_div_nonneg by lia. Z.div_mod_to_equations. lia.
Qed.

Lemma reads_fixed32 v : u32_ok v → reads readFixed32 (bytes32 v) v.
Proof.
  intros Hv pre post. unfold readFixed32. pose proof (lenZ_nonneg pre).
  assert (∀ k, 0 ≤ k < 4 → (pre ++ bytes32 v ++ post) !!z (lenZ pre + k) = bytes32 v !!z k) as Hk.
  { intros k Hk. rewrite lookupZ_app_r by lia. rewrite lookupZ_app_l by (unfold lenZ; simpl; lia).
    f_equal. lia. }
  rewrite <- (Z.add_0_r (lenZ pre)) at 1. rewrite !Hk by lia.
  transitivity (Ok (le32 (u8 v) (u8 (Z.shiftr v 8)) (u8 (Z.shiftr v 16)) (u8 (Z.shiftr v 24)),
    lenZ pre + 4)); [done|].
  by rewrite le32_bytes, u32_small.
Qed.

Lemma reads_nullable_span a b :
  nullable_span_ok a b → reads readNullableSpan (nullableSpanBytes a b) (a, b).
Proof.
  intros [[-> ->]|(Ha&Ha1&Hb)]; rewrite <- (app_nil_r (nullableSpanBytes _ _));
    unfold nullableSpanBytes, appendNullableSpan.
  - change ((-1 <? 0) && (-1 <? 0)) with true. cbv iota.
    eapply reads_bind; [by apply reads_varint|]. by apply reads_ret_eq.
  - rewrite (proj2 (Z.ltb_ge a 0)) by done. cbn [andb].
    rewrite (appendVarint_app _ (b - a)), varint_append, <- app_assoc.
    eapply reads_bind; [by apply reads_varint|]. rewrite (proj2 (Z.eqb_neq _ 0)) by lia.
    eapply reads_bind; [by apply reads_varint|]. apply reads_ret_eq. f_equal; lia.
Qed.

(** The remaining-length check of the package reader. *)
Lemma reads_need {A} n (rd : Reader A) bs a :
  n ≤ lenZ bs → reads rd bs a → reads (_ ← need n; rd) bs a.
Proof.
  intros Hn Hr pre post. unfold mbind, Reader_bind, need.
  rewrite (proj2 (Z.ltb_ge _ _)); [apply Hr|]. autorewrite with lenZ.
  pose proof (lenZ_nonneg post). lia.
Qed.

#[export] Hint Rewrite appendVarint_app appendString_app appendNullable_app appendBool_app
  appendSigned_app appendFixed32_app appendNullableSpan_app : wire.

#[export] Hint Resolve reads_varint reads_nullable reads_bool reads_string reads_fixed32
  reads_nullable_span : wire.

(** ** Automation *)

(** The writer of a record appends to its output. *)
Ltac by_append :=
  intros out item; destruct item;
  autounfold with wire; cbv zeta; cbn;
  autorewrite with wire; rewrite ?app_nil_l, <- ?app_assoc; done.

(** The reader of a record inverts its writer, field by field. *)
Ltac by_fields :=
  intros item Hok; destruct item; autounfold with wire in Hok; cbn in Hok; destruct_and? Hok;
  autounfold with wire; cbv zeta; cbn;
  match goal with |- reads _ ?bs _ => rewrite <- (app_nil_r bs) end;
  autorewrite with wire; rewrite ?app_nil_l, <- ?app_assoc;
  repeat (first [ eapply reads_bind; [solve [eauto with wire]|cbv beta iota]
                | apply reads_need;
                  [unfold lenZ; rewrite !length_app; change (length (bytes32 _)) with 4%nat; lia|] ]);
  apply reads_ret_eq; f_equal; lia.

(** * Spans and fields *)

Definition ExprSpan_ok (item : ExprSpan) : Prop := span_ok (es_StartTok item) (es_EndTok item).

#[export] Hint Unfold span_ok ExprSpan_ok appendSpan readSpan : wire.

#[export, refine] Instance ExprSpan_codec : Codec ExprSpan := {|
  codec_ok := ExprSpan_ok; codec_append := appendSpan; codec_read := readSpan
|}.
Proof.
  - by_append.
  - by_fields.
Defined.

Definition spans_ok (items : list ExprSpan) : Prop :=
  Forall ExprSpan_ok items ∧ u32_ok (lenZ items).

Lemma appendSpanList_counted out items :
  appendSpanList out items = out ++ varint (lenZ items) ++ foldl appendSpan [] items.
Proof.
  unfold appendSpanList. rewrite appendVarint_app.
  etransitivity; [apply (@foldl_append _ ExprSpan_codec)|]. by rewrite <- app_assoc.
Qed.

Definition spanListBytes (items : list ExprSpan) : list Z := appendSpanList [] items.

Lemma appendSpanList_app out items : appendSpanList out items = out ++ spanListBytes items.
Proof. unfold spanListBytes. by rewrite !(appendSpanList_counted _ items), app_nil_l. Qed.

Lemma reads_spans items : spans_ok items → reads readSpanList (spanListBytes items) items.
Proof. intros [??]. unfold spanListBytes. rewrite appendSpanList_counted. by apply (@reads_counted _ ExprSpan_codec). Qed.

Definition Field_ok (item : Field) : Prop :=
  nullable_ok (fd_NameTok item) ∧ span_ok (fd_TypeStart item) (fd_TypeEnd item).

#[export] Hint Unfold Field_ok appendField readField : wire.

#[export, refine] Instance Field_codec : Codec Field := {|
  codec_ok := Field_ok; codec_append := appendField; codec_read := readField
|}.
Proof.
  - by_append.
  - by_fields.
Defined.

Definition fields_ok (items : list Field) : Prop :=
  Forall Field_ok items ∧ u32_ok (lenZ items).

Lemma appendFieldList_counted out items :
  appendFieldList out items = out ++ varint (lenZ items) ++ foldl appendField [] items.
Proof.
  unfold appendFieldList. rewrite appendVarint_app.
  etransitivity; [apply (@foldl_append _ Field_codec)|]. by rewrite <- app_assoc.
Qed.

Definition fieldListBytes (items : list Field) : list Z := appendFieldList [] items.

Lemma appendFieldList_app out items : appendFieldList out items = out ++ fieldListBytes items.
Proof. unfold fieldListBytes. by rewrite !(appendFieldList_counted _ items), app_nil_l. Qed.

Lemma reads_fields items : fields_ok items → reads readFieldList (fieldListBytes items) items.
Proof. intros [??]. unfold fieldListBytes. rewrite appendFieldList_counted. by apply (@reads_counted _ Field_codec). Qed.

#[export] Hint Rewrite appendSpanList_app appendFieldList_app : wire.
#[export] Hint Resolve reads_spans reads_fields : wire.

(** * Records *)

Definition Decl_ok (item : Decl) : Prop :=
  u32_ok (dc_Kind item) ∧ span_ok (dc_NameStart item) (dc_NameEnd item) ∧
  span_ok (dc_StartTok item) (dc_EndTok item).

#[export] Hint Unfold Decl_ok appendDecl readDecl : wire.

#[export, refine] Instance Decl_codec : Codec Decl := {|
  codec_ok := Decl_ok; codec_append := appendDecl; codec_read := readDecl
|}.
Proof.
  - by_append.
  - by_fields.
Defined.

Definition Symbol_ok (item : Symbol) : Prop :=
  u32_ok (lenZ (sy_Name item)) ∧ u32_ok (sy_Kind item) ∧ nullable_ok (sy_Package item) ∧
  u32_ok (sy_Token item) ∧ u32_ok (sy_OwnerKind item) ∧ u32_ok (sy_OwnerIndex item).

#[export] Hint Unfold Symbol_ok appendSymbol readSymbol : wire.

#[export, refine] Instance Symbol_codec : Codec Symbol := {|
  codec_ok := Symbol_ok; codec_append := appendSymbol; codec_read := readSymbol
|}.
Proof.
  - by_append.
  - by_fields.
Defined.

Definition DeclMeta_ok (item : DeclMeta) : Prop :=
  u32_ok (dm_DeclIndex item) ∧ nullable_ok (dm_Symbol item) ∧ u32_ok (dm_ValueIndex item) ∧
  nullable_span_ok (dm_TypeStart item) (dm_TypeEnd item) ∧
  nullable_span_ok (dm_ValueStart item) (dm_ValueEnd item) ∧ spans_ok (dm_Values item).

#[export] Hint Unfold DeclMeta_ok appendDeclMeta readDeclMeta : wire.

#[export, refine] Instance DeclMeta_codec : Codec DeclMeta := {|
  codec_ok := DeclMeta_ok; codec_append := appendDeclMeta; codec_read := readDeclMeta
|}.
Proof.
  - by_append.
  - by_fields.
Defined.

Definition Func_ok (item : Func) : Prop :=
  span_ok (fn_NameStart item) (fn_NameEnd item) ∧ u32_ok (fn_StartTok item) ∧
  u32_ok (fn_NameTok item - fn_StartTok item) ∧
  span_ok (fn_ReceiverStart item) (fn_ReceiverEnd item) ∧
  span_ok (fn_BodyStart item) (fn_BodyEnd item) ∧ u32_ok (fn_EndTok item - fn_BodyEnd item).

#[export] Hint Unfold Func_ok appendFunc readFunc : wire.

#[export, refine] Instance Func_codec : Codec Func := {|
  codec_ok := Func_ok; codec_append := appendFunc; codec_read := readFunc
|}.
Proof.
  - by_append.
  - by_fields.
Defined.

Definition FuncSignature_ok (item : FuncSignature) : Prop :=
  u32_ok (sg_FuncIndex item) ∧ fields_ok (sg_Receiver item) ∧ fields_ok (sg_Params item) ∧
  fields_ok (sg_Results item).

#[export] Hint Unfold FuncSignature_ok appendFuncSignature readFuncSignature : wire.

#[export, refine] Instance FuncSignature_codec : Codec FuncSignature := {|
  codec_ok := FuncSignature_ok; codec_append := appendFuncSignature; codec_read := readFuncSignature
|}.
Proof.
  - by_append.
  - by_fields.
Defined.

Definition Statement_ok (item : Statement) : Prop :=
  u32_ok (st_FuncIndex item) ∧ u32_ok (st_Kind item) ∧
  span_ok (st_StartTok item) (st_EndTok item) ∧
  nullable_span_ok (st_ExprStart item) (st_ExprEnd item) ∧
  nullable_span_ok (st_BodyStart item) (st_BodyEnd item) ∧
  nullable_span_ok (st_ElseStart item) (st_ElseEnd item).

#[export] Hint Unfold Statement_ok appendStatement readStatement : wire.

#[export, refine] Instance Statement_codec : Codec Statement := {|
  codec_ok := Statement_ok; codec_append := appendStatement; codec_read := readStatement
|}.
Proof.
  - by_append.
  - by_fields.
Defined.

Definition TypeInfo_ok (item : TypeInfo) : Prop :=
  u32_ok (ti_Kind item) ∧ span_ok (ti_NameStart item) (ti_NameEnd item) ∧
  u32_ok (ti_Decl item) ∧ nullable_ok (ti_Symbol item) ∧
  nullable_span_ok (ti_TypeStart item) (ti_TypeEnd item) ∧
  nullable_span_ok (ti_LenStart item) (ti_LenEnd item) ∧
  nullable_span_ok (ti_KeyStart item) (ti_KeyEnd item) ∧
  nullable_span_ok (ti_ElemStart item) (ti_ElemEnd item).

#[export] Hint Unfold TypeInfo_ok appendTypeInfo readTypeInfo : wire.

#[export, refine] Instance TypeInfo_codec : Codec TypeInfo := {|
  codec_ok := TypeInfo_ok; codec_append := appendTypeInfo; codec_read := readTypeInfo
|}.
Proof.
  - by_append.
  - by_fields.
Defined.

Definition TypeFields_ok (item : TypeFields) : Prop :=
  u32_ok (tf_TypeIndex item) ∧ fields_ok (tf_Fields item).

#[export] Hint Unfold TypeFields_ok appendTypeFields readTypeFields : wire.

#[export, refine] Instance TypeFields_codec : Codec TypeFields := {|
  codec_ok := TypeFields_ok; codec_append := appendTypeFields; codec_read := readTypeFields
|}.
Proof.
  - by_append.
  - by_fields.
Defined.

Definition TypeFuncSig_ok (item : TypeFuncSig) : Prop :=
  u32_ok (ts_TypeIndex item) ∧ fields_ok (ts_Params item) ∧ fields_ok (ts_Results item).

#[export] Hint Unfold TypeFuncSig_ok appendTypeFuncSig readTypeFuncSig : wire.

#[export, refine] Instance TypeFuncSig_codec : Codec TypeFuncSig := {|
  codec_ok := TypeFuncSig_ok; codec_append := appendTypeFuncSig; codec_read := readTypeFuncSig
|}.
Proof.
  - by_append.
  - by_fields.
Defined.

Definition MethodInfo_ok (item : MethodInfo) : Prop :=
  u32_ok (mi_NameTok item) ∧ u32_ok (mi_TypeIndex item) ∧ u32_ok (mi_Symbol item) ∧
  u32_ok (mi_FuncIndex item).

#[export] Hint Unfold MethodInfo_ok appendMethodInfo readMethodInfo : wire.

#[export, refine] Instance MethodInfo_codec : Codec MethodInfo := {|
  codec_ok := MethodInfo_ok; codec_append := appendMethodInfo; codec_read := readMethodInfo
|}.
Proof.
  - by_append.
  - by_fields.
Defined.

Definition TypeRef_ok (item : TypeRef) : Prop :=
  u32_ok (tr_OwnerKind item) ∧ u32_ok (tr_OwnerIndex item) ∧ u32_ok (tr_Kind item) ∧
  u32_ok (tr_Token item) ∧ u32_ok (tr_BaseTok item) ∧ u32_ok (tr_DotTok item) ∧
  nullable_ok (tr_Package item) ∧ nullable_ok (tr_Symbol item).

#[export] Hint Unfold TypeRef_ok appendTypeRef readTypeRef : wire.

#[export, refine] Instance TypeRef_codec : Codec TypeRef := {|
  codec_ok := TypeRef_ok; codec_append := appendTypeRef; codec_read := readTypeRef
|}.
Proof.
  - by_append.
  - by_fields.
Defined.

Definition LocalDecl_ok (item : LocalDecl) : Prop :=
  u32_ok (ld_FuncIndex item) ∧ u32_ok (ld_Kind item) ∧
  span_ok (ld_NameStart item) (ld_NameEnd item) ∧ u32_ok (ld_Token item) ∧
  nullable_ok (ld_Scope item) ∧ u32_ok (ld_ValueIndex item) ∧
  nullable_span_ok (ld_TypeStart item) (ld_TypeEnd item) ∧
  nullable_span_ok (ld_ValueStart item) (ld_ValueEnd item) ∧ spans_ok (ld_Values item).

#[export] Hint Unfold LocalDecl_ok appendLocalDecl readLocalDecl : wire.

#[export, refine] Instance LocalDecl_codec : Codec LocalDecl := {|
  codec_ok := LocalDecl_ok; codec_append := appendLocalDecl; codec_read := readLocalDecl
|}.
Proof.
  - by_append.
  - by_fields.
Defined.

Definition IndexExpr_ok (item : IndexExpr) : Prop :=
  u32_ok (ix_OwnerKind item) ∧ u32_ok (ix_OwnerIndex item) ∧
  span_ok (ix_StartTok item) (ix_EndTok item) ∧ span_ok (ix_BaseStart item) (ix_BaseEnd item) ∧
  u32_ok (ix_OpenTok item) ∧ u32_ok (ix_CloseTok item) ∧
  span_ok (ix_IndexStart item) (ix_IndexEnd item).

#[export] Hint Unfold IndexExpr_ok appendIndexExpr readIndexExpr : wire.

#[export, refine] Instance IndexExpr_codec : Codec IndexExpr := {|
  codec_ok := IndexExpr_ok; codec_append := appendIndexExpr; codec_read := readIndexExpr
|}.
Proof.
  - by_append.
  - by_fields.
Defined.

Definition CompositeExpr_ok (item : CompositeExpr) : Prop :=
  u32_ok (cx_OwnerKind item) ∧ u32_ok (cx_OwnerIndex item) ∧
  span_ok (cx_StartTok item) (cx_EndTok item) ∧ span_ok (cx_TypeStart item) (cx_TypeEnd item) ∧
  u32_ok (cx_OpenTok item) ∧ u32_ok (cx_CloseTok item) ∧ spans_ok (cx_Elems item).

#[export] Hint Unfold CompositeExpr_ok appendCompositeExpr readCompositeExpr : wire.

#[export, refine] Instance CompositeExpr_codec : Codec CompositeExpr := {|
  codec_ok := CompositeExpr_ok; codec_append := appendCompositeExpr; codec_read := readCompositeExpr
|}.
Proof.
  - by_append.
  - by_fields.
Defined.

Definition Assignment_ok (item : Assignment) : Prop :=
  u32_ok (asg_FuncIndex item) ∧ u32_ok (asg_Kind item) ∧
  span_ok (asg_StartTok item) (asg_EndTok item) ∧ u32_ok (asg_OpTok item) ∧
  span_ok (asg_LeftStart item) (asg_LeftEnd item) ∧
  span_ok (asg_RightStart item) (asg_RightEnd item) ∧ spans_ok (asg_Targets item) ∧
  spans_ok (asg_Values item).

#[export] Hint Unfold Assignment_ok appendAssignment readAssignment : wire.

#[export, refine] Instance Assignment_codec : Codec Assignment := {|
  codec_ok := Assignment_ok; codec_append := appendAssignment; codec_read := readAssignment
|}.
Proof.
  - by_append.
  - by_fields.
Defined.

Definition Return_ok (item : Return) : Prop :=
  u32_ok (rt_FuncIndex item) ∧ span_ok (rt_StartTok item) (rt_EndTok item) ∧
  spans_ok (rt_Values item).

#[export] Hint Unfold Return_ok appendReturn readReturn : wire.

#[export, refine] Instance Return_codec : Codec Return := {|
  codec_ok := Return_ok; codec_append := appendReturn; codec_read := readReturn
|}.
Proof.
  - by_append.
  - by_fields.
Defined.

Definition Call_ok (item : Call) : Prop :=
  u32_ok (cl_OwnerKind item) ∧ u32_ok (cl_OwnerIndex item) ∧ u32_ok (cl_Kind item) ∧
  u32_ok (cl_CalleeTok item) ∧ u32_ok (cl_BaseTok item) ∧ u32_ok (cl_DotTok item) ∧
  span_ok (cl_ArgsStart item) (cl_ArgsEnd item) ∧ spans_ok (cl_Args item).

#[export] Hint Unfold Call_ok appendCall readCall : wire.

#[export, refine] Instance Call_codec : Codec Call := {|
  codec_ok := Call_ok; codec_append := appendCall; codec_read := readCall
|}.
Proof.
  - by_append.
  - by_fields.
Defined.

Definition NameRef_ok (item : NameRef) : Prop :=
  u32_ok (nr_OwnerKind item) ∧ u32_ok (nr_OwnerIndex item) ∧ u32_ok (nr_Kind item) ∧
  u32_ok (nr_Token item) ∧ nullable_ok (nr_Index item) ∧ nullable_ok (nr_Package item).

#[export] Hint Unfold NameRef_ok appendNameRef readNameRef : wire.

#[export, refine] Instance NameRef_codec : Codec NameRef := {|
  codec_ok := NameRef_ok; codec_append := appendNameRef; codec_read := readNameRef
|}.
Proof.
  - by_append.
  - by_fields.
Defined.

Definition Selector_ok (item : Selector) : Prop :=
  u32_ok (sl_OwnerKind item) ∧ u32_ok (sl_OwnerIndex item) ∧ u32_ok (sl_Kind item) ∧
  u32_ok (sl_BaseTok item) ∧ u32_ok (sl_DotTok item) ∧ u32_ok (sl_NameTok item) ∧
  u32_ok (sl_BaseKind item) ∧ nullable_ok (sl_BaseIndex item) ∧
  nullable_ok (sl_BasePackage item) ∧ nullable_ok (sl_Package item) ∧
  nullable_ok (sl_Symbol item).

#[export] Hint Unfold Selector_ok appendSelector readSelector : wire.

#[export, refine] Instance Selector_codec : Codec Selector := {|
  codec_ok := Selector_ok; codec_append := appendSelector; codec_read := readSelector
|}.
Proof.
  - by_append.
  - by_fields.
Defined.

Definition PackageInfo_ok (item : PackageInfo) : Prop :=
  u32_ok (lenZ (pk_Name item)) ∧ u32_ok (lenZ (pk_ImportPath item)) ∧
  u32_ok (pk_GraphKeyA item) ∧ u32_ok (pk_GraphKeyB item) ∧ u32_ok (pk_SourceKeyA item) ∧
  u32_ok (pk_SourceKeyB item) ∧ span_ok (pk_TextStart item) (pk_TextEnd item) ∧
  span_ok (pk_TokenStart item) (pk_TokenEnd item) ∧
  span_ok (pk_DeclStart item) (pk_DeclEnd item) ∧ span_ok (pk_FuncStart item) (pk_FuncEnd item).

#[export] Hint Unfold PackageInfo_ok appendPackageInfo readPackageInfo : wire.

#[export, refine] Instance PackageInfo_codec : Codec PackageInfo := {|
  codec_ok := PackageInfo_ok; codec_append := appendPackageInfo; codec_read := readPackageInfo
|}.
Proof.
  - by_append.
  - by_fields.
Defined.

(** ** Records with flags, unions and nested lists *)

Definition Import_ok (item : Import) : Prop :=
  u32_ok (lenZ (im_Name item)) ∧ u32_ok (lenZ (im_ImportPath item)) ∧
  nullable_ok (im_Package item) ∧ nullable_ok (im_NameTok item) ∧ u32_ok (im_PathTok item) ∧
  im_Dot item && im_Blank item = false.

Lemma importFlags_spec item :
  im_Dot item && im_Blank item = false →
  u32_ok (importFlags item) ∧ (3 <? importFlags item) = false ∧
  negb (Z.land (importFlags item) 1 =? 0) = im_Dot item ∧
  negb (Z.land (importFlags item) 2 =? 0) = im_Blank item.
Proof. unfold importFlags. by destruct (im_Dot item), (im_Blank item). Qed.

#[export, refine] Instance Import_codec : Codec Import := {|
  codec_ok := Import_ok; codec_append := appendImport; codec_read := readImport
|}.
Proof.
  - intros out item. unfold appendImport. cbv zeta. autorewrite with wire.
    by rewrite app_nil_l, <- !app_assoc.
  - intros item (?&?&?&?&?&Hf). destruct (importFlags_spec item Hf) as (?&Hmax&Hd&Hb).
    unfold appendImport, readImport. cbv zeta. autorewrite with wire.
    rewrite app_nil_l, <- !app_assoc. rewrite <- (app_nil_r (varint (importFlags item))).
    do 6 (eapply reads_bind; [solve [eauto with wire]|cbv beta]).
    apply reads_reject; [done|]. rewrite Hd, Hb. apply reads_reject; [done|].
    apply reads_ret_eq. by destruct item.
Defined.

#[export, refine] Instance varint_codec : Codec Z := {|
  codec_ok := u32_ok; codec_append := appendVarint; codec_read := readVarint
|}.
Proof.
  - intros out v. apply appendVarint_app.
  - intros v Hv. by apply reads_varint.
Defined.

(** The value of the kind is set, the other two are zero. *)
Definition ConstValue_ok (item : ConstValue) : Prop :=
  u32_ok (cv_DeclIndex item) ∧
  (cv_Kind item = ConstInt ∧ - 2 ^ 31 ≤ cv_Int item < 2 ^ 31 ∧
     cv_String item = [] ∧ cv_Bool item = false ∨
   cv_Kind item = ConstString ∧ cv_Int item = 0 ∧ u32_ok (lenZ (cv_String item)) ∧
     cv_Bool item = false ∨
   cv_Kind item = ConstBool ∧ cv_Int item = 0 ∧ cv_String item = []).

#[export, refine] Instance ConstValue_codec : Codec ConstValue := {|
  codec_ok := ConstValue_ok; codec_append := appendConstValue; codec_read := readConstValue
|}.
Proof.
  - intros out item. unfold appendConstValue. cbv zeta.
    destruct (cv_Kind item =? ConstInt), (cv_Kind item =? ConstString);
      autorewrite with wire; by rewrite app_nil_l, <- !app_assoc.
  - intros [decl kind i s b] [Hd Hv]; cbn in *. unfold appendConstValue, readConstValue. cbv zeta.
    cbn [cv_DeclIndex cv_Kind cv_Int cv_String cv_Bool].
    destruct Hv as [(->&?&->&->)|[(->&->&?&->)|(->&->&->)]].
    + change (ConstInt =? ConstInt) with true. cbv iota.
      autorewrite with wire. rewrite app_nil_l, <- app_assoc, <- (app_nil_r (signedBytes _)).
      do 2 (eapply reads_bind; [by apply reads_varint|cbv beta]).
      eapply reads_bind; [by apply reads_signed|]. by apply reads_ret_eq.
    + change (ConstString =? ConstInt) with false. change (ConstString =? ConstString) with true.
      cbv iota. autorewrite with wire. rewrite app_nil_l, <- app_assoc, <- (app_nil_r (stringBytes _)).
      do 2 (eapply reads_bind; [by apply reads_varint|cbv beta]).
      eapply reads_bind; [by apply reads_string|]. by apply reads_ret_eq.
    + change (ConstBool =? ConstInt) with false. change (ConstBool =? ConstString) with false.
      cbv iota. autorewrite with wire. rewrite app_nil_l, <- app_assoc, <- (app_nil_r (boolBytes _)).
      do 2 (eapply reads_bind; [by apply reads_varint|cbv beta]).
      eapply reads_bind; [by apply reads_bool|]. by apply reads_ret_eq.
Defined.

Definition InterfaceEmbed_ok (item : InterfaceEmbed) : Prop :=
  span_ok (ie_TypeStart item) (ie_TypeEnd item).

#[export] Hint Unfold InterfaceEmbed_ok appendInterfaceEmbed readInterfaceEmbed : wire.

#[export, refine] Instance InterfaceEmbed_codec : Codec InterfaceEmbed := {|
  codec_ok := InterfaceEmbed_ok; codec_append := appendInterfaceEmbed;
  codec_read := readInterfaceEmbed
|}.
Proof.
  - by_append.
  - by_fields.
Defined.

Definition InterfaceMethod_ok (item : InterfaceMethod) : Prop :=
  u32_ok (imd_NameTok item) ∧ fields_ok (imd_Params item) ∧ fields_ok (imd_Results item).

#[export] Hint Unfold InterfaceMethod_ok appendInterfaceMethod readInterfaceMethod : wire.

#[export, refine] Instance InterfaceMethod_codec : Codec InterfaceMethod := {|
  codec_ok := InterfaceMethod_ok; codec_append := appendInterfaceMethod;
  codec_read := readInterfaceMethod
|}.
Proof.
  - by_append.
  - by_fields.
Defined.

Definition TypeIface_ok (item : TypeIface) : Prop :=
  u32_ok (tif_TypeIndex item) ∧
  Forall InterfaceEmbed_ok (tif_Embeds item) ∧ u32_ok (lenZ (tif_Embeds item)) ∧
  Forall InterfaceMethod_ok (tif_Methods item) ∧ u32_ok (lenZ (tif_Methods item)).

(** The bytes of a list, without its count. *)
Definition itemsBytes {A} `{Codec A} (items : list A) : list Z := foldl codec_append [] items.

Lemma appendTypeIface_bytes out item :
  appendTypeIface out item = out ++ varint (tif_TypeIndex item) ++
    (varint (lenZ (tif_Embeds item)) ++ itemsBytes (tif_Embeds item)) ++
    (varint (lenZ (tif_Methods item)) ++ itemsBytes (tif_Methods item)).
Proof.
  unfold appendTypeIface. cbv zeta.
  rewrite (@foldl_append _ InterfaceMethod_codec (appendVarint _ _)).
  rewrite !(appendVarint_app _ (lenZ (tif_Methods item))).
  rewrite (@foldl_append _ InterfaceEmbed_codec (appendVarint _ _)).
  autorewrite with wire. by rewrite <- !app_assoc.
Qed.

#[export, refine] Instance TypeIface_codec : Codec TypeIface := {|
  codec_ok := TypeIface_ok; codec_append := appendTypeIface; codec_read := readTypeIface
|}.
Proof.
  - intros out item. by rewrite !(appendTypeIface_bytes _ item), app_nil_l.
  - intros item (?&?&?&?&?). rewrite appendTypeIface_bytes, app_nil_l.
    rewrite <- (app_nil_r (varint (lenZ (tif_Methods item)) ++ _)).
    eapply reads_bind; [by apply reads_varint|cbv beta].
    eapply reads_bind; [by apply (@reads_counted _ InterfaceEmbed_codec)|cbv beta].
    eapply reads_bind; [by apply (@reads_counted _ InterfaceMethod_codec)|cbv beta].
    apply reads_ret_eq. by destruct item.
Defined.
