(* ===== verification/WireTokens.v ===== *)
(** The token table of the unit format (backend/unit/unit.go): fixed-width token
    records in memory, delta-encoded on the wire. *)

From S2P Require Import Prelude.
From S2P Require Import GoInt.
From S2P Require Import WireReader.

Definition renvoTokEOF : Z := 0.
Definition renvoTokOp : Z := 22.
Definition tokenStride : Z := 8.

Definition readTokenStart (tokens : list Z) (pos : Z) : res Z :=
  a ← index (tokens !!z (pos + 1));
  b ← index (tokens !!z (pos + 2));
  c ← index (tokens !!z (pos + 3));
  Ok (Z.lor (Z.lor a (Z.shiftl b 8)) (Z.shiftl c 16)).

(** * Encoding *)

(** The loop [for pos := 0; pos < len(tokens); pos += tokenStride]. *)
Fixpoint encodeTokens_loop (fuel : nat) (text tokens tokenLines : list Z)
    (pos prevStart prevLine : Z) (out : list Z) : res (list Z) :=
  match fuel with
  | O => Ok out
  | S fuel =>
      if pos <? lenZ tokens then
        kind ← index (tokens !!z pos);
        start ← readTokenStart tokens pos;
        size0 ← index (tokens !!z (pos + 4));
        size ← (if negb (kind =? renvoTokOp) then
                  high ← index (tokens !!z (pos + 5)); Ok (Z.lor size0 (Z.shiftl high 8))
                else Ok size0);
        l0 ← index (tokens !!z (pos + 6));
        l1 ← index (tokens !!z (pos + 7));
        line ← (if lenZ tokenLines =? lenZ tokens `div` tokenStride then
                  index (tokenLines !!z (pos `div` tokenStride))
                else Ok (Z.lor l0 (Z.shiftl l1 8)));
        if start <? prevStart then Err
        else if line <? prevLine then Err
        else if lenZ text <? start + size then Err
        else
          let out := appendVarint out kind in
          let out := appendVarint out (start - prevStart) in
          let out := appendVarint out size in
          let out := appendVarint out (line - prevLine) in
          encodeTokens_loop fuel text tokens tokenLines (pos + tokenStride) start line out
      else Ok out
  end.

Definition encodeTokens (text tokens tokenLines : list Z) : res (list Z) :=
  encodeTokens_loop (length tokens) text tokens tokenLines 0 0 0
    (appendVarint [] (lenZ tokens `div` tokenStride)).

(** * Decoding *)

(** What the decoder carries from token to token. *)
Record tokenState := TokenState {
  ts_out : list Z; ts_largeLines : list Z; ts_start : Z; ts_line : Z
}.

(** The lines of the records before [i], recovered from [out]: the loop
    [for j := 0; j < i; j++]. *)
Fixpoint recordedLines (n : nat) (j : Z) (out acc : list Z) : res (list Z) :=
  match n with
  | O => Ok acc
  | S n =>
      let at_ := j * tokenStride in
      a ← index (out !!z (at_ + 6));
      b ← index (out !!z (at_ + 7));
      recordedLines n (j + 1) out (acc ++ [Z.lor a (Z.shiftl b 8)])
  end.

(** [largeLines] once the token [i] at [line] has been read. *)
Definition trackLine (i line : Z) (st : tokenState) : res (list Z) :=
  largeLines ← (if (65535 <? line) && (lenZ (ts_largeLines st) =? 0) then
                  recordedLines (Z.to_nat i) 0 (ts_out st) []
                else Ok (ts_largeLines st));
  Ok (if 0 <? lenZ largeLines then largeLines ++ [line] else largeLines).

(** The record of a token, [rec[5]] being given. *)
Definition tokenRecord (kind start size r5 line : Z) : list Z :=
  [u8 kind; u8 start; u8 (Z.shiftr start 8); u8 (Z.shiftr start 16); u8 size; r5;
   u8 line; u8 (Z.shiftr line 8)].

Definition liftRes {A} (r : res A) : Reader A := λ data pos, a ← r; Ok (a, pos).

(** The loop body of [decodeTokens]. *)
Definition decodeToken (text : list Z) (i : Z) (st : tokenState) : Reader tokenState :=
  kind ← readVarint;
  startDelta ← readVarint;
  size ← readVarint;
  lineDelta ← readVarint;
  let start := ts_start st + startDelta in
  let line := ts_line st + lineDelta in
  _ ← reject ((kind <? 0) || (255 <? kind) || (start <? 0) || (0xffffff <? start) ||
              (size <? 0) || (line <? 0) || (lenZ text <? start + size));
  largeLines ← liftRes (trackLine i line st);
  _ ← reject ((kind =? renvoTokOp) && (255 <? size));
  _ ← reject (negb (kind =? renvoTokOp) && (0xffff <? size));
  r5 ← liftRes (if kind =? renvoTokOp then
                  if 0 <? size then index (text !!z start) else Ok 0
                else Ok (u8 (Z.shiftr size 8)));
  mret (TokenState (ts_out st ++ tokenRecord kind start size r5 line) largeLines start line).

Fixpoint decodeTokens_loop (n : nat) (text : list Z) (i : Z) (st : tokenState)
    : Reader tokenState :=
  match n with
  | O => mret st
  | S n => st ← decodeToken text i st; decodeTokens_loop n text (i + 1) st
  end.

Definition decodeTokens (text data : list Z) : res (list Z * list Z) :=
  '(count, pos) ← readVarint data 0;
  if count <? 0 then Err
  else
    '(st, pos) ← decodeTokens_loop (Z.to_nat count) text 0 (TokenState [] [] 0 0) data pos;
    if negb (pos =? lenZ data) then Err else Ok (ts_out st, ts_largeLines st).
