(* ===== verification/WireUnit.v ===== *)
(** The unit container (backend/unit/unit.go): a header and a root node whose
    children carry the tables; [Marshal] writes it, [Unmarshal] checks and reads
    it. *)

From stdpp Require Import gmap.
From S2P Require Import Prelude.
From S2P Require Import GoInt.
From S2P Require Import WireReader.
From S2P Require Import WireTables.
From S2P Require Import WireTokens.

(** * Schema (schema_generated.go) *)

Definition Magic : list Z := [82; 78; 86; 79].
Definition Version : Z := 1.
Definition TagUnit : Z := 1.
Definition TagPackage : Z := 2.
Definition TagImportPath : Z := 3.
Definition TagText : Z := 7.
Definition TagTokens : Z := 8.
Definition TagDecls : Z := 9.
Definition TagFuncs : Z := 10.
Definition TagIndexes : Z := 11.
Definition TagComps : Z := 12.
Definition TagAssigns : Z := 13.
Definition TagReturns : Z := 14.
Definition TagCalls : Z := 15.
Definition TagRefs : Z := 16.
Definition TagSels : Z := 17.
Definition TagTypes : Z := 18.
Definition TagTypeRefs : Z := 19.
Definition TagLocals : Z := 20.
Definition TagSigs : Z := 21.
Definition TagDeclMeta : Z := 22.
Definition TagImports : Z := 23.
Definition TagSymbols : Z := 24.
Definition TagInitOrder : Z := 25.
Definition TagConsts : Z := 26.
Definition TagTypeFields : Z := 27.
Definition TagTypeIfaces : Z := 28.
Definition TagMethods : Z := 29.
Definition TagTypeFuncs : Z := 30.
Definition TagStmts : Z := 31.
Definition TagPackages : Z := 32.
Definition TagRTGAssembly : Z := 33.
Definition TagEntrypoint : Z := 34.
Definition TagForeignPrograms : Z := 35.

Definition schemaChildTagIndex (tag : Z) : Z :=
  if (TagPackage <=? tag) && (tag <=? TagImportPath) then tag - 2
  else if (TagText <=? tag) && (tag <=? TagForeignPrograms) then tag - 5
  else -1.

Definition schemaRequiredChildMaskLow : Z := 63.
Definition schemaRequiredChildMaskHigh : Z := 0.

(** * Programs *)

Record Program := MkProgram {
  p_Package : list Z; p_ImportPath : list Z; p_Text : list Z; p_Tokens : list Z;
  p_TokenLines : list Z; p_Imports : list Import; p_Symbols : list Symbol; p_Decls : list Decl;
  p_DeclMeta : list DeclMeta; p_InitOrder : list Z; p_Consts : list ConstValue;
  p_Funcs : list Func; p_Signatures : list FuncSignature; p_Stmts : list Statement;
  p_Types : list TypeInfo; p_TypeFields : list TypeFields; p_TypeIfaces : list TypeIface;
  p_TypeFuncs : list TypeFuncSig; p_Methods : list MethodInfo; p_TypeRefs : list TypeRef;
  p_Locals : list LocalDecl; p_Indexes : list IndexExpr; p_Composites : list CompositeExpr;
  p_Assigns : list Assignment; p_Returns : list Return; p_Calls : list Call;
  p_Refs : list NameRef; p_Selectors : list Selector; p_Packages : list PackageInfo
}.

Definition unitRangeValid (limit start end_ : Z) : bool :=
  (0 <=? start) && (start <=? end_) && (end_ <=? limit).

Definition declRangeValid (textSize tokenCount : Z) (decl : Decl) : bool :=
  unitRangeValid textSize (dc_NameStart decl) (dc_NameEnd decl) &&
  unitRangeValid tokenCount (dc_StartTok decl) (dc_EndTok decl).

Definition funcRangeValid (textSize tokenCount : Z) (fn : Func) : bool :=
  unitRangeValid textSize (fn_NameStart fn) (fn_NameEnd fn) &&
  unitRangeValid tokenCount (fn_StartTok fn) (fn_EndTok fn) &&
  unitRangeValid tokenCount (fn_ReceiverStart fn) (fn_ReceiverEnd fn) &&
  unitRangeValid tokenCount (fn_BodyStart fn) (fn_BodyEnd fn) &&
  negb ((fn_NameTok fn <? fn_StartTok fn) || (fn_EndTok fn <=? fn_NameTok fn)).

Definition packageRangeValid (textSize tokenCount declCount funcCount : Z) (pkg : PackageInfo)
    : bool :=
  negb ((lenZ (pk_Name pkg) =? 0) || (lenZ (pk_ImportPath pkg) =? 0)) &&
  unitRangeValid textSize (pk_TextStart pkg) (pk_TextEnd pkg) &&
  unitRangeValid tokenCount (pk_TokenStart pkg) (pk_TokenEnd pkg) &&
  unitRangeValid declCount (pk_DeclStart pkg) (pk_DeclEnd pkg) &&
  unitRangeValid funcCount (pk_FuncStart pkg) (pk_FuncEnd pkg).

Definition validateCoreUnitRanges (program : Program) : res unit :=
  let textSize := lenZ (p_Text program) in
  _ ← check (negb (lenZ (p_Package program) =? 0));
  _ ← check (negb (textSize =? 0));
  _ ← check (negb ((lenZ (p_Tokens program) =? 0) ||
                   negb (lenZ (p_Tokens program) `mod` tokenStride =? 0)));
  let tokenCount := lenZ (p_Tokens program) `div` tokenStride in
  _ ← check (negb (negb (lenZ (p_TokenLines program) =? 0) &&
                   negb (lenZ (p_TokenLines program) =? tokenCount)));
  lastKind ← index (p_Tokens program !!z ((tokenCount - 1) * tokenStride));
  _ ← check (lastKind =? renvoTokEOF);
  _ ← check (forallb (declRangeValid textSize tokenCount) (p_Decls program));
  _ ← check (forallb (funcRangeValid textSize tokenCount) (p_Funcs program));
  check (forallb (packageRangeValid textSize tokenCount (lenZ (p_Decls program))
                    (lenZ (p_Funcs program))) (p_Packages program)).

(** * Nodes *)

#[warnings="-register-all"]
Inductive Node := MkNode (tag : Z) (data : list Z) (children : list Node).

Definition NewNode (tag : Z) (data : list Z) : Node := MkNode tag data [].
Definition Parent (tag : Z) (children : list Node) : Node := MkNode tag [] children.

Fixpoint writeNode (out : list Z) (node : Node) {struct node} : res (list Z) :=
  match node with
  | MkNode tag data children =>
      payload ←
        (if 0 <? lenZ children then
           (fix writeChildren (nested : list Z) (children : list Node) {struct children} : res (list Z) :=
              match children with
              | [] => Ok nested
              | child :: children => nested ← writeNode nested child; writeChildren nested children
              end) [] children
         else Ok data);
      if 2 ^ 32 - 1 <? lenZ payload then Err
      else Ok (out ++ bytes16 tag ++ bytes32 (lenZ payload) ++ payload)
  end.

(** The children of the root, in the order [Marshal] writes them. *)
Definition childNodes (program : Program) (tokens : list Z) : list Node :=
  [ NewNode TagPackage (p_Package program);
    NewNode TagImportPath (p_ImportPath program);
    NewNode TagText (p_Text program);
    NewNode TagTokens tokens;
    NewNode TagImports (encodeImports (p_Imports program));
    NewNode TagSymbols (encodeSymbols (p_Symbols program));
    NewNode TagDecls (encodeDecls (p_Decls program));
    NewNode TagDeclMeta (encodeDeclMeta (p_DeclMeta program));
    NewNode TagInitOrder (encodeInitOrder (p_InitOrder program));
    NewNode TagConsts (encodeConsts (p_Consts program));
    NewNode TagFuncs (encodeFuncs (p_Funcs program));
    NewNode TagSigs (encodeSignatures (p_Signatures program));
    NewNode TagStmts (encodeStatements (p_Stmts program));
    NewNode TagTypes (encodeTypes (p_Types program));
    NewNode TagTypeFields (encodeTypeFields (p_TypeFields program));
    NewNode TagTypeIfaces (encodeTypeInterfaces (p_TypeIfaces program));
    NewNode TagTypeFuncs (encodeTypeFuncs (p_TypeFuncs program));
    NewNode TagMethods (encodeMethods (p_Methods program));
    NewNode TagTypeRefs (encodeTypeRefs (p_TypeRefs program));
    NewNode TagLocals (encodeLocals (p_Locals program));
    NewNode TagIndexes (encodeIndexes (p_Indexes program));
    NewNode TagComps (encodeComposites (p_Composites program));
    NewNode TagAssigns (encodeAssignments (p_Assigns program));
    NewNode TagReturns (encodeReturns (p_Returns program));
    NewNode TagCalls (encodeCalls (p_Calls program));
    NewNode TagRefs (encodeRefs (p_Refs program));
    NewNode TagSels (encodeSelectors (p_Selectors program));
    NewNode TagPackages (encodePackages (p_Packages program));
    NewNode TagRTGAssembly [];
    NewNode TagEntrypoint [];
    NewNode TagForeignPrograms [] ].

Definition Marshal (program : Program) : res (list Z) :=
  _ ← validateCoreUnitRanges program;
  tokens ← encodeTokens (p_Text program) (p_Tokens program) (p_TokenLines program);
  let root := Parent TagUnit (childNodes program tokens) in
  writeNode (Magic ++ bytes16 Version ++ bytes16 0) root.

(** * Reading a unit *)

(** [binary.LittleEndian.Uint16] and [Uint32] of the bytes at [at_]. *)
Definition uint16At (data : list Z) (at_ : Z) : res Z :=
  a ← index (data !!z at_); b ← index (data !!z (at_ + 1)); Ok (le16 a b).
Definition uint32At (data : list Z) (at_ : Z) : res Z :=
  a ← index (data !!z at_); b ← index (data !!z (at_ + 1));
  c ← index (data !!z (at_ + 2)); d ← index (data !!z (at_ + 3)); Ok (le32 a b c d).

(** The variables the child loop assigns: the tag masks, the tables decoded in
    place, and the payload kept for each tag seen ([seenX] is its presence). *)
Record scan := Scan {
  sc_low : Z; sc_high : Z; sc_data : gmap Z (list Z); sc_decls : list Decl; sc_funcs : list Func
}.

(** [seenTagMaskLow] and [seenTagMaskHigh] after [tag]; a duplicate is an error. *)
Definition markTag (tag low high : Z) : res (Z * Z) :=
  let tagIndex := schemaChildTagIndex tag in
  if 0 <=? tagIndex then
    if tagIndex <? 16 then
      let bit := Z.shiftl 1 tagIndex in
      if negb (Z.land low bit =? 0) then Err else Ok (Z.lor low bit, high)
    else
      let bit := Z.shiftl 1 (tagIndex - 16) in
      if negb (Z.land high bit =? 0) then Err else Ok (low, Z.lor high bit)
  else Ok (low, high).

(** The tags with a case of their own in the switch. *)
Definition switchTags : list Z :=
  [TagPackage; TagImportPath; TagText; TagTokens; TagImports; TagSymbols; TagDecls; TagDeclMeta;
   TagInitOrder; TagConsts; TagFuncs; TagSigs; TagStmts; TagTypes; TagTypeFields; TagTypeIfaces;
   TagTypeFuncs; TagMethods; TagTypeRefs; TagLocals; TagIndexes; TagComps; TagAssigns;
   TagReturns; TagCalls; TagRefs; TagSels; TagPackages].

(** The switch over the tag of a child. *)
Definition visitChild (tag : Z) (payload : list Z) (sc : scan) : res scan :=
  if tag =? TagUnit then Err
  else
    '(low, high) ← markTag tag (sc_low sc) (sc_high sc);
    if bool_decide (tag ∈ switchTags) then
      if bool_decide (is_Some (sc_data sc !! tag)) then Err
      else
        let seen := <[tag := payload]> (sc_data sc) in
        if tag =? TagDecls then
          decls ← decodeDecls payload; Ok (Scan low high seen decls (sc_funcs sc))
        else if tag =? TagFuncs then
          funcs ← decodeFuncs payload; Ok (Scan low high seen (sc_decls sc) funcs)
        else Ok (Scan low high seen (sc_decls sc) (sc_funcs sc))
    else Ok (Scan low high (sc_data sc) (sc_decls sc) (sc_funcs sc)).

(** The loop [for pos < rootEnd]; every child takes at least six bytes. *)
Fixpoint scanChildren (fuel : nat) (data : list Z) (rootEnd pos : Z) (sc : scan) : res scan :=
  match fuel with
  | O => Err
  | S fuel =>
      if pos <? rootEnd then
        if rootEnd <? pos + 6 then Err
        else
          tag ← uint16At data pos;
          length ← uint32At data (pos + 2);
          let pos := pos + 6 in
          let next := pos + length in
          if (next <? pos) || (rootEnd <? next) then Err
          else
            payload ← index (sliceZ data pos next);
            sc ← visitChild tag payload sc;
            scanChildren fuel data rootEnd next sc
      else Ok sc
  end.

(** [if seenX { x, err := decodeX(xData); ... }] *)
Definition optionalTable {A} (sc : scan) (tag : Z) (decode : list Z → res (list A))
    : res (list A) :=
  match sc_data sc !! tag with Some d => decode d | None => Ok [] end.

(** [program.X] or the payload of a required child, empty when unset. *)
Definition payloadOf (sc : scan) (tag : Z) : list Z :=
  match sc_data sc !! tag with Some d => d | None => [] end.

(** The part of [Unmarshal] after the child loop. *)
Definition assemble (sc : scan) : res Program :=
  _ ← check (negb (negb (Z.land (sc_low sc) schemaRequiredChildMaskLow =?
                         schemaRequiredChildMaskLow) ||
                   negb (Z.land (sc_high sc) schemaRequiredChildMaskHigh =?
                         schemaRequiredChildMaskHigh)));
  let package := payloadOf sc TagPackage in
  let text := payloadOf sc TagText in
  _ ← check (negb (lenZ package =? 0));
  _ ← check (negb (lenZ text =? 0));
  '(tokens, tokenLines) ← decodeTokens text (payloadOf sc TagTokens);
  imports ← optionalTable sc TagImports decodeImports;
  symbols ← optionalTable sc TagSymbols decodeSymbols;
  declMeta ← optionalTable sc TagDeclMeta decodeDeclMeta;
  initOrder ← optionalTable sc TagInitOrder decodeInitOrder;
  consts ← optionalTable sc TagConsts decodeConsts;
  sigs ← optionalTable sc TagSigs decodeSignatures;
  stmts ← optionalTable sc TagStmts decodeStatements;
  types ← optionalTable sc TagTypes decodeTypes;
  typeFields ← optionalTable sc TagTypeFields decodeTypeFields;
  typeIfaces ← optionalTable sc TagTypeIfaces decodeTypeInterfaces;
  typeFuncs ← optionalTable sc TagTypeFuncs decodeTypeFuncs;
  methods ← optionalTable sc TagMethods decodeMethods;
  typeRefs ← optionalTable sc TagTypeRefs decodeTypeRefs;
  locals ← optionalTable sc TagLocals decodeLocals;
  indexes ← optionalTable sc TagIndexes decodeIndexes;
  composites ← optionalTable sc TagComps decodeComposites;
  assigns ← optionalTable sc TagAssigns decodeAssignments;
  returns ← optionalTable sc TagReturns decodeReturns;
  calls ← optionalTable sc TagCalls decodeCalls;
  refs ← optionalTable sc TagRefs decodeRefs;
  selectors ← optionalTable sc TagSels decodeSelectors;
  packages ← optionalTable sc TagPackages decodePackages;
  _ ← check (negb (lenZ tokens =? 0));
  let program := MkProgram package (payloadOf sc TagImportPath) text tokens tokenLines imports
    symbols (sc_decls sc) declMeta initOrder consts (sc_funcs sc) sigs stmts types typeFields
    typeIfaces typeFuncs methods typeRefs locals indexes composites assigns returns calls refs
    selectors packages in
  _ ← validateCoreUnitRanges program;
  Ok program.

(** The header checks; [rootEnd] on success. *)
Definition readHeader (data : list Z) : res Z :=
  if lenZ data <? 14 then Err
  else
    magic ← index (sliceZ data 0 4);
    _ ← check (bool_decide (magic = Magic));
    version ← uint16At data 4;
    _ ← check (version =? Version);
    flags ← uint16At data 6;
    _ ← check (flags =? 0);
    rootTag ← uint16At data 8;
    rootLength ← uint32At data 10;
    _ ← check (rootTag =? TagUnit);
    let rootStart := 14 in
    let rootEnd := rootStart + rootLength in
    if (rootEnd <? rootStart) || negb (rootEnd =? lenZ data) then Err else Ok rootEnd.

Definition Unmarshal (data : list Z) : res Program :=
  rootEnd ← readHeader data;
  sc ← scanChildren (S (length data)) data rootEnd 14 (Scan 0 0 ∅ [] []);
  assemble sc.
