(* ===== verification/WireTokensFacts.v ===== *)
(** The token table reads back what it writes. *)

From S2P Require Import Prelude.
From S2P Require Import GoInt.
From S2P Require Import WireReader.
From S2P Require Import WireFacts.
From S2P Require Import WireTokens.

(** * Token tables *)

Record token := Tok { tk_kind : Z; tk_start : Z; tk_size : Z; tk_line : Z }.

(** The sixth byte of a record: the operator character, or the high size byte. *)
Definition operatorByte (text : list Z) (t : token) : Z :=
  if tk_kind t =? renvoTokOp then
    if 0 <? tk_size t then match text !!z tk_start t with Some c => c | None => 0 end else 0
  else u8 (Z.shiftr (tk_size t) 8).

(** The in-memory record of a token, and of a table. *)
Definition tokenBytes (text : list Z) (t : token) : list Z :=
  tokenRecord (tk_kind t) (tk_start t) (tk_size t) (operatorByte text t) (tk_line t).
Definition tableBytes (text : list Z) (tokens : list token) : list Z :=
  concat (tokenBytes text <$> tokens).

Definition tooLong (t : token) : bool := 65535 <? tk_line t.

(** The explicit line table: present when some line needs more than 16 bits. *)
Definition largeLines (tokens : list token) : list Z :=
  if existsb tooLong tokens then tk_line <$> tokens else [].

Definition token_ok (text : list Z) (start line : Z) (t : token) : Prop :=
  byte_ok (tk_kind t) ∧ start ≤ tk_start t ≤ 0xffffff ∧ 0 ≤ tk_size t ∧
  (tk_kind t = renvoTokOp → tk_size t ≤ 255) ∧ tk_size t ≤ 65535 ∧
  tk_start t + tk_size t ≤ lenZ text ∧ line ≤ tk_line t < line + 2 ^ 32.

(** Tokens in source order, from a given start and line. *)
Fixpoint tokens_ok (text : list Z) (start line : Z) (tokens : list token) : Prop :=
  match tokens with
  | [] => True
  | t :: tokens => token_ok text start line t ∧ tokens_ok text (tk_start t) (tk_line t) tokens
  end.

(** The wire form of the tokens, relative to a start and a line. *)
Fixpoint wireTokens (start line : Z) (tokens : list token) : list Z :=
  match tokens with
  | [] => []
  | t :: tokens =>
      varint (tk_kind t) ++ varint (tk_start t - start) ++ varint (tk_size t) ++
      varint (tk_line t - line) ++ wireTokens (tk_start t) (tk_line t) tokens
  end.

(** * Records *)

Lemma tokenBytes_length text t : lenZ (tokenBytes text t) = 8.
Proof. done. Qed.

Lemma tableBytes_length text tokens : lenZ (tableBytes text tokens) = 8 * lenZ tokens.
Proof.
  induction tokens as [|t tokens IH]; [done|]. unfold tableBytes in *. rewrite fmap_cons.
  cbn [concat]. rewrite lenZ_app, lenZ_cons, IH, tokenBytes_length. lia.
Qed.

Lemma tableBytes_app text t1 t2 :
  tableBytes text (t1 ++ t2) = tableBytes text t1 ++ tableBytes text t2.
Proof. unfold tableBytes. by rewrite fmap_app, concat_app. Qed.

Lemma tableBytes_cons text t tokens :
  tableBytes text (t :: tokens) = tokenBytes text t ++ tableBytes text tokens.
Proof. done. Qed.

(** The byte [k] of the record that follows [pre]. *)
Lemma record_lookup text pre t post k :
  0 ≤ k < 8 → (pre ++ tokenBytes text t ++ post) !!z (lenZ pre + k) = tokenBytes text t !!z k.
Proof.
  intros. pose proof (lenZ_nonneg pre). rewrite lookupZ_app_r by lia.
  rewrite lookupZ_app_l by (rewrite tokenBytes_length; lia). f_equal. lia.
Qed.

Lemma record_start text pre t post :
  0 ≤ tk_start t ≤ 0xffffff →
  readTokenStart (pre ++ tokenBytes text t ++ post) (lenZ pre) = Ok (tk_start t).
Proof.
  intros Hs. unfold readTokenStart. rewrite !record_lookup by lia.
  change (Ok (Z.lor (Z.lor (u8 (tk_start t)) (Z.shiftl (u8 (Z.shiftr (tk_start t) 8)) 8))
    (Z.shiftl (u8 (Z.shiftr (tk_start t) 16)) 16)) = Ok (tk_start t)). f_equal.
  pose proof (u8_range (tk_start t)). pose proof (u8_range (Z.shiftr (tk_start t) 8)).
  unfold byte_ok in *. rewrite (lor_shiftl_add (u8 _)) by lia.
  rewrite lor_shiftl_add by lia. rewrite !u8_shiftr by lia. unfold u8.
  Z.div_mod_to_equations. lia.
Qed.

(** * Encoding *)

(** What the encoder finds in the line table. *)
Definition lines_known (tokenLines : list Z) (count i : Z) (tokens : list token) : Prop :=
  if lenZ tokenLines =? count then
    ∀ j t, tokens !!z j = Some t → tokenLines !!z (i + j) = Some (tk_line t)
  else Forall (λ t, tk_line t < 65536) tokens.

Lemma lines_known_cons tokenLines count i t tokens :
  lines_known tokenLines count i (t :: tokens) → lines_known tokenLines count (i + 1) tokens.
Proof.
  unfold lines_known. case_match; [|by intros [_ ?]%Forall_cons].
  intros Hl j t' Hj. replace (i + 1 + j) with (i + (j + 1)) by lia. apply Hl.
  pose proof (lookupZ_lt_Some _ _ _ Hj). by rewrite lookupZ_cons_succ by lia.
Qed.

Lemma encodeTokens_loop_spec fuel text pre tokens tokenLines start line out :
  (length tokens <= fuel)%nat → tokens_ok text start line tokens → 0 ≤ start → 0 ≤ line →
  lenZ pre `mod` 8 = 0 →
  lines_known tokenLines (lenZ (pre ++ tableBytes text tokens) `div` 8) (lenZ pre `div` 8) tokens →
  encodeTokens_loop fuel text (pre ++ tableBytes text tokens) tokenLines (lenZ pre) start line out =
    Ok (out ++ wireTokens start line tokens).
Proof.
  revert pre tokens start line out. induction fuel as [|fuel IH];
    intros pre [|t tokens] start line out Hfuel Hok Hs Hl Hmod Hlines; try (simpl in Hfuel; lia);
    cbn [encodeTokens_loop].
  - by rewrite app_nil_r.
  - change (tableBytes text []) with (@nil Z). rewrite app_nil_r, Z.ltb_irrefl.
    by rewrite app_nil_r.
  - simpl in Hok. destruct Hok as [(Hk&Hst&Hsz&Hop&Hsz2&Hfit&Hln) Hrest].
    rewrite tableBytes_cons in *.
    assert (lenZ (pre ++ tokenBytes text t ++ tableBytes text tokens) =
      lenZ pre + 8 + 8 * lenZ tokens) as Hlen
      by (rewrite !lenZ_app, tableBytes_length, tokenBytes_length; lia).
    pose proof (lenZ_nonneg tokens). rewrite Hlen, (proj2 (Z.ltb_lt _ _)) by lia.
    rewrite <- (Z.add_0_r (lenZ pre)) at 1. rewrite !record_lookup by lia.
    rewrite record_start by lia.
    change (index (tokenBytes text t !!z 0)) with (Ok (u8 (tk_kind t))).
    change (index (tokenBytes text t !!z 4)) with (Ok (u8 (tk_size t))).
    change (index (tokenBytes text t !!z 5)) with (Ok (operatorByte text t)).
    change (index (tokenBytes text t !!z 6)) with (Ok (u8 (tk_line t))).
    change (index (tokenBytes text t !!z 7)) with (Ok (u8 (Z.shiftr (tk_line t) 8))).
    rewrite (u8_small (tk_kind t)) by done. cbn [mbind res_bind].
    assert ((if negb (tk_kind t =? renvoTokOp) then
       Ok (operatorByte text t) ≫= λ high, Ok (Z.lor (u8 (tk_size t)) (Z.shiftl high 8))
       else Ok (u8 (tk_size t))) = Ok (tk_size t)) as Hsize.
    { unfold operatorByte. destruct (Z.eqb_spec (tk_kind t) renvoTokOp) as [He|]; cbn [negb].
      - rewrite u8_small; [done|]. specialize (Hop He). unfold byte_ok. lia.
      - cbn [mbind res_bind]. f_equal. etransitivity; [apply le16_bytes|].
        unfold u16. apply Z.mod_small. lia. }
    cbn [mbind res_bind] in Hsize. rewrite Hsize. cbn [mbind res_bind].
    rewrite Hlen in Hlines.
    assert ((if lenZ tokenLines =? (lenZ pre + 8 + 8 * lenZ tokens) `div` tokenStride
      then index (tokenLines !!z (lenZ pre `div` tokenStride))
      else Ok (Z.lor (u8 (tk_line t)) (Z.shiftl (u8 (Z.shiftr (tk_line t) 8)) 8)))
      = Ok (tk_line t)) as ->.
    { unfold lines_known in Hlines. unfold tokenStride. 
      destruct (lenZ tokenLines =? (lenZ pre + 8 + 8 * lenZ tokens) `div` 8) eqn:Hb.
      - specialize (Hlines 0 t (lookupZ_cons_0 _ _)). rewrite Z.add_0_r in Hlines. by rewrite Hlines.
      - apply Forall_cons in Hlines as [? _]. f_equal. etransitivity; [apply le16_bytes|].
        unfold u16. apply Z.mod_small. lia. }
    cbn [mbind res_bind].
    rewrite (proj2 (Z.ltb_ge (tk_start t) start)), (proj2 (Z.ltb_ge (tk_line t) line)) by lia.
    rewrite (proj2 (Z.ltb_ge (lenZ text) _)) by lia. cbv zeta.
    rewrite !(appendVarint_app (appendVarint _ _)), appendVarint_app.
    rewrite app_assoc. unfold tokenStride.
    replace (lenZ pre + 8) with (lenZ (pre ++ tokenBytes text t))
      by (rewrite lenZ_app, tokenBytes_length; lia).
    rewrite IH; [|simpl in Hfuel; lia|done|lia|lia| |].
    + f_equal. cbn [wireTokens]. by rewrite <- !app_assoc.
    + rewrite lenZ_app, tokenBytes_length. Z.div_mod_to_equations. lia.
    + rewrite <- app_assoc, Hlen. rewrite lenZ_app, tokenBytes_length.
      replace ((lenZ pre + 8) `div` 8) with (lenZ pre `div` 8 + 1)
        by (Z.div_mod_to_equations; lia).
      by eapply lines_known_cons.
Qed.

(** * Decoding *)

(** The lines recovered from records, for tokens that follow [pre]. *)
Lemma recordedLines_spec text pre tokens post acc :
  Forall (λ t, 0 ≤ tk_line t < 65536) tokens →
  recordedLines (length tokens) (lenZ pre) (tableBytes text (pre ++ tokens) ++ post) acc =
    Ok (acc ++ (tk_line <$> tokens)).
Proof.
  intros Hl. revert pre acc. induction Hl as [|t tokens Ht Hl IH]; intros pre acc.
  { cbn. by rewrite app_nil_r. }
  cbn [recordedLines length]. cbv zeta.
  rewrite tableBytes_app, tableBytes_cons, <- !app_assoc.
  assert (lenZ pre * tokenStride = lenZ (tableBytes text pre)) as ->
    by (rewrite tableBytes_length; unfold tokenStride; lia).
  rewrite !record_lookup by lia.
  change (index (tokenBytes text t !!z 6)) with (Ok (u8 (tk_line t))).
  change (index (tokenBytes text t !!z 7)) with (Ok (u8 (Z.shiftr (tk_line t) 8))).
  cbn [mbind res_bind].
  assert (Z.lor (u8 (tk_line t)) (Z.shiftl (u8 (Z.shiftr (tk_line t) 8)) 8) = tk_line t) as ->.
  { etransitivity; [apply le16_bytes|]. unfold u16. by apply Z.mod_small. }
  specialize (IH (pre ++ [t]) (acc ++ [tk_line t])).
  rewrite lenZ_app in IH. change (lenZ [t]) with 1 in IH.
  rewrite <- app_assoc in IH. cbn [app] in IH.
  rewrite tableBytes_app, tableBytes_cons, <- !app_assoc in IH. by rewrite IH.
Qed.

(** The largest line so far is that of the last token. *)
Lemma existsb_tooLong_false tokens :
  existsb tooLong tokens = false ↔ Forall (λ t, tk_line t ≤ 65535) tokens.
Proof.
  induction tokens as [|t tokens IH]; simpl; [by split|].
  rewrite orb_false_iff, IH, Forall_cons. unfold tooLong. rewrite Z.ltb_ge. done.
Qed.

(** The state of the decoder after the tokens [before], the last at [start] and
    [line]. *)
Definition decoded (text : list Z) (before : list token) (start line : Z) : tokenState :=
  TokenState (tableBytes text before) (largeLines before) start line.

(** Lines never decrease, and the first one fits in 16 bits. *)
Definition lines_ok (before : list token) (line : Z) : Prop :=
  Forall (λ t, 0 ≤ tk_line t ≤ line) before.

Lemma trackLine_spec text before start line t :
  lines_ok before line → line ≤ tk_line t → (before = [] → tk_line t ≤ 65535) →
  trackLine (lenZ before) (tk_line t) (decoded text before start line) =
    Ok (largeLines (before ++ [t])).
Proof.
  intros Hl Hle Hfirst. unfold trackLine, decoded. cbn [ts_largeLines ts_out].
  unfold largeLines at 1 2. rewrite <- (app_nil_r (tableBytes text before)).
  unfold largeLines. rewrite existsb_app. cbn [existsb]. rewrite orb_false_r.
  change (tooLong t) with (65535 <? tk_line t).
  destruct (existsb tooLong before) eqn:Hb.
  - assert (before ≠ []) as Hne by by intros ->.
    assert (0 < lenZ (tk_line <$> before)).
    { unfold lenZ. rewrite length_fmap. destruct before; [done|]. simpl. lia. }
    rewrite (proj2 (Z.eqb_neq _ 0)), andb_false_r by lia. cbn [mbind res_bind orb].
    rewrite (proj2 (Z.ltb_lt 0 _)) by lia. by rewrite fmap_app.
  - apply existsb_tooLong_false in Hb. cbn [orb].
    change (lenZ []) with 0. rewrite Z.eqb_refl, andb_true_r.
    destruct (Z.ltb_spec 65535 (tk_line t)) as [Hlong|]; cbn [mbind res_bind].
    2:{ by rewrite Z.ltb_irrefl. }
    assert (before ≠ []) as Hne by (intros Hn; specialize (Hfirst Hn); lia).
    pose proof (recordedLines_spec text [] before [] []) as Hr. cbn [app] in Hr.
    replace (Z.to_nat (lenZ before)) with (length before) by (unfold lenZ; lia). change (lenZ []) with 0 in Hr. rewrite Hr.
    + cbn [mbind res_bind].
      assert (0 < lenZ (tk_line <$> before)).
      { unfold lenZ. rewrite length_fmap. destruct before; [done|]. simpl. lia. }
      rewrite (proj2 (Z.ltb_lt 0 _)) by lia. by rewrite fmap_app.
    + eapply Forall_impl; [by apply Forall_and; split; [exact Hb|exact Hl]|].
      intros t' [??]. simpl in *. lia.
Qed.

Lemma reads_liftRes {A} (r : res A) a : r = Ok a → reads (liftRes r) [] a.
Proof. intros -> pre post. unfold liftRes. rewrite lenZ_nil, Z.add_0_r. done. Qed.

Lemma reads_bind_nil {A B} (rd : Reader A) (f : A → Reader B) bs a b :
  reads rd [] a → reads (f a) bs b → reads (rd ≫= f) bs b.
Proof. intros Ha Hb. change bs with ([] ++ bs). by eapply reads_bind. Qed.

Lemma reads_token text before start line t :
  lines_ok before line → token_ok text start line t → 0 ≤ start → 0 ≤ line →
  (before = [] → tk_line t ≤ 65535) →
  reads (decodeToken text (lenZ before) (decoded text before start line))
    (varint (tk_kind t) ++ varint (tk_start t - start) ++ varint (tk_size t) ++
     varint (tk_line t - line))
    (decoded text (before ++ [t]) (tk_start t) (tk_line t)).
Proof.
  intros Hl (Hk&Hst&Hsz&Hop&Hsz2&Hfit&Hln) Hs H0 Hfirst. unfold decodeToken.
  rewrite <- (app_nil_r (varint (tk_line t - line))).
  unfold byte_ok in Hk.
  do 4 (eapply reads_bind; [apply reads_varint; unfold u32_ok; lia|cbv beta]). cbv zeta.
  change (ts_start (decoded _ _ _ _)) with start. change (ts_line (decoded _ _ _ _)) with line.
  change (ts_out (decoded _ _ _ _)) with (tableBytes text before).
  replace (start + (tk_start t - start)) with (tk_start t) by lia.
  replace (line + (tk_line t - line)) with (tk_line t) by lia.
  apply reads_reject; [lia|].
  eapply reads_bind_nil; [by apply reads_liftRes, trackLine_spec; [|lia|]|].
  apply reads_reject.
  { destruct (Z.eqb_spec (tk_kind t) renvoTokOp) as [He|]; [|done].
    specialize (Hop He). simpl. lia. }
  apply reads_reject; [rewrite (proj2 (Z.ltb_ge _ _)) by lia; apply andb_false_r|].
  eapply reads_bind_nil; [apply (reads_liftRes _ (operatorByte text t))|].
  { unfold operatorByte. destruct (_ =? renvoTokOp); [|done].
    destruct (Z.ltb_spec 0 (tk_size t)); [|done].
    by destruct (lookupZ_lt_is_Some text (tk_start t)) as [c ->]; [lia|]. }
  apply reads_ret_eq. unfold decoded. by rewrite tableBytes_app, tableBytes_cons, app_nil_r.
Qed.

Lemma reads_tokens text before tokens start line :
  lines_ok before line → tokens_ok text start line tokens → 0 ≤ start → 0 ≤ line →
  (before = [] → ∀ t rest, tokens = t :: rest → tk_line t ≤ 65535) →
  ∃ start' line',
    reads (decodeTokens_loop (length tokens) text (lenZ before) (decoded text before start line))
      (wireTokens start line tokens) (decoded text (before ++ tokens) start' line').
Proof.
  revert before start line. induction tokens as [|t tokens IH];
    intros before start line Hl Hok Hs H0 Hfirst; cbn [decodeTokens_loop wireTokens length].
  { exists start, line. apply reads_ret_eq. by rewrite app_nil_r. }
  destruct Hok as [Ht Hok]. pose proof Ht as (_&?&_&_&_&_&?).
  destruct (IH (before ++ [t]) (tk_start t) (tk_line t)) as (start'&line'&Hr); [|done|lia|lia| |].
  { apply Forall_app. split; [|by apply Forall_singleton; lia].
    eapply Forall_impl; [exact Hl|]. simpl. intros. lia. }
  { by intros []%app_eq_nil. }
  exists start', line'.
  apply (reads_eq _ ((varint (tk_kind t) ++ varint (tk_start t - start) ++ varint (tk_size t) ++
    varint (tk_line t - line)) ++ wireTokens (tk_start t) (tk_line t) tokens) _
    (decoded text (before ++ t :: tokens) start' line')); [|by rewrite <- !app_assoc|done].
  eapply reads_bind.
  { apply reads_token; [done..|]. intros Hb. by eapply Hfirst. }
  rewrite lenZ_app in Hr. change (lenZ [t]) with 1 in Hr. rewrite <- app_assoc in Hr.
  exact Hr.
Qed.

(** A canonical token table: in order, with the first line within 16 bits. *)
Definition table_ok (text : list Z) (tokens : list token) : Prop :=
  tokens_ok text 0 0 tokens ∧ u32_ok (lenZ tokens) ∧
  ∀ t rest, tokens = t :: rest → tk_line t ≤ 65535.

Lemma lines_known_large text start line tokens :
  tokens_ok text start line tokens → lines_known (largeLines tokens) (lenZ tokens) 0 tokens.
Proof.
  intros _. unfold lines_known, largeLines. destruct (existsb tooLong tokens) eqn:Ht.
  - unfold lenZ. rewrite length_fmap, Z.eqb_refl. intros j t Hj.
    pose proof (lookupZ_lt_Some _ _ _ Hj). rewrite lookupZ_to_nat in Hj by lia.
    rewrite Z.add_0_l, lookupZ_to_nat by lia. by rewrite list_lookup_fmap, Hj.
  - destruct tokens as [|t tokens]; [intros j t Hj%lookupZ_lt_Some; change (lenZ (@nil token)) with 0 in Hj; lia|].
    rewrite lenZ_nil, lenZ_cons. pose proof (lenZ_nonneg tokens).
    rewrite (proj2 (Z.eqb_neq _ _)) by lia. apply existsb_tooLong_false in Ht.
    eapply Forall_impl; [exact Ht|]. simpl. intros. lia.
Qed.

Lemma encodeTokens_spec text tokens :
  table_ok text tokens →
  encodeTokens text (tableBytes text tokens) (largeLines tokens) =
    Ok (varint (lenZ tokens) ++ wireTokens 0 0 tokens).
Proof.
  intros (Hok&Hlen&_). unfold encodeTokens, tokenStride.
  pose proof (tableBytes_length text tokens) as Hl.
  assert (lenZ (tableBytes text tokens) `div` 8 = lenZ tokens) as Hdiv
    by (rewrite Hl, Z.mul_comm; apply Z.div_mul; lia).
  pose proof (encodeTokens_loop_spec (length (tableBytes text tokens)) text [] tokens
    (largeLines tokens) 0 0 (varint (lenZ tokens))) as He.
  cbn [app] in He. change (lenZ []) with 0 in He. rewrite Hdiv in *.
  apply He; [|done|done|done|done|]; [unfold lenZ in Hl; lia|]. by eapply lines_known_large.
Qed.

(** The decoder inverts the encoder. *)
Lemma tokens_roundtrip text tokens :
  table_ok text tokens →
  ∃ data, encodeTokens text (tableBytes text tokens) (largeLines tokens) = Ok data ∧
    decodeTokens text data = Ok (tableBytes text tokens, largeLines tokens).
Proof.
  intros Hok. eexists. split; [by apply encodeTokens_spec|]. destruct Hok as (Hok&Hlen&Hfirst).
  unfold decodeTokens.
  pose proof (reads_varint _ Hlen [] (wireTokens 0 0 tokens)) as Hc. cbn [app] in Hc.
  change (lenZ []) with 0 in Hc. rewrite Hc. cbn [mbind res_bind].
  unfold u32_ok in Hlen. rewrite (proj2 (Z.ltb_ge _ 0)) by lia.
  destruct (reads_tokens text [] tokens 0 0) as (start&line&Hr); [constructor|done..|].
  pose proof (Hr (varint (lenZ tokens)) []) as Hr'. rewrite app_nil_r in Hr'.
  cbn [app] in Hr'. replace (Z.to_nat (lenZ tokens)) with (length tokens) by (unfold lenZ; lia).
  rewrite Z.add_0_l.
  change (lenZ []) with 0 in Hr'.
  change (decoded text [] 0 0) with (TokenState [] [] 0 0) in Hr'.
  rewrite Hr'. cbn [mbind res_bind]. by rewrite lenZ_app, Z.eqb_refl.
Qed.
