(* ===== verification/WireUnitFacts.v ===== *)
(** The unit container reads back what it writes. *)

From stdpp Require Import gmap.
From S2P Require Import Prelude.
From S2P Require Import GoInt.
From S2P Require Import WireReader.
From S2P Require Import WireFacts.
From S2P Require Import WireTables.
From S2P Require Import WireTablesFacts.
From S2P Require Import WireTokens.
From S2P Require Import WireTokensFacts.
From S2P Require Import WireUnit.

(** * Nodes *)

(** A child as a tag and a payload, and its bytes. *)
Definition nodeBytes (child : Z * list Z) : list Z :=
  bytes16 child.1 ++ bytes32 (lenZ child.2) ++ child.2.
Definition childBytes (children : list (Z * list Z)) : list Z := concat (nodeBytes <$> children).

Definition child_ok (child : Z * list Z) : Prop :=
  0 ≤ child.1 < 2 ^ 16 ∧ lenZ child.2 < 2 ^ 32.

Lemma nodeBytes_length child : lenZ (nodeBytes child) = 6 + lenZ child.2.
Proof. unfold nodeBytes. rewrite !lenZ_app. change (lenZ (bytes16 _)) with 2.
  change (lenZ (bytes32 _)) with 4. lia. Qed.

Lemma childBytes_cons child children :
  childBytes (child :: children) = nodeBytes child ++ childBytes children.
Proof. done. Qed.

Lemma childBytes_bound children :
  Forall (λ c, lenZ c.2 ≤ lenZ (childBytes children)) children.
Proof.
  induction children as [|c children IH]; constructor; rewrite childBytes_cons, lenZ_app,
    nodeBytes_length; pose proof (lenZ_nonneg (childBytes children)); [lia|].
  eapply Forall_impl; [exact IH|]. intros c' ?. pose proof (lenZ_nonneg c.2). simpl in *. lia.
Qed.

Lemma childBytes_length children : 6 * lenZ children ≤ lenZ (childBytes children).
Proof.
  induction children as [|c children IH]; [done|].
  rewrite childBytes_cons, lenZ_app, nodeBytes_length, lenZ_cons. pose proof (lenZ_nonneg c.2). lia.
Qed.

Definition toNode (child : Z * list Z) : Node := NewNode child.1 child.2.

(** A payload that the length field cannot hold. *)
Definition too_big (payload : list Z) : bool := 2 ^ 32 - 1 <? lenZ payload.

Lemma writeNode_leaf out child :
  writeNode out (toNode child) = if too_big child.2 then Err else Ok (out ++ nodeBytes child).
Proof.
  unfold toNode, NewNode, nodeBytes, too_big. cbn [writeNode]. change (lenZ []) with 0.
  by rewrite Z.ltb_irrefl.
Qed.

(** A child that is too big makes its parent too big. *)
Lemma too_big_child children :
  existsb (λ c, too_big c.2) children = true → too_big (childBytes children) = true.
Proof.
  intros (c&Hin&Hc)%existsb_exists. unfold too_big in *.
  pose proof (childBytes_bound children) as Hb. rewrite Forall_forall in Hb.
  specialize (Hb c (proj2 (list_elem_of_In _ _) Hin)). lia.
Qed.

Lemma writeNode_root out tag children :
  children ≠ [] →
  writeNode out (Parent tag (toNode <$> children)) =
    if too_big (childBytes children) then Err else Ok (out ++ nodeBytes (tag, childBytes children)).
Proof.
  intros Hne. unfold Parent. cbn [writeNode].
  assert (0 < lenZ (toNode <$> children)) as Hpos.
  { unfold lenZ. rewrite length_fmap. destruct children; [done|]. simpl. lia. }
  rewrite (proj2 (Z.ltb_lt _ _)) by done.
  assert (∀ nested, (fix writeChildren (nested : list Z) (children : list Node) {struct children}
      : res (list Z) :=
      match children with
      | [] => Ok nested
      | child :: children => nested ← writeNode nested child; writeChildren nested children
      end) nested (toNode <$> children) =
        if existsb (λ c, too_big c.2) children then Err else Ok (nested ++ childBytes children))
    as Hgo.
  { clear Hne Hpos. induction children as [|c children IH]; intros nested.
    - cbn. by rewrite app_nil_r.
    - rewrite fmap_cons, writeNode_leaf. cbn [existsb].
      destruct (too_big c.2); cbn [mbind res_bind orb]; [done|]. rewrite IH.
      destruct (existsb _ children); [done|]. by rewrite childBytes_cons, app_assoc. }
  rewrite Hgo. destruct (existsb _ children) eqn:He.
  { by rewrite too_big_child. }
  cbn [mbind res_bind app]. done.
Qed.

(** * The child loop *)

Fixpoint visitAll (children : list (Z * list Z)) (sc : scan) : res scan :=
  match children with
  | [] => Ok sc
  | c :: children => sc ← visitChild c.1 c.2 sc; visitAll children sc
  end.

Lemma uint16At_app pre v post :
  0 ≤ v < 2 ^ 16 → uint16At (pre ++ bytes16 v ++ post) (lenZ pre) = Ok v.
Proof.
  intros Hv. unfold uint16At. rewrite <- (Z.add_0_r (lenZ pre)) at 1.
  rewrite !lookupZ_mid by done.
  change (Ok (le16 (u8 v) (u8 (Z.shiftr v 8))) = Ok v). rewrite le16_bytes.
  unfold u16. by rewrite Z.mod_small.
Qed.

Lemma uint32At_app pre v post :
  u32_ok v → uint32At (pre ++ bytes32 v ++ post) (lenZ pre) = Ok v.
Proof.
  intros Hv. unfold uint32At. rewrite <- (Z.add_0_r (lenZ pre)) at 1.
  rewrite !lookupZ_mid by done.
  change (Ok (le32 (u8 v) (u8 (Z.shiftr v 8)) (u8 (Z.shiftr v 16)) (u8 (Z.shiftr v 24))) = Ok v).
  by rewrite le32_bytes, u32_small.
Qed.

Lemma scanChildren_spec fuel pre children sc :
  Forall child_ok children → (length children < fuel)%nat →
  scanChildren fuel (pre ++ childBytes children) (lenZ (pre ++ childBytes children)) (lenZ pre) sc =
    visitAll children sc.
Proof.
  intros Hok. revert pre fuel sc.
  induction Hok as [|c children [Ht Hl] Hok IH]; intros pre [|fuel] sc Hf; try (simpl in Hf; lia);
    cbn [scanChildren visitAll].
  - change (childBytes []) with (@nil Z). by rewrite app_nil_r, Z.ltb_irrefl.
  - rewrite childBytes_cons. pose proof (lenZ_nonneg (childBytes children)).
    pose proof (lenZ_nonneg c.2).
    assert (lenZ (pre ++ nodeBytes c ++ childBytes children) =
      lenZ pre + 6 + lenZ c.2 + lenZ (childBytes children)) as Hlen
      by (rewrite !lenZ_app, nodeBytes_length; lia).
    rewrite Hlen, (proj2 (Z.ltb_lt _ _)), (proj2 (Z.ltb_ge _ (lenZ pre + 6))) by lia.
    set (D := pre ++ nodeBytes c ++ childBytes children) in *.
    set (P2 := pre ++ bytes16 c.1). set (P6 := P2 ++ bytes32 (lenZ c.2)).
    assert (lenZ P2 = lenZ pre + 2) as HP2 by (unfold P2; rewrite lenZ_app; done).
    assert (lenZ P6 = lenZ pre + 6) as HP6 by (unfold P6; rewrite lenZ_app, HP2;
      change (lenZ (bytes32 _)) with 4; lia).
    pose proof (lenZ_nonneg pre).
    assert (uint16At D (lenZ pre) = Ok c.1) as ->.
    { rewrite <- (uint16At_app pre c.1 (bytes32 (lenZ c.2) ++ c.2 ++ childBytes children)) by done.
      unfold D, nodeBytes. by rewrite <- !app_assoc. }
    assert (uint32At D (lenZ pre + 2) = Ok (lenZ c.2)) as Hl32.
    { rewrite <- HP2, <- (uint32At_app P2 (lenZ c.2) (c.2 ++ childBytes children))
        by (unfold u32_ok; lia).
      unfold D, P2, nodeBytes. by rewrite <- !app_assoc. }
    assert (sliceZ D (lenZ pre + 6) (lenZ pre + 6 + lenZ c.2) = Some c.2) as Hsl.
    { rewrite sliceZ_Some by lia. rewrite <- HP6. f_equal.
      rewrite <- (sublistZ_app_exact P6 c.2 (childBytes children)) at 2.
      unfold D, P6, P2, nodeBytes. by rewrite <- !app_assoc. }
    cbn [mbind res_bind]. rewrite Hl32. cbn [mbind res_bind]. cbv zeta.
    assert ((lenZ pre + 6 + lenZ c.2 <? lenZ pre + 6) ||
      (lenZ pre + 6 + lenZ c.2 + lenZ (childBytes children) <? lenZ pre + 6 + lenZ c.2) = false)
      as -> by lia.
    rewrite Hsl. cbn [mbind res_bind index].
    destruct (visitChild c.1 c.2 sc) as [sc'| |]; [|done..].
    replace D with ((pre ++ nodeBytes c) ++ childBytes children) by (by rewrite <- app_assoc).
    replace (lenZ pre + 6 + lenZ c.2) with (lenZ (pre ++ nodeBytes c))
      by (rewrite lenZ_app, nodeBytes_length; lia).
    rewrite <- lenZ_app. apply IH. simpl in Hf. lia.
Qed.

(** The masks after a list of tags. *)
Fixpoint markAll (tags : list Z) (low high : Z) : res (Z * Z) :=
  match tags with
  | [] => Ok (low, high)
  | tag :: tags => '(low, high) ← markTag tag low high; markAll tags low high
  end.

(** One child per tag, with the payload [payload] gives it. *)
Definition tagged (payload : Z → list Z) (tags : list Z) : list (Z * list Z) :=
  (λ t, (t, payload t)) <$> tags.

Lemma bool_decide_cons (x y : Z) l :
  bool_decide (x ∈ y :: l) = (y =? x) || bool_decide (x ∈ l).
Proof.
  rewrite (bool_decide_ext _ (y = x ∨ x ∈ l)) by (rewrite elem_of_cons, (eq_comm x y); done).
  rewrite bool_decide_or. f_equal. by destruct (Z.eqb_spec y x); case_bool_decide.
Qed.

Section Scan.
Context (payload : Z → list Z) (decls : list Decl) (funcs : list Func).
Hypothesis Hdecls : decodeDecls (payload TagDecls) = Ok decls.
Hypothesis Hfuncs : decodeFuncs (payload TagFuncs) = Ok funcs.

Lemma visitChild_tag tag low high low' high' sc :
  tag ≠ TagUnit → markTag tag low high = Ok (low', high') → sc_low sc = low → sc_high sc = high →
  sc_data sc !! tag = None →
  visitChild tag (payload tag) sc =
    Ok (Scan low' high'
      (if bool_decide (tag ∈ switchTags) then <[tag := payload tag]> (sc_data sc) else sc_data sc)
      (if tag =? TagDecls then decls else sc_decls sc)
      (if tag =? TagFuncs then funcs else sc_funcs sc)).
Proof.
  intros Hunit Hm <- <- Hnone. unfold visitChild. rewrite (proj2 (Z.eqb_neq _ _)), Hm by done.
  cbn [mbind res_bind]. rewrite Hnone, (bool_decide_eq_false_2 (is_Some None)) by by intros [].
  destruct (Z.eqb_spec tag TagDecls) as [->|].
  { rewrite Hdecls. done. }
  destruct (Z.eqb_spec tag TagFuncs) as [->|].
  { rewrite Hfuncs. done. }
  by destruct (bool_decide _).
Qed.

(** The state after children of distinct tags. *)
Lemma visitAll_tagged tags low high low' high' sc :
  NoDup tags → TagUnit ∉ tags → markAll tags low high = Ok (low', high') →
  sc_low sc = low → sc_high sc = high → (∀ t, t ∈ tags → sc_data sc !! t = None) →
  ∃ sc', visitAll (tagged payload tags) sc = Ok sc' ∧ sc_low sc' = low' ∧ sc_high sc' = high' ∧
    (∀ t, sc_data sc' !! t =
      if bool_decide (t ∈ tags ∧ t ∈ switchTags) then Some (payload t) else sc_data sc !! t) ∧
    sc_decls sc' = (if bool_decide (TagDecls ∈ tags) then decls else sc_decls sc) ∧
    sc_funcs sc' = (if bool_decide (TagFuncs ∈ tags) then funcs else sc_funcs sc).
Proof.
  intros Hnd. revert low high sc. induction Hnd as [|tag tags Hnotin Hnd IH];
    intros low high sc Hunit Hm Hlow Hhigh Hnone;
    [|change (tagged payload (tag :: tags)) with ((tag, payload tag) :: tagged payload tags)];
    cbn [visitAll].
  { injection Hm as <- <-. exists sc. by rewrite Hlow, Hhigh. }
  cbn [markAll] in Hm. destruct (markTag tag low high) as [[l h]| |] eqn:Ht; [|done..].
  cbn [mbind res_bind] in Hm. apply not_elem_of_cons in Hunit as [Hu Hunit].
  cbn [fst snd]. rewrite (visitChild_tag tag low high l h)
    by (done || apply Hnone; left || auto).
  cbn [mbind res_bind]. match goal with |- context [visitAll _ ?s] => set (sc1 := s) end.
  destruct (IH l h sc1) as (sc'&Hv&Hl'&Hh'&Hd&Hd_decls&Hd_funcs); [done..| |].
  { intros t Hin. unfold sc1. cbn [sc_data]. assert (tag ≠ t) by (by intros ->).
    assert (sc_data sc !! t = None) by (apply Hnone; by right).
    by destruct (bool_decide (tag ∈ switchTags)); [rewrite lookup_insert_ne|]. }
  exists sc'. split; [exact Hv|]. split; [done|]. split; [done|]. 
  unfold sc1 in Hd, Hd_decls, Hd_funcs. cbn [sc_data sc_decls sc_funcs] in Hd, Hd_decls, Hd_funcs.
  rewrite Hd_decls, Hd_funcs, !bool_decide_cons.
  split; [|split].
  - intros t. rewrite Hd. destruct (decide (t ∈ switchTags)) as [Hin|Hout].
    2:{ rewrite !(bool_decide_eq_false_2 (_ ∧ t ∈ _)) by tauto.
        destruct (bool_decide_reflect (tag ∈ switchTags)); [|done].
        rewrite lookup_insert_ne; [done|by intros ->]. }
    rewrite !bool_decide_and, bool_decide_cons, (bool_decide_eq_true_2 (t ∈ switchTags)) by done.
    rewrite !andb_true_r. destruct (Z.eqb_spec tag t) as [->|]; cbn [orb].
    + rewrite (bool_decide_eq_false_2 (t ∈ tags)), (bool_decide_eq_true_2 (t ∈ switchTags))
        by done. by rewrite lookup_insert_eq.
    + destruct (bool_decide (t ∈ tags)); [done|].
      destruct (bool_decide (tag ∈ switchTags)); [by rewrite lookup_insert_ne|done].
  - destruct (tag =? TagDecls); [|done]. by destruct (bool_decide (TagDecls ∈ tags)).
  - destruct (tag =? TagFuncs); [|done]. by destruct (bool_decide (TagFuncs ∈ tags)).
Qed.
End Scan.

(** * Programs that the format can carry *)

(** A table of encodable records, with a count of 32 bits. *)
Definition items_ok {A} `{Codec A} (items : list A) : Prop :=
  Forall codec_ok items ∧ u32_ok (lenZ items).

Definition tables_ok (p : Program) : Prop :=
  items_ok (p_Imports p) ∧ items_ok (p_Symbols p) ∧ items_ok (p_Decls p) ∧
  items_ok (p_DeclMeta p) ∧ items_ok (p_InitOrder p) ∧ items_ok (p_Consts p) ∧
  items_ok (p_Funcs p) ∧ items_ok (p_Signatures p) ∧ items_ok (p_Stmts p) ∧
  items_ok (p_Types p) ∧ items_ok (p_TypeFields p) ∧ items_ok (p_TypeIfaces p) ∧
  items_ok (p_TypeFuncs p) ∧ items_ok (p_Methods p) ∧ items_ok (p_TypeRefs p) ∧
  items_ok (p_Locals p) ∧ items_ok (p_Indexes p) ∧ items_ok (p_Composites p) ∧
  items_ok (p_Assigns p) ∧ items_ok (p_Returns p) ∧ items_ok (p_Calls p) ∧
  items_ok (p_Refs p) ∧ items_ok (p_Selectors p) ∧ items_ok (p_Packages p).

(** The token table is that of [tokens], with its line table. *)
Definition program_ok (p : Program) (tokens : list token) : Prop :=
  p_Tokens p = tableBytes (p_Text p) tokens ∧ p_TokenLines p = largeLines tokens ∧
  table_ok (p_Text p) tokens ∧ tables_ok p ∧ validateCoreUnitRanges p = Ok tt.

(** The tags [Marshal] writes, in order, and the payload of each. *)
Definition childTags : list Z :=
  [TagPackage; TagImportPath; TagText; TagTokens; TagImports; TagSymbols; TagDecls; TagDeclMeta;
   TagInitOrder; TagConsts; TagFuncs; TagSigs; TagStmts; TagTypes; TagTypeFields; TagTypeIfaces;
   TagTypeFuncs; TagMethods; TagTypeRefs; TagLocals; TagIndexes; TagComps; TagAssigns;
   TagReturns; TagCalls; TagRefs; TagSels; TagPackages; TagRTGAssembly; TagEntrypoint;
   TagForeignPrograms].

Definition childPayload (p : Program) (tokens : list Z) (tag : Z) : list Z :=
  if tag =? TagPackage then p_Package p else if tag =? TagImportPath then p_ImportPath p
  else if tag =? TagText then p_Text p else if tag =? TagTokens then tokens
  else if tag =? TagImports then encodeImports (p_Imports p)
  else if tag =? TagSymbols then encodeSymbols (p_Symbols p)
  else if tag =? TagDecls then encodeDecls (p_Decls p)
  else if tag =? TagDeclMeta then encodeDeclMeta (p_DeclMeta p)
  else if tag =? TagInitOrder then encodeInitOrder (p_InitOrder p)
  else if tag =? TagConsts then encodeConsts (p_Consts p)
  else if tag =? TagFuncs then encodeFuncs (p_Funcs p)
  else if tag =? TagSigs then encodeSignatures (p_Signatures p)
  else if tag =? TagStmts then encodeStatements (p_Stmts p)
  else if tag =? TagTypes then encodeTypes (p_Types p)
  else if tag =? TagTypeFields then encodeTypeFields (p_TypeFields p)
  else if tag =? TagTypeIfaces then encodeTypeInterfaces (p_TypeIfaces p)
  else if tag =? TagTypeFuncs then encodeTypeFuncs (p_TypeFuncs p)
  else if tag =? TagMethods then encodeMethods (p_Methods p)
  else if tag =? TagTypeRefs then encodeTypeRefs (p_TypeRefs p)
  else if tag =? TagLocals then encodeLocals (p_Locals p)
  else if tag =? TagIndexes then encodeIndexes (p_Indexes p)
  else if tag =? TagComps then encodeComposites (p_Composites p)
  else if tag =? TagAssigns then encodeAssignments (p_Assigns p)
  else if tag =? TagReturns then encodeReturns (p_Returns p)
  else if tag =? TagCalls then encodeCalls (p_Calls p)
  else if tag =? TagRefs then encodeRefs (p_Refs p)
  else if tag =? TagSels then encodeSelectors (p_Selectors p)
  else if tag =? TagPackages then encodePackages (p_Packages p)
  else [].

Lemma childNodes_tagged p tokens :
  childNodes p tokens = toNode <$> tagged (childPayload p tokens) childTags.
Proof. reflexivity. Qed.

(** The bytes of the children of a program's root node. *)
Definition rootPayload (p : Program) (tokens : list token) : list Z :=
  childBytes (tagged (childPayload p (varint (lenZ tokens) ++ wireTokens 0 0 tokens)) childTags).

Definition unitHeader : list Z := Magic ++ bytes16 Version ++ bytes16 0.

(** [Marshal] of a program it can carry: only the size can make it fail. *)
Lemma Marshal_spec p tokens :
  program_ok p tokens →
  Marshal p = if too_big (rootPayload p tokens) then Err
              else Ok (unitHeader ++ nodeBytes (TagUnit, rootPayload p tokens)).
Proof.
  intros (Ht&Hl&Hok&_&Hv). unfold Marshal. rewrite Hv, Ht, Hl, encodeTokens_spec by done.
  cbn [mbind res_bind]. cbv zeta. rewrite childNodes_tagged. by rewrite writeNode_root.
Qed.

(** Every header [Marshal] writes is accepted. *)
Lemma readHeader_spec payload :
  lenZ payload < 2 ^ 32 →
  readHeader (unitHeader ++ nodeBytes (TagUnit, payload)) = Ok (14 + lenZ payload).
Proof.
  intros Hp. pose proof (lenZ_nonneg payload).
  set (D := unitHeader ++ nodeBytes (TagUnit, payload)).
  assert (lenZ D = 14 + lenZ payload) as HD 
    by (unfold D; rewrite lenZ_app, nodeBytes_length; change (lenZ unitHeader) with 8;
      cbn [snd]; lia).
  assert (uint32At D 10 = Ok (lenZ payload)) as Hlen
    by (apply (uint32At_app (unitHeader ++ bytes16 TagUnit)); unfold u32_ok; lia).
  unfold readHeader. rewrite HD, (proj2 (Z.ltb_ge _ _)) by lia.
  rewrite sliceZ_Some by lia.
  change (sublistZ D 0 4) with Magic. cbn [mbind res_bind index check].
  rewrite bool_decide_eq_true_2 by done. cbn [mbind res_bind index check].
  change (uint16At D 4) with (Ok Version). change (uint16At D 6) with (Ok 0).
  change (uint16At D 8) with (Ok TagUnit). rewrite Hlen. cbn. rewrite Z.eqb_refl. cbn [negb orb].
  rewrite orb_false_r. destruct (Z.ltb_spec (14 + lenZ payload) 14); [lia|done].
Qed.

(** A table child that was written is decoded. *)
Lemma optionalTable_spec {A} sc tag (decode : list Z → res (list A)) payload items :
  sc_data sc !! tag = Some payload → decode payload = Ok items →
  optionalTable sc tag decode = Ok items.
Proof. intros Hs Hd. unfold optionalTable. by rewrite Hs. Qed.

(** The tables of a program, as its children carry them. *)
Lemma table_child {A} `{Codec A} (items : list A) :
  items_ok items →
  readTable codec_read (foldl codec_append (appendVarint [] (lenZ items)) items) = Ok items.
Proof. intros [??]. by apply table_roundtrip. Qed.

Lemma optional_child {A} `{Codec A} sc tag (decode : list Z → res (list A)) (items : list A) :
  items_ok items → decode = readTable codec_read →
  sc_data sc !! tag = Some (foldl codec_append (appendVarint [] (lenZ items)) items) →
  optionalTable sc tag decode = Ok items.
Proof. intros Hok -> Hs. eapply optionalTable_spec; [exact Hs|]. by apply table_child. Qed.

Section Assemble.
Context (p : Program) (tokens : list token) (sc : scan).
Let payload := childPayload p (varint (lenZ tokens) ++ wireTokens 0 0 tokens).
Hypothesis Hok : program_ok p tokens.
Hypothesis Hdata : ∀ t, t ∈ switchTags → sc_data sc !! t = Some (payload t).
Hypothesis Hlow : Z.land (sc_low sc) schemaRequiredChildMaskLow = schemaRequiredChildMaskLow.
Hypothesis Hhigh : Z.land (sc_high sc) schemaRequiredChildMaskHigh = schemaRequiredChildMaskHigh.
Hypothesis Hdecls : sc_decls sc = p_Decls p.
Hypothesis Hfuncs : sc_funcs sc = p_Funcs p.

Lemma switch_data tag :
  bool_decide (tag ∈ switchTags) = true → sc_data sc !! tag = Some (payload tag).
Proof. intros H. apply Hdata. by apply bool_decide_eq_true in H. Qed.

Lemma payloadOf_spec tag :
  bool_decide (tag ∈ switchTags) = true → payloadOf sc tag = payload tag.
Proof. intros H. unfold payloadOf. by rewrite switch_data. Qed.

(** The names a valid program has. *)
Lemma valid_nonempty :
  (lenZ (p_Package p) =? 0) = false ∧ (lenZ (p_Text p) =? 0) = false ∧
  (lenZ (p_Tokens p) =? 0) = false.
Proof.
  destruct Hok as (_&_&_&_&Hv). unfold validateCoreUnitRanges in Hv.
  destruct (lenZ (p_Package p) =? 0); [done|]. destruct (lenZ (p_Text p) =? 0); [done|].
  by destruct (lenZ (p_Tokens p) =? 0).
Qed.

Lemma assemble_spec : assemble sc = Ok p.
Proof.
  destruct valid_nonempty as (Hpkg&Htext&Htok). unfold assemble.
  rewrite Hlow, Hhigh, !Z.eqb_refl. cbn [negb orb check mbind res_bind]. cbv zeta.
  rewrite !payloadOf_spec by reflexivity.
  change (payload TagPackage) with (p_Package p). change (payload TagText) with (p_Text p).
  change (payload TagImportPath) with (p_ImportPath p).
  change (payload TagTokens) with (varint (lenZ tokens) ++ wireTokens 0 0 tokens).
  rewrite Hpkg, Htext. cbn [negb check mbind res_bind].
  destruct Hok as (Ht&Hl&Hto&Htab&Hv).
  destruct (tokens_roundtrip _ _ Hto) as (data&He&Hd).
  rewrite encodeTokens_spec in He by done. injection He as <-. rewrite Hd.
  cbn [mbind res_bind]. rewrite <- Ht, <- Hl, Hdecls, Hfuncs.
  destruct Htab as (?&?&?&?&?&?&?&?&?&?&?&?&?&?&?&?&?&?&?&?&?&?&?&?).
  repeat match goal with
    |- context [optionalTable sc ?tag ?decode] =>
      erewrite (optional_child sc tag decode);
        [|eassumption|reflexivity|rewrite switch_data; reflexivity]
    end.
  cbn [mbind res_bind]. rewrite Htok. cbn [negb check mbind res_bind].
  match goal with |- context [validateCoreUnitRanges ?q] => replace q with p by by destruct p end.
  by rewrite Hv.
Qed.
End Assemble.

(** The children [Marshal] writes are read back into the program. *)
Lemma scan_spec p tokens :
  program_ok p tokens →
  ∃ sc, visitAll (tagged (childPayload p (varint (lenZ tokens) ++ wireTokens 0 0 tokens)) childTags)
      (Scan 0 0 ∅ [] []) = Ok sc ∧ assemble sc = Ok p.
Proof.
  intros Hok. pose proof Hok as (_&_&_&Htab&_).
  destruct Htab as (?&?&Hd&?&?&?&Hf&?).
  set (payload := childPayload p _).
  destruct (visitAll_tagged payload (p_Decls p) (p_Funcs p)
    (table_child (p_Decls p) Hd) (table_child (p_Funcs p) Hf) childTags 0 0 65535 32767
    (Scan 0 0 ∅ [] [])) as (sc&Hv&Hl&Hh&Hdata&Hdd&Hff);
    [by_decision|by_decision|reflexivity..| |].
  { intros. apply lookup_empty. }
  exists sc. split; [exact Hv|]. apply (assemble_spec _ tokens); [done| |by rewrite Hl|by rewrite Hh|done|done].
  intros t Ht. rewrite Hdata, bool_decide_eq_true_2; [done|]. split; [|done].
  revert t Ht. apply (Forall_forall (λ t, t ∈ childTags)). by_decision.
Qed.

(** A unit with the given children. *)
Definition unitOf (children : list (Z * list Z)) : list Z :=
  unitHeader ++ nodeBytes (TagUnit, childBytes children).

Lemma child_ok_all children :
  too_big (childBytes children) = false → Forall (λ c, 0 ≤ c.1 < 2 ^ 16) children →
  Forall child_ok children.
Proof.
  unfold too_big. intros Hb Ht. pose proof (childBytes_bound children) as Hc.
  eapply Forall_impl; [by apply Forall_and; split; [exact Ht|exact Hc]|].
  intros c [??]. split; [done|]. simpl in *. lia.
Qed.

(** [Unmarshal] of any sequence of children visits them in turn. *)
Lemma Unmarshal_children children :
  too_big (childBytes children) = false → Forall (λ c, 0 ≤ c.1 < 2 ^ 16) children →
  Unmarshal (unitOf children) = (sc ← visitAll children (Scan 0 0 ∅ [] []); assemble sc).
Proof.
  intros Hb Ht. pose proof (child_ok_all _ Hb Ht) as Hok. unfold too_big in Hb.
  unfold Unmarshal, unitOf. rewrite readHeader_spec by lia. cbn [mbind res_bind].
  set (pre := unitHeader ++ bytes16 TagUnit ++ bytes32 (lenZ (childBytes children))).
  assert (unitHeader ++ nodeBytes (TagUnit, childBytes children) = pre ++ childBytes children)
    as -> by (unfold pre, nodeBytes; by rewrite <- !app_assoc).
  assert (14 + lenZ (childBytes children) = lenZ (pre ++ childBytes children)) as ->
    by (rewrite lenZ_app; done).
  change 14 with (lenZ pre). rewrite scanChildren_spec; [done..|].
  pose proof (childBytes_length children) as Hc. rewrite length_app. unfold lenZ in Hc. lia.
Qed.

Lemma childTags_fit payload : Forall (λ c, 0 ≤ c.1 < 2 ^ 16) (tagged payload childTags).
Proof. unfold tagged. rewrite Forall_fmap. by_decision. Qed.

Lemma Unmarshal_written p tokens :
  program_ok p tokens → too_big (rootPayload p tokens) = false →
  Unmarshal (unitHeader ++ nodeBytes (TagUnit, rootPayload p tokens)) = Ok p.
Proof.
  intros Hok Hsize. destruct (scan_spec _ _ Hok) as (sc&Hv&Ha).
  etransitivity; [apply Unmarshal_children; [exact Hsize|apply childTags_fit]|].
  by rewrite Hv.
Qed.
