(* ===== verification/WireCanonical.v ===== *)
(** The unit format has one encoding per value: a reader consumes exactly the
    bytes the writer appends for what it returns, and never panics. *)

From S2P Require Import Prelude.
From S2P Require Import GoInt.
From S2P Require Import WireReader.
From S2P Require Import WireFacts.
From S2P Require Import WireTables.
From S2P Require Import WireTablesFacts.

(** * Readers and what they consume *)

(** From a position with [k] bytes left, [rd] does not panic, and what it returns
    is related by [Q] to the bytes it consumed. *)
Definition parses {A} (k : Z) (rd : Reader A) (Q : A → list Z → Prop) : Prop :=
  ∀ data pos, bytes_ok data → 0 ≤ pos → pos + k ≤ lenZ data →
    match rd data pos with
    | Ok (a, next) => pos ≤ next ≤ lenZ data ∧ Q a (sublistZ data pos next)
    | Err => True
    | Panic => False
    end.

Lemma parses_ret {A} k (a : A) (Q : A → list Z → Prop) : 0 ≤ k → Q a [] → parses k (mret a) Q.
Proof.
  intros Hk HQ data pos _ H0 Hpos. unfold mret, Reader_ret. split; [lia|].
  by rewrite sublistZ_empty.
Qed.

Lemma parses_bind {A B} k (rd : Reader A) (f : A → Reader B) P (Q : B → list Z → Prop) :
  parses k rd P → (∀ a bs, P a bs → parses 0 (f a) (λ b bs', Q b (bs ++ bs'))) →
  parses k (rd ≫= f) Q.
Proof.
  intros Hrd Hf data pos Hb H0 Hpos. specialize (Hrd data pos Hb H0 Hpos).
  unfold mbind, Reader_bind. destruct (rd data pos) as [[a next]| |]; [|done..].
  destruct Hrd as [? HP]. specialize (Hf a _ HP data next Hb).
  destruct (f a data next) as [[b last]| |]; [..|done|apply Hf; lia].
  destruct Hf as [? HQ]; [lia..|]. rewrite sublistZ_app in HQ by lia. split; [lia|done].
Qed.

Lemma parses_weaken {A} k (rd : Reader A) P (Q : A → list Z → Prop) :
  parses k rd P → (∀ a bs, P a bs → Q a bs) → parses k rd Q.
Proof.
  intros Hrd HPQ data pos Hb H0 Hpos. specialize (Hrd data pos Hb H0 Hpos).
  destruct (rd data pos) as [[a next]| |]; [|done..]. destruct Hrd. split; [lia|auto].
Qed.

Lemma parses_reject {A} k b (rd : Reader A) Q :
  (b = false → parses k rd Q) → parses k (_ ← reject b; rd) Q.
Proof.
  intros Hrd data pos Hb H0 Hpos. unfold mbind, Reader_bind, reject. destruct b; [done|].
  by apply Hrd.
Qed.

Lemma parses_need {A} k n (rd : Reader A) Q : parses n rd Q → parses k (_ ← need n; rd) Q.
Proof.
  intros Hrd data pos Hb H0 Hpos. unfold mbind, Reader_bind, need.
  destruct (Z.ltb_spec (lenZ data) (pos + n)); [done|]. by apply Hrd.
Qed.

(** * Primitives *)

(** A continued byte and its seven bits. *)
Lemma continued_byte b w :
  byte_ok b → 128 ≤ b → 0 ≤ w → Z.lor (u8 (Z.land b 127 + w * 128)) 128 = b.
Proof.
  unfold byte_ok. intros Hb H128 Hw. change 127 with (Z.ones 7). rewrite Z.land_ones by lia.
  apply Z.bits_inj'. intros i Hi. rewrite Z.lor_spec. unfold u8. change 128 with (2 ^ 7).
  change 256 with (2 ^ 8).
  destruct (decide (i < 7)) as [|].
  - rewrite Z.mod_pow2_bits_low by lia. rewrite Z.pow2_bits_false, orb_false_r by lia.
    rewrite <- (Z.mod_pow2_bits_low _ 7) by lia. rewrite Z.mod_add by lia.
    rewrite Z.mod_mod by lia. by rewrite Z.mod_pow2_bits_low.
  - destruct (decide (i = 7)) as [->|].
    + rewrite Z.pow2_bits_true, orb_true_r by lia. symmetry.
      rewrite Z.testbit_true by lia. Z.div_mod_to_equations. lia.
    + rewrite Z.mod_pow2_bits_high, Z.pow2_bits_false by lia.
      symmetry. apply (Z.bits_above_log2 b); [lia|].
      assert (Z.log2 b ≤ 7) by (apply (Z.log2_le_mono _ 255); lia). lia.
Qed.

Lemma shift_below_28 shift : shift `mod` 7 = 0 → shift < 28 → shift ≤ 21.
Proof. intros. Z.div_mod_to_equations. lia. Qed.

Lemma parses_varint_loop fuel value shift :
  0 ≤ shift → shift `mod` 7 = 0 → 0 ≤ value < 2 ^ shift →
  parses 0 (readVarint_loop fuel value shift) (λ v bs, ∃ w, v = value + w * 2 ^ shift ∧
    bs = varint w ∧ 0 ≤ w < 2 ^ (32 - shift) ∧ (0 < shift → 0 < w)).
Proof.
  revert value shift. induction fuel as [|fuel IH]; intros value shift Hs Hmod Hv data pos Hb H0 Hpos;
    [done|]. cbn [readVarint_loop].
  destruct ((pos <? lenZ data) && (shift <=? 28)) eqn:Hc; [|done].
  destruct (lookupZ_lt_is_Some data pos) as [b Hlook]; [lia|]. rewrite Hlook.
  pose proof (lookupZ_Forall _ _ _ _ Hb Hlook) as Hbyte. pose proof Hbyte as Hbr.
  unfold byte_ok in Hbr. cbv zeta.
  destruct ((28 <=? shift) && (16 <=? b)) eqn:Hover; [done|].
  assert (0 ≤ Z.land b 127 < 128) as Hland.
  { change 127 with (Z.ones 7). rewrite Z.land_ones by lia. apply Z.mod_pos_bound. lia. }
  rewrite lor_shiftl_add by lia.
  destruct (Z.ltb_spec b 128).
  - destruct ((0 <? shift) && (b =? 0)) eqn:Hz; [done|]. split; [lia|].
    assert (Z.land b 127 = b) as ->
      by (change 127 with (Z.ones 7); rewrite Z.land_ones by lia; apply Z.mod_small; lia).
    exists b. split; [done|]. split; [|split; [|lia]].
    + rewrite (sublistZ_cons _ _ _ b), sublistZ_empty by (done || lia).
      rewrite varint_small by done. by rewrite u8_small.
    + split; [lia|]. destruct (decide (shift = 28)) as [->|]; [simpl; lia|].
      assert (shift ≤ 21) by (apply shift_below_28; lia).
      assert (2 ^ 11 ≤ 2 ^ (32 - shift)) by (apply Z.pow_le_mono_r; lia).
      change (2 ^ 11) with 2048 in *. lia.
  - assert (shift ≤ 21) as Hs21 by (apply shift_below_28; lia).
    specialize (IH (value + Z.land b 127 * 2 ^ shift) (shift + 7)).
    ospecialize (IH _ _ _ data (pos + 1) Hb _ _); [lia|Z.div_mod_to_equations; lia| |lia|lia|].
    { rewrite Z.pow_add_r by lia. assert (0 < 2 ^ shift) by (apply Z.pow_pos_nonneg; lia). nia. }
    destruct (readVarint_loop _ _ _ _ _) as [[v next]| |]; [|done..].
    destruct IH as (?&w&->&Hbs&Hw&Hpos'). split; [lia|].
    assert (0 < w) by (apply Hpos'; lia).
    exists (Z.land b 127 + w * 128). split; [|split; [|split; [|lia]]].
    + rewrite Z.pow_add_r by lia. change (2 ^ 7) with 128. ring.
    + rewrite (sublistZ_cons _ _ _ b) by (done || lia). rewrite Hbs, (varint_big (_ + _)) by lia.
      rewrite continued_byte by (done || lia). f_equal. f_equal.
      rewrite Z.shiftr_div_pow2 by lia. change (2 ^ 7) with 128. Z.div_mod_to_equations. lia.
    + split; [lia|]. replace (32 - shift) with (32 - (shift + 7) + 7) by lia.
      rewrite Z.pow_add_r by lia. change (2 ^ 7) with 128. lia.
Qed.

Lemma parses_varint : parses 0 readVarint (λ v bs, bs = varint v ∧ u32_ok v).
Proof.
  eapply parses_weaken; [by apply (parses_varint_loop 6 0 0)|].
  intros v bs (w&->&->&Hw&_). rewrite Z.add_0_l, Z.mul_1_r. done.
Qed.

(** Seven bits per byte. *)
Lemma varint_length (k : nat) v :
  v < 2 ^ (7 * Z.of_nat (S k)) → 1 ≤ lenZ (varint v) ≤ Z.of_nat (S k).
Proof.
  revert v. induction k as [|k IH]; intros v Hv.
  - rewrite varint_small by (simpl in Hv; lia). change (lenZ [_]) with 1. lia.
  - destruct (decide (v < 128)).
    + rewrite varint_small by done. change (lenZ [_]) with 1. lia.
    + rewrite varint_big, lenZ_cons by lia.
      assert (Z.shiftr v 7 < 2 ^ (7 * Z.of_nat (S k))) as Hs%IH; [|lia].
      rewrite Z.shiftr_div_pow2 by lia. apply Z.div_lt_upper_bound; [lia|].
      rewrite <- Z.pow_add_r by lia.
      by replace (7 + 7 * Z.of_nat (S k)) with (7 * Z.of_nat (S (S k))) by lia.
Qed.

Lemma parses_nullable : parses 0 readNullable (λ v bs, bs = varint (v + 1) ∧ nullable_ok v).
Proof.
  eapply parses_bind; [apply parses_varint|]. intros v bs [-> Hv]. apply parses_ret; [done|].
  rewrite app_nil_r. unfold nullable_ok. by rewrite Z.sub_add.
Qed.

Lemma parses_bool : parses 0 readBool (λ b bs, bs = boolBytes b).
Proof.
  eapply parses_bind; [apply parses_varint|]. intros v bs [-> Hv]. apply parses_reject.
  intros H1. apply parses_ret; [done|]. rewrite app_nil_r. unfold u32_ok in Hv.
  assert (v = 0 ∨ v = 1) as [->| ->] by lia; done.
Qed.

Lemma parses_signed :
  parses 0 readSigned (λ v bs, bs = signedBytes v ∧ - 2 ^ 31 ≤ v < 2 ^ 31).
Proof.
  eapply parses_bind; [apply parses_varint|]. intros v bs [-> Hv]. apply parses_ret; [done|].
  rewrite app_nil_r. unfold u32_ok in Hv.
  assert (Z.land v 1 = v `mod` 2) as -> by (change 1 with (Z.ones 1); by rewrite Z.land_ones).
  rewrite Z.quot_div_nonneg by lia. unfold signedBytes, appendSigned.
  destruct (Z.eqb_spec (v `mod` 2) 1).
  - rewrite (proj2 (Z.ltb_lt _ 0)) by (Z.div_mod_to_equations; lia).
    split; [|Z.div_mod_to_equations; lia]. unfold varint. f_equal. Z.div_mod_to_equations. lia.
  - rewrite (proj2 (Z.ltb_ge _ 0)) by (Z.div_mod_to_equations; lia).
    split; [|Z.div_mod_to_equations; lia]. unfold varint. f_equal. Z.div_mod_to_equations. lia.
Qed.

Lemma parses_string :
  parses 0 readString (λ s bs, bs = stringBytes s ∧ u32_ok (lenZ s) ∧ bytes_ok s).
Proof.
  intros data pos Hb H0 Hpos. unfold readString.
  pose proof (parses_varint data pos Hb H0 Hpos) as Hv.
  destruct (readVarint data pos) as [[size next]| |]; [|done..]. destruct Hv as (Hn&Hbs&Hsize).
  unfold u32_ok in Hsize. cbv zeta. destruct ((next + size <? next) || _) eqn:Hc; [done|].
  rewrite sliceZ_Some by lia. cbn. split; [lia|].
  assert (lenZ (sublistZ data next (next + size)) = size) as Hl
    by (rewrite sublistZ_length; lia).
  split; [|split; [unfold u32_ok; lia|by apply sublistZ_Forall]].
  unfold stringBytes, appendString. rewrite Hl, varint_append, <- Hbs.
  by rewrite sublistZ_app by lia.
Qed.

Lemma parses_nullable_span :
  parses 0 readNullableSpan (λ ab bs, bs = nullableSpanBytes ab.1 ab.2 ∧
    nullable_span_ok ab.1 ab.2).
Proof.
  eapply parses_bind; [apply parses_varint|]. intros s bs [-> Hs]. unfold u32_ok in Hs.
  destruct (Z.eqb_spec s 0) as [->|].
  - apply parses_ret; [done|]. rewrite app_nil_r. split; [done|by left].
  - eapply parses_bind; [apply parses_varint|]. intros c bs [-> Hc]. apply parses_ret; [done|].
    rewrite app_nil_r. cbn [fst snd]. unfold nullableSpanBytes, appendNullableSpan.
    rewrite (proj2 (Z.ltb_ge _ 0)) by lia. cbn [andb].
    rewrite Z.sub_add, Z.add_simpl_l. split; [by rewrite (appendVarint_app (_ _ s))|].
    right. unfold u32_ok in *. lia.
Qed.

Lemma parses_fixed32 {B} k (f : Z → Reader B) (Q : B → list Z → Prop) :
  4 ≤ k → (∀ v, u32_ok v → parses (k - 4) (f v) (λ b bs, Q b (bytes32 v ++ bs))) →
  parses k (readFixed32 ≫= f) Q.
Proof.
  intros Hk Hf data pos Hb H0 Hpos. unfold mbind, Reader_bind, readFixed32.
  destruct (lookupZ_lt_is_Some data pos) as [a Ha]; [lia|].
  destruct (lookupZ_lt_is_Some data (pos + 1)) as [b Hb1]; [lia|].
  destruct (lookupZ_lt_is_Some data (pos + 2)) as [c Hc]; [lia|].
  destruct (lookupZ_lt_is_Some data (pos + 3)) as [d Hd]; [lia|].
  rewrite Ha, Hb1, Hc, Hd. cbn [index mbind res_bind].
  pose proof (lookupZ_Forall _ _ _ _ Hb Ha) as Wa. pose proof (lookupZ_Forall _ _ _ _ Hb Hb1) as Wb.
  pose proof (lookupZ_Forall _ _ _ _ Hb Hc) as Wc. pose proof (lookupZ_Forall _ _ _ _ Hb Hd) as Wd.
  assert (u32_ok (le32 a b c d)) as Hu.
  { rewrite le32_add by done. unfold u32_ok, byte_ok in *. lia. }
  specialize (Hf _ Hu data (pos + 4) Hb).
  destruct (f _ data (pos + 4)) as [[v next]| |]; [..|done|apply Hf; lia].
  destruct Hf as [? HQ]; [lia..|]. split; [lia|].
  rewrite bytes32_le32 in HQ by done.
  rewrite (sublistZ_cons _ _ _ a), (sublistZ_cons _ _ _ b), (sublistZ_cons _ _ _ c),
    (sublistZ_cons _ _ _ d) by (rewrite <- ?Z.add_assoc; done || lia).
  by rewrite <- !Z.add_assoc.
Qed.

(** * Canonical codecs *)

(** The reader of a codec inverts its writer in the other direction as well. *)
Class Canonical (A : Type) `{Codec A} :=
  canonical : parses 0 codec_read (λ a bs, bs = codec_append [] a ∧ codec_ok a).

Section Lists.
Context {A : Type} `{Canonical A}.

Lemma parses_loop n acc :
  parses 0 (readLoop n codec_read acc) (λ items bs, ∃ new, items = acc ++ new ∧
    length new = n ∧ bs = foldl codec_append [] new ∧ Forall codec_ok new).
Proof.
  revert acc. induction n as [|n IH]; intros acc; cbn.
  { apply parses_ret; [done|]. exists []. by rewrite app_nil_r. }
  eapply parses_bind; [apply canonical|]. intros a bs [-> Ha].
  eapply parses_weaken; [apply IH|]. intros items bs (new&->&<-&->&Hnew). exists (a :: new).
  rewrite <- app_assoc. cbn. rewrite (foldl_append (codec_append [] a)). auto.
Qed.

Lemma parses_counted :
  parses 0 (count ← readVarint; readLoop (Z.to_nat count) codec_read [])
    (λ items bs, bs = varint (lenZ items) ++ foldl codec_append [] items ∧
      Forall codec_ok items ∧ u32_ok (lenZ items)).
Proof.
  eapply parses_bind; [apply parses_varint|]. intros count bs [-> Hc].
  eapply parses_weaken; [apply parses_loop|]. intros items bs (new&->&Hn&->&Hok). cbn.
  assert (lenZ new = count) as -> by (unfold lenZ, u32_ok in *; lia). done.
Qed.

(** A table never panics, and is the encoding of what it decodes to. *)
Lemma table_canonical data :
  bytes_ok data →
  match readTable codec_read data with
  | Ok items => foldl codec_append (appendVarint [] (lenZ items)) items = data ∧
      Forall codec_ok items ∧ u32_ok (lenZ items)
  | Err => True
  | Panic => False
  end.
Proof.
  intros Hb. rewrite readTable_counted. pose proof (lenZ_nonneg data).
  pose proof (parses_counted data 0 Hb ltac:(lia) ltac:(lia)) as Hp.
  set (counted := _ ≫= _) in *.
  destruct (counted data 0) as [[items next]| |]; [|done..]. destruct Hp as (Hn&Hbs&Hok).
  destruct (Z.eqb_spec next (lenZ data)) as [->|]; cbn [negb]; [|done]. split; [|done].
  rewrite foldl_append. fold (varint (lenZ items)). rewrite <- Hbs.
  unfold sublistZ, lenZ. rewrite drop_0, take_ge; [done|lia].
Qed.
End Lists.

(** ** Automation *)

#[local] Arguments appendString : simpl never.
#[local] Arguments appendNullable : simpl never.
#[local] Arguments appendSigned : simpl never.
#[local] Arguments appendBool : simpl never.
#[local] Arguments appendFixed32 : simpl never.
#[local] Arguments appendNullableSpan : simpl never.
#[local] Arguments appendSpanList : simpl never.
#[local] Arguments appendFieldList : simpl never.

Create HintDb parses.
#[export] Hint Resolve parses_varint parses_nullable parses_bool parses_signed parses_string
  parses_nullable_span : parses.

Ltac parse_step :=
  first
    [ apply parses_need
    | apply parses_fixed32; [lia|intros]
    | eapply parses_bind;
        [solve [eauto with parses]
        |let a := fresh in let bs := fresh in let Hbs := fresh in intros a bs Hbs;
         cbv beta in Hbs; try (destruct a as [? ?]; cbn [fst snd] in Hbs); destruct_and? Hbs; subst; cbv beta iota] ].

(** A record whose reader is a sequence of fields. *)
Ltac by_parsing :=
  lazymatch goal with |- @Canonical _ ?codec => unfold Canonical, codec end;
  cbn [codec_ok codec_append codec_read];
  autounfold with wire; cbv zeta; repeat parse_step;
  apply parses_ret; [done|]; cbn -[Z.sub Z.add];
  autorewrite with wire; rewrite ?Z.sub_add, ?Z.add_simpl_l, ?app_nil_l, ?app_nil_r, <- ?app_assoc;
  split_and?; done.

#[export] Instance ExprSpan_canonical : Canonical ExprSpan.
Proof. by_parsing. Qed.
#[export] Instance Field_canonical : Canonical Field.
Proof. by_parsing. Qed.

Lemma parses_spans : parses 0 readSpanList (λ items bs, bs = spanListBytes items ∧ spans_ok items).
Proof.
  eapply parses_weaken; [apply (@parses_counted _ _ ExprSpan_canonical)|].
  intros items bs (->&Hok). unfold spanListBytes. by rewrite appendSpanList_counted.
Qed.

Lemma parses_fields :
  parses 0 readFieldList (λ items bs, bs = fieldListBytes items ∧ fields_ok items).
Proof.
  eapply parses_weaken; [apply (@parses_counted _ _ Field_canonical)|].
  intros items bs (->&Hok). unfold fieldListBytes. by rewrite appendFieldList_counted.
Qed.

#[export] Hint Resolve parses_spans parses_fields : parses.

#[export] Instance Decl_canonical : Canonical Decl.
Proof. by_parsing. Qed.
#[export] Instance Symbol_canonical : Canonical Symbol.
Proof. by_parsing. Qed.
#[export] Instance DeclMeta_canonical : Canonical DeclMeta.
Proof. by_parsing. Qed.
#[export] Instance Func_canonical : Canonical Func.
Proof. by_parsing. Qed.
#[export] Instance FuncSignature_canonical : Canonical FuncSignature.
Proof. by_parsing. Qed.
#[export] Instance Statement_canonical : Canonical Statement.
Proof. by_parsing. Qed.
#[export] Instance TypeInfo_canonical : Canonical TypeInfo.
Proof. by_parsing. Qed.
#[export] Instance TypeFields_canonical : Canonical TypeFields.
Proof. by_parsing. Qed.
#[export] Instance TypeFuncSig_canonical : Canonical TypeFuncSig.
Proof. by_parsing. Qed.
#[export] Instance MethodInfo_canonical : Canonical MethodInfo.
Proof. by_parsing. Qed.
#[export] Instance TypeRef_canonical : Canonical TypeRef.
Proof. by_parsing. Qed.
#[export] Instance LocalDecl_canonical : Canonical LocalDecl.
Proof. by_parsing. Qed.
#[export] Instance IndexExpr_canonical : Canonical IndexExpr.
Proof. by_parsing. Qed.
#[export] Instance CompositeExpr_canonical : Canonical CompositeExpr.
Proof. by_parsing. Qed.
#[export] Instance Assignment_canonical : Canonical Assignment.
Proof. by_parsing. Qed.
#[export] Instance Return_canonical : Canonical Return.
Proof. by_parsing. Qed.
#[export] Instance Call_canonical : Canonical Call.
Proof. by_parsing. Qed.
#[export] Instance NameRef_canonical : Canonical NameRef.
Proof. by_parsing. Qed.
#[export] Instance Selector_canonical : Canonical Selector.
Proof. by_parsing. Qed.
#[export] Instance PackageInfo_canonical : Canonical PackageInfo.
Proof. by_parsing. Qed.
#[export] Instance InterfaceEmbed_canonical : Canonical InterfaceEmbed.
Proof. by_parsing. Qed.
#[export] Instance InterfaceMethod_canonical : Canonical InterfaceMethod.
Proof. by_parsing. Qed.
#[export] Instance varint_canonical : Canonical Z.
Proof. apply parses_varint. Qed.

(** The two import flags and the value they came from. *)
Lemma importFlags_inv item flags :
  u32_ok flags → (3 <? flags) = false →
  im_Dot item = negb (Z.land flags 1 =? 0) → im_Blank item = negb (Z.land flags 2 =? 0) →
  importFlags item = flags.
Proof.
  unfold u32_ok, importFlags. intros Hf H3 -> ->.
  assert (flags = 0 ∨ flags = 1 ∨ flags = 2 ∨ flags = 3) as [->|[->|[->| ->]]] by lia; done.
Qed.

#[export] Instance Import_canonical : Canonical Import.
Proof.
  unfold Canonical, Import_codec. cbn [codec_ok codec_append codec_read]. unfold readImport.
  repeat parse_step. apply parses_reject. intros Hmax. cbv zeta. apply parses_reject. intros Hboth.
  apply parses_ret; [done|]. rewrite !app_nil_r. split; [|done].
  unfold appendImport. cbv zeta. rewrite (importFlags_inv _ _ ltac:(eassumption) Hmax) by done.
  cbn [im_Name im_ImportPath im_Package im_NameTok im_PathTok].
  autorewrite with wire. by rewrite app_nil_l, <- !app_assoc.
Qed.

#[export] Instance ConstValue_canonical : Canonical ConstValue.
Proof.
  unfold Canonical, ConstValue_codec. cbn [codec_ok codec_append codec_read].
  unfold readConstValue, ConstValue_ok, appendConstValue.
  eapply parses_bind; [apply parses_varint|]. intros decl b1 [-> Hd].
  eapply parses_bind; [apply parses_varint|]. intros kind b2 [-> Hk].
  destruct (Z.eqb_spec kind ConstInt) as [->|]; [|
    destruct (Z.eqb_spec kind ConstString) as [->|]; [|
    destruct (Z.eqb_spec kind ConstBool) as [->|]; [|by apply parses_reject]]].
  all: parse_step; apply parses_ret; [done|];
    cbn [cv_DeclIndex cv_Kind cv_Int cv_String cv_Bool]; cbv zeta.
  all: repeat match goal with |- context [?a =? ?b] =>
    let v := eval vm_compute in (a =? b) in change (a =? b) with v end; cbv iota.
  all: autorewrite with wire; rewrite app_nil_l, ?app_nil_r, <- ?app_assoc; naive_solver.
Qed.

#[export] Instance TypeIface_canonical : Canonical TypeIface.
Proof.
  unfold Canonical, TypeIface_codec. cbn [codec_ok codec_append codec_read]. unfold readTypeIface.
  eapply parses_bind; [apply parses_varint|]. intros typeIndex b1 [-> Ht].
  eapply parses_bind; [apply (@parses_counted _ _ InterfaceEmbed_canonical)|].
  intros embeds b2 (->&He&Hel).
  eapply parses_bind; [apply (@parses_counted _ _ InterfaceMethod_canonical)|].
  intros methods b3 (->&Hm&Hml).
  apply parses_ret; [done|]. rewrite app_nil_r. split; [|done].
  by rewrite appendTypeIface_bytes, app_nil_l.
Qed.
