(* ===== verification/WireSafety.v ===== *)
(** What [Unmarshal] accepts, and that no bytes make it panic. *)

From stdpp Require Import gmap.
From S2P Require Import Prelude.
From S2P Require Import GoInt.
From S2P Require Import WireReader.
From S2P Require Import WireFacts.
From S2P Require Import WireTables.
From S2P Require Import WireTablesFacts.
From S2P Require Import WireTokens.
From S2P Require Import WireTokensFacts.
From S2P Require Import WireUnit.
From S2P Require Import WireUnitFacts.
From S2P Require Import WireCanonical.

(** * Tokens *)

(** What the decoder records: the line of the first token is kept in 16 bits. *)
Definition clip (tokens : list token) : list token :=
  match tokens with
  | [] => []
  | t :: rest => Tok (tk_kind t) (tk_start t) (tk_size t) (u16 (tk_line t)) :: rest
  end.

Lemma clip_id t rest : 0 ≤ tk_line t ≤ 65535 → clip (t :: rest) = t :: rest.
Proof. intros. destruct t. cbn in *. unfold u16. rewrite Z.mod_small by lia. done. Qed.

Lemma clip_length tokens : lenZ (clip tokens) = lenZ tokens.
Proof. by destruct tokens. Qed.

Lemma clip_snoc before t : before ≠ [] → clip (before ++ [t]) = clip before ++ [t].
Proof. by destruct before. Qed.

(** The record of a token does not see the difference. *)
Lemma clip_bytes text tokens : tableBytes text (clip tokens) = tableBytes text tokens.
Proof.
  destruct tokens as [|t rest]; [done|]. cbn [clip]. rewrite !tableBytes_cons. f_equal.
  unfold tokenBytes, tokenRecord, operatorByte. cbn [tk_kind tk_start tk_size tk_line clip].
  pose proof (le16_bytes (tk_line t)) as Hl. pose proof (le16_bytes (u16 (tk_line t))) as Hl'.
  rewrite le16_add in Hl, Hl' by apply u8_range.
  assert (u16 (u16 (tk_line t)) = u16 (tk_line t)) as Hu by (unfold u16; by rewrite Z.mod_mod).
  rewrite Hu in Hl'.
  pose proof (u8_range (tk_line t)). pose proof (u8_range (Z.shiftr (tk_line t) 8)).
  pose proof (u8_range (u16 (tk_line t))). pose proof (u8_range (Z.shiftr (u16 (tk_line t)) 8)).
  unfold byte_ok in *.
  assert (u8 (u16 (tk_line t)) = u8 (tk_line t)) as -> by lia.
  assert (u8 (Z.shiftr (u16 (tk_line t)) 8) = u8 (Z.shiftr (tk_line t) 8)) as -> by lia. done.
Qed.

Lemma clip_lines before line : lines_ok before line → lines_ok (clip before) line.
Proof.
  unfold lines_ok. destruct before as [|t before]; [done|]. intros [Ht Hb]%Forall_cons.
  constructor; [|done]. cbn in *. unfold u16. pose proof (Z.mod_pos_bound (tk_line t) (2 ^ 16)).
  assert (tk_line t `mod` 2 ^ 16 ≤ tk_line t) by (apply Z.mod_le; lia). lia.
Qed.

(** The line table after one more token. *)
Lemma trackLine_clip text before start line t :
  lines_ok before line → 0 ≤ line → line ≤ tk_line t →
  trackLine (lenZ before) (tk_line t)
    (TokenState (tableBytes text before) (largeLines (clip before)) start line) =
    Ok (largeLines (clip (before ++ [t]))).
Proof.
  intros Hl H0 Hle. destruct (decide (before = [])) as [->|Hne].
  - cbn [app clip]. unfold trackLine, largeLines. cbn [existsb ts_largeLines].
    assert (tooLong (Tok (tk_kind t) (tk_start t) (tk_size t) (u16 (tk_line t))) = false) as ->.
    { unfold tooLong. cbn [tk_line]. unfold u16.
      pose proof (Z.mod_pos_bound (tk_line t) (2 ^ 16)). lia. }
    change (lenZ []) with 0. cbn [orb Z.eqb]. rewrite andb_true_r.
    by destruct (65535 <? tk_line t).
  - rewrite clip_snoc by done.
    rewrite <- (trackLine_spec text (clip before) start line t).
    + unfold decoded. by rewrite clip_length, clip_bytes.
    + by apply clip_lines.
    + done.
    + by destruct before.
Qed.

Lemma parses_liftRes {A B} k (r : res A) (f : A → Reader B) Q a :
  r = Ok a → parses k (f a) Q → parses k (liftRes r ≫= f) Q.
Proof. intros -> Hf data pos Hb H0 Hpos. by apply Hf. Qed.

(** A token that was decoded, and the bytes it came from. *)
Definition decodedToken (text : list Z) (before : list token) (st st' : tokenState)
    (bs : list Z) : Prop :=
  ∃ t, token_ok text (ts_start st) (ts_line st) t ∧
    bs = varint (tk_kind t) ++ varint (tk_start t - ts_start st) ++ varint (tk_size t) ++
         varint (tk_line t - ts_line st) ∧
    st' = TokenState (tableBytes text (before ++ [t])) (largeLines (clip (before ++ [t])))
            (tk_start t) (tk_line t).

(** The state of the decoder after the tokens [before]. *)
Definition recorded (text : list Z) (before : list token) (st : tokenState) : Prop :=
  0 ≤ ts_start st ∧ 0 ≤ ts_line st ∧ lines_ok before (ts_line st) ∧
  ts_out st = tableBytes text before ∧ ts_largeLines st = largeLines (clip before).

Lemma parses_token text before st :
  recorded text before st →
  parses 0 (decodeToken text (lenZ before) st) (decodedToken text before st).
Proof.
  intros (Hs&Hl&Hlines&Hout&Hlarge). unfold decodeToken.
  eapply parses_bind; [apply parses_varint|]. intros kind b1 [-> Hk].
  eapply parses_bind; [apply parses_varint|]. intros startDelta b2 [-> Hsd].
  eapply parses_bind; [apply parses_varint|]. intros size b3 [-> Hsz].
  eapply parses_bind; [apply parses_varint|]. intros lineDelta b4 [-> Hld].
  unfold u32_ok in *. cbv zeta. apply parses_reject. intros Hrange.
  set (t := Tok kind (ts_start st + startDelta) size (ts_line st + lineDelta)).
  apply (parses_liftRes _ _ _ _ (largeLines (clip (before ++ [t])))).
  { rewrite <- (trackLine_clip text before (ts_start st) (ts_line st)) by (done || cbn; lia).
    rewrite <- Hout, <- Hlarge. by destruct st. }
  apply parses_reject. intros Hop. apply parses_reject. intros Hnop.
  apply (parses_liftRes _ _ _ _ (operatorByte text t)).
  { unfold operatorByte. cbn [tk_kind tk_start tk_size t]. destruct (kind =? renvoTokOp); [|done].
    destruct (Z.ltb_spec 0 size); [|done].
    by destruct (lookupZ_lt_is_Some text (ts_start st + startDelta)) as [c ->]; [lia|]. }
  apply parses_ret; [done|]. exists t. unfold token_ok, byte_ok, t.
  cbn [tk_kind tk_start tk_size tk_line]. split; [split_and?; lia|]. split.
  - rewrite !Z.add_simpl_l, app_nil_r. done.
  - by rewrite Hout, tableBytes_app.
Qed.

Lemma recorded_next text before st t :
  recorded text before st → token_ok text (ts_start st) (ts_line st) t →
  recorded text (before ++ [t]) (TokenState (tableBytes text (before ++ [t]))
    (largeLines (clip (before ++ [t]))) (tk_start t) (tk_line t)).
Proof.
  intros (Hs&Hl&Hlines&_&_) (_&?&_&_&_&_&?). split_and!; cbn; [lia|lia| |done|done].
  apply Forall_app. split; [|by apply Forall_singleton; lia].
  eapply Forall_impl; [exact Hlines|]. simpl. intros. lia.
Qed.

Lemma parses_tokens text n before st :
  recorded text before st →
  parses 0 (decodeTokens_loop n text (lenZ before) st) (λ st' bs, ∃ tokens,
    length tokens = n ∧ tokens_ok text (ts_start st) (ts_line st) tokens ∧
    bs = wireTokens (ts_start st) (ts_line st) tokens ∧ recorded text (before ++ tokens) st').
Proof.
  revert before st. induction n as [|n IH]; intros before st Hst; cbn [decodeTokens_loop].
  { apply parses_ret; [done|]. exists []. by rewrite app_nil_r. }
  eapply parses_bind; [by apply parses_token|]. intros st' bs (t&Ht&->&->).
  specialize (IH (before ++ [t]) _ (recorded_next _ _ _ _ Hst Ht)).
  rewrite lenZ_app in IH. change (lenZ [t]) with 1 in IH.
  eapply parses_weaken; [exact IH|].
  intros st'' bs (tokens&<-&Hok&->&Hst''). exists (t :: tokens). rewrite <- app_assoc in Hst''.
  split; [done|]. split; [done|]. split; [by rewrite <- !app_assoc|]. done.
Qed.

(** The decoded table is well formed, and is the one its bytes encode. *)
Lemma decodeTokens_canonical text data :
  bytes_ok data →
  match decodeTokens text data with
  | Ok (tokens, lines) => ∃ toks, tokens = tableBytes text toks ∧ tokens_ok text 0 0 toks ∧
      u32_ok (lenZ toks) ∧ data = varint (lenZ toks) ++ wireTokens 0 0 toks ∧
      lines = largeLines (clip toks)
  | Err => True
  | Panic => False
  end.
Proof.
  intros Hb. unfold decodeTokens. pose proof (lenZ_nonneg data).
  pose proof (parses_varint data 0 Hb ltac:(lia) ltac:(lia)) as Hp.
  destruct (readVarint data 0) as [[count next]| |]; [|done..].
  destruct Hp as (Hnext&Hbs&Hc). unfold u32_ok in Hc. cbn [mbind res_bind].
  rewrite (proj2 (Z.ltb_ge _ 0)) by lia.
  pose proof (parses_tokens text (Z.to_nat count) [] (TokenState [] [] 0 0)) as Hl.
  change (lenZ []) with 0 in Hl.
  ospecialize (Hl _ data next Hb _ _); [split_and!; cbn; done || constructor|lia|lia|].
  destruct (decodeTokens_loop _ _ _ _ _ _) as [[st pos]| |]; [|done..]. cbn [mbind res_bind].
  destruct Hl as (Hpos&toks&Hlen&Hok&Hbs'&_&_&_&Hout&Hla).
  destruct (Z.eqb_spec pos (lenZ data)) as [->|]; cbn [negb]; [|done].
  exists toks. assert (lenZ toks = count) as -> by (unfold lenZ; lia).
  split; [done|]. split; [done|]. split; [done|]. split; [|done].
  rewrite <- Hbs. cbn [ts_start ts_line] in Hbs'. rewrite <- Hbs', sublistZ_app by lia.
  unfold sublistZ, lenZ. rewrite drop_0, take_ge; [done|lia].
Qed.

(** Lines of 32 bits: the table as recorded is one [encodeTokens] accepts. *)
Lemma clip_table_ok text tokens :
  tokens_ok text 0 0 tokens → u32_ok (lenZ tokens) →
  Forall (λ l, l < 2 ^ 32) (largeLines (clip tokens)) → table_ok text (clip tokens).
Proof.
  intros Hok Hlen Hlines. split; [|split; [by rewrite clip_length|]].
  2:{ destruct tokens as [|t rest]; [by intros|]. intros t' rest' [= <- _]. cbn. unfold u16.
      pose proof (Z.mod_pos_bound (tk_line t) (2 ^ 16)). lia. }
  destruct tokens as [|t [|t2 rest]]; [done|..]; cbn [clip tokens_ok tk_start tk_line] in *.
  { destruct Hok as [Ht _]. split; [|done]. unfold token_ok in *. cbn. unfold u16.
    pose proof (Z.mod_pos_bound (tk_line t) (2 ^ 16)). intuition lia. }
  destruct Hok as (Ht&Ht2&Hrest). unfold u16.
  pose proof (Z.mod_pos_bound (tk_line t) (2 ^ 16)).
  assert (tk_line t `mod` 2 ^ 16 ≤ tk_line t) by (apply Z.mod_le; unfold token_ok in Ht; lia).
  assert (tk_line t2 < 2 ^ 32) as Hl2.
  { unfold largeLines in Hlines. destruct (existsb _ _) eqn:He; cbn in Hlines.
    - by apply Forall_cons in Hlines as [_ [? _]%Forall_cons].
    - apply existsb_tooLong_false in He. apply Forall_cons in He as [_ [? _]%Forall_cons]. lia. }
  unfold token_ok in *. cbn. intuition lia.
Qed.

(** * Results without panics *)

(** [r] is not a panic, and [Q] holds of its value. *)
Definition safe {A} (r : res A) (Q : A → Prop) : Prop :=
  match r with Ok a => Q a | Err => True | Panic => False end.

Lemma safely_bind {A B} (r : res A) (f : A → res B) P Q :
  safe r P → (∀ a, P a → safe (f a) Q) → safe (r ≫= f) Q.
Proof. destruct r; cbn; auto. Qed.

Lemma safe_check {A} b (r : res A) Q : (b = true → safe r Q) → safe (_ ← check b; r) Q.
Proof. destruct b; cbn; auto. Qed.

Lemma safe_weaken {A} (r : res A) (P Q : A → Prop) : safe r P → (∀ a, P a → Q a) → safe r Q.
Proof. destruct r; cbn; auto. Qed.

Lemma safe_index {A} (l : list A) i (P : A → Prop) :
  Forall P l → 0 ≤ i < lenZ l → safe (index (l !!z i)) P.
Proof.
  intros Hl Hi. destruct (lookupZ_lt_is_Some l i Hi) as [x Hx]. rewrite Hx. cbn.
  by eapply lookupZ_Forall.
Qed.

(** ** Range validation *)

Lemma validate_safe p : safe (validateCoreUnitRanges p) (λ _, True).
Proof.
  unfold validateCoreUnitRanges. cbv zeta.
  apply safe_check. intros _. apply safe_check. intros _. apply safe_check. intros Htok.
  apply safe_check. intros _. unfold tokenStride in *.
  assert (0 < lenZ (p_Tokens p) ∧ lenZ (p_Tokens p) `mod` 8 = 0) as [Hpos Hmod].
  { pose proof (lenZ_nonneg (p_Tokens p)). lia. }
  eapply safely_bind; [apply (safe_index _ _ (λ _, True)); [by apply Forall_true|]|].
  { Z.div_mod_to_equations. lia. }
  intros kind _. do 3 (apply safe_check; intros _).
  by destruct (forallb _ _).
Qed.

(** ** Tables *)

Lemma table_safe {A} `{Canonical A} data :
  bytes_ok data → safe (readTable codec_read data) items_ok.
Proof.
  intros Hb. pose proof (table_canonical data Hb) as Ht.
  destruct (readTable codec_read data); [|done..]. split; apply Ht.
Qed.

(** The payloads kept so far, and the tables decoded in place. *)
Record scan_ok (sc : scan) : Prop := {
  scan_bytes : map_Forall (λ _, bytes_ok) (sc_data sc);
  scan_decls : items_ok (sc_decls sc);
  scan_funcs : items_ok (sc_funcs sc)
}.

Lemma items_ok_nil {A} `{Codec A} : items_ok (@nil A).
Proof. split; [constructor|]. unfold u32_ok. change (lenZ []) with 0. lia. Qed.

Lemma scan_ok_initial : scan_ok (Scan 0 0 ∅ [] []).
Proof. split; [apply map_Forall_empty|apply items_ok_nil..]. Qed.

Lemma optionalTable_safe {A} `{Canonical A} sc tag (decode : list Z → res (list A)) :
  scan_ok sc → decode = readTable codec_read → safe (optionalTable sc tag decode) items_ok.
Proof.
  intros Hsc ->. unfold optionalTable. destruct (sc_data sc !! tag) as [d|] eqn:Hd.
  - apply table_safe. exact (scan_bytes _ Hsc _ _ Hd).
  - apply items_ok_nil.
Qed.

Lemma payloadOf_bytes sc tag : scan_ok sc → bytes_ok (payloadOf sc tag).
Proof.
  intros Hsc. unfold payloadOf. destruct (sc_data sc !! tag) eqn:Hd; [|constructor].
  exact (scan_bytes _ Hsc _ _ Hd).
Qed.

(** ** The child loop *)

Lemma markTag_safe tag low high : safe (markTag tag low high) (λ _, True).
Proof. unfold markTag. cbv zeta. by repeat case_match. Qed.

Lemma visitChild_safe tag payload sc :
  bytes_ok payload → scan_ok sc → safe (visitChild tag payload sc) scan_ok.
Proof.
  intros Hb Hsc. unfold visitChild. destruct (tag =? TagUnit); [done|].
  eapply safely_bind; [apply markTag_safe|]. intros [low high] _.
  destruct Hsc as [Hd Hdd Hff].
  destruct (bool_decide (tag ∈ switchTags)); [|done].
  destruct (bool_decide (is_Some (sc_data sc !! tag))); [done|]. cbv zeta.
  assert (map_Forall (λ _, bytes_ok) (<[tag:=payload]> (sc_data sc))) by by apply map_Forall_insert_2.
  destruct (tag =? TagDecls); [|destruct (tag =? TagFuncs)]; [..|done].
  - eapply (safely_bind _ _ items_ok); [exact (table_safe (A := Decl) payload Hb)|]. intros decls Hok. done.
  - eapply (safely_bind _ _ items_ok); [exact (table_safe (A := Func) payload Hb)|]. intros funcs Hok. done.
Qed.

Lemma uint16At_safe data at_ :
  bytes_ok data → 0 ≤ at_ → at_ + 2 ≤ lenZ data → safe (uint16At data at_) (λ v, 0 ≤ v < 2 ^ 16).
Proof.
  intros Hb H0 Hl. unfold uint16At.
  eapply safely_bind; [apply (safe_index _ _ _ Hb); lia|]. intros a Ha.
  eapply safely_bind; [apply (safe_index _ _ _ Hb); lia|]. intros b Hb'.
  cbn. rewrite le16_add by done. unfold byte_ok in *. lia.
Qed.

Lemma uint32At_safe data at_ :
  bytes_ok data → 0 ≤ at_ → at_ + 4 ≤ lenZ data → safe (uint32At data at_) u32_ok.
Proof.
  intros Hb H0 Hl. unfold uint32At.
  eapply safely_bind; [apply (safe_index _ _ _ Hb); lia|]. intros a Ha.
  eapply safely_bind; [apply (safe_index _ _ _ Hb); lia|]. intros b Hb'.
  eapply safely_bind; [apply (safe_index _ _ _ Hb); lia|]. intros c Hc.
  eapply safely_bind; [apply (safe_index _ _ _ Hb); lia|]. intros d Hd.
  cbn. rewrite le32_add by done. unfold u32_ok, byte_ok in *. lia.
Qed.

Lemma scanChildren_safe fuel data rootEnd pos sc :
  bytes_ok data → 0 ≤ pos → rootEnd ≤ lenZ data → scan_ok sc →
  safe (scanChildren fuel data rootEnd pos sc) scan_ok.
Proof.
  intros Hb. revert pos sc. induction fuel as [|fuel IH]; intros pos sc H0 He Hsc; [done|].
  cbn [scanChildren]. destruct (Z.ltb_spec pos rootEnd); [|done].
  destruct (Z.ltb_spec rootEnd (pos + 6)); [done|].
  eapply safely_bind; [apply uint16At_safe; [done|lia..]|]. intros tag _.
  eapply safely_bind; [apply uint32At_safe; [done|lia..]|]. intros length Hlen.
  unfold u32_ok in Hlen. cbv zeta. destruct (_ || _) eqn:Hn; [done|].
  rewrite sliceZ_Some by lia. cbn [index mbind res_bind].
  eapply (safely_bind _ _ scan_ok).
  { apply visitChild_safe; [by apply sublistZ_Forall|done]. }
  intros sc' Hsc'. apply IH; [lia..|done].
Qed.

(** Fuel beyond the bytes left changes nothing. *)
Lemma scanChildren_fuel fuel fuel' data rootEnd pos sc :
  bytes_ok data → 0 ≤ pos → rootEnd ≤ lenZ data →
  (Z.to_nat (rootEnd - pos) < fuel)%nat → (Z.to_nat (rootEnd - pos) < fuel')%nat →
  scanChildren fuel data rootEnd pos sc = scanChildren fuel' data rootEnd pos sc.
Proof.
  intros Hb. revert fuel' pos sc. induction fuel as [|fuel IH]; intros [|fuel'] pos sc H0 He Hf Hf';
    try lia. cbn [scanChildren].
  destruct (Z.ltb_spec pos rootEnd); [|done].
  destruct (Z.ltb_spec rootEnd (pos + 6)); [done|].
  destruct (uint16At data pos) as [tag| |]; [|done..]. cbn [mbind res_bind].
  pose proof (uint32At_safe data (pos + 2) Hb ltac:(lia) ltac:(lia)) as Hu.
  destruct (uint32At data (pos + 2)) as [length| |]; [|done..]. cbn [mbind res_bind].
  cbn in Hu. unfold u32_ok in Hu. cbv zeta. destruct (_ || _) eqn:Hn; [done|].
  destruct (index _) as [payload| |]; [|done..]. cbn [mbind res_bind].
  destruct (visitChild tag payload sc) as [sc'| |]; [|done..]. cbn [mbind res_bind].
  apply IH; lia.
Qed.

(** * Accepted units *)

(** The tokens of a decoded program. *)
Definition tokens_decoded (p : Program) : Prop :=
  ∃ tokens, p_Tokens p = tableBytes (p_Text p) tokens ∧ tokens_ok (p_Text p) 0 0 tokens ∧
    u32_ok (lenZ tokens) ∧ p_TokenLines p = largeLines (clip tokens).

Definition accepted (p : Program) : Prop :=
  tables_ok p ∧ validateCoreUnitRanges p = Ok tt ∧ tokens_decoded p.

Lemma decodeTokens_safe text data :
  bytes_ok data →
  safe (decodeTokens text data) (λ tl, ∃ tokens, tl.1 = tableBytes text tokens ∧
    tokens_ok text 0 0 tokens ∧ u32_ok (lenZ tokens) ∧ tl.2 = largeLines (clip tokens)).
Proof.
  intros Hb. pose proof (decodeTokens_canonical text data Hb) as Hd.
  destruct (decodeTokens text data) as [[toks lines]| |]; [|done..].
  destruct Hd as (tokens&?&?&?&_&?). by exists tokens.
Qed.

Ltac table_step Hsc :=
  match goal with |- safe (optionalTable ?sc ?tag ?decode ≫= _) _ =>
    eapply safely_bind; [apply (optionalTable_safe sc tag decode Hsc); reflexivity|intros ? ?]
  end.

Lemma assemble_safe sc : scan_ok sc → safe (assemble sc) accepted.
Proof.
  intros Hsc. pose proof Hsc as [_ Hdecls Hfuncs]. unfold assemble. cbv zeta.
  do 3 (apply safe_check; intros _).
  eapply safely_bind; [by apply decodeTokens_safe, payloadOf_bytes|]. intros [toks lines] Htoks.
  repeat table_step Hsc. apply safe_check. intros _.
  match goal with |- context [validateCoreUnitRanges ?q] => set (p := q) end.
  pose proof (validate_safe p) as Hv.
  destruct (validateCoreUnitRanges p) as [[]| |] eqn:Hp; [|done..]. cbn.
  split; [by unfold tables_ok, p; cbn; split_and?|]. split; [done|exact Htoks].
Qed.

Lemma readHeader_safe data :
  bytes_ok data →
  safe (readHeader data) (λ rootEnd, rootEnd = lenZ data ∧ 14 ≤ lenZ data ∧
    uint32At data 10 = Ok (lenZ data - 14)).
Proof.
  intros Hb. unfold readHeader. destruct (Z.ltb_spec (lenZ data) 14); [done|].
  rewrite sliceZ_Some by lia. cbn [index mbind res_bind].
  apply safe_check. intros _.
  eapply safely_bind; [apply uint16At_safe; [done|lia..]|]. intros version _.
  apply safe_check. intros _.
  eapply safely_bind; [apply uint16At_safe; [done|lia..]|]. intros flags _.
  apply safe_check. intros _.
  eapply safely_bind; [apply uint16At_safe; [done|lia..]|]. intros rootTag _.
  pose proof (uint32At_safe data 10 Hb ltac:(lia) ltac:(lia)) as Hu.
  destruct (uint32At data 10) as [rootLength| |]; [|done..].
  cbn in Hu. unfold u32_ok in Hu. cbn [mbind res_bind].
  apply safe_check. intros _. cbv zeta. destruct (_ || _) eqn:Hn; [done|]. cbn.
  split; [lia|]. split; [done|]. f_equal. lia.
Qed.

Lemma Unmarshal_safe data : bytes_ok data → safe (Unmarshal data) accepted.
Proof.
  intros Hb. unfold Unmarshal. eapply safely_bind; [by apply readHeader_safe|].
  intros rootEnd [-> _]. eapply safely_bind; [|apply assemble_safe].
  apply scanChildren_safe; [done|lia..|apply scan_ok_initial].
Qed.

(** A decoded program is one that [Marshal] can carry. *)
Lemma accepted_program_ok p :
  accepted p → Forall (λ l, l < 2 ^ 32) (p_TokenLines p) → ∃ tokens, program_ok p tokens.
Proof.
  intros (Htab&Hv&tokens&Ht&Hok&Hlen&Hl) Hlines. exists (clip tokens).
  rewrite Hl in Hlines. split_and!; [by rewrite clip_bytes|done| |done|done].
  by apply clip_table_ok.
Qed.

(** * Children *)

Lemma visitAll_app c1 c2 sc :
  visitAll (c1 ++ c2) sc = (sc ← visitAll c1 sc; visitAll c2 sc).
Proof.
  revert sc. induction c1 as [|c c1 IH]; intros sc; cbn [app visitAll]; [done|].
  destruct (visitChild c.1 c.2 sc); cbn [mbind res_bind]; [apply IH|done..].
Qed.

(** A tag that the schema does not know. *)
Definition unknown_tag (tag : Z) : Prop := tag ≠ TagUnit ∧ schemaChildTagIndex tag < 0.

Lemma visitChild_unknown tag payload sc : unknown_tag tag → visitChild tag payload sc = Ok sc.
Proof.
  intros [Hu Hs]. unfold visitChild. rewrite (proj2 (Z.eqb_neq _ _)) by done.
  unfold markTag. cbv zeta. rewrite (proj2 (Z.leb_gt _ _)) by done. cbn [mbind res_bind].
  rewrite bool_decide_eq_false_2; [by destruct sc|]. intros Hin. revert Hs.
  apply Z.le_ngt. clear Hu. revert tag Hin. apply (Forall_forall (λ t, 0 ≤ schemaChildTagIndex t)).
  by_decision.
Qed.

(** ** Duplicates *)

Definition known (tag : Z) : Prop := 0 ≤ schemaChildTagIndex tag.
#[export] Instance known_dec tag : Decision (known tag) := ltac:(unfold known; apply _).

(** The bit of a known tag in the masks. *)
Definition marked (tag low high : Z) : bool :=
  let i := schemaChildTagIndex tag in
  if i <? 16 then Z.testbit low i else Z.testbit high (i - 16).

Lemma schemaChildTagIndex_inj t u :
  known t → schemaChildTagIndex t = schemaChildTagIndex u → t = u.
Proof.
  unfold known, schemaChildTagIndex, TagPackage, TagImportPath, TagText, TagForeignPrograms.
  intros. repeat case_match; lia.
Qed.

Lemma land_bit_zero mask i : 0 ≤ i → (Z.land mask (Z.shiftl 1 i) =? 0) = negb (Z.testbit mask i).
Proof.
  intros Hi. rewrite Z.shiftl_1_l. destruct (Z.testbit mask i) eqn:Ht; cbn [negb].
  - apply Z.eqb_neq. intros H0. assert (Z.testbit (Z.land mask (2 ^ i)) i = true) as Hb.
    { by rewrite Z.land_spec, Z.pow2_bits_true, Ht. }
    by rewrite H0, Z.bits_0 in Hb.
  - apply Z.eqb_eq. apply Z.bits_inj'. intros n Hn. rewrite Z.land_spec, Z.bits_0.
    destruct (decide (n = i)) as [->|]; [by rewrite Ht|].
    rewrite Z.pow2_bits_false by lia. apply andb_false_r.
Qed.

Lemma lor_bit mask i n :
  0 ≤ i → Z.testbit (Z.lor mask (Z.shiftl 1 i)) n = Z.testbit mask n || (n =? i).
Proof.
  intros Hi. rewrite Z.shiftl_1_l, Z.lor_spec. f_equal.
  destruct (Z.eqb_spec n i) as [->|]; [by apply Z.pow2_bits_true|].
  apply Z.pow2_bits_false. lia.
Qed.

(** Marking a known tag fails if it is marked, and marks it alone otherwise. *)
Lemma markTag_known tag low high :
  known tag →
  markTag tag low high =
    if marked tag low high then Err
    else let i := schemaChildTagIndex tag in
         if i <? 16 then Ok (Z.lor low (Z.shiftl 1 i), high)
         else Ok (low, Z.lor high (Z.shiftl 1 (i - 16))).
Proof.
  unfold known, markTag, marked. intros Hi. cbv zeta. rewrite (proj2 (Z.leb_le _ _)) by done.
  destruct (Z.ltb_spec (schemaChildTagIndex tag) 16); rewrite land_bit_zero by lia;
    by rewrite negb_involutive.
Qed.

Lemma marked_after tag low high low' high' t :
  known tag → known t → markTag tag low high = Ok (low', high') →
  marked t low' high' = marked t low high || bool_decide (t = tag).
Proof.
  intros Hk Ht. rewrite markTag_known by done. destruct (marked tag low high); [done|].
  pose proof (schemaChildTagIndex_inj t tag Ht) as Hinj. unfold known in *. cbv zeta.
  assert (bool_decide (t = tag) = (schemaChildTagIndex t =? schemaChildTagIndex tag)) as ->.
  { destruct (Z.eqb_spec (schemaChildTagIndex t) (schemaChildTagIndex tag)).
    - apply bool_decide_eq_true_2. auto.
    - apply bool_decide_eq_false_2. by intros ->. }
  destruct (Z.ltb_spec (schemaChildTagIndex tag) 16); intros [= <- <-]; unfold marked; cbv zeta;
    destruct (Z.ltb_spec (schemaChildTagIndex t) 16); rewrite ?lor_bit by lia.
  - done.
  - rewrite (proj2 (Z.eqb_neq _ _)) by lia. by rewrite orb_false_r.
  - rewrite (proj2 (Z.eqb_neq _ _)) by lia. by rewrite orb_false_r.
  - f_equal. destruct (Z.eqb_spec (schemaChildTagIndex t) (schemaChildTagIndex tag));
      [by apply Z.eqb_eq; lia|by apply Z.eqb_neq; lia].
Qed.

Lemma markTag_unknown tag low high : ¬ known tag → markTag tag low high = Ok (low, high).
Proof. unfold known, markTag. intros. cbv zeta. by rewrite (proj2 (Z.leb_gt _ _)) by lia. Qed.

(** What a visit does to the masks. *)
Lemma visitChild_masks tag payload sc sc' :
  visitChild tag payload sc = Ok sc' →
  markTag tag (sc_low sc) (sc_high sc) = Ok (sc_low sc', sc_high sc').
Proof.
  unfold visitChild. destruct (tag =? TagUnit); [done|].
  destruct (markTag tag _ _) as [[low high]| |]; [|done..]. cbn [mbind res_bind].
  destruct (bool_decide (tag ∈ switchTags)); [|by intros [= <-]].
  destruct (bool_decide (is_Some _)); [done|]. cbv zeta.
  destruct (tag =? TagDecls); [|destruct (tag =? TagFuncs); [|by intros [= <-]]].
  - destruct (decodeDecls payload); [by intros [= <-]|done..].
  - destruct (decodeFuncs payload); [by intros [= <-]|done..].
Qed.

Lemma visitAll_masks children sc sc' :
  visitAll children sc = Ok sc' →
  NoDup (filter known children.*1) ∧
  (∀ t, known t → t ∈ children.*1 → marked t (sc_low sc) (sc_high sc) = false) ∧
  (∀ t, known t → marked t (sc_low sc') (sc_high sc') =
    marked t (sc_low sc) (sc_high sc) || bool_decide (t ∈ children.*1)).
Proof.
  revert sc. induction children as [|[tag payload] children IH]; intros sc Hv; cbn [visitAll] in Hv.
  { injection Hv as <-. split; [constructor|]. split; [by intros ? ? ?%elem_of_nil|].
    intros t Ht. rewrite bool_decide_eq_false_2 by apply not_elem_of_nil. by rewrite orb_false_r. }
  destruct (visitChild tag payload sc) as [sc1| |] eqn:Hc; cbn [fst snd mbind res_bind] in Hv;
    rewrite Hc in Hv; [|done..].
  apply visitChild_masks in Hc. destruct (IH sc1 Hv) as (Hnd&Hfresh&Hmarks).
  rewrite fmap_cons. cbn [fst]. destruct (decide (known tag)) as [Hk|Hk].
  - rewrite filter_cons_True by done.
    assert (marked tag (sc_low sc) (sc_high sc) = false) as Hf.
    { rewrite markTag_known in Hc by done. by destruct (marked tag _ _). }
    pose proof (marked_after _ _ _ _ _ tag Hk Hk Hc) as Hself.
    rewrite bool_decide_eq_true_2, orb_true_r in Hself by done.
    assert (tag ∉ children.*1) as Hout.
    { intros Hin. by rewrite (Hfresh _ Hk Hin) in Hself. }
    split; [constructor; [|done]; by intros [_ ?]%list_elem_of_filter|]. split.
    + intros t Ht [->|Hin]%elem_of_cons; [done|].
      specialize (Hfresh t Ht Hin). rewrite (marked_after _ _ _ _ _ t Hk Ht Hc) in Hfresh.
      by apply orb_false_iff in Hfresh as [? _].
    + intros t Ht. rewrite Hmarks, (marked_after _ _ _ _ _ t Hk Ht Hc), bool_decide_cons by done.
      rewrite <- orb_assoc. f_equal. f_equal.
      destruct (Z.eqb_spec tag t) as [->|]; [by apply bool_decide_eq_true_2|].
      by apply bool_decide_eq_false_2; intros ->.
  - rewrite filter_cons_False by done. rewrite markTag_unknown in Hc by done.
    injection Hc as Hl Hh. rewrite <- Hl, <- Hh in *. split; [done|]. split.
    + intros t Ht [->|Hin]%elem_of_cons; [done|auto].
    + intros t Ht. rewrite Hmarks, bool_decide_cons by done.
      destruct (Z.eqb_spec tag t) as [->|]; [done|]. done.
Qed.

(** The tags a unit must have. *)
Definition requiredTags : list Z :=
  [TagPackage; TagImportPath; TagText; TagTokens; TagDecls; TagFuncs].

Lemma required_marked sc t :
  Z.land (sc_low sc) schemaRequiredChildMaskLow = schemaRequiredChildMaskLow →
  t ∈ requiredTags → marked t (sc_low sc) (sc_high sc) = true.
Proof.
  intros Hl Ht. unfold marked. cbv zeta.
  assert (0 ≤ schemaChildTagIndex t < 6) as Hi.
  { revert t Ht. apply (Forall_forall (λ t, 0 ≤ schemaChildTagIndex t < 6)). by_decision. }
  rewrite (proj2 (Z.ltb_lt _ _)) by lia.
  assert (Z.testbit schemaRequiredChildMaskLow (schemaChildTagIndex t) = true) as Hb.
  { change schemaRequiredChildMaskLow with (Z.ones 6). apply Z.ones_spec_low. lia. }
  rewrite <- Hl, Z.land_spec in Hb. by apply andb_true_iff in Hb as [? _].
Qed.
