(* ===== verification/WireProperties.v ===== *)
(** The properties of the unit format: round trips, uniqueness of encodings,
    what [Unmarshal] accepts, and its behaviour on arbitrary bytes. *)

From stdpp Require Import gmap.
From S2P Require Import Prelude.
From S2P Require Import GoInt.
From S2P Require Import WireReader.
From S2P Require Import WireFacts.
From S2P Require Import WireTables.
From S2P Require Import WireTablesFacts.
From S2P Require Import WireTokens.
From S2P Require Import WireTokensFacts.
From S2P Require Import WireUnit.
From S2P Require Import WireUnitFacts.
From S2P Require Import WireCanonical.
From S2P Require Import WireSafety.

(** * A sample program *)

Definition sampleTokens : list token :=
  [Tok 1 0 2 1; Tok 22 3 1 2; Tok renvoTokEOF 4 0 70000].

Definition sampleProgram : Program :=
  let text := [97; 98; 32; 59] in
  MkProgram [109] [109; 47; 120] text (tableBytes text sampleTokens) (largeLines sampleTokens)
    [MkImport [102] [102; 109; 116] (-1) 0 1 false true]
    [MkSymbol [97; 98] 2 (-1) 0 1 0]
    [MkDecl 1 0 2 0 1]
    [MkDeclMeta 0 (-1) 0 (-1) (-1) 0 1 [MkExprSpan 0 1] true]
    [0; 300]
    [MkConstValue 0 ConstInt (-5) [] false; MkConstValue 0 ConstString 0 [104; 105] false]
    [MkFunc 0 2 0 0 0 0 1 2 2]
    [MkFuncSignature 0 [] [MkField (-1) 0 1 true] []]
    [] [] [] [MkTypeIface 0 [MkInterfaceMethod 0 [] []] [MkInterfaceEmbed 0 1]]
    [] [] [] [] [] [] [] [] [] [] [] [MkPackageInfo [109] [109] 1 2 3 4 0 4 0 3 0 1 0 1].

Lemma sampleProgram_ok : program_ok sampleProgram sampleTokens.
Proof.
  split; [done|]. split; [done|]. split.
  { split; [|split; [done|by intros t rest [= <- _]]].
    repeat split; try (vm_compute; congruence); intros; vm_compute; congruence. }
  split; [|by vm_compute].
  unfold tables_ok, sampleProgram. cbn.
  split_and!; split; unfold u32_ok; cbn; repeat constructor; vm_compute; (done || intuition congruence).
Qed.

Lemma sampleProgram_small : too_big (rootPayload sampleProgram sampleTokens) = false.
Proof. vm_compute. reflexivity. Qed.

Definition sampleUnit : list Z :=
  Eval vm_compute in match Marshal sampleProgram with Ok data => data | _ => [] end.

(** * Round trips *)

(** C6. [Marshal] followed by [Unmarshal] is the identity on every program whose
    fields are in range; the only reason for [Marshal] to fail on such a program is
    a payload that does not fit the 32-bit length field. *)
Theorem Marshal_Unmarshal p tokens :
  program_ok p tokens →
  (∃ data, Marshal p = Ok data ∧ Unmarshal data = Ok p) ∨
  Marshal p = Err ∧ 2 ^ 32 - 1 < lenZ (rootPayload p tokens).
Proof.
  intros Hok. rewrite (Marshal_spec _ _ Hok).
  destruct (too_big (rootPayload p tokens)) eqn:Hb; [right|left].
  - split; [done|]. unfold too_big in Hb. lia.
  - eexists. split; [done|]. by apply Unmarshal_written.
Qed.

Lemma Marshal_Unmarshal_witness :
  Marshal sampleProgram = Ok sampleUnit ∧
  ((∃ data, Marshal sampleProgram = Ok data ∧ Unmarshal data = Ok sampleProgram) ∨
   Marshal sampleProgram = Err ∧ 2 ^ 32 - 1 < lenZ (rootPayload sampleProgram sampleTokens)).
Proof.
  split; [vm_compute; reflexivity|].
  exact (Marshal_Unmarshal sampleProgram sampleTokens sampleProgram_ok).
Defined.

(** C26. No byte sequence makes [Unmarshal] panic, and its child loop ends: giving
    the loop more iterations than the bytes it has left changes nothing. *)
Theorem Unmarshal_total data :
  bytes_ok data →
  Unmarshal data ≠ Panic ∧
  ∀ fuel rootEnd sc, readHeader data = Ok rootEnd → (length data < fuel)%nat →
    scanChildren fuel data rootEnd 14 sc = scanChildren (S (length data)) data rootEnd 14 sc.
Proof.
  intros Hb. split.
  - pose proof (Unmarshal_safe data Hb) as Hs. by destruct (Unmarshal data).
  - intros fuel rootEnd sc Hh Hf. pose proof (readHeader_safe data Hb) as Hs.
    rewrite Hh in Hs. destruct Hs as (->&?&_).
    apply scanChildren_fuel; [done|lia|lia|unfold lenZ in *; lia..].
Qed.

Lemma Unmarshal_total_witness :
  Unmarshal (take 40 sampleUnit) = Err ∧ Unmarshal (take 40 sampleUnit) ≠ Panic.
Proof.
  split; [vm_compute; reflexivity|].
  refine (proj1 (Unmarshal_total (take 40 sampleUnit) _)). by_decision.
Defined.

(** ** What is accepted *)

(** [start <= end <= limit], from zero. *)
Definition within (limit start end_ : Z) : Prop := 0 ≤ start ∧ start ≤ end_ ∧ end_ ≤ limit.

(** The ranges of a core unit, in the terms its consumers rely on. *)
Record ranges_ok (p : Program) : Prop := {
  ranges_package : p_Package p ≠ [];
  ranges_text : p_Text p ≠ [];
  ranges_lines : p_TokenLines p = [] ∨ lenZ (p_Tokens p) = 8 * lenZ (p_TokenLines p);
  ranges_eof : p_Tokens p !!z (lenZ (p_Tokens p) - 8) = Some renvoTokEOF;
  ranges_decls : Forall (λ d, within (lenZ (p_Text p)) (dc_NameStart d) (dc_NameEnd d) ∧
    within (lenZ (p_Tokens p) `div` 8) (dc_StartTok d) (dc_EndTok d)) (p_Decls p);
  ranges_funcs : Forall (λ f, within (lenZ (p_Text p)) (fn_NameStart f) (fn_NameEnd f) ∧
    within (lenZ (p_Tokens p) `div` 8) (fn_ReceiverStart f) (fn_ReceiverEnd f) ∧
    within (lenZ (p_Tokens p) `div` 8) (fn_BodyStart f) (fn_BodyEnd f) ∧
    0 ≤ fn_StartTok f ≤ fn_NameTok f ∧ fn_NameTok f < fn_EndTok f ≤ lenZ (p_Tokens p) `div` 8)
    (p_Funcs p);
  ranges_packages : Forall (λ k, pk_Name k ≠ [] ∧ pk_ImportPath k ≠ [] ∧
    within (lenZ (p_Text p)) (pk_TextStart k) (pk_TextEnd k) ∧
    within (lenZ (p_Tokens p) `div` 8) (pk_TokenStart k) (pk_TokenEnd k) ∧
    within (lenZ (p_Decls p)) (pk_DeclStart k) (pk_DeclEnd k) ∧
    within (lenZ (p_Funcs p)) (pk_FuncStart k) (pk_FuncEnd k)) (p_Packages p)
}.

Lemma unitRangeValid_within limit start end_ :
  unitRangeValid limit start end_ = true ↔ within limit start end_.
Proof. unfold unitRangeValid, within. lia. Qed.

Lemma lenZ_eqb_nil {A} (l : list A) : (lenZ l =? 0) = false ↔ l ≠ [].
Proof. destruct l; [done|]. rewrite lenZ_cons. pose proof (lenZ_nonneg l). split; [done|lia]. Qed.

(** The boolean checks decide the ranges. *)
Lemma validate_ranges p : validateCoreUnitRanges p = Ok tt → ranges_ok p.
Proof.
  unfold validateCoreUnitRanges, check, tokenStride. cbv zeta.
  destruct (lenZ (p_Package p) =? 0) eqn:Hp; [done|].
  destruct (lenZ (p_Text p) =? 0) eqn:Ht; [done|]. cbn [negb mbind res_bind].
  destruct ((lenZ (p_Tokens p) =? 0) || _) eqn:Htok; [done|]. cbn [negb mbind res_bind].
  destruct (negb (lenZ (p_TokenLines p) =? 0) && _) eqn:Hlines; [done|].
  cbn [negb mbind res_bind].
  replace ((lenZ (p_Tokens p) `div` 8 - 1) * 8) with (lenZ (p_Tokens p) - 8)
    by (Z.div_mod_to_equations; lia).
  destruct (p_Tokens p !!z (lenZ (p_Tokens p) - 8)) as [kind|] eqn:Hk; [|done].
  cbn [index mbind res_bind]. destruct (Z.eqb_spec kind renvoTokEOF) as [->|]; [|done].
  cbn [mbind res_bind]. destruct (forallb (declRangeValid _ _) _) eqn:Hd; [|done].
  cbn [mbind res_bind]. destruct (forallb (funcRangeValid _ _) _) eqn:Hf; [|done].
  cbn [mbind res_bind]. destruct (forallb (packageRangeValid _ _ _ _) _) eqn:Hk2; [|done]. intros _.
  split; [by apply lenZ_eqb_nil|by apply lenZ_eqb_nil| |done|..].
  - destruct (p_TokenLines p) eqn:Hl; [by left|right]. 
    apply andb_false_iff in Hlines as [Hn|Hn].
    + rewrite lenZ_cons in Hn. pose proof (lenZ_nonneg l). lia.
    + Z.div_mod_to_equations. lia.
  - apply Forall_forall. intros d Hin. rewrite forallb_forall in Hd.
    specialize (Hd d (proj1 (list_elem_of_In _ _) Hin)).
    unfold declRangeValid in Hd. by rewrite andb_true_iff, !unitRangeValid_within in Hd.
  - apply Forall_forall. intros f Hin. rewrite forallb_forall in Hf.
    specialize (Hf f (proj1 (list_elem_of_In _ _) Hin)).
    unfold funcRangeValid in Hf. rewrite !andb_true_iff, !unitRangeValid_within in Hf.
    unfold within in *. lia.
  - apply Forall_forall. intros k Hin. rewrite forallb_forall in Hk2.
    specialize (Hk2 k (proj1 (list_elem_of_In _ _) Hin)).
    unfold packageRangeValid in Hk2. rewrite !andb_true_iff, !unitRangeValid_within in Hk2.
    rewrite negb_true_iff, orb_false_iff, !lenZ_eqb_nil in Hk2. tauto.
Qed.

(** C10. A unit that [Unmarshal] accepts is safe to index: its declarations,
    functions and packages name ranges of its text and of its tokens, the last
    token is the end of file, every token lies in the text in source order, and
    every table holds values the format can express. *)
Theorem Unmarshal_sound data p :
  bytes_ok data → Unmarshal data = Ok p → ranges_ok p ∧ tables_ok p ∧ tokens_decoded p.
Proof.
  intros Hb Hu. pose proof (Unmarshal_safe data Hb) as Hs. rewrite Hu in Hs.
  destruct Hs as (Htab&Hv&Htok). split; [by apply validate_ranges|done].
Qed.

Lemma Unmarshal_sound_witness :
  ranges_ok sampleProgram ∧ tables_ok sampleProgram ∧ tokens_decoded sampleProgram.
Proof. apply (Unmarshal_sound sampleUnit); [by_decision|vm_compute; reflexivity]. Defined.

(** C30. [Marshal] normalises: whatever bytes a program was read from, writing it
    and reading it again gives the same program, if its lines fit 32 bits. *)
Theorem Unmarshal_Marshal_stable data p data' :
  bytes_ok data → Unmarshal data = Ok p → Forall (λ l, l < 2 ^ 32) (p_TokenLines p) →
  Marshal p = Ok data' → Unmarshal data' = Ok p.
Proof.
  intros Hb Hu Hlines Hm. pose proof (Unmarshal_safe data Hb) as Hs. rewrite Hu in Hs.
  destruct (accepted_program_ok p Hs Hlines) as (tokens&Hok).
  rewrite (Marshal_spec _ _ Hok) in Hm.
  destruct (too_big _) eqn:Hbig; [done|]. injection Hm as <-. by apply Unmarshal_written.
Qed.

(** A unit with an extra child of an unknown tag: not what [Marshal] writes. *)
Definition foreignUnit : list Z :=
  Eval vm_compute in
    let children := tagged (childPayload sampleProgram (varint (lenZ sampleTokens) ++
      wireTokens 0 0 sampleTokens)) childTags in
    unitOf ((99, [1; 2; 3]) :: children).

Lemma Unmarshal_Marshal_stable_witness :
  foreignUnit ≠ sampleUnit ∧ Unmarshal foreignUnit = Ok sampleProgram ∧
  Unmarshal sampleUnit = Ok sampleProgram.
Proof.
  split; [by vm_compute|]. split; [vm_compute; reflexivity|].
  apply (Unmarshal_Marshal_stable foreignUnit sampleProgram sampleUnit);
    [by_decision|vm_compute; reflexivity|by_decision|vm_compute; reflexivity].
Defined.

(** ** Tables *)




(** Token tables: on every table whose tokens are in source order, inside the
    text, and whose first line fits 16 bits, the encoder succeeds and the decoder
    restores both the packed records and the line table, which is explicit exactly
    when a later line needs more than 16 bits.  Conversely, what the decoder returns
    for arbitrary bytes is the packed form of tokens in source order inside the text. *)
Theorem tokens_inverse text tokens data :
  bytes_ok data → table_ok text tokens →
  (∃ wire, encodeTokens text (tableBytes text tokens) (largeLines tokens) = Ok wire ∧
    decodeTokens text wire = Ok (tableBytes text tokens, largeLines tokens)) ∧
  (∀ records lines, decodeTokens text data = Ok (records, lines) →
    ∃ toks, tokens_ok text 0 0 toks ∧ records = tableBytes text toks ∧
      lines = largeLines (clip toks) ∧ data = varint (lenZ toks) ++ wireTokens 0 0 toks).
Proof.
  intros Hb Hok. split; [by apply tokens_roundtrip|]. intros records lines Hd.
  pose proof (decodeTokens_canonical text data Hb) as Hc. rewrite Hd in Hc.
  destruct Hc as (toks&?&?&_&?&?). by exists toks.
Qed.

Lemma tokens_inverse_witness :
  let text := [97; 98; 32; 59] in
  largeLines sampleTokens = [1; 2; 70000] ∧
  ∃ wire, encodeTokens text (tableBytes text sampleTokens) (largeLines sampleTokens) = Ok wire ∧
    decodeTokens text wire = Ok (tableBytes text sampleTokens, largeLines sampleTokens).
Proof.
  intros text. split; [reflexivity|].
  refine (proj1 (tokens_inverse text sampleTokens [] _ _)); [constructor|].
  exact (proj1 (proj2 (proj2 sampleProgram_ok))).
Defined.

(** The line of the first token is not protected by the line table: a program
    whose first token is beyond line 65535 is marshalled, and is read back with that
    line reduced modulo 65536. *)
Theorem first_line_lost :
  let late := [Tok 1 0 2 70000; Tok renvoTokEOF 2 0 70001] in
  let p := MkProgram [109] [109] [97; 98] (tableBytes [97; 98] late) (largeLines late)
    [] [] [] [] [] [] [] [] [] [] [] [] [] [] [] [] [] [] [] [] [] [] [] [] in
  ∃ data q, Marshal p = Ok data ∧ Unmarshal data = Ok q ∧
    p_TokenLines p = [70000; 70001] ∧ p_TokenLines q = [4464; 70001].
Proof.
  intros late p.
  destruct (Marshal p) as [data| |] eqn:Hm; [|vm_compute in Hm; done..].
  destruct (Unmarshal data) as [q| |] eqn:Hu;
    [|vm_compute in Hm; injection Hm as <-; vm_compute in Hu; done..].
  exists data, q. split; [done|]. split; [done|]. split; [reflexivity|].
  vm_compute in Hm. injection Hm as <-. vm_compute in Hu. by injection Hu as <-.
Qed.

(** * Children *)

(** An accepted unit has every required child, and no child twice: the known
    tags of its children are distinct and include the package, the import path, the
    text, the tokens, the declarations and the functions. *)
Theorem Unmarshal_tags children p :
  too_big (childBytes children) = false → Forall (λ c, 0 ≤ c.1 < 2 ^ 16) children →
  Unmarshal (unitOf children) = Ok p →
  NoDup (filter known children.*1) ∧ requiredTags ⊆ children.*1.
Proof.
  intros Hb Ht. rewrite Unmarshal_children by done.
  destruct (visitAll children _) as [sc| |] eqn:Hv; [|done..]. cbn [mbind res_bind].
  destruct (visitAll_masks _ _ _ Hv) as (Hnd&_&Hmarks). intros Ha. split; [done|].
  intros t Hin. unfold assemble, check in Ha.
  destruct (negb (negb (_ =? schemaRequiredChildMaskLow) || _)) eqn:Hc; [|done]. clear Ha.
  assert (Z.land (sc_low sc) schemaRequiredChildMaskLow = schemaRequiredChildMaskLow) as Hl by lia.
  pose proof (required_marked sc t Hl Hin) as Hm.
  assert (known t) as Hk.
  { clear Hm. revert t Hin. apply (Forall_forall known requiredTags). by_decision. }
  rewrite Hmarks in Hm by done. cbn [sc_low sc_high] in Hm.
  assert (marked t 0 0 = false) as H0 by (unfold marked; cbv zeta; case_match; apply Z.bits_0).
  rewrite H0 in Hm. by apply bool_decide_eq_true in Hm.
Qed.

(** The children of the sample unit. *)
Definition sampleChildren : list (Z * list Z) :=
  tagged (childPayload sampleProgram (varint (lenZ sampleTokens) ++
    wireTokens 0 0 sampleTokens)) childTags.

Lemma Unmarshal_tags_witness :
  NoDup (filter known ((99, [7]) :: sampleChildren ++ [(99, [])]).*1) ∧
  requiredTags ⊆ ((99, [7]) :: sampleChildren ++ [(99, [])]).*1.
Proof.
  apply (Unmarshal_tags _ sampleProgram);
    [vm_compute; reflexivity|by_decision|vm_compute; reflexivity].
Defined.

(** Forward compatibility: a child whose tag the schema does not know, wherever
    it stands and whatever it holds, does not change the result. *)
Theorem Unmarshal_unknown_child before tag payload after :
  unknown_tag tag → 0 ≤ tag < 2 ^ 16 →
  too_big (childBytes (before ++ (tag, payload) :: after)) = false →
  Forall (λ c, 0 ≤ c.1 < 2 ^ 16) (before ++ after) →
  Unmarshal (unitOf (before ++ (tag, payload) :: after)) = Unmarshal (unitOf (before ++ after)).
Proof.
  intros Hu Htag Hb Hf. pose proof (proj1 (Forall_app _ _ _) Hf) as [Hf1 Hf2].
  rewrite !Unmarshal_children; [| |done|done|].
  - rewrite !visitAll_app. destruct (visitAll before _) as [sc| |]; [|done..].
    cbn [mbind res_bind visitAll fst snd]. by rewrite visitChild_unknown.
  - unfold too_big, childBytes in *. rewrite fmap_app, concat_app, lenZ_app in Hb |- *.
    rewrite fmap_cons in Hb. cbn [concat] in Hb. rewrite lenZ_app in Hb.
    pose proof (lenZ_nonneg (nodeBytes (tag, payload))). lia.
  - apply Forall_app. split; [done|]. by constructor.
Qed.

Lemma Unmarshal_unknown_child_witness :
  unknown_tag 99 ∧ Unmarshal (unitOf ((99, [1; 2]) :: sampleChildren)) = Ok sampleProgram.
Proof.
  split; [by split|].
  etransitivity; [|vm_compute; reflexivity].
  apply (Unmarshal_unknown_child [] 99 [1; 2] sampleChildren);
    [by split|done|vm_compute; reflexivity|by_decision].
Defined.

(** The length field makes units self-delimiting: an accepted unit neither
    extends nor is cut to another accepted unit. *)
Theorem Unmarshal_prefix_free data rest p q :
  bytes_ok (data ++ rest) → Unmarshal data = Ok p → Unmarshal (data ++ rest) = Ok q →
  rest = [] ∧ p = q.
Proof.
  intros Hb Hp Hq. pose proof (proj1 (Forall_app _ _ _) Hb) as [Hb1 _].
  unfold Unmarshal in Hp, Hq. pose proof (readHeader_safe data Hb1) as H1.
  pose proof (readHeader_safe _ Hb) as H2.
  destruct (readHeader data) as [e1| |] eqn:E1; [|done..].
  destruct (readHeader (data ++ rest)) as [e2| |] eqn:E2; [|done..]. cbn [safe] in H1, H2.
  destruct H1 as (->&Hlen&H1), H2 as (->&_&H2).
  assert (uint32At (data ++ rest) 10 = uint32At data 10) as Hsame.
  { unfold uint32At. by rewrite !lookupZ_app_l by lia. }
  rewrite Hsame, H1, lenZ_app in H2. injection H2 as H2.
  assert (rest = []) as ->.
  { destruct rest; [done|]. rewrite lenZ_cons in H2. pose proof (lenZ_nonneg rest). lia. }
  split; [done|]. rewrite app_nil_r in *. rewrite E2 in *. cbn [mbind res_bind] in *.
  rewrite Hp in Hq. by injection Hq.
Qed.

Lemma Unmarshal_prefix_free_witness :
  Unmarshal (sampleUnit ++ [0]) = Err ∧ @nil Z = [] ∧ sampleProgram = sampleProgram.
Proof.
  split; [vm_compute; reflexivity|].
  apply (Unmarshal_prefix_free sampleUnit [] sampleProgram sampleProgram);
    [by_decision|vm_compute; reflexivity|vm_compute; reflexivity].
Defined.

(** Variable-length integers: [readVarint] succeeds exactly on the minimal
    encoding of a 32-bit value, which takes at most five bytes; longer encodings and
    larger values are refused. *)
Theorem readVarint_exact data pos v next :
  bytes_ok data → 0 ≤ pos ≤ lenZ data →
  (readVarint data pos = Ok (v, next) ↔
    u32_ok v ∧ pos ≤ next ≤ lenZ data ∧ sublistZ data pos next = varint v) ∧
  (u32_ok v → 1 ≤ lenZ (varint v) ≤ 5).
Proof.
  intros Hb Hpos. split; [split|].
  - intros Hr. pose proof (parses_varint data pos Hb ltac:(lia) ltac:(lia)) as Hp.
    rewrite Hr in Hp. tauto.
  - intros (Hv&Hn&Hs). pose proof (reads_varint v Hv (sublistZ data 0 pos)
      (sublistZ data next (lenZ data))) as Hr.
    rewrite <- Hs, !sublistZ_app in Hr by lia. rewrite !sublistZ_length in Hr by lia.
    unfold sublistZ in Hr at 1. rewrite Z.sub_0_r, drop_0, take_ge in Hr by (unfold lenZ; lia).
    rewrite Z.sub_0_r in Hr. rewrite Hr. f_equal. f_equal. lia.
  - unfold u32_ok. intros Hv. apply (varint_length 4). lia.
Qed.

Lemma readVarint_exact_witness :
  readVarint [128; 128; 4] 0 = Ok (65536, 3) ∧ readVarint [128; 0] 0 = Err ∧
  sublistZ [128; 128; 4] 0 3 = varint 65536.
Proof.
  split; [reflexivity|]. split; [reflexivity|].
  refine (proj2 (proj2 (proj1 (proj1 (readVarint_exact [128; 128; 4] 0 65536 3 _ _)) _)));
    [by_decision|by split|reflexivity].
Defined.
