(* ===== verification/CoreModel.v ===== *)
(** The compiler-facing model of a unit (internal/unit/model_shared.go): tokens,
    assembly fragments, foreign programs, the core program, and the writers of
    child nodes.

    [Decl], [Func] and [PackageInfo] have the same fields in this package and in
    backend/unit; the records of [WireTables] serve both. *)

From S2P Require Import Prelude.
From S2P Require Import GoInt.
From S2P Require Import WireReader.
From S2P Require Import WireTables.

(** * Data *)

(** [KindLine] has the kind in its low byte and the source line above it. *)
Record Token := MkToken { t_KindLine : Z; t_Start : Z; t_Size : Z }.

Definition MakeToken (kind start size line : Z) : Token :=
  MkToken (Z.lor kind (Z.shiftl line 8)) start size.

Record RTGAssemblySource := MkSource { as_Path : list Z; as_Source : list Z }.

Record RTGAssemblyBinding := MkBinding {
  ab_Func : Z; ab_Source : Z; ab_Entry : Z; ab_Mode : Z; ab_Inputs : Z; ab_Outputs : Z;
  ab_Code : list Z
}.

Definition ForeignProgramBytes : Z := 1.
Definition ForeignProgramEntrypoint : Z := 2.

Record ForeignProgram := MkForeign {
  fp_Name : list Z; fp_Global : Z; fp_Kind : Z; fp_Target : list Z; fp_InPlace : bool;
  fp_Unit : list Z; fp_Artifact : list Z; fp_EntryOffset : Z
}.

Record CoreProgram := MkCore {
  c_Package : list Z; c_ImportPath : list Z; c_Text : list Z; c_Tokens : list Token;
  c_Decls : list Decl; c_Funcs : list Func; c_Packages : list PackageInfo;
  c_RTGAssembly : list RTGAssemblySource; c_RTGAssemblyFuncs : list RTGAssemblyBinding;
  c_Entrypoint : Z; c_ForeignPrograms : list ForeignProgram
}.

(** * Writing nodes *)

Definition appendUint16 (out : list Z) (v : Z) : list Z :=
  let out := out ++ [u8 v] in
  out ++ [u8 (Z.shiftr v 8)].

Definition appendUint32 (out : list Z) (v : Z) : list Z :=
  let out := out ++ [u8 v] in
  let out := out ++ [u8 (Z.shiftr v 8)] in
  let out := out ++ [u8 (Z.shiftr v 16)] in
  out ++ [u8 (Z.shiftr v 24)].

Definition appendNodeHeader (out : list Z) (tag size : Z) : list Z :=
  let out := appendUint16 out tag in
  appendUint32 out size.

(** The loop [for i := 0; i < len(s); i++ { out = append(out, s[i]) }]. *)
Definition appendBytes (out payload : list Z) : list Z :=
  foldl (λ out b, out ++ [b]) out payload.

Definition appendNode (out : list Z) (tag : Z) (payload : list Z) : list Z :=
  let out := appendNodeHeader out tag (lenZ payload) in
  appendBytes out payload.
