(* ===== verification/CoreMarshal.v ===== *)
(** The encoder of compiler-facing units (internal/unit/core_marshal.go), with the
    capacity it reserves. *)

From S2P Require Import Prelude.
From S2P Require Import GoInt.
From S2P Require Import WireReader.
From S2P Require Import WireTables.
From S2P Require Import WireUnit.
From S2P Require Import CoreModel.

Definition unboundTargetBindingReserve : Z := 80.
Definition transientMarshalChunk : Z := 8192.

(** * Sizes *)

(** [for value >= 128 { size++; value >>= 7 }] *)
Fixpoint coreVarintSize_loop (fuel : nat) (size value : Z) : Z :=
  match fuel with
  | O => size
  | S fuel =>
      if 128 <=? value then coreVarintSize_loop fuel (size + 1) (Z.shiftr value 7) else size
  end.

Definition coreVarintSize (value : Z) : Z :=
  coreVarintSize_loop (S (Z.to_nat (Z.log2 value))) 1 value.

(** The loop of [encodedTokensCoreSize]. *)
Fixpoint encodedTokensCoreSize_loop (tokens : list Token) (size prevStart prevLine : Z) : Z :=
  match tokens with
  | [] => size
  | tok :: tokens =>
      let line := Z.shiftr (t_KindLine tok) 8 in
      let delta := t_Start tok - prevStart in
      let size := if 128 <=? delta then size + (coreVarintSize delta - 1) else size in
      let size :=
        if 128 <=? t_Size tok then size + (coreVarintSize (t_Size tok) - 1) else size in
      let delta := line - prevLine in
      let size := if 128 <=? delta then size + (coreVarintSize delta - 1) else size in
      encodedTokensCoreSize_loop tokens size (t_Start tok) line
  end.

Definition encodedTokensCoreSize (tokens : list Token) : Z :=
  encodedTokensCoreSize_loop tokens (coreVarintSize (lenZ tokens) + lenZ tokens * 4) 0 0.

Definition encodedDeclsCoreSize (decls : list Decl) : Z :=
  foldl (λ size d,
    size + (coreVarintSize (dc_Kind d) + coreVarintSize (dc_NameStart d) +
            coreVarintSize (dc_NameEnd d - dc_NameStart d) + coreVarintSize (dc_StartTok d) +
            coreVarintSize (dc_EndTok d - dc_StartTok d)))
    (coreVarintSize (lenZ decls)) decls.

Definition encodedFuncsCoreSize (funcs : list Func) : Z :=
  foldl (λ size f,
    size + (coreVarintSize (fn_NameStart f) + coreVarintSize (fn_NameEnd f - fn_NameStart f) +
            coreVarintSize (fn_StartTok f) + coreVarintSize (fn_NameTok f - fn_StartTok f) +
            coreVarintSize (fn_ReceiverStart f) +
            coreVarintSize (fn_ReceiverEnd f - fn_ReceiverStart f) +
            coreVarintSize (fn_BodyStart f) + coreVarintSize (fn_BodyEnd f - fn_BodyStart f) +
            coreVarintSize (fn_EndTok f - fn_BodyEnd f)))
    (coreVarintSize (lenZ funcs)) funcs.

Definition encodedPackagesCoreSize (packages : list PackageInfo) : Z :=
  foldl (λ size p,
    let size :=
      size + (coreVarintSize (lenZ (pk_Name p)) + lenZ (pk_Name p) +
              coreVarintSize (lenZ (pk_ImportPath p)) + lenZ (pk_ImportPath p) + 16) in
    let size :=
      size + (coreVarintSize (pk_TextStart p) + coreVarintSize (pk_TextEnd p - pk_TextStart p) +
              coreVarintSize (pk_TokenStart p) +
              coreVarintSize (pk_TokenEnd p - pk_TokenStart p)) in
    size + (coreVarintSize (pk_DeclStart p) + coreVarintSize (pk_DeclEnd p - pk_DeclStart p) +
            coreVarintSize (pk_FuncStart p) + coreVarintSize (pk_FuncEnd p - pk_FuncStart p)))
    (coreVarintSize (lenZ packages)) packages.

(** The capacity [marshalCoreInto] reserves. *)
Definition marshalCapacity (program : CoreProgram) : Z :=
  let assemblyCapacity := lenZ (c_RTGAssemblyFuncs program) * 4 in
  let assemblyCapacity :=
    foldl (λ n s, n + (lenZ (as_Path s) + lenZ (as_Source s) + 4)) assemblyCapacity
      (c_RTGAssembly program) in
  82 + unboundTargetBindingReserve + lenZ (c_Package program) + lenZ (c_ImportPath program) +
  lenZ (c_Text program) + encodedTokensCoreSize (c_Tokens program) +
  encodedDeclsCoreSize (c_Decls program) + encodedFuncsCoreSize (c_Funcs program) +
  encodedPackagesCoreSize (c_Packages program) + assemblyCapacity.

(** * Tables *)

(** [if value < 128 { append byte } else { appendVarint }] *)
Definition appendSmall (out : list Z) (value : Z) : list Z :=
  if value <? 128 then out ++ [u8 value] else appendVarint out value.

(** The loop of [appendEncodedTokensCore].  Discarding the pages of the tokens
    already encoded, which the transient form does, has no effect in Go. *)
Fixpoint appendEncodedTokensCore_loop (tokens : list Token) (prevStart prevLine : Z)
    (out : list Z) : list Z :=
  match tokens with
  | [] => out
  | tok :: tokens =>
      let out := out ++ [u8 (t_KindLine tok)] in
      let out := appendSmall out (t_Start tok - prevStart) in
      let out := appendSmall out (t_Size tok) in
      let line := Z.shiftr (t_KindLine tok) 8 in
      let out := appendSmall out (line - prevLine) in
      appendEncodedTokensCore_loop tokens (t_Start tok) line out
  end.

Definition appendEncodedTokensCore (out : list Z) (tokens : list Token) : list Z :=
  appendEncodedTokensCore_loop tokens 0 0 (appendVarint out (lenZ tokens)).

Definition appendEncodedDeclsCore (out : list Z) (decls : list Decl) : list Z :=
  foldl (λ out decl,
    let out := appendVarint out (dc_Kind decl) in
    let out := appendVarint out (dc_NameStart decl) in
    let out := appendVarint out (dc_NameEnd decl - dc_NameStart decl) in
    let out := appendVarint out (dc_StartTok decl) in
    appendVarint out (dc_EndTok decl - dc_StartTok decl))
    (appendVarint out (lenZ decls)) decls.

Definition appendEncodedFuncsCore (out : list Z) (funcs : list Func) : list Z :=
  foldl (λ out fn,
    let out := appendVarint out (fn_NameStart fn) in
    let out := appendVarint out (fn_NameEnd fn - fn_NameStart fn) in
    let out := appendVarint out (fn_StartTok fn) in
    let out := appendVarint out (fn_NameTok fn - fn_StartTok fn) in
    let out := appendVarint out (fn_ReceiverStart fn) in
    let out := appendVarint out (fn_ReceiverEnd fn - fn_ReceiverStart fn) in
    let out := appendVarint out (fn_BodyStart fn) in
    let out := appendVarint out (fn_BodyEnd fn - fn_BodyStart fn) in
    appendVarint out (fn_EndTok fn - fn_BodyEnd fn))
    (appendVarint out (lenZ funcs)) funcs.

Definition appendEncodedPackagesCore (out : list Z) (packages : list PackageInfo) : list Z :=
  foldl (λ out item,
    let out := appendVarint out (lenZ (pk_Name item)) in
    let out := appendBytes out (pk_Name item) in
    let out := appendVarint out (lenZ (pk_ImportPath item)) in
    let out := appendBytes out (pk_ImportPath item) in
    let out := appendUint32 out (pk_GraphKeyA item) in
    let out := appendUint32 out (pk_GraphKeyB item) in
    let out := appendUint32 out (pk_SourceKeyA item) in
    let out := appendUint32 out (pk_SourceKeyB item) in
    let out := appendVarint out (pk_TextStart item) in
    let out := appendVarint out (pk_TextEnd item - pk_TextStart item) in
    let out := appendVarint out (pk_TokenStart item) in
    let out := appendVarint out (pk_TokenEnd item - pk_TokenStart item) in
    let out := appendVarint out (pk_DeclStart item) in
    let out := appendVarint out (pk_DeclEnd item - pk_DeclStart item) in
    let out := appendVarint out (pk_FuncStart item) in
    appendVarint out (pk_FuncEnd item - pk_FuncStart item))
    (appendVarint out (lenZ packages)) packages.

(** One record of [encodeForeignProgramsCore]. *)
Definition appendForeign (out : list Z) (program : ForeignProgram) : list Z :=
  let out := appendVarint out (fp_Global program) in
  let '(state, payload) :=
    if 0 <? lenZ (fp_Artifact program) then (fp_Kind program + 2, fp_Artifact program)
    else (fp_Kind program, fp_Unit program) in
  let out := appendVarint out state in
  let out := appendVarint out (lenZ payload) in
  let out := out ++ payload in
  appendVarint out (fp_EntryOffset program).

Definition encodeForeignProgramsCore (programs : list ForeignProgram) : list Z :=
  foldl appendForeign (appendVarint [] (lenZ programs)) programs.

Definition appendSource (out : list Z) (s : RTGAssemblySource) : list Z :=
  let out := appendVarint out (lenZ (as_Path s)) in
  let out := appendBytes out (as_Path s) in
  let out := appendVarint out (lenZ (as_Source s)) in
  out ++ as_Source s.

Definition appendBinding (out : list Z) (b : RTGAssemblyBinding) : list Z :=
  let out := appendVarint out (ab_Func b) in
  let out := appendVarint out (ab_Source b) in
  let out := appendVarint out (ab_Entry b) in
  let out := appendVarint out (ab_Mode b) in
  let out := appendVarint out (ab_Inputs b) in
  let out := appendVarint out (ab_Outputs b) in
  let out := appendVarint out (lenZ (ab_Code b)) in
  out ++ ab_Code b.

Definition encodeRTGAssemblyCore (sources : list RTGAssemblySource)
    (bindings : list RTGAssemblyBinding) : list Z :=
  let out := appendVarint [] 0 in
  let out := appendVarint out 2 in
  let out := appendVarint out (lenZ sources) in
  let out := foldl appendSource out sources in
  let out := appendVarint out (lenZ bindings) in
  foldl appendBinding out bindings.

(** * The unit *)

(** [appendStringNodeCore]. *)
Definition appendStringNodeCore (out : list Z) (tag : Z) (payload : list Z) : list Z :=
  let out := appendNodeHeader out tag (lenZ payload) in
  appendBytes out payload.

(** The loop of [appendTransientTextNodeCore]: one chunk per iteration. *)
Fixpoint appendChunks (fuel : nat) (text : list Z) (start : Z) (out : list Z)
    : res (list Z) :=
  match fuel with
  | O => Ok out
  | S fuel =>
      if start <? lenZ text then
        let end_ := start + transientMarshalChunk in
        let end_ := if lenZ text <? end_ then lenZ text else end_ in
        chunk ← index (sliceZ text start end_);
        appendChunks fuel text (start + transientMarshalChunk) (out ++ chunk)
      else Ok out
  end.

Definition appendTransientTextNodeCore (out text : list Z) : res (list Z) :=
  appendChunks (S (length text)) text 0 (appendNodeHeader out TagText (lenZ text)).

(** The four assignments [out[at+i] = byte(value >> 8i)]. *)
Definition patchUint32Core (out : list Z) (at_ value : Z) : res (list Z) :=
  out ← index (insertZ out at_ (u8 value));
  out ← index (insertZ out (at_ + 1) (u8 (Z.shiftr value 8)));
  out ← index (insertZ out (at_ + 2) (u8 (Z.shiftr value 16)));
  index (insertZ out (at_ + 3) (u8 (Z.shiftr value 24))).

(** A node whose length is written once its payload is: the statements from
    [header := len(out)] to [patchUint32Core(out, header+2, len(out)-start)]. *)
Definition patchedNode (out : list Z) (tag : Z) (body : list Z → list Z) : res (list Z) :=
  let header := lenZ out in
  let out := appendNodeHeader out tag 0 in
  let start := lenZ out in
  let out := body out in
  patchUint32Core out (header + 2) (lenZ out - start).

Definition marshalCore (program : CoreProgram) (transient : bool) : res (list Z) :=
  let out := Magic in
  let out := appendUint16 out Version in
  let out := appendUint16 out 0 in
  let out := appendUint16 out TagUnit in
  let rootLength := lenZ out in
  let out := appendUint32 out 0 in
  let out := appendStringNodeCore out TagPackage (c_Package program) in
  let out := appendStringNodeCore out TagImportPath (c_ImportPath program) in
  out ← (if transient then appendTransientTextNodeCore out (c_Text program)
         else Ok (appendNode out TagText (c_Text program)));
  out ← patchedNode out TagTokens (λ out, appendEncodedTokensCore out (c_Tokens program));
  out ← patchedNode out TagDecls (λ out, appendEncodedDeclsCore out (c_Decls program));
  out ← patchedNode out TagFuncs (λ out, appendEncodedFuncsCore out (c_Funcs program));
  out ← (if 0 <? lenZ (c_Packages program) then
           patchedNode out TagPackages (λ out, appendEncodedPackagesCore out (c_Packages program))
         else Ok out);
  let out :=
    if (0 <? lenZ (c_RTGAssembly program)) || (0 <? lenZ (c_RTGAssemblyFuncs program)) then
      appendNode out TagRTGAssembly
        (encodeRTGAssemblyCore (c_RTGAssembly program) (c_RTGAssemblyFuncs program))
    else out in
  let out :=
    if 0 <? c_Entrypoint program then
      appendNode out TagEntrypoint (appendVarint [] (c_Entrypoint program - 1))
    else out in
  let out :=
    if 0 <? lenZ (c_ForeignPrograms program) then
      appendNode out TagForeignPrograms (encodeForeignProgramsCore (c_ForeignPrograms program))
    else out in
  patchUint32Core out rootLength (lenZ out - 14).

Definition MarshalCore (program : CoreProgram) : res (list Z) := marshalCore program false.
Definition MarshalCoreTransient (program : CoreProgram) : res (list Z) := marshalCore program true.
