(* ===== verification/CoreMarshalFacts.v ===== *)
(** The core encoder writes the children of a unit, in place and with the exact
    sizes it measured: [marshalCore] is [unitOf] the children of the program.

    The units of the core encoder are what backend/unit reads: the token table,
    the sizes, and the program that the backend obtains.

    The sizes the core encoder computes before it allocates are exact, and the
    capacity it reserves leaves room for a target binding. *)

From stdpp Require Import gmap.
From S2P Require Import Prelude.
From S2P Require Import GoInt.
From S2P Require Import WireReader.
From S2P Require Import WireFacts.
From S2P Require Import WireTables.
From S2P Require Import WireTablesFacts.
From S2P Require Import WireTokens.
From S2P Require Import WireUnit.
From S2P Require Import WireTokensFacts.
From S2P Require Import WireUnitFacts.
From S2P Require Import WireCanonical.
From S2P Require Import WireSafety.
From S2P Require Import CoreModel.
From S2P Require Import CoreMarshal.

(** * Writing *)

Lemma appendBytes_app out payload : appendBytes out payload = out ++ payload.
Proof.
  unfold appendBytes. revert out.
  induction payload as [|b payload IH]; intros out; simpl; [by rewrite app_nil_r|].
  rewrite IH. by rewrite <- app_assoc.
Qed.

Lemma appendUint16_app out v : appendUint16 out v = out ++ bytes16 v.
Proof. unfold appendUint16. by rewrite <- app_assoc. Qed.

Lemma appendUint32_app out v : appendUint32 out v = out ++ bytes32 v.
Proof. unfold appendUint32. by rewrite <- !app_assoc. Qed.

Lemma appendNodeHeader_app out tag size :
  appendNodeHeader out tag size = out ++ bytes16 tag ++ bytes32 size.
Proof. unfold appendNodeHeader. by rewrite appendUint32_app, appendUint16_app, <- app_assoc. Qed.

Lemma appendNode_app out tag payload :
  appendNode out tag payload = out ++ nodeBytes (tag, payload).
Proof.
  unfold appendNode, nodeBytes. rewrite appendBytes_app, appendNodeHeader_app.
  by rewrite <- !app_assoc.
Qed.

Lemma appendStringNodeCore_app out tag payload :
  appendStringNodeCore out tag payload = out ++ nodeBytes (tag, payload).
Proof. apply appendNode_app. Qed.

(** An assignment [out[at+k] = b] to a byte that follows [pre]. *)
Lemma insertZ_mid {A} (pre : list A) x y post k :
  k = lenZ pre → insertZ (pre ++ x :: post) k y = Some (pre ++ y :: post).
Proof.
  intros ->. pose proof (lenZ_nonneg pre). rewrite insertZ_Some.
  - unfold lenZ. rewrite Nat2Z.id. by rewrite <- (Nat.add_0_r (length pre)), insert_app_r.
  - rewrite lenZ_app, lenZ_cons. pose proof (lenZ_nonneg post). lia.
Qed.

Lemma patchUint32Core_app pre a b c d post at_ value :
  at_ = lenZ pre →
  patchUint32Core (pre ++ a :: b :: c :: d :: post) at_ value = Ok (pre ++ bytes32 value ++ post).
Proof.
  intros ->. unfold patchUint32Core, bytes32. rewrite insertZ_mid by done.
  cbn [mbind res_bind index].
  rewrite (app_assoc pre [_] (b :: _) : pre ++ u8 value :: b :: c :: d :: post = _).
  rewrite insertZ_mid by (rewrite lenZ_app; done). cbn [mbind res_bind index].
  rewrite (app_assoc _ [_] (c :: _) : (pre ++ _) ++ u8 (Z.shiftr value 8) :: c :: d :: post = _).
  rewrite insertZ_mid by (rewrite !lenZ_app; change (lenZ [_]) with 1; lia).
  cbn [mbind res_bind index].
  rewrite (app_assoc _ [_] (d :: _) : (_ ++ _) ++ u8 (Z.shiftr value 16) :: d :: post = _).
  rewrite insertZ_mid by (rewrite !lenZ_app; change (lenZ [_]) with 1; lia).
  by rewrite <- !app_assoc.
Qed.

Lemma patchedNode_app out tag body bs :
  (∀ out, body out = out ++ bs) → patchedNode out tag body = Ok (out ++ nodeBytes (tag, bs)).
Proof.
  intros Hb. unfold patchedNode. rewrite Hb, appendNodeHeader_app. cbv zeta.
  replace (lenZ ((out ++ bytes16 tag ++ bytes32 0) ++ bs) - lenZ (out ++ bytes16 tag ++ bytes32 0))
    with (lenZ bs) by (rewrite !lenZ_app; lia).
  replace ((out ++ bytes16 tag ++ bytes32 0) ++ bs)
    with ((out ++ bytes16 tag) ++ u8 0 :: u8 0 :: u8 0 :: u8 0 :: bs)
    by (by rewrite <- !app_assoc).
  rewrite patchUint32Core_app by (rewrite lenZ_app; done).
  unfold nodeBytes. by rewrite <- !app_assoc.
Qed.

(** Copying the text chunk by chunk copies the text. *)
Lemma appendChunks_app fuel text start out :
  0 ≤ start → (Z.to_nat (lenZ text - start) < fuel)%nat →
  appendChunks fuel text start out = Ok (out ++ drop (Z.to_nat start) text).
Proof.
  revert start out. induction fuel as [|fuel IH]; intros start out Hs Hf; [lia|].
  cbn [appendChunks]. unfold transientMarshalChunk. destruct (Z.ltb_spec start (lenZ text)) as [Hlt|Hge].
  2:{ rewrite drop_ge, app_nil_r by (unfold lenZ in *; lia). done. }
  cbv zeta. set (end_ := if lenZ text <? start + 8192 then lenZ text else start + 8192).
  assert (start < end_ ≤ lenZ text ∧ end_ ≤ start + 8192) as [He1 He2]
    by (unfold end_; destruct (Z.ltb_spec (lenZ text) (start + 8192)); lia).
  rewrite sliceZ_Some by lia. cbn [mbind res_bind index]. rewrite IH by lia.
  f_equal. rewrite <- app_assoc. f_equal. unfold sublistZ.
  rewrite <- (take_drop (Z.to_nat (end_ - start)) (drop (Z.to_nat start) text)) at 2. f_equal.
  rewrite drop_drop. unfold end_ in *. destruct (Z.ltb_spec (lenZ text) (start + 8192)).
  - rewrite !drop_ge by (unfold lenZ in *; lia). done.
  - f_equal. lia.
Qed.

Lemma appendTransientTextNodeCore_app out text :
  appendTransientTextNodeCore out text = Ok (out ++ nodeBytes (TagText, text)).
Proof.
  unfold appendTransientTextNodeCore. rewrite appendChunks_app by (unfold lenZ; lia).
  rewrite appendNodeHeader_app. unfold nodeBytes. by rewrite <- !app_assoc.
Qed.

(** * Tables *)

Lemma appendSmall_app out value : appendSmall out value = out ++ varint value.
Proof.
  unfold appendSmall. destruct (Z.ltb_spec value 128); [by rewrite varint_small|].
  apply appendVarint_app.
Qed.

(** The wire form of the tokens: the kind is a plain byte. *)
Fixpoint coreTokenBytes (start line : Z) (tokens : list Token) : list Z :=
  match tokens with
  | [] => []
  | t :: tokens =>
      [u8 (t_KindLine t)] ++ varint (t_Start t - start) ++ varint (t_Size t) ++
      varint (Z.shiftr (t_KindLine t) 8 - line) ++
      coreTokenBytes (t_Start t) (Z.shiftr (t_KindLine t) 8) tokens
  end.

Definition encodeTokensCore (tokens : list Token) : list Z :=
  varint (lenZ tokens) ++ coreTokenBytes 0 0 tokens.

Lemma appendEncodedTokensCore_loop_app tokens start line out :
  appendEncodedTokensCore_loop tokens start line out = out ++ coreTokenBytes start line tokens.
Proof.
  revert start line out. induction tokens as [|t tokens IH]; intros start line out;
    cbn [appendEncodedTokensCore_loop coreTokenBytes]; [by rewrite app_nil_r|].
  cbv zeta. rewrite IH, !appendSmall_app. by rewrite <- !app_assoc.
Qed.

Lemma appendEncodedTokensCore_app out tokens :
  appendEncodedTokensCore out tokens = out ++ encodeTokensCore tokens.
Proof.
  unfold appendEncodedTokensCore, encodeTokensCore.
  by rewrite appendEncodedTokensCore_loop_app, appendVarint_app, <- app_assoc.
Qed.

(** A table appends its count and its records. *)
Lemma table_append {A} `{Codec A} out items :
  foldl codec_append (appendVarint out (lenZ items)) items =
    out ++ foldl codec_append (appendVarint [] (lenZ items)) items.
Proof.
  rewrite (foldl_append (appendVarint out _)), (foldl_append (appendVarint [] _)).
  by rewrite !(appendVarint_app _ (lenZ items)), <- app_assoc.
Qed.

Lemma appendEncodedDeclsCore_app out decls :
  appendEncodedDeclsCore out decls = out ++ encodeDecls decls.
Proof. apply (@table_append _ Decl_codec). Qed.

Lemma appendEncodedFuncsCore_app out funcs :
  appendEncodedFuncsCore out funcs = out ++ encodeFuncs funcs.
Proof. apply (@table_append _ Func_codec). Qed.

Lemma foldl_ext_all {A B} (f g : A → B → A) a l :
  (∀ a b, f a b = g a b) → foldl f a l = foldl g a l.
Proof. intros H. revert a. induction l as [|b l IH]; intros a; simpl; [done|]. by rewrite H, IH. Qed.

Lemma appendEncodedPackagesCore_app out packages :
  appendEncodedPackagesCore out packages = out ++ encodePackages packages.
Proof.
  etransitivity; [|apply (@table_append _ PackageInfo_codec)].
  apply foldl_ext_all. intros o p. cbv zeta. cbn [codec_append PackageInfo_codec].
  unfold appendPackageInfo, appendString. cbv zeta.
  by rewrite !appendBytes_app, !appendUint32_app.
Qed.

(** * The unit *)

(** The optional children a program has. *)
Definition when (b : bool) (tag : Z) : list Z := if b then [tag] else [].

Definition hasAssembly (p : CoreProgram) : bool :=
  (0 <? lenZ (c_RTGAssembly p)) || (0 <? lenZ (c_RTGAssemblyFuncs p)).

Definition coreTags (p : CoreProgram) : list Z :=
  [TagPackage; TagImportPath; TagText; TagTokens; TagDecls; TagFuncs] ++
  when (0 <? lenZ (c_Packages p)) TagPackages ++
  when (hasAssembly p) TagRTGAssembly ++
  when (0 <? c_Entrypoint p) TagEntrypoint ++
  when (0 <? lenZ (c_ForeignPrograms p)) TagForeignPrograms.

Definition corePayload (p : CoreProgram) (tag : Z) : list Z :=
  if tag =? TagPackage then c_Package p else if tag =? TagImportPath then c_ImportPath p
  else if tag =? TagText then c_Text p
  else if tag =? TagTokens then encodeTokensCore (c_Tokens p)
  else if tag =? TagDecls then encodeDecls (c_Decls p)
  else if tag =? TagFuncs then encodeFuncs (c_Funcs p)
  else if tag =? TagPackages then encodePackages (c_Packages p)
  else if tag =? TagRTGAssembly then
    encodeRTGAssemblyCore (c_RTGAssembly p) (c_RTGAssemblyFuncs p)
  else if tag =? TagEntrypoint then varint (c_Entrypoint p - 1)
  else if tag =? TagForeignPrograms then encodeForeignProgramsCore (c_ForeignPrograms p)
  else [].

Definition coreChildren (p : CoreProgram) : list (Z * list Z) := tagged (corePayload p) (coreTags p).

Lemma childBytes_app c1 c2 : childBytes (c1 ++ c2) = childBytes c1 ++ childBytes c2.
Proof. unfold childBytes. by rewrite fmap_app, concat_app. Qed.

Lemma tagged_app payload t1 t2 : tagged payload (t1 ++ t2) = tagged payload t1 ++ tagged payload t2.
Proof. apply fmap_app. Qed.

Lemma childBytes_when payload b tag :
  childBytes (tagged payload (when b tag)) = if b then nodeBytes (tag, payload tag) else [].
Proof. destruct b; [apply app_nil_r|done]. Qed.

(** An optional node is appended when its condition holds. *)
Lemma optional_node (b : bool) out tag payload :
  (if b then appendNode out tag payload else out) =
    out ++ (if b then nodeBytes (tag, payload) else []).
Proof. destruct b; [apply appendNode_app|by rewrite app_nil_r]. Qed.

(** A root node whose length is patched last. *)
Lemma patch_root rest :
  patchUint32Core (unitHeader ++ bytes16 TagUnit ++ 0 :: 0 :: 0 :: 0 :: rest) 10 (lenZ rest) =
    Ok (unitHeader ++ bytes16 TagUnit ++ bytes32 (lenZ rest) ++ rest).
Proof. rewrite app_assoc, patchUint32Core_app by done. by rewrite <- app_assoc. Qed.

(** Ordinary and transient encoding produce the unit of the program's children. *)
Lemma marshalCore_spec p transient : marshalCore p transient = Ok (unitOf (coreChildren p)).
Proof.
  unfold marshalCore. rewrite !appendUint16_app, appendUint32_app. cbv zeta.
  rewrite !appendStringNodeCore_app, appendTransientTextNodeCore_app.
  set (out := _ ++ nodeBytes (TagText, c_Text p)).
  replace (if transient then Ok out else Ok out) with (Ok out) by by destruct transient.
  cbn [mbind res_bind].
  rewrite (patchedNode_app _ TagTokens _ (encodeTokensCore (c_Tokens p)))
    by (intros; apply appendEncodedTokensCore_app). cbn [mbind res_bind].
  rewrite (patchedNode_app _ TagDecls _ (encodeDecls (c_Decls p)))
    by (intros; apply appendEncodedDeclsCore_app). cbn [mbind res_bind].
  rewrite (patchedNode_app _ TagFuncs _ (encodeFuncs (c_Funcs p)))
    by (intros; apply appendEncodedFuncsCore_app). cbn [mbind res_bind].
  set (out4 := _ ++ nodeBytes (TagFuncs, _)).
  assert ((if 0 <? lenZ (c_Packages p)
    then patchedNode out4 TagPackages (λ out, appendEncodedPackagesCore out (c_Packages p))
    else Ok out4) =
      Ok (out4 ++ childBytes (tagged (corePayload p) (when (0 <? lenZ (c_Packages p)) TagPackages))))
    as ->.
  { rewrite childBytes_when. destruct (0 <? lenZ (c_Packages p)); [|by rewrite app_nil_r].
    apply patchedNode_app. intros. apply appendEncodedPackagesCore_app. }
  cbn [mbind res_bind]. fold (hasAssembly p). rewrite !optional_node.
  fold (varint (c_Entrypoint p - 1)).
  set (rest := childBytes (coreChildren p)).
  transitivity (patchUint32Core (unitHeader ++ bytes16 TagUnit ++ 0 :: 0 :: 0 :: 0 :: rest) 10
    (lenZ rest)); [|apply patch_root].
  assert (∀ l, l = unitHeader ++ bytes16 TagUnit ++ 0 :: 0 :: 0 :: 0 :: rest →
    patchUint32Core l 10 (lenZ l - 14) =
      patchUint32Core (unitHeader ++ bytes16 TagUnit ++ 0 :: 0 :: 0 :: 0 :: rest) 10 (lenZ rest))
    as Hl.
  { intros l ->. f_equal. change (lenZ (_ ++ _)) with (lenZ (repeat 0 14 ++ rest)).
    rewrite lenZ_app. change (lenZ (repeat 0 14)) with 14. lia. }
  apply Hl. unfold rest, coreChildren, coreTags, out4, out. rewrite !tagged_app, !childBytes_app,
    !childBytes_when.
  unfold tagged. rewrite !fmap_cons, !childBytes_cons. rewrite <- !app_assoc. done.
Qed.

(** * What the backend sees *)

(** A token with its kind and line unpacked. *)
Definition unpackToken (t : Token) : token :=
  Tok (Z.land (t_KindLine t) 255) (t_Start t) (t_Size t) (Z.shiftr (t_KindLine t) 8).

Definition unpackTokens (p : CoreProgram) : list token := unpackToken <$> c_Tokens p.

(** The program a backend obtains: the tables of the core contract, no others. *)
Definition backendView (p : CoreProgram) : Program :=
  MkProgram (c_Package p) (c_ImportPath p) (c_Text p) (tableBytes (c_Text p) (unpackTokens p))
    (largeLines (unpackTokens p)) [] [] (c_Decls p) [] [] [] (c_Funcs p) [] [] [] [] [] [] [] []
    [] [] [] [] [] [] [] [] (c_Packages p).

(** The programs the core contract carries. *)
Definition core_ok (p : CoreProgram) : Prop :=
  table_ok (c_Text p) (unpackTokens p) ∧ Forall (λ t, tk_kind t < 128) (unpackTokens p) ∧
  items_ok (c_Decls p) ∧ items_ok (c_Funcs p) ∧ items_ok (c_Packages p) ∧
  validateCoreUnitRanges (backendView p) = Ok tt.

Lemma MakeToken_unpack kind start size line :
  byte_ok kind → unpackToken (MakeToken kind start size line) = Tok kind start size line.
Proof.
  intros Hk. unfold unpackToken, MakeToken. cbn [t_KindLine t_Start t_Size].
  unfold byte_ok in Hk. rewrite lor_shiftl_add by lia. f_equal.
  - change 255 with (Z.ones 8). rewrite Z.land_ones by lia. Z.div_mod_to_equations. lia.
  - rewrite Z.shiftr_div_pow2 by lia. Z.div_mod_to_equations. lia.
Qed.

Lemma coreTokenBytes_wire tokens start line :
  Forall (λ t, tk_kind t < 128) (unpackToken <$> tokens) →
  coreTokenBytes start line tokens = wireTokens start line (unpackToken <$> tokens).
Proof.
  revert start line. induction tokens as [|t tokens IH]; intros start line; [done|].
  rewrite fmap_cons. intros [Hk Hrest]%Forall_cons. cbn [coreTokenBytes wireTokens unpackToken].
  cbn [unpackToken tk_kind] in Hk. rewrite (varint_small (tk_kind _)) by done.
  cbn [tk_kind tk_start tk_size tk_line]. rewrite IH by done. do 2 f_equal.
  cbn [unpackToken tk_kind]. unfold u8. change 255 with (Z.ones 8).
  rewrite Z.land_ones by lia. by rewrite Z.mod_mod.
Qed.

Lemma encodeTokensCore_wire p :
  Forall (λ t, tk_kind t < 128) (unpackTokens p) →
  encodeTokensCore (c_Tokens p) =
    varint (lenZ (unpackTokens p)) ++ wireTokens 0 0 (unpackTokens p).
Proof.
  intros H. unfold encodeTokensCore. rewrite coreTokenBytes_wire by done.
  unfold unpackTokens, lenZ. by rewrite length_fmap.
Qed.

(** * The child tags *)

(** Which children a program has does not matter: they are distinct known tags,
    the required ones among them. *)
Lemma coreTags_scan p :
  NoDup (coreTags p) ∧ (TagUnit ∉ coreTags p) ∧ Forall (λ t, 0 ≤ t < 2 ^ 16) (coreTags p) ∧
  ∃ low high, markAll (coreTags p) 0 0 = Ok (low, high) ∧
    Z.land low schemaRequiredChildMaskLow = schemaRequiredChildMaskLow.
Proof.
  unfold coreTags. generalize (0 <? lenZ (c_Packages p)), (hasAssembly p), (0 <? c_Entrypoint p),
    (0 <? lenZ (c_ForeignPrograms p)). intros b1 b2 b3 b4.
  destruct b1, b2, b3, b4; (split; [by_decision|]); (split; [by_decision|]);
    (split; [by_decision|]); eexists _, _; split; vm_compute; reflexivity.
Qed.

Lemma coreTags_packages p : TagPackages ∈ coreTags p ↔ 0 < lenZ (c_Packages p).
Proof.
  unfold coreTags. generalize (hasAssembly p), (0 <? c_Entrypoint p),
    (0 <? lenZ (c_ForeignPrograms p)). intros b2 b3 b4.
  destruct (Z.ltb_spec 0 (lenZ (c_Packages p))); (split; [intros Hin; try lia|intros; try lia]).
  - destruct b2, b3, b4; by_decision.
  - exfalso. revert Hin. by destruct b2, b3, b4; apply (bool_decide_eq_true_1 (¬ _)); vm_compute.
Qed.

(** * What [Unmarshal] makes of a core unit *)

Lemma core_nonempty p :
  core_ok p →
  (lenZ (c_Package p) =? 0) = false ∧ (lenZ (c_Text p) =? 0) = false ∧
  (lenZ (tableBytes (c_Text p) (unpackTokens p)) =? 0) = false.
Proof.
  intros (_&_&_&_&_&Hv). unfold validateCoreUnitRanges in Hv.
  cbn [backendView p_Package p_Text p_Tokens] in Hv.
  destruct (lenZ (c_Package p) =? 0); [done|]. destruct (lenZ (c_Text p) =? 0); [done|].
  by destruct (lenZ (tableBytes (c_Text p) (unpackTokens p)) =? 0).
Qed.

(** The tags every core unit has. *)
Definition baseTags : list Z := [TagPackage; TagImportPath; TagText; TagTokens; TagDecls; TagFuncs].

Lemma baseTags_core p t : t ∈ baseTags → t ∈ coreTags p.
Proof. intros Ht. unfold coreTags. apply elem_of_app. by left. Qed.

Lemma coreTags_inv p t :
  t ∈ coreTags p →
  t ∈ TagPackages :: TagRTGAssembly :: TagEntrypoint :: TagForeignPrograms :: baseTags.
Proof.
  unfold coreTags, baseTags.
  destruct (0 <? lenZ (c_Packages p)), (hasAssembly p), (0 <? c_Entrypoint p),
    (0 <? lenZ (c_ForeignPrograms p)); cbn [when app]; rewrite !elem_of_cons; tauto.
Qed.

Section View.
Context (p : CoreProgram) (sc : scan).
Hypothesis Hdata : ∀ t, sc_data sc !! t =
  if bool_decide (t ∈ coreTags p ∧ t ∈ switchTags) then Some (corePayload p t) else None.

Lemma present_child t :
  t ∈ coreTags p → bool_decide (t ∈ switchTags) = true → sc_data sc !! t = Some (corePayload p t).
Proof. intros ? ?%bool_decide_eq_true. by rewrite Hdata, bool_decide_eq_true_2. Qed.

Lemma absent_table {A} t (decode : list Z → res (list A)) :
  bool_decide (t ∈ TagPackages :: TagRTGAssembly :: TagEntrypoint :: TagForeignPrograms ::
    baseTags) = false →
  optionalTable sc t decode = Ok [].
Proof.
  intros Ht%bool_decide_eq_false. unfold optionalTable.
  rewrite Hdata, bool_decide_eq_false_2; [done|]. intros [Hin%coreTags_inv _]. by apply Ht.
Qed.

Lemma base_payload t : bool_decide (t ∈ baseTags) = true → payloadOf sc t = corePayload p t.
Proof.
  intros Ht%bool_decide_eq_true. unfold payloadOf.
  rewrite present_child; [done|by apply baseTags_core|].
  revert t Ht. apply (Forall_forall (λ t, bool_decide (t ∈ switchTags) = true)). by_decision.
Qed.

Lemma packages_table :
  items_ok (c_Packages p) → optionalTable sc TagPackages decodePackages = Ok (c_Packages p).
Proof.
  intros Hpacks. destruct (decide (0 < lenZ (c_Packages p))) as [Hpos|Hzero].
  - eapply (optional_child sc TagPackages); [exact Hpacks|reflexivity|].
    apply present_child; [by apply coreTags_packages|reflexivity].
  - unfold optionalTable. rewrite Hdata, bool_decide_eq_false_2
      by (intros [Hin%coreTags_packages _]; done).
    destruct (c_Packages p) as [|k l]; [done|]. rewrite lenZ_cons in Hzero.
    pose proof (lenZ_nonneg l). lia.
Qed.

Lemma core_assemble :
  core_ok p →
  Z.land (sc_low sc) schemaRequiredChildMaskLow = schemaRequiredChildMaskLow →
  sc_decls sc = c_Decls p → sc_funcs sc = c_Funcs p →
  assemble sc = Ok (backendView p).
Proof.
  intros Hok Hlow Hdecls Hfuncs. destruct (core_nonempty p Hok) as (Hpkg&Htext&Htok).
  destruct Hok as (Hto&Hkind&_&_&Hpacks&Hv).
  unfold assemble. rewrite Hlow, Z.land_0_r, !Z.eqb_refl. cbn [negb orb check mbind res_bind].
  cbv zeta. rewrite !base_payload by reflexivity.
  change (corePayload p TagPackage) with (c_Package p).
  change (corePayload p TagText) with (c_Text p).
  change (corePayload p TagImportPath) with (c_ImportPath p).
  change (corePayload p TagTokens) with (encodeTokensCore (c_Tokens p)).
  rewrite Hpkg, Htext. cbn [negb check mbind res_bind]. rewrite encodeTokensCore_wire by done.
  destruct (tokens_roundtrip _ _ Hto) as (data&He&Hd).
  rewrite encodeTokens_spec in He by done. injection He as <-. rewrite Hd.
  cbn [mbind res_bind]. rewrite packages_table by done.
  rewrite !absent_table by reflexivity. cbn [mbind res_bind].
  rewrite Htok. cbn [negb check mbind res_bind]. rewrite Hdecls, Hfuncs.
  match goal with |- context [validateCoreUnitRanges ?q] => change q with (backendView p) end.
  by rewrite Hv.
Qed.
End View.

Lemma core_Unmarshal p :
  core_ok p → too_big (childBytes (coreChildren p)) = false →
  Unmarshal (unitOf (coreChildren p)) = Ok (backendView p).
Proof.
  intros Hok Hsize. destruct (coreTags_scan p) as (Hnd&Hunit&Hfit&low&high&Hmark&Hlow).
  pose proof Hok as (_&_&Hdecls&Hfuncs&_&_).
  rewrite Unmarshal_children; [|done|unfold coreChildren, tagged; by rewrite Forall_fmap].
  destruct (visitAll_tagged (corePayload p) (c_Decls p) (c_Funcs p)
    (table_child (c_Decls p) Hdecls) (table_child (c_Funcs p) Hfuncs) (coreTags p) 0 0 low high
    (Scan 0 0 ∅ [] [])) as (sc&Hv&Hl&Hh&Hdata&Hdd&Hff); [done..| |].
  { intros. apply lookup_empty. }
  unfold coreChildren. rewrite Hv. cbn [mbind res_bind]. apply core_assemble; [done|done|by rewrite Hl|..].
  - rewrite Hdd, bool_decide_eq_true_2; [done|]. unfold coreTags. apply elem_of_app. left. by_decision.
  - rewrite Hff, bool_decide_eq_true_2; [done|]. unfold coreTags. apply elem_of_app. left. by_decision.
Qed.

(** * Variable-length integers *)

Lemma coreVarintSize_loop_spec fuel size v :
  v < 2 ^ Z.of_nat fuel → (0 < fuel)%nat →
  coreVarintSize_loop fuel size v = size - 1 + lenZ (appendVarint_loop fuel [] v).
Proof.
  revert size v. induction fuel as [|fuel IH]; intros size v Hv Hf; [lia|].
  cbn [coreVarintSize_loop appendVarint_loop app].
  destruct (Z.leb_spec 128 v) as [Hbig|]; [|change (lenZ [_]) with 1; lia].
  rewrite Nat2Z.inj_succ, Z.pow_succ_r in Hv by lia.
  rewrite appendVarint_loop_app, lenZ_app. change (lenZ [_]) with 1. rewrite IH.
  - lia.
  - rewrite Z.shiftr_div_pow2 by lia. apply Z.div_lt_upper_bound; lia.
  - destruct fuel; [simpl in Hv; lia|lia].
Qed.

Lemma coreVarintSize_spec v : coreVarintSize v = lenZ (varint v).
Proof.
  unfold coreVarintSize, varint, appendVarint.
  rewrite coreVarintSize_loop_spec; [lia|apply log2_fuel|lia].
Qed.

(** The shortcut for values of one byte. *)
Lemma small_size v size :
  (if 128 <=? v then size + (coreVarintSize v - 1) else size) = size + lenZ (varint v) - 1.
Proof.
  rewrite coreVarintSize_spec. destruct (Z.leb_spec 128 v); [lia|].
  rewrite varint_small by lia. change (lenZ [_]) with 1. lia.
Qed.

(** * Tables *)

Lemma encodedTokensCoreSize_loop_spec tokens size start line :
  encodedTokensCoreSize_loop tokens size start line =
    size + lenZ (coreTokenBytes start line tokens) - 4 * lenZ tokens.
Proof.
  revert size start line. induction tokens as [|t tokens IH]; intros size start line;
    cbn [encodedTokensCoreSize_loop coreTokenBytes]; [autorewrite with lenZ; lia|].
  cbv zeta. rewrite IH, !small_size. autorewrite with lenZ. lia.
Qed.

Lemma encodedTokensCoreSize_spec tokens :
  encodedTokensCoreSize tokens = lenZ (encodeTokensCore tokens).
Proof.
  unfold encodedTokensCoreSize, encodeTokensCore.
  rewrite encodedTokensCoreSize_loop_spec, coreVarintSize_spec, lenZ_app. lia.
Qed.

(** The size of a table is the size of its count and of its records. *)
Lemma table_size {A} `{Codec A} (f : A → Z) items :
  (∀ a, f a = lenZ (codec_append [] a)) →
  foldl (λ size a, size + f a) (coreVarintSize (lenZ items)) items =
    lenZ (foldl codec_append (appendVarint [] (lenZ items)) items).
Proof.
  intros Hf. rewrite coreVarintSize_spec. change (appendVarint [] ?n) with (varint n).
  generalize (varint (lenZ items)) as out. induction items as [|a items IH]; intros out; [done|].
  cbn [foldl]. rewrite (codec_app out a), <- IH, lenZ_app. by rewrite Hf.
Qed.

Lemma encodedDeclsCoreSize_spec decls : encodedDeclsCoreSize decls = lenZ (encodeDecls decls).
Proof.
  apply (@table_size _ Decl_codec). intros d. cbn [codec_append Decl_codec]. unfold appendDecl.
  cbv zeta. rewrite !coreVarintSize_spec, !appendVarint_app, app_nil_l, !lenZ_app. lia.
Qed.

Lemma encodedFuncsCoreSize_spec funcs : encodedFuncsCoreSize funcs = lenZ (encodeFuncs funcs).
Proof.
  apply (@table_size _ Func_codec). intros f. cbn [codec_append Func_codec]. unfold appendFunc.
  cbv zeta. rewrite !coreVarintSize_spec, !appendVarint_app, app_nil_l, !lenZ_app. lia.
Qed.

Lemma encodedPackagesCoreSize_spec packages :
  encodedPackagesCoreSize packages = lenZ (encodePackages packages).
Proof.
  etransitivity; [|apply (@table_size _ PackageInfo_codec (λ p,
    lenZ (appendPackageInfo [] p)))]; [|done].
  apply foldl_ext_all. intros size p. cbv zeta. unfold appendPackageInfo, appendString.
  cbv zeta. autorewrite with wire. rewrite !coreVarintSize_spec, !app_nil_l, !lenZ_app.
  change (lenZ (appendFixed32 [] _)) with 4. change (lenZ (bytes32 _)) with 4. lia.
Qed.

(** * Lists of records *)

(** A list of records that are appended one after the other. *)
Lemma foldl_appends {A} (f : list Z → A → list Z) out l :
  (∀ out a, f out a = out ++ f [] a) → foldl f out l = out ++ foldl f [] l.
Proof.
  intros Hf. revert out. induction l as [|a l IH]; intros out; cbn [foldl]; [by rewrite app_nil_r|].
  rewrite IH, (IH (f [] a)), Hf. by rewrite <- app_assoc.
Qed.

Lemma varint_pos v : 1 ≤ lenZ (varint v).
Proof.
  rewrite <- coreVarintSize_spec. unfold coreVarintSize. cbn [coreVarintSize_loop].
  destruct (128 <=? v); [|lia].
  assert (∀ fuel size w, size ≤ coreVarintSize_loop fuel size w) as Hmono.
  { intros fuel. induction fuel as [|fuel IH]; intros size w; cbn [coreVarintSize_loop]; [lia|].
    destruct (128 <=? w); [|lia]. specialize (IH (size + 1) (Z.shiftr w 7)). lia. }
  etransitivity; [|apply Hmono]. lia.
Qed.

Lemma foldl_length {A} (f : list Z → A → list Z) l :
  (∀ out a, f out a = out ++ f [] a) → (∀ a, 1 ≤ lenZ (f [] a)) → lenZ l ≤ lenZ (foldl f [] l).
Proof.
  intros Hf H1. induction l as [|a l IH]; [done|]. cbn [foldl].
  rewrite foldl_appends, lenZ_app, lenZ_cons by done. specialize (H1 a). lia.
Qed.

Lemma length_to_nat {A} (l : list A) : Z.to_nat (lenZ l) = length l.
Proof. unfold lenZ. lia. Qed.

(** * The unit *)

Lemma unitOf_length children : lenZ (unitOf children) = 14 + lenZ (childBytes children).
Proof.
  unfold unitOf. rewrite lenZ_app, nodeBytes_length. change (lenZ unitHeader) with 8.
  cbn [snd]. lia.
Qed.

Lemma when_length payload b tag :
  lenZ (childBytes (tagged payload (when b tag))) = if b then 6 + lenZ (payload tag) else 0.
Proof. rewrite childBytes_when. destruct b; [apply nodeBytes_length|done]. Qed.

(** What a program needs beyond its tables. *)
Lemma core_length p :
  lenZ (unitOf (coreChildren p)) =
    14 + 36 + lenZ (c_Package p) + lenZ (c_ImportPath p) + lenZ (c_Text p) +
    encodedTokensCoreSize (c_Tokens p) + encodedDeclsCoreSize (c_Decls p) +
    encodedFuncsCoreSize (c_Funcs p) +
    (if 0 <? lenZ (c_Packages p) then 6 + encodedPackagesCoreSize (c_Packages p) else 0) +
    (if hasAssembly p then 6 + lenZ (corePayload p TagRTGAssembly) else 0) +
    (if 0 <? c_Entrypoint p then 6 + lenZ (varint (c_Entrypoint p - 1)) else 0) +
    (if 0 <? lenZ (c_ForeignPrograms p) then 6 + lenZ (corePayload p TagForeignPrograms) else 0).
Proof.
  rewrite unitOf_length. unfold coreChildren, coreTags.
  rewrite !tagged_app, !childBytes_app, !lenZ_app, !when_length.
  rewrite encodedTokensCoreSize_spec, encodedDeclsCoreSize_spec, encodedFuncsCoreSize_spec,
    encodedPackagesCoreSize_spec.
  unfold tagged. rewrite !fmap_cons, !childBytes_cons, !lenZ_app, !nodeBytes_length.
  change (lenZ (childBytes _)) with 0. cbn [snd].
  change (corePayload p TagPackage) with (c_Package p).
  change (corePayload p TagText) with (c_Text p).
  change (corePayload p TagImportPath) with (c_ImportPath p).
  change (corePayload p TagTokens) with (encodeTokensCore (c_Tokens p)).
  change (corePayload p TagDecls) with (encodeDecls (c_Decls p)).
  change (corePayload p TagFuncs) with (encodeFuncs (c_Funcs p)).
  change (corePayload p TagPackages) with (encodePackages (c_Packages p)).
  change (corePayload p TagEntrypoint) with (varint (c_Entrypoint p - 1)). lia.
Qed.

(** The reserve is left over, unless the program carries assembly or foreign units. *)
Lemma core_capacity p :
  c_RTGAssembly p = [] → c_RTGAssemblyFuncs p = [] → c_ForeignPrograms p = [] →
  c_Entrypoint p < 2 ^ 63 →
  lenZ (unitOf (coreChildren p)) + unboundTargetBindingReserve ≤ marshalCapacity p.
Proof.
  intros Ha Hf Hfp He. rewrite core_length. unfold hasAssembly, marshalCapacity,
    unboundTargetBindingReserve. rewrite Ha, Hf, Hfp. cbn [foldl]. change (lenZ []) with 0.
  cbn [orb]. rewrite Z.ltb_irrefl. cbn [orb].
  pose proof (varint_length 8 (c_Entrypoint p - 1)) as Hv.
  change (2 ^ (7 * Z.of_nat 9)) with (2 ^ 63) in Hv.
  assert (0 ≤ encodedPackagesCoreSize (c_Packages p))
    by (rewrite encodedPackagesCoreSize_spec; apply lenZ_nonneg).
  assert (lenZ (varint (c_Entrypoint p - 1)) ≤ 9) by (apply Hv; lia).
  destruct (0 <? lenZ (c_Packages p)), (0 <? c_Entrypoint p); lia.
Qed.
