(* ===== verification/CoreBinding.v ===== *)
(** Target bindings of a unit (internal/unit/binding.go), and the test for project
    assembly (rtgassembly_presence.go).

    A function that returns a value and [ok] is a [res]: [Err] is [ok == false].
    The expression [int(data[i]) | int(data[i+1])<<8] is [uint16At], its four-byte
    form [uint32At]. *)

From S2P Require Import Prelude.
From S2P Require Import GoInt.
From S2P Require Import WireReader.
From S2P Require Import WireUnit.
From S2P Require Import CoreModel.
From S2P Require Import CoreMarshal.

Definition TagDefinitionTarget : Z := 4.
Definition TagDefinitionHash : Z := 5.
Definition TagDescriptorVersion : Z := 6.
Definition targetBindingFixedSize : Z := 52.

Record TargetBinding := MkTarget {
  tb_Target : list Z; tb_Definition : list Z; tb_DescriptorVersion : Z
}.

Definition validUnitRoot (data : list Z) : res bool :=
  if lenZ data <? 14 then Ok false
  else
    magic ← index (sliceZ data 0 4);
    if negb (bool_decide (magic = Magic)) then Ok false
    else
      version ← uint16At data 4;
      flags ← uint16At data 6;
      tag ← uint16At data 8;
      length ← uint32At data 10;
      Ok ((version =? Version) && (flags =? 0) && (tag =? TagUnit) &&
          (length =? lenZ data - 14)).

(** [if !validUnitRoot(data) { return nil, false }] *)
Definition checkRoot (data : list Z) : res unit :=
  valid ← validUnitRoot data; check valid.

(** The bindings that [BindTarget] and [BindUnboundTarget] accept. *)
Definition bindingValid (binding : TargetBinding) : bool :=
  negb ((lenZ (tb_Target binding) =? 0) || negb (lenZ (tb_Definition binding) =? 32) ||
        (tb_DescriptorVersion binding <=? 0)).

(** [version[0] = byte(v); version[1] = byte(v >> 8)] *)
Definition versionBytes (v : Z) : list Z := [u8 v; u8 (Z.shiftr v 8)].

(** * Reading *)

Record bindingState := BindingState {
  bs_binding : TargetBinding; bs_haveTarget : bool; bs_haveHash : bool; bs_haveVersion : bool
}.

(** The body of the loop of [ReadTargetBinding], for one child. *)
Definition visitBinding (tag : Z) (payload : list Z) (st : bindingState) : res bindingState :=
  let 'BindingState (MkTarget target definition version) haveTarget haveHash haveVersion := st in
  if tag =? TagDefinitionTarget then
    if haveTarget || (lenZ payload =? 0) then Err
    else Ok (BindingState (MkTarget payload definition version) true haveHash haveVersion)
  else if tag =? TagDefinitionHash then
    if haveHash || negb (lenZ payload =? 32) then Err
    else Ok (BindingState (MkTarget target payload version) haveTarget true haveVersion)
  else if tag =? TagDescriptorVersion then
    if haveVersion || negb (lenZ payload =? 2) then Err
    else
      v ← uint16At payload 0;
      Ok (BindingState (MkTarget target definition v) haveTarget haveHash true)
  else Ok st.

Fixpoint readBinding_loop (fuel : nat) (data : list Z) (at_ : Z) (st : bindingState)
    : res bindingState :=
  match fuel with
  | O => Err
  | S fuel =>
      if at_ <? lenZ data then
        if lenZ data <? at_ + 6 then Err
        else
          tag ← uint16At data at_;
          size ← uint32At data (at_ + 2);
          let at_ := at_ + 6 in
          if (size <? 0) || (at_ + size <? at_) || (lenZ data <? at_ + size) then Err
          else
            payload ← index (sliceZ data at_ (at_ + size));
            st ← visitBinding tag payload st;
            readBinding_loop fuel data (at_ + size) st
      else Ok st
  end.

Definition ReadTargetBinding (data : list Z) : res TargetBinding :=
  _ ← checkRoot data;
  st ← readBinding_loop (S (length data)) data 14
         (BindingState (MkTarget [] [] 0) false false false);
  let 'BindingState binding haveTarget haveHash haveVersion := st in
  if negb haveTarget && negb haveHash && negb haveVersion then Err
  else
    _ ← check (haveTarget && haveHash && haveVersion && (0 <? tb_DescriptorVersion binding));
    Ok binding.

(** * Writing *)

(** Appending the three children of a binding and patching the root length. *)
Definition appendTarget (out : list Z) (binding : TargetBinding) : res (list Z) :=
  let out := appendStringNodeCore out TagDefinitionTarget (tb_Target binding) in
  let out := appendStringNodeCore out TagDefinitionHash (tb_Definition binding) in
  let out := appendNode out TagDescriptorVersion (versionBytes (tb_DescriptorVersion binding)) in
  patchUint32Core out 10 (lenZ out - 14).

(** The loop of [BindTarget]: every child but those of a binding is copied. *)
Fixpoint copyUnbound (fuel : nat) (data : list Z) (at_ : Z) (out : list Z) (hadBinding : bool)
    : res (list Z * bool) :=
  match fuel with
  | O => Err
  | S fuel =>
      if at_ <? lenZ data then
        if lenZ data <? at_ + 6 then Err
        else
          tag ← uint16At data at_;
          size ← uint32At data (at_ + 2);
          let next := at_ + 6 + size in
          if (size <? 0) || (next <? at_) || (lenZ data <? next) then Err
          else if (tag =? TagDefinitionTarget) || (tag =? TagDefinitionHash) ||
                  (tag =? TagDescriptorVersion) then
            copyUnbound fuel data next out true
          else
            node ← index (sliceZ data at_ next);
            copyUnbound fuel data next (out ++ node) hadBinding
      else Ok (out, hadBinding)
  end.

Definition BindTarget (data : list Z) (binding : TargetBinding) : res (list Z) :=
  _ ← checkRoot data;
  _ ← check (bindingValid binding);
  root ← index (sliceZ data 0 14);
  '(out, hadBinding) ← copyUnbound (S (length data)) data 14 root false;
  _ ← (if (hadBinding : bool) then _ ← ReadTargetBinding data; Ok tt else Ok tt);
  appendTarget out binding.

Definition writeNodeHeaderCore (out : list Z) (at_ tag size : Z) : res (list Z * Z) :=
  out ← index (writeAll out at_
    [u8 tag; u8 (Z.shiftr tag 8); u8 size; u8 (Z.shiftr size 8); u8 (Z.shiftr size 16);
     u8 (Z.shiftr size 24)]);
  Ok (out, at_ + 6).

Definition writeStringNodeCore (out : list Z) (at_ tag : Z) (payload : list Z)
    : res (list Z * Z) :=
  '(out, at_) ← writeNodeHeaderCore out at_ tag (lenZ payload);
  out ← index (writeAll out at_ payload);
  Ok (out, at_ + lenZ payload).

(** The writes of [BindUnboundTarget] at [start], and the position after them. *)
Definition writeTarget (out : list Z) (start : Z) (binding : TargetBinding) : res (list Z * Z) :=
  '(out, at_) ← writeStringNodeCore out start TagDefinitionTarget (tb_Target binding);
  '(out, at_) ← writeStringNodeCore out at_ TagDefinitionHash (tb_Definition binding);
  '(out, at_) ← writeNodeHeaderCore out at_ TagDescriptorVersion 2;
  out ← index (insertZ out at_ (u8 (tb_DescriptorVersion binding)));
  out ← index (insertZ out (at_ + 1) (u8 (Z.shiftr (tb_DescriptorVersion binding) 8)));
  Ok (out, at_ + 2).

(** [spare] is what the backing array holds between the length of [*data] and its
    capacity.  The result is the value returned and the new [*data]. *)
Definition BindUnboundTarget (data spare : list Z) (binding : TargetBinding)
    : res (bool * list Z) :=
  valid ← validUnitRoot data;
  if negb valid || negb (bindingValid binding) then Ok (false, data)
  else
    let required := targetBindingFixedSize + lenZ (tb_Target binding) in
    if lenZ spare <? required then
      out ← appendTarget data binding; Ok (true, out)
    else
      let start := lenZ data in
      out ← index (sliceZ (data ++ spare) 0 (start + required));
      '(out, at_) ← writeTarget out start binding;
      if negb (at_ =? lenZ out) then Ok (false, data)
      else out ← patchUint32Core out 10 (lenZ out - 14); Ok (true, out).

(** * Presence of project assembly *)

Fixpoint hasAssembly_loop (fuel : nat) (data : list Z) (at_ : Z) : res bool :=
  match fuel with
  | O => Ok false
  | S fuel =>
      if at_ + 6 <=? lenZ data then
        tag ← uint16At data at_;
        size ← uint32At data (at_ + 2);
        let at_ := at_ + 6 in
        if (size <? 0) || (at_ + size <? at_) || (lenZ data <? at_ + size) then Ok false
        else if tag =? TagRTGAssembly then Ok true
        else hasAssembly_loop fuel data (at_ + size)
      else Ok false
  end.

Definition HasRTGAssembly (data : list Z) : res bool :=
  valid ← validUnitRoot data;
  if negb valid then Ok false else hasAssembly_loop (S (length data)) data 14.
