(* ===== verification/CoreStream.v ===== *)
(** Methods of a reader object that consume bytes: the notion that the readers of
    foreign programs, of assembly fragments and of cached packages share.

    The children of a unit as a list: what every loop over the child nodes of a
    unit sees, whatever it does with them. *)

From S2P Require Import Prelude.
From S2P Require Import GoInt.
From S2P Require Import WireReader.
From S2P Require Import WireUnit.
From S2P Require Import WireUnitFacts.
From S2P Require Import WireSafety.
From S2P Require Import CoreModel.
From S2P Require Import CoreMarshal.
From S2P Require Import CoreMarshalFacts.
From S2P Require Import CoreBinding.

Section Yields.
(** [mk data pos] is the reader at [pos] that has not failed. *)
Context {S : Type} (mk : list Z → Z → S).

(** Wherever the bytes [bs] occur, [c] consumes them and returns [a]. *)
Definition yields {A} (c : GoM S A) (bs : list Z) (a : A) : Prop :=
  ∀ pre post, c (mk (pre ++ bs ++ post) (lenZ pre)) =
    Some (a, mk (pre ++ bs ++ post) (lenZ pre + lenZ bs)).

Lemma yields_ret {A} (a : A) : yields (mret a) [] a.
Proof. intros pre post. unfold mret, GoM_ret. change (lenZ []) with 0. by rewrite Z.add_0_r. Qed.

Lemma yields_bind {A B} (c : GoM S A) (f : A → GoM S B) bs bs' a b :
  yields c bs a → yields (f a) bs' b → yields (c ≫= f) (bs ++ bs') b.
Proof.
  intros Hc Hf pre post. unfold mbind, GoM_bind. rewrite <- app_assoc, Hc.
  rewrite app_assoc, <- lenZ_app, Hf. f_equal. f_equal. f_equal. rewrite !lenZ_app. lia.
Qed.

(** The last read of a method, followed by its result. *)
Lemma yields_last {A B} (c : GoM S A) (f : A → GoM S B) bs a b :
  yields c bs a → yields (f a) [] b → yields (c ≫= f) bs b.
Proof. intros. rewrite <- (app_nil_r bs). by eapply yields_bind. Qed.

Lemma yields_eq {A} (c : GoM S A) bs bs' a a' : yields c bs a → bs = bs' → a = a' → yields c bs' a'.
Proof. by intros ? <- <-. Qed.

(** The same at the end of the data. *)
Definition ends {A} (c : GoM S A) (bs : list Z) (a : A) : Prop :=
  ∀ pre, c (mk (pre ++ bs) (lenZ pre)) = Some (a, mk (pre ++ bs) (lenZ (pre ++ bs))).

Lemma ends_bind {A B} (c : GoM S A) (f : A → GoM S B) bs bs' a b :
  yields c bs a → ends (f a) bs' b → ends (c ≫= f) (bs ++ bs') b.
Proof.
  intros Hc Hf pre. unfold mbind, GoM_bind. rewrite Hc, app_assoc, <- lenZ_app. apply Hf.
Qed.

Lemma ends_whole {A} (c : GoM S A) bs a : ends c bs a → c (mk bs 0) = Some (a, mk bs (lenZ bs)).
Proof. intros H. apply (H []). Qed.

(** A whole input. *)
Lemma yields_whole {A} (c : GoM S A) bs a : yields c bs a → c (mk bs 0) = Some (a, mk bs (lenZ bs)).
Proof. intros H. specialize (H [] []). by rewrite app_nil_r in H. Qed.
End Yields.

(** * Child streams *)

(** The child at position [at_], which ends at [next]. *)
Record child_at (data : list Z) (at_ : Z) (c : Z * list Z) (next : Z) : Prop := {
  ca_start : 0 ≤ at_;
  ca_tag : uint16At data at_ = Ok c.1;
  ca_size : uint32At data (at_ + 2) = Ok (lenZ c.2);
  ca_next : next = at_ + 6 + lenZ c.2;
  ca_end : next ≤ lenZ data;
  ca_payload : sublistZ data (at_ + 6) next = c.2;
  ca_node : sublistZ data at_ next = nodeBytes c;
  ca_ok : child_ok c
}.

(** Bytes that are no child: too short for a header, or for what it announces. *)
Inductive bad_at (data : list Z) (at_ : Z) : Prop :=
  | bad_header : 0 ≤ at_ → at_ < lenZ data → lenZ data < at_ + 6 → bad_at data at_
  | bad_size tag size :
      0 ≤ at_ → at_ + 6 ≤ lenZ data → uint16At data at_ = Ok tag →
      uint32At data (at_ + 2) = Ok size → 0 ≤ size → lenZ data < at_ + 6 + size → bad_at data at_.

(** From [at_] on there are the children [cs], and then the end of the data
    ([ok]) or bytes that are no child. *)
Inductive stream (data : list Z) : Z → list (Z * list Z) → bool → Prop :=
  | stream_end at_ : at_ = lenZ data → stream data at_ [] true
  | stream_bad at_ : bad_at data at_ → stream data at_ [] false
  | stream_child at_ c next cs ok :
      child_at data at_ c next → stream data next cs ok → stream data at_ (c :: cs) ok.

(** ** Fields *)

Lemma uint16At_bytes data at_ v :
  bytes_ok data → uint16At data at_ = Ok v →
  0 ≤ v < 2 ^ 16 ∧ sublistZ data at_ (at_ + 2) = bytes16 v.
Proof.
  intros Hb. unfold uint16At.
  destruct (data !!z at_) as [a|] eqn:Ha; [|done].
  destruct (data !!z (at_ + 1)) as [b|] eqn:Hb'; [|done]. intros [= <-].
  pose proof (lookupZ_lt_Some _ _ _ Ha).
  pose proof (lookupZ_Forall _ _ _ _ Hb Ha). pose proof (lookupZ_Forall _ _ _ _ Hb Hb').
  split; [by apply le16_range|]. rewrite bytes16_le16 by done.
  rewrite (sublistZ_cons _ _ _ a), (sublistZ_cons _ _ _ b), sublistZ_empty by (done || lia). done.
Qed.

Lemma uint32At_bytes data at_ v :
  bytes_ok data → uint32At data at_ = Ok v →
  u32_ok v ∧ sublistZ data at_ (at_ + 4) = bytes32 v.
Proof.
  intros Hb. unfold uint32At.
  destruct (data !!z at_) as [a|] eqn:Ha; [|done].
  destruct (data !!z (at_ + 1)) as [b|] eqn:Hb'; [|done].
  destruct (data !!z (at_ + 2)) as [c|] eqn:Hc; [|done].
  destruct (data !!z (at_ + 3)) as [d|] eqn:Hd; [|done]. intros [= <-].
  pose proof (lookupZ_lt_Some _ _ _ Ha).
  pose proof (lookupZ_Forall _ _ _ _ Hb Ha). pose proof (lookupZ_Forall _ _ _ _ Hb Hb').
  pose proof (lookupZ_Forall _ _ _ _ Hb Hc). pose proof (lookupZ_Forall _ _ _ _ Hb Hd).
  split; [by apply le32_range|]. rewrite bytes32_le32 by done.
  rewrite (sublistZ_cons _ at_ _ a), (sublistZ_cons _ (at_ + 1) _ b) by (done || lia).
  replace (at_ + 1 + 1) with (at_ + 2) by lia.
  rewrite (sublistZ_cons _ (at_ + 2) _ c) by (done || lia).
  replace (at_ + 2 + 1) with (at_ + 3) by lia.
  rewrite (sublistZ_cons _ (at_ + 3) _ d), sublistZ_empty by (done || lia). done.
Qed.

(** A readable position is in the data. *)
Lemma uint16At_total data at_ :
  bytes_ok data → 0 ≤ at_ → at_ + 2 ≤ lenZ data → ∃ v, uint16At data at_ = Ok v.
Proof.
  intros Hb ? Hl. pose proof (uint16At_safe data at_ Hb) as Hs. unfold uint16At in *.
  destruct (lookupZ_lt_is_Some data at_ ltac:(lia)) as [a ->].
  destruct (lookupZ_lt_is_Some data (at_ + 1) ltac:(lia)) as [b ->]. cbn. eauto.
Qed.

Lemma uint32At_total data at_ :
  0 ≤ at_ → at_ + 4 ≤ lenZ data → ∃ v, uint32At data at_ = Ok v.
Proof.
  intros ? Hl. unfold uint32At.
  destruct (lookupZ_lt_is_Some data at_ ltac:(lia)) as [a ->].
  destruct (lookupZ_lt_is_Some data (at_ + 1) ltac:(lia)) as [b ->].
  destruct (lookupZ_lt_is_Some data (at_ + 2) ltac:(lia)) as [c ->].
  destruct (lookupZ_lt_is_Some data (at_ + 3) ltac:(lia)) as [d ->]. cbn. eauto.
Qed.

(** ** Every suffix is a stream *)

Lemma child_at_intro data at_ tag size :
  bytes_ok data → 0 ≤ at_ → uint16At data at_ = Ok tag → uint32At data (at_ + 2) = Ok size →
  at_ + 6 + size ≤ lenZ data →
  child_at data at_ (tag, sublistZ data (at_ + 6) (at_ + 6 + size)) (at_ + 6 + size).
Proof.
  intros Hb H0 Htag Hsize Hl.
  destruct (uint16At_bytes _ _ _ Hb Htag) as [Ht16 Htb].
  destruct (uint32At_bytes _ _ _ Hb Hsize) as [Hs32 Hsb]. unfold u32_ok in Hs32.
  assert (lenZ (sublistZ data (at_ + 6) (at_ + 6 + size)) = size) as Hlen
    by (rewrite sublistZ_length; lia).
  constructor; cbn [fst snd]; rewrite ?Hlen; try done.
  - unfold nodeBytes. cbn [fst snd]. rewrite Hlen, <- Htb, <- Hsb.
    rewrite <- (sublistZ_app data at_ (at_ + 2)) by lia. f_equal.
    rewrite <- (sublistZ_app data (at_ + 2) (at_ + 2 + 4)) by lia. f_equal. f_equal; lia.
  - split; cbn [fst snd]; [done|]. rewrite Hlen. lia.
Qed.

Lemma stream_total data at_ :
  bytes_ok data → 0 ≤ at_ ≤ lenZ data → ∃ cs ok, stream data at_ cs ok.
Proof.
  intros Hb. remember (Z.to_nat (lenZ data - at_)) as n eqn:Hn. revert at_ Hn.
  induction (lt_wf n) as [n _ IH]. intros at_ -> Hat.
  destruct (decide (at_ = lenZ data)) as [->|]; [eexists _, _; by constructor|].
  destruct (decide (lenZ data < at_ + 6)).
  { eexists _, _. apply stream_bad. apply bad_header; lia. }
  destruct (uint16At_total data at_ Hb ltac:(lia) ltac:(lia)) as [tag Htag].
  destruct (uint32At_total data (at_ + 2) ltac:(lia) ltac:(lia)) as [size Hsize].
  pose proof (uint32At_bytes _ _ _ Hb Hsize) as [Hs32 _]. unfold u32_ok in Hs32.
  destruct (decide (lenZ data < at_ + 6 + size)).
  { eexists _, _. apply stream_bad. by apply (bad_size _ _ tag size); try lia. }
  destruct (IH (Z.to_nat (lenZ data - (at_ + 6 + size))) ltac:(lia) (at_ + 6 + size) eq_refl
    ltac:(lia)) as (cs&ok&Hs).
  eexists _, _. eapply stream_child; [|exact Hs]. by apply child_at_intro; try lia.
Qed.

(** A stream that ends well is the bytes of its children. *)
Lemma stream_bytes data at_ cs :
  stream data at_ cs true → at_ ≤ lenZ data →
  sublistZ data at_ (lenZ data) = childBytes cs ∧ Forall child_ok cs.
Proof.
  remember true as ok eqn:Hok. intros Hs. revert Hok.
  induction Hs as [at_ ->|at_ Hbad|at_ c next cs ok Hc Hs IH]; intros Hok Hle; [|done|].
  - by rewrite sublistZ_empty by lia.
  - destruct Hc as [? ? ? Hnext Hend ? Hnode Hcok]. pose proof (lenZ_nonneg c.2).
    destruct (IH Hok Hend) as [Hrest Hall].
    split; [|by constructor]. rewrite childBytes_cons, <- Hnode, <- Hrest.
    rewrite sublistZ_app by lia. done.
Qed.

(** The children of a unit are its stream. *)
Lemma stream_unit pre cs :
  Forall child_ok cs → bytes_ok (pre ++ childBytes cs) →
  stream (pre ++ childBytes cs) (lenZ pre) cs true.
Proof.
  intros Hok. revert pre. induction Hok as [|c cs Hc Hok IH]; intros pre Hb.
  { constructor. change (childBytes []) with (@nil Z). by rewrite app_nil_r. }
  rewrite childBytes_cons, app_assoc in *. pose proof (lenZ_nonneg pre) as H0.
  pose proof (lenZ_nonneg c.2). pose proof (lenZ_nonneg (childBytes cs)).
  eapply stream_child; [|by apply IH]. set (D := _ ++ childBytes cs).
  assert (lenZ (pre ++ nodeBytes c) = lenZ pre + 6 + lenZ c.2) as Hnext
    by (rewrite lenZ_app, nodeBytes_length; lia).
  assert (uint16At D (lenZ pre) = Ok c.1) as Htag.
  { rewrite <- (uint16At_app pre c.1 (bytes32 (lenZ c.2) ++ c.2 ++ childBytes cs)) by apply Hc.
    unfold D, nodeBytes. by rewrite <- !app_assoc. }
  assert (uint32At D (lenZ pre + 2) = Ok (lenZ c.2)) as Hsize.
  { replace (lenZ pre + 2) with (lenZ (pre ++ bytes16 c.1)) by (rewrite lenZ_app; done).
    rewrite <- (uint32At_app (pre ++ bytes16 c.1) (lenZ c.2) (c.2 ++ childBytes cs))
      by (destruct Hc; unfold u32_ok; lia).
    unfold D, nodeBytes. by rewrite <- !app_assoc. }
  assert (child_at D (lenZ pre) (c.1, sublistZ D (lenZ pre + 6) (lenZ pre + 6 + lenZ c.2))
    (lenZ pre + 6 + lenZ c.2)) as Hchild
    by (apply child_at_intro; try done; unfold D; rewrite lenZ_app; lia).
  rewrite Hnext. assert (sublistZ D (lenZ pre + 6) (lenZ pre + 6 + lenZ c.2) = c.2) as Hpay.
  { rewrite <- (sublistZ_app_exact (pre ++ bytes16 c.1 ++ bytes32 (lenZ c.2)) c.2
      (childBytes cs)) at 2.
    unfold D, nodeBytes. rewrite <- !app_assoc. f_equal;
      rewrite !lenZ_app; change (lenZ (bytes16 _)) with 2; change (lenZ (bytes32 _)) with 4; lia. }
  rewrite Hpay in Hchild. by destruct c.
Qed.

(** A loop makes at most one iteration per child, and a last one. *)
Lemma stream_length data at_ cs ok :
  stream data at_ cs ok → at_ ≤ lenZ data → 6 * lenZ cs ≤ lenZ data - at_.
Proof.
  induction 1 as [at_ ->|at_ Hbad|at_ c next cs ok Hc Hs IH]; intros Hle;
    [change (lenZ []) with 0; lia..|].
  destruct Hc as [? ? ? Hnext Hend _ _ _]. pose proof (lenZ_nonneg c.2). rewrite lenZ_cons. lia.
Qed.
