(* ===== verification/CoreBindingFacts.v ===== *)
(** What the binding functions compute on the child list of a unit. *)

From stdpp Require Import gmap.
From S2P Require Import Prelude.
From S2P Require Import GoInt.
From S2P Require Import WireReader.
From S2P Require Import WireFacts.
From S2P Require Import WireUnit.
From S2P Require Import WireUnitFacts.
From S2P Require Import WireSafety.
From S2P Require Import CoreModel.
From S2P Require Import CoreMarshal.
From S2P Require Import CoreMarshalFacts.
From S2P Require Import CoreBinding.
From S2P Require Import CoreStream.

(** * The root *)

(** [validUnitRoot] accepts the headers that [Unmarshal] accepts. *)
Lemma validUnitRoot_header data :
  bytes_ok data →
  validUnitRoot data =
    match readHeader data with Ok _ => Ok true | Err => Ok false | Panic => Panic end.
Proof.
  intros Hb. unfold validUnitRoot, readHeader. destruct (Z.ltb_spec (lenZ data) 14); [done|].
  rewrite sliceZ_Some by lia. cbn [index mbind res_bind].
  destruct (uint16At_total data 4 Hb ltac:(lia) ltac:(lia)) as [version ->].
  destruct (uint16At_total data 6 Hb ltac:(lia) ltac:(lia)) as [flags ->].
  destruct (uint16At_total data 8 Hb ltac:(lia) ltac:(lia)) as [tag ->].
  destruct (uint32At_total data 10 ltac:(lia) ltac:(lia)) as [size Hsize]. rewrite Hsize.
  pose proof (uint32At_bytes _ _ _ Hb Hsize) as [Hs _]. unfold u32_ok in Hs.
  cbn [mbind res_bind]. destruct (bool_decide _); cbn [negb check mbind res_bind]; [|done].
  destruct (version =? Version); cbn [check mbind res_bind]; [|done].
  destruct (flags =? 0); cbn [check mbind res_bind]; [|done].
  destruct (tag =? TagUnit); cbn [check mbind res_bind andb]; [|done].
  destruct (Z.eqb_spec size (lenZ data - 14)), (Z.ltb_spec (14 + size) 14),
    (Z.eqb_spec (14 + size) (lenZ data)); cbn [orb negb andb]; try done; lia.
Qed.

Lemma validUnitRoot_total data : bytes_ok data → ∃ valid, validUnitRoot data = Ok valid.
Proof.
  intros Hb. rewrite validUnitRoot_header by done. pose proof (readHeader_safe data Hb) as Hs.
  destruct (readHeader data); [eauto..|done].
Qed.

Lemma validUnitRoot_bytes data :
  bytes_ok data → validUnitRoot data = Ok true →
  14 ≤ lenZ data < 14 + 2 ^ 32 ∧
  sublistZ data 0 14 = unitHeader ++ bytes16 TagUnit ++ bytes32 (lenZ data - 14).
Proof.
  intros Hb. unfold validUnitRoot. destruct (Z.ltb_spec (lenZ data) 14); [done|].
  rewrite sliceZ_Some by lia. cbn [index mbind res_bind].
  destruct (bool_decide_reflect (sublistZ data 0 4 = Magic)) as [Hm|]; [|done]. cbn [negb].
  destruct (uint16At_total data 4 Hb ltac:(lia) ltac:(lia)) as [version Hv]. rewrite Hv.
  destruct (uint16At_total data 6 Hb ltac:(lia) ltac:(lia)) as [flags Hf]. rewrite Hf.
  destruct (uint16At_total data 8 Hb ltac:(lia) ltac:(lia)) as [tag Ht]. rewrite Ht.
  destruct (uint32At_total data 10 ltac:(lia) ltac:(lia)) as [size Hs]. rewrite Hs.
  cbn [mbind res_bind]. intros [= Heq]. rewrite !andb_true_iff, !Z.eqb_eq in Heq.
  destruct Heq as [[[-> ->] ->] ->].
  apply uint16At_bytes in Hv as [_ Hv], Hf as [_ Hf], Ht as [_ Ht]; [|done..].
  apply uint32At_bytes in Hs as [Hr Hs]; [|done]. unfold u32_ok in Hr. split; [lia|].
  rewrite <- (sublistZ_app data 0 4), <- (sublistZ_app data 4 (4 + 2)),
    <- (sublistZ_app data (4 + 2) (6 + 2)), <- (sublistZ_app data (6 + 2) (8 + 2)) by lia.
  change (sublistZ data (4 + 2) (6 + 2)) with (sublistZ data 6 (6 + 2)).
  change (sublistZ data (6 + 2) (8 + 2)) with (sublistZ data 8 (8 + 2)).
  change (sublistZ data (8 + 2) 14) with (sublistZ data 10 (10 + 4)).
  by rewrite Hm, Hv, Hf, Ht, Hs.
Qed.

Lemma checkRoot_cases data :
  bytes_ok data → checkRoot data = Err ∨ checkRoot data = Ok tt ∧ validUnitRoot data = Ok true.
Proof.
  intros Hb. unfold checkRoot. destruct (validUnitRoot_total data Hb) as [[] ->]; auto.
Qed.

(** A valid root whose children parse is the unit of its children. *)
Lemma valid_unit data cs :
  bytes_ok data → validUnitRoot data = Ok true → stream data 14 cs true →
  data = unitOf cs ∧ Forall child_ok cs ∧ too_big (childBytes cs) = false.
Proof.
  intros Hb Hv Hs. destruct (validUnitRoot_bytes data Hb Hv) as [Hl Hroot].
  destruct (stream_bytes data 14 cs Hs) as [Hcs Hok]; [lia|].
  assert (data = unitOf cs) as Hdata.
  { unfold unitOf, nodeBytes. cbn [fst snd].
    assert (lenZ (childBytes cs) = lenZ data - 14) as ->
      by (rewrite <- Hcs, sublistZ_length; lia).
    rewrite <- Hcs. transitivity (sublistZ data 0 (lenZ data)).
    - unfold sublistZ, lenZ. rewrite Z.sub_0_r, Nat2Z.id. cbn [Z.to_nat drop].
      by rewrite firstn_all.
    - rewrite <- (sublistZ_app data 0 14) by lia. rewrite Hroot. by rewrite <- !app_assoc. }
  split; [exact Hdata|]. split; [done|]. unfold too_big.
  assert (lenZ data = lenZ (unitOf cs)) as Hlen by by rewrite <- Hdata.
  rewrite unitOf_length in Hlen. lia.
Qed.

(** Conversely, units of children that fit are valid and stream. *)
Lemma unit_valid cs :
  Forall child_ok cs → too_big (childBytes cs) = false → bytes_ok (childBytes cs) →
  validUnitRoot (unitOf cs) = Ok true ∧ stream (unitOf cs) 14 cs true ∧ bytes_ok (unitOf cs).
Proof.
  intros Hok Hbig Hb. unfold too_big in Hbig.
  set (pre := unitHeader ++ bytes16 TagUnit ++ bytes32 (lenZ (childBytes cs))).
  assert (unitOf cs = pre ++ childBytes cs) as Hu
    by (unfold unitOf, nodeBytes, pre; cbn [fst snd]; by rewrite <- !app_assoc).
  assert (bytes_ok pre) as Hpre.
  { unfold pre. rewrite !Forall_app. split; [by_decision|]. split; [by_decision|apply bytes32_ok]. }
  assert (bytes_ok (unitOf cs)) as Hub by (rewrite Hu; by apply Forall_app).
  split; [|split; [|done]].
  - rewrite validUnitRoot_header by done. unfold unitOf. by rewrite readHeader_spec by lia.
  - rewrite Hu. change 14 with (lenZ pre). apply stream_unit; [done|]. by rewrite <- Hu.
Qed.

(** * Loops *)

Lemma child_loop_step data at_ c next :
  child_at data at_ c next →
  (at_ <? lenZ data) = true ∧ (lenZ data <? at_ + 6) = false ∧ (at_ + 6 <=? lenZ data) = true ∧
  (lenZ c.2 <? 0) = false ∧ (at_ + 6 + lenZ c.2 <? at_ + 6) = false ∧
  (at_ + 6 + lenZ c.2 <? at_) = false ∧ (lenZ data <? at_ + 6 + lenZ c.2) = false ∧
  sliceZ data (at_ + 6) (at_ + 6 + lenZ c.2) = Some c.2 ∧
  sliceZ data at_ (at_ + 6 + lenZ c.2) = Some (nodeBytes c).
Proof.
  intros [H0 _ _ Hnext Hend Hpay Hnode _]. pose proof (lenZ_nonneg c.2). rewrite <- Hnext.
  rewrite !sliceZ_Some by lia. rewrite Hpay, Hnode. repeat split; lia.
Qed.

(** A loop over bytes that are no child. *)
Ltac bad_child Hbad :=
  let tag := fresh "tag" in let size := fresh "size" in
  let Htag := fresh "Htag" in let Hsize := fresh "Hsize" in
  destruct Hbad as [? ? ?|tag size ? ? Htag Hsize ? ?];
  [ rewrite ?(proj2 (Z.ltb_lt _ _)), ?(proj2 (Z.leb_gt _ _)) by lia; reflexivity
  | rewrite ?Htag, ?Hsize; cbn [mbind res_bind]; cbv zeta;
    repeat match goal with
    | |- context [?a <? ?b] => destruct (Z.ltb_spec a b); try lia; cbn [orb]
    | |- context [?a <=? ?b] => destruct (Z.leb_spec a b); try lia
    end; reflexivity ].

Fixpoint visitBindings (cs : list (Z * list Z)) (st : bindingState) : res bindingState :=
  match cs with
  | [] => Ok st
  | c :: cs => st ← visitBinding c.1 c.2 st; visitBindings cs st
  end.

Lemma readBinding_loop_spec fuel data at_ cs ok st :
  stream data at_ cs ok → (length cs < fuel)%nat →
  readBinding_loop fuel data at_ st =
    (st ← visitBindings cs st; if ok then Ok st else Err).
Proof.
  intros Hs. revert fuel st.
  induction Hs as [at_ ->|at_ Hbad|at_ c next cs ok Hc Hs IH]; intros [|fuel] st Hf;
    try (simpl in Hf; lia); cbn [readBinding_loop visitBindings].
  - by rewrite Z.ltb_irrefl.
  - bad_child Hbad.
  - destruct (child_loop_step _ _ _ _ Hc) as (->&->&_&H1&H2&_&H4&H5&_).
    destruct Hc as [_ -> -> Hnext _ _ _ _]. cbn [mbind res_bind]. cbv zeta.
    rewrite H1, H2, H4, H5. cbn [orb mbind res_bind index].
    destruct (visitBinding c.1 c.2 st); cbn [mbind res_bind]; [|done..].
    rewrite <- Hnext. apply IH. simpl in Hf. lia.
Qed.

(** The children of a binding. *)
Definition isBinding (c : Z * list Z) : bool :=
  (c.1 =? TagDefinitionTarget) || (c.1 =? TagDefinitionHash) || (c.1 =? TagDescriptorVersion).

Definition unbound (cs : list (Z * list Z)) : list (Z * list Z) :=
  List.filter (λ c, negb (isBinding c)) cs.

Lemma copyUnbound_spec fuel data at_ cs ok out had :
  stream data at_ cs ok → (length cs < fuel)%nat →
  copyUnbound fuel data at_ out had =
    if ok then Ok (out ++ childBytes (unbound cs), had || existsb isBinding cs) else Err.
Proof.
  intros Hs. revert fuel out had.
  induction Hs as [at_ ->|at_ Hbad|at_ c next cs ok Hc Hs IH]; intros [|fuel] out had Hf;
    try (simpl in Hf; lia); cbn [copyUnbound unbound List.filter existsb].
  - rewrite Z.ltb_irrefl, orb_false_r. change (childBytes []) with (@nil Z). by rewrite app_nil_r.
  - bad_child Hbad.
  - destruct (child_loop_step _ _ _ _ Hc) as (->&->&_&H1&_&H3&H4&_&H6).
    destruct Hc as [_ -> -> Hnext _ _ _ _]. cbn [mbind res_bind]. cbv zeta.
    rewrite H1, H3, H4. cbn [orb]. fold (isBinding c). simpl in Hf.
    destruct (isBinding c); cbn [negb orb].
    + rewrite <- Hnext, IH by lia. by rewrite orb_true_r.
    + rewrite H6. cbn [mbind res_bind index]. rewrite <- Hnext, IH by lia.
      destruct ok; [|done]. by rewrite childBytes_cons, <- app_assoc.
Qed.

Lemma hasAssembly_loop_spec fuel data at_ cs ok :
  stream data at_ cs ok → (length cs < fuel)%nat →
  hasAssembly_loop fuel data at_ = Ok (existsb (λ c, c.1 =? TagRTGAssembly) cs).
Proof.
  intros Hs. revert fuel.
  induction Hs as [at_ ->|at_ Hbad|at_ c next cs ok Hc Hs IH]; intros [|fuel] Hf;
    try (simpl in Hf; lia); cbn [hasAssembly_loop existsb].
  - by rewrite (proj2 (Z.leb_gt _ _)) by lia.
  - bad_child Hbad.
  - destruct (child_loop_step _ _ _ _ Hc) as (_&_&->&H1&H2&_&H4&_&_).
    destruct Hc as [_ -> -> Hnext _ _ _ _]. cbn [mbind res_bind]. cbv zeta.
    rewrite H1, H2, H4. cbn [orb]. destruct (c.1 =? TagRTGAssembly); [done|]. cbn [orb].
    rewrite <- Hnext. apply IH. simpl in Hf. lia.
Qed.

(** The fuel of a loop over the whole unit. *)
Lemma stream_fuel data cs ok :
  14 ≤ lenZ data → stream data 14 cs ok → (length cs < S (length data))%nat.
Proof. intros Hl Hs. pose proof (stream_length _ _ _ _ Hs Hl). unfold lenZ in *. lia. Qed.

(** * Binding *)

Definition bindingChildren (b : TargetBinding) : list (Z * list Z) :=
  [(TagDefinitionTarget, tb_Target b); (TagDefinitionHash, tb_Definition b);
   (TagDescriptorVersion, versionBytes (tb_DescriptorVersion b))].

Lemma bindingChildren_bytes b :
  childBytes (bindingChildren b) =
    nodeBytes (TagDefinitionTarget, tb_Target b) ++ nodeBytes (TagDefinitionHash, tb_Definition b) ++
    nodeBytes (TagDescriptorVersion, versionBytes (tb_DescriptorVersion b)).
Proof. unfold bindingChildren. by rewrite !childBytes_cons, app_nil_r. Qed.

(** Appending a binding to any root, whatever length it carries. *)
Lemma patch_length data rest :
  14 ≤ lenZ data → take 10 data = unitHeader ++ bytes16 TagUnit →
  patchUint32Core (data ++ rest) 10 (lenZ (data ++ rest) - 14) =
    Ok (unitHeader ++ nodeBytes (TagUnit, drop 14 data ++ rest)).
Proof.
  intros Hl Ht. unfold lenZ in Hl.
  assert (∃ a b c d tl, drop 10 data = a :: b :: c :: d :: tl) as (a&b&c&d&tl&Hd).
  { assert (4 <= length (drop 10 data))%nat as Hle by (rewrite length_drop; lia).
    destruct (drop 10 data) as [|a [|b [|c [|d tl]]]]; simpl in Hle; try lia. eauto 10. }
  assert (drop 14 data = tl) as Htl
    by (change 14%nat with (10 + 4)%nat; rewrite <- drop_drop, Hd; done).
  rewrite Htl, <- (take_drop 10 data), Hd, Ht, <- app_assoc. cbn [app].
  replace (lenZ ((unitHeader ++ bytes16 TagUnit) ++ a :: b :: c :: d :: tl ++ rest) - 14)
    with (lenZ (tl ++ rest)) by (rewrite (lenZ_app (unitHeader ++ bytes16 TagUnit)), !lenZ_cons;
      change (lenZ (unitHeader ++ bytes16 TagUnit)) with 10; lia).
  rewrite patchUint32Core_app by done. unfold nodeBytes. cbn [fst snd]. by rewrite <- !app_assoc.
Qed.

Lemma appendTarget_spec data b :
  14 ≤ lenZ data → take 10 data = unitHeader ++ bytes16 TagUnit →
  appendTarget data b =
    Ok (unitHeader ++ nodeBytes (TagUnit, drop 14 data ++ childBytes (bindingChildren b))).
Proof.
  intros Hl Ht. unfold appendTarget. rewrite !appendStringNodeCore_app. cbv zeta.
  rewrite <- !app_assoc, patch_length by done. by rewrite bindingChildren_bytes.
Qed.

(** The first fourteen bytes of a unit. *)
Lemma unitOf_root cs :
  take 10 (unitOf cs) = unitHeader ++ bytes16 TagUnit ∧ drop 14 (unitOf cs) = childBytes cs.
Proof. split; reflexivity. Qed.

Lemma appendTarget_unit cs b :
  appendTarget (unitOf cs) b = Ok (unitOf (cs ++ bindingChildren b)).
Proof.
  destruct (unitOf_root cs) as [Ht Hd]. rewrite appendTarget_spec, Hd, <- childBytes_app; [done| |done].
  rewrite unitOf_length. pose proof (lenZ_nonneg (childBytes cs)). lia.
Qed.

(** Stores into the bytes after [pre]. *)
Lemma writeAll_app {A} (pre post xs : list A) :
  lenZ xs ≤ lenZ post →
  writeAll (pre ++ post) (lenZ pre) xs = Some (pre ++ xs ++ drop (length xs) post).
Proof.
  revert pre post. induction xs as [|x xs IH]; intros pre [|y post] Hl; cbn [writeAll]; try done.
  rewrite !lenZ_cons in Hl. rewrite insertZ_mid by done. cbn [mbind option_bind].
  replace (lenZ pre + 1) with (lenZ (pre ++ [x])) by (rewrite lenZ_app; done).
  replace (pre ++ x :: post) with ((pre ++ [x]) ++ post) by (by rewrite <- app_assoc).
  rewrite IH by lia. by rewrite <- app_assoc.
Qed.

Lemma writeNodeHeaderCore_app pre post tag size :
  6 ≤ lenZ post →
  writeNodeHeaderCore (pre ++ post) (lenZ pre) tag size =
    Ok ((pre ++ bytes16 tag ++ bytes32 size) ++ drop 6 post,
        lenZ (pre ++ bytes16 tag ++ bytes32 size)).
Proof.
  intros Hl. unfold writeNodeHeaderCore. rewrite writeAll_app by done.
  cbn [mbind res_bind index]. rewrite <- app_assoc. f_equal. f_equal.
  by rewrite lenZ_app.
Qed.

Lemma writeStringNodeCore_app pre post tag payload :
  6 + lenZ payload ≤ lenZ post →
  writeStringNodeCore (pre ++ post) (lenZ pre) tag payload =
    Ok ((pre ++ nodeBytes (tag, payload)) ++ drop (6 + length payload) post,
        lenZ (pre ++ nodeBytes (tag, payload))).
Proof.
  intros Hl. pose proof (lenZ_nonneg payload). unfold writeStringNodeCore.
  rewrite writeNodeHeaderCore_app by lia. cbn [mbind res_bind].
  rewrite writeAll_app by (unfold lenZ in *; rewrite length_drop; lia).
  cbn [mbind res_bind index]. rewrite drop_drop. unfold nodeBytes. cbn [fst snd].
  rewrite <- !app_assoc. f_equal. f_equal. rewrite !lenZ_app. lia.
Qed.

(** The three children are written over [fill]. *)
Lemma writeTarget_app data fill b :
  lenZ (tb_Definition b) = 32 → lenZ fill = 52 + lenZ (tb_Target b) →
  writeTarget (data ++ fill) (lenZ data) b =
    Ok (data ++ childBytes (bindingChildren b), lenZ (data ++ childBytes (bindingChildren b))).
Proof.
  intros Hdef Hfill. unfold writeTarget. pose proof (lenZ_nonneg (tb_Target b)).
  rewrite writeStringNodeCore_app by lia. cbn [mbind res_bind].
  rewrite writeStringNodeCore_app by (unfold lenZ in *; rewrite length_drop; lia).
  cbn [mbind res_bind].
  rewrite writeNodeHeaderCore_app by (unfold lenZ in *; rewrite !length_drop; lia).
  cbn [mbind res_bind]. rewrite !drop_drop. set (rest := drop _ fill).
  assert (length rest = 2)%nat as Hrest by (unfold rest, lenZ in *; rewrite length_drop; lia).
  destruct rest as [|x [|y [|]]]; try done. set (pre := _ ++ bytes16 _ ++ bytes32 _).
  rewrite insertZ_mid by done. cbn [mbind res_bind index].
  rewrite (app_assoc pre [_] [y] : pre ++ u8 (tb_DescriptorVersion b) :: [y] = _).
  rewrite insertZ_mid by (rewrite lenZ_app; done). cbn [mbind res_bind index].
  rewrite bindingChildren_bytes. unfold pre. rewrite <- !app_assoc. f_equal. f_equal.
  rewrite !lenZ_app. change (lenZ (nodeBytes (TagDescriptorVersion, _))) with 8.
  change (lenZ (bytes16 _)) with 2. change (lenZ (bytes32 _)) with 4. lia.
Qed.

(** Writing a binding into spare capacity appends it. *)
Lemma BindUnboundTarget_spec data spare b :
  bytes_ok data → validUnitRoot data = Ok true → bindingValid b = true →
  BindUnboundTarget data spare b =
    Ok (true, unitHeader ++ nodeBytes (TagUnit, drop 14 data ++ childBytes (bindingChildren b))).
Proof.
  intros Hb Hv Hbind. destruct (validUnitRoot_bytes data Hb Hv) as [Hl Hroot].
  assert (take 10 data = unitHeader ++ bytes16 TagUnit) as Ht.
  { transitivity (take 10 (sublistZ data 0 14)); [|by rewrite Hroot].
    unfold sublistZ. cbn [Z.to_nat drop]. by rewrite take_take. }
  unfold BindUnboundTarget. rewrite Hv, Hbind. cbn [mbind res_bind negb orb].
  unfold targetBindingFixedSize. cbv zeta.
  destruct (Z.ltb_spec (lenZ spare) (52 + lenZ (tb_Target b))) as [|Hcap].
  { by rewrite appendTarget_spec by (done || lia). }
  assert (lenZ (tb_Definition b) = 32) as Hdef.
  { unfold bindingValid in Hbind. destruct (Z.eqb_spec (lenZ (tb_Definition b)) 32); [done|].
    by rewrite orb_true_r in Hbind. }
  pose proof (lenZ_nonneg (tb_Target b)). pose proof (lenZ_nonneg spare).
  rewrite sliceZ_Some by (rewrite ?lenZ_app; lia). cbn [mbind res_bind index].
  set (fill := take (Z.to_nat (52 + lenZ (tb_Target b))) spare).
  assert (sublistZ (data ++ spare) 0 (lenZ data + (52 + lenZ (tb_Target b))) = data ++ fill) as ->.
  { unfold sublistZ, fill. rewrite Z.sub_0_r, drop_0, firstn_app.
    f_equal; [apply take_ge|f_equal]; unfold lenZ; lia. }
  assert (lenZ fill = 52 + lenZ (tb_Target b)) as Hfill
    by (unfold fill, lenZ in *; rewrite length_take; lia).
  rewrite writeTarget_app by done. cbn [mbind res_bind]. rewrite Z.eqb_refl. cbn [negb].
  by rewrite patch_length by (done || lia).
Qed.

(** * Reading back *)

(** What [Unmarshal] skips: the tags of a binding are not in the schema. *)
Lemma isBinding_unknown c : isBinding c = true → unknown_tag c.1.
Proof.
  unfold isBinding. rewrite !orb_true_iff, !Z.eqb_eq. by intros [[-> | ->]| ->].
Qed.

Lemma visitAll_unbound cs sc : visitAll (unbound cs) sc = visitAll cs sc.
Proof.
  revert sc. induction cs as [|c cs IH]; intros sc; [done|].
  cbn [unbound List.filter visitAll]. fold (unbound cs).
  destruct (isBinding c) eqn:Hc; cbn [negb visitAll].
  - rewrite visitChild_unknown by by apply isBinding_unknown. apply IH.
  - destruct (visitChild c.1 c.2 sc); [apply IH|done..].
Qed.

Lemma visitBindings_unbound cs st : visitBindings (unbound cs) st = Ok st.
Proof.
  induction cs as [|c cs IH]; [done|]. cbn [unbound List.filter]. fold (unbound cs).
  destruct (isBinding c) eqn:Hc; cbn [negb visitBindings]; [done|].
  assert (visitBinding c.1 c.2 st = Ok st) as ->; [|done].
  unfold isBinding in Hc. unfold visitBinding. destruct st as [[] ? ? ?].
  destruct (c.1 =? TagDefinitionTarget), (c.1 =? TagDefinitionHash), (c.1 =? TagDescriptorVersion);
    done.
Qed.

Lemma visitBindings_app c1 c2 st :
  visitBindings (c1 ++ c2) st = (st ← visitBindings c1 st; visitBindings c2 st).
Proof.
  revert st. induction c1 as [|c c1 IH]; intros st; cbn [app visitBindings]; [done|].
  destruct (visitBinding c.1 c.2 st); cbn [mbind res_bind]; [apply IH|done..].
Qed.

Lemma bindingValid_inv b :
  bindingValid b = true →
  lenZ (tb_Target b) ≠ 0 ∧ lenZ (tb_Definition b) = 32 ∧ 0 < tb_DescriptorVersion b.
Proof. unfold bindingValid. intros H. lia. Qed.

Lemma visitBindings_children b :
  bindingValid b = true →
  visitBindings (bindingChildren b) (BindingState (MkTarget [] [] 0) false false false) =
    Ok (BindingState (MkTarget (tb_Target b) (tb_Definition b) (u16 (tb_DescriptorVersion b)))
      true true true).
Proof.
  intros (Ht&Hd&_)%bindingValid_inv. unfold bindingChildren. cbn [visitBindings fst snd].
  change (visitBinding TagDefinitionTarget ?p (BindingState (MkTarget [] [] 0) false false false))
    with (if lenZ p =? 0 then Err else Ok (BindingState (MkTarget p [] 0) true false false)).
  rewrite (proj2 (Z.eqb_neq _ 0)) by done. cbn [mbind res_bind].
  change (visitBinding TagDefinitionHash ?p (BindingState (MkTarget ?t [] 0) true false false))
    with (if negb (lenZ p =? 32) then Err else Ok (BindingState (MkTarget t p 0) true true false)).
  rewrite Hd, Z.eqb_refl. cbn [negb mbind res_bind].
  change (visitBinding TagDescriptorVersion (versionBytes ?v)
      (BindingState (MkTarget ?t ?d 0) true true false))
    with (Ok (BindingState (MkTarget t d (le16 (u8 v) (u8 (Z.shiftr v 8)))) true true true)).
  by rewrite le16_bytes.
Qed.

(** A unit with a binding after other children. *)
Definition bound (cs : list (Z * list Z)) (b : TargetBinding) : list (Z * list Z) :=
  unbound cs ++ bindingChildren b.

Lemma ReadTargetBinding_stream data cs ok :
  bytes_ok data → validUnitRoot data = Ok true → stream data 14 cs ok →
  ReadTargetBinding data =
    (st ← (st ← visitBindings cs (BindingState (MkTarget [] [] 0) false false false);
           if ok then Ok st else Err);
     let 'BindingState binding haveTarget haveHash haveVersion := st in
     if negb haveTarget && negb haveHash && negb haveVersion then Err
     else
       _ ← check (haveTarget && haveHash && haveVersion && (0 <? tb_DescriptorVersion binding));
       Ok binding).
Proof.
  intros Hb Hv Hs. destruct (validUnitRoot_bytes data Hb Hv) as [Hl _].
  unfold ReadTargetBinding, checkRoot. rewrite Hv. cbn [mbind res_bind check].
  by rewrite (readBinding_loop_spec _ _ _ cs ok) by (done || by eapply stream_fuel; [lia|]).
Qed.

Lemma ReadTargetBinding_bound cs b :
  validUnitRoot (unitOf (bound cs b)) = Ok true → stream (unitOf (bound cs b)) 14 (bound cs b) true →
  bytes_ok (unitOf (bound cs b)) → bindingValid b = true → tb_DescriptorVersion b < 2 ^ 16 →
  ReadTargetBinding (unitOf (bound cs b)) = Ok b.
Proof.
  intros Hv Hs Hb Hbind Hver. rewrite (ReadTargetBinding_stream _ _ true) by done.
  unfold bound. rewrite visitBindings_app, visitBindings_unbound. cbn [mbind res_bind].
  rewrite visitBindings_children by done. cbn [mbind res_bind negb andb].
  destruct (bindingValid_inv _ Hbind) as (_&_&H0). unfold u16. rewrite Z.mod_small by lia.
  rewrite (proj2 (Z.ltb_lt _ _)) by done. cbn. by destruct b.
Qed.

(** The bytes of the children. *)
Lemma children_bytes cs : bytes_ok (childBytes cs) → Forall (λ c, bytes_ok c.2) cs.
Proof.
  induction cs as [|c cs IH]; intros Hb; [done|]. rewrite childBytes_cons in Hb.
  unfold nodeBytes in Hb. rewrite !Forall_app in Hb. constructor; [tauto|]. apply IH. tauto.
Qed.

(** Patching the length of a root followed by children. *)
Lemma patch_unit root cs :
  lenZ root = 14 → take 10 root = unitHeader ++ bytes16 TagUnit →
  patchUint32Core (root ++ childBytes cs) 10 (lenZ (root ++ childBytes cs) - 14) = Ok (unitOf cs).
Proof.
  intros Hl Ht. rewrite patch_length by (done || lia).
  rewrite drop_ge by (unfold lenZ in Hl; lia). done.
Qed.

Lemma root_take data :
  14 ≤ lenZ data → sublistZ data 0 14 = unitHeader ++ bytes16 TagUnit ++ bytes32 (lenZ data - 14) →
  lenZ (sublistZ data 0 14) = 14 ∧ take 10 (sublistZ data 0 14) = unitHeader ++ bytes16 TagUnit.
Proof. intros Hl ->. done. Qed.
