(* ===== verification/CoreForeign.v ===== *)
(** Optional children of a unit (internal/unit/foreign.go): the selected
    entrypoint and the table of foreign programs. *)

From S2P Require Import Prelude.
From S2P Require Import GoInt.
From S2P Require Import WireReader.
From S2P Require Import WireUnit.
From S2P Require Import CoreModel.
From S2P Require Import CoreMarshal.
From S2P Require Import CoreBinding.

(** * The reader *)

(** The methods of the reader keep reading after a failure: [ok] records it. *)
Record foreignReader := FR { fr_data : list Z; fr_pos : Z; fr_ok : bool }.

Definition fr_advance (n : Z) : GoM foreignReader unit :=
  modify (λ r, FR (fr_data r) (fr_pos r + n) (fr_ok r)).
Definition fr_fail : GoM foreignReader unit := modify (λ r, FR (fr_data r) (fr_pos r) false).

(** The loop condition admits five iterations. *)
Fixpoint foreignVarint_loop (fuel : nat) (value shift : Z) : GoM foreignReader Z :=
  match fuel with
  | O => _ ← fr_fail; mret (-1)
  | S fuel =>
      r ← get;
      if (fr_pos r <? lenZ (fr_data r)) && (shift <=? 28) then
        part ← lift (fr_data r !!z fr_pos r);
        _ ← fr_advance 1;
        if (shift =? 28) && (16 <=? part) then _ ← fr_fail; mret (-1)
        else
          let value := Z.lor value (Z.shiftl (Z.land part 127) shift) in
          if part <? 128 then
            _ ← (if (0 <? shift) && (part =? 0) then fr_fail else mret tt);
            mret value
          else foreignVarint_loop fuel value (shift + 7)
      else _ ← fr_fail; mret (-1)
  end.

Definition foreignVarint : GoM foreignReader Z :=
  r ← get;
  if negb (fr_ok r) || (lenZ (fr_data r) <=? fr_pos r) then _ ← fr_fail; mret (-1)
  else foreignVarint_loop 6 0 0.

Definition foreignBytes : GoM foreignReader (list Z) :=
  length ← foreignVarint;
  r ← get;
  if negb (fr_ok r) || (length <? 0) || (fr_pos r + length <? fr_pos r) ||
     (lenZ (fr_data r) <? fr_pos r + length) then _ ← fr_fail; mret []
  else
    value ← lift (sliceZ (fr_data r) (fr_pos r) (fr_pos r + length));
    _ ← fr_advance length;
    mret value.

(** * Finding a child *)

Definition readUint32Foreign (data : list Z) (at_ : Z) : res Z :=
  if (at_ <? 0) || (lenZ data <? at_ + 4) then Ok (-1) else uint32At data at_.

(** The loop of [findOptionalChild]: the position and payload of the child, if
    there is one. *)
Fixpoint findChild_loop (fuel : nat) (data : list Z) (wanted pos : Z)
    : res (option (Z * list Z)) :=
  match fuel with
  | O => Err
  | S fuel =>
      if pos <? lenZ data then
        if lenZ data <? pos + 6 then Err
        else
          tag ← uint16At data pos;
          length ← readUint32Foreign data (pos + 2);
          let start := pos + 6 in
          let next := start + length in
          if (length <? 0) || (next <? start) || (lenZ data <? next) then Err
          else if tag =? wanted then
            payload ← index (sliceZ data start next); Ok (Some (pos, payload))
          else findChild_loop fuel data wanted next
      else Ok None
  end.

Definition findOptionalChild (data : list Z) (wanted : Z) : res (option (Z * list Z)) :=
  _ ← checkRoot data; findChild_loop (S (length data)) data wanted 14.

(** * Adding a child *)

Definition appendOptionalChild (data : list Z) (tag : Z) (payload : list Z) : res (list Z) :=
  found ← findOptionalChild data tag;
  match found with
  | Some _ => Err
  | None =>
      let out := appendNode data tag payload in
      patchUint32Core out 10 (lenZ out - 14)
  end.

Definition BindEntrypoint (data : list Z) (function : Z) : res (list Z) :=
  if function <? 0 then Err
  else appendOptionalChild data TagEntrypoint (appendVarint [] function).

Definition BindForeignPrograms (data : list Z) (programs : list ForeignProgram) : res (list Z) :=
  if lenZ programs =? 0 then Ok data
  else appendOptionalChild data TagForeignPrograms (encodeForeignProgramsCore programs).

(** * Foreign programs *)

(** The conditions under which [ReadForeignPrograms] refuses a record. *)
Definition foreignRefused (program : ForeignProgram) (state : Z) (payload : list Z) : bool :=
  (fp_Global program <? 0) || (state <? 1) || (4 <? state) || (lenZ payload =? 0) ||
  (fp_Kind program <? ForeignProgramBytes) || (ForeignProgramEntrypoint <? fp_Kind program) ||
  ((0 <? lenZ (fp_Unit program)) && (lenZ (fp_Target program) =? 0)) ||
  (fp_EntryOffset program <? 0) ||
  ((fp_Kind program =? ForeignProgramBytes) && negb (fp_EntryOffset program =? 0)) ||
  ((state =? 4) && (lenZ (fp_Artifact program) <=? fp_EntryOffset program)).

(** The body of the loop of [ReadForeignPrograms]. *)
Definition readForeign : GoM foreignReader ForeignProgram :=
  global ← foreignVarint;
  state ← foreignVarint;
  payload ← foreignBytes;
  entryOffset ← foreignVarint;
  let kind := if 2 <? state then state - 2 else state in
  target ← (if 2 <? state then mret []
            else
              match ReadTargetBinding payload with
              | Ok binding => mret (tb_Target binding)
              | Err => mret []
              | Panic => lift None
              end);
  let program :=
    MkForeign [] global kind target (kind =? ForeignProgramEntrypoint)
      (if 2 <? state then [] else payload) (if 2 <? state then payload else []) entryOffset in
  _ ← (if foreignRefused program state payload then fr_fail else mret tt);
  mret program.

(** [for i := 0; i < count && r.ok; i++] *)
Fixpoint readForeigns (n : nat) (programs : list ForeignProgram)
    : GoM foreignReader (list ForeignProgram) :=
  match n with
  | O => mret programs
  | S n =>
      r ← get;
      if negb (fr_ok r) then mret programs
      else program ← readForeign; readForeigns n (programs ++ [program])
  end.

(** Absence of the child is a successful empty result.  A negative count makes
    [make] panic. *)
Definition ReadForeignPrograms (data : list Z) : res (list ForeignProgram) :=
  found ← findOptionalChild data TagForeignPrograms;
  match found with
  | None => Ok []
  | Some (_, payload) =>
      '(programs, r) ← index ((
        count ← foreignVarint;
        _ ← lift (if count <? 0 then None else Some tt);
        readForeigns (Z.to_nat count) []) (FR payload 0 true));
      if negb (fr_ok r) || negb (fr_pos r =? lenZ (fr_data r)) then Err else Ok programs
  end.

Definition ResolveForeignPrograms (data : list Z) (programs : list ForeignProgram)
    : res (list Z) :=
  found ← findOptionalChild data TagForeignPrograms;
  match found with
  | None => Err
  | Some (at_, _) =>
      if lenZ programs =? 0 then Err
      else
        let payload := encodeForeignProgramsCore programs in
        oldLength ← readUint32Foreign data (at_ + 2);
        let oldEnd := at_ + 6 + oldLength in
        before ← index (sliceZ data 0 at_);
        let out := appendNode before TagForeignPrograms payload in
        after ← index (sliceZ data oldEnd (lenZ data));
        let out := out ++ after in
        patchUint32Core out 10 (lenZ out - 14)
  end.
