(* ===== verification/CoreForeignFacts.v ===== *)
(** The optional children of a unit: where they are found, and that the table of
    foreign programs reads back.

    What [Unmarshal] makes of a unit whose optional children change. *)

From stdpp Require Import gmap.
From S2P Require Import Prelude.
From S2P Require Import GoInt.
From S2P Require Import WireReader.
From S2P Require Import WireFacts.
From S2P Require Import WireUnit.
From S2P Require Import WireUnitFacts.
From S2P Require Import WireCanonical.
From S2P Require Import WireSafety.
From S2P Require Import CoreModel.
From S2P Require Import CoreMarshal.
From S2P Require Import CoreMarshalFacts.
From S2P Require Import CoreBinding.
From S2P Require Import CoreStream.
From S2P Require Import CoreBindingFacts.
From S2P Require Import CoreForeign.

(** * Finding a child *)

(** The first child with a tag: its position and its payload. *)
Fixpoint locate (cs : list (Z * list Z)) (wanted pos : Z) : option (Z * list Z) :=
  match cs with
  | [] => None
  | c :: cs =>
      if c.1 =? wanted then Some (pos, c.2) else locate cs wanted (pos + 6 + lenZ c.2)
  end.

Lemma readUint32Foreign_in data at_ :
  0 ≤ at_ → at_ + 4 ≤ lenZ data → readUint32Foreign data at_ = uint32At data at_.
Proof.
  intros ??. unfold readUint32Foreign. destruct (Z.ltb_spec at_ 0); [lia|].
  by destruct (Z.ltb_spec (lenZ data) (at_ + 4)); [lia|].
Qed.

Lemma findChild_loop_spec fuel data wanted pos cs ok :
  stream data pos cs ok → (length cs < fuel)%nat →
  findChild_loop fuel data wanted pos =
    match locate cs wanted pos with
    | Some found => Ok (Some found)
    | None => if ok then Ok None else Err
    end.
Proof.
  intros Hs. revert fuel.
  induction Hs as [pos ->|pos Hbad|pos c next cs ok Hc Hs IH]; intros [|fuel] Hf;
    try (simpl in Hf; lia); cbn [findChild_loop locate].
  - by rewrite Z.ltb_irrefl.
  - destruct Hbad as [? ? ?|tag size ? ? Htag Hsize ? ?].
    { by rewrite !(proj2 (Z.ltb_lt _ _)) by lia. }
    rewrite readUint32Foreign_in, Htag, Hsize by lia. cbn [mbind res_bind]. cbv zeta.
    rewrite (proj2 (Z.ltb_lt pos _)), (proj2 (Z.ltb_ge _ (pos + 6))) by lia.
    by destruct (Z.ltb_spec size 0), (Z.ltb_spec (pos + 6 + size) (pos + 6)),
      (Z.ltb_spec (lenZ data) (pos + 6 + size)); try lia.
  - destruct (child_loop_step _ _ _ _ Hc) as (->&->&_&H1&H2&_&H4&H5&_).
    destruct Hc as [? Htag Hsize Hnext Hend _ _ _]. pose proof (lenZ_nonneg c.2).
    rewrite readUint32Foreign_in, Htag, Hsize by lia. cbn [mbind res_bind]. cbv zeta.
    rewrite H1, H2, H4. cbn [orb]. destruct (c.1 =? wanted); [by rewrite H5|].
    rewrite <- Hnext. apply IH. simpl in Hf. lia.
Qed.

Lemma findOptionalChild_stream data wanted cs ok :
  bytes_ok data → validUnitRoot data = Ok true → stream data 14 cs ok →
  findOptionalChild data wanted =
    match locate cs wanted 14 with
    | Some found => Ok (Some found)
    | None => if ok then Ok None else Err
    end.
Proof.
  intros Hb Hv Hs. destruct (validUnitRoot_bytes data Hb Hv) as [Hl _].
  unfold findOptionalChild, checkRoot. rewrite Hv. cbn [mbind res_bind check].
  apply findChild_loop_spec; [done|]. by eapply stream_fuel; [lia|].
Qed.

Lemma locate_none cs wanted pos : locate cs wanted pos = None ↔ (wanted ∉ cs.*1).
Proof.
  revert pos. induction cs as [|c cs IH]; intros pos; cbn [locate].
  { split; [|done]. intros _. apply not_elem_of_nil. }
  rewrite fmap_cons, not_elem_of_cons. destruct (Z.eqb_spec c.1 wanted) as [Heq|].
  - split; [done|]. intros [Hne _]. by rewrite Heq in Hne.
  - rewrite IH. split; [|by intros [_ ?]]. intros ?. split; [congruence|done].
Qed.

Lemma locate_app cs1 cs2 wanted pos :
  wanted ∉ cs1.*1 → locate (cs1 ++ cs2) wanted pos = locate cs2 wanted (pos + lenZ (childBytes cs1)).
Proof.
  revert pos. induction cs1 as [|c cs1 IH]; intros pos.
  { intros _. change (lenZ (childBytes [])) with 0. by rewrite Z.add_0_r. }
  rewrite fmap_cons, not_elem_of_cons. intros [Hne Hin]. cbn [app locate].
  rewrite (proj2 (Z.eqb_neq _ _)) by done. rewrite IH by done. f_equal.
  rewrite childBytes_cons, lenZ_app, nodeBytes_length. lia.
Qed.

(** The child found splits the children. *)
Lemma locate_some cs wanted pos at_ payload :
  locate cs wanted pos = Some (at_, payload) →
  ∃ c1 c2, cs = c1 ++ (wanted, payload) :: c2 ∧ (wanted ∉ c1.*1) ∧ at_ = pos + lenZ (childBytes c1).
Proof.
  revert pos. induction cs as [|c cs IH]; intros pos; cbn [locate]; [done|].
  destruct (Z.eqb_spec c.1 wanted) as [<-|Hne].
  - intros [= <- <-]. exists [], cs. split_and!.
    + by destruct c.
    + apply not_elem_of_nil.
    + change (lenZ (childBytes [])) with 0. lia.
  - intros (c1&c2&->&Hin&->)%IH. exists (c :: c1), c2. split_and!; [done| |].
    + rewrite fmap_cons. by apply not_elem_of_cons.
    + rewrite childBytes_cons, lenZ_app, nodeBytes_length. lia.
Qed.

(** * Appending a child *)

Lemma appendNode_unit cs c :
  (let out := appendNode (unitOf cs) c.1 c.2 in patchUint32Core out 10 (lenZ out - 14)) =
    Ok (unitOf (cs ++ [c])).
Proof.
  destruct (unitOf_root cs) as [Ht Hd]. cbv zeta. rewrite appendNode_app, patch_length, Hd.
  - unfold unitOf. rewrite childBytes_app. do 4 f_equal. change (childBytes [c]) with (nodeBytes c ++ []).
    rewrite app_nil_r. by destruct c.
  - rewrite unitOf_length. pose proof (lenZ_nonneg (childBytes cs)). lia.
  - exact Ht.
Qed.

Lemma appendOptionalChild_inv data tag payload out :
  bytes_ok data → appendOptionalChild data tag payload = Ok out →
  ∃ cs, data = unitOf cs ∧ Forall child_ok cs ∧ too_big (childBytes cs) = false ∧
    (tag ∉ cs.*1) ∧ out = unitOf (cs ++ [(tag, payload)]).
Proof.
  intros Hb Ha. unfold appendOptionalChild in Ha.
  assert (∃ valid, validUnitRoot data = Ok valid) as [[] Hv] by by apply validUnitRoot_total.
  2:{ unfold findOptionalChild, checkRoot in Ha. by rewrite Hv in Ha. }
  destruct (validUnitRoot_bytes data Hb Hv) as [Hl _].
  destruct (stream_total data 14 Hb ltac:(lia)) as (cs&ok&Hs).
  rewrite (findOptionalChild_stream _ _ cs ok) in Ha by done.
  destruct (locate cs tag 14) eqn:Hloc; [done|]. destruct ok; [|done].
  destruct (valid_unit data cs Hb Hv Hs) as (->&Hok&Hbig). exists cs.
  apply locate_none in Hloc. split_and!; try done.
  cbn [mbind res_bind] in Ha. pose proof (appendNode_unit cs (tag, payload)) as Hn.
  cbn [fst snd] in Hn. cbv zeta in Hn. congruence.
Qed.

(** * Reading foreign programs *)

(** The loop agrees with [readVarint]; after a failure [ok] is cleared. *)
Lemma foreignVarint_loop_spec fuel value shift data pos :
  shift ≤ 28 ∨ (fuel = 0)%nat ∨ 28 < shift → shift `mod` 7 = 0 →
  match readVarint_loop fuel value shift data pos with
  | Ok (v, next) => foreignVarint_loop fuel value shift (FR data pos true) = Some (v, FR data next true)
  | Err => ∃ v next, foreignVarint_loop fuel value shift (FR data pos true) = Some (v, FR data next false)
  | Panic => foreignVarint_loop fuel value shift (FR data pos true) = None
  end.
Proof.
  intros _. revert value shift pos. induction fuel as [|fuel IH]; intros value shift pos Hm;
    cbn [readVarint_loop foreignVarint_loop]; [by eexists _, _|].
  unfold mbind, GoM_bind, get, lift, fr_advance, fr_fail, modify, mret, GoM_ret.
  cbn [fr_pos fr_data fr_ok].
  destruct ((pos <? lenZ data) && (shift <=? 28)) eqn:Hcond; [|by eexists _, _].
  apply andb_true_iff in Hcond as [_ Hs%Z.leb_le].
  destruct (data !!z pos) as [part|]; [|done]. cbn [fr_pos fr_data fr_ok].
  assert ((28 <=? shift) = (shift =? 28)) as -> by lia.
  destruct ((shift =? 28) && (16 <=? part)) eqn:Hlast; [by eexists _, _|].
  destruct (part <? 128).
  - destruct ((0 <? shift) && (part =? 0)); [by eexists _, _|done].
  - apply IH. Z.div_mod_to_equations. lia.
Qed.

Abbreviation FR_at := (λ data pos, FR data pos true).

Lemma yields_varint v : u32_ok v → yields FR_at foreignVarint (varint v) v.
Proof.
  intros Hv pre post. unfold foreignVarint, mbind, GoM_bind, get. cbn [fr_ok fr_data fr_pos negb orb].
  pose proof (foreignVarint_loop_spec 6 0 0 (pre ++ varint v ++ post) (lenZ pre)
    ltac:(left; lia) ltac:(done)) as Hl.
  fold readVarint in Hl. rewrite (reads_varint v Hv pre post) in Hl.
  destruct (Z.leb_spec (lenZ (pre ++ varint v ++ post)) (lenZ pre)) as [Hle|]; [|exact Hl].
  rewrite !lenZ_app in Hle. pose proof (lenZ_nonneg post). unfold u32_ok in Hv.
  pose proof (varint_length 4 v). change (2 ^ (7 * Z.of_nat 5)) with (2 ^ 35) in *. lia.
Qed.

Lemma yields_bytes bs : u32_ok (lenZ bs) → yields FR_at foreignBytes (varint (lenZ bs) ++ bs) bs.
Proof.
  intros Hb. unfold foreignBytes. eapply yields_bind; [by apply yields_varint|].
  intros pre post. unfold mbind, GoM_bind, get. cbn [fr_ok fr_data fr_pos negb orb].
  pose proof (lenZ_nonneg pre). pose proof (lenZ_nonneg bs). pose proof (lenZ_nonneg post).
  rewrite !lenZ_app. destruct (Z.ltb_spec (lenZ bs) 0); [lia|].
  destruct (Z.ltb_spec (lenZ pre + lenZ bs) (lenZ pre)); [lia|].
  destruct (Z.ltb_spec (lenZ pre + (lenZ bs + lenZ post)) (lenZ pre + lenZ bs)); [lia|].
  cbn [orb]. rewrite sliceZ_Some by (rewrite ?lenZ_app; lia). by rewrite sublistZ_app_exact.
Qed.

(** The records that the table carries, and what is read back of each: the name is
    dropped, and the target is that of the unit. *)
Definition unitTarget (data : list Z) : list Z :=
  match ReadTargetBinding data with Ok binding => tb_Target binding | _ => [] end.

Definition readBack (p : ForeignProgram) : ForeignProgram :=
  if 0 <? lenZ (fp_Artifact p) then
    MkForeign [] (fp_Global p) (fp_Kind p) [] (fp_Kind p =? ForeignProgramEntrypoint) []
      (fp_Artifact p) (fp_EntryOffset p)
  else
    MkForeign [] (fp_Global p) (fp_Kind p) (unitTarget (fp_Unit p))
      (fp_Kind p =? ForeignProgramEntrypoint) (fp_Unit p) [] (fp_EntryOffset p).

Definition foreign_ok (p : ForeignProgram) : Prop :=
  u32_ok (fp_Global p) ∧ u32_ok (fp_EntryOffset p) ∧ 1 ≤ fp_Kind p ≤ 2 ∧
  (fp_Kind p = 1 → fp_EntryOffset p = 0) ∧
  if 0 <? lenZ (fp_Artifact p) then
    u32_ok (lenZ (fp_Artifact p)) ∧ (fp_Kind p = 2 → fp_EntryOffset p < lenZ (fp_Artifact p))
  else u32_ok (lenZ (fp_Unit p)) ∧ ∃ binding, ReadTargetBinding (fp_Unit p) = Ok binding.

(** A binding that was read has a target. *)
Definition target_read (st : bindingState) : Prop :=
  bs_haveTarget st = true → lenZ (tb_Target (bs_binding st)) ≠ 0.

Lemma visitBinding_target tag payload st st' :
  target_read st → visitBinding tag payload st = Ok st' → target_read st'.
Proof.
  unfold target_read, visitBinding. destruct st as [[t d v] ht hh hv]. intros Hst.
  destruct (tag =? TagDefinitionTarget).
  { destruct (ht || _) eqn:Ht; [done|]. intros [= <-] _. cbn. lia. }
  destruct (tag =? TagDefinitionHash); [destruct (hh || _); [done|by intros [= <-]]|].
  destruct (tag =? TagDescriptorVersion); [|by intros [= <-]].
  destruct (hv || _); [done|]. destruct (uint16At payload 0); [by intros [= <-]|done..].
Qed.

Lemma readBinding_loop_target fuel data at_ st st' :
  target_read st → readBinding_loop fuel data at_ st = Ok st' → target_read st'.
Proof.
  revert at_ st. induction fuel as [|fuel IH]; intros at_ st Hst; cbn [readBinding_loop]; [done|].
  destruct (at_ <? lenZ data); [|by intros [= <-]]. destruct (lenZ data <? at_ + 6); [done|].
  destruct (uint16At data at_) as [tag| |]; [|done..].
  destruct (uint32At data (at_ + 2)) as [size| |]; [|done..]. cbn [mbind res_bind]. cbv zeta.
  destruct (_ || _); [done|]. destruct (sliceZ _ _ _) as [payload|]; [|done].
  cbn [mbind res_bind index]. destruct (visitBinding tag payload st) as [st1| |] eqn:Hv; [|done..].
  cbn [mbind res_bind]. apply IH. by eapply visitBinding_target.
Qed.

Lemma ReadTargetBinding_target data b :
  ReadTargetBinding data = Ok b → lenZ (tb_Target b) ≠ 0 ∧ 0 < lenZ data.
Proof.
  unfold ReadTargetBinding. intros H. split.
  - destruct (checkRoot data) as [[]| |]; [|done..]. cbn [mbind res_bind] in H.
    destruct (readBinding_loop _ _ _ _) as [st| |] eqn:Hl; [|done..]. cbn [mbind res_bind] in H.
    apply readBinding_loop_target in Hl; [|done]. destruct st as [bd ht hh hv].
    destruct (negb ht && _ && _); [done|]. unfold target_read in Hl. cbn [bs_haveTarget bs_binding] in Hl.
    destruct ht; [|done]. cbn [andb] in H. destruct (hh && hv && _); [|done].
    injection H as <-. by apply Hl.
  - unfold checkRoot, validUnitRoot in H. destruct (Z.ltb_spec (lenZ data) 14); [done|lia].
Qed.

(** One record. *)
Definition foreignBytesOf (p : ForeignProgram) : list Z := appendForeign [] p.

Lemma appendForeign_app out p : appendForeign out p = out ++ foreignBytesOf p.
Proof.
  unfold foreignBytesOf, appendForeign. cbv zeta.
  destruct (if 0 <? lenZ (fp_Artifact p) then _ else _) as [state payload].
  rewrite !appendVarint_app, app_nil_l. by rewrite <- !app_assoc.
Qed.

Lemma yields_foreign p : foreign_ok p → yields FR_at readForeign (foreignBytesOf p) (readBack p).
Proof.
  intros (Hg&He&Hk&Hk1&Hp). unfold foreignBytesOf, appendForeign, readBack.
  destruct (Z.ltb_spec 0 (lenZ (fp_Artifact p))) as [Ha|Ha].
  - destruct Hp as [Hlen Hentry]. cbv zeta. rewrite !appendVarint_app, app_nil_l, <- !app_assoc.
    eapply yields_bind; [by apply yields_varint|].
    eapply yields_bind; [apply yields_varint; unfold u32_ok; lia|].
    rewrite app_assoc. eapply yields_bind; [by apply yields_bytes|].
    rewrite <- (app_nil_r (varint (fp_EntryOffset p))).
    eapply yields_bind; [by apply yields_varint|]. cbv zeta.
    assert ((2 <? fp_Kind p + 2) = true) as -> by lia.
    replace (fp_Kind p + 2 - 2) with (fp_Kind p) by lia.
    assert (∀ f, foreignRefused (MkForeign [] (fp_Global p) (fp_Kind p) [] f [] (fp_Artifact p)
      (fp_EntryOffset p)) (fp_Kind p + 2) (fp_Artifact p) = false) as Hr.
    { intros f. unfold foreignRefused, ForeignProgramBytes, ForeignProgramEntrypoint. cbn.
      change (lenZ []) with 0. unfold u32_ok in *. 
      destruct (decide (fp_Kind p = 1)) as [Hk'|]; [specialize (Hk1 Hk')|specialize (Hentry ltac:(lia))]; lia. }
    intros pre post. unfold mbind, GoM_bind, mret, GoM_ret. rewrite Hr.
    change (lenZ []) with 0. by rewrite Z.add_0_r.
  - destruct Hp as [Hlen [b Hb]]. cbv zeta. rewrite !appendVarint_app, app_nil_l, <- !app_assoc.
    destruct (ReadTargetBinding_target _ _ Hb) as [Ht Hu].
    eapply yields_bind; [by apply yields_varint|].
    eapply yields_bind; [apply yields_varint; unfold u32_ok; lia|].
    rewrite app_assoc. eapply yields_bind; [by apply yields_bytes|].
    rewrite <- (app_nil_r (varint (fp_EntryOffset p))).
    eapply yields_bind; [by apply yields_varint|]. cbv zeta.
    assert ((2 <? fp_Kind p) = false) as -> by lia. unfold unitTarget. rewrite Hb.
    assert (∀ f, foreignRefused (MkForeign [] (fp_Global p) (fp_Kind p) (tb_Target b) f (fp_Unit p) []
      (fp_EntryOffset p)) (fp_Kind p) (fp_Unit p) = false) as Hr.
    { intros f. unfold foreignRefused, ForeignProgramBytes, ForeignProgramEntrypoint. cbn.
      pose proof (lenZ_nonneg (tb_Target b)). unfold u32_ok in *.
      destruct (decide (fp_Kind p = 1)) as [Hk'|]; [specialize (Hk1 Hk')|]; lia. }
    intros pre post. unfold mbind, GoM_bind, mret, GoM_ret. rewrite Hr.
    change (lenZ []) with 0. by rewrite Z.add_0_r.
Qed.

Lemma foldl_foreign out l : foldl appendForeign out l = out ++ foldl appendForeign [] l.
Proof. apply foldl_appends. apply appendForeign_app. Qed.

Lemma foreigns_length programs :
  lenZ programs ≤ lenZ (encodeForeignProgramsCore programs).
Proof.
  unfold encodeForeignProgramsCore. rewrite foldl_foreign, lenZ_app.
  pose proof (lenZ_nonneg (appendVarint [] (lenZ programs))).
  assert (lenZ programs ≤ lenZ (foldl appendForeign [] programs)); [|lia].
  apply foldl_length; [apply appendForeign_app|]. intros p. unfold appendForeign. cbv zeta.
  destruct (if 0 <? lenZ (fp_Artifact p) then _ else _) as [state payload].
  rewrite !appendVarint_app, app_nil_l, <- !app_assoc, lenZ_app.
  pose proof (varint_pos (fp_Global p)).
  match goal with |- 1 ≤ _ + ?r => assert (0 ≤ r) by apply lenZ_nonneg end. lia.
Qed.

Lemma yields_foreigns acc programs :
  Forall foreign_ok programs →
  yields FR_at (readForeigns (length programs) acc) (foldl appendForeign [] programs)
    (acc ++ (readBack <$> programs)).
Proof.
  intros Hok. revert acc. induction Hok as [|p programs Hp _ IH]; intros acc;
    cbn [length readForeigns foldl].
  { rewrite fmap_nil, app_nil_r. apply yields_ret. }
  fold (foreignBytesOf p). rewrite foldl_foreign.
  intros pre post. pose proof (yields_bind FR_at readForeign (λ program, readForeigns (length programs)
    (acc ++ [program])) _ _ _ _ (yields_foreign p Hp) (IH (acc ++ [readBack p])) pre post) as Hy. rewrite fmap_cons.
  replace (acc ++ readBack p :: (readBack <$> programs))
    with ((acc ++ [readBack p]) ++ (readBack <$> programs)) by by rewrite <- app_assoc.
  exact Hy.
Qed.

(** The payload of the child reads back. *)
Lemma foreigns_payload programs :
  Forall foreign_ok programs → u32_ok (lenZ programs) →
  (count ← foreignVarint;
   _ ← lift (if count <? 0 then None else Some tt);
   readForeigns (Z.to_nat count) []) (FR (encodeForeignProgramsCore programs) 0 true) =
    Some (readBack <$> programs, FR (encodeForeignProgramsCore programs)
      (lenZ (encodeForeignProgramsCore programs)) true).
Proof.
  intros Hok Hlen. set (payload := encodeForeignProgramsCore programs).
  assert (payload = varint (lenZ programs) ++ foldl appendForeign [] programs) as Hpay.
  { unfold payload, encodeForeignProgramsCore. by rewrite foldl_foreign. }
  assert (yields FR_at (count ← foreignVarint; _ ← lift (if count <? 0 then None else Some tt);
    readForeigns (Z.to_nat count) []) payload (readBack <$> programs)) as Hy.
  { rewrite Hpay. eapply yields_bind; [by apply yields_varint|]. unfold u32_ok in Hlen.
    rewrite (proj2 (Z.ltb_ge _ 0)) by lia. intros pre post.
    unfold lenZ at 1. rewrite Nat2Z.id. by apply (yields_foreigns []). }
  exact (yields_whole _ _ _ _ Hy).
Qed.

Lemma ReadForeignPrograms_found data at_ payload programs :
  findOptionalChild data TagForeignPrograms = Ok (Some (at_, payload)) →
  payload = encodeForeignProgramsCore programs →
  Forall foreign_ok programs → u32_ok (lenZ programs) →
  ReadForeignPrograms data = Ok (readBack <$> programs).
Proof.
  intros Hf -> Hok Hlen. unfold ReadForeignPrograms. rewrite Hf. cbn [mbind res_bind].
  rewrite foreigns_payload by done. cbn [mbind res_bind index fr_ok fr_pos fr_data].
  by rewrite Z.eqb_refl.
Qed.

(** * Accepted units *)

Lemma scanChildren_stream fuel data at_ cs ok sc :
  stream data at_ cs ok → (length cs < fuel)%nat →
  scanChildren fuel data (lenZ data) at_ sc = (sc ← visitAll cs sc; if ok then Ok sc else Err).
Proof.
  intros Hs. revert fuel sc.
  induction Hs as [at_ ->|at_ Hbad|at_ c next cs ok Hc Hs IH]; intros [|fuel] sc Hf;
    try (simpl in Hf; lia); cbn [scanChildren visitAll].
  - by rewrite Z.ltb_irrefl.
  - bad_child Hbad.
  - destruct (child_loop_step _ _ _ _ Hc) as (->&->&_&_&H2&_&H4&H5&_).
    destruct Hc as [_ -> -> Hnext _ _ _ _]. cbn [mbind res_bind]. cbv zeta.
    rewrite H2, H4, H5. cbn [orb mbind res_bind index].
    destruct (visitChild c.1 c.2 sc); cbn [mbind res_bind]; [|done..].
    rewrite <- Hnext. apply IH. simpl in Hf. lia.
Qed.

(** A unit that fits its length field, by its children. *)
Definition unit_of (data : list Z) (cs : list (Z * list Z)) : Prop :=
  data = unitOf cs ∧ Forall child_ok cs ∧ too_big (childBytes cs) = false ∧
  bytes_ok (childBytes cs).

Lemma unit_of_intro cs :
  Forall child_ok cs → too_big (childBytes cs) = false → bytes_ok (childBytes cs) →
  unit_of (unitOf cs) cs.
Proof. by repeat split. Qed.

Lemma unit_of_valid data cs :
  unit_of data cs → validUnitRoot data = Ok true ∧ stream data 14 cs true ∧ bytes_ok data.
Proof. intros (->&?&?&?). by apply unit_valid. Qed.

Lemma unit_of_Unmarshal data cs :
  unit_of data cs → Unmarshal data = (sc ← visitAll cs (Scan 0 0 ∅ [] []); assemble sc).
Proof.
  intros (->&Hok&Hbig&_). apply Unmarshal_children; [done|].
  eapply Forall_impl; [exact Hok|]. by intros c [? _].
Qed.

Lemma stream_unit_of data cs :
  bytes_ok data → validUnitRoot data = Ok true → stream data 14 cs true → unit_of data cs.
Proof.
  intros Hb Hv Hs. destruct (valid_unit data cs Hb Hv Hs) as (->&Hok&Hbig).
  apply unit_of_intro; [done..|]. unfold unitOf, nodeBytes in Hb. cbn [fst snd] in Hb.
  rewrite !Forall_app in Hb. tauto.
Qed.

(** An accepted unit is the unit of its children. *)
Lemma accepted_unit_of data p :
  bytes_ok data → Unmarshal data = Ok p → ∃ cs, unit_of data cs.
Proof.
  intros Hb Hu. destruct (validUnitRoot_total data Hb) as [valid Hv].
  pose proof (readHeader_safe data Hb) as Hs. rewrite validUnitRoot_header in Hv by done.
  unfold Unmarshal in Hu. destruct (readHeader data) as [rootEnd| |] eqn:Hr; [|done..].
  destruct Hs as (->&Hl&_). cbn [mbind res_bind] in Hu.
  destruct (stream_total data 14 Hb ltac:(lia)) as (cs&ok&Hst).
  rewrite (scanChildren_stream _ _ _ cs ok) in Hu by (done || by eapply stream_fuel; [lia|]).
  destruct ok.
  - exists cs. apply stream_unit_of; [done| |done]. rewrite validUnitRoot_header by done. by rewrite Hr.
  - by destruct (visitAll cs _).
Qed.

(** * Opaque children *)

(** A tag of the schema that [Unmarshal] marks and skips. *)
Definition opaque (tag : Z) : Prop := tag ≠ TagUnit ∧ tag ∉ switchTags.

Lemma visitChild_opaque tag payload payload' sc :
  opaque tag → visitChild tag payload sc = visitChild tag payload' sc.
Proof.
  intros [_ Ho]. unfold visitChild. by rewrite !(bool_decide_eq_false_2 (tag ∈ switchTags)).
Qed.

(** Replacing the payload of an opaque child changes nothing. *)
Lemma visitAll_opaque c1 tag payload payload' c2 sc :
  opaque tag →
  visitAll (c1 ++ (tag, payload) :: c2) sc = visitAll (c1 ++ (tag, payload') :: c2) sc.
Proof.
  intros Ho. rewrite !visitAll_app. destruct (visitAll c1 sc); cbn [mbind res_bind]; [|done..].
  cbn [visitAll fst snd]. by rewrite (visitChild_opaque tag payload payload').
Qed.

(** The result depends on the marks of the required tags only. *)
Lemma assemble_marks low high high' d decls funcs :
  assemble (Scan low high d decls funcs) = assemble (Scan low high' d decls funcs).
Proof. unfold assemble. cbn [sc_low sc_high sc_decls sc_funcs]. by rewrite !Z.land_0_r. Qed.

(** Adding an opaque child whose tag is new changes nothing either. *)
Lemma opaque_added cs tag payload p :
  opaque tag → known tag → 16 ≤ schemaChildTagIndex tag → tag ∉ cs.*1 →
  (sc ← visitAll cs (Scan 0 0 ∅ [] []); assemble sc) = Ok p →
  (sc ← visitAll (cs ++ [(tag, payload)]) (Scan 0 0 ∅ [] []); assemble sc) = Ok p.
Proof.
  intros [Hunit Ho] Hk Hi Hnew. rewrite visitAll_app.
  destruct (visitAll cs _) as [sc| |] eqn:Hv; [|done..]. cbn [mbind res_bind visitAll fst snd].
  destruct (visitAll_masks _ _ _ Hv) as (_&_&Hmarks).
  specialize (Hmarks tag Hk). rewrite (bool_decide_eq_false_2 (tag ∈ cs.*1)), orb_false_r in Hmarks
    by done.
  assert (marked tag 0 0 = false) as H0 by (unfold marked; cbv zeta; case_match; apply Z.bits_0).
  cbn [sc_low sc_high] in Hmarks. rewrite H0 in Hmarks.
  unfold visitChild. rewrite (proj2 (Z.eqb_neq _ _)) by done.
  rewrite markTag_known, Hmarks by done. cbn [mbind res_bind].
  rewrite (proj2 (Z.ltb_ge _ 16)) by done. cbn [mbind res_bind].
  rewrite bool_decide_eq_false_2 by done. cbn [mbind res_bind]. intros Ha. rewrite <- Ha.
  destruct sc as [low high d decls funcs]. apply assemble_marks.
Qed.

(** * Binding a target *)

(** The bytes of a child. *)
Lemma nodeBytes_ok c : bytes_ok c.2 → bytes_ok (nodeBytes c).
Proof.
  intros Hb. unfold nodeBytes. rewrite !Forall_app. split; [apply bytes16_ok|].
  by split; [apply bytes32_ok|].
Qed.

Lemma childBytes_ok cs : bytes_ok (childBytes cs) ↔ Forall (λ c, bytes_ok c.2) cs.
Proof.
  split; [apply children_bytes|]. induction 1 as [|c cs Hc _ IH]; [constructor|].
  rewrite childBytes_cons. apply Forall_app. split; [by apply nodeBytes_ok|done].
Qed.

Lemma bound_ok cs b :
  Forall child_ok cs → bytes_ok (childBytes cs) → bytes_ok (tb_Target b) →
  bytes_ok (tb_Definition b) → bindingValid b = true → lenZ (tb_Target b) < 2 ^ 32 →
  Forall child_ok (bound cs b) ∧ bytes_ok (childBytes (bound cs b)).
Proof.
  intros Hok Hb Ht Hd (_&Hlen&_)%bindingValid_inv Hl. rewrite childBytes_ok in Hb.
  unfold bound, unbound. split.
  - apply Forall_app. split.
    + apply Forall_forall. intros c Hc%list_elem_of_In%filter_In. rewrite Forall_forall in Hok.
      apply Hok. apply list_elem_of_In. tauto.
    + unfold bindingChildren, child_ok. repeat constructor; cbn; try done; rewrite ?Hlen; done.
  - apply childBytes_ok, Forall_app. split.
    + apply Forall_forall. intros c Hc%list_elem_of_In%filter_In. rewrite Forall_forall in Hb.
      apply Hb. apply list_elem_of_In. tauto.
    + unfold bindingChildren. repeat constructor; cbn; try done; by apply u8_range.
Qed.

(** What a successful [BindTarget] writes. *)
Lemma BindTarget_inv data b out :
  bytes_ok data → BindTarget data b = Ok out →
  bindingValid b = true ∧ ∃ cs, unit_of data cs ∧ out = unitOf (bound cs b).
Proof.
  intros Hb Hbind. unfold BindTarget in Hbind.
  destruct (checkRoot_cases data Hb) as [Hc|[Hc Hv]]; rewrite Hc in Hbind; [done|].
  destruct (bindingValid b) eqn:Hvalid; [|done]. split; [done|]. cbn [mbind res_bind check] in Hbind.
  destruct (validUnitRoot_bytes data Hb Hv) as [Hl Hroot].
  destruct (root_take _ (proj1 Hl) Hroot) as [H14 H10].
  rewrite sliceZ_Some in Hbind by lia. cbn [mbind res_bind index] in Hbind.
  destruct (stream_total data 14 Hb ltac:(lia)) as (cs&ok&Hs).
  rewrite (copyUnbound_spec _ _ _ cs ok) in Hbind by (done || by eapply stream_fuel; [lia|]).
  destruct ok; [|done]. exists cs. split; [by apply stream_unit_of|].
  cbn [mbind res_bind] in Hbind. destruct (if (_ : bool) then _ else _) as [[]| |] in Hbind; [|done..].
  cbn [mbind res_bind] in Hbind. unfold appendTarget in Hbind. cbv zeta in Hbind.
  rewrite !appendStringNodeCore_app, <- !app_assoc, <- bindingChildren_bytes, <- childBytes_app in Hbind.
  rewrite patch_unit in Hbind by done. by injection Hbind as <-.
Qed.

(** * Foreign children *)

Lemma foreign_opaque :
  opaque TagForeignPrograms ∧ known TagForeignPrograms ∧
  16 ≤ schemaChildTagIndex TagForeignPrograms.
Proof. split; [split; by_decision|split; by_decision]. Qed.

(** The root of a unit, before its children. *)
Definition rootBytes (cs : list (Z * list Z)) : list Z :=
  unitHeader ++ bytes16 TagUnit ++ bytes32 (lenZ (childBytes cs)).

Lemma unitOf_split cs : unitOf cs = rootBytes cs ++ childBytes cs.
Proof. unfold unitOf, nodeBytes, rootBytes. by rewrite <- !app_assoc. Qed.

Lemma sliceZ_mid {A} (pre mid post : list A) lo hi :
  lo = lenZ pre → hi = lenZ pre + lenZ mid → sliceZ (pre ++ mid ++ post) lo hi = Some mid.
Proof.
  intros -> ->. pose proof (lenZ_nonneg pre). pose proof (lenZ_nonneg mid).
  pose proof (lenZ_nonneg post). rewrite sliceZ_Some by (rewrite ?lenZ_app; lia).
  by rewrite sublistZ_app_exact.
Qed.

(** Resolving replaces the payload of the foreign child. *)
Lemma Resolve_inv data cs programs out :
  unit_of data cs → ResolveForeignPrograms data programs = Ok out →
  ∃ c1 old c2, cs = c1 ++ (TagForeignPrograms, old) :: c2 ∧ (TagForeignPrograms ∉ c1.*1) ∧
    out = unitOf (c1 ++ (TagForeignPrograms, encodeForeignProgramsCore programs) :: c2).
Proof.
  intros Hu Hr. destruct (unit_of_valid _ _ Hu) as (Hv&Hs&Hb). destruct Hu as (Hdata&Hok&_&_).
  unfold ResolveForeignPrograms in Hr. rewrite (findOptionalChild_stream _ _ cs true) in Hr by done.
  destruct (locate cs TagForeignPrograms 14) as [[at_ old]|] eqn:Hloc; [|done].
  apply locate_some in Hloc as (c1&c2&->&Hnot&->). exists c1, old, c2. split_and!; [done..|].
  cbn [mbind res_bind] in Hr. destruct (lenZ programs =? 0); [done|].
  set (tag := TagForeignPrograms) in *. set (payload := encodeForeignProgramsCore programs) in *.
  set (cs := c1 ++ (tag, old) :: c2) in *.
  assert (data = rootBytes cs ++ childBytes c1 ++ nodeBytes (tag, old) ++ childBytes c2) as Hd.
  { rewrite Hdata, unitOf_split. unfold cs at 2. by rewrite childBytes_app, childBytes_cons. }
  assert (lenZ (rootBytes cs) = 14) as H14 by done.
  pose proof (lenZ_nonneg (childBytes c1)) as H1. pose proof (lenZ_nonneg old).
  pose proof (lenZ_nonneg (childBytes c2)).
  assert (lenZ data = 14 + lenZ (childBytes c1) + 6 + lenZ old + lenZ (childBytes c2)) as Hlen
    by (rewrite Hd, !lenZ_app, nodeBytes_length, H14; cbn [snd]; lia).
  assert (readUint32Foreign data (14 + lenZ (childBytes c1) + 2) = Ok (lenZ old)) as Hold.
  { rewrite readUint32Foreign_in by lia.
    replace (14 + lenZ (childBytes c1) + 2) with (lenZ (rootBytes cs ++ childBytes c1 ++ bytes16 tag))
      by (rewrite !lenZ_app, H14; change (lenZ (bytes16 _)) with 2; lia).
    rewrite Hd. unfold nodeBytes. cbn [fst snd]. rewrite <- !app_assoc.
    rewrite (app_assoc (rootBytes cs)), (app_assoc _ (bytes16 tag)), <- (app_assoc (rootBytes cs)).
    apply uint32At_app. apply Forall_app in Hok as [_ Hok]. apply Forall_cons in Hok as [[_ Hl] _].
    unfold u32_ok. cbn [snd] in Hl. lia. }
  rewrite Hold in Hr. cbn [mbind res_bind] in Hr.
  assert (sliceZ data 0 (14 + lenZ (childBytes c1)) = Some (rootBytes cs ++ childBytes c1)) as Hbefore.
  { rewrite Hd, app_assoc. apply (sliceZ_mid []); [done|]. rewrite lenZ_app, H14. done. }
  rewrite Hbefore in Hr. cbn [mbind res_bind index] in Hr.
  assert (sliceZ data (14 + lenZ (childBytes c1) + 6 + lenZ old) (lenZ data) = Some (childBytes c2))
    as Hafter.
  { rewrite Hlen, Hd, <- (app_nil_r (childBytes c2)) at 1.
    rewrite (app_assoc (childBytes c1)), (app_assoc (rootBytes cs)).
    apply sliceZ_mid; rewrite !lenZ_app, nodeBytes_length, H14; cbn [snd]; lia. }
  rewrite Hafter in Hr. cbn [mbind res_bind index] in Hr. rewrite appendNode_app in Hr.
  rewrite <- !app_assoc in Hr. rewrite <- childBytes_cons, <- childBytes_app in Hr.
  rewrite patch_unit in Hr by done. by injection Hr as <-.
Qed.

(** A child with a tag of its own does not hide a binding. *)
Lemma visitBindings_other c1 c c2 st :
  isBinding c = false → visitBindings (c1 ++ c :: c2) st = visitBindings (c1 ++ c2) st.
Proof.
  intros Hc. rewrite !visitBindings_app. destruct (visitBindings c1 st) as [st1| |]; [|done..].
  cbn [mbind res_bind visitBindings].
  assert (visitBinding c.1 c.2 st1 = Ok st1) as ->; [|done].
  unfold isBinding in Hc. unfold visitBinding. destruct st1 as [[] ? ? ?].
  destruct (c.1 =? TagDefinitionTarget), (c.1 =? TagDefinitionHash), (c.1 =? TagDescriptorVersion);
    done.
Qed.

(** Units that differ in foreign children only have one binding. *)
Lemma binding_kept data cs out cs' b :
  unit_of data cs → unit_of out cs' → (∀ st, visitBindings cs' st = visitBindings cs st) →
  ReadTargetBinding data = Ok b → ReadTargetBinding out = Ok b.
Proof.
  intros (Hv&Hs&Hb)%unit_of_valid (Hv'&Hs'&Hb')%unit_of_valid Heq.
  by rewrite (ReadTargetBinding_stream data cs true), (ReadTargetBinding_stream out cs' true), Heq.
Qed.

(** Both writers leave the unit of some children around the new foreign child. *)
Lemma foreign_written data p programs out :
  bytes_ok data → Unmarshal data = Ok p → programs ≠ [] →
  BindForeignPrograms data programs = Ok out ∨ ResolveForeignPrograms data programs = Ok out →
  ∃ c1 c2 cs, unit_of data cs ∧ (TagForeignPrograms ∉ c1.*1) ∧
    out = unitOf (c1 ++ (TagForeignPrograms, encodeForeignProgramsCore programs) :: c2) ∧
    ((cs = c1 ∧ c2 = []) ∨ ∃ old, cs = c1 ++ (TagForeignPrograms, old) :: c2).
Proof.
  intros Hb Hu Hne [Hw|Hw].
  - unfold BindForeignPrograms in Hw. destruct (Z.eqb_spec (lenZ programs) 0) as [H0|].
    { destruct programs; [done|]. rewrite lenZ_cons in H0. pose proof (lenZ_nonneg programs). lia. }
    apply appendOptionalChild_inv in Hw as (cs&->&Hok&Hbig&Hnew&->); [|done].
    exists cs, [], cs. split_and!; [|done|done|by left].
    destruct (accepted_unit_of _ _ Hb Hu) as (cs'&Hu').
    apply unit_of_intro; [done..|]. rewrite unitOf_split in Hb. by apply Forall_app in Hb as [_ ?].
  - destruct (accepted_unit_of _ _ Hb Hu) as (cs&Hu').
    destruct (Resolve_inv _ _ _ _ Hu' Hw) as (c1&old&c2&->&Hnot&->).
    exists c1, c2, (c1 ++ (TagForeignPrograms, old) :: c2). split_and!; try done. right. by exists old.
Qed.
