(* ===== verification/CoreAssembly.v ===== *)
(** Project assembly of a unit (internal/unit/assembly_fragments.go): reading the
    table of fragments, and attaching their machine code. *)

From S2P Require Import Prelude.
From S2P Require Import GoInt.
From S2P Require Import WireReader.
From S2P Require Import WireUnit.
From S2P Require Import CoreModel.
From S2P Require Import CoreMarshal.
From S2P Require Import CoreBinding.

(** * The reader *)

Record rtgasmReader := AR { ar_data : list Z; ar_at : Z; ar_ok : bool }.

Definition ar_advance (n : Z) : GoM rtgasmReader unit :=
  modify (λ r, AR (ar_data r) (ar_at r + n) (ar_ok r)).
Definition ar_fail : GoM rtgasmReader unit := modify (λ r, AR (ar_data r) (ar_at r) false).

(** [for shift := 0; r.at < len(r.data) && shift <= 28; shift += 7]: at most five
    iterations; the last one takes three bits. *)
Fixpoint rtgasmVarint_loop (fuel : nat) (value shift : Z) : GoM rtgasmReader Z :=
  match fuel with
  | O => _ ← ar_fail; mret 0
  | S fuel =>
      r ← get;
      if (ar_at r <? lenZ (ar_data r)) && (shift <=? 28) then
        part ← lift (ar_data r !!z ar_at r);
        _ ← ar_advance 1;
        if (shift =? 28) && (7 <? part) then _ ← ar_fail; mret 0
        else
          let value := Z.lor value (Z.shiftl (Z.land part 127) shift) in
          if part <? 128 then mret value else rtgasmVarint_loop fuel value (shift + 7)
      else _ ← ar_fail; mret 0
  end.

Definition rtgasmVarint : GoM rtgasmReader Z := rtgasmVarint_loop 6 0 0.

Definition rtgasmBytes : GoM rtgasmReader (list Z) :=
  size ← rtgasmVarint;
  r ← get;
  if negb (ar_ok r) || (size <? 0) || (ar_at r + size <? ar_at r) ||
     (lenZ (ar_data r) <? ar_at r + size) then _ ← ar_fail; mret []
  else
    value ← lift (sliceZ (ar_data r) (ar_at r) (ar_at r + size));
    _ ← ar_advance size;
    mret value.

(** * Reading *)

Definition maxFragment : Z := 16 * 1024 * 1024.

(** The loop of [ReadRTGAssemblyFragments] over the children: the payload of the
    only assembly child, if there is one. *)
Fixpoint assemblyPayload (fuel : nat) (data : list Z) (at_ : Z) (payload : option (list Z))
    : res (option (list Z)) :=
  match fuel with
  | O => Err
  | S fuel =>
      if at_ <? lenZ data then
        if lenZ data <? at_ + 6 then Err
        else
          tag ← uint16At data at_;
          size ← uint32At data (at_ + 2);
          let at_ := at_ + 6 in
          if (size <? 0) || (lenZ data - at_ <? size) then Err
          else if tag =? TagRTGAssembly then
            match payload with
            | Some _ => Err
            | None =>
                payload ← index (sliceZ data at_ (at_ + size));
                assemblyPayload fuel data (at_ + size) (Some payload)
            end
          else assemblyPayload fuel data (at_ + size) payload
      else Ok payload
  end.

(** The loops over the sources and the bindings; [None] is [return nil, nil, false]. *)
Fixpoint readSources (n : nat) (sources : list RTGAssemblySource)
    : GoM rtgasmReader (option (list RTGAssemblySource)) :=
  match n with
  | O => mret (Some sources)
  | S n =>
      path ← rtgasmBytes;
      source ← rtgasmBytes;
      if maxFragment <? lenZ source then mret None
      else readSources n (sources ++ [MkSource path source])
  end.

(** The conditions under which a binding is refused. *)
Definition bindingRefused (sources : Z) (b : RTGAssemblyBinding) : bool :=
  (ab_Func b <? 0) || (ab_Source b <? 0) || (sources <=? ab_Source b) || (ab_Entry b <? 0) ||
  ((ab_Mode b =? 0) && (negb (ab_Inputs b =? 0) || negb (ab_Outputs b =? 0))) ||
  (ab_Mode b <? 0) || (1 <? ab_Mode b) || (ab_Inputs b <? 0) || (6 <? ab_Inputs b) ||
  (ab_Outputs b <? 0) || (1 <? ab_Outputs b).

Fixpoint readBindings (n : nat) (version sources : Z) (bindings : list RTGAssemblyBinding)
    : GoM rtgasmReader (option (list RTGAssemblyBinding)) :=
  match n with
  | O => mret (Some bindings)
  | S n =>
      func ← rtgasmVarint;
      source ← rtgasmVarint;
      entry ← rtgasmVarint;
      '(mode, inputs, outputs) ← (if version =? 2 then
          mode ← rtgasmVarint; inputs ← rtgasmVarint; outputs ← rtgasmVarint;
          mret (mode, inputs, outputs)
        else mret (0, 0, 0));
      code ← rtgasmBytes;
      let binding := MkBinding func source entry mode inputs outputs code in
      if bindingRefused sources binding then mret None
      else readBindings n version sources (bindings ++ [binding])
  end.

(** [!r.ok || count < 0 || count > 8192 || count > len(r.data)] *)
Definition countRefused (count : Z) : GoM rtgasmReader bool :=
  r ← get;
  mret (negb (ar_ok r) || (count <? 0) || (8192 <? count) || (lenZ (ar_data r) <? count)).

(** The version and the number of sources; the original format starts with the
    count, which was never zero. *)
Definition readVersion : GoM rtgasmReader (option (Z * Z)) :=
  count ← rtgasmVarint;
  if count =? 0 then
    version ← rtgasmVarint;
    count ← rtgasmVarint;
    mret (if negb (version =? 2) then None else Some (version, count))
  else mret (Some (1, count)).

(** The second half of [ReadRTGAssemblyFragments]: the bindings, and no data after
    them. *)
Definition readBindingTable (version : Z) (sources : list RTGAssemblySource)
    : GoM rtgasmReader (option (list RTGAssemblySource * list RTGAssemblyBinding)) :=
  count ← rtgasmVarint;
  refused ← countRefused count;
  if (refused : bool) then mret None
  else
    bindings ← readBindings (Z.to_nat count) version (lenZ sources) [];
    match bindings with
    | None => mret None
    | Some bindings =>
        r ← get;
        mret (if ar_ok r && (ar_at r =? lenZ (ar_data r)) then Some (sources, bindings) else None)
    end.

(** [ReadRTGAssemblyFragments] on the payload of the child. *)
Definition readFragments
    : GoM rtgasmReader (option (list RTGAssemblySource * list RTGAssemblyBinding)) :=
  header ← readVersion;
  match header with
  | None => mret None
  | Some (version, count) =>
      refused ← countRefused count;
      if (refused : bool) then mret None
      else
        sources ← readSources (Z.to_nat count) [];
        match sources with
        | None => mret None
        | Some sources => readBindingTable version sources
        end
  end.

Definition ReadRTGAssemblyFragments (data : list Z)
    : res (list RTGAssemblySource * list RTGAssemblyBinding) :=
  _ ← checkRoot data;
  payload ← assemblyPayload (S (length data)) data 14 None;
  match payload with
  | None => Ok ([], [])
  | Some payload =>
      '(tables, _) ← index (readFragments (AR payload 0 true));
      match tables with Some tables => Ok tables | None => Err end
  end.

(** * Attaching *)

(** The same loop as [appendVarint]. *)
Definition appendRTGASMVarint (out : list Z) (value : Z) : list Z := appendVarint out value.

Definition appendRTGASMBytes (out value : list Z) : list Z :=
  let out := appendRTGASMVarint out (lenZ value) in
  out ++ value.

Definition writeRTGASMUint32 (out : list Z) (at_ value : Z) : res (list Z) :=
  patchUint32Core out at_ value.

Definition appendRTGASMNode (out : list Z) (tag : Z) (payload : list Z) : res (list Z) :=
  let start := lenZ out in
  let out := out ++ [u8 tag; u8 (Z.shiftr tag 8); 0; 0; 0; 0] in
  let out := out ++ payload in
  writeRTGASMUint32 out (start + 2) (lenZ payload).

Definition appendRTGASMSource (out : list Z) (s : RTGAssemblySource) : list Z :=
  let out := appendRTGASMBytes out (as_Path s) in
  appendRTGASMBytes out (as_Source s).

(** A binding that differs from the one read, or that no unit may carry. *)
Definition attachRefused (binding original : RTGAssemblyBinding) (code : list Z) : bool :=
  negb (ab_Func binding =? ab_Func original) || negb (ab_Source binding =? ab_Source original) ||
  negb (ab_Entry binding =? ab_Entry original) || (ab_Mode binding <? 0) ||
  (1 <? ab_Mode binding) || (ab_Inputs binding <? 0) || (6 <? ab_Inputs binding) ||
  (ab_Outputs binding <? 0) || (1 <? ab_Outputs binding) ||
  ((ab_Mode binding =? 0) &&
   (negb (ab_Inputs binding =? 0) || negb (ab_Outputs binding =? 0))) ||
  (lenZ code =? 0) || (maxFragment <? lenZ code).

(** The loop over the bindings; the three slices have one length. *)
Fixpoint appendBindings (bindings original : list RTGAssemblyBinding) (code : list (list Z))
    (payload : list Z) : res (list Z) :=
  match bindings with
  | [] => Ok payload
  | binding :: bindings =>
      o ← index (head original);
      c ← index (head code);
      if attachRefused binding o c then Err
      else
        let payload := appendRTGASMVarint payload (ab_Func binding) in
        let payload := appendRTGASMVarint payload (ab_Source binding) in
        let payload := appendRTGASMVarint payload (ab_Entry binding) in
        let payload := appendRTGASMVarint payload (ab_Mode binding) in
        let payload := appendRTGASMVarint payload (ab_Inputs binding) in
        let payload := appendRTGASMVarint payload (ab_Outputs binding) in
        let payload := appendRTGASMBytes payload c in
        appendBindings bindings (tail original) (tail code) payload
  end.

(** The loop that copies the children, with the new payload in its place. *)
Fixpoint replaceAssembly (fuel : nat) (data : list Z) (payload : list Z) (at_ : Z)
    (out : list Z) (found : bool) : res (list Z * bool) :=
  match fuel with
  | O => Err
  | S fuel =>
      if at_ + 6 <=? lenZ data then
        tag ← uint16At data at_;
        size ← uint32At data (at_ + 2);
        let next := at_ + 6 + size in
        if (size <? 0) || (next <? at_) || (lenZ data <? next) ||
           ((tag =? TagRTGAssembly) && found) then Err
        else if tag =? TagRTGAssembly then
          out ← appendRTGASMNode out tag payload;
          replaceAssembly fuel data payload next out true
        else
          node ← index (sliceZ data at_ next);
          replaceAssembly fuel data payload next (out ++ node) found
      else Ok (out, found)
  end.

Definition AttachRTGAssemblyFragments (data : list Z) (bindings : list RTGAssemblyBinding)
    (code : list (list Z)) : res (list Z) :=
  '(sources, original) ← ReadRTGAssemblyFragments data;
  if negb (lenZ bindings =? lenZ original) || negb (lenZ code =? lenZ bindings) then Err
  else
    let payload := appendRTGASMVarint [] 0 in
    let payload := appendRTGASMVarint payload 2 in
    let payload := appendRTGASMVarint payload (lenZ sources) in
    let payload := foldl appendRTGASMSource payload sources in
    let payload := appendRTGASMVarint payload (lenZ bindings) in
    payload ← appendBindings bindings original code payload;
    root ← index (sliceZ data 0 14);
    '(out, found) ← replaceAssembly (S (length data)) data payload 14 root false;
    _ ← check found;
    writeRTGASMUint32 out 10 (lenZ out - 14).
