(* ===== verification/CoreAssemblyFacts.v ===== *)
(** The table of assembly fragments reads back, and attaching code replaces the
    code and nothing else. *)

From stdpp Require Import gmap.
From S2P Require Import Prelude.
From S2P Require Import GoInt.
From S2P Require Import WireReader.
From S2P Require Import WireFacts.
From S2P Require Import WireCanonical.
From S2P Require Import WireUnit.
From S2P Require Import WireUnitFacts.
From S2P Require Import WireSafety.
From S2P Require Import CoreModel.
From S2P Require Import CoreMarshal.
From S2P Require Import CoreMarshalFacts.
From S2P Require Import CoreStream.
From S2P Require Import CoreBinding.
From S2P Require Import CoreBindingFacts.
From S2P Require Import CoreForeign.
From S2P Require Import CoreForeignFacts.
From S2P Require Import CoreAssembly.

(** * The reader *)

Abbreviation AR_at := (λ data pos, AR data pos true).

(** Where [readVarint] finds a 31-bit value, this reader finds the same. *)
Lemma rtgasmVarint_loop_spec fuel value shift data pos ok v next :
  readVarint_loop fuel value shift data pos = Ok (v, next) → 0 ≤ value → v < 2 ^ 31 →
  rtgasmVarint_loop fuel value shift (AR data pos ok) = Some (v, AR data next ok).
Proof.
  revert value shift pos. induction fuel as [|fuel IH]; intros value shift pos;
    cbn [readVarint_loop rtgasmVarint_loop]; [done|].
  unfold mbind, GoM_bind, get, lift, ar_advance, ar_fail, modify, mret, GoM_ret.
  cbn [ar_at ar_data ar_ok]. intros Hr H0 Hv.
  destruct ((pos <? lenZ data) && (shift <=? 28)) eqn:Hcond; [|done].
  apply andb_true_iff in Hcond as [_ Hs%Z.leb_le].
  destruct (data !!z pos) as [part|]; [|done]. cbn [ar_at ar_data ar_ok].
  destruct ((28 <=? shift) && (16 <=? part)) eqn:Hlast; [done|].
  assert (0 ≤ Z.land part 127) as Hland by (apply Z.land_nonneg; lia).
  assert (0 ≤ Z.lor value (Z.shiftl (Z.land part 127) shift)) as Hor.
  { apply Z.lor_nonneg. split; [done|]. by apply Z.shiftl_nonneg. }
  destruct (Z.ltb_spec part 128) as [Hsmall|Hbig].
  - destruct ((0 <? shift) && (part =? 0)); [done|]. injection Hr as <- <-.
    assert ((shift =? 28) && (7 <? part) = false) as ->; [|done].
    destruct (Z.eqb_spec shift 28) as [->|]; [|done]. cbn [andb].
    destruct (Z.ltb_spec 7 part) as [H7|]; [|done]. exfalso.
    assert (part < 16) as H16 by lia.
    assert (Z.land part 127 = part) as Hp
      by (change 127 with (Z.ones 7); rewrite Z.land_ones, Z.mod_small by lia; done).
    rewrite Hp in *. pose proof (Z.ldiff_le (Z.shiftl part 28) (Z.lor value (Z.shiftl part 28))) as Hle.
    assert (Z.shiftl part 28 ≤ Z.lor value (Z.shiftl part 28)).
    { apply Hle; [done|]. apply Z.bits_inj'. intros i Hi. rewrite Z.ldiff_spec, Z.lor_spec, Z.bits_0.
      by destruct (Z.testbit (Z.shiftl part 28) i), (Z.testbit value i). }
    rewrite Z.shiftl_mul_pow2 in * by lia. change (2 ^ 31) with (8 * 2 ^ 28) in Hv. lia.
  - assert ((shift =? 28) && (7 <? part) = false) as -> by lia. by apply IH.
Qed.

Definition i31_ok (v : Z) : Prop := 0 ≤ v < 2 ^ 31.

Lemma yields_rtgasm v : i31_ok v → yields AR_at rtgasmVarint (varint v) v.
Proof.
  intros Hv pre post. unfold i31_ok in Hv. unfold rtgasmVarint.
  apply rtgasmVarint_loop_spec; [|lia|lia]. apply (reads_varint v); unfold u32_ok; lia.
Qed.

Lemma yields_rtgasm_bytes bs : i31_ok (lenZ bs) → yields AR_at rtgasmBytes (varint (lenZ bs) ++ bs) bs.
Proof.
  intros Hb. unfold rtgasmBytes. eapply yields_bind; [by apply yields_rtgasm|].
  intros pre post. unfold mbind, GoM_bind, get. cbn [ar_ok ar_data ar_at negb orb].
  pose proof (lenZ_nonneg pre). pose proof (lenZ_nonneg bs). pose proof (lenZ_nonneg post).
  rewrite !lenZ_app. destruct (Z.ltb_spec (lenZ bs) 0); [lia|].
  destruct (Z.ltb_spec (lenZ pre + lenZ bs) (lenZ pre)); [lia|].
  destruct (Z.ltb_spec (lenZ pre + (lenZ bs + lenZ post)) (lenZ pre + lenZ bs)); [lia|].
  cbn [orb]. rewrite sliceZ_Some by (rewrite ?lenZ_app; lia). by rewrite sublistZ_app_exact.
Qed.

(** * Tables that fit *)

Definition source_ok (s : RTGAssemblySource) : Prop :=
  i31_ok (lenZ (as_Path s)) ∧ lenZ (as_Source s) ≤ maxFragment.

Definition fragment_ok (sources : Z) (b : RTGAssemblyBinding) : Prop :=
  i31_ok (ab_Func b) ∧ 0 ≤ ab_Source b < sources ∧ i31_ok (ab_Entry b) ∧
  bindingRefused sources b = false ∧ i31_ok (lenZ (ab_Code b)).

Definition fragments_ok (sources : list RTGAssemblySource) (bindings : list RTGAssemblyBinding)
    : Prop :=
  Forall source_ok sources ∧ Forall (fragment_ok (lenZ sources)) bindings ∧
  lenZ sources ≤ 8192 ∧ lenZ bindings ≤ 8192.

Lemma appendSource_app out s :
  appendSource out s = out ++ varint (lenZ (as_Path s)) ++ as_Path s ++
    varint (lenZ (as_Source s)) ++ as_Source s.
Proof.
  unfold appendSource. cbv zeta. rewrite appendVarint_app, appendBytes_app, !appendVarint_app.
  by rewrite <- !app_assoc.
Qed.

Lemma appendBinding_app out b :
  appendBinding out b = out ++ varint (ab_Func b) ++ varint (ab_Source b) ++ varint (ab_Entry b) ++
    varint (ab_Mode b) ++ varint (ab_Inputs b) ++ varint (ab_Outputs b) ++
    varint (lenZ (ab_Code b)) ++ ab_Code b.
Proof. unfold appendBinding. cbv zeta. rewrite !appendVarint_app. by rewrite <- !app_assoc. Qed.

Lemma foldl_source out l : foldl appendSource out l = out ++ foldl appendSource [] l.
Proof. apply foldl_appends. intros o s. by rewrite !appendSource_app. Qed.

Lemma foldl_binding out l : foldl appendBinding out l = out ++ foldl appendBinding [] l.
Proof. apply foldl_appends. intros o s. by rewrite !appendBinding_app. Qed.

Lemma encodeRTGAssemblyCore_app sources bindings :
  encodeRTGAssemblyCore sources bindings =
    varint 0 ++ varint 2 ++ varint (lenZ sources) ++ foldl appendSource [] sources ++
    varint (lenZ bindings) ++ foldl appendBinding [] bindings.
Proof.
  unfold encodeRTGAssemblyCore. cbv zeta. rewrite foldl_binding, foldl_source, !appendVarint_app.
  by rewrite <- !app_assoc.
Qed.

(** * Reading the tables *)

Lemma yields_sources acc sources :
  Forall source_ok sources →
  yields AR_at (readSources (length sources) acc) (foldl appendSource [] sources)
    (Some (acc ++ sources)).
Proof.
  intros Hok. revert acc. induction Hok as [|s sources [Hp Hs] _ IH]; intros acc;
    cbn [length readSources foldl].
  { rewrite app_nil_r. apply yields_ret. }
  rewrite foldl_source, appendSource_app, app_nil_l, <- !app_assoc.
  rewrite app_assoc. eapply yields_bind; [by apply yields_rtgasm_bytes|].
  rewrite app_assoc. eapply yields_bind.
  { apply yields_rtgasm_bytes. unfold i31_ok, maxFragment in *. pose proof (lenZ_nonneg (as_Source s)). lia. }
  rewrite (proj2 (Z.ltb_ge _ _)) by done.
  eapply yields_eq; [apply IH|done|]. f_equal. rewrite <- app_assoc. by destruct s.
Qed.

Lemma refused_inv sources b :
  bindingRefused sources b = false →
  0 ≤ ab_Mode b ≤ 1 ∧ 0 ≤ ab_Inputs b ≤ 6 ∧ 0 ≤ ab_Outputs b ≤ 1.
Proof. unfold bindingRefused. lia. Qed.

Lemma yields_bindings sources acc bindings :
  Forall (fragment_ok sources) bindings → sources ≤ 8192 →
  yields AR_at (readBindings (length bindings) 2 sources acc) (foldl appendBinding [] bindings)
    (Some (acc ++ bindings)).
Proof.
  intros Hok Hmax. revert acc. induction Hok as [|b bindings (Hf&Hs&He&Hr&Hc) _ IH]; intros acc;
    cbn [length readBindings foldl].
  { rewrite app_nil_r. apply yields_ret. }
  destruct (refused_inv _ _ Hr) as (Hm&Hi&Ho).
  rewrite foldl_binding, appendBinding_app, app_nil_l, <- !app_assoc.
  assert (i31_ok (ab_Source b) ∧ i31_ok (ab_Mode b) ∧ i31_ok (ab_Inputs b) ∧ i31_ok (ab_Outputs b))
    as (?&?&?&?) by (unfold i31_ok; lia).
  eapply yields_bind; [by apply yields_rtgasm|].
  eapply yields_bind; [by apply yields_rtgasm|].
  eapply yields_bind; [by apply yields_rtgasm|].
  rewrite (app_assoc (varint (ab_Inputs b))), (app_assoc (varint (ab_Mode b))).
  change (2 =? 2) with true. cbv iota.
  eapply yields_bind.
  { eapply yields_bind; [by apply yields_rtgasm|].
    eapply yields_bind; [by apply yields_rtgasm|].
    eapply yields_last; [by apply yields_rtgasm|]. apply yields_ret. }
  cbv beta iota zeta. rewrite app_assoc. eapply yields_bind; [by apply yields_rtgasm_bytes|].
  replace (MkBinding _ _ _ _ _ _ _) with b by by destruct b. rewrite Hr.
  eapply yields_eq; [apply IH|done|]. f_equal. by rewrite <- app_assoc.
Qed.

(** A count that the rest of the payload can hold. *)
Lemma ends_count {A} count (f : bool → GoM rtgasmReader A) bs a :
  0 ≤ count ≤ 8192 → count ≤ lenZ bs → ends AR_at (f false) bs a →
  ends AR_at (refused ← countRefused count; f refused) bs a.
Proof.
  intros Hc Hb Hf pre. unfold countRefused, mbind, GoM_bind, get, mret, GoM_ret.
  cbn [ar_ok ar_data negb orb].
  assert ((count <? 0) || (8192 <? count) || (lenZ (pre ++ bs) <? count) = false) as ->; [|apply Hf].
  rewrite !lenZ_app. pose proof (lenZ_nonneg pre). lia.
Qed.

Lemma sources_length l : lenZ l ≤ lenZ (foldl appendSource [] l).
Proof.
  apply foldl_length; intros; rewrite !appendSource_app; [done|].
  rewrite app_nil_l, lenZ_app. pose proof (varint_pos (lenZ (as_Path a))).
  match goal with |- 1 ≤ _ + ?r => assert (0 ≤ r) by apply lenZ_nonneg end. lia.
Qed.

Lemma bindings_length l : lenZ l ≤ lenZ (foldl appendBinding [] l).
Proof.
  apply foldl_length; intros; rewrite !appendBinding_app; [done|].
  rewrite app_nil_l, lenZ_app. pose proof (varint_pos (ab_Func a)).
  match goal with |- 1 ≤ _ + ?r => assert (0 ≤ r) by apply lenZ_nonneg end. lia.
Qed.

(** What the encoder writes is read back, whole. *)
Lemma ends_bindings sources bindings :
  Forall (fragment_ok (lenZ sources)) bindings → lenZ sources ≤ 8192 → lenZ bindings ≤ 8192 →
  ends AR_at (readBindingTable 2 sources) (varint (lenZ bindings) ++ foldl appendBinding [] bindings)
    (Some (sources, bindings)).
Proof.
  intros Hb Hs Hl. pose proof (lenZ_nonneg bindings). unfold readBindingTable.
  eapply ends_bind; [apply yields_rtgasm; unfold i31_ok; lia|].
  apply ends_count; [lia|apply bindings_length|]. rewrite length_to_nat.
  rewrite <- (app_nil_r (foldl _ _ _)). eapply ends_bind; [by apply yields_bindings|].
  intros pre. unfold mbind, GoM_bind, get, mret, GoM_ret. rewrite app_nil_r.
  cbn [ar_ok ar_at ar_data]. by rewrite Z.eqb_refl.
Qed.

Lemma fragments_payload sources bindings :
  fragments_ok sources bindings →
  ∃ r, readFragments (AR (encodeRTGAssemblyCore sources bindings) 0 true) =
    Some (Some (sources, bindings), r).
Proof.
  intros (Hs&Hb&Hls&Hlb). pose proof (lenZ_nonneg sources). eexists. apply (ends_whole AR_at).
  rewrite encodeRTGAssemblyCore_app. unfold readFragments, readVersion.
  rewrite (app_assoc (varint 2)), app_assoc. eapply ends_bind.
  { eapply yields_bind; [by apply yields_rtgasm|]. change (0 =? 0) with true. cbv iota.
    eapply yields_bind; [by apply yields_rtgasm|].
    eapply yields_last; [apply yields_rtgasm; unfold i31_ok; lia|]. apply yields_ret. }
  change (negb (2 =? 2)) with false. cbv iota beta.
  apply ends_count; [lia|rewrite lenZ_app; pose proof (sources_length sources)|].
  { match goal with |- _ ≤ _ + ?r => assert (0 ≤ r) by apply lenZ_nonneg end. lia. }
  rewrite length_to_nat. eapply ends_bind; [by apply yields_sources|]. by apply ends_bindings.
Qed.

(** * What the reader returns *)

(** A reader over [data], failed or not. *)
Definition reader_ok (data : list Z) (r : rtgasmReader) : Prop :=
  ar_data r = data ∧ 0 ≤ ar_at r ∧ bytes_ok data.

Lemma rtgasmVarint_loop_wp data fuel value shift r :
  reader_ok data r → 0 ≤ value < 2 ^ shift → 0 ≤ shift → shift `mod` 7 = 0 →
  wp False (rtgasmVarint_loop fuel value shift) (λ v r, i31_ok v ∧ reader_ok data r) r.
Proof.
  revert value shift r. induction fuel as [|fuel IH]; intros value shift r (Hd&Hat&Hb) Hv Hs Hm;
    cbn [rtgasmVarint_loop].
  { apply wp_bind, wp_modify, wp_ret. by repeat split. }
  apply wp_bind, wp_get. destruct ((ar_at r <? lenZ (ar_data r)) && (shift <=? 28)) eqn:Hc.
  2:{ apply wp_bind, wp_modify, wp_ret. by repeat split. }
  destruct (lookupZ_lt_is_Some (ar_data r) (ar_at r) ltac:(lia)) as [part Hp]. rewrite Hp.
  assert (byte_ok part) as Hbyte by (rewrite Hd in Hp; by eapply lookupZ_Forall). unfold byte_ok in Hbyte.
  apply wp_bind, (wp_lift _ part); [done|]. apply wp_bind, wp_modify.
  assert (∀ ok, reader_ok data (AR (ar_data r) (ar_at r + 1) ok)) as Hnext
    by (intros ok; split; [done|]; split; [cbn; lia|done]).
  destruct ((shift =? 28) && (7 <? part)) eqn:Hlast.
  { apply wp_bind, wp_modify, wp_ret. split; [by repeat split|]. apply Hnext. }
  change 127 with (Z.ones 7). rewrite Z.land_ones by lia. cbv zeta.
  rewrite lor_shiftl_add by lia. pose proof (Z.mod_pos_bound part (2 ^ 7) ltac:(lia)) as Hpart.
  assert (0 < 2 ^ shift) by (apply Z.pow_pos_nonneg; lia).
  assert (value + part `mod` 2 ^ 7 * 2 ^ shift < 2 ^ (shift + 7)) as Hbound.
  { rewrite Z.pow_add_r by lia. change (2 ^ 7) with 128 in *. nia. }
  destruct (Z.ltb_spec part 128) as [Hsmall|].
  - apply wp_ret. split; [|apply Hnext]. unfold i31_ok. split; [nia|].
    destruct (Z.eqb_spec shift 28) as [->|].
    + rewrite Z.mod_small by lia. change (2 ^ 31) with (8 * 2 ^ 28). lia.
    + assert (shift + 7 ≤ 28) by (Z.div_mod_to_equations; lia).
      eapply Z.lt_le_trans; [exact Hbound|]. apply Z.pow_le_mono_r; lia.
  - apply IH; [apply Hnext|nia|lia|]. Z.div_mod_to_equations. lia.
Qed.

Lemma rtgasmVarint_wp data r :
  reader_ok data r → wp False rtgasmVarint (λ v r, i31_ok v ∧ reader_ok data r) r.
Proof. intros Hr. by apply rtgasmVarint_loop_wp. Qed.

Lemma rtgasmBytes_wp data r :
  reader_ok data r →
  wp False rtgasmBytes (λ bs r, (i31_ok (lenZ bs) ∧ bytes_ok bs) ∧ reader_ok data r) r.
Proof.
  intros Hr. apply wp_bind. eapply wp_conseq; [by apply rtgasmVarint_wp|].
  intros size r' [Hsize (Hd&Hat&Hb)]. apply wp_bind, wp_get. destruct (_ || _) eqn:Hc.
  { apply wp_bind, wp_modify, wp_ret. repeat split; try done. }
  unfold i31_ok in Hsize. rewrite sliceZ_Some by lia. apply wp_bind. eapply wp_lift; [done|].
  apply wp_bind, wp_modify, wp_ret. split.
  - rewrite sublistZ_length by lia. split; [unfold i31_ok; lia|].
    apply sublistZ_Forall. by rewrite Hd.
  - split; [done|]. split; [cbn; lia|done].
Qed.

(** An optional result. *)
Definition whenSome {A} (P : A → Prop) (o : option A) : Prop :=
  match o with Some a => P a | None => True end.

Lemma readSources_wp data n acc r :
  reader_ok data r → Forall source_ok acc →
  wp False (readSources n acc)
    (λ o r, whenSome (λ l, Forall source_ok l ∧ (length l = length acc + n)%nat) o ∧ reader_ok data r) r.
Proof.
  revert acc r. induction n as [|n IH]; intros acc r Hr Hacc; cbn [readSources].
  { apply wp_ret. split; [|done]. split; [done|lia]. }
  apply wp_bind. eapply wp_conseq; [by apply rtgasmBytes_wp|]. intros path r1 [[Hp _] Hr1].
  apply wp_bind. eapply wp_conseq; [by apply rtgasmBytes_wp|]. intros source r2 [_ Hr2].
  destruct (Z.ltb_spec maxFragment (lenZ source)); [by apply wp_ret|].
  eapply wp_conseq; [apply IH; [done|apply Forall_app; split; [done|by apply Forall_singleton]]|].
  intros [l|] r3 [Hl Hr3]; [|done]. split; [|done]. destruct Hl as [? Hlen]. split; [done|].
  rewrite length_app in Hlen. cbn [length] in Hlen. lia.
Qed.

Lemma readModes_wp data version r :
  reader_ok data r →
  wp False (if version =? 2 then
      mode ← rtgasmVarint; inputs ← rtgasmVarint; outputs ← rtgasmVarint; mret (mode, inputs, outputs)
    else mret (0, 0, 0)) (λ _ r, reader_ok data r) r.
Proof.
  intros Hr. destruct (version =? 2); [|by apply wp_ret].
  apply wp_bind. eapply wp_conseq; [by apply rtgasmVarint_wp|]. intros mode r1 [_ Hr1].
  apply wp_bind. eapply wp_conseq; [by apply rtgasmVarint_wp|]. intros inputs r2 [_ Hr2].
  apply wp_bind. eapply wp_conseq; [by apply rtgasmVarint_wp|]. intros outputs r3 [_ Hr3].
  by apply wp_ret.
Qed.

Lemma readBindings_wp data n version sources acc r :
  reader_ok data r → Forall (fragment_ok sources) acc →
  wp False (readBindings n version sources acc)
    (λ o r, whenSome (λ l, Forall (fragment_ok sources) l ∧ (length l = length acc + n)%nat) o) r.
Proof.
  revert acc r. induction n as [|n IH]; intros acc r Hr Hacc; cbn [readBindings].
  { apply wp_ret. split; [done|lia]. }
  apply wp_bind. eapply wp_conseq; [by apply rtgasmVarint_wp|]. intros func r1 [Hf Hr1].
  apply wp_bind. eapply wp_conseq; [by apply rtgasmVarint_wp|]. intros source r2 [Hs Hr2].
  apply wp_bind. eapply wp_conseq; [by apply rtgasmVarint_wp|]. intros entry r3 [He Hr3].
  apply wp_bind. eapply wp_conseq; [by apply readModes_wp|]. intros [[mode inputs] outputs] r4 Hr4.
  apply wp_bind. eapply wp_conseq; [by apply rtgasmBytes_wp|]. intros code r5 [[Hc _] Hr5].
  cbv zeta. destruct (bindingRefused _ _) eqn:Href; [by apply wp_ret|].
  eapply wp_conseq.
  - apply IH; [done|]. apply Forall_app. split; [done|]. apply Forall_singleton.
    unfold fragment_ok. cbn. split_and!; try done.
    + by destruct Hs.
    + unfold bindingRefused in Href. cbn in Href. lia.
  - intros [l|] r6 Hl; [|done]. destruct Hl as [? Hlen]. split; [done|].
    rewrite length_app in Hlen. cbn [length] in Hlen. lia.
Qed.

Lemma countRefused_wp data count r :
  reader_ok data r →
  wp False (countRefused count) (λ b r, (b = false → 0 ≤ count ≤ 8192) ∧ reader_ok data r) r.
Proof.
  intros Hr. apply wp_bind, wp_get, wp_ret. split; [|done]. intros Hc. lia.
Qed.

Lemma readFragments_wp data r :
  reader_ok data r →
  wp False readFragments (λ o _, whenSome (λ '(sources, bindings), fragments_ok sources bindings) o) r.
Proof.
  intros Hr. apply wp_bind. eapply (wp_conseq _ (λ _ r, reader_ok data r)).
  { apply wp_bind. eapply wp_conseq; [by apply rtgasmVarint_wp|]. intros count r1 [_ Hr1].
    destruct (count =? 0); [|by apply wp_ret].
    apply wp_bind. eapply wp_conseq; [by apply rtgasmVarint_wp|]. intros version r2 [_ Hr2].
    apply wp_bind. eapply wp_conseq; [by apply rtgasmVarint_wp|]. intros count' r3 [_ Hr3].
    by apply wp_ret. }
  intros [[version count]|] r1 Hr1; [|by apply wp_ret].
  apply wp_bind. eapply wp_conseq; [by apply countRefused_wp|]. intros [] r2 [Hc Hr2]; [by apply wp_ret|].
  specialize (Hc eq_refl).
  apply wp_bind. eapply wp_conseq; [by apply readSources_wp|].
  intros [sources|] r3 [Hs Hr3]; [|by apply wp_ret]. destruct Hs as [Hs Hslen].
  unfold readBindingTable.
  apply wp_bind. eapply wp_conseq; [by apply rtgasmVarint_wp|]. intros count' r4 [_ Hr4].
  apply wp_bind. eapply wp_conseq; [by apply countRefused_wp|]. intros [] r5 [Hc' Hr5]; [by apply wp_ret|].
  specialize (Hc' eq_refl).
  apply wp_bind. eapply wp_conseq; [by eapply readBindings_wp|].
  intros [bindings|] r6 Hb; [|by apply wp_ret]. destruct Hb as [Hb Hblen].
  apply wp_bind, wp_get, wp_ret. destruct (_ && _); [|done]. cbn [whenSome].
  unfold fragments_ok, lenZ. cbn [length] in *. split_and!; [done|done|lia|lia].
Qed.

(** * The assembly child *)

Fixpoint onlyAssembly (cs : list (Z * list Z)) (payload : option (list Z))
    : res (option (list Z)) :=
  match cs with
  | [] => Ok payload
  | c :: cs =>
      if c.1 =? TagRTGAssembly then
        match payload with Some _ => Err | None => onlyAssembly cs (Some c.2) end
      else onlyAssembly cs payload
  end.

Lemma assemblyPayload_spec fuel data at_ cs ok payload :
  stream data at_ cs ok → (length cs < fuel)%nat →
  assemblyPayload fuel data at_ payload =
    (payload ← onlyAssembly cs payload; if ok then Ok payload else Err).
Proof.
  intros Hs. revert fuel payload.
  induction Hs as [at_ ->|at_ Hbad|at_ c next cs ok Hc Hs IH]; intros [|fuel] payload Hf;
    try (simpl in Hf; lia); cbn [assemblyPayload onlyAssembly].
  - by rewrite Z.ltb_irrefl.
  - bad_child Hbad.
  - destruct (child_loop_step _ _ _ _ Hc) as (->&->&_&H1&_&_&H4&H5&_).
    destruct Hc as [_ -> -> Hnext _ _ _ _]. cbn [mbind res_bind]. cbv zeta.
    assert ((lenZ data - (at_ + 6) <? lenZ c.2) = false) as -> by lia.
    rewrite H1, H5. cbn [orb mbind res_bind index]. rewrite <- Hnext. simpl in Hf.
    destruct (c.1 =? TagRTGAssembly); [|apply IH; lia]. destruct payload; [done|]. apply IH. lia.
Qed.

Lemma ReadRTGAssemblyFragments_inv data tables :
  bytes_ok data → ReadRTGAssemblyFragments data = Ok tables →
  ∃ cs payload, validUnitRoot data = Ok true ∧ stream data 14 cs true ∧
    onlyAssembly cs None = Ok payload ∧
    match payload with
    | None => tables = ([], [])
    | Some payload => ∃ r, readFragments (AR payload 0 true) = Some (Some tables, r)
    end.
Proof.
  intros Hb Hr. unfold ReadRTGAssemblyFragments in Hr.
  destruct (checkRoot_cases data Hb) as [Hc|[Hc Hv]]; rewrite Hc in Hr; [done|].
  cbn [mbind res_bind] in Hr. destruct (validUnitRoot_bytes data Hb Hv) as [Hl _].
  destruct (stream_total data 14 Hb ltac:(lia)) as (cs&ok&Hs).
  rewrite (assemblyPayload_spec _ _ _ cs ok) in Hr by (done || by eapply stream_fuel; [lia|]).
  destruct (onlyAssembly cs None) as [payload| |] eqn:Ho; [|done..]. destruct ok; [|done].
  exists cs, payload. split_and!; try done. cbn [mbind res_bind] in Hr.
  destruct payload as [payload|]; [|by injection Hr as <-].
  destruct (readFragments (AR payload 0 true)) as [[[t|] r]|]; cbn [mbind res_bind index] in Hr;
    [|done..]. injection Hr as ->. eauto.
Qed.

(** The children with another payload for the assembly child. *)
Definition withAssembly (payload : list Z) (cs : list (Z * list Z)) : list (Z * list Z) :=
  (λ c, if c.1 =? TagRTGAssembly then (TagRTGAssembly, payload) else c) <$> cs.

Lemma appendRTGASMNode_app out tag payload :
  appendRTGASMNode out tag payload = Ok (out ++ nodeBytes (tag, payload)).
Proof.
  unfold appendRTGASMNode, writeRTGASMUint32. cbv zeta. rewrite <- app_assoc.
  cbn [app]. change (u8 tag :: u8 (Z.shiftr tag 8) :: ?l) with (bytes16 tag ++ l).
  rewrite app_assoc, patchUint32Core_app by (rewrite lenZ_app; done).
  unfold nodeBytes. by rewrite <- app_assoc.
Qed.

Lemma replaceAssembly_spec fuel data payload at_ cs out old new :
  stream data at_ cs true → (length cs < fuel)%nat → onlyAssembly cs old = Ok new →
  replaceAssembly fuel data payload at_ out (bool_decide (is_Some old)) =
    Ok (out ++ childBytes (withAssembly payload cs), bool_decide (is_Some new)).
Proof.
  remember true as ok eqn:Hok. intros Hs. revert Hok fuel out old.
  induction Hs as [at_ ->|at_ Hbad|at_ c next cs ok Hc Hs IH]; intros Hok [|fuel] out old Hf Ho;
    try (simpl in Hf; lia); try done; cbn [replaceAssembly].
  - injection Ho as ->. rewrite (proj2 (Z.leb_gt _ _)) by lia.
    change (childBytes (withAssembly payload [])) with (@nil Z). by rewrite app_nil_r.
  - destruct (child_loop_step _ _ _ _ Hc) as (_&_&->&H1&_&H3&H4&_&H6).
    destruct Hc as [_ -> -> Hnext _ _ _ _]. cbn [mbind res_bind]. cbv zeta.
    rewrite H1, H3, H4, H6. cbn [orb]. simpl in Hf. cbn [onlyAssembly] in Ho.
    unfold withAssembly. rewrite fmap_cons, childBytes_cons. fold (withAssembly payload cs).
    destruct (Z.eqb_spec c.1 TagRTGAssembly) as [Htag|]; cbn [andb].
    + destruct old as [o|]; [done|]. rewrite bool_decide_eq_false_2 by by intros [].
      rewrite appendRTGASMNode_app. cbn [mbind res_bind]. rewrite <- Hnext, app_assoc, Htag.
      rewrite <- (IH Hok fuel (out ++ nodeBytes (TagRTGAssembly, payload)) (Some c.2)) by (done || lia).
      done.
    + cbn [mbind res_bind index]. rewrite <- Hnext, app_assoc. apply IH; [done|lia|done].
Qed.

(** The new unit has the new payload, and only that. *)
Lemma onlyAssembly_with payload cs old new :
  onlyAssembly cs old = Ok new →
  onlyAssembly (withAssembly payload cs) ((λ _, payload) <$> old) = Ok ((λ _, payload) <$> new).
Proof.
  revert old. induction cs as [|c cs IH]; intros old; cbn [onlyAssembly].
  { by intros [= ->]. }
  unfold withAssembly. rewrite fmap_cons. fold (withAssembly payload cs). cbn [onlyAssembly].
  destruct (Z.eqb_spec c.1 TagRTGAssembly) as [Htag|Htag].
  - rewrite Z.eqb_refl. cbn [fst snd]. destruct old; [done|]. cbn [fmap option_fmap option_map].
    apply (IH (Some c.2)).
  - rewrite (proj2 (Z.eqb_neq _ _)) by done. apply IH.
Qed.

(** * Attaching code *)

Definition withCode (b : RTGAssemblyBinding) (code : list Z) : RTGAssemblyBinding :=
  MkBinding (ab_Func b) (ab_Source b) (ab_Entry b) (ab_Mode b) (ab_Inputs b) (ab_Outputs b) code.

Lemma appendBindings_spec bindings original code payload out :
  lenZ bindings = lenZ original → lenZ code = lenZ bindings →
  appendBindings bindings original code payload = Ok out →
  out = payload ++ foldl appendBinding [] (zip_with withCode bindings code) ∧
  Forall2 (λ '(b, c) o, attachRefused b o c = false) (zip bindings code) original.
Proof.
  revert original code payload. induction bindings as [|b bindings IH];
    intros [|o original] [|c code] payload Hlo Hlc; unfold lenZ in *; cbn [length] in *; try lia;
    cbn [appendBindings].
  { intros [= <-]. rewrite app_nil_r. split; [done|constructor]. }
  cbn [head tail mbind res_bind index]. destruct (attachRefused b o c) eqn:Hr; [done|]. cbv zeta.
  intros (->&Hall)%IH; [|lia..]. split; [|cbn [zip zip_with]; by constructor].
  cbn [zip_with foldl]. rewrite (foldl_binding (appendBinding [] _)), appendBinding_app, app_nil_l.
  unfold appendRTGASMBytes, appendRTGASMVarint. cbv zeta. rewrite !appendVarint_app.
  cbn [withCode ab_Func ab_Source ab_Entry ab_Mode ab_Inputs ab_Outputs ab_Code].
  by rewrite <- !app_assoc.
Qed.

Lemma attach_fragment_ok sources b o c :
  attachRefused b o c = false → fragment_ok sources o → fragment_ok sources (withCode b c).
Proof.
  intros Ha (Hf&Hs&He&Hr&_). unfold fragment_ok, attachRefused, maxFragment in *. cbn.
  unfold bindingRefused, i31_ok in *. cbn. pose proof (lenZ_nonneg c). split_and!; lia.
Qed.

Lemma attached_ok sources original bindings code :
  fragments_ok sources original →
  Forall2 (λ '(b, c) o, attachRefused b o c = false) (zip bindings code) original →
  lenZ bindings = lenZ original → lenZ code = lenZ bindings →
  fragments_ok sources (zip_with withCode bindings code).
Proof.
  intros (Hs&Hf&Hl&Hlo) Hall Hlb Hlc. unfold fragments_ok. split_and!; [done| |done|].
  - clear Hl Hlo Hs. revert bindings code Hlb Hlc Hall.
    induction Hf as [|o original Ho _ IH]; intros [|b bindings] [|c code] Hlb Hlc Hall;
      unfold lenZ in *; cbn [length] in *; try lia; cbn [zip_with]; [constructor|].
    inversion Hall; subst. constructor; [by eapply attach_fragment_ok|]. apply IH; [lia..|done].
  - unfold lenZ in *. rewrite length_zip_with. lia.
Qed.

Lemma attach_payload sources (bindings l : list RTGAssemblyBinding) :
  lenZ l = lenZ bindings →
  appendRTGASMVarint (foldl appendRTGASMSource (appendRTGASMVarint (appendRTGASMVarint
    (appendRTGASMVarint [] 0) 2) (lenZ sources)) sources) (lenZ bindings) ++
    foldl appendBinding [] l = encodeRTGAssemblyCore sources l.
Proof.
  intros Hl. rewrite encodeRTGAssemblyCore_app, <- Hl. unfold appendRTGASMVarint.
  rewrite (foldl_ext_all appendRTGASMSource appendSource).
  - rewrite foldl_source, !appendVarint_app. by rewrite <- !app_assoc.
  - intros out s. unfold appendRTGASMSource, appendRTGASMBytes, appendRTGASMVarint, appendSource.
    cbv zeta. by rewrite appendBytes_app.
Qed.

Lemma onlyAssembly_bytes cs acc payload :
  Forall (λ c, bytes_ok c.2) cs → whenSome bytes_ok acc → onlyAssembly cs acc = Ok payload →
  whenSome bytes_ok payload.
Proof.
  intros Hcs. revert acc. induction Hcs as [|c cs Hc _ IH]; intros acc Hacc; cbn [onlyAssembly].
  { by intros [= <-]. }
  destruct (c.1 =? TagRTGAssembly); [|by apply IH]. destruct acc; [done|]. by apply (IH (Some c.2)).
Qed.

Lemma stream_children_bytes data cs :
  bytes_ok data → 14 ≤ lenZ data → stream data 14 cs true → bytes_ok (childBytes cs).
Proof.
  intros Hb Hl Hs. destruct (stream_bytes _ _ _ Hs) as [<- _]; [lia|]. by apply sublistZ_Forall.
Qed.

(** Attaching rewrites the assembly child of a unit that has one. *)
Lemma Attach_inv data bindings code out :
  bytes_ok data → AttachRTGAssemblyFragments data bindings code = Ok out →
  ∃ cs old sources original, stream data 14 cs true ∧ validUnitRoot data = Ok true ∧
    onlyAssembly cs None = Ok (Some old) ∧
    ReadRTGAssemblyFragments data = Ok (sources, original) ∧
    fragments_ok sources (zip_with withCode bindings code) ∧
    out = unitOf (withAssembly
      (encodeRTGAssemblyCore sources (zip_with withCode bindings code)) cs).
Proof.
  intros Hb Ha. unfold AttachRTGAssemblyFragments in Ha.
  destruct (ReadRTGAssemblyFragments data) as [[sources original]| |] eqn:Hr; [|done..].
  destruct (ReadRTGAssemblyFragments_inv _ _ Hb Hr) as (cs&payload&Hv&Hs&Ho&Hp).
  destruct (validUnitRoot_bytes data Hb Hv) as [Hl Hroot]. cbn [mbind res_bind] in Ha.
  destruct (_ || _) eqn:Hlen; [done|].
  assert (lenZ bindings = lenZ original ∧ lenZ code = lenZ bindings) as [Hlb Hlc] by lia. clear Hlen.
  destruct (appendBindings _ _ _ _) as [p| |] eqn:Hab in Ha; [|done..].
  apply appendBindings_spec in Hab as [-> Hall]; [|done..].
  rewrite attach_payload in Ha by (unfold lenZ in *; rewrite length_zip_with; lia).
  cbn [mbind res_bind] in Ha. rewrite sliceZ_Some in Ha by lia. cbn [mbind res_bind index] in Ha.
  set (new := encodeRTGAssemblyCore _ _) in *.
  pose proof (replaceAssembly_spec (S (length data)) data new 14 cs (sublistZ data 0 14) None payload
    Hs ltac:(by eapply stream_fuel; [lia|]) Ho) as Hrep.
  rewrite bool_decide_eq_false_2 in Hrep by by intros []. rewrite Hrep in Ha.
  cbn [mbind res_bind] in Ha. destruct payload as [old|]; [|done].
  rewrite bool_decide_eq_true_2 in Ha by done. cbn [check mbind res_bind] in Ha.
  destruct Hp as [r Hp].
  exists cs, old, sources, original. split_and!; try done.
  - apply (attached_ok _ original); try done.
    pose proof (readFragments_wp old (AR old 0 true)) as Hw. unfold wp in Hw. rewrite Hp in Hw.
    apply Hw. repeat split; [done|].
    apply (onlyAssembly_bytes cs None (Some old)); [|done..].
    apply children_bytes. eapply stream_children_bytes; [exact Hb|lia|done].
  - unfold writeRTGASMUint32 in Ha. destruct (root_take data) as [Hl14 Ht]; [lia|done|].
    rewrite patch_unit in Ha by done. by injection Ha as <-.
Qed.

(** * The unit with its code *)

Lemma visitAll_withAssembly payload cs sc : visitAll (withAssembly payload cs) sc = visitAll cs sc.
Proof.
  revert sc. induction cs as [|c cs IH]; intros sc; [done|].
  unfold withAssembly. rewrite fmap_cons. fold (withAssembly payload cs). cbn [visitAll].
  destruct (Z.eqb_spec c.1 TagRTGAssembly) as [Htag|].
  - cbn [fst snd]. rewrite Htag, (visitChild_opaque _ payload c.2) by (split; by_decision).
    by destruct (visitChild _ _ _); cbn [mbind res_bind].
  - by destruct (visitChild _ _ _); cbn [mbind res_bind].
Qed.

Lemma onlyAssembly_some cs new :
  onlyAssembly cs None = Ok (Some new) → existsb (λ c, c.1 =? TagRTGAssembly) cs = true.
Proof.
  induction cs as [|c cs IH]; cbn [onlyAssembly existsb]; [done|].
  destruct (c.1 =? TagRTGAssembly); [done|apply IH].
Qed.

Lemma child_length cs c : In c cs → lenZ c.2 ≤ lenZ (childBytes cs).
Proof.
  induction cs as [|d cs IH]; [done|]. rewrite childBytes_cons, lenZ_app, nodeBytes_length.
  pose proof (lenZ_nonneg d.2). pose proof (lenZ_nonneg (childBytes cs)).
  intros [->|Hin]; [lia|]. specialize (IH Hin). lia.
Qed.

(** A unit whose assembly has been replaced, and which fits. *)
Lemma withAssembly_unit data cs payload :
  unit_of data cs → bytes_ok (unitOf (withAssembly payload cs)) →
  lenZ (unitOf (withAssembly payload cs)) < 2 ^ 32 →
  unit_of (unitOf (withAssembly payload cs)) (withAssembly payload cs).
Proof.
  intros (_&Hok&_&_) Hb Hl. rewrite unitOf_length in Hl. apply unit_of_intro.
  - apply Forall_forall. intros c Hin.
    apply list_elem_of_In in Hin. pose proof (child_length _ c Hin) as Hc.
    unfold withAssembly in Hin. apply in_map_iff in Hin as (d&<-&Hd%list_elem_of_In).
    rewrite Forall_forall in Hok. destruct (Hok d Hd) as [Ht ?].
    destruct (d.1 =? TagRTGAssembly); split; cbn [fst snd] in *; try done; lia.
  - unfold too_big. lia.
  - rewrite unitOf_split in Hb. by apply Forall_app in Hb as [_ ?].
Qed.

Lemma ReadRTGAssemblyFragments_unit data cs sources bindings :
  unit_of data cs → fragments_ok sources bindings →
  onlyAssembly cs None = Ok (Some (encodeRTGAssemblyCore sources bindings)) →
  ReadRTGAssemblyFragments data = Ok (sources, bindings).
Proof.
  intros Hu Hok Ho. destruct (unit_of_valid _ _ Hu) as (Hv&Hs&Hb).
  unfold ReadRTGAssemblyFragments, checkRoot. rewrite Hv. cbn [mbind res_bind check].
  destruct (validUnitRoot_bytes data Hb Hv) as [Hl _].
  rewrite (assemblyPayload_spec _ _ _ cs true) by (done || by eapply stream_fuel; [lia|]).
  rewrite Ho. cbn [mbind res_bind].
  destruct (fragments_payload _ _ Hok) as [r ->]. done.
Qed.

Lemma HasRTGAssembly_unit data cs :
  unit_of data cs → HasRTGAssembly data = Ok (existsb (λ c, c.1 =? TagRTGAssembly) cs).
Proof.
  intros Hu. destruct (unit_of_valid _ _ Hu) as (Hv&Hs&Hb).
  unfold HasRTGAssembly. rewrite Hv. cbn [mbind res_bind negb].
  destruct (validUnitRoot_bytes data Hb Hv) as [Hl _].
  apply (hasAssembly_loop_spec _ _ _ _ true); [done|]. by eapply stream_fuel; [lia|].
Qed.
