(* ===== verification/CoreCache.v ===== *)
(** The cache of checked packages (internal/unit/frontend_cache.go): the tables a
    package needs to be linked, as one byte string.

    [Token], [Decl] and [Func] are the records of the core model. *)

From S2P Require Import Prelude.
From S2P Require Import GoInt.
From S2P Require Import WireReader.
From S2P Require Import WireTables.
From S2P Require Import CoreModel.

(** * Data (model_shared.go) *)

Record Import := MkImport {
  li_NameTok : Z; li_PathTok : Z
}.

Record Symbol := MkSymbol {
  ls_Name : list Z; ls_Package : Z; ls_Token : Z
}.

Record TypeRef := MkTypeRef {
  lt_Kind : Z; lt_Token : Z; lt_BaseTok : Z; lt_DotTok : Z; lt_Package : Z; lt_Symbol : Z
}.

Record Call := MkCall {
  lc_Kind : Z; lc_CalleeTok : Z; lc_BaseTok : Z; lc_DotTok : Z
}.

Record NameRef := MkNameRef {
  lr_Kind : Z; lr_Token : Z; lr_Index : Z; lr_Package : Z
}.

Record Selector := MkSelector {
  lv_BaseTok : Z; lv_DotTok : Z; lv_NameTok : Z; lv_BaseKind : Z; lv_BaseIndex : Z;
  lv_BasePackage : Z; lv_Package : Z; lv_Symbol : Z
}.

Record ConcurrencySite := MkConcurrencySite {
  cs_Kind : Z; cs_Token : Z; cs_Direction : Z; cs_ReceiveArity : Z; cs_ElementType : list Z
}.

(** A program between lowering and linking; [LexicalFuncs] is transient. *)
Record Program := MkProgram {
  lp_Package : list Z; lp_ImportPath : list Z; lp_Text : list Z; lp_Tokens : list Token;
  lp_Imports : list Import; lp_Symbols : list Symbol; lp_Decls : list Decl;
  lp_Funcs : list Func; lp_TypeRefs : list TypeRef; lp_Calls : list Call;
  lp_Refs : list NameRef; lp_Selectors : list Selector;
  lp_ConcurrencySites : list ConcurrencySite; lp_Packages : list PackageInfo;
  lp_RTGAssembly : list RTGAssemblySource; lp_RTGAssemblyFuncs : list RTGAssemblyBinding;
  lp_Entrypoint : Z; lp_ForeignPrograms : list ForeignProgram
}.

(** [CoreProgramFrom]: the tables a backend needs. *)
Definition CoreProgramFrom (program : Program) : CoreProgram :=
  MkCore (lp_Package program) (lp_ImportPath program) (lp_Text program) (lp_Tokens program)
    (lp_Decls program) (lp_Funcs program) (lp_Packages program) (lp_RTGAssembly program)
    (lp_RTGAssemblyFuncs program) (lp_Entrypoint program) (lp_ForeignPrograms program).

(** * Writing *)

Definition frontendCacheMagic : list Z := [82; 86; 70; 67; 50].

Definition appendFrontendCacheInt (out : list Z) (value : Z) : list Z :=
  appendVarint out (value + 1).

Definition appendFrontendCacheBytes (out value : list Z) : list Z :=
  let out := appendVarint out (lenZ value) in
  out ++ value.

Definition appendFrontendCacheString (out value : list Z) : list Z :=
  let out := appendVarint out (lenZ value) in
  out ++ value.

(** The bodies of the loops of [MarshalFrontendCache], one per table. *)
Definition appendCacheToken (out : list Z) (item : Token) : list Z :=
  let out := appendFrontendCacheInt out (Z.land (t_KindLine item) 255) in
  let out := appendFrontendCacheInt out (t_Start item) in
  let out := appendFrontendCacheInt out (t_Size item) in
  appendFrontendCacheInt out (Z.shiftr (t_KindLine item) 8).

Definition appendCacheImport (out : list Z) (item : Import) : list Z :=
  let out := appendFrontendCacheInt out (li_NameTok item) in
  appendFrontendCacheInt out (li_PathTok item).

Definition appendCacheSymbol (out : list Z) (item : Symbol) : list Z :=
  let out := appendFrontendCacheString out (ls_Name item) in
  let out := appendFrontendCacheInt out (ls_Package item) in
  appendFrontendCacheInt out (ls_Token item).

Definition appendCacheDecl (out : list Z) (item : Decl) : list Z :=
  let out := appendFrontendCacheInt out (dc_Kind item) in
  let out := appendFrontendCacheInt out (dc_NameStart item) in
  let out := appendFrontendCacheInt out (dc_NameEnd item) in
  let out := appendFrontendCacheInt out (dc_StartTok item) in
  appendFrontendCacheInt out (dc_EndTok item).

Definition appendCacheFunc (out : list Z) (item : Func) : list Z :=
  let out := appendFrontendCacheInt out (fn_NameStart item) in
  let out := appendFrontendCacheInt out (fn_NameEnd item) in
  let out := appendFrontendCacheInt out (fn_StartTok item) in
  let out := appendFrontendCacheInt out (fn_NameTok item) in
  let out := appendFrontendCacheInt out (fn_ReceiverStart item) in
  let out := appendFrontendCacheInt out (fn_ReceiverEnd item) in
  let out := appendFrontendCacheInt out (fn_BodyStart item) in
  let out := appendFrontendCacheInt out (fn_BodyEnd item) in
  appendFrontendCacheInt out (fn_EndTok item).

Definition appendCacheTypeRef (out : list Z) (item : TypeRef) : list Z :=
  let out := appendFrontendCacheInt out (lt_Kind item) in
  let out := appendFrontendCacheInt out (lt_Token item) in
  let out := appendFrontendCacheInt out (lt_BaseTok item) in
  let out := appendFrontendCacheInt out (lt_DotTok item) in
  let out := appendFrontendCacheInt out (lt_Package item) in
  appendFrontendCacheInt out (lt_Symbol item).

Definition appendCacheCall (out : list Z) (item : Call) : list Z :=
  let out := appendFrontendCacheInt out (lc_Kind item) in
  let out := appendFrontendCacheInt out (lc_CalleeTok item) in
  let out := appendFrontendCacheInt out (lc_BaseTok item) in
  appendFrontendCacheInt out (lc_DotTok item).

Definition appendCacheNameRef (out : list Z) (item : NameRef) : list Z :=
  let out := appendFrontendCacheInt out (lr_Kind item) in
  let out := appendFrontendCacheInt out (lr_Token item) in
  let out := appendFrontendCacheInt out (lr_Index item) in
  appendFrontendCacheInt out (lr_Package item).

Definition appendCacheSelector (out : list Z) (item : Selector) : list Z :=
  let out := appendFrontendCacheInt out (lv_BaseTok item) in
  let out := appendFrontendCacheInt out (lv_DotTok item) in
  let out := appendFrontendCacheInt out (lv_NameTok item) in
  let out := appendFrontendCacheInt out (lv_BaseKind item) in
  let out := appendFrontendCacheInt out (lv_BaseIndex item) in
  let out := appendFrontendCacheInt out (lv_BasePackage item) in
  let out := appendFrontendCacheInt out (lv_Package item) in
  appendFrontendCacheInt out (lv_Symbol item).

Definition appendCacheConcurrencySite (out : list Z) (item : ConcurrencySite) : list Z :=
  let out := appendFrontendCacheInt out (cs_Kind item) in
  let out := appendFrontendCacheInt out (cs_Token item) in
  let out := appendFrontendCacheInt out (cs_Direction item) in
  let out := appendFrontendCacheInt out (cs_ReceiveArity item) in
  appendFrontendCacheString out (cs_ElementType item).

(** [out = appendInt(out, len(items))] and the loop over the items. *)
Definition appendCacheTable {A} (append : list Z → A → list Z) (out : list Z) (items : list A)
    : list Z :=
  foldl append (appendFrontendCacheInt out (lenZ items)) items.

Definition MarshalFrontendCache (program : Program) : list Z :=
  let out := frontendCacheMagic in
  let out := appendFrontendCacheString out (lp_Package program) in
  let out := appendFrontendCacheString out (lp_ImportPath program) in
  let out := appendFrontendCacheBytes out (lp_Text program) in
  let out := appendCacheTable appendCacheToken out (lp_Tokens program) in
  let out := appendCacheTable appendCacheImport out (lp_Imports program) in
  let out := appendCacheTable appendCacheSymbol out (lp_Symbols program) in
  let out := appendCacheTable appendCacheDecl out (lp_Decls program) in
  let out := appendCacheTable appendCacheFunc out (lp_Funcs program) in
  let out := appendCacheTable appendCacheTypeRef out (lp_TypeRefs program) in
  let out := appendCacheTable appendCacheCall out (lp_Calls program) in
  let out := appendCacheTable appendCacheNameRef out (lp_Refs program) in
  let out := appendCacheTable appendCacheSelector out (lp_Selectors program) in
  appendCacheTable appendCacheConcurrencySite out (lp_ConcurrencySites program).

(** * Reading *)

Record frontendCacheReader := CR { cr_data : list Z; cr_pos : Z; cr_ok : bool }.

Definition cr_advance (n : Z) : GoM frontendCacheReader unit :=
  modify (λ r, CR (cr_data r) (cr_pos r + n) (cr_ok r)).
Definition cr_fail : GoM frontendCacheReader unit := modify (λ r, CR (cr_data r) (cr_pos r) false).

(** [for r.pos < len(r.data) && shift < 63]: at most nine iterations. *)
Fixpoint rawVarint_loop (fuel : nat) (value shift : Z) : GoM frontendCacheReader Z :=
  match fuel with
  | O => _ ← cr_fail; mret 0
  | S fuel =>
      r ← get;
      if (cr_pos r <? lenZ (cr_data r)) && (shift <? 63) then
        part ← lift (cr_data r !!z cr_pos r);
        _ ← cr_advance 1;
        let value := Z.lor value (Z.shiftl (Z.land part 127) shift) in
        if part <? 128 then mret value else rawVarint_loop fuel value (shift + 7)
      else _ ← cr_fail; mret 0
  end.

Definition rawVarint : GoM frontendCacheReader Z :=
  r ← get; if negb (cr_ok r) then mret 0 else rawVarint_loop 10 0 0.

Definition intValue : GoM frontendCacheReader Z := value ← rawVarint; mret (value - 1).

Definition cacheCount : GoM frontendCacheReader Z :=
  value ← intValue;
  if (value <? 0) || (Z.shiftl 1 24 <? value) then _ ← cr_fail; mret 0 else mret value.

Definition byteValue : GoM frontendCacheReader (list Z) :=
  size ← rawVarint;
  r ← get;
  if negb (cr_ok r) || (size <? 0) || (lenZ (cr_data r) - cr_pos r <? size) then
    _ ← cr_fail; mret []
  else
    value ← lift (sliceZ (cr_data r) (cr_pos r) (cr_pos r + size));
    _ ← cr_advance size;
    mret value.

Definition stringValue : GoM frontendCacheReader (list Z) := byteValue.

(** The bodies of the loops of [UnmarshalFrontendCache]. *)
Definition readCacheToken : GoM frontendCacheReader Token :=
  kind ← intValue;
  start ← intValue;
  size ← intValue;
  line ← intValue;
  mret (MakeToken kind start size line).

Definition readCacheImport : GoM frontendCacheReader Import :=
  nameTok ← intValue;
  pathTok ← intValue;
  mret (MkImport nameTok pathTok).

Definition readCacheSymbol : GoM frontendCacheReader Symbol :=
  name ← stringValue;
  package ← intValue;
  token ← intValue;
  mret (MkSymbol name package token).

Definition readCacheDecl : GoM frontendCacheReader Decl :=
  kind ← intValue;
  nameStart ← intValue;
  nameEnd ← intValue;
  startTok ← intValue;
  endTok ← intValue;
  mret (MkDecl kind nameStart nameEnd startTok endTok).

Definition readCacheFunc : GoM frontendCacheReader Func :=
  nameStart ← intValue;
  nameEnd ← intValue;
  startTok ← intValue;
  nameTok ← intValue;
  receiverStart ← intValue;
  receiverEnd ← intValue;
  bodyStart ← intValue;
  bodyEnd ← intValue;
  endTok ← intValue;
  mret (MkFunc nameStart nameEnd startTok nameTok receiverStart receiverEnd bodyStart bodyEnd endTok).

Definition readCacheTypeRef : GoM frontendCacheReader TypeRef :=
  kind ← intValue;
  token ← intValue;
  baseTok ← intValue;
  dotTok ← intValue;
  package ← intValue;
  symbol ← intValue;
  mret (MkTypeRef kind token baseTok dotTok package symbol).

Definition readCacheCall : GoM frontendCacheReader Call :=
  kind ← intValue;
  calleeTok ← intValue;
  baseTok ← intValue;
  dotTok ← intValue;
  mret (MkCall kind calleeTok baseTok dotTok).

Definition readCacheNameRef : GoM frontendCacheReader NameRef :=
  kind ← intValue;
  token ← intValue;
  index ← intValue;
  package ← intValue;
  mret (MkNameRef kind token index package).

Definition readCacheSelector : GoM frontendCacheReader Selector :=
  baseTok ← intValue;
  dotTok ← intValue;
  nameTok ← intValue;
  baseKind ← intValue;
  baseIndex ← intValue;
  basePackage ← intValue;
  package ← intValue;
  symbol ← intValue;
  mret (MkSelector baseTok dotTok nameTok baseKind baseIndex basePackage package symbol).

Definition readCacheConcurrencySite : GoM frontendCacheReader ConcurrencySite :=
  kind ← intValue;
  token ← intValue;
  direction ← intValue;
  receiveArity ← intValue;
  elementType ← stringValue;
  mret (MkConcurrencySite kind token direction receiveArity elementType).

(** [make([]T, r.count())] and the loop that fills it. *)
Fixpoint cacheLoop {A} (n : nat) (rd : GoM frontendCacheReader A) (items : list A)
    : GoM frontendCacheReader (list A) :=
  match n with
  | O => mret items
  | S n => item ← rd; cacheLoop n rd (items ++ [item])
  end.

Definition cacheTable {A} (rd : GoM frontendCacheReader A) : GoM frontendCacheReader (list A) :=
  count ← cacheCount; cacheLoop (Z.to_nat count) rd [].

(** The fields of the program in the order [UnmarshalFrontendCache] reads them. *)
Definition readCache : GoM frontendCacheReader Program :=
  package ← stringValue;
  importPath ← stringValue;
  text ← byteValue;
  tokens ← cacheTable readCacheToken;
  imports ← cacheTable readCacheImport;
  symbols ← cacheTable readCacheSymbol;
  decls ← cacheTable readCacheDecl;
  funcs ← cacheTable readCacheFunc;
  typeRefs ← cacheTable readCacheTypeRef;
  calls ← cacheTable readCacheCall;
  refs ← cacheTable readCacheNameRef;
  selectors ← cacheTable readCacheSelector;
  concurrencySites ← cacheTable readCacheConcurrencySite;
  mret (MkProgram package importPath text tokens imports symbols decls funcs
    typeRefs calls refs selectors concurrencySites [] [] [] 0 []).

Definition UnmarshalFrontendCache (data : list Z) : res Program :=
  if lenZ data <? lenZ frontendCacheMagic then Err
  else
    magic ← index (sliceZ data 0 (lenZ frontendCacheMagic));
    if negb (bool_decide (magic = frontendCacheMagic)) then Err
    else
      '(program, r) ← index (readCache (CR data (lenZ frontendCacheMagic) true));
      if cr_ok r && (cr_pos r =? lenZ (cr_data r)) then Ok program else Err.
