(* ===== verification/CoreCacheFacts.v ===== *)
(** The package cache reads back what it writes, and no proper prefix of it.

    Reading a cache never panics, and depends on the bytes it consumed only: an
    accepted cache is not a proper prefix of another. *)

From S2P Require Import Prelude.
From S2P Require Import GoInt.
From S2P Require Import WireReader.
From S2P Require Import WireFacts.
From S2P Require Import WireTables.
From S2P Require Import CoreModel.
From S2P Require Import CoreStream.
From S2P Require Import CoreCache.

Abbreviation CR_at := (λ data pos, CR data pos true).

(** * Integers and strings *)

Lemma yields_raw_loop fuel v value shift :
  0 ≤ v → 0 ≤ shift → 0 ≤ value < 2 ^ shift → v < 2 ^ (63 - shift) → shift < 63 →
  63 ≤ shift + 7 * Z.of_nat fuel → shift `mod` 7 = 0 →
  yields CR_at (rawVarint_loop fuel value shift) (varint v) (value + v * 2 ^ shift).
Proof.
  revert value shift fuel. induction v as [v Hv|v Hv IH] using varint_ind;
    intros value shift [|fuel] H0 Hs Hvalue Hlt H63 Hfuel Hmod pre post; try lia;
    cbn [rawVarint_loop]; unfold mbind, GoM_bind, get, lift, cr_advance, modify, mret, GoM_ret;
    cbn [cr_pos cr_data].
  - rewrite varint_small by done. rewrite u8_small by (unfold byte_ok; lia). cbn [app].
    assert (lenZ pre < lenZ (pre ++ v :: post)) as Hpos.
    { autorewrite with lenZ. pose proof (lenZ_nonneg post). lia. }
    rewrite (proj2 (Z.ltb_lt _ _) Hpos), (proj2 (Z.ltb_lt shift 63)) by done. cbn [andb].
    rewrite lookupZ_app_r, Z.sub_diag by lia. rewrite lookupZ_cons_0. cbn [cr_pos cr_data cr_ok].
    change 127 with (Z.ones 7). rewrite Z.land_ones, Z.mod_small by lia.
    rewrite (proj2 (Z.ltb_lt v 128)) by done. by rewrite lor_shiftl_add by lia.
  - rewrite varint_big by done. set (b := Z.lor (u8 v) 128). cbn [app].
    set (rest := varint _ ++ post).
    assert (lenZ pre < lenZ (pre ++ b :: rest)) as Hpos.
    { autorewrite with lenZ. pose proof (lenZ_nonneg rest). lia. }
    rewrite (proj2 (Z.ltb_lt _ _) Hpos), (proj2 (Z.ltb_lt shift 63)) by done. cbn [andb].
    rewrite lookupZ_app_r, Z.sub_diag by lia. rewrite lookupZ_cons_0. cbn [cr_pos cr_data cr_ok].
    pose proof (continued_high v) as Hhigh. fold b in Hhigh.
    rewrite (proj2 (Z.ltb_ge b 128)) by done. unfold b at 1. rewrite continued_low.
    pose proof (Z.mod_pos_bound v 128 ltac:(lia)) as Hm. rewrite lor_shiftl_add by lia.
    replace (pre ++ b :: rest) with ((pre ++ [b]) ++ varint (Z.shiftr v 7) ++ post)
      by (unfold rest; by rewrite <- app_assoc).
    replace (lenZ pre + 1) with (lenZ (pre ++ [b])) by (autorewrite with lenZ; lia).
    assert (shift + 7 < 63) as Hs7.
    { assert (2 ^ 7 < 2 ^ (63 - shift)) as Hp by (change (2 ^ 7) with 128; lia).
      apply Z.pow_lt_mono_r_iff in Hp; lia. }
    rewrite (IH _ _ fuel).
    + f_equal. f_equal; [|f_equal; autorewrite with lenZ; lia].
      rewrite Z.pow_add_r by lia. rewrite Z.shiftr_div_pow2 by lia. change (2 ^ 7) with 128.
      rewrite (Z.div_mod v 128) at 3 by lia. ring.
    + rewrite Z.shiftr_div_pow2 by lia. apply Z.div_pos; lia.
    + lia.
    + rewrite Z.pow_add_r by lia. assert (0 < 2 ^ shift) by (apply Z.pow_pos_nonneg; lia). nia.
    + rewrite Z.shiftr_div_pow2 by lia. apply Z.div_lt_upper_bound; [lia|].
      rewrite <- Z.pow_add_r by lia. by replace (7 + (63 - (shift + 7))) with (63 - shift) by lia.
    + lia.
    + lia.
    + Z.div_mod_to_equations. lia.
Qed.

Lemma yields_raw v : 0 ≤ v < 2 ^ 63 → yields CR_at rawVarint (varint v) v.
Proof.
  intros Hv pre post. unfold rawVarint, mbind, GoM_bind, get. cbn [cr_ok negb].
  rewrite (yields_raw_loop 10 v 0 0) by (rewrite ?Z.sub_0_r; first [done|lia]).
  f_equal. f_equal. lia.
Qed.

(** What an [int] field can hold: one more must not overflow, and -1 is the least. *)
Definition int_ok (v : Z) : Prop := -1 ≤ v < 2 ^ 63 - 1.
Definition string_ok (s : list Z) : Prop := lenZ s < 2 ^ 63.

Lemma yields_int v : int_ok v → yields CR_at intValue (varint (v + 1)) v.
Proof.
  intros Hv. unfold int_ok in Hv. eapply yields_last; [apply yields_raw; lia|].
  eapply yields_eq; [apply yields_ret|done|lia].
Qed.

Lemma yields_byteValue s : string_ok s → yields CR_at byteValue (varint (lenZ s) ++ s) s.
Proof.
  intros Hs. unfold string_ok in Hs. pose proof (lenZ_nonneg s) as H0. unfold byteValue.
  eapply yields_bind; [by apply yields_raw|].
  intros pre post. unfold mbind, GoM_bind, get. cbn [cr_ok cr_data cr_pos negb orb].
  pose proof (lenZ_nonneg pre). pose proof (lenZ_nonneg post). rewrite !lenZ_app.
  destruct (Z.ltb_spec (lenZ s) 0); [lia|].
  destruct (Z.ltb_spec (lenZ pre + (lenZ s + lenZ post) - lenZ pre) (lenZ s)); [lia|].
  cbn [orb]. rewrite sliceZ_Some by (rewrite ?lenZ_app; lia). by rewrite sublistZ_app_exact.
Qed.

Lemma yields_stringValue s : string_ok s → yields CR_at stringValue (varint (lenZ s) ++ s) s.
Proof. apply yields_byteValue. Qed.

Lemma appendFrontendCacheInt_app out v : appendFrontendCacheInt out v = out ++ varint (v + 1).
Proof. apply appendVarint_app. Qed.

Lemma appendFrontendCacheString_app out s :
  appendFrontendCacheString out s = out ++ varint (lenZ s) ++ s.
Proof. unfold appendFrontendCacheString. by rewrite appendVarint_app, <- app_assoc. Qed.

(** * Records *)

(** A record of the cache: what its writer appends, its reader yields. *)
Class CacheCodec {A} (append : list Z → A → list Z) (rd : GoM frontendCacheReader A) := {
  cache_ok : A → Prop;
  cache_app out a : append out a = out ++ append [] a;
  cache_yields a : cache_ok a → yields CR_at rd (append [] a) a
}.

Ltac cache_append unfolding :=
  intros out a; destruct a; unfolding; cbv zeta; cbn;
  rewrite ?appendFrontendCacheString_app, ?appendFrontendCacheInt_app, ?app_nil_l, <- ?app_assoc;
  done.

Create HintDb cache.
#[export] Hint Resolve yields_int yields_stringValue : cache.

Ltac cache_fields :=
  rewrite ?appendFrontendCacheString_app, ?appendFrontendCacheInt_app, ?app_nil_l, <- ?app_assoc;
  match goal with |- yields _ _ ?bs _ => rewrite <- (app_nil_r bs) end; rewrite <- ?app_assoc;
  repeat first [ eapply yields_bind; [solve [eauto with cache]|cbv beta]
               | rewrite app_assoc; eapply yields_bind; [solve [eauto with cache]|cbv beta] ];
  apply yields_ret.

Definition Token_ok (a : Token) : Prop :=
  int_ok (t_Start a) ∧ int_ok (t_Size a) ∧ int_ok (Z.shiftr (t_KindLine a) 8).

Definition CacheImport_ok (a : Import) : Prop :=
  int_ok (li_NameTok a) ∧ int_ok (li_PathTok a).

Definition CacheSymbol_ok (a : Symbol) : Prop :=
  string_ok (ls_Name a) ∧ int_ok (ls_Package a) ∧ int_ok (ls_Token a).

Definition CacheTypeRef_ok (a : TypeRef) : Prop :=
  int_ok (lt_Kind a) ∧ int_ok (lt_Token a) ∧ int_ok (lt_BaseTok a) ∧ int_ok (lt_DotTok a) ∧
  int_ok (lt_Package a) ∧ int_ok (lt_Symbol a).

Definition CacheCall_ok (a : Call) : Prop :=
  int_ok (lc_Kind a) ∧ int_ok (lc_CalleeTok a) ∧ int_ok (lc_BaseTok a) ∧ int_ok (lc_DotTok a).

Definition CacheNameRef_ok (a : NameRef) : Prop :=
  int_ok (lr_Kind a) ∧ int_ok (lr_Token a) ∧ int_ok (lr_Index a) ∧ int_ok (lr_Package a).

Definition CacheSelector_ok (a : Selector) : Prop :=
  int_ok (lv_BaseTok a) ∧ int_ok (lv_DotTok a) ∧ int_ok (lv_NameTok a) ∧ int_ok (lv_BaseKind a)
  ∧ int_ok (lv_BaseIndex a) ∧ int_ok (lv_BasePackage a) ∧ int_ok (lv_Package a) ∧ int_ok
  (lv_Symbol a).

Definition CacheConcurrencySite_ok (a : ConcurrencySite) : Prop :=
  int_ok (cs_Kind a) ∧ int_ok (cs_Token a) ∧ int_ok (cs_Direction a) ∧ int_ok (cs_ReceiveArity
  a) ∧ string_ok (cs_ElementType a).

Definition CacheDecl_ok (a : Decl) : Prop :=
  int_ok (dc_Kind a) ∧ int_ok (dc_NameStart a) ∧ int_ok (dc_NameEnd a) ∧ int_ok (dc_StartTok a)
  ∧ int_ok (dc_EndTok a).

Definition CacheFunc_ok (a : Func) : Prop :=
  int_ok (fn_NameStart a) ∧ int_ok (fn_NameEnd a) ∧ int_ok (fn_StartTok a) ∧ int_ok (fn_NameTok
  a) ∧ int_ok (fn_ReceiverStart a) ∧ int_ok (fn_ReceiverEnd a) ∧ int_ok (fn_BodyStart a) ∧
  int_ok (fn_BodyEnd a) ∧ int_ok (fn_EndTok a).

#[export, refine] Instance Import_cache : CacheCodec appendCacheImport readCacheImport :=
  {| cache_ok := CacheImport_ok |}.
Proof.
  - cache_append ltac:(unfold appendCacheImport).
  - intros [] (?&?). cbn in *. unfold appendCacheImport, readCacheImport. cbv zeta. cbn.
    cache_fields.
Defined.

#[export, refine] Instance Symbol_cache : CacheCodec appendCacheSymbol readCacheSymbol :=
  {| cache_ok := CacheSymbol_ok |}.
Proof.
  - cache_append ltac:(unfold appendCacheSymbol).
  - intros [] (?&?&?). cbn in *. unfold appendCacheSymbol, readCacheSymbol. cbv zeta. cbn.
    cache_fields.
Defined.

#[export, refine] Instance TypeRef_cache : CacheCodec appendCacheTypeRef readCacheTypeRef :=
  {| cache_ok := CacheTypeRef_ok |}.
Proof.
  - cache_append ltac:(unfold appendCacheTypeRef).
  - intros [] (?&?&?&?&?&?). cbn in *. unfold appendCacheTypeRef, readCacheTypeRef. cbv zeta. cbn.
    cache_fields.
Defined.

#[export, refine] Instance Call_cache : CacheCodec appendCacheCall readCacheCall :=
  {| cache_ok := CacheCall_ok |}.
Proof.
  - cache_append ltac:(unfold appendCacheCall).
  - intros [] (?&?&?&?). cbn in *. unfold appendCacheCall, readCacheCall. cbv zeta. cbn.
    cache_fields.
Defined.

#[export, refine] Instance NameRef_cache : CacheCodec appendCacheNameRef readCacheNameRef :=
  {| cache_ok := CacheNameRef_ok |}.
Proof.
  - cache_append ltac:(unfold appendCacheNameRef).
  - intros [] (?&?&?&?). cbn in *. unfold appendCacheNameRef, readCacheNameRef. cbv zeta. cbn.
    cache_fields.
Defined.

#[export, refine] Instance Selector_cache : CacheCodec appendCacheSelector readCacheSelector :=
  {| cache_ok := CacheSelector_ok |}.
Proof.
  - cache_append ltac:(unfold appendCacheSelector).
  - intros [] (?&?&?&?&?&?&?&?). cbn in *. unfold appendCacheSelector, readCacheSelector. cbv zeta. cbn.
    cache_fields.
Defined.

#[export, refine] Instance ConcurrencySite_cache : CacheCodec appendCacheConcurrencySite readCacheConcurrencySite :=
  {| cache_ok := CacheConcurrencySite_ok |}.
Proof.
  - cache_append ltac:(unfold appendCacheConcurrencySite).
  - intros [] (?&?&?&?&?). cbn in *. unfold appendCacheConcurrencySite, readCacheConcurrencySite. cbv zeta. cbn.
    cache_fields.
Defined.

#[export, refine] Instance Decl_cache : CacheCodec appendCacheDecl readCacheDecl :=
  {| cache_ok := CacheDecl_ok |}.
Proof.
  - cache_append ltac:(unfold appendCacheDecl).
  - intros [] (?&?&?&?&?). cbn in *. unfold appendCacheDecl, readCacheDecl. cbv zeta. cbn.
    cache_fields.
Defined.

#[export, refine] Instance Func_cache : CacheCodec appendCacheFunc readCacheFunc :=
  {| cache_ok := CacheFunc_ok |}.
Proof.
  - cache_append ltac:(unfold appendCacheFunc).
  - intros [] (?&?&?&?&?&?&?&?&?). cbn in *. unfold appendCacheFunc, readCacheFunc. cbv zeta. cbn.
    cache_fields.
Defined.

(** A packed token is unpacked and packed again. *)
Lemma MakeToken_packed k start size :
  MakeToken (Z.land k 255) start size (Z.shiftr k 8) = MkToken k start size.
Proof.
  unfold MakeToken. f_equal. change 255 with (Z.ones 8). apply Z.bits_inj'. intros i Hi.
  rewrite Z.lor_spec, Z.land_spec. destruct (decide (i < 8)).
  - rewrite Z.ones_spec_low, Z.shiftl_spec_low by lia. by rewrite andb_true_r, orb_false_r.
  - rewrite Z.ones_spec_high, Z.shiftl_spec, Z.shiftr_spec by lia. rewrite andb_false_r. cbn [orb].
    f_equal. lia.
Qed.

#[export, refine] Instance Token_cache : CacheCodec appendCacheToken readCacheToken :=
  {| cache_ok := Token_ok |}.
Proof.
  - cache_append ltac:(unfold appendCacheToken).
  - intros [k start size] (?&?&?). cbn in *. unfold appendCacheToken, readCacheToken. cbv zeta. cbn.
    assert (int_ok (Z.land k 255)).
    { unfold int_ok. change 255 with (Z.ones 8). rewrite Z.land_ones by lia.
      pose proof (Z.mod_pos_bound k (2 ^ 8) ltac:(lia)). lia. }
    rewrite <- (MakeToken_packed k start size). cache_fields.
Defined.

(** * Tables *)

Definition table_fits {A} {append : list Z → A → list Z} {rd} `{!CacheCodec append rd}
    (items : list A) : Prop :=
  Forall cache_ok items ∧ lenZ items ≤ 2 ^ 24.

Section Tables.
Context {A : Type} {append : list Z → A → list Z} {rd : GoM frontendCacheReader A}.
Context `{!CacheCodec append rd}.

Lemma cache_foldl out items : foldl append out items = out ++ foldl append [] items.
Proof.
  revert out. induction items as [|a items IH]; intros out; cbn [foldl]; [by rewrite app_nil_r|].
  rewrite IH, (IH (append [] a)), (cache_app out a). by rewrite <- app_assoc.
Qed.

Lemma appendCacheTable_app out items :
  appendCacheTable append out items = out ++ appendCacheTable append [] items.
Proof.
  unfold appendCacheTable. rewrite !(cache_foldl (appendFrontendCacheInt _ _)).
  by rewrite !appendFrontendCacheInt_app, <- app_assoc.
Qed.

Lemma yields_loop acc items :
  Forall cache_ok items →
  yields CR_at (cacheLoop (length items) rd acc) (foldl append [] items) (acc ++ items).
Proof.
  intros Hok. revert acc. induction Hok as [|a items Ha _ IH]; intros acc; cbn [length cacheLoop foldl].
  { rewrite app_nil_r. apply yields_ret. }
  rewrite cache_foldl. eapply yields_bind; [by apply cache_yields|].
  eapply yields_eq; [apply IH|done|]. by rewrite <- app_assoc.
Qed.

Lemma yields_table items :
  table_fits items → yields CR_at (cacheTable rd) (appendCacheTable append [] items) items.
Proof.
  intros [Hok Hlen]. pose proof (lenZ_nonneg items). unfold cacheTable, appendCacheTable.
  rewrite cache_foldl, appendFrontendCacheInt_app, app_nil_l. eapply yields_bind.
  - eapply yields_last; [apply yields_int; unfold int_ok; lia|].
    change (Z.shiftl 1 24) with (2 ^ 24).
    assert ((lenZ items <? 0) || (2 ^ 24 <? lenZ items) = false) as -> by lia. apply yields_ret.
  - unfold lenZ. rewrite Nat2Z.id. by apply yields_loop.
Qed.
End Tables.

(** * Programs *)

Definition cache_fits (p : Program) : Prop :=
  string_ok (lp_Package p) ∧ string_ok (lp_ImportPath p) ∧ string_ok (lp_Text p) ∧
  table_fits (lp_Tokens p) ∧ table_fits (lp_Imports p) ∧ table_fits (lp_Symbols p) ∧
  table_fits (lp_Decls p) ∧ table_fits (lp_Funcs p) ∧ table_fits (lp_TypeRefs p) ∧
  table_fits (lp_Calls p) ∧ table_fits (lp_Refs p) ∧ table_fits (lp_Selectors p) ∧
  table_fits (lp_ConcurrencySites p).

(** What the cache keeps of a program. *)
Definition cached (p : Program) : Program :=
  MkProgram (lp_Package p) (lp_ImportPath p) (lp_Text p) (lp_Tokens p) (lp_Imports p)
    (lp_Symbols p) (lp_Decls p) (lp_Funcs p) (lp_TypeRefs p) (lp_Calls p) (lp_Refs p)
    (lp_Selectors p) (lp_ConcurrencySites p) [] [] [] 0 [].

Definition cacheBody (p : Program) : list Z :=
  (varint (lenZ (lp_Package p)) ++ lp_Package p) ++
  (varint (lenZ (lp_ImportPath p)) ++ lp_ImportPath p) ++
  (varint (lenZ (lp_Text p)) ++ lp_Text p) ++
  appendCacheTable appendCacheToken [] (lp_Tokens p) ++
  appendCacheTable appendCacheImport [] (lp_Imports p) ++
  appendCacheTable appendCacheSymbol [] (lp_Symbols p) ++
  appendCacheTable appendCacheDecl [] (lp_Decls p) ++
  appendCacheTable appendCacheFunc [] (lp_Funcs p) ++
  appendCacheTable appendCacheTypeRef [] (lp_TypeRefs p) ++
  appendCacheTable appendCacheCall [] (lp_Calls p) ++
  appendCacheTable appendCacheNameRef [] (lp_Refs p) ++
  appendCacheTable appendCacheSelector [] (lp_Selectors p) ++
  appendCacheTable appendCacheConcurrencySite [] (lp_ConcurrencySites p).

Lemma MarshalFrontendCache_body p : MarshalFrontendCache p = frontendCacheMagic ++ cacheBody p.
Proof.
  unfold MarshalFrontendCache, cacheBody. cbv zeta.
  rewrite (appendCacheTable_app _ (lp_ConcurrencySites p)), (appendCacheTable_app _ (lp_Selectors p)),
    (appendCacheTable_app _ (lp_Refs p)), (appendCacheTable_app _ (lp_Calls p)),
    (appendCacheTable_app _ (lp_TypeRefs p)), (appendCacheTable_app _ (lp_Funcs p)),
    (appendCacheTable_app _ (lp_Decls p)), (appendCacheTable_app _ (lp_Symbols p)),
    (appendCacheTable_app _ (lp_Imports p)), (appendCacheTable_app _ (lp_Tokens p)).
  change appendFrontendCacheBytes with appendFrontendCacheString.
  rewrite !appendFrontendCacheString_app. by rewrite <- !app_assoc.
Qed.

Lemma yields_cache p : cache_fits p → yields CR_at readCache (cacheBody p) (cached p).
Proof.
  intros (?&?&?&?&?&?&?&?&?&?&?&?&?). unfold readCache, cacheBody.
  do 2 (eapply yields_bind; [by apply yields_stringValue|]).
  eapply yields_bind; [by apply yields_byteValue|].
  do 9 (eapply yields_bind; [by apply yields_table|]).
  eapply yields_last; [by apply yields_table|]. apply yields_ret.
Qed.

Lemma UnmarshalFrontendCache_body p :
  cache_fits p → UnmarshalFrontendCache (MarshalFrontendCache p) = Ok (cached p).
Proof.
  intros Hf. rewrite MarshalFrontendCache_body. unfold UnmarshalFrontendCache.
  pose proof (lenZ_nonneg (cacheBody p)).
  rewrite lenZ_app, (proj2 (Z.ltb_ge _ _)) by lia.
  rewrite sliceZ_Some by (rewrite ?lenZ_app; change (lenZ frontendCacheMagic) with 5; lia).
  assert (sublistZ (frontendCacheMagic ++ cacheBody p) 0 (lenZ frontendCacheMagic) =
    frontendCacheMagic) as -> by apply (sublistZ_app_exact []).
  cbn [mbind res_bind index]. rewrite bool_decide_eq_true_2 by done. cbn [negb].
  pose proof (yields_cache p Hf frontendCacheMagic []) as Hy. rewrite app_nil_r in Hy.
  cbn beta in Hy. rewrite Hy. cbn [mbind res_bind index cr_ok cr_pos cr_data andb].
  by rewrite lenZ_app, Z.eqb_refl.
Qed.

(** A method that ends, whatever the bytes; that never clears a failure; and that,
    if it succeeds, does the same when more bytes follow. *)
Definition steady {A} (c : GoM frontendCacheReader A) : Prop :=
  ∀ data pos ok, 0 ≤ pos → ∃ a next ok',
    c (CR data pos ok) = Some (a, CR data next ok') ∧ pos ≤ next ∧
    (ok = false → ok' = false) ∧
    (ok' = true → ∀ rest, c (CR (data ++ rest) pos ok) = Some (a, CR (data ++ rest) next true)).

Lemma steady_ret {A} (a : A) : steady (mret a).
Proof. intros data pos ok H0. exists a, pos, ok. split_and!; [done|lia|done|by intros ->]. Qed.

Lemma steady_fail {A} (a : A) : steady (_ ← cr_fail; mret a).
Proof. intros data pos ok H0. exists a, pos, false. by split_and!. Qed.

Lemma steady_bind {A B} (c : GoM frontendCacheReader A) (f : A → GoM frontendCacheReader B) :
  steady c → (∀ a, steady (f a)) → steady (c ≫= f).
Proof.
  intros Hc Hf data pos ok H0.
  destruct (Hc data pos ok H0) as (a&pos1&ok1&E1&Hle1&Hok1&Hext1).
  destruct (Hf a data pos1 ok1 ltac:(lia)) as (b&pos2&ok2&E2&Hle2&Hok2&Hext2).
  exists b, pos2, ok2. unfold mbind, GoM_bind. rewrite E1. split_and!; [done|lia|by auto|].
  intros -> rest. destruct ok1; [|by specialize (Hok2 eq_refl)].
  rewrite (Hext1 eq_refl rest). by apply Hext2.
Qed.

Lemma steady_raw_loop fuel value shift : steady (rawVarint_loop fuel value shift).
Proof.
  revert value shift. induction fuel as [|fuel IH]; intros value shift data pos ok H0;
    cbn [rawVarint_loop]; [by apply steady_fail|].
  unfold mbind, GoM_bind, get, lift, cr_advance, cr_fail, modify, mret, GoM_ret. cbn [cr_pos cr_data cr_ok].
  destruct (Z.ltb_spec pos (lenZ data)) as [Hin|]; cbn [andb].
  2:{ exists 0, pos, false. split_and!; [done|lia|done|done]. }
  destruct (shift <? 63) eqn:Hshift.
  2:{ exists 0, pos, false. split_and!; [done|lia|done|done]. }
  destruct (lookupZ_lt_is_Some data pos ltac:(lia)) as [part Hp]. rewrite Hp. cbn [cr_pos cr_data cr_ok].
  assert (∀ rest, (pos <? lenZ (data ++ rest)) = true) as Hin'
    by (intros rest; rewrite lenZ_app; pose proof (lenZ_nonneg rest); lia).
  assert (∀ rest, (data ++ rest) !!z pos = Some part) as Hp' by (intros rest; by rewrite lookupZ_app_l).
  destruct (part <? 128) eqn:Hpart.
  - eexists _, (pos + 1), ok. split_and!; [done|lia|done|]. intros -> rest.
    rewrite Hin', Hp'. cbn [andb cr_pos cr_data cr_ok]. by rewrite Hpart.
  - destruct (IH (Z.lor value (Z.shiftl (Z.land part 127) shift)) (shift + 7) data (pos + 1) ok ltac:(lia))
      as (v&next&ok'&E&Hle&Hok&Hext).
    exists v, next, ok'. split_and!; [done|lia|done|]. intros Hok' rest.
    rewrite Hin', Hp'. cbn [andb cr_pos cr_data cr_ok]. rewrite Hpart. by apply Hext.
Qed.

Lemma steady_raw : steady rawVarint.
Proof.
  intros data pos ok H0. unfold rawVarint, mbind, GoM_bind, get. cbn [cr_ok].
  destruct ok; cbn [negb]; [by apply steady_raw_loop|by apply steady_ret].
Qed.

Lemma steady_int : steady intValue.
Proof. apply steady_bind; [apply steady_raw|]. intros v. apply steady_ret. Qed.

Lemma sublistZ_app_l {A} (l rest : list A) lo hi :
  0 ≤ lo → lo ≤ hi → hi ≤ lenZ l → sublistZ (l ++ rest) lo hi = sublistZ l lo hi.
Proof.
  intros. unfold sublistZ, lenZ in *. rewrite drop_app_le by lia.
  rewrite take_app_le; [done|]. rewrite length_drop. lia.
Qed.

Lemma steady_bytes : steady byteValue.
Proof.
  apply steady_bind; [apply steady_raw|]. intros size data pos ok H0.
  unfold mbind, GoM_bind, get, lift, cr_advance, cr_fail, modify, mret, GoM_ret. cbn [cr_pos cr_data cr_ok].
  destruct (negb ok || _ || _) eqn:Hc.
  { exists [], pos, false. split_and!; [done|lia|done|done]. }
  rewrite sliceZ_Some by lia. exists (sublistZ data pos (pos + size)), (pos + size), ok.
  split_and!; [done|lia|done|]. intros -> rest. pose proof (lenZ_nonneg rest). rewrite lenZ_app.
  assert (negb true || (size <? 0) || (lenZ data + lenZ rest - pos <? size) = false) as -> by lia.
  rewrite sliceZ_Some by (rewrite ?lenZ_app; lia). by rewrite sublistZ_app_l by lia.
Qed.

Lemma steady_count : steady cacheCount.
Proof.
  apply steady_bind; [apply steady_int|]. intros v. destruct (_ || _); [apply steady_fail|apply steady_ret].
Qed.

Lemma steady_table {A} (rd : GoM frontendCacheReader A) : steady rd → steady (cacheTable rd).
Proof.
  intros Hrd. apply steady_bind; [apply steady_count|]. intros count.
  generalize (@nil A). induction (Z.to_nat count) as [|n IH]; intros acc; cbn [cacheLoop].
  { apply steady_ret. }
  apply steady_bind; [done|]. intros a. apply IH.
Qed.


(** A sequence of reads. *)
Ltac by_steady :=
  repeat first [apply steady_ret | apply steady_int | apply steady_bytes | apply steady_table
               | apply steady_bind; [|intros ?]].

Lemma steady_cache : steady readCache.
Proof.
  unfold readCache, stringValue.
  unfold readCacheToken, readCacheImport, readCacheSymbol, readCacheDecl, readCacheFunc,
    readCacheTypeRef, readCacheCall, readCacheNameRef, readCacheSelector, readCacheConcurrencySite,
    stringValue.
  by_steady.
Qed.

(** * Whole caches *)

Lemma UnmarshalFrontendCache_no_panic data : UnmarshalFrontendCache data ≠ Panic.
Proof.
  unfold UnmarshalFrontendCache. change (lenZ frontendCacheMagic) with 5.
  destruct (Z.ltb_spec (lenZ data) 5); [done|]. rewrite sliceZ_Some by lia.
  cbn [mbind res_bind index]. destruct (negb _); [done|].
  destruct (steady_cache data 5 true ltac:(lia)) as (p&next&ok&E&_). rewrite E.
  cbn [mbind res_bind index]. by destruct (_ && _).
Qed.

Lemma UnmarshalFrontendCache_prefix data rest p :
  UnmarshalFrontendCache data = Ok p → rest ≠ [] → UnmarshalFrontendCache (data ++ rest) = Err.
Proof.
  intros Hd Hr. unfold UnmarshalFrontendCache in *. change (lenZ frontendCacheMagic) with 5 in *.
  pose proof (lenZ_nonneg rest). rewrite lenZ_app.
  destruct (Z.ltb_spec (lenZ data) 5); [done|]. destruct (Z.ltb_spec (lenZ data + lenZ rest) 5); [lia|].
  rewrite sliceZ_Some in Hd by lia. rewrite sliceZ_Some by (rewrite ?lenZ_app; lia).
  rewrite sublistZ_app_l by lia. cbn [mbind res_bind index] in *. destruct (negb _); [done|].
  destruct (steady_cache data 5 true ltac:(lia)) as (q&next&ok&E&_&_&Hext). rewrite E in Hd.
  cbn [mbind res_bind index cr_ok cr_pos cr_data] in Hd.
  destruct (ok && _) eqn:Hc; [|done]. apply andb_true_iff in Hc as [-> Hn%Z.eqb_eq].
  rewrite (Hext eq_refl rest). cbn [mbind res_bind index cr_ok cr_pos cr_data andb].
  rewrite lenZ_app, (proj2 (Z.eqb_neq _ _)); [done|].
  assert (lenZ rest ≠ 0); [|lia]. destruct rest; [done|]. rewrite lenZ_cons.
  pose proof (lenZ_nonneg rest). lia.
Qed.
