(* ===== verification/CoreProperties.v ===== *)
(** The properties of compiler-facing units: what a backend reads, the bindings and
    the optional children, and the package cache. *)

From stdpp Require Import gmap.
From S2P Require Import Prelude.
From S2P Require Import GoInt.
From S2P Require Import WireReader.
From S2P Require Import WireFacts.
From S2P Require Import WireTables.
From S2P Require Import WireTablesFacts.
From S2P Require Import WireTokens.
From S2P Require Import WireTokensFacts.
From S2P Require Import WireUnit.
From S2P Require Import WireUnitFacts.
From S2P Require Import WireSafety.
From S2P Require Import WireProperties.
From S2P Require Import CoreModel.
From S2P Require Import CoreMarshal.
From S2P Require Import CoreMarshalFacts.
From S2P Require Import CoreStream.
From S2P Require Import CoreBinding.
From S2P Require Import CoreBindingFacts.
From S2P Require Import CoreForeign.
From S2P Require Import CoreForeignFacts.
From S2P Require Import CoreAssembly.
From S2P Require Import CoreAssemblyFacts.
From S2P Require Import CoreCache.
From S2P Require Import CoreCacheFacts.

(** * Samples *)

Definition sampleCore : CoreProgram :=
  MkCore [109] [109; 47; 120] [97; 98; 32; 59]
    [MakeToken 1 0 2 1; MakeToken 22 3 1 2; MakeToken 0 4 0 70000]
    [MkDecl 1 0 2 0 1] [MkFunc 0 2 0 0 0 0 1 2 2]
    [MkPackageInfo [109] [109] 1 2 3 4 0 4 0 3 0 1 0 1] [] [] 1 [].

Lemma sampleCore_ok : core_ok sampleCore.
Proof.
  split; [split; [|split; [done|by intros t rest [= <- _]]]|].
  { repeat split; try (vm_compute; congruence); intros; vm_compute; congruence. }
  split; [by_decision|].
  split_and!; [split; unfold u32_ok; cbn; repeat constructor; vm_compute;
    (done || intuition congruence)..|by vm_compute].
Qed.

Definition sampleTarget : TargetBinding := MkTarget [120; 56; 54] (replicate 32 7) 300.

Definition sampleCoreUnit : list Z :=
  Eval vm_compute in match MarshalCore sampleCore with Ok data => data | _ => [] end.

(** * Core units *)

(** C11. The front end and the backend agree on the unit format: what [MarshalCore]
    writes, with or without releasing its input, [Unmarshal] of backend/unit reads
    as the core tables of the program, for every program whose tokens are in order
    and whose indices are in range. *)
Theorem MarshalCore_Unmarshal p :
  core_ok p → too_big (childBytes (coreChildren p)) = false →
  ∃ data, MarshalCore p = Ok data ∧ MarshalCoreTransient p = Ok data ∧
    Unmarshal data = Ok (backendView p).
Proof.
  intros Hok Hbig. exists (unitOf (coreChildren p)). unfold MarshalCore, MarshalCoreTransient.
  rewrite !marshalCore_spec. split_and!; [done..|]. by apply core_Unmarshal.
Qed.

Lemma MarshalCore_Unmarshal_witness :
  ∃ data, MarshalCore sampleCore = Ok data ∧ MarshalCoreTransient sampleCore = Ok data ∧
    Unmarshal data = Ok (backendView sampleCore).
Proof. apply MarshalCore_Unmarshal; [apply sampleCore_ok|vm_compute; reflexivity]. Defined.

Lemma core_unit_of p :
  too_big (childBytes (coreChildren p)) = false → bytes_ok (childBytes (coreChildren p)) →
  unit_of (unitOf (coreChildren p)) (coreChildren p).
Proof.
  intros Hbig Hb. apply unit_of_intro; [|done..]. apply child_ok_all; [done|].
  destruct (coreTags_scan p) as (_&_&Hfit&_). unfold coreChildren, tagged. by rewrite Forall_fmap.
Qed.

(** C37. The reserve of [MarshalCore] suffices: for a program without assembly and
    foreign units and a target name of at most 28 bytes, the capacity left after
    encoding holds the binding, and writing the binding into that storage, whatever
    it holds, gives the bytes that appending it would give. *)
Theorem BindUnboundTarget_in_place p b data spare :
  MarshalCore p = Ok data → lenZ spare = marshalCapacity p - lenZ data →
  c_RTGAssembly p = [] → c_RTGAssemblyFuncs p = [] → c_ForeignPrograms p = [] →
  c_Entrypoint p < 2 ^ 63 → too_big (childBytes (coreChildren p)) = false →
  bytes_ok (childBytes (coreChildren p)) → bindingValid b = true → lenZ (tb_Target b) ≤ 28 →
  targetBindingFixedSize + lenZ (tb_Target b) ≤ lenZ spare ∧
  BindUnboundTarget data spare b = Ok (true, unitOf (coreChildren p ++ bindingChildren b)) ∧
  BindTarget data b = Ok (unitOf (coreChildren p ++ bindingChildren b)).
Proof.
  unfold MarshalCore. rewrite marshalCore_spec. intros [= <-] Hspare Ha Hf Hfp He Hbig Hb Hbind Ht.
  pose proof (core_capacity p Ha Hf Hfp He) as Hcap. unfold unboundTargetBindingReserve in Hcap.
  destruct (unit_of_valid _ _ (core_unit_of p Hbig Hb)) as (Hv&Hs&Hub).
  split; [unfold targetBindingFixedSize; lia|]. split.
  - rewrite BindUnboundTarget_spec by done. destruct (unitOf_root (coreChildren p)) as [_ ->].
    by rewrite <- childBytes_app.
  - destruct (validUnitRoot_bytes _ Hub Hv) as [Hl Hroot]. destruct (root_take _ (proj1 Hl) Hroot) as [H14 H10].
    unfold BindTarget, checkRoot. rewrite Hv, Hbind. cbn [mbind res_bind check].
    rewrite sliceZ_Some by lia. cbn [mbind res_bind index].
    rewrite (copyUnbound_spec _ _ _ _ _ _ _ Hs) by (by eapply stream_fuel; [lia|]).
    assert (existsb isBinding (coreChildren p) = false ∧ unbound (coreChildren p) = coreChildren p)
      as [-> ->].
    { unfold coreChildren, coreTags. destruct (0 <? lenZ (c_Packages p)), (hasAssembly p),
        (0 <? c_Entrypoint p), (0 <? lenZ (c_ForeignPrograms p)); done. }
    cbn [mbind res_bind orb]. unfold appendTarget.
    rewrite !appendStringNodeCore_app. cbv zeta. rewrite <- !app_assoc, <- bindingChildren_bytes, <- childBytes_app.
    by apply patch_unit.
Qed.

Lemma BindUnboundTarget_in_place_witness :
  targetBindingFixedSize + 3 ≤ 99 ∧
  BindUnboundTarget sampleCoreUnit (replicate 99 9) sampleTarget =
    Ok (true, unitOf (coreChildren sampleCore ++ bindingChildren sampleTarget)) ∧
  BindTarget sampleCoreUnit sampleTarget =
    Ok (unitOf (coreChildren sampleCore ++ bindingChildren sampleTarget)).
Proof.
  apply (BindUnboundTarget_in_place sampleCore sampleTarget sampleCoreUnit (replicate 99 9));
    try (vm_compute; reflexivity); try (vm_compute; congruence); by_decision.
Defined.

(** * Target bindings *)




(** * Foreign programs *)





(** A foreign table that does not start with a count is not an error but a
    panic (the count is -1, and a slice is made of it): in particular, reading the
    foreign programs of any unit that backend/unit writes, whose foreign child is
    always there and always empty, panics. *)
Theorem ReadForeignPrograms_panic p tokens data :
  program_ok p tokens → Marshal p = Ok data → bytes_ok data → ReadForeignPrograms data = Panic.
Proof.
  intros Hok Hm Hb. rewrite (Marshal_spec _ _ Hok) in Hm.
  destruct (too_big (rootPayload p tokens)) eqn:Hbig; [done|]. injection Hm as <-.
  set (cs := tagged (childPayload p (varint (lenZ tokens) ++ wireTokens 0 0 tokens)) childTags).
  assert (unit_of (unitOf cs) cs) as Hu.
  { apply unit_of_intro; [apply child_ok_all; [done|apply childTags_fit]|done|].
    change (bytes_ok (unitOf cs)) in Hb. rewrite unitOf_split in Hb. by apply Forall_app in Hb as [_ ?]. }
  destruct (unit_of_valid _ _ Hu) as (Hv&Hs&Hub). unfold ReadForeignPrograms.
  change (unitHeader ++ _) with (unitOf cs). rewrite (findOptionalChild_stream _ _ cs true) by done.
  assert (∃ at_, locate cs TagForeignPrograms 14 = Some (at_, [])) as [at_ ->]; [|done].
  assert (cs = removelast cs ++ [(TagForeignPrograms, [])]) as -> by done.
  eexists. rewrite locate_app; [done|]. by_decision.
Qed.

Lemma ReadForeignPrograms_panic_witness : ReadForeignPrograms sampleUnit = Panic.
Proof.
  apply (ReadForeignPrograms_panic sampleProgram sampleTokens);
    [apply sampleProgram_ok|vm_compute; reflexivity|by_decision].
Defined.

(** * Project assembly *)

(** C39. Attaching machine code: [ReadRTGAssemblyFragments] finds in the new unit the
    sources of the old one and the bindings with their code; the backend reads the
    same program; and the children of the new unit are those of the old one, in their
    places, with nothing changed but the payload of the assembly child. *)
Theorem AttachRTGAssemblyFragments_spec data bindings code out p :
  bytes_ok data → Unmarshal data = Ok p → AttachRTGAssemblyFragments data bindings code = Ok out →
  bytes_ok out → lenZ out < 2 ^ 32 →
  (∃ sources original, ReadRTGAssemblyFragments data = Ok (sources, original) ∧
    ReadRTGAssemblyFragments out = Ok (sources, zip_with withCode bindings code) ∧
    ∃ cs, unit_of data cs ∧
      out = unitOf (withAssembly (encodeRTGAssemblyCore sources (zip_with withCode bindings code)) cs)) ∧
  HasRTGAssembly out = Ok true ∧ Unmarshal out = Ok p.
Proof.
  intros Hb Hu Ha Hbo Hlo.
  destruct (Attach_inv _ _ _ _ Hb Ha) as (cs&old&sources&original&Hs&Hv&Ho&Hr&Hok&->).
  pose proof (stream_unit_of _ _ Hb Hv Hs) as Hcs.
  pose proof (withAssembly_unit _ _ _ Hcs Hbo Hlo) as Hu'.
  pose proof (onlyAssembly_with (encodeRTGAssemblyCore sources (zip_with withCode bindings code))
    _ _ _ Ho) as Ho'. split_and!.
  - exists sources, original. split; [done|]. split; [by eapply ReadRTGAssemblyFragments_unit|]. by exists cs.
  - rewrite (HasRTGAssembly_unit _ _ Hu'). by rewrite (onlyAssembly_some _ _ Ho').
  - rewrite (unit_of_Unmarshal _ _ Hu'), visitAll_withAssembly. by rewrite <- (unit_of_Unmarshal _ _ Hcs).
Qed.

Definition sampleAssembled : list Z :=
  Eval vm_compute in
    match MarshalCore (MkCore [109] [109; 47; 120] [97; 98; 32; 59]
      [MakeToken 1 0 2 1; MakeToken 22 3 1 2; MakeToken 0 4 0 70000]
      [MkDecl 1 0 2 0 1] [MkFunc 0 2 0 0 0 0 1 2 2]
      [MkPackageInfo [109] [109] 1 2 3 4 0 4 0 3 0 1 0 1]
      [MkSource [97] [98; 99]] [MkBinding 0 0 0 1 2 1 []] 1 [])
    with Ok data => data | _ => [] end.

Definition sampleAttached : list Z :=
  Eval vm_compute in
    match AttachRTGAssemblyFragments sampleAssembled [MkBinding 0 0 0 1 2 1 []] [[144; 195]]
    with Ok data => data | _ => [] end.

Lemma AttachRTGAssemblyFragments_spec_witness :
  (∃ sources original, ReadRTGAssemblyFragments sampleAssembled = Ok (sources, original) ∧
    ReadRTGAssemblyFragments sampleAttached =
      Ok (sources, zip_with withCode [MkBinding 0 0 0 1 2 1 []] [[144; 195]]) ∧
    ∃ cs, unit_of sampleAssembled cs ∧
      sampleAttached = unitOf (withAssembly
        (encodeRTGAssemblyCore sources (zip_with withCode [MkBinding 0 0 0 1 2 1 []] [[144; 195]])) cs)) ∧
  HasRTGAssembly sampleAttached = Ok true ∧
  Unmarshal sampleAttached = Ok (backendView sampleCore).
Proof.
  apply (AttachRTGAssemblyFragments_spec sampleAssembled [MkBinding 0 0 0 1 2 1 []] [[144; 195]]).
  - by_decision.
  - vm_compute; reflexivity.
  - vm_compute; reflexivity.
  - by_decision.
  - by_decision.
Defined.

(** * The package cache *)

(** C36. The cache of a parsed package: reading what was written gives the program
    back (without the tables the cache leaves out), and a file cut short anywhere is
    refused, never read as another program. *)
Theorem frontend_cache_roundtrip p :
  cache_fits p →
  UnmarshalFrontendCache (MarshalFrontendCache p) = Ok (cached p) ∧
  ∀ n, (n < length (MarshalFrontendCache p))%nat →
    UnmarshalFrontendCache (take n (MarshalFrontendCache p)) = Err.
Proof.
  intros Hf. pose proof (UnmarshalFrontendCache_body p Hf) as Hok. split; [done|].
  intros n Hn. pose proof (UnmarshalFrontendCache_no_panic (take n (MarshalFrontendCache p))).
  destruct (UnmarshalFrontendCache (take n _)) as [q| |] eqn:Hq; [|done..].
  rewrite <- (take_drop n (MarshalFrontendCache p)) in Hok.
  rewrite (UnmarshalFrontendCache_prefix _ _ q Hq) in Hok; [done|].
  intros H0%(f_equal length). rewrite length_drop in H0. cbn in H0. lia.
Qed.

Definition sampleLinked : CoreCache.Program :=
  MkProgram [109] [109; 47; 120] [97; 98; 32; 59]
    [MakeToken 1 0 2 1; MakeToken 22 3 1 2; MakeToken 0 4 0 70000]
    [CoreCache.MkImport 1 2] [CoreCache.MkSymbol [97] (-1) 0]
    [MkDecl 1 0 2 0 1] [MkFunc 0 2 0 0 0 0 1 2 2] [] [] [] [] [] [] [] [] 0 [].

Lemma frontend_cache_roundtrip_witness :
  UnmarshalFrontendCache (MarshalFrontendCache sampleLinked) = Ok (cached sampleLinked) ∧
  ∀ n, (n < length (MarshalFrontendCache sampleLinked))%nat →
    UnmarshalFrontendCache (take n (MarshalFrontendCache sampleLinked)) = Err.
Proof.
  apply frontend_cache_roundtrip. unfold cache_fits, table_fits. cbn.
  split_and!; try by_decision; repeat constructor; unfold Token_ok, CacheImport_ok, CacheSymbol_ok,
    CacheDecl_ok, CacheFunc_ok, int_ok, string_ok; vm_compute; intuition congruence.
Defined.
