(* ===== verification/HeapModel.v ===== *)
(** The managed heap of internal/managedheap/heap.go: a list of segments in storage
    that a provider supplies, blocks laid end to end in each segment, first-fit
    allocation and a conservative mark and sweep.

    The words of the provider's storage are a finite map from byte addresses, and
    segments and blocks are read and written through their pointers as the code does
    with [unsafe.Pointer]: [segment] is the two words [next], [size] and [block] the
    two words [span], [flags].  Touching a word that is not in the map is a fault
    ([None]), and so is a loop that runs out of fuel; the theorems exclude both.
    [uintptr] has 64 bits. *)

From stdpp Require Import gmap.
From S2P Require Import Prelude.
From S2P Require Import GoInt.

Definition maxUintptr : Z := 2 ^ 64 - 1.

Definition allocated : Z := 1.
Definition marked : Z := 2.
Definition scanned : Z := 4.
Definition wordSize : Z := 8.
Definition alignment : Z := 2 * wordSize.
Definition segmentSize : Z := 16.
Definition blockSize : Z := 16.
(** [unsafe.Sizeof(Heap{})] *)
Definition heapSize : Z := 80.

(** The two interfaces: [Acquire] answers 0 for nil, [MarkRoots] the pointers it
    calls [Mark] with and its result. *)
Class Provider (E : Type) := {
  Acquire : Z → E → Z * E;
  Release : Z → Z → E → E;
  MarkRoots : gmap Z Z → E → list Z * bool * E
}.

Record Config := MkConfig {
  cfg_Limit : Z; cfg_Granule : Z; cfg_Initial : Z; cfg_Overhead : Z
}.

(** [h_memory]: the interface is not nil. *)
Record Heap := MkHeap {
  h_memory : bool; h_first : Z; h_limit : Z; h_reserved : Z; h_granule : Z;
  h_nextSize : Z; h_busy : bool
}.

Definition emptyHeap : Heap := MkHeap false 0 0 0 0 0 false.

Record HeapState (E : Type) := HS { hs_heap : Heap; hs_mem : gmap Z Z; hs_env : E }.
Arguments HS {E} _ _ _.
Arguments hs_heap {E} _.
Arguments hs_mem {E} _.
Arguments hs_env {E} _.

(** The words of a segment. *)
Definition segmentWords (base size : Z) : list Z :=
  (λ k, base + wordSize * k) <$> seqZ 0 (size `div` wordSize).
Definition acquireWords (base size : Z) (m : gmap Z Z) : gmap Z Z :=
  foldr (λ a, <[a := 0]>) m (segmentWords base size).
Definition releaseWords (base size : Z) (m : gmap Z Z) : gmap Z Z :=
  foldr delete m (segmentWords base size).

Section Model.
Context {E : Type} `{!Provider E}.

Abbreviation M := (GoM (HeapState E)).

Definition memFault {A} : M A := lift None.
Definition setHeap (f : Heap → Heap) : M unit :=
  modify (λ s, HS (f (hs_heap s)) (hs_mem s) (hs_env s)).
Definition setMem (f : gmap Z Z → gmap Z Z) : M unit :=
  modify (λ s, HS (hs_heap s) (f (hs_mem s)) (hs_env s)).
Definition setEnv (f : E → E) : M unit :=
  modify (λ s, HS (hs_heap s) (hs_mem s) (f (hs_env s))).

Definition loadWord (a : Z) : M Z :=
  s ← get;
  lift (hs_mem s !! a).
Definition storeWord (a v : Z) : M unit :=
  _ ← loadWord a;
  setMem <[a := v]>.

Definition setBusy (busy : bool) : M unit :=
  setHeap (λ h, MkHeap (h_memory h) (h_first h) (h_limit h) (h_reserved h) (h_granule h)
    (h_nextSize h) busy).
Definition setFirst (first : Z) : M unit :=
  setHeap (λ h, MkHeap (h_memory h) first (h_limit h) (h_reserved h) (h_granule h)
    (h_nextSize h) (h_busy h)).
Definition setReserved (reserved : Z) : M unit :=
  setHeap (λ h, MkHeap (h_memory h) (h_first h) (h_limit h) reserved (h_granule h)
    (h_nextSize h) (h_busy h)).
Definition setNextSize (nextSize : Z) : M unit :=
  setHeap (λ h, MkHeap (h_memory h) (h_first h) (h_limit h) (h_reserved h) (h_granule h)
    nextSize (h_busy h)).

(** Every loop walks words of the storage. *)
Definition memFuel (s : HeapState E) : nat := S (size (hs_mem s)).

(** [x &^ (g - 1)] *)
Definition roundDown (x g : Z) : Z := Z.ldiff x (u64 (g - 1)).

Definition Init (memory roots : bool) (config : Config) : M bool :=
  s ← get;
  if h_memory (hs_heap s) || negb memory || negb roots then mret false
  else
    let granule := cfg_Granule config in
    if (granule <? segmentSize + blockSize + alignment) ||
       negb (Z.land granule (u64 (granule - 1)) =? 0) then mret false
    else
      let maximum := maxUintptr in
      if negb (cfg_Limit config =? 0) && (maximum <? cfg_Limit config) then mret false
      else
        let limit := if cfg_Limit config =? 0 then maximum else cfg_Limit config in
        if maximum - heapSize <? cfg_Overhead config then mret false
        else
          let reserved := u64 (heapSize + cfg_Overhead config) in
          if limit <? reserved then mret false
          else
            let initial := if cfg_Initial config =? 0 then granule else cfg_Initial config in
            if u64 (maximum - u64 (granule - 1)) <? initial then mret false
            else
              let initial := roundDown (u64 (u64 (initial + granule) - 1)) granule in
              _ ← setHeap (λ _, MkHeap true 0 limit reserved granule initial false);
              mret true.

Definition Reserved : M Z :=
  s ← get;
  mret (h_reserved (hs_heap s)).

(** * Taking a free block *)

Fixpoint zeroPayload (fuel : nat) (b i : Z) : M unit :=
  match fuel with
  | O => memFault
  | S fuel =>
      span ← loadWord b;
      if i <? span then
        _ ← storeWord (b + i) 0;
        zeroPayload fuel b (u64 (i + wordSize))
      else mret tt
  end.

Definition splitBlock (b bspan span : Z) : M unit :=
  if blockSize + alignment <=? u64 (bspan - span) then
    _ ← storeWord (b + span) (u64 (bspan - span));
    _ ← storeWord (b + span + 8) 0;
    storeWord b span
  else mret tt.

Fixpoint takeBlocks (fuel : nat) (s offset span : Z) : M (option Z) :=
  match fuel with
  | O => memFault
  | S fuel' =>
      size ← loadWord (s + 8);
      if offset <? size then
        let b := s + offset in
        flags ← loadWord (b + 8);
        bspan ← loadWord b;
        if (flags =? 0) && (span <=? bspan) then
          _ ← splitBlock b bspan span;
          _ ← storeWord (b + 8) allocated;
          st ← get;
          _ ← zeroPayload (memFuel st) b blockSize;
          mret (Some (b + blockSize))
        else takeBlocks fuel' s (u64 (offset + bspan)) span
      else mret None
  end.

Fixpoint takeSegments (fuel : nat) (s span : Z) : M Z :=
  match fuel with
  | O => memFault
  | S fuel' =>
      if s =? 0 then mret 0
      else
        st ← get;
        found ← takeBlocks (memFuel st) s segmentSize span;
        match found with
        | Some pointer => mret pointer
        | None =>
            next ← loadWord s;
            takeSegments fuel' next span
        end
  end.

Definition take (span : Z) : M Z :=
  s ← get;
  takeSegments (memFuel s) (h_first (hs_heap s)) span.

(** * Marking *)

Fixpoint markBlocks (fuel : nat) (s pointer offset : Z) : M unit :=
  match fuel with
  | O => memFault
  | S fuel =>
      size ← loadWord (s + 8);
      if offset <? size then
        let b := s + offset in
        bspan ← loadWord b;
        if (u64 (offset + blockSize) <=? pointer - s) && (pointer - s <? u64 (offset + bspan)) then
          flags ← loadWord (b + 8);
          if negb (Z.land flags allocated =? 0) then storeWord (b + 8) (Z.lor flags marked)
          else mret tt
        else markBlocks fuel s pointer (u64 (offset + bspan))
      else mret tt
  end.

Fixpoint markSegments (fuel : nat) (s pointer : Z) : M unit :=
  match fuel with
  | O => memFault
  | S fuel =>
      if s =? 0 then mret tt
      else
        size ← loadWord (s + 8);
        if (pointer <? s) || (size <=? pointer - s) then
          next ← loadWord s;
          markSegments fuel next pointer
        else
          st ← get;
          markBlocks (memFuel st) s pointer segmentSize
  end.

Definition Mark (pointer : Z) : M unit :=
  s ← get;
  if negb (h_busy (hs_heap s)) then mret tt
  else markSegments (memFuel s) (h_first (hs_heap s)) pointer.

Fixpoint markPointers (pointers : list Z) : M unit :=
  match pointers with
  | [] => mret tt
  | pointer :: pointers =>
      _ ← Mark pointer;
      markPointers pointers
  end.

(** [h.roots.MarkRoots(h)] *)
Definition markRoots : M bool :=
  s ← get;
  let '(pointers, ok, env) := MarkRoots (hs_mem s) (hs_env s) in
  _ ← setEnv (λ _, env);
  _ ← markPointers pointers;
  mret ok.

(** * Tracing *)

Fixpoint scanPayload (fuel : nat) (b i : Z) : M unit :=
  match fuel with
  | O => memFault
  | S fuel =>
      span ← loadWord b;
      if i <? span then
        word ← loadWord (b + i);
        _ ← Mark word;
        scanPayload fuel b (u64 (i + wordSize))
      else mret tt
  end.

Fixpoint scanBlocks (fuel : nat) (s offset : Z) (progress : bool) : M bool :=
  match fuel with
  | O => memFault
  | S fuel =>
      size ← loadWord (s + 8);
      if offset <? size then
        let b := s + offset in
        flags ← loadWord (b + 8);
        progress ←
          (if flags =? Z.lor allocated marked then
             _ ← storeWord (b + 8) (Z.lor flags scanned);
             st ← get;
             _ ← scanPayload (memFuel st) b blockSize;
             mret true
           else mret progress);
        bspan ← loadWord b;
        scanBlocks fuel s (u64 (offset + bspan)) progress
      else mret progress
  end.

Fixpoint scanSegments (fuel : nat) (s : Z) (progress : bool) : M bool :=
  match fuel with
  | O => memFault
  | S fuel =>
      if s =? 0 then mret progress
      else
        st ← get;
        progress ← scanBlocks (memFuel st) s segmentSize progress;
        next ← loadWord s;
        scanSegments fuel next progress
  end.

Fixpoint trace (fuel : nat) : M unit :=
  match fuel with
  | O => memFault
  | S fuel =>
      s ← get;
      progress ← scanSegments (memFuel s) (h_first (hs_heap s)) false;
      if negb progress then mret tt else trace fuel
  end.

(** * Sweeping *)

(** [free] is 0 for nil. *)
Fixpoint sweepBlocks (fuel : nat) (s offset free : Z) (live : bool) : M bool :=
  match fuel with
  | O => memFault
  | S fuel =>
      size ← loadWord (s + 8);
      if offset <? size then
        let b := s + offset in
        span ← loadWord b;
        flags ← loadWord (b + 8);
        if negb (Z.land flags marked =? 0) then
          _ ← storeWord (b + 8) allocated;
          sweepBlocks fuel s (u64 (offset + span)) 0 true
        else
          _ ← storeWord (b + 8) 0;
          if negb (free =? 0) then
            fspan ← loadWord free;
            _ ← storeWord free (u64 (fspan + span));
            sweepBlocks fuel s (u64 (offset + span)) free live
          else sweepBlocks fuel s (u64 (offset + span)) b live
      else mret live
  end.

Definition release (s size : Z) : M unit :=
  _ ← setEnv (Release s size);
  setMem (releaseWords s size).

Fixpoint sweepSegments (fuel : nat) (previous s : Z) : M unit :=
  match fuel with
  | O => memFault
  | S fuel =>
      if s =? 0 then mret tt
      else
        st ← get;
        live ← sweepBlocks (memFuel st) s segmentSize 0 false;
        next ← loadWord s;
        if negb live then
          _ ← (if previous =? 0 then setFirst next else storeWord previous next);
          size ← loadWord (s + 8);
          _ ← release s size;
          st ← get;
          _ ← setReserved (u64 (h_reserved (hs_heap st) - size));
          sweepSegments fuel previous next
        else sweepSegments fuel s next
  end.

Fixpoint clearBlocks (fuel : nat) (s offset : Z) : M unit :=
  match fuel with
  | O => memFault
  | S fuel =>
      size ← loadWord (s + 8);
      if offset <? size then
        let b := s + offset in
        flags ← loadWord (b + 8);
        _ ← storeWord (b + 8) (Z.land flags allocated);
        bspan ← loadWord b;
        clearBlocks fuel s (u64 (offset + bspan))
      else mret tt
  end.

Fixpoint clearSegments (fuel : nat) (s : Z) : M unit :=
  match fuel with
  | O => memFault
  | S fuel =>
      if s =? 0 then mret tt
      else
        st ← get;
        _ ← clearBlocks (memFuel st) s segmentSize;
        next ← loadWord s;
        clearSegments fuel next
  end.

Definition clearMarks : M unit :=
  s ← get;
  clearSegments (memFuel s) (h_first (hs_heap s)).

Definition Collect : M bool :=
  s ← get;
  if negb (h_memory (hs_heap s)) || h_busy (hs_heap s) then mret false
  else
    _ ← setBusy true;
    complete ← markRoots;
    if negb complete then
      _ ← clearMarks;
      _ ← setBusy false;
      mret false
    else
      s ← get;
      _ ← trace (memFuel s);
      s ← get;
      _ ← sweepSegments (memFuel s) 0 (h_first (hs_heap s));
      _ ← setBusy false;
      mret true.

(** * Allocation *)

(** [h.memory.Acquire(size)]: the words of a new segment are zero. *)
Definition acquire (size : Z) : M Z :=
  s ← get;
  let '(base, env) := Acquire size (hs_env s) in
  _ ← setEnv (λ _, env);
  _ ← (if base =? 0 then mret tt else setMem (acquireWords base size));
  mret base.

Definition grow (span : Z) : M Z :=
  s ← get;
  let h := hs_heap s in
  if u64 (maxUintptr - segmentSize - u64 (h_granule h - 1)) <? span then mret 0
  else
    let minimum := roundDown (u64 (u64 (span + segmentSize) + h_granule h - 1)) (h_granule h) in
    let available := roundDown (u64 (h_limit h - h_reserved h)) (h_granule h) in
    if available <? minimum then mret 0
    else
      let growth := h_nextSize h in
      let growth := if growth <? minimum then minimum else growth in
      let growth := if available <? growth then available else growth in
      _ ← setBusy true;
      base ← acquire growth;
      '(base, growth) ←
        (if (base =? 0) && negb (growth =? minimum) then
           base ← acquire minimum;
           mret (base, minimum)
         else mret (base, growth));
      _ ← setBusy false;
      if base =? 0 then mret 0
      else
        s ← get;
        _ ← storeWord base (h_first (hs_heap s));
        _ ← storeWord (base + 8) growth;
        _ ← setFirst base;
        let b := base + segmentSize in
        _ ← storeWord b (u64 (growth - segmentSize));
        _ ← storeWord (b + 8) 0;
        s ← get;
        _ ← setReserved (u64 (h_reserved (hs_heap s) + growth));
        _ ← setNextSize (if growth <=? maxUintptr `div` 2 then u64 (growth * 2) else growth);
        take span.

Definition Alloc (size : Z) : M Z :=
  s ← get;
  if negb (h_memory (hs_heap s)) || h_busy (hs_heap s) then mret 0
  else
    let size := if size =? 0 then alignment else size in
    if u64 (maxUintptr - (alignment - 1) - blockSize) <? size then mret 0
    else
      let span := u64 (roundDown (u64 (u64 (size + alignment) - 1)) alignment + blockSize) in
      pointer ← take span;
      if negb (pointer =? 0) then mret pointer
      else
        s ← get;
        if negb (h_first (hs_heap s) =? 0) then
          collected ← Collect;
          if negb collected then mret 0
          else
            pointer ← take span;
            if negb (pointer =? 0) then mret pointer else grow span
        else grow span.

Fixpoint closeSegments (fuel : nat) (s : Z) : M unit :=
  match fuel with
  | O => memFault
  | S fuel =>
      if s =? 0 then mret tt
      else
        next ← loadWord s;
        size ← loadWord (s + 8);
        _ ← release s size;
        closeSegments fuel next
  end.

Definition Close : M unit :=
  s ← get;
  if negb (h_memory (hs_heap s)) || h_busy (hs_heap s) then mret tt
  else
    _ ← setBusy true;
    _ ← closeSegments (memFuel s) (h_first (hs_heap s));
    setHeap (λ _, emptyHeap).
End Model.
