(* ===== verification/HeapShape.v ===== *)
(** What the words of the storage mean: the segments and blocks that the pointers
    lead through, which do not overlap and fill their segments.

    Access to the storage, fuel, and [Mark]: one word changes, the flags of the
    block that contains the pointer. *)

From stdpp Require Import gmap.
From S2P Require Import Prelude.
From S2P Require Import GoInt.
From S2P Require Import HeapModel.

(** A segment with the addresses and spans of its blocks. *)
Record Segment := MkSegment { sg_base : Z; sg_size : Z; sg_blocks : list (Z * Z) }.

(** Blocks of a legal span, end to end from [lo] to [hi]. *)
Fixpoint tile (lo hi : Z) (bs : list (Z * Z)) : Prop :=
  match bs with
  | [] => lo = hi
  | b :: bs => b.1 = lo ∧ 32 ≤ b.2 ∧ (16 | b.2) ∧ tile (lo + b.2) hi bs
  end.

Definition segment_ok (sg : Segment) : Prop :=
  0 < sg_base sg ∧ (16 | sg_base sg) ∧ (16 | sg_size sg) ∧ sg_base sg + sg_size sg ≤ 2 ^ 64 ∧
  16 ≤ sg_size sg ∧ tile (sg_base sg + 16) (sg_base sg + sg_size sg) (sg_blocks sg).

Definition apart (sg sg' : Segment) : Prop :=
  sg_base sg + sg_size sg ≤ sg_base sg' ∨ sg_base sg' + sg_size sg' ≤ sg_base sg.

Fixpoint all_apart (shape : list Segment) : Prop :=
  match shape with
  | [] => True
  | sg :: shape => Forall (apart sg) shape ∧ all_apart shape
  end.

Definition shape_ok (shape : list Segment) : Prop := Forall segment_ok shape ∧ all_apart shape.

Definition blocks (shape : list Segment) : list (Z * Z) := shape ≫= sg_blocks.

(** The list the [next] pointers make. *)
Fixpoint links (m : gmap Z Z) (first : Z) (shape : list Segment) : Prop :=
  match shape with
  | [] => first = 0
  | sg :: shape =>
      first = sg_base sg ∧ m !! (sg_base sg + 8) = Some (sg_size sg) ∧
      ∃ next, m !! sg_base sg = Some next ∧ links m next shape
  end.

(** The words of a shape. *)
Definition word_of (sg : Segment) (a : Z) : Prop :=
  sg_base sg ≤ a < sg_base sg + sg_size sg ∧ (8 | a).

Record rep (m : gmap Z Z) (first : Z) (shape : list Segment) : Prop := {
  rep_shape : shape_ok shape;
  rep_links : links m first shape;
  rep_spans : ∀ a s, (a, s) ∈ blocks shape → m !! a = Some s;
  rep_dom : ∀ a, is_Some (m !! a) ↔ ∃ sg, sg ∈ shape ∧ word_of sg a;
  rep_values : ∀ a v, m !! a = Some v → u64_ok v
}.

(** * Blocks of a shape *)

Lemma tile_app lo hi b1 b2 : tile lo hi (b1 ++ b2) ↔ ∃ mid, tile lo mid b1 ∧ tile mid hi b2.
Proof.
  revert lo. induction b1 as [|b b1 IH]; intros lo; cbn [app tile].
  - split; [intros H; by exists lo|by intros (?&->&?)].
  - rewrite IH. naive_solver.
Qed.

Lemma tile_le lo hi bs : tile lo hi bs → lo + 32 * lenZ bs ≤ hi.
Proof.
  revert lo. induction bs as [|b bs IH]; intros lo; cbn [tile].
  - intros ->. change (lenZ []) with 0. lia.
  - intros (_&?&_&?%IH). rewrite lenZ_cons. lia.
Qed.

Lemma tile_in lo hi bs a s :
  tile lo hi bs → (a, s) ∈ bs → (16 | lo) → lo ≤ a ∧ a + s ≤ hi ∧ 32 ≤ s ∧ (16 | s) ∧ (16 | a).
Proof.
  revert lo. induction bs as [|b bs IH]; intros lo; cbn [tile]; [by intros _ ?%not_elem_of_nil|].
  intros (<-&?&?&Ht) [Heq|Hin]%elem_of_cons Hlo.
  - subst b. cbn [fst snd] in *. pose proof (tile_le _ _ _ Ht). pose proof (lenZ_nonneg bs).
    split_and!; try done; lia.
  - destruct (IH _ Ht Hin) as (?&?&?&?&?); [by apply Z.divide_add_r|].
    split_and!; try done; lia.
Qed.

(** Two blocks of a tiling are the same block or do not overlap. *)
Lemma tile_apart lo hi bs a s a' s' :
  tile lo hi bs → (16 | lo) → (a, s) ∈ bs → (a', s') ∈ bs →
  (a = a' ∧ s = s') ∨ a + s ≤ a' ∨ a' + s' ≤ a.
Proof.
  revert lo. induction bs as [|b bs IH]; intros lo; cbn [tile]; [by intros _ _ ?%not_elem_of_nil|].
  intros (<-&?&?&Ht) Hlo Ha Ha'.
  assert (16 | b.1 + b.2) as Hd by by apply Z.divide_add_r.
  apply elem_of_cons in Ha as [Ha|Ha], Ha' as [Ha'|Ha'].
  - left. by simplify_eq/=.
  - subst b. destruct (tile_in _ _ _ _ _ Ht Ha' Hd). cbn [fst snd] in *. lia.
  - subst b. destruct (tile_in _ _ _ _ _ Ht Ha Hd). cbn [fst snd] in *. lia.
  - by apply (IH _ Ht Hd).
Qed.

Lemma all_apart_in shape sg sg' :
  all_apart shape → sg ∈ shape → sg' ∈ shape → sg = sg' ∨ apart sg sg'.
Proof.
  induction shape as [|sg0 shape IH]; cbn [all_apart]; [by intros _ ?%not_elem_of_nil|].
  intros [Hf Ha] [->|H1]%elem_of_cons [->|H2]%elem_of_cons.
  - by left.
  - right. by eapply (proj1 (Forall_forall _ _)) in H2.
  - right. eapply (proj1 (Forall_forall _ _)) in H1; [|done]. unfold apart in *. tauto.
  - by apply IH.
Qed.

Lemma all_apart_app l1 l2 :
  all_apart (l1 ++ l2) ↔ all_apart l1 ∧ all_apart l2 ∧ ∀ x y, x ∈ l1 → y ∈ l2 → apart x y.
Proof.
  induction l1 as [|sg l1 IH]; cbn [app all_apart].
  { split; [|tauto]. intros H. split_and!; [done..|]. by intros x y ?%not_elem_of_nil. }
  rewrite IH, Forall_app. setoid_rewrite elem_of_cons. rewrite (Forall_forall _ l2).
  split; [|naive_solver]. intros ([]&?&?&?). split_and!; [done..|]. intros x y [->|] ?; auto.
Qed.

Lemma blocks_in shape a s : (a, s) ∈ blocks shape ↔ ∃ sg, sg ∈ shape ∧ (a, s) ∈ sg_blocks sg.
Proof. unfold blocks. rewrite list_elem_of_bind. naive_solver. Qed.

Lemma segment_block sg a s :
  segment_ok sg → (a, s) ∈ sg_blocks sg →
  sg_base sg + 16 ≤ a ∧ a + s ≤ sg_base sg + sg_size sg ∧ 32 ≤ s ∧ (16 | s) ∧ (16 | a) ∧ 0 < a.
Proof.
  intros (H0&Hd&_&_&_&Ht) Hin.
  destruct (tile_in _ _ _ _ _ Ht Hin) as (?&?&?&?&?).
  { apply Z.divide_add_r; [done|by exists 1]. }
  split_and!; try done; lia.
Qed.

Lemma shape_segment shape sg : shape_ok shape → sg ∈ shape → segment_ok sg.
Proof. intros [Hf _]. by apply (proj1 (Forall_forall _ _)). Qed.

Lemma shape_block shape a s :
  shape_ok shape → (a, s) ∈ blocks shape →
  ∃ sg, sg ∈ shape ∧ sg_base sg + 16 ≤ a ∧ a + s ≤ sg_base sg + sg_size sg ∧ 32 ≤ s ∧
    (16 | s) ∧ (16 | a) ∧ 0 < a.
Proof.
  intros Hs (sg&Hsg&Hin)%blocks_in. exists sg. split; [done|].
  apply segment_block; [by apply (shape_segment shape)|done].
Qed.

Lemma blocks_apart shape a s a' s' :
  shape_ok shape → (a, s) ∈ blocks shape → (a', s') ∈ blocks shape →
  (a = a' ∧ s = s') ∨ a + s ≤ a' ∨ a' + s' ≤ a.
Proof.
  intros Hs (sg&Hsg&Hb)%blocks_in (sg'&Hsg'&Hb')%blocks_in.
  pose proof (shape_segment _ _ Hs Hsg) as Hok. pose proof (shape_segment _ _ Hs Hsg') as Hok'.
  destruct (all_apart_in shape sg sg' (proj2 Hs) Hsg Hsg') as [<-|Hap].
  - destruct Hok as (_&?&_&_&_&Ht). eapply tile_apart; [done| |done..].
    apply Z.divide_add_r; [done|by exists 1].
  - destruct (segment_block _ _ _ Hok Hb), (segment_block _ _ _ Hok' Hb'). unfold apart in Hap. lia.
Qed.

(** A block and the header of a segment do not overlap. *)
Lemma header_apart shape sg a s :
  shape_ok shape → sg ∈ shape → (a, s) ∈ blocks shape →
  sg_base sg + 16 ≤ a ∨ a + s ≤ sg_base sg.
Proof.
  intros Hs Hsg (sg'&Hsg'&Hb)%blocks_in. pose proof (shape_segment _ _ Hs Hsg') as Hok.
  pose proof (shape_segment _ _ Hs Hsg) as (_&_&_&_&H16&_).
  destruct (segment_block _ _ _ Hok Hb) as (?&?&_).
  destruct (all_apart_in shape sg sg' (proj2 Hs) Hsg Hsg') as [<-|Hap]; [lia|].
  unfold apart in Hap. lia.
Qed.

Lemma bases_apart shape sg sg' :
  shape_ok shape → sg ∈ shape → sg' ∈ shape →
  sg = sg' ∨ sg_base sg + 16 ≤ sg_base sg' ∨ sg_base sg' + 16 ≤ sg_base sg.
Proof.
  intros Hs Hsg Hsg'. pose proof (shape_segment _ _ Hs Hsg) as (_&_&_&_&?&_).
  pose proof (shape_segment _ _ Hs Hsg') as (_&_&_&_&?&_).
  destruct (all_apart_in shape sg sg' (proj2 Hs) Hsg Hsg') as [|Hap]; [by left|].
  unfold apart in Hap. lia.
Qed.

(** * Words of blocks *)

Section Rep.
Context (m : gmap Z Z) (first : Z) (shape : list Segment).
Hypothesis R : rep m first shape.

Lemma divide_8_16 z : (16 | z) → (8 | z).
Proof. intros [k ->]. exists (2 * k). lia. Qed.

(** The word at an aligned offset in a block. *)
Lemma block_word a s i :
  (a, s) ∈ blocks shape → 0 ≤ i < s → (8 | i) → is_Some (m !! (a + i)).
Proof.
  intros Hb Hi Hd. destruct (shape_block _ _ _ (rep_shape _ _ _ R) Hb) as (sg&Hsg&?&?&?&?&?&?).
  apply (rep_dom _ _ _ R). exists sg. split; [done|]. split; [lia|]. apply Z.divide_add_r; [by apply divide_8_16|done].
Qed.

Lemma block_flags a s : (a, s) ∈ blocks shape → ∃ f, m !! (a + 8) = Some f.
Proof.
  intros Hb. destruct (shape_block _ _ _ (rep_shape _ _ _ R) Hb) as (_&_&_&_&?&_).
  destruct (block_word a s 8 Hb) as [f Hf]; [lia|by exists 1|]. by exists f.
Qed.

(** A word that is neither a link nor a span may change. *)
Definition plain (x : Z) : Prop :=
  (∀ sg, sg ∈ shape → x ≠ sg_base sg ∧ x ≠ sg_base sg + 8) ∧ ∀ a s, (a, s) ∈ blocks shape → x ≠ a.

Lemma links_frame m' f sh :
  links m f sh → (∀ sg, sg ∈ sh → m' !! sg_base sg = m !! sg_base sg ∧
    m' !! (sg_base sg + 8) = m !! (sg_base sg + 8)) → links m' f sh.
Proof.
  revert f. induction sh as [|sg sh IH]; intros f; cbn [links]; [done|].
  intros (->&Hsize&next&Hnext&Hl) Heq. destruct (Heq sg) as [H1 H2]; [apply elem_of_cons; by left|].
  rewrite H1, H2. split_and!; [done..|]. exists next. split; [done|]. apply IH; [done|].
  intros sg' Hin. apply Heq, elem_of_cons. by right.
Qed.

Lemma rep_frame m' :
  (∀ x, ¬ plain x → m' !! x = m !! x) → (∀ x, is_Some (m' !! x) ↔ is_Some (m !! x)) →
  (∀ x v, m' !! x = Some v → u64_ok v) → rep m' first shape.
Proof.
  intros Heq Hdom Hval. destruct R as [Hs Hl Hsp Hd Hv]. split; [done| | | |done].
  - eapply links_frame; [done|]. intros sg Hsg. split; apply Heq; intros [H _]; naive_solver.
  - intros a s Hb. rewrite Heq; [by apply Hsp|]. intros [_ H]. naive_solver.
  - intros a. rewrite Hdom. apply Hd.
Qed.

Lemma rep_store x v :
  is_Some (m !! x) → u64_ok v → plain x → rep (<[x := v]> m) first shape.
Proof.
  intros Hx Hv Hp. apply rep_frame.
  - intros y Hy. rewrite lookup_insert_ne; [done|]. by intros ->.
  - intros y. destruct (decide (x = y)) as [->|]; [by rewrite lookup_insert_eq; split|].
    by rewrite lookup_insert_ne.
  - intros y w. rewrite lookup_insert_Some. intros [[_ <-]|[_ Hw]]; [done|].
    by eapply (rep_values _ _ _ R).
Qed.

(** Every word of a block but the first is plain. *)
Lemma block_plain a s i : (a, s) ∈ blocks shape → 0 < i < s → plain (a + i).
Proof.
  intros Hb Hi. split.
  - intros sg Hsg. destruct (header_apart shape sg a s (rep_shape _ _ _ R) Hsg Hb); lia.
  - intros a' s' Hb'. destruct (shape_block _ _ _ (rep_shape _ _ _ R) Hb') as (_&_&_&_&?&_).
    destruct (blocks_apart shape a s a' s' (rep_shape _ _ _ R) Hb Hb') as [[-> ->]|[|]]; lia.
Qed.
End Rep.

(** * Fuel *)

Lemma distinct_size (m : gmap Z Z) (l : list Z) :
  NoDup l → (∀ a, a ∈ l → is_Some (m !! a)) → (length l ≤ size m)%nat.
Proof.
  intros Hd Hin. rewrite <- size_dom, <- (size_list_to_set (C := gset Z) l) by done.
  apply subseteq_size. intros a Ha%elem_of_list_to_set. by apply elem_of_dom, Hin.
Qed.

Lemma segmentWords_in base size a :
  (8 | base) → (8 | size) → a ∈ segmentWords base size ↔ base ≤ a < base + size ∧ (8 | a).
Proof.
  intros [b ->] [n ->]. unfold segmentWords, wordSize. rewrite Z.div_mul by done.
  rewrite list_elem_of_fmap. setoid_rewrite elem_of_seqZ. split.
  - intros (k&->&?). split; [lia|]. exists (b + k). lia.
  - intros [? [k ->]]. exists (k - b). lia.
Qed.

Lemma segmentWords_NoDup base size : NoDup (segmentWords base size).
Proof.
  apply NoDup_fmap_2; [|apply NoDup_seqZ]. intros x y. unfold wordSize. lia.
Qed.

Lemma segmentWords_length base size :
  0 ≤ size → length (segmentWords base size) = Z.to_nat (size `div` 8).
Proof. intros. unfold segmentWords. by rewrite length_fmap, length_seqZ. Qed.

Section Fuel.
Context {m : gmap Z Z} {first : Z} {shape : list Segment}.
Hypothesis R : rep m first shape.

Lemma segment_in sg : sg ∈ shape → segment_ok sg.
Proof. apply shape_segment, R. Qed.

Lemma fuel_words sg : sg ∈ shape → (Z.to_nat (sg_size sg `div` 8) ≤ size m)%nat.
Proof.
  intros Hsg. destruct (segment_in sg Hsg) as (?&Hb&Hs&?&?&_).
  rewrite <- (segmentWords_length (sg_base sg)) by lia.
  apply distinct_size; [apply segmentWords_NoDup|]. intros a Ha.
  apply segmentWords_in in Ha; [|by apply divide_8_16..].
  apply (rep_dom _ _ _ R). by exists sg.
Qed.

Lemma fuel_blocks sg : sg ∈ shape → (length (sg_blocks sg) < S (size m))%nat.
Proof.
  intros Hsg. pose proof (fuel_words sg Hsg). destruct (segment_in sg Hsg) as (_&_&_&_&_&Ht).
  apply tile_le in Ht. unfold lenZ in Ht.
  assert (Z.of_nat (length (sg_blocks sg)) ≤ sg_size sg `div` 8); [|lia].
  apply Z.div_le_lower_bound; lia.
Qed.

Lemma fuel_payload a s i :
  (a, s) ∈ blocks shape → 0 ≤ i ≤ s → (8 | i) → (Z.to_nat ((s - i) `div` 8) < S (size m))%nat.
Proof.
  intros Hb Hi _. destruct (shape_block _ _ _ (rep_shape _ _ _ R) Hb) as (sg&Hsg&?&?&_).
  pose proof (fuel_words sg Hsg).
  assert ((s - i) `div` 8 ≤ sg_size sg `div` 8); [|lia].
  apply Z.div_le_mono; lia.
Qed.

Lemma bases_NoDup : NoDup (sg_base <$> shape).
Proof.
  destruct R as [[Hf Ha] _ _ _ _]. revert Hf Ha. clear R. induction shape as [|sg sh IH].
  { intros. constructor. }
  intros [Hok Hf]%Forall_cons [Hap Ha]. rewrite fmap_cons. constructor; [|by apply IH].
  intros (sg'&Heq&Hin)%list_elem_of_fmap.
  rewrite Forall_forall in Hap, Hf. destruct (Hf _ Hin) as (_&_&_&_&?&_), Hok as (_&_&_&_&?&_).
  destruct (Hap _ Hin); lia.
Qed.

Lemma fuel_segments : (length shape < S (size m))%nat.
Proof.
  rewrite <- (length_fmap sg_base). apply Nat.lt_succ_r, distinct_size; [apply bases_NoDup|].
  intros a (sg&->&Hsg)%list_elem_of_fmap. apply (rep_dom _ _ _ R). exists sg. split; [done|].
  destruct (segment_in sg Hsg) as (?&?&?&?&?&_). split; [lia|by apply divide_8_16].
Qed.
End Fuel.

Lemma blocks_NoDup shape : shape_ok shape → NoDup (blocks shape).*1.
Proof.
  intros [Hf Ha]. revert Hf Ha. induction shape as [|sg sh IH]; [constructor|].
  intros [Hok Hf]%Forall_cons [Hap Ha]. unfold blocks. cbn [mbind list_bind]. fold (blocks sh).
  rewrite fmap_app. apply NoDup_app. split_and!; [| |by apply IH].
  - destruct Hok as (_&_&_&_&_&Ht). revert Ht. generalize (sg_base sg + 16).
    induction (sg_blocks sg) as [|b bs IHb]; intros lo; [constructor|]. cbn [tile].
    intros (<-&H32&_&Ht). rewrite fmap_cons. constructor; [|by eapply IHb].
    intros (b'&Heq&Hin)%list_elem_of_fmap. revert Ht Hin H32 Heq. generalize (b.1) (b.2). clear.
    intros lo s. assert (0 < s → lo = b'.1 → ∀ mid, lo < mid →
      tile mid (sg_base sg + sg_size sg) bs → b' ∈ bs → False) as H.
    { intros Hs Heq. induction bs as [|c bs IH]; intros mid Hm; [by intros _ ?%not_elem_of_nil|].
      cbn [tile]. intros (<-&?&_&Ht) [->|Hin]%elem_of_cons; [lia|].
      by apply (IH (c.1 + c.2) ltac:(lia)). }
    intros. eapply (H ltac:(lia) Heq (lo + s)); [lia|done..].
  - intros a ([a1 s1]&->&Hb)%list_elem_of_fmap ([a2 s2]&Heq&Hb')%list_elem_of_fmap. cbn in Heq. subst a2.
    destruct (segment_block _ _ _ Hok Hb) as (?&?&?&_).
    apply blocks_in in Hb' as (sg'&Hsg'&Hin). rewrite Forall_forall in Hap, Hf.
    destruct (segment_block _ _ _ (Hf _ Hsg') Hin) as (?&?&?&_). destruct (Hap _ Hsg'); lia.
Qed.

(** * Primitive operations *)

Section Primitives.
Context {E : Type} `{!Provider E}.
Implicit Types (h : Heap) (m : gmap Z Z) (e : E).

Lemma wp_load a v (Q : Z → HeapState E → Prop) h m e :
  m !! a = Some v → Q v (HS h m e) → wp False (loadWord a) Q (HS h m e).
Proof. intros Hv Hq. apply wp_bind, wp_get. by eapply wp_lift. Qed.

Lemma wp_store a v (Q : unit → HeapState E → Prop) h m e :
  is_Some (m !! a) → Q tt (HS h (<[a := v]> m) e) → wp False (storeWord a v) Q (HS h m e).
Proof. intros [w Hw] Hq. apply wp_bind. eapply wp_load; [done|]. by apply wp_modify. Qed.

(** The start of an iteration of a loop over the blocks of a segment. *)
Lemma load_size (Q : Z → HeapState E → Prop) h m e first shape sg :
  rep m first shape → sg ∈ shape → Q (sg_size sg) (HS h m e) →
  wp False (loadWord (sg_base sg + 8)) Q (HS h m e).
Proof.
  intros R Hsg. apply wp_load. destruct R as [_ Hl _ _ _]. revert first Hl.
  induction shape as [|sg' sh IH]; intros first; [by apply not_elem_of_nil in Hsg|].
  cbn [links]. intros (->&Hsize&next&Hnext&Hl). apply elem_of_cons in Hsg as [->|Hsg]; [done|].
  by eapply IH.
Qed.
End Primitives.

Lemma u64_lor a b : u64_ok a → u64_ok b → u64_ok (Z.lor a b).
Proof.
  unfold u64_ok. intros Ha Hb. split; [apply Z.lor_nonneg; lia|].
  destruct (Z.eq_dec a 0) as [->|]; [rewrite Z.lor_0_l; lia|].
  destruct (Z.eq_dec b 0) as [->|]; [rewrite Z.lor_0_r; lia|].
  destruct (Z.eq_dec (Z.lor a b) 0) as [->|]; [lia|].
  assert (0 ≤ Z.lor a b) by (apply Z.lor_nonneg; lia).
  apply Z.log2_lt_pow2; [lia|]. rewrite Z.log2_lor by lia.
  apply Z.max_lub_lt; apply Z.log2_lt_pow2; lia.
Qed.

(** * Mark *)

Definition contains (b : Z * Z) (p : Z) : Prop := b.1 + 16 ≤ p < b.1 + b.2.

#[export] Instance contains_dec b p : Decision (contains b p).
Proof. unfold contains. apply _. Defined.

(** No block of the list that contains the pointer is allocated. *)
Definition no_target (bs : list (Z * Z)) (p : Z) (m : gmap Z Z) : Prop :=
  ∀ a s f, (a, s) ∈ bs → contains (a, s) p → m !! (a + 8) = Some f → Z.land f allocated = 0.

(** The block that contains the pointer is allocated and gets the mark. *)
Definition target (bs : list (Z * Z)) (p : Z) (m m' : gmap Z Z) : Prop :=
  ∃ a s f, (a, s) ∈ bs ∧ contains (a, s) p ∧ m !! (a + 8) = Some f ∧ Z.land f allocated ≠ 0 ∧
    m' = <[a + 8 := Z.lor f marked]> m.

Definition marks (bs : list (Z * Z)) (p : Z) (m m' : gmap Z Z) : Prop :=
  (m' = m ∧ no_target bs p m) ∨ target bs p m m'.

Section Mark.
Context {E : Type} `{!Provider E}.
Implicit Types (h : Heap) (m : gmap Z Z) (e : E).

(** A suffix of the blocks of a segment. *)
Definition suffix_of (shape : list Segment) (sg : Segment) (offset : Z) (bs : list (Z * Z)) : Prop :=
  sg ∈ shape ∧ 16 ≤ offset ∧ offset ≤ sg_size sg ∧ (16 | offset) ∧
  tile (sg_base sg + offset) (sg_base sg + sg_size sg) bs ∧ ∀ b, b ∈ bs → b ∈ blocks shape.

Lemma suffix_start shape sg :
  shape_ok shape → sg ∈ shape → suffix_of shape sg 16 (sg_blocks sg).
Proof.
  intros Hs Hsg. destruct (shape_segment _ _ Hs Hsg) as (_&_&_&_&?&Ht).
  split_and!; [done|lia|done|by exists 1|done|]. intros [a s] Hb. apply blocks_in. by exists sg.
Qed.

Lemma suffix_nil shape sg offset : suffix_of shape sg offset [] → offset = sg_size sg.
Proof. intros (_&_&_&_&Ht&_). cbn in Ht. lia. Qed.

Lemma suffix_cons shape sg offset a s bs :
  shape_ok shape → suffix_of shape sg offset ((a, s) :: bs) →
  a = sg_base sg + offset ∧ (a, s) ∈ blocks shape ∧ offset < sg_size sg ∧ 32 ≤ s ∧
  u64 (offset + s) = offset + s ∧ offset + s ≤ sg_size sg ∧ sg_size sg < 2 ^ 64 ∧
  suffix_of shape sg (offset + s) bs.
Proof.
  intros Hs (Hsg&H16&Hle&Hd&Ht&Hin). cbn [tile fst snd] in Ht. destruct Ht as (->&H32&Hds&Ht).
  pose proof (tile_le _ _ _ Ht) as Hle'. pose proof (lenZ_nonneg bs).
  destruct (shape_segment _ _ Hs Hsg) as (?&_&_&?&_).
  split_and!; try done; try lia.
  - apply Hin, elem_of_cons. by left.
  - apply u64_small. unfold u64_ok. lia.
  - split_and!; [done|lia|lia|by apply Z.divide_add_r| |].
    + by rewrite Z.add_assoc.
    + intros b Hb. apply Hin, elem_of_cons. by right.
Qed.

Lemma markBlocks_wp h m e first shape sg p offset bs fuel :
  rep m first shape → suffix_of shape sg offset bs → (length bs < fuel)%nat →
  wp False (markBlocks fuel (sg_base sg) p offset)
    (λ _ st, ∃ m', st = HS h m' e ∧ marks bs p m m') (HS h m e).
Proof.
  intros R. revert offset bs. induction fuel as [|fuel IH]; intros offset bs Hs Hf; [lia|].
  cbn [markBlocks]. apply wp_bind. eapply load_size; [done|apply Hs|]. destruct bs as [|[a s] bs].
  { rewrite (suffix_nil _ _ _ Hs), Z.ltb_irrefl. apply wp_ret. exists m. split; [done|].
    left. split; [done|]. by intros ??? ?%not_elem_of_nil. }
  destruct (suffix_cons _ _ _ _ _ _ (rep_shape _ _ _ R) Hs) as (Ha&Hb&Hlt&H32&Hu&Hle&H64&Hs').
  rewrite (proj2 (Z.ltb_lt _ _)) by done. cbv zeta. rewrite <- Ha.
  apply wp_bind. eapply wp_load; [by apply R|].
  rewrite Hu, (u64_small (offset + blockSize)).
  2:{ unfold u64_ok, blockSize. destruct Hs as (_&?&_). lia. }
  destruct (block_flags m first shape R a s Hb) as [f Hfl].
  destruct (_ && _) eqn:Hc.
  - assert (contains (a, s) p) as Hcon by (unfold contains, blockSize in *; cbn; lia).
    apply wp_bind. eapply wp_load; [done|]. destruct (Z.eqb_spec (Z.land f allocated) 0) as [H0|H0].
    + apply wp_ret. exists m. split; [done|]. left. split; [done|].
      intros a' s' f' [Heq|Hin]%elem_of_cons Hcon' Hf'; [by simplify_eq|]. exfalso.
      assert ((a', s') ∈ blocks shape) as Hb' by (apply Hs, elem_of_cons; by right).
      destruct Hs' as (_&_&_&_&Ht&_). destruct (tile_in _ _ _ _ _ Ht Hin) as (?&_).
      { apply Z.divide_add_r; [|apply Z.divide_add_r; [apply Hs|]].
        - by destruct (shape_segment _ _ (rep_shape _ _ _ R) (proj1 Hs)) as (_&?&_).
        - by destruct (shape_block _ _ _ (rep_shape _ _ _ R) Hb) as (_&_&_&_&_&?&_). }
      unfold contains in *. cbn in *. lia.
    + apply wp_store; [by rewrite Hfl|]. eexists. split; [done|]. right. exists a, s, f.
      split_and!; try done. apply elem_of_cons. by left.
  - eapply wp_conseq; [apply IH; [done|simpl in Hf; lia]|]. intros _ st (m'&->&Hm). exists m'.
    split; [done|]. destruct Hm as [[-> Hno]|(a'&s'&f'&Hin&?)].
    + left. split; [done|]. intros a' s' f' [Heq|Hin]%elem_of_cons; [|by apply Hno].
      intros Hcon. simplify_eq. unfold contains, blockSize in *. cbn in *. lia.
    + right. exists a', s', f'. split; [|done]. apply elem_of_cons. by right.
Qed.

Lemma markSegments_wp h m e first shape p s sh fuel :
  rep m first shape → links m s sh → all_apart sh → (∀ sg, sg ∈ sh → sg ∈ shape) →
  (length sh < fuel)%nat → wp False (markSegments fuel s p)
    (λ _ st, ∃ m', st = HS h m' e ∧ marks (blocks sh) p m m') (HS h m e).
Proof.
  intros R. revert s sh. induction fuel as [|fuel IH]; intros s sh Hl Hap Hin Hf; [lia|].
  cbn [markSegments]. destruct sh as [|sg sh].
  { cbn in Hl. subst s. apply wp_ret. exists m. split; [done|]. left. split; [done|].
    by intros ??? ?%not_elem_of_nil. }
  destruct Hl as (->&_&next&Hnext&Hl). destruct Hap as [Hap Haps].
  assert (sg ∈ shape) as Hsg by (apply Hin, elem_of_cons; by left).
  pose proof (segment_in R sg Hsg) as Hok. pose proof Hok as (H0&_).
  rewrite (proj2 (Z.eqb_neq _ _)) by lia.
  apply wp_bind. eapply load_size; [done..|].
  assert (∀ a s, (a, s) ∈ sg_blocks sg → contains (a, s) p →
    sg_base sg ≤ p < sg_base sg + sg_size sg) as Hseg.
  { intros a s Hb. destruct (segment_block _ _ _ Hok Hb) as (?&?&_). unfold contains. cbn. lia. }
  destruct ((p <? sg_base sg) || (sg_size sg <=? p - sg_base sg)) eqn:Hc.
  - apply wp_bind. eapply wp_load; [done|].
    eapply wp_conseq; [apply IH; [done|done| |simpl in Hf; lia]|].
    { intros sg' Hsg'. apply Hin, elem_of_cons. by right. }
    intros _ st (m'&->&Hm). exists m'. split; [done|].
    destruct Hm as [[-> Hno]|(a'&s'&f'&Hb&Hm)].
    + left. split; [done|]. intros a s f [Hb|Hb]%elem_of_app; [|by apply Hno].
      intros Hcon. specialize (Hseg a s Hb Hcon). lia.
    + right. exists a', s', f'. split; [|done]. apply elem_of_app. by right.
  - apply wp_bind, wp_get. eapply wp_conseq.
    { eapply markBlocks_wp; [done|by apply suffix_start; [apply R|]|]. unfold memFuel. cbn [hs_mem].
      by apply (fuel_blocks R). }
    intros _ st (m'&->&Hm). exists m'. split; [done|]. destruct Hm as [[-> Hno]|(a'&s'&f'&Hb&Hm)].
    + left. split; [done|]. intros a s f [Hb|Hb]%elem_of_app; [by apply Hno|].
      intros Hcon. exfalso. apply blocks_in in Hb as (sg'&Hsg'&Hb).
      assert (sg' ∈ shape) as Hsg2 by (apply Hin, elem_of_cons; by right).
      destruct (segment_block _ _ _ (segment_in R sg' Hsg2) Hb) as (?&?&_).
      rewrite Forall_forall in Hap. specialize (Hap _ Hsg'). specialize (Hseg a s).
      unfold contains, apart in *. cbn in *. lia.
    + right. exists a', s', f'. split; [|done]. apply elem_of_app. by left.
Qed.

(** [Mark] during a collection. *)
Lemma Mark_wp h m e shape p :
  rep m (h_first h) shape → h_busy h = true →
  wp False (Mark p) (λ _ st, ∃ m', st = HS h m' e ∧ marks (blocks shape) p m m') (HS h m e).
Proof.
  intros R Hbusy. apply wp_bind, wp_get. cbn [hs_heap]. rewrite Hbusy. cbn [negb].
  apply (markSegments_wp _ _ _ _ _ _ _ _ _ R); [apply R..|done|]. apply (fuel_segments R).
Qed.

Lemma marks_rep m m' first shape p :
  rep m first shape → marks (blocks shape) p m m' → rep m' first shape.
Proof.
  intros R [[-> _]|(a&s&f&Hb&_&Hf&_&->)]; [done|].
  apply rep_store; [done|by rewrite Hf| |].
  - apply u64_lor; [by eapply (rep_values _ _ _ R)|done].
  - destruct (shape_block _ _ _ (rep_shape _ _ _ R) Hb) as (_&_&_&_&?&_).
    apply (block_plain m first shape R a s 8 Hb). lia.
Qed.
End Mark.
