(* ===== verification/HeapTrace.v ===== *)
(** Marking: what the roots and the traced payloads mark is what is reachable, and
    tracing stops when every marked block has been scanned. *)

From stdpp Require Import gmap.
From S2P Require Import Prelude.
From S2P Require Import GoInt.
From S2P Require Import HeapModel.
From S2P Require Import HeapShape.

(** An allocated block. *)
Definition live (m : gmap Z Z) (shape : list Segment) (a s : Z) : Prop :=
  (a, s) ∈ blocks shape ∧ m !! (a + 8) = Some 1.

(** The blocks that the conservative scan finds: an allocated block that contains a
    root or an aligned word of the payload of a block found before. *)
Inductive reach (m : gmap Z Z) (shape : list Segment) (roots : list Z) : Z → Prop :=
| reach_root p a s :
    p ∈ roots → live m shape a s → contains (a, s) p → reach m shape roots a
| reach_step a s i w a' s' :
    reach m shape roots a → (a, s) ∈ blocks shape → 16 ≤ i < s → (8 | i) →
    m !! (a + i) = Some w → live m shape a' s' → contains (a', s') w → reach m shape roots a'.

(** Outside collections a block is free or allocated. *)
Definition idle (m : gmap Z Z) (shape : list Segment) : Prop :=
  ∀ a s, (a, s) ∈ blocks shape → m !! (a + 8) = Some 0 ∨ m !! (a + 8) = Some 1.

(** A word that is no block's flags. *)
Definition not_flags (shape : list Segment) (x : Z) : Prop :=
  ∀ a s, (a, s) ∈ blocks shape → x ≠ a + 8.

Lemma payload_not_flags shape a s i :
  shape_ok shape → (a, s) ∈ blocks shape → 16 ≤ i < s → not_flags shape (a + i).
Proof.
  intros Hs Hb Hi a' s' Hb'. destruct (shape_block _ _ _ Hs Hb') as (_&_&_&_&?&_).
  destruct (blocks_apart shape a s a' s' Hs Hb Hb') as [[-> ->]|[|]]; lia.
Qed.

(** Different blocks have different flags. *)
Lemma flags_ne shape a s a' s' :
  shape_ok shape → (a, s) ∈ blocks shape → (a', s') ∈ blocks shape → a ≠ a' → a + 8 ≠ a' + 8.
Proof. lia. Qed.

Lemma filter_length_le {A} (P Q : A → Prop) `{!∀ x, Decision (P x), !∀ x, Decision (Q x)} (l : list A) :
  (∀ x, x ∈ l → P x → Q x) → (length (filter P l) ≤ length (filter Q l))%nat.
Proof.
  induction l as [|x l IH]; intros Hpq; [done|]. rewrite !filter_cons.
  assert (length (filter P l) ≤ length (filter Q l))%nat.
  { apply IH. intros y Hy. apply Hpq, elem_of_cons. by right. }
  assert (P x → Q x) by (apply Hpq, elem_of_cons; by left).
  repeat case_decide; cbn [length]; try lia. tauto.
Qed.

Lemma filter_length_lt {A} (P Q : A → Prop) `{!∀ x, Decision (P x), !∀ x, Decision (Q x)} (l : list A) y :
  (∀ x, x ∈ l → P x → Q x) → y ∈ l → ¬ P y → Q y → (length (filter P l) < length (filter Q l))%nat.
Proof.
  intros Hpq Hy Hn Hq. revert Hpq. induction l as [|x l IH]; [by apply not_elem_of_nil in Hy|].
  intros Hpq. rewrite !filter_cons.
  assert (∀ z, z ∈ l → P z → Q z) as Hl by (intros z Hz; apply Hpq, elem_of_cons; by right).
  pose proof (filter_length_le P Q l Hl).
  assert (P x → Q x) by (apply Hpq, elem_of_cons; by left).
  apply elem_of_cons in Hy as [<-|Hy].
  - repeat case_decide; cbn [length]; try tauto. lia.
  - specialize (IH Hy Hl). repeat case_decide; cbn [length]; try lia. tauto.
Qed.

Section Tracing.
Context {E : Type} `{!Provider E}.
Context {first : Z} {shape : list Segment} {m0 : gmap Z Z} {roots : list Z}.
Hypothesis R0 : rep m0 first shape.
Hypothesis I0 : idle m0 shape.

Definition hit (m : gmap Z Z) (a : Z) : Prop := m !! (a + 8) = Some 3 ∨ m !! (a + 8) = Some 7.
Definition black (m : gmap Z Z) (a : Z) : Prop := m !! (a + 8) = Some 7.

#[export] Instance black_dec m a : Decision (black m a).
Proof. unfold black. apply _. Defined.

Record tracing (m : gmap Z Z) : Prop := {
  tr_rep : rep m first shape;
  tr_same : ∀ x, not_flags shape x → m !! x = m0 !! x;
  tr_flags : ∀ a s, (a, s) ∈ blocks shape →
    (m0 !! (a + 8) = Some 0 ∧ m !! (a + 8) = Some 0) ∨
    (m0 !! (a + 8) = Some 1 ∧
      (m !! (a + 8) = Some 1 ∨ hit m a ∧ reach m0 shape roots a))
}.

(** Every allocated block that contains the pointer is marked. *)
Definition covered (m : gmap Z Z) (p : Z) : Prop :=
  ∀ a s, live m0 shape a s → contains (a, s) p → hit m a.

(** Marks are never taken back. *)
Definition above (m m' : gmap Z Z) : Prop :=
  ∀ a s, (a, s) ∈ blocks shape → (hit m a → hit m' a) ∧ (black m a → black m' a).

Definition same_black (m m' : gmap Z Z) : Prop :=
  ∀ a s, (a, s) ∈ blocks shape → black m' a ↔ black m a.

(** The words of the scanned blocks are covered. *)
Definition words_covered (m : gmap Z Z) (a s : Z) : Prop :=
  ∀ i w, 16 ≤ i < s → (8 | i) → m0 !! (a + i) = Some w → covered m w.
Definition scanned_done (m : gmap Z Z) : Prop :=
  ∀ a s, (a, s) ∈ blocks shape → black m a → words_covered m a s.

Definition blackCount (m : gmap Z Z) : nat := length (filter (λ b, black m b.1) (blocks shape)).

Lemma above_refl m : above m m.
Proof. done. Qed.

Lemma above_trans m1 m2 m3 : above m1 m2 → above m2 m3 → above m1 m3.
Proof. intros H1 H2 a s Hb. destruct (H1 a s Hb), (H2 a s Hb). tauto. Qed.

Lemma covered_above m m' p : above m m' → covered m p → covered m' p.
Proof. intros Ha Hc a s Hl Hcon. apply (Ha a s); [apply Hl|]. by apply (Hc a s). Qed.

Lemma words_above m m' a s : above m m' → words_covered m a s → words_covered m' a s.
Proof. intros Ha Hw i w Hi Hd Hl. eapply covered_above; [done|]. by apply (Hw i). Qed.

Lemma tracing_start : tracing m0 ∧ scanned_done m0.
Proof.
  split; [split; [done|done|]|].
  - intros a s Hb. destruct (I0 a s Hb); tauto.
  - intros a s Hb Hbl. unfold black in Hbl. destruct (I0 a s Hb) as [H|H]; by rewrite H in Hbl.
Qed.

(** A word of a payload, during tracing. *)
Lemma payload_same m a s i :
  tracing m → (a, s) ∈ blocks shape → 16 ≤ i < s → m !! (a + i) = m0 !! (a + i).
Proof. intros T Hb Hi. apply (tr_same _ T). by eapply payload_not_flags; [apply R0|..]. Qed.

(** Setting the flags of one block. *)
Lemma tracing_flags m a s f :
  tracing m → (a, s) ∈ blocks shape → m0 !! (a + 8) = Some 1 → f = 3 ∨ f = 7 →
  reach m0 shape roots a → tracing (<[a + 8 := f]> m).
Proof.
  intros T Hb Hl Hf Hr. destruct (shape_block _ _ _ (rep_shape _ _ _ R0) Hb) as (_&_&_&_&?&_). split.
  - apply rep_store; [apply T| | |].
    + apply (block_word _ _ _ (tr_rep _ T) a s); [done|lia|by exists 1].
    + unfold u64_ok. lia.
    + apply (block_plain _ _ _ (tr_rep _ T) a s); [done|lia].
  - intros x Hx. rewrite lookup_insert_ne; [by apply T|]. intros Heq. by apply (Hx a s).
  - intros a' s' Hb'. destruct (decide (a = a')) as [<-|Hne].
    + right. split; [done|]. right. split; [|done]. unfold hit. rewrite lookup_insert_eq.
      destruct Hf as [-> | ->]; tauto.
    + unfold hit. rewrite !lookup_insert_ne by lia. by apply (tr_flags _ T a' s').
Qed.

Lemma above_flags m a s f :
  (a, s) ∈ blocks shape → f = 7 ∨ (f = 3 ∧ ¬ black m a) → above m (<[a + 8 := f]> m).
Proof.
  intros Hb Hf a' s' Hb'. unfold hit, black in *. destruct (decide (a = a')) as [<-|].
  - rewrite lookup_insert_eq. destruct Hf as [->|[-> ?]]; naive_solver.
  - by rewrite !lookup_insert_ne by lia.
Qed.

(** One call of [Mark]. *)
Lemma tracing_marks m m' p :
  tracing m → marks (blocks shape) p m m' →
  (∀ a s, live m0 shape a s → contains (a, s) p → reach m0 shape roots a) →
  tracing m' ∧ above m m' ∧ same_black m m' ∧ covered m' p.
Proof.
  intros T Hm Hr. destruct Hm as [[-> Hno]|(a&s&f&Hb&Hcon&Hf&Hal&->)].
  - split_and!; [done|apply above_refl|done|]. intros a s [Hb Hl] Hcon.
    destruct (tr_flags _ T a s Hb) as [[? _]|[_ [H1|[? _]]]]; [congruence| |done].
    specialize (Hno a s 1 Hb Hcon H1). done.
  - destruct (tr_flags _ T a s Hb) as [[_ H0]|[Hl Hfl]].
    { assert (f = 0) as -> by congruence. done. }
    assert (reach m0 shape roots a) as Hra by by apply (Hr a s).
    assert (covered (<[a + 8 := Z.lor f marked]> m) p ↔ hit (<[a + 8 := Z.lor f marked]> m) a) as Hcov.
    { split; [intros H; by apply (H a s)|]. intros Hh a' s' [Hb' Hl'] Hcon'.
      destruct (blocks_apart _ a s a' s' (rep_shape _ _ _ R0) Hb Hb') as [[-> ->]|[|]]; [done|..];
        unfold contains in *; cbn in *;
        destruct (shape_block _ _ _ (rep_shape _ _ _ R0) Hb) as (_&_&_&_&?&_);
        destruct (shape_block _ _ _ (rep_shape _ _ _ R0) Hb') as (_&_&_&_&?&_); lia. }
    rewrite Hcov. clear Hcov. unfold hit, black in Hfl.
    assert (Z.lor f marked = 3 ∧ f ≠ 7 ∨ Z.lor f marked = 7 ∧ f = 7) as Hv.
    { destruct Hfl as [H1|[[H1|H1] _]]; rewrite Hf in H1; injection H1 as ->; [by left|by left|by right]. }
    split_and!.
    + eapply tracing_flags; [done..| |done]. tauto.
    + eapply above_flags; [done|]. unfold black. rewrite Hf. destruct Hv as [[-> ?]|[-> _]]; [|by left].
      right. split; [done|congruence].
    + intros a' s' Hb'. unfold black. destruct (decide (a = a')) as [<-|].
      * rewrite lookup_insert_eq, Hf. destruct Hv as [[-> ?]|[-> ->]]; naive_solver.
      * by rewrite lookup_insert_ne by lia.
    + unfold hit. rewrite lookup_insert_eq. destruct Hv as [[-> _]|[-> _]]; tauto.
Qed.

Lemma scanned_marks m m' :
  above m m' → same_black m m' → scanned_done m → scanned_done m'.
Proof.
  intros Ha Hs Hd a s Hb Hbl. eapply words_above; [done|]. apply Hd; [done|]. by apply (Hs a s).
Qed.

Lemma same_black_trans m1 m2 m3 : same_black m1 m2 → same_black m2 m3 → same_black m1 m3.
Proof. intros H1 H2 a s Hb. by rewrite (H2 a s Hb), (H1 a s Hb). Qed.

(** * The roots *)

Lemma markPointers_wp h m (e : E) ps :
  h_first h = first → h_busy h = true → tracing m → scanned_done m → (∀ p, p ∈ ps → p ∈ roots) →
  wp False (markPointers ps) (λ _ st, ∃ m', st = HS h m' e ∧ tracing m' ∧ above m m' ∧ scanned_done m' ∧
    ∀ p, p ∈ ps → covered m' p) (HS h m e).
Proof.
  intros Hfirst Hbusy. revert m. induction ps as [|p ps IH]; intros m T Hd Hin; cbn [markPointers].
  { apply wp_ret. exists m. split_and!; try done. by intros p ?%not_elem_of_nil. }
  apply wp_bind. eapply wp_conseq.
  { apply Mark_wp; [|done]. rewrite Hfirst. apply T. }
  intros _ st (m1&->&Hm). destruct (tracing_marks m m1 p T Hm) as (T1&Ha&Hs&Hc).
  { intros a s Hl Hcon. apply (reach_root _ _ _ p a s); [|done..]. apply Hin, elem_of_cons. by left. }
  eapply wp_conseq; [apply (IH m1); [done|by eapply scanned_marks|]|].
  { intros q Hq. apply Hin, elem_of_cons. by right. }
  intros _ st (m2&->&T2&Ha2&Hd2&Hc2). exists m2. split_and!; try done.
  - by eapply above_trans.
  - intros q [->|Hq]%elem_of_cons; [by eapply covered_above|by apply Hc2].
Qed.

(** * Scanning *)

Lemma scanPayload_wp h m (e : E) a s i fuel :
  h_first h = first → h_busy h = true → tracing m → (a, s) ∈ blocks shape →
  reach m0 shape roots a → 16 ≤ i ≤ s → (8 | i) → (Z.to_nat ((s - i) `div` 8) < fuel)%nat →
  (∀ j w, 16 ≤ j < i → (8 | j) → m0 !! (a + j) = Some w → covered m w) →
  wp False (scanPayload fuel a i)
    (λ _ st, ∃ m', st = HS h m' e ∧ tracing m' ∧ above m m' ∧ same_black m m' ∧ words_covered m' a s)
    (HS h m e).
Proof.
  intros Hfirst Hbusy T Hb Hr. revert m i T. induction fuel as [|fuel IH]; intros m i T Hi Hd Hf Hdone; [lia|].
  cbn [scanPayload]. apply wp_bind. eapply wp_load; [by apply (tr_rep _ T)|].
  destruct (shape_block _ _ _ (rep_shape _ _ _ R0) Hb) as (sg&Hsg&H1&H2&H32&Hds&_).
  pose proof (segment_in R0 sg Hsg) as (?&_&_&?&_).
  destruct (Z.ltb_spec i s) as [Hlt|].
  2:{ apply wp_ret. exists m. split_and!; try done. intros j w Hj. apply Hdone. lia. }
  destruct (block_word _ _ _ (tr_rep _ T) a s i Hb) as [w Hw]; [lia|done|].
  assert (m0 !! (a + i) = Some w) as Hw0 by (rewrite <- (payload_same m a s) by (done || lia); done).
  apply wp_bind. eapply wp_load; [done|]. apply wp_bind. eapply wp_conseq.
  { apply Mark_wp; [rewrite Hfirst; apply T|done]. }
  intros _ st (m1&->&Hm). destruct (tracing_marks m m1 w T Hm) as (T1&Ha&Hs&Hc).
  { intros a' s' Hl Hcon. eapply (reach_step _ _ _ a s i w); try done. lia. }
  assert (i + 8 ≤ s) as Hi8.
  { destruct Hd as [k ->], Hds as [l ->]. lia. }
  unfold wordSize. rewrite u64_small by (unfold u64_ok; lia).
  eapply wp_conseq; [apply (IH m1 (i + 8)); [done|lia|by apply Z.divide_add_r; [|exists 1]| |]|].
  - replace (s - i) with (s - (i + 8) + 1 * 8) in Hf by lia. rewrite Z.div_add in Hf by done.
    assert (0 ≤ (s - (i + 8)) `div` 8) by (apply Z.div_pos; lia). lia.
  - intros j v Hj Hdj Hv. destruct (decide (j = i)) as [->|]; [by simplify_eq|].
    eapply covered_above; [done|]. apply (Hdone j); [|done..].
    destruct Hd as [k ->], Hdj as [l ->]. lia.
  - intros _ st (m2&->&T2&Ha2&Hs2&Hc2). exists m2. split_and!; try done.
    + by eapply above_trans.
    + by eapply same_black_trans.
Qed.
(** What one scanning step leaves: nothing changed and no block of the list was to
    be scanned, or there is one scanned block more. *)
Definition scan_step (bs : list (Z * Z)) (progress : bool) (m m' : gmap Z Z) (r : bool) : Prop :=
  tracing m' ∧ above m m' ∧ scanned_done m' ∧ (blackCount m ≤ blackCount m')%nat ∧
  ((r = progress ∧ m' = m ∧ ∀ a s, (a, s) ∈ bs → m !! (a + 8) ≠ Some 3) ∨
   (r = true ∧ (blackCount m < blackCount m')%nat)).

Lemma scan_step_nil progress m :
  tracing m → scanned_done m → scan_step [] progress m m progress.
Proof.
  intros T Hd. split_and!; try done. left. split_and!; try done. by intros a s ?%not_elem_of_nil.
Qed.

Lemma scan_step_app b1 b2 progress m m1 r1 m2 r2 :
  scan_step b1 progress m m1 r1 → scan_step b2 r1 m1 m2 r2 → scan_step (b1 ++ b2) progress m m2 r2.
Proof.
  intros (_&Ha1&_&Hle1&H1) (T2&Ha2&Hd2&Hle2&H2).
  split_and!; [done|by eapply above_trans|done|lia|].
  destruct H1 as [(->&->&H1)|[-> Hlt]].
  - destruct H2 as [(->&->&H2)|[-> Hlt]]; [left|by right]. split_and!; try done.
    intros a s [Hb|Hb]%elem_of_app; [by apply (H1 a s)|by apply (H2 a s)].
  - right. destruct H2 as [(->&->&_)|[-> ?]]; (split; [done|lia]).
Qed.

Lemma black_count m m' :
  above m m' → (blackCount m ≤ blackCount m')%nat.
Proof. intros Ha. apply filter_length_le. intros [a s] Hb. apply (Ha a s Hb). Qed.

Lemma black_count_lt m m' a s :
  above m m' → (a, s) ∈ blocks shape → ¬ black m a → black m' a → (blackCount m < blackCount m')%nat.
Proof.
  intros Ha Hb Hn Hbl. apply (filter_length_lt _ _ _ (a, s)); [|done..].
  intros [a' s'] Hb'. apply (Ha a' s' Hb').
Qed.

(** A marked block is scanned. *)
Lemma scanBlock_wp h m (e : E) a s f progress :
  h_first h = first → h_busy h = true → tracing m → scanned_done m → (a, s) ∈ blocks shape →
  m !! (a + 8) = Some f →
  wp False
    (if f =? Z.lor allocated marked then
       _ ← storeWord (a + 8) (Z.lor f scanned);
       st ← get;
       _ ← scanPayload (memFuel st) a blockSize;
       mret true
     else mret progress)
    (λ r st, ∃ m', st = HS h m' e ∧ scan_step [(a, s)] progress m m' r) (HS h m e).
Proof.
  intros Hfirst Hbusy T Hd Hb Hf.
  destruct (shape_block _ _ _ (rep_shape _ _ _ R0) Hb) as (_&_&_&_&H32&Hds&_). change (Z.lor allocated marked) with 3.
  destruct (Z.eqb_spec f 3) as [->|Hne].
  2:{ apply wp_ret. exists m. split; [done|]. split_and!; try done. left. split_and!; try done.
      intros a' s' Hin. apply list_elem_of_singleton in Hin. simplify_eq. congruence. }
  change (Z.lor 3 scanned) with 7.
  destruct (tr_flags _ T a s Hb) as [[_ ?]|[Hl [?|[_ Hr]]]]; [congruence..|].
  assert (¬ black m a) as Hnb by (unfold black; congruence).
  apply wp_bind, wp_store; [by rewrite Hf|].
  set (m1 := <[a + 8 := 7]> m). assert (tracing m1) as T1 by (eapply tracing_flags; [done..|tauto|done]).
  assert (above m m1) as Ha1 by (eapply above_flags; [done|by left]).
  assert (black m1 a) as Hbl by (unfold black, m1; by rewrite lookup_insert_eq).
  apply wp_bind, wp_get. apply wp_bind. eapply wp_conseq.
  { apply (scanPayload_wp h m1 e a s blockSize); try done.
    - unfold blockSize. lia.
    - by exists 2.
    - unfold memFuel. cbn [hs_mem]. apply (fuel_payload (tr_rep _ T1) a s); [done|unfold blockSize; lia|by exists 2].
    - unfold blockSize. intros j w Hj. lia. }
  intros _ st (m2&->&T2&Ha2&Hs2&Hw). apply wp_ret. exists m2. split; [done|].
  assert (above m m2) as Ha by by eapply above_trans.
  split_and!; [done|done| |by apply black_count|].
  - intros a' s' Hb' Hbl'. destruct (decide (a = a')) as [<-|Hne].
    + destruct (shape_block _ _ _ (rep_shape _ _ _ R0) Hb') as (_&_&_&_&?&_).
      by destruct (blocks_apart _ a s a s' (rep_shape _ _ _ R0) Hb Hb') as [[_ <-]|[|]]; [|lia..].
    + eapply words_above; [done|]. apply Hd; [done|]. apply (Hs2 a' s') in Hbl'; [|done].
      unfold black, m1 in Hbl'. by rewrite lookup_insert_ne in Hbl' by lia.
  - right. split; [done|]. apply (black_count_lt m m2 a s); [done..|]. by apply (Hs2 a s).
Qed.

Lemma scanBlocks_wp h m (e : E) sg offset bs progress fuel :
  h_first h = first → h_busy h = true → tracing m → scanned_done m →
  suffix_of shape sg offset bs → (length bs < fuel)%nat →
  wp False (scanBlocks fuel (sg_base sg) offset progress)
    (λ r st, ∃ m', st = HS h m' e ∧ scan_step bs progress m m' r) (HS h m e).
Proof.
  intros Hfirst Hbusy. revert m offset bs progress.
  induction fuel as [|fuel IH]; intros m offset bs progress T Hd Hs Hf; [lia|].
  cbn [scanBlocks]. apply wp_bind. eapply load_size; [apply T|apply Hs|]. destruct bs as [|[a s] bs].
  { rewrite (suffix_nil _ _ _ Hs), Z.ltb_irrefl. apply wp_ret. exists m. split; [done|].
    by apply scan_step_nil. }
  destruct (suffix_cons _ _ _ _ _ _ (rep_shape _ _ _ R0) Hs) as (Hpos&Hb&Hlt&H32&Hu&Hle&H64&Hs').
  rewrite (proj2 (Z.ltb_lt _ _)) by done. cbv zeta. rewrite <- Hpos.
  destruct (block_flags _ _ _ (tr_rep _ T) a s Hb) as [f Hf1].
  apply wp_bind. eapply wp_load; [done|]. apply wp_bind.
  eapply wp_conseq; [by apply (scanBlock_wp h m e a s f progress)|].
  intros r st (m1&->&Hst). pose proof Hst as (T1&_&Hd1&_).
  apply wp_bind. eapply wp_load; [by apply (tr_rep _ T1)|]. rewrite Hu.
  eapply wp_conseq; [apply (IH m1 (offset + s) bs r); [done..|simpl in Hf; lia]|].
  intros r2 st (m2&->&Hst2). exists m2. split; [done|].
  exact (scan_step_app [(a, s)] bs _ _ _ _ _ _ Hst Hst2).
Qed.

Lemma scanSegments_wp h m (e : E) s sh progress fuel :
  h_first h = first → h_busy h = true → tracing m → scanned_done m →
  links m s sh → (∀ sg, sg ∈ sh → sg ∈ shape) → (length sh < fuel)%nat →
  wp False (scanSegments fuel s progress)
    (λ r st, ∃ m', st = HS h m' e ∧ scan_step (blocks sh) progress m m' r) (HS h m e).
Proof.
  intros Hfirst Hbusy. revert m s sh progress.
  induction fuel as [|fuel IH]; intros m s sh progress T Hd Hl Hin Hf; [lia|].
  cbn [scanSegments]. destruct sh as [|sg sh].
  { cbn in Hl. subst s. apply wp_ret. exists m. split; [done|]. by apply scan_step_nil. }
  destruct Hl as (->&_&next&Hnext&Hl).
  assert (sg ∈ shape) as Hsg by (apply Hin, elem_of_cons; by left).
  pose proof (segment_in R0 sg Hsg) as Hok. pose proof Hok as (H0&_).
  rewrite (proj2 (Z.eqb_neq _ _)) by lia.
  apply wp_bind, wp_get, wp_bind. eapply wp_conseq.
  { apply (scanBlocks_wp h m e sg segmentSize (sg_blocks sg)); try done.
    - by apply suffix_start; [apply R0|].
    - unfold memFuel. cbn [hs_mem]. apply (fuel_blocks (tr_rep _ T) sg Hsg). }
  intros r st (m1&->&Hst). pose proof Hst as (T1&_&Hd1&_).
  assert (∀ x, ¬ plain shape x → m1 !! x = m !! x) as Heq.
  { intros x Hx. assert (not_flags shape x) as Hnf.
    { intros a s Hb ->. apply Hx.
      destruct (shape_block _ _ _ (rep_shape _ _ _ R0) Hb) as (_&_&_&_&?&_).
      apply (block_plain _ _ _ R0 a s); [done|lia]. }
    by rewrite (tr_same _ T x Hnf), (tr_same _ T1 x Hnf). }
  apply wp_bind. eapply wp_load.
  { rewrite Heq; [done|]. intros [Hp _]. by destruct (Hp sg Hsg). }
  eapply wp_conseq; [apply (IH m1 next sh r); [done|done| | |simpl in Hf; lia]|].
  - eapply links_frame; [done|]. intros sg' Hsg'.
    assert (sg' ∈ shape) by (apply Hin, elem_of_cons; by right).
    split; apply Heq; intros [Hp _]; by destruct (Hp sg').
  - intros sg' Hsg'. apply Hin, elem_of_cons. by right.
  - intros r2 st (m2&->&Hst2). exists m2. split; [done|].
    exact (scan_step_app (sg_blocks sg) (blocks sh) _ _ _ _ _ _ Hst Hst2).
Qed.

(** Tracing ends: every pass but the last scans a block. *)
Lemma trace_wp h m (e : E) fuel :
  h_first h = first → h_busy h = true → tracing m → scanned_done m →
  (length (blocks shape) - blackCount m < fuel)%nat →
  wp False (trace fuel) (λ _ st, ∃ m', st = HS h m' e ∧ tracing m' ∧ above m m' ∧ scanned_done m' ∧
    ∀ a s, (a, s) ∈ blocks shape → m' !! (a + 8) ≠ Some 3) (HS h m e).
Proof.
  intros Hfirst Hbusy. revert m. induction fuel as [|fuel IH]; intros m T Hd Hf; [lia|].
  cbn [trace]. apply wp_bind, wp_get, wp_bind. cbn [hs_heap]. rewrite Hfirst. eapply wp_conseq.
  { apply (scanSegments_wp h m e first shape false); try done.
    - apply T.
    - unfold memFuel. cbn [hs_mem]. apply (fuel_segments (tr_rep _ T)). }
  intros r st (m1&->&T1&Ha1&Hd1&Hle&[(->&->&Hno)|[-> Hlt]]); cbn [negb].
  - apply wp_ret. by exists m.
  - eapply wp_conseq; [apply (IH m1); [done..|]|].
    + assert (blackCount m1 ≤ length (blocks shape))%nat by apply length_filter. lia.
    + intros _ st (m2&->&T2&Ha2&Hd2&Hno). exists m2. split_and!; try done. by eapply above_trans.
Qed.

(** After tracing, what is marked is what is reachable. *)
Lemma traced_reach m :
  tracing m → scanned_done m → (∀ p, p ∈ roots → covered m p) →
  (∀ a s, (a, s) ∈ blocks shape → m !! (a + 8) ≠ Some 3) →
  ∀ a s, (a, s) ∈ blocks shape → black m a ↔ reach m0 shape roots a.
Proof.
  intros T Hd Hc Hno a s Hab. split.
  - unfold black. intros Hbl. destruct (tr_flags _ T a s Hab) as [[_ ?]|[_ [?|[_ ?]]]]; congruence || done.
  - intros Hr. revert s Hab. induction Hr as [p a s Hp Hl Hcon|a s i w a' s' Hr IH Hb Hi Hdv Hw Hl Hcon];
      intros s2 Hb2.
    + destruct (Hc p Hp a s Hl Hcon) as [H3|H7]; [|done]. by destruct (Hno a s2 Hb2).
    + destruct (Hd a s Hb (IH s Hb) i w Hi Hdv Hw a' s' Hl Hcon) as [H3|H7]; [|done].
      by destruct (Hno a' s2 Hb2).
Qed.
End Tracing.
