(* ===== verification/HeapSweep.v ===== *)
(** Sweeping: marked blocks stay where they are with their payloads, the others are
    merged into free blocks. *)

From stdpp Require Import gmap.
From S2P Require Import Prelude.
From S2P Require Import GoInt.
From S2P Require Import HeapModel.
From S2P Require Import HeapShape.
From S2P Require Import HeapTrace.

(** * Changing the blocks of one segment *)

Lemma blocks_app l1 l2 : blocks (l1 ++ l2) = blocks l1 ++ blocks l2.
Proof. unfold blocks. by rewrite bind_app. Qed.

Lemma blocks_cons sg l : blocks (sg :: l) = sg_blocks sg ++ blocks l.
Proof. done. Qed.

Lemma shape_ok_app l1 l2 :
  shape_ok (l1 ++ l2) ↔ shape_ok l1 ∧ shape_ok l2 ∧ ∀ x y, x ∈ l1 → y ∈ l2 → apart x y.
Proof. unfold shape_ok. rewrite Forall_app, all_apart_app. tauto. Qed.

Lemma shape_ok_cons sg l : shape_ok (sg :: l) ↔ segment_ok sg ∧ Forall (apart sg) l ∧ shape_ok l.
Proof. unfold shape_ok. rewrite Forall_cons. cbn [all_apart]. tauto. Qed.

Lemma links_app m f l1 l2 :
  links m f (l1 ++ l2) ↔ ∃ mid, links m mid l2 ∧
    (∀ m', (∀ sg, sg ∈ l1 → m' !! sg_base sg = m !! sg_base sg ∧
      m' !! (sg_base sg + 8) = m !! (sg_base sg + 8)) → ∀ l, links m' mid l → links m' f (l1 ++ l)).
Proof.
  split.
  - revert f. induction l1 as [|sg l1 IH]; intros f; cbn [app links].
    { intros Hl. exists f. split; [done|]. done. }
    intros (->&Hs&next&Hn&Hl). destruct (IH next Hl) as (mid&Hmid&Hback). exists mid. split; [done|].
    intros m' Heq l Hl'. destruct (Heq sg) as [H1 H2]; [apply elem_of_cons; by left|].
    rewrite H1, H2. split_and!; [done..|]. exists next. split; [done|]. apply Hback; [|done].
    intros sg' Hin. apply Heq, elem_of_cons. by right.
  - intros (mid&Hmid&Hback). by apply Hback.
Qed.

Definition body (sg : Segment) (x : Z) : Prop := sg_base sg + 16 ≤ x < sg_base sg + sg_size sg.

Lemma shape_body l1 sg l2 sg' :
  shape_ok (l1 ++ sg :: l2) → sg' ∈ l1 ∨ sg' ∈ l2 → apart sg' sg.
Proof.
  intros (_&(_&Hf&_)%shape_ok_cons&Hx)%shape_ok_app [Hin|Hin].
  - apply Hx; [done|]. apply elem_of_cons. by left.
  - rewrite Forall_forall in Hf. specialize (Hf _ Hin). unfold apart in *. tauto.
Qed.

Lemma rep_reshape m m' first l1 base size bs bs' l2 :
  rep m first (l1 ++ MkSegment base size bs :: l2) →
  tile (base + 16) (base + size) bs' →
  (∀ a s, (a, s) ∈ bs' → m' !! a = Some s) →
  (∀ x, ¬ body (MkSegment base size bs) x → m' !! x = m !! x) →
  (∀ x, is_Some (m' !! x) ↔ is_Some (m !! x)) → (∀ x v, m' !! x = Some v → u64_ok v) →
  rep m' first (l1 ++ MkSegment base size bs' :: l2).
Proof.
  set (sg := MkSegment base size bs). set (sg' := MkSegment base size bs').
  intros [Hs Hl Hsp Hd _] Ht Hbs Hout Hdom Hval.
  assert (∀ o, o ∈ l1 ∨ o ∈ l2 → apart o sg) as Hap by (intros o Ho; by apply (shape_body l1 sg l2)).
  assert (∀ o, o ∈ l1 ++ sg :: l2 → m' !! sg_base o = m !! sg_base o ∧
    m' !! (sg_base o + 8) = m !! (sg_base o + 8)) as Hhd.
  { intros o Ho. pose proof (shape_segment _ _ Hs Ho) as (_&_&_&_&?&_).
    assert (o = sg ∨ apart o sg) as [->|Ho'].
    { apply elem_of_app in Ho as [Ho|[->|Ho]%elem_of_cons]; auto. }
    - split; apply Hout; unfold body, sg; cbn; lia.
    - unfold apart in Ho'. split; apply Hout; unfold body; lia. }
  pose proof Hs as (Hs1&(Hsg&Hf&Hs2)%shape_ok_cons&Hx)%shape_ok_app. split.
  - apply shape_ok_app. split; [done|]. split.
    + apply shape_ok_cons. split_and!; [|done|done]. destruct Hsg as (?&?&?&?&?&_). by split_and!.
    + intros x y Hx1 [->|Hy]%elem_of_cons.
      * apply (Hx x sg); [done|]. apply elem_of_cons. by left.
      * apply Hx; [done|]. apply elem_of_cons. by right.
  - apply links_app in Hl as (mid&(->&Hsize&next&Hnext&Hl2)&Hback). apply Hback.
    { intros o Ho. apply Hhd, elem_of_app. by left. }
    destruct (Hhd sg) as [H1 H2]; [apply elem_of_app; right; apply elem_of_cons; by left|].
    cbn [sg_base sg_size sg] in *. cbn [links sg_base sg_size sg']. rewrite H1, H2. split_and!; [done..|]. exists next. split; [done|].
    eapply links_frame; [done|]. intros o Ho. apply Hhd, elem_of_app. right. apply elem_of_cons. by right.
  - intros a s (o&Ho&Hb)%blocks_in.
    assert (∀ o, o ∈ l1 ∨ o ∈ l2 → (a, s) ∈ sg_blocks o → m' !! a = Some s) as Hother.
    { intros o' Ho' Hb'. assert (o' ∈ l1 ++ sg :: l2) as Hin.
      { apply elem_of_app. destruct Ho'; [by left|right; apply elem_of_cons; by right]. }
      rewrite Hout.
      - apply Hsp, blocks_in. by exists o'.
      - destruct (segment_block _ _ _ (shape_segment _ _ Hs Hin) Hb') as (?&?&?&_).
        specialize (Hap _ Ho'). unfold body, apart in *. lia. }
    apply elem_of_app in Ho as [Ho|[->|Ho]%elem_of_cons]; [by apply (Hother o); auto|by apply Hbs|
      by apply (Hother o); auto].
  - intros a. rewrite Hdom, Hd. split; intros (o&Ho&Hw).
    + apply elem_of_app in Ho as [Ho|[->|Ho]%elem_of_cons].
      * exists o. split; [apply elem_of_app; by left|done].
      * exists sg'. split; [apply elem_of_app; right; apply elem_of_cons; by left|done].
      * exists o. split; [apply elem_of_app; right; apply elem_of_cons; by right|done].
    + apply elem_of_app in Ho as [Ho|[->|Ho]%elem_of_cons].
      * exists o. split; [apply elem_of_app; by left|done].
      * exists sg. split; [apply elem_of_app; right; apply elem_of_cons; by left|done].
      * exists o. split; [apply elem_of_app; right; apply elem_of_cons; by right|done].
  - done.
Qed.

(** Two neighbouring blocks become one. *)
Lemma rep_merge m first l1 base size d fa fs a s bs l2 :
  rep m first (l1 ++ MkSegment base size (d ++ (fa, fs) :: (a, s) :: bs) :: l2) →
  a = fa + fs ∧ fs + s < 2 ^ 64 ∧
  rep (<[fa := fs + s]> m) first (l1 ++ MkSegment base size (d ++ (fa, fs + s) :: bs) :: l2).
Proof.
  intros R. set (sg := MkSegment base size (d ++ (fa, fs) :: (a, s) :: bs)) in *.
  assert (sg ∈ l1 ++ sg :: l2) as Hsg by (apply elem_of_app; right; apply elem_of_cons; by left).
  pose proof (segment_in R sg Hsg) as Hok. pose proof Hok as (H0&_&_&H64&_&Ht).
  cbn [sg_base sg_size sg_blocks sg] in *. apply tile_app in Ht as (mid&Ht1&Ht2). cbn [tile fst snd] in Ht2.
  destruct Ht2 as (<-&Hfs&Hdf&->&Hs&Hds&Ht2). pose proof (tile_le _ _ _ Ht2). pose proof (lenZ_nonneg bs).
  pose proof (tile_le _ _ _ Ht1). pose proof (lenZ_nonneg d).
  assert (∀ b, b ∈ d ++ (fa, fs) :: (fa + fs, s) :: bs → b ∈ blocks (l1 ++ sg :: l2)) as Hin.
  { intros [a' s'] Hb. apply blocks_in. by exists sg. }
  assert ((fa, fs) ∈ blocks (l1 ++ sg :: l2)) as Hfb.
  { apply Hin, elem_of_app. right. apply elem_of_cons. by left. }
  split_and!; [done|lia|]. eapply (rep_reshape _ _ _ _ _ _ _ _ _ R).
  - apply tile_app. exists fa. split; [done|]. cbn [tile fst snd].
    split_and!; [done|lia|by apply Z.divide_add_r|by rewrite Z.add_assoc].
  - intros a' s' Hb. assert ((a', s') = (fa, fs + s) ∨ ((a', s') ∈ d ++ (fa, fs) :: (fa + fs, s) :: bs ∧
      a' ≠ fa)) as [[= -> ->]|[Hb' Hne]].
    { apply elem_of_app in Hb as [Hb|[Hb|Hb]%elem_of_cons]; [|by left|].
      - right. split; [apply elem_of_app; by left|]. intros ->.
        destruct Hok as (_&Hd16&_). destruct (tile_in _ _ _ _ _ Ht1 Hb) as (?&?&?&_); [|lia].
        apply Z.divide_add_r; [done|by exists 1].
      - right. split; [apply elem_of_app; right; do 2 (apply elem_of_cons; right); done|]. intros ->.
        destruct (tile_in _ _ _ _ _ Ht2 Hb) as (?&?&?&_); [|lia].
        apply Z.divide_add_r; [|done].
        destruct (shape_block _ _ _ (rep_shape _ _ _ R) Hfb) as (_&_&_&_&_&_&?&_).
        by apply Z.divide_add_r. }
    + by rewrite lookup_insert_eq.
    + rewrite lookup_insert_ne by done. by apply (rep_spans _ _ _ R), Hin.
  - intros x Hx. rewrite lookup_insert_ne; [done|]. intros <-. apply Hx. unfold body. cbn. lia.
  - intros x. destruct (decide (fa = x)) as [<-|]; [|by rewrite lookup_insert_ne].
    rewrite lookup_insert_eq. pose proof (rep_spans _ _ _ R _ _ Hfb) as ->. by split.
  - intros x v. rewrite lookup_insert_Some. intros [[_ <-]|[_ Hv]]; [unfold u64_ok; lia|].
    by eapply (rep_values _ _ _ R).
Qed.

(** * The blocks of one segment *)

Section SweepBlocks.
Context {E : Type} `{!Provider E}.
Context {first : Z} {m1 : gmap Z Z} {l1 l2 : list Segment} {base size : Z} {all : list (Z * Z)}.

Abbreviation shape_with bs := (l1 ++ MkSegment base size bs :: l2).

(** [pre] of the blocks have been swept into [d], [bs] are left. *)
Record sweeping (m : gmap Z Z) (pre d bs : list (Z * Z)) : Prop := {
  sw_rep : rep m first (shape_with (d ++ bs));
  sw_all : all = pre ++ bs;
  sw_rest : ∀ a s, (a, s) ∈ bs → m !! (a + 8) = m1 !! (a + 8);
  sw_done : ∀ a s, (a, s) ∈ d →
    (m !! (a + 8) = Some 1 ∧ (a, s) ∈ pre ∧ black m1 a) ∨ m !! (a + 8) = Some 0;
  sw_kept : ∀ a s, (a, s) ∈ pre → black m1 a → (a, s) ∈ d ∧ m !! (a + 8) = Some 1;
  sw_words : ∀ x, ¬ body (MkSegment base size all) x ∨
    (∃ a s, (a, s) ∈ all ∧ black m1 a ∧ a + 16 ≤ x < a + s) → m !! x = m1 !! x
}.

Lemma shape_with_in bs a s : (a, s) ∈ bs → (a, s) ∈ blocks (shape_with bs).
Proof.
  intros Hb. apply blocks_in. exists (MkSegment base size bs). split; [|done].
  apply elem_of_app. right. apply elem_of_cons. by left.
Qed.

Lemma shape_with_body bs a s :
  shape_ok (shape_with bs) → (a, s) ∈ bs → base + 16 ≤ a ∧ a + s ≤ base + size ∧ 32 ≤ s.
Proof.
  intros Hs Hb. assert (segment_ok (MkSegment base size bs)) as Hok.
  { apply (shape_segment _ _ Hs), elem_of_app. right. apply elem_of_cons. by left. }
  destruct (segment_block _ _ _ Hok Hb) as (?&?&?&_). done.
Qed.

(** A black block of the segment is still a block. *)
Lemma sweeping_black m pre d bs a s :
  sweeping m pre d bs → (a, s) ∈ all → black m1 a → (a, s) ∈ d ++ bs.
Proof.
  intros S Hb Hbl. rewrite (sw_all _ _ _ _ S) in Hb. apply elem_of_app in Hb as [Hb|Hb]; apply elem_of_app.
  - left. by apply (sw_kept _ _ _ _ S a s).
  - by right.
Qed.

(** Blocks at different addresses have different flag words. *)
Lemma sweeping_apart m pre d bs a s a' s' :
  sweeping m pre d bs → (a, s) ∈ d ++ bs → (a', s') ∈ d ++ bs →
  (a = a' ∧ s = s') ∨ a + s ≤ a' ∨ a' + s' ≤ a.
Proof.
  intros S Hb Hb'. apply (blocks_apart (shape_with (d ++ bs))); [apply S|by apply shape_with_in..].
Qed.

Lemma sweeping_flag m pre d a s bs v :
  sweeping m pre d ((a, s) :: bs) → (v = 1 ∧ black m1 a) ∨ (v = 0 ∧ ¬ black m1 a) →
  sweeping (<[a + 8 := v]> m) (pre ++ [(a, s)]) (d ++ [(a, s)]) bs.
Proof.
  intros S Hv. pose proof (sw_rep _ _ _ _ S) as R.
  assert ((a, s) ∈ d ++ (a, s) :: bs) as Hin by (apply elem_of_app; right; apply elem_of_cons; by left).
  destruct (shape_with_body _ _ _ (rep_shape _ _ _ R) Hin) as (?&?&?).
  pose proof (shape_with_in _ _ _ Hin) as Hb.
  assert (∀ a' s', (a', s') ∈ d ++ (a, s) :: bs → a' = a ∧ s' = s ∨ a' ≠ a ∧ (<[a + 8 := v]> m) !! (a' + 8) = m !! (a' + 8))
    as Hother.
  { intros a' s' Hb'. destruct (shape_with_body _ _ _ (rep_shape _ _ _ R) Hb') as (?&?&?).
    destruct (sweeping_apart _ _ _ _ _ _ _ _ S Hin Hb') as [[-> ->]|[|]]; [by left|right..];
      (split; [lia|by rewrite lookup_insert_ne by lia]). }
  assert (NoDup (blocks (shape_with (d ++ (a, s) :: bs))).*1) as Hnd by apply blocks_NoDup, R.
  assert (∀ s', ((a, s') ∉ d) ∧ ((a, s') ∉ bs)) as Hnot.
  { rewrite blocks_app, blocks_cons in Hnd. cbn [sg_blocks] in Hnd. rewrite !fmap_app, fmap_cons in Hnd.
    apply NoDup_app in Hnd as (_&_&(Hnd&_&_)%NoDup_app). apply NoDup_app in Hnd as (_&Hnd1&[Hnd2 _]%NoDup_cons).
    intros s'. split.
    - intros Hd. apply (Hnd1 a); [apply list_elem_of_fmap; by exists (a, s')|]. apply elem_of_cons. by left.
    - intros Hd. apply Hnd2, list_elem_of_fmap. by exists (a, s'). }
  split.
  - rewrite <- app_assoc. apply rep_store; [done| | |].
    + apply (block_word _ _ _ R a s); [done|lia|by exists 1].
    + unfold u64_ok. destruct Hv as [[-> _]|[-> _]]; lia.
    + apply (block_plain _ _ _ R a s); [done|lia].
  - rewrite (sw_all _ _ _ _ S), <- app_assoc. done.
  - intros a' s' Hb'. destruct (Hother a' s') as [[-> ->]|[_ ->]].
    + apply elem_of_app. right. apply elem_of_cons. by right.
    + by destruct (Hnot s).
    + apply (sw_rest _ _ _ _ S a' s'), elem_of_cons. by right.
  - intros a' s' [Hb'|Hb'%list_elem_of_singleton]%elem_of_app.
    + destruct (Hother a' s') as [[-> ->]|[_ ->]]; [apply elem_of_app; by left|by destruct (Hnot s)|].
      rewrite elem_of_app. destruct (sw_done _ _ _ _ S a' s' Hb') as [?|?]; [left; tauto|by right].
    + simplify_eq. rewrite lookup_insert_eq. destruct Hv as [[-> ?]|[-> _]]; [left|by right].
      split_and!; [done| |done]. apply elem_of_app. right. by apply list_elem_of_singleton.
  - intros a' s' [Hb'|Hb'%list_elem_of_singleton]%elem_of_app Hbl.
    + destruct (sw_kept _ _ _ _ S a' s' Hb' Hbl) as [Hd Hf].
      destruct (Hother a' s') as [[-> ->]|[_ ->]]; [apply elem_of_app; by left|by destruct (Hnot s)|].
      split; [apply elem_of_app; by left|done].
    + simplify_eq. split; [apply elem_of_app; right; by apply list_elem_of_singleton|].
      rewrite lookup_insert_eq. destruct Hv as [[-> _]|[_ ?]]; [done|tauto].
  - intros x Hx. rewrite lookup_insert_ne; [by apply (sw_words _ _ _ _ S)|]. intros <-.
    destruct Hx as [Hx|(a'&s'&Hb'&Hbl&Hx)]; [unfold body in Hx; cbn in Hx; lia|].
    apply (sweeping_black _ _ _ _ _ _ S Hb') in Hbl.
    destruct (sweeping_apart _ _ _ _ _ _ _ _ S Hin Hbl) as [[-> ->]|[|]]; lia.
Qed.

Lemma sweeping_merge m pre d fa fs a s bs :
  sweeping m pre (d ++ [(fa, fs); (a, s)]) bs → m !! (fa + 8) = Some 0 → m !! (a + 8) = Some 0 →
  a = fa + fs ∧ fs + s < 2 ^ 64 ∧ sweeping (<[fa := fs + s]> m) pre (d ++ [(fa, fs + s)]) bs.
Proof.
  intros S Hff Haf. pose proof (sw_rep _ _ _ _ S) as R. rewrite <- app_assoc in R. cbn [app] in R.
  destruct (rep_merge _ _ _ _ _ _ _ _ _ _ _ _ R) as (Ha&Hlt&R'). split_and!; [done..|].
  assert ((fa, fs) ∈ (d ++ [(fa, fs); (a, s)]) ++ bs) as Hin.
  { apply elem_of_app. left. apply elem_of_app. right. apply elem_of_cons. by left. }
  destruct (shape_with_body _ _ _ (rep_shape _ _ _ (sw_rep _ _ _ _ S)) Hin) as (?&?&?).
  assert (∀ a' s', (a', s') ∈ (d ++ [(fa, fs); (a, s)]) ++ bs → (<[fa := fs + s]> m) !! (a' + 8) = m !! (a' + 8))
    as Hother.
  { intros a' s' Hb'. destruct (shape_with_body _ _ _ (rep_shape _ _ _ (sw_rep _ _ _ _ S)) Hb') as (?&?&?).
    rewrite lookup_insert_ne; [done|].
    destruct (sweeping_apart _ _ _ _ _ _ _ _ S Hin Hb') as [[-> ->]|[|]]; lia. }
  split.
  - rewrite <- app_assoc. done.
  - apply S.
  - intros a' s' Hb'. rewrite (Hother a' s') by (apply elem_of_app; by right). by apply (sw_rest _ _ _ _ S a' s').
  - intros a' s' [Hb'|Hb'%list_elem_of_singleton]%elem_of_app.
    + rewrite (Hother a' s') by (apply elem_of_app; left; apply elem_of_app; by left).
      apply (sw_done _ _ _ _ S a' s'), elem_of_app. by left.
    + simplify_eq. right. by rewrite (Hother fa fs).
  - intros a' s' Hb' Hbl. destruct (sw_kept _ _ _ _ S a' s' Hb' Hbl) as [Hd Hf].
    rewrite (Hother a' s') by (apply elem_of_app; by left). split; [|done].
    apply elem_of_app in Hd as [Hd|[Hd|Hd%list_elem_of_singleton]%elem_of_cons]; [|simplify_eq; congruence..].
    apply elem_of_app. by left.
  - intros x Hx. rewrite lookup_insert_ne; [by apply (sw_words _ _ _ _ S)|]. intros <-.
    destruct Hx as [Hx|(a'&s'&Hb'&Hbl&Hx)]; [unfold body in Hx; cbn in Hx; lia|].
    apply (sweeping_black _ _ _ _ _ _ S Hb') in Hbl.
    destruct (sweeping_apart _ _ _ _ _ _ _ _ S Hin Hbl) as [[-> ->]|[|]]; lia.
Qed.

(** The last block, when it is free. *)
Definition free_ok (m : gmap Z Z) (d : list (Z * Z)) (free : Z) : Prop :=
  free = 0 ∨ 0 < free ∧ ∃ d' fs, d = d' ++ [(free, fs)] ∧ m !! (free + 8) = Some 0.

Lemma suffix_reshape d1 d2 offset bs :
  suffix_of (shape_with d1) (MkSegment base size d1) offset bs → (∀ b, b ∈ bs → b ∈ d2) →
  suffix_of (shape_with d2) (MkSegment base size d2) offset bs.
Proof.
  intros (_&?&?&?&?&_) Hin. split_and!; try done.
  - apply elem_of_app. right. apply elem_of_cons. by left.
  - intros [a s] Hb. by apply shape_with_in, Hin.
Qed.

Lemma sweeping_flag_word m pre d a s bs :
  sweeping m pre d ((a, s) :: bs) →
  (a, s) ∈ all ∧ is_Some (m !! (a + 8)) ∧ m !! (a + 8) = m1 !! (a + 8) ∧ 0 < a ∧ m !! a = Some s.
Proof.
  intros S. pose proof (sw_rep _ _ _ _ S) as R.
  assert ((a, s) ∈ blocks (shape_with (d ++ (a, s) :: bs))) as Hb.
  { apply shape_with_in, elem_of_app. right. apply elem_of_cons. by left. }
  destruct (shape_block _ _ _ (rep_shape _ _ _ R) Hb) as (_&_&_&_&?&_&_&?). split_and!.
  - rewrite (sw_all _ _ _ _ S). apply elem_of_app. right. apply elem_of_cons. by left.
  - apply (block_word _ _ _ R a s); [done|lia|by exists 1].
  - apply (sw_rest _ _ _ _ S a s), elem_of_cons. by left.
  - done.
  - by apply R.
Qed.

Definition any_black (bs : list (Z * Z)) : Prop := ∃ a s, (a, s) ∈ bs ∧ black m1 a.

Lemma any_black_snoc pre a s : any_black (pre ++ [(a, s)]) ↔ any_black pre ∨ black m1 a.
Proof.
  unfold any_black. setoid_rewrite elem_of_app. setoid_rewrite list_elem_of_singleton. naive_solver.
Qed.

Lemma sweepBlocks_wp h m (e : E) pre d bs offset free alive fuel :
  (∀ a s, (a, s) ∈ all → m1 !! (a + 8) = Some 0 ∨ m1 !! (a + 8) = Some 1 ∨ black m1 a) →
  sweeping m pre d bs → suffix_of (shape_with (d ++ bs)) (MkSegment base size (d ++ bs)) offset bs →
  free_ok m d free → (alive = true ↔ any_black pre) → (length bs < fuel)%nat →
  wp False (sweepBlocks fuel base offset free alive)
    (λ r st, ∃ m' d', st = HS h m' e ∧ sweeping m' all d' [] ∧ (r = true ↔ any_black all)) (HS h m e).
Proof.
  intros Hflags. revert m pre d bs offset free alive.
  induction fuel as [|fuel IH]; intros m pre d bs offset free alive S Hs Hfree Halive Hf; [lia|].
  pose proof (sw_rep _ _ _ _ S) as R. cbn [sweepBlocks]. apply wp_bind.
  change (loadWord (base + 8)) with (loadWord (E := E) (sg_base (MkSegment base size (d ++ bs)) + 8)).
  eapply load_size; [done|apply Hs|]. destruct bs as [|[a s] bs].
  { rewrite (suffix_nil _ _ _ Hs), Z.ltb_irrefl. apply wp_ret. exists m, d.
    pose proof (sw_all _ _ _ _ S) as Hall. rewrite app_nil_r in Hall. rewrite Hall. split_and!; [done| |done].
    destruct S as [? ? ? ? ? ?]. split; [done| |done..]. by rewrite app_nil_r. }
  destruct (suffix_cons _ _ _ _ _ _ (rep_shape _ _ _ R) Hs) as (Hpos&_&Hlt&_&Hu&_&_&Hs').
  cbn [sg_base sg_size] in *. rewrite (proj2 (Z.ltb_lt _ _)) by done.
  destruct (sweeping_flag_word _ _ _ _ _ _ S) as (Hall&Hdom&Hsame&H0&Hspan).
  cbv zeta. rewrite <- Hpos. apply wp_bind. eapply wp_load; [done|].
  assert (∀ b, b ∈ bs → b ∈ (d ++ [(a, s)]) ++ bs) as Hin by (intros b Hb; apply elem_of_app; by right).
  assert (∃ f, m !! (a + 8) = Some f ∧ (black m1 a ↔ Z.land f marked ≠ 0)) as (f&Hfl&Hbl).
  { rewrite Hsame. unfold black, marked in *. destruct (Hflags a s Hall) as [-> |[-> | ->]].
    - exists 0. split; [done|]. split; [done|intros H; by destruct H].
    - exists 1. split; [done|]. split; [done|intros H; by destruct H].
    - exists 7. split; [done|]. done. }
  apply wp_bind. eapply wp_load; [done|]. simpl in Hf.
  destruct (Z.eqb_spec (Z.land f marked) 0) as [Hnb|Hb]; cbn [negb].
  - assert (¬ black m1 a) as Hn by tauto. apply wp_bind, wp_store; [done|].
    assert (sweeping (<[a + 8 := 0]> m) (pre ++ [(a, s)]) (d ++ [(a, s)]) bs) as S'
      by (apply sweeping_flag; tauto).
    assert (alive = true ↔ any_black (pre ++ [(a, s)])) as Halive' by (rewrite any_black_snoc; tauto).
    destruct (Z.eqb_spec free 0) as [->|Hfn]; cbn [negb].
    + rewrite Hu. eapply IH; [done|by eapply suffix_reshape|right|done|lia]. split; [done|].
      exists d, s. split; [done|]. by rewrite lookup_insert_eq.
    + destruct Hfree as [?|(Hfpos&d'&fs&->&Hff)]; [done|]. rewrite <- app_assoc in S'. cbn [app] in S'.
      destruct (sweeping_merge _ _ _ _ _ _ _ _ S') as (Hadj&Hlt2&S2).
      { rewrite lookup_insert_ne; [done|]. intros Heq. replace a with free in * by lia.
        rewrite <- app_assoc in R.
        pose proof (blocks_NoDup _ (rep_shape _ _ _ R)) as Hnd.
        rewrite blocks_app, blocks_cons in Hnd. cbn [sg_blocks app] in Hnd.
        rewrite !fmap_app, !fmap_cons in Hnd. apply NoDup_app in Hnd as (_&_&(Hnd&_&_)%NoDup_app).
        apply NoDup_app in Hnd as (_&_&[Hnd _]%NoDup_cons). apply Hnd, elem_of_cons. by left. }
      { by rewrite lookup_insert_eq. }
      assert ((free, fs) ∈ blocks (shape_with ((d' ++ [(free, fs); (a, s)]) ++ bs))) as Hfb.
      { apply shape_with_in, elem_of_app. left. apply elem_of_app. right. apply elem_of_cons. by left. }
      pose proof (sw_rep _ _ _ _ S') as R'. apply wp_bind. eapply wp_load; [by apply R'|].
      apply wp_bind, wp_store; [by rewrite (rep_spans _ _ _ R' _ _ Hfb)|].
      destruct (shape_block _ _ _ (rep_shape _ _ _ R') Hfb) as (_&_&_&_&?&_).
      assert ((a, s) ∈ blocks (shape_with ((d' ++ [(free, fs); (a, s)]) ++ bs))) as Hab.
      { apply shape_with_in, elem_of_app. left. apply elem_of_app. right.
        apply elem_of_cons. right. by apply list_elem_of_singleton. }
      destruct (shape_block _ _ _ (rep_shape _ _ _ R') Hab) as (_&_&_&_&?&_).
      rewrite Hu, (u64_small (fs + s)) by (unfold u64_ok; lia).
      eapply IH; [done| |right|done|lia].
      * eapply suffix_reshape; [done|]. intros b Hb. apply elem_of_app. by right.
      * split; [done|]. exists d', (fs + s). split; [done|]. rewrite !lookup_insert_ne by lia.
        done.
  - assert (black m1 a) as Hbk by tauto. apply wp_bind, wp_store; [done|].
    assert (sweeping (<[a + 8 := 1]> m) (pre ++ [(a, s)]) (d ++ [(a, s)]) bs) as S'
      by (apply sweeping_flag; tauto).
    rewrite Hu. eapply IH; [done|by eapply suffix_reshape|by left| |lia].
    rewrite any_black_snoc. tauto.
Qed.
End SweepBlocks.
