(* ===== verification/HeapCollect.v ===== *)
(** Giving a segment back to the provider, and what is asked of the provider.

    Collections: a refused collection changes nothing, a complete one keeps the
    reachable blocks and their payloads.

    Sweeping the whole list of segments, and [Collect] as a whole.

    The invariant of the heap, and [Collect] against it. *)

From stdpp Require Import gmap.
From S2P Require Import Prelude.
From S2P Require Import GoInt.
From S2P Require Import HeapModel.
From S2P Require Import HeapShape.
From S2P Require Import HeapTrace.
From S2P Require Import HeapSweep.

(** The contract of [Memory] and [Roots] in heap.go: [Acquire] returns nil and
    retains nothing, or [size] bytes aligned to the granule that no other segment
    holds; [Release] releases the matching acquisition; [MarkRoots] does neither. *)
Class ProviderLaws (E : Type) `{!Provider E} (granule : Z) := {
  held : E → list (Z * Z);
  Acquire_ok size e base e' :
    0 < size → (granule | size) → Acquire size e = (base, e') →
    (base = 0 ∧ held e' ≡ₚ held e) ∨
    (0 < base ∧ (granule | base) ∧ base + size ≤ 2 ^ 64 ∧ held e' ≡ₚ (base, size) :: held e ∧
     ∀ b s, (b, s) ∈ held e → base + size ≤ b ∨ b + s ≤ base);
  Release_ok base size e l :
    held e ≡ₚ (base, size) :: l → held (Release base size e) ≡ₚ l;
  MarkRoots_ok m e pointers ok e' : MarkRoots m e = (pointers, ok, e') → held e' ≡ₚ held e
}.

Definition pairs (shape : list Segment) : list (Z * Z) := (λ sg, (sg_base sg, sg_size sg)) <$> shape.

Definition total (shape : list Segment) : Z := foldr (λ sg t, sg_size sg + t) 0 shape.

Lemma total_app l1 l2 : total (l1 ++ l2) = total l1 + total l2.
Proof. induction l1 as [|sg l1 IH]; cbn [app total foldr]; [done|]. fold (total (l1 ++ l2)) (total l1). lia. Qed.

Lemma total_nonneg shape : shape_ok shape → 0 ≤ total shape.
Proof.
  intros [Hf _]. induction Hf as [|sg shape (_&_&_&_&?&_) _ IH]; cbn [total foldr]; [done|].
  fold (total shape). lia.
Qed.

(** * Words of a released segment *)

Lemma foldr_delete_lookup (m : gmap Z Z) l x :
  foldr delete m l !! x = if bool_decide (x ∈ l) then None else m !! x.
Proof.
  induction l as [|y l IH]; cbn [foldr].
  { rewrite bool_decide_eq_false_2; [done|]. apply not_elem_of_nil. }
  destruct (decide (x = y)) as [->|Hne].
  - rewrite lookup_delete_eq, bool_decide_eq_true_2; [done|]. apply elem_of_cons. by left.
  - rewrite lookup_delete_ne, IH by done.
    destruct (decide (x ∈ l)) as [H|H].
    + rewrite !bool_decide_eq_true_2; [done| |done]. apply elem_of_cons. by right.
    + rewrite !bool_decide_eq_false_2; [done| |done]. intros [?|?]%elem_of_cons; done.
Qed.

Lemma segment_words sg x :
  segment_ok sg → x ∈ segmentWords (sg_base sg) (sg_size sg) ↔ word_of sg x.
Proof. intros (_&?&?&_). apply segmentWords_in; by apply divide_8_16. Qed.

Lemma releaseWords_lookup sg m x :
  segment_ok sg →
  releaseWords (sg_base sg) (sg_size sg) m !! x = m !! x ∧ ¬ word_of sg x ∨
  releaseWords (sg_base sg) (sg_size sg) m !! x = None ∧ word_of sg x.
Proof.
  intros Hok. unfold releaseWords. rewrite foldr_delete_lookup.
  destruct (decide (x ∈ segmentWords (sg_base sg) (sg_size sg))) as [H|H].
  - rewrite bool_decide_eq_true_2 by done. right. split; [done|]. by apply segment_words.
  - rewrite bool_decide_eq_false_2 by done. left. split; [done|]. by rewrite <- segment_words.
Qed.

(** * Taking a segment out of the list *)

Definition first_after (first next : Z) (kept : list Segment) : Z :=
  match kept with [] => next | _ => first end.

Definition last_base (kept : list Segment) : Z :=
  match last kept with Some sg => sg_base sg | None => 0 end.

Definition relink (kept : list Segment) (next : Z) (m : gmap Z Z) : gmap Z Z :=
  match kept with [] => m | _ => <[last_base kept := next]> m end.

Lemma last_base_snoc kept sg : last_base (kept ++ [sg]) = sg_base sg.
Proof. unfold last_base. by rewrite last_snoc. Qed.

Lemma relink_links m first kept sg rest next :
  shape_ok (kept ++ sg :: rest) → links m first (kept ++ sg :: rest) → m !! sg_base sg = Some next →
  links (relink kept next m) (first_after first next kept) (kept ++ rest).
Proof.
  destruct kept as [|sg0 kept0] using rev_ind.
  { cbn. intros _ (_&_&next'&Hn&Hl) Hn'. by simplify_eq. }
  clear IHkept0. intros Hs Hl Hn.
  assert (first_after first next (kept0 ++ [sg0]) = first) as -> by by destruct kept0.
  assert (relink (kept0 ++ [sg0]) next m = <[sg_base sg0 := next]> m) as ->.
  { unfold relink. rewrite last_base_snoc. by destruct kept0. }
  rewrite <- app_assoc in *. cbn [app] in *.
  apply links_app in Hl as (mid&(->&Hsize&n&Hn0&Hl2)&Hback).
  destruct Hl2 as (->&_&n'&Hn'&Hl2). assert (n' = next) by congruence. subst n'.
  assert (∀ o, o ∈ kept0 ∨ o ∈ sg :: rest → o = sg0 ∨ sg_base o + 16 ≤ sg_base sg0 ∨ sg_base sg0 + 16 ≤ sg_base o) as Hne.
  { intros o Ho. apply (bases_apart _ _ _ Hs); apply elem_of_app; [|right; apply elem_of_cons; by left].
    destruct Ho; [by left|right; apply elem_of_cons; by right]. }
  assert (∀ o, o ∈ kept0 ∨ o ∈ sg :: rest → (sg_base sg0 ≠ sg_base o) ∧ sg_base sg0 ≠ sg_base o + 8) as Hne2.
  { intros o Ho. assert (apart o sg0) as Hap.
    { apply (shape_body kept0 sg0 (sg :: rest)); [done|done]. }
    assert (segment_ok o ∧ segment_ok sg0) as [(_&_&_&_&?&_) (_&_&_&_&?&_)].
    { split; apply (shape_segment _ _ Hs), elem_of_app; [destruct Ho; [by left|right; apply elem_of_cons; by right]|].
      right. apply elem_of_cons. by left. }
    unfold apart in Hap. lia. }
  apply Hback.
  { intros o Ho. destruct (Hne2 o) as [? ?]; [by left|]. by rewrite !lookup_insert_ne by done. }
  cbn [links]. rewrite lookup_insert_ne by lia. split_and!; [done..|]. exists next.
  rewrite lookup_insert_eq. split; [done|]. eapply links_frame; [done|]. intros o Ho.
  destruct (Hne2 o) as [? ?]; [right; apply elem_of_cons; by right|]. by rewrite !lookup_insert_ne by done.
Qed.

(** What is left after a release. *)
Lemma rep_release m first kept sg rest next :
  rep m first (kept ++ sg :: rest) → m !! sg_base sg = Some next →
  rep (releaseWords (sg_base sg) (sg_size sg) (relink kept next m)) (first_after first next kept)
    (kept ++ rest) ∧
  (∀ o x, o ∈ kept ++ rest → body o x →
    releaseWords (sg_base sg) (sg_size sg) (relink kept next m) !! x = m !! x).
Proof.
  intros R Hn. pose proof (rep_shape _ _ _ R) as Hs.
  pose proof Hs as (Hs1&(Hsg&Hf&Hs2)%shape_ok_cons&Hx)%shape_ok_app.
  assert (shape_ok (kept ++ rest)) as Hs'.
  { apply shape_ok_app. split_and!; [done..|]. intros x y ??. apply Hx; [done|]. apply elem_of_cons. by right. }
  assert (∀ o, o ∈ kept ++ rest → o ∈ kept ++ sg :: rest ∧ apart o sg) as Hin.
  { intros o [Ho|Ho]%elem_of_app; (split; [apply elem_of_app|apply (shape_body kept sg rest o Hs)]); auto.
    right. apply elem_of_cons. by right. }
  assert (∀ o x, o ∈ kept ++ rest → word_of o x → ¬ word_of sg x) as Hword.
  { intros o x Ho Hw Hw'. destruct (Hin o Ho) as [_ Hap]. unfold apart, word_of in *. lia. }
  assert (∀ x, is_Some (relink kept next m !! x) ↔ is_Some (m !! x)) as Hdom.
  { intros x. unfold relink. destruct kept as [|k kept'] using rev_ind; [done|]. clear IHkept'.
    rewrite last_base_snoc. assert (is_Some (m !! sg_base k)) as Hk.
    { apply (rep_dom _ _ _ R). exists k. destruct (Hin k) as [Hk _].
      { apply elem_of_app. left. apply elem_of_app. right. by apply list_elem_of_singleton. }
      split; [done|]. destruct (segment_in R k Hk) as (?&?&?&?&?&_). split; [lia|by apply divide_8_16]. }
    assert (is_Some ((<[sg_base k := next]> m) !! x) ↔ is_Some (m !! x)) as H.
    { destruct (decide (sg_base k = x)) as [<-|]; [by rewrite lookup_insert_eq|by rewrite lookup_insert_ne]. }
    by destruct kept'. }
  assert (∀ o x, o ∈ kept ++ rest → body o x → relink kept next m !! x = m !! x) as Hbody.
  { intros o x Ho Hb. unfold relink. destruct kept as [|k kept'] using rev_ind; [done|]. clear IHkept'.
    rewrite last_base_snoc. assert ((<[sg_base k := next]> m) !! x = m !! x) as H.
    { rewrite lookup_insert_ne; [done|]. intros <-.
      assert (k ∈ (kept' ++ [k]) ++ rest) as Hk.
      { apply elem_of_app. left. apply elem_of_app. right. by apply list_elem_of_singleton. }
      pose proof (shape_segment _ _ Hs' Hk) as (_&_&_&_&?&_).
      destruct (all_apart_in _ k o (proj2 Hs') Hk Ho) as [<-|Hap]; unfold body, apart in *; lia. }
    by destruct kept'. }
  split.
  - split; [done| | | |].
    + eapply links_frame; [by eapply relink_links; [|apply R|]|].
      intros o Ho. destruct (shape_segment _ _ Hs' Ho) as (?&Hd&?&?&?&_).
      assert (word_of o (sg_base o) ∧ word_of o (sg_base o + 8)) as [W1 W2].
      { unfold word_of. apply divide_8_16 in Hd. split; (split; [lia|]); [done|].
        apply Z.divide_add_r; [done|by exists 1]. }
      destruct (releaseWords_lookup sg (relink kept next m) (sg_base o) Hsg) as [[-> _]|[_ Hw]];
        [|by destruct (Hword o _ Ho W1)].
      destruct (releaseWords_lookup sg (relink kept next m) (sg_base o + 8) Hsg) as [[-> _]|[_ Hw]];
        [done|by destruct (Hword o _ Ho W2)].
    + intros a s (o&Ho&Hb)%blocks_in.
      destruct (segment_block _ _ _ (shape_segment _ _ Hs' Ho) Hb) as (?&?&?&?&Hd&?).
      destruct (releaseWords_lookup sg (relink kept next m) a Hsg) as [[-> _]|[_ Hw]].
      * rewrite (Hbody o) by (done || unfold body; lia). apply (rep_spans _ _ _ R), blocks_in.
        exists o. split; [|done]. apply Hin, Ho.
      * destruct (Hword o a Ho); [|done]. split; [lia|by apply divide_8_16].
    + intros x. destruct (releaseWords_lookup sg (relink kept next m) x Hsg) as [[-> Hw]|[-> Hw]].
      * rewrite Hdom, (rep_dom _ _ _ R). split; intros (o&Ho&Hwo).
        -- exists o. split; [|done]. apply elem_of_app in Ho as [Ho|[->|Ho]%elem_of_cons];
             [apply elem_of_app; by left|done|apply elem_of_app; by right].
        -- exists o. split; [apply Hin, Ho|done].
      * split; [by intros [? ?]|]. intros (o&Ho&Hwo). by destruct (Hword o x Ho Hwo).
    + intros x v. destruct (releaseWords_lookup sg (relink kept next m) x Hsg) as [[-> Hw]|[-> Hw]]; [|done].
      intros Hv. unfold relink in Hv. destruct kept as [|k kept']; [by eapply (rep_values _ _ _ R)|].
      apply lookup_insert_Some in Hv as [[_ <-]|[_ Hv]]; by eapply (rep_values _ _ _ R).
  - intros o x Ho Hb. destruct (releaseWords_lookup sg (relink kept next m) x Hsg) as [[-> _]|[_ Hw]].
    + by eapply Hbody.
    + destruct (Hin o Ho) as [_ Hap]. unfold apart, word_of, body in *. lia.
Qed.

(** * Taking the marks back *)

Section Clear.
Context {E : Type} `{!Provider E}.
Context {first : Z} {shape : list Segment} {m0 : gmap Z Z} {roots : list Z}.
Hypothesis R0 : rep m0 first shape.

Abbreviation traced := (tracing (first := first) (shape := shape) (m0 := m0) (roots := roots)).

(** The flags of some blocks are as before the collection, and no others changed. *)
Definition restored (bs : list (Z * Z)) (m m' : gmap Z Z) : Prop :=
  traced m' ∧ (∀ a s, (a, s) ∈ bs → m' !! (a + 8) = m0 !! (a + 8)) ∧
  ∀ x, m !! x = m0 !! x → m' !! x = m0 !! x.

Lemma restored_nil m : traced m → restored [] m m.
Proof. intros T. split_and!; try done. by intros a s ?%not_elem_of_nil. Qed.

Lemma restored_app b1 b2 m m1 m2 : restored b1 m m1 → restored b2 m1 m2 → restored (b1 ++ b2) m m2.
Proof.
  intros (_&H1&K1) (T&H2&K2). split_and!; [done| |auto].
  intros a s [Hb|Hb]%elem_of_app; [apply K2; by apply (H1 a s)|by apply (H2 a s)].
Qed.

Lemma restored_block m a s f :
  traced m → (a, s) ∈ blocks shape → m !! (a + 8) = Some f →
  restored [(a, s)] m (<[a + 8 := Z.land f allocated]> m).
Proof.
  intros T Hb Hf.
  assert (m0 !! (a + 8) = Some (Z.land f allocated)) as H0.
  { unfold allocated. destruct (tr_flags _ T a s Hb) as [[? ?]|[? [?|[[?|?] _]]]];
      simplify_eq; done. }
  assert (u64_ok (Z.land f allocated)) as Hv by by eapply (rep_values _ _ _ R0).
  assert (∀ x, m !! x = m0 !! x → <[a + 8 := Z.land f allocated]> m !! x = m0 !! x) as Hkeep.
  { intros x Hx. destruct (decide (a + 8 = x)) as [<-|]; [by rewrite lookup_insert_eq|].
    by rewrite lookup_insert_ne. }
  split_and!; [|by intros a' s' [= -> ->]%list_elem_of_singleton; rewrite lookup_insert_eq|done].
  destruct (shape_block _ _ _ (rep_shape _ _ _ R0) Hb) as (_&_&_&_&?&_). split.
  - apply rep_store; [apply T|by rewrite Hf|done|]. by apply (block_plain _ _ _ (tr_rep _ T) a s); [|lia].
  - intros x Hx. apply Hkeep. by apply T.
  - intros a' s' Hb'. destruct (decide (a = a')) as [<-|].
    + rewrite lookup_insert_eq, H0. unfold allocated in *.
      destruct (tr_flags _ T a s Hb) as [[? ?]|[? [?|[[?|?] _]]]]; simplify_eq; cbn; tauto.
    + unfold hit. rewrite !lookup_insert_ne by lia. by apply (tr_flags _ T a' s').
Qed.

Lemma clearBlocks_wp h m (e : E) sg offset bs fuel :
  traced m → suffix_of shape sg offset bs → (length bs < fuel)%nat →
  wp False (clearBlocks fuel (sg_base sg) offset)
    (λ _ st, ∃ m', st = HS h m' e ∧ restored bs m m') (HS h m e).
Proof.
  revert m offset bs. induction fuel as [|fuel IH]; intros m offset bs T Hs Hf; [lia|].
  cbn [clearBlocks]. apply wp_bind. eapply load_size; [apply T|apply Hs|]. destruct bs as [|[a s] bs].
  { rewrite (suffix_nil _ _ _ Hs), Z.ltb_irrefl. apply wp_ret. exists m. split; [done|].
    by apply restored_nil. }
  destruct (suffix_cons _ _ _ _ _ _ (rep_shape _ _ _ R0) Hs) as (Hpos&Hb&Hlt&H32&Hu&Hle&H64&Hs').
  rewrite (proj2 (Z.ltb_lt _ _)) by done. cbv zeta. rewrite <- Hpos.
  destruct (block_flags _ _ _ (tr_rep _ T) a s Hb) as [f Hfl].
  apply wp_bind. eapply wp_load; [done|]. apply wp_bind, wp_store; [by rewrite Hfl|].
  pose proof (restored_block m a s f T Hb Hfl) as Hr. pose proof Hr as (T1&_).
  apply wp_bind. eapply wp_load; [by apply (tr_rep _ T1)|]. rewrite Hu.
  eapply wp_conseq; [apply IH; [done..|simpl in Hf; lia]|].
  intros _ st (m2&->&Hr2). exists m2. split; [done|]. exact (restored_app [_] bs _ _ _ Hr Hr2).
Qed.

Lemma traced_links m m1 s sh :
  traced m → traced m1 → (∀ sg, sg ∈ sh → sg ∈ shape) → links m s sh → links m1 s sh.
Proof.
  intros T T1 Hin Hl.
  assert (∀ x, ¬ plain shape x → m1 !! x = m !! x) as Heq.
  { intros x Hx. assert (not_flags shape x) as Hnf.
    { intros a s' Hb ->. apply Hx.
      destruct (shape_block _ _ _ (rep_shape _ _ _ R0) Hb) as (_&_&_&_&?&_).
      apply (block_plain _ _ _ R0 a s'); [done|lia]. }
    by rewrite (tr_same _ T x Hnf), (tr_same _ T1 x Hnf). }
  eapply links_frame; [done|]. intros sg Hsg. specialize (Hin sg Hsg).
  split; apply Heq; intros [Hp _]; by destruct (Hp sg).
Qed.

Lemma clearSegments_wp h m (e : E) s sh fuel :
  traced m → links m s sh → (∀ sg, sg ∈ sh → sg ∈ shape) → (length sh < fuel)%nat →
  wp False (clearSegments fuel s)
    (λ _ st, ∃ m', st = HS h m' e ∧ restored (blocks sh) m m') (HS h m e).
Proof.
  revert m s sh. induction fuel as [|fuel IH]; intros m s sh T Hl Hin Hf; [lia|].
  cbn [clearSegments]. destruct sh as [|sg sh].
  { cbn in Hl. subst s. apply wp_ret. exists m. split; [done|]. by apply restored_nil. }
  assert (sg ∈ shape) as Hsg by (apply Hin, elem_of_cons; by left).
  pose proof Hl as (->&_). destruct (segment_in R0 sg Hsg) as (H0&_).
  rewrite (proj2 (Z.eqb_neq _ _)) by lia. apply wp_bind, wp_get, wp_bind. eapply wp_conseq.
  { apply (clearBlocks_wp h m e sg segmentSize (sg_blocks sg)); [done| |].
    - by apply suffix_start; [apply R0|].
    - unfold memFuel. cbn [hs_mem]. apply (fuel_blocks (tr_rep _ T) sg Hsg). }
  intros _ st (m1&->&Hr). pose proof Hr as (T1&_).
  destruct (traced_links m m1 _ _ T T1 Hin Hl) as (_&_&next&Hnext&Hl').
  apply wp_bind. eapply wp_load; [done|]. eapply wp_conseq.
  { apply (IH m1 next sh); [done|done| |simpl in Hf; lia]. intros o Ho. apply Hin, elem_of_cons. by right. }
  intros _ st (m2&->&Hr2). exists m2. split; [done|]. exact (restored_app _ _ _ _ _ Hr Hr2).
Qed.

(** A refused collection leaves the storage as it was. *)
Lemma clearMarks_wp h m (e : E) :
  h_first h = first → traced m →
  wp False clearMarks (λ _ st, st = HS h m0 e) (HS h m e).
Proof.
  intros Hfirst T. apply wp_bind, wp_get. cbn [hs_heap]. rewrite Hfirst. eapply wp_conseq.
  { apply (clearSegments_wp h m e first shape); [done|apply T|done|].
    unfold memFuel. cbn [hs_mem]. apply (fuel_segments (tr_rep _ T)). }
  intros _ st (m'&->&T'&Hall&_). f_equal. apply map_eq. intros x.
  destruct (decide (Exists (λ b, x = b.1 + 8) (blocks shape))) as [H|H].
  - apply Exists_exists in H as ([a s]&Hb&->). by apply (Hall a s).
  - apply T'. intros a s Hb ->. apply H, Exists_exists. by exists (a, s).
Qed.
End Clear.

(** * Sweeping the segments *)

Definition head_base (shape : list Segment) : Z :=
  match shape with [] => 0 | sg :: _ => sg_base sg end.

Lemma links_head m s shape : links m s shape → s = head_base shape.
Proof. destruct shape; [done|]. by intros [-> _]. Qed.

Lemma rep_next m first kept sg rest :
  rep m first (kept ++ sg :: rest) → m !! sg_base sg = Some (head_base rest).
Proof.
  intros R. pose proof (rep_links _ _ _ R) as Hl.
  apply links_app in Hl as (mid&(_&_&next&Hn&Hl)&_). by rewrite Hn, (links_head _ _ _ Hl).
Qed.

Section SweepSegments.
Context {E : Type} `{!Provider E} {granule : Z} `{!ProviderLaws E granule}.
Context {m1 : gmap Z Z}.

(** [pre] has been swept into [kept], [rest] is left. *)
Record swept (m : gmap Z Z) (first : Z) (kept pre rest : list Segment) : Prop := {
  ss_rep : rep m first (kept ++ rest);
  ss_rest : ∀ sg x, sg ∈ rest → body sg x → m !! x = m1 !! x;
  ss_done : ∀ a s, (a, s) ∈ blocks kept →
    (m !! (a + 8) = Some 1 ∧ (a, s) ∈ blocks pre ∧ black m1 a) ∨ m !! (a + 8) = Some 0;
  ss_kept : ∀ a s, (a, s) ∈ blocks pre → black m1 a → (a, s) ∈ blocks kept ∧ m !! (a + 8) = Some 1;
  ss_words : ∀ a s x, (a, s) ∈ blocks (pre ++ rest) → black m1 a → a + 16 ≤ x < a + s → m !! x = m1 !! x
}.

Lemma block_body sg a s x : segment_ok sg → (a, s) ∈ sg_blocks sg → a ≤ x < a + s → body sg x.
Proof. intros Hok Hb Hx. destruct (segment_block _ _ _ Hok Hb) as (?&?&_). unfold body. lia. Qed.

Lemma apart_body sg sg' x : apart sg sg' → body sg x → ¬ body sg' x.
Proof. unfold apart, body. lia. Qed.

Lemma swept_segment m m' first kept pre sg rest d :
  swept m first kept pre (sg :: rest) →
  sweeping (first := first) (m1 := m) (l1 := kept) (l2 := rest) (base := sg_base sg)
    (size := sg_size sg) (all := sg_blocks sg) m' (sg_blocks sg) d [] →
  swept m' first (kept ++ [MkSegment (sg_base sg) (sg_size sg) d]) (pre ++ [sg]) rest.
Proof.
  intros S W. pose proof (ss_rep _ _ _ _ _ S) as R. pose proof (rep_shape _ _ _ R) as Hs.
  assert (MkSegment (sg_base sg) (sg_size sg) (sg_blocks sg) = sg) as Heta by by destruct sg.
  assert (∀ o, o ∈ kept ∨ o ∈ rest → segment_ok o ∧ apart o sg) as Hother.
  { intros o Ho. split; [|by apply (shape_body kept sg rest)].
    apply (shape_segment _ _ Hs), elem_of_app. destruct Ho; [by left|right; apply elem_of_cons; by right]. }
  assert (∀ o x, o ∈ kept ∨ o ∈ rest → body o x → m' !! x = m !! x) as Hframe.
  { intros o x Ho Hb. apply (sw_words _ _ _ _ W). left. rewrite Heta.
    eapply apart_body; [|done]. by apply Hother. }
  assert (sg ∈ kept ++ sg :: rest) as Hsg by (apply elem_of_app; right; apply elem_of_cons; by left).
  pose proof (segment_in R sg Hsg) as Hok.
  assert (∀ a s, (a, s) ∈ sg_blocks sg → ∀ x, a ≤ x < a + s → m !! x = m1 !! x) as Hin.
  { intros a s Hb x Hx. apply (ss_rest _ _ _ _ _ S sg); [apply elem_of_cons; by left|].
    by eapply block_body. }
  assert (∀ a s, (a, s) ∈ sg_blocks sg → black m a ↔ black m1 a) as Hblack.
  { intros a s Hb. destruct (segment_block _ _ _ Hok Hb) as (_&_&?&_). unfold black.
    by rewrite (Hin a s Hb) by lia. }
  assert (∀ a s, (a, s) ∈ blocks kept → m' !! (a + 8) = m !! (a + 8)) as Hkeptflag.
  { intros a s (o&Ho&Hb)%blocks_in. destruct (Hother o) as [Hoo _]; [by left|].
    destruct (segment_block _ _ _ Hoo Hb) as (_&_&?&_).
    apply (Hframe o); [by left|]. eapply block_body; [done..|lia]. }
  assert (∀ a s, (a, s) ∈ sg_blocks (MkSegment (sg_base sg) (sg_size sg) d) ↔ (a, s) ∈ d) as Hd by done.
  split.
  - rewrite <- app_assoc. pose proof (sw_rep _ _ _ _ W) as R'. by rewrite app_nil_r in R'.
  - intros o x Ho Hb. rewrite (Hframe o) by auto. apply (ss_rest _ _ _ _ _ S o); [|done].
    apply elem_of_cons. by right.
  - intros a s. rewrite !blocks_app, blocks_cons, app_nil_r. rewrite !elem_of_app.
    intros [Hb|Hb].
    + rewrite (Hkeptflag a s Hb). destruct (ss_done _ _ _ _ _ S a s Hb); [left|right]; tauto.
    + destruct (sw_done _ _ _ _ W a s Hb) as [(?&Hb'&Hbl)|?]; [left|by right].
      split_and!; [done| |by apply (Hblack a s)]. right. by rewrite blocks_cons, app_nil_r.
  - intros a s. rewrite !blocks_app, !blocks_cons, !app_nil_r. rewrite !elem_of_app.
    intros [Hb|Hb] Hbl.
    + destruct (ss_kept _ _ _ _ _ S a s Hb Hbl) as [Hk ?]. rewrite (Hkeptflag a s Hk). tauto.
    + apply (Hblack a s Hb) in Hbl. destruct (sw_kept _ _ _ _ W a s Hb Hbl). tauto.
  - intros a s x. rewrite blocks_app, blocks_app, blocks_cons, app_nil_r, !elem_of_app.
    intros Hb Hbl Hx. assert (m !! x = m1 !! x) as <-.
    { apply (ss_words _ _ _ _ _ S a s); [|done..]. rewrite blocks_app, blocks_cons, !elem_of_app. tauto. }
    destruct Hb as [[Hb|Hb]|Hb].
    + destruct (ss_kept _ _ _ _ _ S a s Hb Hbl) as [(o&Ho&Hob)%blocks_in _].
      apply (Hframe o); [by left|]. eapply block_body; [by apply Hother; left|done|lia].
    + apply (sw_words _ _ _ _ W). right. exists a, s. split_and!; [done|by apply (Hblack a s)|lia..].
    + apply blocks_in in Hb as (o&Ho&Hob). apply (Hframe o); [by right|].
      eapply block_body; [by apply Hother; right|done|lia].
Qed.

(** A segment without live blocks goes. *)
Lemma swept_release m first kept pre sg rest next :
  swept m first (kept ++ [sg]) pre rest → m !! sg_base sg = Some next →
  (∀ a s, (a, s) ∈ sg_blocks sg → m !! (a + 8) = Some 0) →
  swept (releaseWords (sg_base sg) (sg_size sg) (relink kept next m)) (first_after first next kept)
    kept pre rest.
Proof.
  intros S Hn Hfree. pose proof (ss_rep _ _ _ _ _ S) as R. rewrite <- app_assoc in R. cbn [app] in R.
  destruct (rep_release _ _ _ _ _ _ R Hn) as [R' Hbody].
  assert (∀ o a s x, o ∈ kept ++ rest → (a, s) ∈ sg_blocks o → a ≤ x < a + s →
    releaseWords (sg_base sg) (sg_size sg) (relink kept next m) !! x = m !! x) as Hblock.
  { intros o a s x Ho Hb Hx. apply (Hbody o); [done|].
    eapply block_body; [by apply (segment_in R')|done..]. }
  assert (∀ a s, (a, s) ∈ blocks kept → 32 ≤ s ∧
    releaseWords (sg_base sg) (sg_size sg) (relink kept next m) !! (a + 8) = m !! (a + 8)) as Hflag.
  { intros a s (o&Ho&Hb)%blocks_in. assert (o ∈ kept ++ rest) as Ho' by (apply elem_of_app; by left).
    destruct (segment_block _ _ _ (segment_in R' o Ho') Hb) as (_&_&?&_). split; [done|].
    apply (Hblock o a s); [done..|lia]. }
  assert (∀ a s, (a, s) ∈ blocks pre → black m1 a → (a, s) ∈ blocks kept) as Hk.
  { intros a s Hb Hbl. destruct (ss_kept _ _ _ _ _ S a s Hb Hbl) as [Hk H1].
    rewrite blocks_app, blocks_cons, app_nil_r in Hk. apply elem_of_app in Hk as [Hk|Hk]; [done|].
    rewrite (Hfree a s Hk) in H1. done. }
  split.
  - done.
  - intros o x Ho Hb. rewrite (Hbody o); [by apply (ss_rest _ _ _ _ _ S o)|apply elem_of_app; by right|done].
  - intros a s Hb. destruct (Hflag a s Hb) as [_ ->]. apply (ss_done _ _ _ _ _ S).
    rewrite blocks_app. apply elem_of_app. by left.
  - intros a s Hb Hbl. pose proof (Hk a s Hb Hbl) as Hkb. split; [done|].
    destruct (Hflag a s Hkb) as [_ ->]. by apply (ss_kept _ _ _ _ _ S a s).
  - intros a s x Hb Hbl Hx. rewrite <- (ss_words _ _ _ _ _ S a s x Hb Hbl Hx).
    rewrite blocks_app in Hb. apply elem_of_app in Hb as [Hb|Hb].
    + apply (Hk _ _ Hb), blocks_in in Hbl as (o&Ho&Hob).
      apply (Hblock o a s); [apply elem_of_app; by left|done|lia].
    + apply blocks_in in Hb as (o&Ho&Hob). apply (Hblock o a s); [apply elem_of_app; by right|done|lia].
Qed.
End SweepSegments.

(** The fields a collection changes. *)
Definition reshaped (h : Heap) (first reserved : Z) : Heap :=
  MkHeap (h_memory h) first (h_limit h) reserved (h_granule h) (h_nextSize h) (h_busy h).

(** Every segment of the list has an allocated block. *)
Definition all_live (m : gmap Z Z) (shape : list Segment) : Prop :=
  ∀ sg, sg ∈ shape → ∃ a s, (a, s) ∈ sg_blocks sg ∧ m !! (a + 8) = Some 1.

(** What is charged besides the segments, and the effective limit. *)
Record Budget := MkBudget { bg_fixed : Z; bg_limit : Z }.

Section Reclaim.
Context {E : Type} `{!Provider E} {granule : Z} `{!ProviderLaws E granule}.

(** The accounts: what the provider holds, what is charged for it, and the limit. *)
Definition accounted (b : Budget) (h : Heap) (e : E) (shape : list Segment) : Prop :=
  held e ≡ₚ pairs shape ∧ h_reserved h = bg_fixed b + total shape ∧ 0 ≤ bg_fixed b ∧
  bg_fixed b + total shape < 2 ^ 64 ∧ h_limit h = bg_limit b.

Lemma last_base_pos kept rest :
  shape_ok (kept ++ rest) → (last_base kept =? 0) = match kept with [] => true | _ => false end.
Proof.
  intros Hs. destruct kept as [|k kept'] using rev_ind; [done|]. clear IHkept'.
  rewrite last_base_snoc. assert (0 < sg_base k) as H0.
  { assert (k ∈ (kept' ++ [k]) ++ rest) as Hk.
    { apply elem_of_app. left. apply elem_of_app. right. by apply list_elem_of_singleton. }
    by destruct (shape_segment _ _ Hs Hk) as (?&_). }
  rewrite (proj2 (Z.eqb_neq _ _)) by lia. by destruct kept'.
Qed.

(** The next segment is linked in place of one that is dropped. *)
Lemma relink_wp h m (e : E) kept sg rest next (Q : unit → HeapState E → Prop) :
  rep m (h_first h) (kept ++ sg :: rest) →
  Q tt (HS (reshaped h (first_after (h_first h) next kept) (h_reserved h)) (relink kept next m) e) →
  wp False (if last_base kept =? 0 then setFirst next else storeWord (last_base kept) next) Q (HS h m e).
Proof.
  intros R Hq. rewrite (last_base_pos _ _ (rep_shape _ _ _ R)).
  destruct kept as [|k kept'] using rev_ind; [by apply wp_modify|]. clear IHkept'.
  assert (is_Some (m !! last_base (kept' ++ [k]))) as Hk.
  { rewrite last_base_snoc. apply (rep_dom _ _ _ R). exists k.
    assert (k ∈ (kept' ++ [k]) ++ sg :: rest) as Hin.
    { apply elem_of_app. left. apply elem_of_app. right. by apply list_elem_of_singleton. }
    split; [done|]. destruct (segment_in R k Hin) as (?&?&?&?&?&_). split; [lia|by apply divide_8_16]. }
  assert (Q tt (HS h (<[last_base (kept' ++ [k]) := next]> m) e)) as Hq'.
  { replace h with (reshaped h (first_after (h_first h) next (kept' ++ [k])) (h_reserved h)) at 1.
    - by destruct kept'.
    - destruct h. by destruct kept'. }
  by destruct kept'; apply wp_store.
Qed.

Lemma relink_size m first kept sg rest next :
  rep m first (kept ++ sg :: rest) → relink kept next m !! (sg_base sg + 8) = m !! (sg_base sg + 8).
Proof.
  intros R. destruct kept as [|k kept'] using rev_ind; [done|]. clear IHkept'.
  assert (k ∈ (kept' ++ [k]) ++ sg :: rest) as Hin.
  { apply elem_of_app. left. apply elem_of_app. right. by apply list_elem_of_singleton. }
  pose proof (segment_in R k Hin) as (_&_&_&_&?&_).
  assert (sg ∈ (kept' ++ [k]) ++ sg :: rest) as Hsg.
  { apply elem_of_app. right. apply elem_of_cons. by left. }
  pose proof (segment_in R sg Hsg) as (_&_&_&_&?&_).
  assert (apart k sg) as Hap.
  { apply (shape_body _ _ _ k (rep_shape _ _ _ R)). left. apply elem_of_app. right.
    by apply list_elem_of_singleton. }
  assert ((<[last_base (kept' ++ [k]) := next]> m) !! (sg_base sg + 8) = m !! (sg_base sg + 8)) as H1.
  { rewrite last_base_snoc, lookup_insert_ne; [done|]. unfold apart in Hap. lia. }
  by destruct kept'.
Qed.

Lemma pairs_app l1 l2 : pairs (l1 ++ l2) = pairs l1 ++ pairs l2.
Proof. apply fmap_app. Qed.

(** What is left of a sweep. *)
Definition reclaimed (budget : Budget) (m1 : gmap Z Z) (all : list Segment) (h : Heap) (st : HeapState E) : Prop :=
  ∃ m' e' kept first' reserved, st = HS (reshaped h first' reserved) m' e' ∧
    swept (m1 := m1) m' first' kept all [] ∧ all_live m' kept ∧ reserved ≤ h_reserved h ∧
    accounted budget (reshaped h first' reserved) e' kept.

Lemma sweepSegments_wp budget m1 all h m (e : E) kept pre rest fuel :
  (∀ a s, (a, s) ∈ blocks all → m1 !! (a + 8) = Some 0 ∨ m1 !! (a + 8) = Some 1 ∨ black m1 a) →
  all = pre ++ rest → swept (m1 := m1) m (h_first h) kept pre rest → all_live m kept →
  accounted budget h e (kept ++ rest) → (length rest < fuel)%nat →
  wp False (sweepSegments fuel (last_base kept) (head_base rest))
    (λ _ st, reclaimed budget m1 all h st) (HS h m e).
Proof.
  intros Hflags. revert h m e kept pre rest.
  induction fuel as [|fuel IH]; intros h m e kept pre rest Hall S Hlive Hacc Hf; [lia|].
  pose proof (ss_rep _ _ _ _ _ S) as R. cbn [sweepSegments]. destruct rest as [|sg rest].
  { rewrite app_nil_r in *. apply wp_ret. subst all.
    exists m, e, kept, (h_first h), (h_reserved h). split_and!; try done. by destruct h. }
  assert (sg ∈ kept ++ sg :: rest) as Hsg by (apply elem_of_app; right; apply elem_of_cons; by left).
  pose proof (segment_in R sg Hsg) as Hok. pose proof Hok as (H0&_&_&_&H16&_).
  assert (MkSegment (sg_base sg) (sg_size sg) (sg_blocks sg) = sg) as Heta by by destruct sg.
  cbn [head_base]. rewrite (proj2 (Z.eqb_neq _ _)) by lia.
  apply wp_bind, wp_get, wp_bind. eapply wp_conseq.
  { apply (sweepBlocks_wp (first := h_first h) (m1 := m) (l1 := kept) (l2 := rest) (base := sg_base sg)
      (size := sg_size sg) (all := sg_blocks sg) h m e [] [] (sg_blocks sg)).
    - intros a s Hb. destruct (segment_block _ _ _ Hok Hb) as (_&_&?&_). unfold black.
      rewrite (ss_rest _ _ _ _ _ S sg); [|apply elem_of_cons; by left|eapply block_body; [done..|lia]].
      apply (Hflags a s). rewrite Hall, blocks_app. apply elem_of_app. right. apply elem_of_app. by left.
    - split; cbn [app]; rewrite ?Heta; try done; by intros a s ?%not_elem_of_nil.
    - cbn [app]. rewrite Heta. by apply suffix_start; [apply R|].
    - by left.
    - split; [done|]. by intros (a&s&?%not_elem_of_nil&_).
    - unfold memFuel. cbn [hs_mem]. by apply (fuel_blocks R). }
  intros alive st (m'&d&->&W&Halive). pose proof (swept_segment _ _ _ _ _ _ _ _ S W) as S'.
  set (sg' := MkSegment (sg_base sg) (sg_size sg) d) in *.
  assert (pairs (kept ++ sg' :: rest) = pairs (kept ++ sg :: rest)) as Hpairs by by rewrite !pairs_app.
  assert (total (kept ++ sg' :: rest) = total (kept ++ sg :: rest)) as Htotal by by rewrite !total_app.
  pose proof (ss_rep _ _ _ _ _ S') as R'. rewrite <- app_assoc in R'. cbn [app] in R'.
  assert (m' !! sg_base sg = Some (head_base rest)) as Hnext by apply (rep_next _ _ _ sg' _ R').
  assert (∀ o, o ∈ kept → ∀ a s, (a, s) ∈ sg_blocks o → m' !! (a + 8) = m !! (a + 8)) as Hkeptflag.
  { intros o Ho a s Hb. assert (segment_ok o) as Hoo by (apply (segment_in R), elem_of_app; by left).
    destruct (segment_block _ _ _ Hoo Hb) as (_&_&?&_).
    apply (sw_words _ _ _ _ W). left. rewrite Heta. apply (apart_body o).
    - apply (shape_body kept sg rest); [apply R|by left].
    - eapply block_body; [done..|lia]. }
  assert (∀ o, o ∈ kept → ∃ a s, (a, s) ∈ sg_blocks o ∧ m' !! (a + 8) = Some 1) as Hlive'.
  { intros o Ho. destruct (Hlive o Ho) as (a&s&Hb&Hf1). exists a, s. split; [done|]. by rewrite (Hkeptflag o Ho a s Hb). }
  apply wp_bind. eapply wp_load; [done|]. destruct alive; cbn [negb].
  - assert (sg_base sg = last_base (kept ++ [sg'])) as -> by (by rewrite last_base_snoc).
    eapply (IH h m' e (kept ++ [sg']) (pre ++ [sg]) rest);
      [by rewrite <- app_assoc|done| | |simpl in Hf; lia].
    + intros o [Ho|Ho%list_elem_of_singleton]%elem_of_app; [by apply Hlive'|]. subst o.
      destruct Halive as [Hany _]. destruct (Hany eq_refl) as (a&s&Hb&Hbl). exists a, s.
      by apply (sw_kept _ _ _ _ W a s).
    + rewrite <- app_assoc. cbn [app]. unfold accounted. by rewrite Hpairs, Htotal.
  - assert (∀ a s, (a, s) ∈ sg_blocks sg' → m' !! (a + 8) = Some 0) as Hfree.
    { intros a s Hb. destruct (sw_done _ _ _ _ W a s Hb) as [(_&Hb'&Hbl)|?]; [|done].
      destruct Halive as [_ Hno]. discriminate Hno. by exists a, s. }
    pose proof (swept_release _ _ _ _ _ _ _ S' Hnext Hfree) as S2.
    assert (∀ a s, (a, s) ∈ blocks kept → releaseWords (sg_base sg') (sg_size sg')
      (relink kept (head_base rest) m') !! (a + 8) = m' !! (a + 8)) as Hrel.
    { intros a s (o&Ho&Hb)%blocks_in. destruct (rep_release _ _ _ _ _ _ R' Hnext) as [R2 Hbody].
      assert (o ∈ kept ++ rest) as Ho' by (apply elem_of_app; by left).
      destruct (segment_block _ _ _ (segment_in R2 o Ho') Hb) as (_&_&?&_).
      apply (Hbody o); [done|]. eapply block_body; [by apply (segment_in R2)|done|lia]. }
    apply wp_bind. eapply relink_wp; [exact R'|].
    apply wp_bind. eapply wp_load.
    { rewrite (relink_size _ _ _ sg' _ _ R' : relink kept (head_base rest) m' !! (sg_base sg + 8) = _).
      pose proof (rep_links _ _ _ R') as Hl. apply links_app in Hl as (mid&(_&Hsize&_)&_). exact Hsize. }
    apply wp_bind, wp_bind, wp_modify, wp_modify, wp_bind, wp_get, wp_bind, wp_modify.
    cbn [hs_heap hs_mem hs_env].
    destruct Hacc as (Hheld&Hres&Hk0&Hlt&Hbl).
    assert (total (kept ++ sg :: rest) = total (kept ++ rest) + sg_size sg) as Htot.
    { rewrite !total_app. cbn [total foldr]. fold (total rest). lia. }
    pose proof (total_nonneg _ (rep_shape _ _ _ (ss_rep _ _ _ _ _ S2))) as Hnn.
    eapply wp_conseq; [eapply (IH _ _ _ kept (pre ++ [sg]) rest); [by rewrite <- app_assoc| | | |simpl in Hf; lia]|].
    + exact S2.
    + intros o Ho. destruct (Hlive' o Ho) as (a&s&Hb&Hf1). exists a, s. split; [done|].
      etransitivity; [apply (Hrel a s)|done]. apply blocks_in. by exists o.
    + split_and!; try done.
      * apply Release_ok. rewrite Hheld, !pairs_app. cbn. by rewrite Permutation_middle.
      * cbn [h_reserved reshaped sg_size sg']. rewrite Hres, Htot. rewrite u64_small; [lia|].
        unfold u64_ok. lia.
      * lia.
    + intros _ st (m2&e2&kept2&first2&res2&->&S3&Hl3&Hle3&Hacc3).
      exists m2, e2, kept2, first2, res2. split_and!; try done. cbn [h_reserved reshaped sg_size sg'] in Hle3.
      rewrite Hres, Htot, u64_small in Hle3 by (unfold u64_ok; lia). lia.
Qed.
End Reclaim.

Section HeapSpec.
Context {E : Type} `{!Provider E} {granule : Z} `{!ProviderLaws E granule}.

Definition granule_ok : Prop := ∃ k, 6 ≤ k < 64 ∧ granule = 2 ^ k.

(** A heap between two calls: [budget] is what it may use. *)
Record heap_ok (budget : Budget) (st : HeapState E) (shape : list Segment) : Prop := {
  ok_rep : rep (hs_mem st) (h_first (hs_heap st)) shape;
  ok_idle : idle (hs_mem st) shape;
  ok_memory : h_memory (hs_heap st) = true;
  ok_busy : h_busy (hs_heap st) = false;
  ok_accounts : accounted budget (hs_heap st) (hs_env st) shape;
  ok_limit : h_reserved (hs_heap st) ≤ h_limit (hs_heap st) < 2 ^ 64;
  ok_granule : h_granule (hs_heap st) = granule ∧ granule_ok;
  ok_next : (granule | h_nextSize (hs_heap st)) ∧ 0 < h_nextSize (hs_heap st) < 2 ^ 64
}.

(** What a complete collection does: the reachable blocks stay, with their payloads,
    the others and the segments without blocks go. *)
Record collected (m m' : gmap Z Z) (shape shape' : list Segment) (roots : list Z) : Prop := {
  co_live : ∀ a s, live m' shape' a s ↔ live m shape a s ∧ reach m shape roots a;
  co_words : ∀ a s x, live m' shape' a s → a + 16 ≤ x < a + s → m' !! x = m !! x;
  co_segments : all_live m' shape'
}.

(** Only the list of segments and the account change. *)
Definition same_config (h h' : Heap) : Prop :=
  h_memory h' = h_memory h ∧ h_limit h' = h_limit h ∧ h_granule h' = h_granule h ∧
  h_nextSize h' = h_nextSize h ∧ h_busy h' = h_busy h.

(** The collection, for both answers of the root enumerator: refused, it changes
    nothing. *)
Definition collection (budget : Budget) (st : HeapState E) (shape : list Segment) (complete : bool)
    (st' : HeapState E) (shape' : list Segment) : Prop :=
  let '(pointers, answer, e') := MarkRoots (hs_mem st) (hs_env st) in
  complete = answer ∧ heap_ok budget st' shape' ∧
  if answer then same_config (hs_heap st) (hs_heap st') ∧
    collected (hs_mem st) (hs_mem st') shape shape' pointers
  else st' = HS (hs_heap st) (hs_mem st) e' ∧ shape' = shape.

Lemma swept_start m first shape : rep m first shape → swept (m1 := m) m first [] [] shape.
Proof.
  intros R. split; try done; by intros a s ?%not_elem_of_nil.
Qed.

Lemma swept_collected m0 mt m' first first' shape kept roots :
  rep m0 first shape → idle m0 shape →
  tracing (first := first) (shape := shape) (m0 := m0) (roots := roots) mt →
  (∀ a s, (a, s) ∈ blocks shape → black mt a ↔ reach m0 shape roots a) →
  swept (m1 := mt) m' first' kept shape [] → all_live m' kept →
  rep m' first' kept ∧ idle m' kept ∧ collected m0 m' shape kept roots.
Proof.
  intros R0 I0 T Hreach S Hlive. pose proof (ss_rep _ _ _ _ _ S) as R. rewrite app_nil_r in R.
  assert (∀ a s, (a, s) ∈ blocks shape → reach m0 shape roots a → m0 !! (a + 8) = Some 1) as Hl.
  { intros a s Hb Hr. apply (Hreach a s Hb) in Hr. unfold black in Hr.
    destruct (tr_flags _ T a s Hb) as [[_ ?]|[? _]]; [congruence|done]. }
  assert (∀ a s, live m' kept a s ↔ live m0 shape a s ∧ reach m0 shape roots a) as Hlv.
  { intros a s. split.
    - intros [Hb H1]. destruct (ss_done _ _ _ _ _ S a s Hb) as [(_&Hb'&Hbl)|H0]; [|congruence].
      apply (Hreach a s Hb') in Hbl. split; [split; [done|by apply (Hl a s)]|done].
    - intros [[Hb _] Hr]. by apply (ss_kept _ _ _ _ _ S a s), (Hreach a s). }
  split_and!; [done| |split; [done| |done]].
  - intros a s Hb. destruct (ss_done _ _ _ _ _ S a s Hb) as [(?&_)|?]; tauto.
  - intros a s x Hlx Hx. apply Hlv in Hlx as [[Hb _] Hr].
    assert (black mt a) as Hbl by by apply (Hreach a s).
    rewrite (ss_words _ _ _ _ _ S a s x); [|by rewrite app_nil_r|done..].
    replace x with (a + (x - a)) by lia. apply (payload_same (roots := roots) R0 mt a s); [done|done|lia].
Qed.

(** [Collect] ends, touches only its storage, and does what it says. *)
Lemma Collect_wp budget st shape :
  heap_ok budget st shape →
  wp False Collect (λ complete st', ∃ shape', collection budget st shape complete st' shape') st.
Proof.
  destruct st as [h m e]. intros [R I Hm Hb Hacc Hlim Hg Hn]. cbn [hs_heap hs_mem hs_env] in *.
  unfold collection. cbn [hs_heap hs_mem hs_env].
  destruct (MarkRoots m e) as [[ps complete] e1] eqn:Hroots.
  apply wp_bind, wp_get. cbn [hs_heap]. rewrite Hm, Hb. cbn [negb orb].
  apply wp_bind, wp_modify. cbn [hs_heap hs_mem hs_env].
  set (hb := MkHeap true (h_first h) (h_limit h) (h_reserved h) (h_granule h) (h_nextSize h) true).
  assert (MkHeap (h_memory h) (h_first h) (h_limit h) (h_reserved h) (h_granule h) (h_nextSize h) true = hb)
    as -> by by rewrite Hm.
  destruct (tracing_start (first := h_first h) (roots := ps) R I) as [T0 D0].
  apply wp_bind, wp_bind, wp_get. cbn [hs_mem hs_env]. rewrite Hroots.
  apply wp_bind, wp_modify. cbn [hs_heap hs_mem hs_env]. apply wp_bind. eapply wp_conseq.
  { apply (markPointers_wp (roots := ps) R hb m e1 ps); try done. }
  intros _ st (m1&->&T1&_&D1&Hcov). apply wp_ret.
  assert (MkHeap (h_memory hb) (h_first hb) (h_limit hb) (h_reserved hb) (h_granule hb)
    (h_nextSize hb) false = h) as Hback by (unfold hb; destruct h; by simplify_eq/=).
  destruct complete; cbn [negb andb].
  2:{ apply wp_bind. eapply wp_conseq; [by apply (clearMarks_wp (roots := ps) R hb m1 e1)|].
      intros _ st ->. apply wp_bind, wp_modify, wp_ret. exists shape. cbn [hs_heap hs_mem hs_env].
      rewrite Hback. split_and!; [done| |done..]. split; try done.
      destruct Hacc as (Hheld&?). split; [|done]. cbn [hs_env]. rewrite <- Hheld. by eapply MarkRoots_ok. }
  apply wp_bind, wp_get, wp_bind. eapply wp_conseq.
  { apply (trace_wp (roots := ps) R hb m1 e1); try done. unfold memFuel. cbn [hs_mem].
    assert (length (blocks shape) ≤ size m1)%nat; [|lia].
    rewrite <- (length_fmap fst). apply distinct_size; [apply blocks_NoDup, R|].
    intros a ([a' s]&->&Hin)%list_elem_of_fmap. cbn. by rewrite (rep_spans _ _ _ (tr_rep _ T1) _ _ Hin). }
  intros _ st (m2&->&T2&Ha2&D2&Hno). apply wp_bind, wp_get.
  assert (∀ a s, (a, s) ∈ blocks shape → black m2 a ↔ reach m shape ps a) as Hreach.
  { apply (traced_reach (first := h_first h) m2); [done..| |done]. intros p Hp. eapply covered_above; [done|by apply Hcov]. }
  apply wp_bind. cbn [hs_heap]. eapply wp_conseq.
  { pose proof (tr_rep _ T2) as R2.
    change (h_first hb) with (h_first h). rewrite (links_head _ _ _ (rep_links _ _ _ R2)).
    apply (sweepSegments_wp budget m2 shape hb m2 e1 [] [] shape); try done.
    - intros a s Hin. destruct (tr_flags _ T2 a s Hin) as [[_ ?]|[_ [?|[[H3|H7] _]]]];
        [by left|by right; left|by destruct (Hno a s Hin)|by right; right].
    - by apply swept_start.
    - by intros sg ?%not_elem_of_nil.
    - destruct Hacc as (Hheld&?). split; [|done]. cbn [app]. rewrite <- Hheld. by eapply MarkRoots_ok.
    - unfold memFuel. cbn [hs_mem]. apply (fuel_segments R2). }
  intros _ st (m3&e3&kept&first'&reserved&->&S&Hlive&Hle&Hacc3).
  apply wp_bind, wp_modify, wp_ret. exists kept. cbn [hs_heap hs_mem hs_env].
  destruct (swept_collected m m2 m3 (h_first h) first' shape kept ps R I T2 Hreach S Hlive) as (R3&I3&Hcol).
  split_and!; [done| |by split_and!|done]. split; cbn; try done.
  cbn in Hle. lia.
Qed.
End HeapSpec.
