(* ===== verification/HeapAlloc.v ===== *)
(** Taking a free block: it is split when the rest can be a block, and its payload
    is zeroed.

    Allocation: free blocks, then a collection, then a new segment. *)

From stdpp Require Import gmap.
From S2P Require Import Prelude.
From S2P Require Import GoInt.
From S2P Require Import HeapModel.
From S2P Require Import HeapShape.
From S2P Require Import HeapTrace.
From S2P Require Import HeapSweep.
From S2P Require Import HeapCollect.

(** Changing plain words of one block. *)
Lemma rep_domain m first shape a s i :
  rep m first shape → (a, s) ∈ blocks shape → 0 ≤ i < s → (8 | i) → is_Some (m !! (a + i)).
Proof. intros R. by apply (block_word m first shape R). Qed.

(** One block becomes two. *)
Lemma rep_split m first l1 base size b1 a s b2 l2 span :
  rep m first (l1 ++ MkSegment base size (b1 ++ (a, s) :: b2) :: l2) →
  32 ≤ span → (16 | span) → 32 ≤ s - span →
  rep (<[a := span]> (<[a + span + 8 := 0]> (<[a + span := s - span]> m))) first
    (l1 ++ MkSegment base size (b1 ++ (a, span) :: (a + span, s - span) :: b2) :: l2).
Proof.
  intros R Hspan Hd Hrest. set (sg := MkSegment base size (b1 ++ (a, s) :: b2)) in *.
  assert (sg ∈ l1 ++ sg :: l2) as Hsg by (apply elem_of_app; right; apply elem_of_cons; by left).
  assert ((a, s) ∈ sg_blocks sg) as Hin by (apply elem_of_app; right; apply elem_of_cons; by left).
  assert ((a, s) ∈ blocks (l1 ++ sg :: l2)) as Hb by (apply blocks_in; by exists sg).
  pose proof (segment_in R sg Hsg) as Hok. destruct (segment_block _ _ _ Hok Hin) as (?&?&?&?&?&?).
  pose proof Hok as (?&_&_&?&_&Ht). cbn [sg_base sg_size sg_blocks sg] in *.
  apply tile_app in Ht as (mid&Ht1&Ht2). cbn [tile fst snd] in Ht2. destruct Ht2 as (<-&_&_&Ht2).
  assert (is_Some (m !! a)) as Hw0 by (replace a with (a + 0) by lia; eapply (rep_domain _ _ _ a s); [done..|lia|by exists 0]).
  assert (is_Some (m !! (a + span))) as Hw1 by (eapply (rep_domain _ _ _ a s); [done..|lia|by apply divide_8_16]).
  assert (is_Some (m !! (a + span + 8))) as Hw2.
  { rewrite <- Z.add_assoc. eapply (rep_domain _ _ _ a s); [done..|lia|].
    apply Z.divide_add_r; [by apply divide_8_16|by exists 1]. }
  set (m' := <[a := span]> _).
  assert (∀ x, x < a ∨ a + s ≤ x → m' !! x = m !! x) as Hout
    by (intros x Hx; unfold m'; by rewrite !lookup_insert_ne by lia).
  eapply (rep_reshape m m' first l1 base size _ _ l2 R).
  - apply tile_app. exists a. split; [done|]. cbn [tile fst snd].
    replace (a + span + (s - span)) with (a + s) by lia.
    split_and!; [done|done|done|done|done|by apply Z.divide_sub_r|done].
  - intros a' s' Hb'. assert ((a', s') = (a, span) ∨ (a', s') = (a + span, s - span) ∨
      ((a', s') ∈ sg_blocks sg ∧ (a' < a ∨ a + s ≤ a'))) as [[= -> ->]|[[= -> ->]|[Hin' Hpos]]].
    { apply elem_of_app in Hb' as [Hb'|[Hb'|[Hb'|Hb']%elem_of_cons]%elem_of_cons]; [|by left|by right; left|];
        right; right; (split; [cbn; apply elem_of_app|]).
      - by left.
      - left. destruct Hok as (_&?&_). destruct (tile_in _ _ _ _ _ Ht1 Hb') as (?&?&?&_); [|lia].
        apply Z.divide_add_r; [done|by exists 1].
      - right. apply elem_of_cons. by right.
      - right. destruct (tile_in _ _ _ _ _ Ht2 Hb') as (?&?&?&_); [|lia]. by apply Z.divide_add_r. }
    + unfold m'. by rewrite lookup_insert_eq.
    + unfold m'. rewrite !lookup_insert_ne by lia. by rewrite lookup_insert_eq.
    + rewrite Hout by done. apply (rep_spans _ _ _ R), blocks_in. by exists sg.
  - intros x Hx. apply Hout. unfold body in Hx. cbn in Hx. lia.
  - intros x. unfold m'. rewrite !lookup_insert_is_Some'. naive_solver.
  - intros x v. unfold m'. rewrite !lookup_insert_Some.
    assert (u64_ok span ∧ u64_ok 0 ∧ u64_ok (s - span)) as (?&?&?) by (unfold u64_ok; lia).
    intros [[_ <-]|[_ [[_ <-]|[_ [[_ <-]|[_ Hv]]]]]]; try done. by eapply (rep_values _ _ _ R).
Qed.

Section Take.
Context {E : Type} `{!Provider E}.

Lemma zeroPayload_wp h m (e : E) first shape a s i fuel :
  rep m first shape → (a, s) ∈ blocks shape → 16 ≤ i ≤ s → (8 | i) →
  (Z.to_nat ((s - i) `div` 8) < fuel)%nat →
  wp False (zeroPayload fuel a i)
    (λ _ st, ∃ m', st = HS h m' e ∧ rep m' first shape ∧
      (∀ x, x < a + i ∨ a + s ≤ x → m' !! x = m !! x) ∧
      ∀ j, i ≤ j < s → (8 | j) → m' !! (a + j) = Some 0) (HS h m e).
Proof.
  intros R Hb. revert m i R. induction fuel as [|fuel IH]; intros m i R Hi Hd Hf; [lia|].
  cbn [zeroPayload]. apply wp_bind. eapply wp_load; [by apply R|].
  destruct (Z.ltb_spec i s).
  2:{ apply wp_ret. exists m. split_and!; try done. intros j Hj. lia. }
  destruct (shape_block _ _ _ (rep_shape _ _ _ R) Hb) as (sg&Hsg&?&?&?&Hds&_).
  pose proof (segment_in R sg Hsg) as (?&_&_&?&_).
  assert (i + 8 ≤ s) as Hi8 by (destruct Hd as [k ->], Hds as [l ->]; lia).
  apply wp_bind, wp_store; [eapply rep_domain; [done..|lia|done]|].
  unfold wordSize. rewrite u64_small by (unfold u64_ok; lia).
  assert (rep (<[a + i := 0]> m) first shape) as R'.
  { apply rep_store; [done| |unfold u64_ok; lia|].
    - eapply rep_domain; [done..|lia|done].
    - apply (block_plain _ _ _ R a s); [done|lia]. }
  eapply wp_conseq; [apply (IH _ (i + 8)); [done|lia|by apply Z.divide_add_r; [|exists 1]|]|].
  - replace (s - i) with (s - (i + 8) + 1 * 8) in Hf by lia. rewrite Z.div_add in Hf by done.
    assert (0 ≤ (s - (i + 8)) `div` 8) by (apply Z.div_pos; lia). lia.
  - intros _ st (m'&->&R2&Hout&Hz). exists m'. split_and!; try done.
    + intros x Hx. rewrite Hout by lia. by rewrite lookup_insert_ne by lia.
    + intros j Hj Hdj. destruct (decide (j = i)) as [->|].
      * rewrite Hout by lia. by rewrite lookup_insert_eq.
      * apply Hz; [|done]. destruct Hd as [k ->], Hdj as [l ->]. lia.
Qed.

(** The span and the blocks that are left when [span] bytes are taken of a block. *)
Definition takenSpan (s span : Z) : Z := if 32 <=? s - span then span else s.
Definition takenBlocks (a s span : Z) : list (Z * Z) :=
  if 32 <=? s - span then [(a, span); (a + span, s - span)] else [(a, s)].

(** A free block has been taken: it is the only change. *)
Record taken (m m' : gmap Z Z) (first a s span : Z) (shape shape' : list Segment) : Prop := {
  tk_rep : rep m' first shape';
  tk_block : (a, s) ∈ blocks shape;
  tk_free : m !! (a + 8) = Some 0;
  tk_fits : span ≤ s;
  tk_flags : m' !! (a + 8) = Some 1;
  tk_zero : ∀ i, 16 ≤ i < takenSpan s span → (8 | i) → m' !! (a + i) = Some 0;
  tk_rest : 32 ≤ s - span → m' !! (a + span + 8) = Some 0;
  tk_out : ∀ x, x < a ∨ a + s ≤ x → m' !! x = m !! x;
  tk_blocks : ∀ b, b ∈ blocks shape' ↔ b ∈ takenBlocks a s span ∨ (b ∈ blocks shape ∧ b ≠ (a, s));
  tk_pairs : (λ sg, (sg_base sg, sg_size sg)) <$> shape' = (λ sg, (sg_base sg, sg_size sg)) <$> shape
}.

Lemma splitBlock_wp h m (e : E) first l1 base size b1 a s b2 l2 span :
  rep m first (l1 ++ MkSegment base size (b1 ++ (a, s) :: b2) :: l2) →
  32 ≤ span → (16 | span) → span ≤ s →
  wp False (splitBlock a s span)
    (λ _ st, ∃ m', st = HS h m' e ∧
      rep m' first (l1 ++ MkSegment base size (b1 ++ takenBlocks a s span ++ b2) :: l2) ∧
      (32 ≤ s - span → m' !! (a + span + 8) = Some 0) ∧
      ∀ x, x < a ∨ a + s ≤ x → m' !! x = m !! x) (HS h m e).
Proof.
  intros R Hspan Hd Hle. unfold splitBlock, blockSize, alignment, wordSize, takenBlocks.
  set (sg := MkSegment base size (b1 ++ (a, s) :: b2)) in *.
  assert (sg ∈ l1 ++ sg :: l2) as Hsg by (apply elem_of_app; right; apply elem_of_cons; by left).
  assert ((a, s) ∈ sg_blocks sg) as Hin by (apply elem_of_app; right; apply elem_of_cons; by left).
  assert ((a, s) ∈ blocks (l1 ++ sg :: l2)) as Hb by (apply blocks_in; by exists sg).
  pose proof (segment_in R sg Hsg) as Hok. destruct (segment_block _ _ _ Hok Hin) as (?&?&?&?&?&?).
  pose proof Hok as (?&_&_&?&_&_). rewrite u64_small by (unfold u64_ok; lia).
  change (16 + 2 * 8) with 32. destruct (Z.leb_spec 32 (s - span)).
  - apply wp_bind, wp_store; [eapply rep_domain; [done..|lia|by apply divide_8_16]|].
    apply wp_bind, wp_store.
    { apply lookup_insert_is_Some'. right. rewrite <- Z.add_assoc. eapply rep_domain; [done..|lia|].
      apply Z.divide_add_r; [by apply divide_8_16|by exists 1]. }
    apply wp_store.
    { rewrite !lookup_insert_is_Some'. right. right. rewrite (rep_spans _ _ _ R _ _ Hb). done. }
    eexists. split; [done|]. split; [by apply rep_split|]. split.
    + intros _. rewrite lookup_insert_ne by lia. by rewrite lookup_insert_eq.
    + intros x Hx. by rewrite !lookup_insert_ne by lia.
  - apply wp_ret. exists m. split_and!; try done. lia.
Qed.
(** A block, with the blocks and segments around it. *)
Lemma block_around shape a s :
  (a, s) ∈ blocks shape →
  ∃ l1 base size b1 b2 l2, shape = l1 ++ MkSegment base size (b1 ++ (a, s) :: b2) :: l2.
Proof.
  intros (sg&Hsg&Hb)%blocks_in. apply list_elem_of_split in Hsg as (l1&l2&->).
  apply list_elem_of_split in Hb as (b1&b2&Hb). exists l1, (sg_base sg), (sg_size sg), b1, b2, l2.
  rewrite <- Hb. by destruct sg.
Qed.

Lemma around_blocks l1 base size b1 a s b2 l2 (mid : list (Z * Z)) :
  shape_ok (l1 ++ MkSegment base size (b1 ++ (a, s) :: b2) :: l2) → ∀ b,
  b ∈ blocks (l1 ++ MkSegment base size (b1 ++ mid ++ b2) :: l2) ↔
  b ∈ mid ∨ (b ∈ blocks (l1 ++ MkSegment base size (b1 ++ (a, s) :: b2) :: l2) ∧ b ≠ (a, s)).
Proof.
  intros Hs%blocks_NoDup b. rewrite !blocks_app, !blocks_cons in *. cbn [sg_blocks] in *.
  assert (NoDup ((blocks l1 ++ b1) ++ (a, s) :: (b2 ++ blocks l2))) as Hnd.
  { apply (NoDup_fmap_1 fst). rewrite <- !app_assoc in *. exact Hs. }
  apply NoDup_app in Hnd as (_&H1&[H2 _]%NoDup_cons).
  assert (b ≠ (a, s) ↔ b ≠ (a, s)) as _ by done.
  rewrite !elem_of_app, elem_of_cons. split.
  - intros [?|[[?|[?|?]]|?]]; [right|right|by left|right|right]; (split; [tauto|]); intros ->.
    + apply (H1 (a, s)); [apply elem_of_app; by left|apply elem_of_cons; by left].
    + apply (H1 (a, s)); [apply elem_of_app; by right|apply elem_of_cons; by left].
    + apply H2, elem_of_app. by left.
    + apply H2, elem_of_app. by right.
  - tauto.
Qed.

(** The block that is found. *)
Lemma found_wp h m (e : E) first shape a s span :
  rep m first shape → (a, s) ∈ blocks shape → m !! (a + 8) = Some 0 →
  32 ≤ span → (16 | span) → span ≤ s →
  wp False
    (_ ← splitBlock a s span;
     _ ← storeWord (a + 8) allocated;
     st ← get;
     _ ← zeroPayload (memFuel st) a blockSize;
     mret (Some (a + blockSize)))
    (λ r st, r = Some (a + 16) ∧ ∃ m' shape', st = HS h m' e ∧ taken m m' first a s span shape shape')
    (HS h m e).
Proof.
  intros R Hb Hfree Hspan Hd Hle. destruct (block_around _ _ _ Hb) as (l1&base&size&b1&b2&l2&Hsh).
  pose proof R as R0. rewrite Hsh in R. apply wp_bind. eapply wp_conseq; [by apply splitBlock_wp|].
  intros _ st (m1&->&R1&Hrest&Hout1). 
  set (shape' := l1 ++ MkSegment base size (b1 ++ takenBlocks a s span ++ b2) :: l2) in *.
  pose proof (around_blocks _ _ _ _ _ _ _ _ (takenBlocks a s span) (rep_shape _ _ _ R)) as Hblocks.
  fold shape' in Hblocks. rewrite <- Hsh in Hblocks.
  assert ((a, takenSpan s span) ∈ blocks shape') as Hb'.
  { apply Hblocks. left. unfold takenBlocks, takenSpan. destruct (32 <=? s - span); apply elem_of_cons; by left. }
  assert (32 ≤ takenSpan s span ≤ s) as Hts by (unfold takenSpan; destruct (Z.leb_spec 32 (s - span)); lia).
  apply wp_bind, wp_store; [eapply (rep_domain m1 first shape'); [done|exact Hb'|lia|by exists 1]|].
  set (m2 := <[a + 8 := allocated]> m1).
  assert (rep m2 first shape') as R2.
  { apply rep_store; [done| |done|].
    - eapply (rep_domain m1 first shape'); [done|exact Hb'|lia|by exists 1].
    - apply (block_plain _ _ _ R1 a _ 8 Hb'). lia. }
  apply wp_bind, wp_get, wp_bind. eapply wp_conseq.
  { apply (zeroPayload_wp h m2 e first shape' a (takenSpan s span) blockSize); [done..| |by exists 2|].
    - unfold blockSize. lia.
    - unfold memFuel. cbn [hs_mem]. apply (fuel_payload R2 a); [done|unfold blockSize; lia|by exists 2]. }
  intros _ st (m3&->&R3&Hout&Hz). unfold blockSize in *. apply wp_ret. split; [done|].
  exists m3, shape'. split; [done|]. split; try done.
  - rewrite Hout by lia. unfold m2. by rewrite lookup_insert_eq.
  - intros H. rewrite Hout.
    + unfold m2. rewrite lookup_insert_ne by lia. by apply Hrest.
    + right. unfold takenSpan in *. destruct (Z.leb_spec 32 (s - span)); lia.
  - intros x Hx. rewrite Hout by lia. unfold m2. rewrite lookup_insert_ne by lia. by apply Hout1.
  - rewrite Hsh. unfold shape'. by rewrite !fmap_app, !fmap_cons.
Qed.

(** The outcome of a search among the blocks [bs]. *)
Definition searched (bs : list (Z * Z)) (h : Heap) (m : gmap Z Z) (e : E) (shape : list Segment)
    (span pointer : Z) (st : HeapState E) : Prop :=
  ∃ a s m' shape', pointer = a + 16 ∧ (a, s) ∈ bs ∧ st = HS h m' e ∧
    taken m m' (h_first h) a s span shape shape'.

Definition no_fit (bs : list (Z * Z)) (m : gmap Z Z) (span : Z) : Prop :=
  ∀ a s, (a, s) ∈ bs → m !! (a + 8) = Some 0 → s < span.

Lemma takeBlocks_wp h m (e : E) shape sg offset bs span fuel :
  rep m (h_first h) shape → idle m shape → 32 ≤ span → (16 | span) →
  suffix_of shape sg offset bs → (length bs < fuel)%nat →
  wp False (takeBlocks fuel (sg_base sg) offset span)
    (λ r st, match r with
     | None => st = HS h m e ∧ no_fit bs m span
     | Some pointer => searched bs h m e shape span pointer st
     end) (HS h m e).
Proof.
  intros R I Hspan Hd. revert offset bs. induction fuel as [|fuel IH]; intros offset bs Hs Hf; [lia|].
  cbn [takeBlocks]. apply wp_bind. eapply load_size; [done|apply Hs|]. destruct bs as [|[a s] bs].
  { rewrite (suffix_nil _ _ _ Hs), Z.ltb_irrefl. apply wp_ret. split; [done|].
    by intros a s ?%not_elem_of_nil. }
  destruct (suffix_cons _ _ _ _ _ _ (rep_shape _ _ _ R) Hs) as (Hpos&Hb&Hlt&H32&Hu&Hle&H64&Hs').
  rewrite (proj2 (Z.ltb_lt _ _)) by done. cbv zeta. rewrite <- Hpos.
  destruct (block_flags _ _ _ R a s Hb) as [f Hfl].
  apply wp_bind. eapply wp_load; [done|]. apply wp_bind. eapply wp_load; [by apply R|].
  destruct ((f =? 0) && (span <=? s)) eqn:Hc.
  - apply andb_true_iff in Hc as [->%Z.eqb_eq Hle2%Z.leb_le].
    eapply wp_conseq; [by apply (found_wp h m e (h_first h) shape a s span)|].
    intros r st (->&m'&shape'&->&Ht). exists a, s, m', shape'. split_and!; try done.
    apply elem_of_cons. by left.
  - rewrite Hu. eapply wp_conseq; [apply IH; [done|simpl in Hf; lia]|].
    intros [p|] st; [intros (a'&s'&m'&shape'&->&Hin&->&?)|intros (->&Hno)].
    + exists a', s', m', shape'. split_and!; try done. apply elem_of_cons. by right.
    + split; [done|]. intros a' s' [Heq|Hin]%elem_of_cons; [|by apply Hno].
      simplify_eq. intros H0. simplify_eq. lia.
Qed.

Lemma takeSegments_wp h m (e : E) shape s sh span fuel :
  rep m (h_first h) shape → idle m shape → 32 ≤ span → (16 | span) →
  links m s sh → (∀ sg, sg ∈ sh → sg ∈ shape) → (length sh < fuel)%nat →
  wp False (takeSegments fuel s span)
    (λ p st, (p = 0 ∧ st = HS h m e ∧ no_fit (blocks sh) m span) ∨
      searched (blocks sh) h m e shape span p st) (HS h m e).
Proof.
  intros R I Hspan Hd. revert s sh. induction fuel as [|fuel IH]; intros s sh Hl Hin Hf; [lia|].
  cbn [takeSegments]. destruct sh as [|sg sh].
  { cbn in Hl. subst s. apply wp_ret. left. split_and!; [done..|]. by intros a s ?%not_elem_of_nil. }
  destruct Hl as (->&_&next&Hnext&Hl).
  assert (sg ∈ shape) as Hsg by (apply Hin, elem_of_cons; by left).
  pose proof (segment_in R sg Hsg) as (H0&_). rewrite (proj2 (Z.eqb_neq _ _)) by lia.
  apply wp_bind, wp_get, wp_bind. eapply wp_conseq.
  { apply (takeBlocks_wp h m e shape sg segmentSize (sg_blocks sg)); try done.
    - by apply suffix_start; [apply R|].
    - unfold memFuel. cbn [hs_mem]. by apply (fuel_blocks R). }
  intros [p|] st; [intros (a&s&m'&shape'&->&Hb&->&Ht)|intros (->&Hno)].
  - apply wp_ret. right. exists a, s, m', shape'. split_and!; try done. apply elem_of_app. by left.
  - apply wp_bind. eapply wp_load; [done|]. eapply wp_conseq.
    { apply (IH next sh); [done| |simpl in Hf; lia]. intros o Ho. apply Hin, elem_of_cons. by right. }
    intros p st [(->&->&Hno2)|(a&s&m'&shape'&->&Hb&->&Ht)].
    + left. split_and!; [done..|]. intros a s [Hb|Hb]%elem_of_app; [by apply Hno|by apply Hno2].
    + right. exists a, s, m', shape'. split_and!; try done. apply elem_of_app. by right.
Qed.

(** [take]: the first block that fits, or nothing. *)
Lemma take_wp h m (e : E) shape span :
  rep m (h_first h) shape → idle m shape → 32 ≤ span → (16 | span) →
  wp False (take span)
    (λ p st, (p = 0 ∧ st = HS h m e ∧ no_fit (blocks shape) m span) ∨
      searched (blocks shape) h m e shape span p st) (HS h m e).
Proof.
  intros R I Hspan Hd. apply wp_bind, wp_get. cbn [hs_heap].
  apply (takeSegments_wp h m e shape); try done; [apply R|]. apply (fuel_segments R).
Qed.
End Take.

(** * Rounding *)

Lemma roundDown_spec x k : 0 ≤ k < 64 → roundDown x (2 ^ k) = x `div` 2 ^ k * 2 ^ k.
Proof.
  intros Hk. unfold roundDown. assert (0 < 2 ^ k) by (apply Z.pow_pos_nonneg; lia).
  assert (2 ^ k < 2 ^ 64) by (apply Z.pow_lt_mono_r; lia).
  rewrite u64_small by (unfold u64_ok; lia).
  rewrite Z.sub_1_r, <- Z.ones_equiv, Z.ldiff_ones_r, Z.shiftl_mul_pow2, Z.shiftr_div_pow2; lia.
Qed.

Lemma roundDown_le x k : 0 ≤ k < 64 → 0 ≤ x → 0 ≤ roundDown x (2 ^ k) ≤ x ∧ (2 ^ k | roundDown x (2 ^ k)).
Proof.
  intros Hk Hx. rewrite roundDown_spec by done. assert (0 < 2 ^ k) by (apply Z.pow_pos_nonneg; lia).
  pose proof (Z.mul_div_le x (2 ^ k)). pose proof (Z.div_pos x (2 ^ k)).
  split; [nia|]. by exists (x `div` 2 ^ k).
Qed.

(** Rounding up by the code's expression. *)
Lemma roundUp_spec x k :
  0 ≤ k < 64 → 0 ≤ x → x + 2 ^ k < 2 ^ 64 →
  let r := roundDown (u64 (u64 (x + 2 ^ k) - 1)) (2 ^ k) in
  x ≤ r ≤ x + 2 ^ k - 1 ∧ (2 ^ k | r).
Proof.
  intros Hk Hx Hlt. cbv zeta. assert (0 < 2 ^ k) by (apply Z.pow_pos_nonneg; lia).
  rewrite (u64_small (x + _)), u64_small by (unfold u64_ok; lia).
  destruct (roundDown_le (x + 2 ^ k - 1) k) as [? Hd]; [done|lia|]. split; [|done].
  rewrite roundDown_spec in * by done.
  pose proof (Z.mod_pos_bound (x + 2 ^ k - 1) (2 ^ k)). pose proof (Z.div_mod (x + 2 ^ k - 1) (2 ^ k)). lia.
Qed.

(** The span that [Alloc] asks for. *)
Definition spanOf (size : Z) : Z :=
  let size := if size =? 0 then alignment else size in
  u64 (roundDown (u64 (u64 (size + alignment) - 1)) alignment + blockSize).

Lemma spanOf_spec size :
  0 ≤ size ≤ maxUintptr - 15 - 16 →
  size + 16 ≤ spanOf size ∧ 32 ≤ spanOf size < 2 ^ 64 ∧ (16 | spanOf size).
Proof.
  intros Hs. unfold spanOf, maxUintptr in *. change alignment with (2 ^ 4).
  set (n := if size =? 0 then 2 ^ 4 else size).
  assert (size ≤ n ∧ 0 < n ≤ 2 ^ 64 - 1 - 15 - 16) as [? ?] by (unfold n; destruct (Z.eqb_spec size 0); lia).
  destruct (roundUp_spec n 4) as [? [q Hq]]; [lia|lia|lia|]. unfold blockSize.
  rewrite u64_small by (unfold u64_ok; lia). rewrite Hq in *. split_and!; try lia.
  exists (q + 1). lia.
Qed.

Section Alloc.
Context {E : Type} `{!Provider E} {granule : Z} `{!ProviderLaws E granule}.

(** * A free block becomes live *)

(** The result of a successful allocation: the block is new, its payload is zero,
    the live blocks and their words are as before. *)
Record placed (m m' : gmap Z Z) (shape shape' : list Segment) (p span : Z) : Prop := {
  pl_aligned : (16 | p) ∧ 0 < p;
  pl_live : ∃ s, span ≤ s ∧
    (∀ a' s', live m' shape' a' s' ↔ (a' = p - 16 ∧ s' = s) ∨ live m shape a' s') ∧
    ∀ i, 16 ≤ i < s → (8 | i) → m' !! (p - 16 + i) = Some 0;
  pl_new : ∀ s, ¬ live m shape (p - 16) s;
  pl_words : ∀ a s x, live m shape a s → a ≤ x < a + s → m' !! x = m !! x
}.

Lemma placed_le m m' shape shape' p span span' :
  placed m m' shape shape' p span → span' ≤ span → placed m m' shape shape' p span'.
Proof.
  intros [H1 (s&Hs&Hl&Hz) H2 H3] Hle. split; try done. exists s. split_and!; [lia|done..].
Qed.

Lemma taken_outside m m' first a s span shape shape' :
  shape_ok shape → taken m m' first a s span shape shape' →
  ∀ a' s', (a', s') ∈ blocks shape → (a', s') ≠ (a, s) → ∀ x, a' ≤ x < a' + s' → m' !! x = m !! x.
Proof.
  intros Hs T a' s' Hb Hne x Hx. apply (tk_out _ _ _ _ _ _ _ _ T).
  destruct (blocks_apart shape a s a' s' Hs (tk_block _ _ _ _ _ _ _ _ T) Hb) as [[-> ->]|[|]]; [done|lia..].
Qed.

Lemma taken_live m m' first a s span shape shape' :
  shape_ok shape → 32 ≤ span → taken m m' first a s span shape shape' →
  ∀ a' s', live m' shape' a' s' ↔ (a' = a ∧ s' = takenSpan s span) ∨ live m shape a' s'.
Proof.
  intros Hs Hspan T a' s'. unfold live. rewrite (tk_blocks _ _ _ _ _ _ _ _ T (a', s')).
  unfold takenBlocks, takenSpan. pose proof (tk_flags _ _ _ _ _ _ _ _ T) as Hf.
  pose proof (tk_free _ _ _ _ _ _ _ _ T) as H0.
  assert (∀ a' s', (a', s') ∈ blocks shape → (a', s') ≠ (a, s) → m' !! (a' + 8) = m !! (a' + 8)) as Hout.
  { intros a1 s1 Hb Hne. destruct (shape_block _ _ _ Hs Hb) as (_&_&_&_&?&_).
    apply (taken_outside _ _ _ _ _ _ _ _ Hs T a1 s1); [done..|lia]. }
  assert (live m shape a' s' → (a', s') ≠ (a, s)) as Hne.
  { intros [_ H1] [= -> ->]. congruence. }
  split.
  - intros [[Hin|[Hb Hn]] H1].
    + destruct (Z.leb_spec 32 (s - span)).
      * apply elem_of_cons in Hin as [[= -> ->]|[= -> ->]%list_elem_of_singleton]; [by left|].
        pose proof (tk_rest _ _ _ _ _ _ _ _ T ltac:(lia)) as Hr. rewrite Hr in H1. done.
      * apply list_elem_of_singleton in Hin as [= -> ->]. by left.
    + right. split; [done|]. by rewrite <- (Hout a' s').
  - intros [[-> ->]|Hl].
    + split; [|done]. left. destruct (Z.leb_spec 32 (s - span)); apply elem_of_cons; by left.
    + pose proof (Hne Hl) as Hn. destruct Hl as [Hb H1]. split; [by right|]. by rewrite (Hout a' s').
Qed.

Lemma taken_idle m m' first a s span shape shape' :
  shape_ok shape → idle m shape → taken m m' first a s span shape shape' → idle m' shape'.
Proof.
  intros Hs I T a' s' Hb. apply (tk_blocks _ _ _ _ _ _ _ _ T) in Hb as [Hin|[Hb Hne]].
  - unfold takenBlocks in Hin. pose proof (tk_flags _ _ _ _ _ _ _ _ T) as Hf.
    destruct (Z.leb_spec 32 (s - span)).
    + apply elem_of_cons in Hin as [[= -> ->]|[= -> ->]%list_elem_of_singleton]; [by right|left].
      by apply (tk_rest _ _ _ _ _ _ _ _ T).
    + apply list_elem_of_singleton in Hin as [= -> ->]. by right.
  - destruct (shape_block _ _ _ Hs Hb) as (_&_&_&_&?&_).
    rewrite (taken_outside _ _ _ _ _ _ _ _ Hs T a' s' Hb Hne) by lia. by apply (I a' s').
Qed.

Lemma total_pairs s1 s2 : pairs s1 = pairs s2 → total s1 = total s2.
Proof.
  revert s2. induction s1 as [|sg s1 IH]; intros [|sg2 s2]; try done. intros [= _ Hsz Hp].
  cbn [total foldr]. fold (total s1) (total s2). rewrite Hsz. f_equal. by apply IH.
Qed.

Lemma taken_ok budget h m m' (e : E) a s span shape shape' :
  heap_ok (granule := granule) budget (HS h m e) shape → 32 ≤ span →
  taken m m' (h_first h) a s span shape shape' →
  heap_ok (granule := granule) budget (HS h m' e) shape' ∧ placed m m' shape shape' (a + 16) span.
Proof.
  intros [R I Hm Hb Hacc Hlim Hg Hn] Hspan T. cbn [hs_heap hs_mem hs_env] in *.
  pose proof (rep_shape _ _ _ R) as Hs. split.
  - split; cbn [hs_heap hs_mem hs_env]; try done.
    + by apply (tk_rep _ _ _ _ _ _ _ _ T).
    + by eapply taken_idle.
    + pose proof (tk_pairs _ _ _ _ _ _ _ _ T) as Hp. fold (pairs shape') (pairs shape) in Hp.
      unfold accounted in *. by rewrite Hp, (total_pairs _ _ Hp).
  - assert (a + 16 - 16 = a) as Ha by lia.
    destruct (shape_block _ _ _ Hs (tk_block _ _ _ _ _ _ _ _ T)) as (_&_&_&_&?&_&?&?).
    split; rewrite ?Ha.
    + split; [|lia]. apply Z.divide_add_r; [done|by exists 1].
    + exists (takenSpan s span). pose proof (tk_fits _ _ _ _ _ _ _ _ T). split_and!.
      * unfold takenSpan. destruct (32 <=? s - span); lia.
      * intros a' s'. rewrite ?Ha. by apply (taken_live _ _ _ _ _ _ _ _ Hs Hspan T).
      * intros i Hi Hd. rewrite ?Ha. by apply (tk_zero _ _ _ _ _ _ _ _ T).
    + intros s' [_ Hone]. rewrite (tk_free _ _ _ _ _ _ _ _ T) in Hone. done.
    + intros a' s' x [Hbl Hone] Hx. eapply taken_outside; [done..|exact Hbl| |done].
      intros [= -> ->]. rewrite (tk_free _ _ _ _ _ _ _ _ T) in Hone. done.
Qed.

(** [take] in a heap between two calls. *)
Lemma take_ok budget st shape span :
  heap_ok (granule := granule) budget st shape → 32 ≤ span → (16 | span) →
  wp False (take span)
    (λ p st', (p = 0 ∧ st' = st ∧ no_fit (blocks shape) (hs_mem st) span) ∨
      (p ≠ 0 ∧ ∃ shape', heap_ok (granule := granule) budget st' shape' ∧
        placed (hs_mem st) (hs_mem st') shape shape' p span)) st.
Proof.
  intros Hok Hspan Hd. destruct st as [h m e]. pose proof Hok as [R I _ _ _ _ _ _].
  cbn [hs_heap hs_mem hs_env] in *. eapply wp_conseq; [by apply take_wp|].
  intros p st [(->&->&Hno)|(a&s&m'&shape'&->&Hb&->&T)]; [by left|right].
  destruct (taken_ok _ _ _ _ _ _ _ _ _ _ Hok Hspan T) as [Hok' Hp].
  split; [|by exists shape']. destruct Hp as [[_ ?] _ _ _]. lia.
Qed.
End Alloc.
