(* ===== verification/HeapGrow.v ===== *)
(** A new segment, and [Alloc] as a whole. *)

From stdpp Require Import gmap.
From S2P Require Import Prelude.
From S2P Require Import GoInt.
From S2P Require Import HeapModel.
From S2P Require Import HeapShape.
From S2P Require Import HeapTrace.
From S2P Require Import HeapSweep.
From S2P Require Import HeapCollect.
From S2P Require Import HeapAlloc.

Lemma foldr_insert_lookup (m : gmap Z Z) l x :
  foldr (λ a, <[a := 0]>) m l !! x = if bool_decide (x ∈ l) then Some 0 else m !! x.
Proof.
  induction l as [|y l IH]; cbn [foldr].
  { rewrite bool_decide_eq_false_2; [done|]. apply not_elem_of_nil. }
  destruct (decide (x = y)) as [->|Hne].
  - rewrite lookup_insert_eq, bool_decide_eq_true_2; [done|]. apply elem_of_cons. by left.
  - rewrite lookup_insert_ne, IH by done. destruct (decide (x ∈ l)) as [H|H].
    + rewrite !bool_decide_eq_true_2; [done| |done]. apply elem_of_cons. by right.
    + rewrite !bool_decide_eq_false_2; [done| |done]. intros [?|?]%elem_of_cons; done.
Qed.

(** The words of a new segment. *)
Definition newWords (base size first : Z) (m : gmap Z Z) : gmap Z Z :=
  <[base + 16 + 8 := 0]> (<[base + 16 := size - 16]> (<[base + 8 := size]>
    (<[base := first]> (acquireWords base size m)))).
Definition newSegment (base size : Z) : Segment := MkSegment base size [(base + 16, size - 16)].

Section NewSegment.
Context {m : gmap Z Z} {first : Z} {shape : list Segment} {base size : Z}.
Hypothesis R : rep m first shape.
Hypothesis Hbase : 0 < base ∧ (16 | base) ∧ base + size ≤ 2 ^ 64.
Hypothesis Hsize : 48 ≤ size ∧ (16 | size).
Hypothesis Hapart : Forall (apart (newSegment base size)) shape.

Lemma new_ok : segment_ok (newSegment base size).
Proof.
  destruct Hbase as (?&?&?), Hsize as [? ?]. unfold segment_ok. cbn.
  split_and!; try done; try lia. by apply Z.divide_sub_r; [|exists 1].
Qed.

Lemma acquire_lookup x :
  acquireWords base size m !! x = Some 0 ∧ word_of (newSegment base size) x ∨
  acquireWords base size m !! x = m !! x ∧ ¬ word_of (newSegment base size) x.
Proof.
  unfold acquireWords. rewrite foldr_insert_lookup.
  pose proof (segment_words _ x new_ok) as Hw. cbn [newSegment sg_base sg_size] in Hw.
  destruct (decide (x ∈ segmentWords base size)) as [H|H].
  - rewrite bool_decide_eq_true_2 by done. left. split; [done|]. by apply Hw.
  - rewrite bool_decide_eq_false_2 by done. right. split; [done|]. by rewrite <- Hw.
Qed.

Lemma new_header_words :
  word_of (newSegment base size) base ∧ word_of (newSegment base size) (base + 8) ∧
  word_of (newSegment base size) (base + 16) ∧ word_of (newSegment base size) (base + 16 + 8).
Proof.
  destruct Hbase as (?&Hd%divide_8_16&?), Hsize as [? ?]. unfold word_of. cbn.
  split_and!; try lia; try done; repeat apply Z.divide_add_r; try done; first [by exists 1|by exists 2].
Qed.

Lemma old_words o x : o ∈ shape → word_of o x → newWords base size first m !! x = m !! x.
Proof.
  intros Ho Hw. rewrite Forall_forall in Hapart. specialize (Hapart o Ho).
  assert (¬ word_of (newSegment base size) x) as Hn by (unfold word_of, apart in *; cbn in *; lia).
  destruct new_header_words as (H1&H2&H3&H4). unfold newWords.
  rewrite !lookup_insert_ne; try by (intros Heq; rewrite Heq in *). destruct (acquire_lookup x) as [[_ ?]|[? _]]; done.
Qed.

Lemma new_domain x :
  is_Some (newWords base size first m !! x) ↔ is_Some (m !! x) ∨ word_of (newSegment base size) x.
Proof.
  destruct new_header_words as (H1&H2&H3&H4). unfold newWords. rewrite !lookup_insert_is_Some'.
  destruct (acquire_lookup x) as [[-> Hw]|[-> Hn]]; split; try tauto.
  - intros _. by right; right; right; right.
  - intros [<-|[<-|[<-|[<-|?]]]]; tauto.
Qed.

Lemma rep_grow : rep (newWords base size first m) base (newSegment base size :: shape).
Proof.
  pose proof new_ok as Hok. destruct Hbase as (H0&Hd&H64), Hsize as [H48 Hds].
  assert (u64_ok first) as Hfirst.
  { pose proof (rep_links _ _ _ R) as Hl. destruct shape as [|sg sh]; [by cbn in Hl; subst first|].
    destruct Hl as [-> _]. destruct (segment_in R sg) as (?&_&_&?&?&_); [apply elem_of_cons; by left|].
    unfold u64_ok. lia. }
  assert (∀ o, o ∈ shape → newWords base size first m !! sg_base o = m !! sg_base o ∧
    newWords base size first m !! (sg_base o + 8) = m !! (sg_base o + 8)) as Hhd.
  { intros o Ho. destruct (segment_in R o Ho) as (?&?%divide_8_16&?&?&?&_).
    split; apply (old_words o); try done; split; try lia; [done|].
    by apply Z.divide_add_r; [|exists 1]. }
  split.
  - apply shape_ok_cons. split_and!; [done|done|apply R].
  - cbn [links sg_base sg_size newSegment]. split; [done|]. split.
    + unfold newWords. rewrite !lookup_insert_ne by lia. by rewrite lookup_insert_eq.
    + exists first. split; [|eapply links_frame; [apply R|done]].
      unfold newWords. rewrite !lookup_insert_ne by lia. by rewrite lookup_insert_eq.
  - intros a s Hb. rewrite blocks_cons in Hb. apply elem_of_app in Hb as [Hb|Hb].
    + apply list_elem_of_singleton in Hb as [= -> ->]. unfold newWords.
      rewrite lookup_insert_ne by lia. by rewrite lookup_insert_eq.
    + pose proof Hb as (o&Ho&Hin)%blocks_in.
      destruct (segment_block _ _ _ (segment_in R o Ho) Hin) as (?&?&?&?&?&?).
      rewrite (old_words o); [by apply R|done|]. split; [lia|by apply divide_8_16].
  - intros x. rewrite new_domain, (rep_dom _ _ _ R). setoid_rewrite elem_of_cons.
    split; [intros [(o&?&?)|?]; eauto|]. intros (o&[->|?]&?); eauto.
  - intros x v. unfold newWords. rewrite !lookup_insert_Some.
    intros [[_ <-]|[_ [[_ <-]|[_ [[_ <-]|[_ [[_ <-]|[_ Hv]]]]]]]]; try done; try (unfold u64_ok; lia).
    destruct (acquire_lookup x) as [[Hx _]|[Hx _]]; rewrite Hx in Hv.
    + by injection Hv as <-.
    + by eapply (rep_values _ _ _ R).
Qed.

Lemma new_flags : newWords base size first m !! (base + 16 + 8) = Some 0.
Proof. unfold newWords. by rewrite lookup_insert_eq. Qed.

(** The old blocks are as they were. *)
Lemma old_block a s i :
  (a, s) ∈ blocks shape → 0 ≤ i < s → newWords base size first m !! (a + i) = m !! (a + i).
Proof.
  intros Hb Hi. destruct (decide ((a + i) `mod` 8 = 0)) as [Hd%Z.mod_divide|Hd]; [|done|].
  - pose proof Hb as (o&Ho&Hin)%blocks_in.
    destruct (segment_block _ _ _ (segment_in R o Ho) Hin) as (?&?&?&?&?&?).
    apply (old_words o); [done|]. split; [lia|done].
  - transitivity (@None Z); [|symmetry]; apply eq_None_not_Some.
    + rewrite new_domain, (rep_dom _ _ _ R). intros [(o&_&_&?)|[_ ?]]; by apply Hd, Z.mod_divide.
    + rewrite (rep_dom _ _ _ R). intros (o&_&_&?). by apply Hd, Z.mod_divide.
Qed.

Lemma grow_live a s : idle m shape → live (newWords base size first m) (newSegment base size :: shape) a s ↔ live m shape a s.
Proof.
  intros _. unfold live. rewrite blocks_cons, elem_of_app. split.
  - intros [[[= -> ->]%list_elem_of_singleton|Hb] Hone].
    + rewrite new_flags in Hone. done.
    + destruct (shape_block _ _ _ (rep_shape _ _ _ R) Hb) as (_&_&_&_&?&_).
      rewrite (old_block a s 8 Hb) in Hone by lia. done.
  - intros [Hb Hone]. destruct (shape_block _ _ _ (rep_shape _ _ _ R) Hb) as (_&_&_&_&?&_).
    rewrite (old_block a s 8 Hb) by lia. tauto.
Qed.

Lemma grow_idle : idle m shape → idle (newWords base size first m) (newSegment base size :: shape).
Proof.
  intros I a s Hb. rewrite blocks_cons in Hb. apply elem_of_app in Hb as [Hb|Hb].
  - apply list_elem_of_singleton in Hb as [= -> ->]. left. apply new_flags.
  - destruct (shape_block _ _ _ (rep_shape _ _ _ R) Hb) as (_&_&_&_&?&_).
    rewrite (old_block a s 8 Hb) by lia. by apply (I a s).
Qed.
End NewSegment.

Section Grow.
Context {E : Type} `{!Provider E} {granule : Z} `{!ProviderLaws E granule}.

Definition withBusy (h : Heap) (busy : bool) : Heap :=
  MkHeap (h_memory h) (h_first h) (h_limit h) (h_reserved h) (h_granule h) (h_nextSize h) busy.

(** The provider refuses, or gives a segment apart from the others. *)
Definition acquired (h : Heap) (m : gmap Z Z) (e : E) (shape : list Segment) (size base : Z)
    (st : HeapState E) : Prop :=
  (base = 0 ∧ ∃ e', st = HS h m e' ∧ held e' ≡ₚ pairs shape) ∨
  (0 < base ∧ (granule | base) ∧ base + size ≤ 2 ^ 64 ∧ Forall (apart (newSegment base size)) shape ∧
    ∃ e', st = HS h (acquireWords base size m) e' ∧ held e' ≡ₚ (base, size) :: pairs shape).

Lemma acquire_wp h m (e : E) shape size :
  held e ≡ₚ pairs shape → 0 < size → (granule | size) →
  wp False (acquire size) (λ base st, acquired h m e shape size base st) (HS h m e).
Proof.
  intros Hheld Hs Hd. apply wp_bind, wp_get. cbn [hs_env].
  destruct (Acquire size e) as [base e'] eqn:Hacq. apply wp_bind, wp_modify. cbn [hs_heap hs_mem hs_env].
  apply wp_bind. destruct (Acquire_ok _ _ _ _ Hs Hd Hacq) as [[-> Hh]|(H0&Hg&H64&Hh&Hap)].
  - apply wp_ret, wp_ret. left. split; [done|]. exists e'. split; [done|]. by rewrite Hh.
  - rewrite (proj2 (Z.eqb_neq _ _)) by lia. apply wp_modify, wp_ret. right. split_and!; try done.
    + apply Forall_forall. intros o Ho. destruct (Hap (sg_base o) (sg_size o)) as [?|?].
      * rewrite Hheld. apply list_elem_of_fmap. by exists o.
      * left. done.
      * right. done.
    + exists e'. split; [done|]. by rewrite Hh, Hheld.
Qed.

Lemma granule_facts :
  granule_ok (granule := granule) → (16 | granule) ∧ 64 ≤ granule ≤ 2 ^ 63 ∧ u64 (granule - 1) = granule - 1.
Proof.
  intros (k&Hk&Hg). assert (2 ^ 6 ≤ 2 ^ k) by (apply Z.pow_le_mono_r; lia).
  assert (2 ^ k ≤ 2 ^ 63) by (apply Z.pow_le_mono_r; lia). rewrite <- Hg in *. split_and!; try lia.
  - exists (2 ^ (k - 4)). rewrite Hg. change 16 with (2 ^ 4). rewrite <- Z.pow_add_r by lia. f_equal. lia.
  - apply u64_small. unfold u64_ok. lia.
Qed.

(** Growth: nothing, or a new segment whose one block is large enough. *)
Definition grow_post (budget : Budget) (st : HeapState E) (shape : list Segment) (span p : Z)
    (st' : HeapState E) : Prop :=
  ∃ shape', heap_ok (granule := granule) budget st' shape' ∧
    ((p = 0 ∧ shape' = shape ∧ hs_mem st' = hs_mem st ∧ hs_heap st' = hs_heap st) ∨
     (p ≠ 0 ∧ placed (hs_mem st) (hs_mem st') shape shape' p span)).

Lemma install_wp budget h m (e e' : E) shape base growth span (Q : Z → HeapState E → Prop) :
  heap_ok (granule := granule) budget (HS h m e) shape → 32 ≤ span → (16 | span) →
  span + 16 ≤ growth → (granule | growth) → growth ≤ h_limit h - h_reserved h → 0 < base → (granule | base) →
  base + growth ≤ 2 ^ 64 → Forall (apart (newSegment base growth)) shape →
  held e' ≡ₚ (base, growth) :: pairs shape →
  (∀ p st', grow_post budget (HS h m e) shape span p st' → Q p st') →
  wp False
    (s ← get;
     _ ← storeWord base (h_first (hs_heap s));
     _ ← storeWord (base + 8) growth;
     _ ← setFirst base;
     let b := base + segmentSize in
     _ ← storeWord b (u64 (growth - segmentSize));
     _ ← storeWord (b + 8) 0;
     s ← get;
     _ ← setReserved (u64 (h_reserved (hs_heap s) + growth));
     _ ← setNextSize (if growth <=? maxUintptr `div` 2 then u64 (growth * 2) else growth);
     take span) Q (HS h (acquireWords base growth m) e').
Proof.
  intros [R I Hm Hb Hacc Hlim [Hg Hgk] Hn] Hspan Hdspan Hfit Hdg Hroom H0 Hbg H64 Hap Hheld HQ.
  cbn [hs_heap hs_mem hs_env] in *. destruct (granule_facts Hgk) as (H16&?&_).
  assert (0 < base ∧ (16 | base) ∧ base + growth ≤ 2 ^ 64) as Hbase.
  { split_and!; [done| |done]. by etransitivity. }
  assert (48 ≤ growth ∧ (16 | growth)) as Hsize.
  { split; [lia|]. by etransitivity. }
  pose proof (new_header_words Hbase Hsize) as (W1&W2&W3&W4).
  assert (∀ x, word_of (newSegment base growth) x → is_Some (acquireWords base growth m !! x)) as Hdom.
  { intros x Hx. destruct (acquire_lookup (m := m) Hbase Hsize x) as [[-> _]|[_ ?]]; done. }
  apply wp_bind, wp_get. cbn [hs_heap]. apply wp_bind, wp_store; [by apply Hdom|].
  apply wp_bind, wp_store; [apply lookup_insert_is_Some'; right; by apply Hdom|].
  apply wp_bind, wp_modify. cbn [hs_heap hs_mem hs_env]. cbv zeta. unfold segmentSize.
  apply wp_bind, wp_store; [rewrite !lookup_insert_is_Some'; right; right; by apply Hdom|].
  apply wp_bind, wp_store; [rewrite !lookup_insert_is_Some'; right; right; right; by apply Hdom|].
  apply wp_bind, wp_get. cbn [hs_heap h_reserved]. apply wp_bind, wp_modify. cbn [hs_heap hs_mem hs_env].
  apply wp_bind, wp_modify. cbn [hs_heap hs_mem hs_env h_memory h_first h_limit h_reserved h_granule h_nextSize h_busy].
  rewrite (u64_small (growth - 16)) by (unfold u64_ok; lia).
  destruct Hacc as (Hheld0&Hres&Hf0&Hf64&Hbl). pose proof (total_nonneg _ (rep_shape _ _ _ R)).
  rewrite (u64_small (h_reserved h + growth)) by (unfold u64_ok; lia).
  fold (newWords base growth (h_first h) m).
  match goal with |- wp _ _ _ (HS ?h2 _ _) => set (h' := h2) end.
  assert (heap_ok (granule := granule) budget (HS h' (newWords base growth (h_first h) m) e')
    (newSegment base growth :: shape)) as Hok'.
  { split; cbn [hs_heap hs_mem hs_env h' h_memory h_first h_limit h_reserved h_granule h_nextSize h_busy]; try done.
    - by apply rep_grow.
    - by apply grow_idle.
    - split_and!; [done| |done| |done].
      + cbn [h' h_reserved total foldr newSegment sg_size]. fold (total shape). lia.
      + cbn [total foldr newSegment sg_size]. fold (total shape). lia.
    - lia.
    - unfold maxUintptr. destruct (Z.leb_spec growth ((2 ^ 64 - 1) `div` 2)) as [Hle|]; [|split; [done|lia]].
      change ((2 ^ 64 - 1) `div` 2) with (2 ^ 63 - 1) in Hle. rewrite u64_small by (unfold u64_ok; lia).
      split; [by apply Z.divide_mul_l|lia]. }
  eapply wp_conseq; [by apply (take_ok budget _ _ span Hok')|]. cbn [hs_mem].
  intros p st' [(->&->&Hno)|(Hp&shape'&Hok2&Hpl)]; apply HQ.
  - exfalso. specialize (Hno (base + 16) (growth - 16)).
    assert (growth - 16 < span); [|lia]. apply Hno; [|apply new_flags].
    rewrite blocks_cons. apply elem_of_app. left. by apply list_elem_of_singleton.
  - exists shape'. split; [done|]. right. split; [done|]. cbn [hs_mem].
    pose proof (grow_live R Hbase Hsize Hap) as Hlv.
    destruct Hpl as [Hal (s&Hs&Hl&Hz) Hnew Hw]. split; [done| | |].
    + exists s. split_and!; [done| |done]. intros a' s'. by rewrite Hl, (Hlv a' s' I).
    + intros s' Hl'. by apply (Hnew s'), (Hlv _ _ I).
    + intros a s' x Hl' Hx. rewrite (Hw a s' x); [|by apply Hlv|done].
      replace x with (a + (x - a)) by lia. apply (old_block R Hbase Hsize Hap a s'); [apply Hl'|lia].
Qed.
(** The size of a new segment. *)
Definition growthOf (nextSize minimum available : Z) : Z :=
  let growth := if nextSize <? minimum then minimum else nextSize in
  if available <? growth then available else growth.

Lemma growthOf_spec nextSize minimum available :
  minimum ≤ available → (granule | nextSize) → (granule | minimum) → (granule | available) →
  minimum ≤ growthOf nextSize minimum available ≤ available ∧
  (granule | growthOf nextSize minimum available).
Proof.
  intros Hle Hn Hm Ha. unfold growthOf. cbv zeta.
  destruct (Z.ltb_spec nextSize minimum), (Z.ltb_spec available minimum), (Z.ltb_spec available nextSize);
    (split; [lia|done]).
Qed.

Lemma minimum_spec span :
  granule_ok (granule := granule) → 0 ≤ span ≤ u64 (maxUintptr - segmentSize - u64 (granule - 1)) →
  span + 16 ≤ roundDown (u64 (u64 (span + segmentSize) + granule - 1)) granule ∧
  (granule | roundDown (u64 (u64 (span + segmentSize) + granule - 1)) granule).
Proof.
  intros Hgk. pose proof Hgk as (k&Hk&Hg). destruct (granule_facts Hgk) as (_&?&->).
  unfold maxUintptr, segmentSize.
  rewrite (u64_small (2 ^ 64 - 1 - 16 - (granule - 1))) by (unfold u64_ok; lia). intros Hs.
  rewrite (u64_small (span + 16)), u64_small by (unfold u64_ok; lia). rewrite Hg in *.
  destruct (roundDown_le (span + 16 + 2 ^ k - 1) k) as [_ Hd]; [lia..|]. split; [|done].
  rewrite roundDown_spec by lia.
  pose proof (Z.mod_pos_bound (span + 16 + 2 ^ k - 1) (2 ^ k)).
  pose proof (Z.div_mod (span + 16 + 2 ^ k - 1) (2 ^ k)). lia.
Qed.

Lemma available_spec limit reserved :
  granule_ok (granule := granule) → 0 ≤ reserved ≤ limit → limit < 2 ^ 64 →
  roundDown (u64 (limit - reserved)) granule ≤ limit - reserved ∧
  (granule | roundDown (u64 (limit - reserved)) granule).
Proof.
  intros (k&Hk&Hg) Hle Hlt. rewrite u64_small by (unfold u64_ok; lia). rewrite Hg.
  destruct (roundDown_le (limit - reserved) k) as [? ?]; [lia..|]. split; [lia|done].
Qed.

Lemma grow_wp budget st shape span :
  heap_ok (granule := granule) budget st shape → 32 ≤ span → (16 | span) →
  wp False (grow span) (grow_post budget st shape span) st.
Proof.
  destruct st as [h m e]. intros Hok Hspan Hd. pose proof Hok as [R I Hm Hb Hacc Hlim [Hg Hgk] [Hnd Hn]].
  cbn [hs_heap hs_mem hs_env] in *. pose proof Hacc as (Hheld&Hres&Hf0&Hf64&Hbl).
  pose proof (total_nonneg _ (rep_shape _ _ _ R)).
  destruct (granule_facts Hgk) as (_&?&_).
  assert (∀ e', held e' ≡ₚ pairs shape → grow_post budget (HS h m e) shape span 0 (HS h m e')) as Hfail.
  { intros e' He'. exists shape. split; [|by left]. split; cbn [hs_heap hs_mem hs_env]; try done. }
  apply wp_bind, wp_get. cbn [hs_heap]. rewrite Hg.
  destruct (Z.ltb_spec (u64 (maxUintptr - segmentSize - u64 (granule - 1))) span) as [|Hguard];
    [apply wp_ret; by apply Hfail|].
  destruct (minimum_spec span Hgk) as [Hmin Hdm]; [lia|].
  destruct (available_spec (h_limit h) (h_reserved h) Hgk) as [Hav Hda]; [lia..|]. cbv zeta.
  set (minimum := roundDown (u64 (u64 _ + _ - 1)) granule) in *.
  set (available := roundDown (u64 (h_limit h - _)) granule) in *.
  destruct (Z.ltb_spec available minimum) as [|Hroom]; [apply wp_ret; by apply Hfail|].
  destruct (growthOf_spec _ _ _ Hroom Hnd Hdm Hda) as [Hgr Hdg].
  fold (growthOf (h_nextSize h) minimum available). set (growth := growthOf _ _ _) in *.
  apply wp_bind, wp_modify. cbn [hs_heap hs_mem hs_env]. fold (withBusy h true).
  assert (withBusy (withBusy h true) false = h) as Hback by (destruct h; by simplify_eq/=).
  apply wp_bind. eapply wp_conseq; [apply (acquire_wp _ _ _ shape growth Hheld); [lia|done]|].
  intros base st Hfirst. apply wp_bind.
  apply (wp_conseq _ (λ '(base, size) st, size ≤ available ∧ minimum ≤ size ∧ (granule | size) ∧
    ∃ e0, acquired (withBusy h true) m e0 shape size base st)).
  { destruct ((base =? 0) && negb (growth =? minimum)) eqn:Hretry.
    - destruct Hfirst as [(_&e'&->&Hh)|(?&_)]; [|lia].
      apply wp_bind. eapply wp_conseq; [apply (acquire_wp _ _ _ shape minimum Hh); [lia|done]|].
      intros base2 st2 H2. apply wp_ret. split_and!; [lia|lia|done|]. by exists e'.
    - apply wp_ret. split_and!; [lia|lia|done|]. by exists e. }
  clear base st Hfirst. intros [base size] st (Hle&Hge&Hds&e0&Hacq).
  apply wp_bind, wp_modify. destruct Hacq as [(->&e'&->&Hh)|(Hpos&Hbg&H64&Hap&e'&->&Hh)];
    cbn [hs_heap hs_mem hs_env]; fold (withBusy (withBusy h true) false); rewrite Hback.
  - apply wp_ret. by apply Hfail.
  - rewrite (proj2 (Z.eqb_neq _ _)) by lia.
    apply (install_wp budget h m e e' shape base size span); try done; lia.
Qed.

(** * Alloc *)

(** What was live before an allocation, after the collection it may have made. *)
Definition settled (budget : Budget) (st : HeapState E) (shape : list Segment) (st' : HeapState E)
    (shape' : list Segment) : Prop :=
  (st' = st ∧ shape' = shape) ∨ ∃ complete, collection (granule := granule) budget st shape complete st' shape'.

Definition alloc_post (budget : Budget) (st : HeapState E) (shape : list Segment) (size p : Z)
    (st' : HeapState E) : Prop :=
  ∃ st1 shape1 shape', settled budget st shape st1 shape1 ∧ heap_ok (granule := granule) budget st' shape' ∧
    ((p = 0 ∧ shape' = shape1 ∧ hs_mem st' = hs_mem st1 ∧
      (size ≤ maxUintptr - 31 → no_fit (blocks shape') (hs_mem st') (spanOf size))) ∨
     (p ≠ 0 ∧ placed (hs_mem st1) (hs_mem st') shape1 shape' p (size + 16))).

(** Growing, once no free block fits. *)
Lemma settled_grow budget st shape st1 shape1 size :
  settled budget st shape st1 shape1 → heap_ok (granule := granule) budget st1 shape1 →
  0 ≤ size ≤ maxUintptr - 15 - 16 → no_fit (blocks shape1) (hs_mem st1) (spanOf size) →
  wp False (grow (spanOf size)) (alloc_post budget st shape size) st1.
Proof.
  intros Hset Hok Hsize Hno. destruct (spanOf_spec size Hsize) as (Hge&H32&Hd).
  eapply wp_conseq; [apply grow_wp; [done|lia|done]|].
  intros p st' (shape'&Hok'&[(->&->&Hm&_)|(Hp&Hpl)]); exists st1, shape1.
  - exists shape1. split_and!; [done|done|]. left. split_and!; [done..|]. by rewrite Hm.
  - exists shape'. split_and!; [done|done|]. right. split; [done|]. eapply placed_le; [done|lia].
Qed.

Lemma settled_take budget st shape st1 shape1 size (rest : GoM (HeapState E) Z) :
  settled budget st shape st1 shape1 → heap_ok (granule := granule) budget st1 shape1 →
  0 ≤ size ≤ maxUintptr - 15 - 16 →
  (no_fit (blocks shape1) (hs_mem st1) (spanOf size) → wp False rest (alloc_post budget st shape size) st1) →
  wp False (pointer ← take (spanOf size); if negb (pointer =? 0) then mret pointer else rest)
    (alloc_post budget st shape size) st1.
Proof.
  intros Hset Hok Hsize Hrest. destruct (spanOf_spec size Hsize) as (Hge&H32&Hd).
  apply wp_bind. eapply wp_conseq; [apply (take_ok budget st1 shape1); [done|lia|done]|].
  intros p st' [(->&->&Hno)|(Hp&shape'&Hok'&Hpl)]; [by apply Hrest|].
  rewrite (proj2 (Z.eqb_neq _ _)) by done. apply wp_ret. exists st1, shape1, shape'.
  split_and!; [done|done|]. right. split; [done|]. eapply placed_le; [done|lia].
Qed.

Lemma Alloc_wp budget st shape size :
  heap_ok (granule := granule) budget st shape → u64_ok size →
  wp False (Alloc size) (alloc_post budget st shape size) st.
Proof.
  intros Hok Hsize. pose proof Hok as [_ _ Hm Hb _ _ _ _]. unfold u64_ok in Hsize.
  assert (settled budget st shape st shape) as Hset by by left.
  apply wp_bind, wp_get. rewrite Hm, Hb. cbn [negb orb]. cbv zeta. fold (spanOf size).
  destruct (Z.ltb_spec (u64 (maxUintptr - (alignment - 1) - blockSize))
    (if size =? 0 then alignment else size)) as [Hbig|Hfit].
  { apply wp_ret. exists st, shape, shape. split_and!; [done..|]. left. split_and!; [done..|].
    change (u64 _) with (maxUintptr - 31) in Hbig. unfold alignment, wordSize, maxUintptr in *.
    intros ?. destruct (Z.eqb_spec size 0); lia. }
  assert (0 ≤ size ≤ maxUintptr - 15 - 16) as Hs.
  { change (u64 _) with (maxUintptr - 31) in Hfit. unfold alignment, wordSize, maxUintptr in *.
    destruct (Z.eqb_spec size 0); lia. }
  apply (settled_take budget st shape st shape); [done..|]. intros Hno.
  apply wp_bind, wp_get. destruct (h_first (hs_heap st) =? 0); cbn [negb].
  { by apply (settled_grow budget st shape st shape). }
  apply wp_bind. eapply wp_conseq; [by apply Collect_wp|]. intros complete st1 (shape1&Hcol).
  assert (settled budget st shape st1 shape1) as Hset1 by (right; by exists complete).
  unfold collection in Hcol. destruct (MarkRoots (hs_mem st) (hs_env st)) as [[ps answer] e'].
  destruct Hcol as (->&Hok1&Hrest). destruct answer; cbn [negb].
  - apply (settled_take budget st shape st1 shape1); [done..|]. intros Hno1.
    by apply (settled_grow budget st shape st1 shape1).
  - apply wp_ret. exists st1, shape1, shape1. split_and!; [done..|]. left. split_and!; [done..|].
    intros _. destruct Hrest as [-> ->]. done.
Qed.
End Grow.
