(* ===== verification/HeapLife.v ===== *)
(** The life of a heap: initialisation, closing, and the steps in between. *)

From stdpp Require Import gmap.
From S2P Require Import Prelude.
From S2P Require Import GoInt.
From S2P Require Import HeapModel.
From S2P Require Import HeapShape.
From S2P Require Import HeapTrace.
From S2P Require Import HeapSweep.
From S2P Require Import HeapCollect.
From S2P Require Import HeapAlloc.
From S2P Require Import HeapGrow.

(** The test [g & (g - 1) = 0] finds the powers of two. *)
Lemma power_of_two g : 0 < g → Z.land g (g - 1) = 0 → g = 2 ^ Z.log2 g.
Proof.
  intros Hg Hl. destruct (Z.log2_spec g Hg) as [Hlo Hhi]. pose proof (Z.log2_nonneg g).
  destruct (Z.eq_dec g (2 ^ Z.log2 g)) as [|Hne]; [done|exfalso].
  assert (Z.log2 (g - 1) = Z.log2 g) as Hlog by (apply Z.log2_unique; lia).
  assert (Z.testbit (Z.land g (g - 1)) (Z.log2 g) = true) as Hbit.
  { rewrite Z.land_spec, Z.bit_log2 by done. rewrite <- Hlog at 1. apply Z.bit_log2.
    destruct (Z.eq_dec g 1) as [->|]; [by cbn in Hne|lia]. }
  by rewrite Hl, Z.bits_0 in Hbit.
Qed.

Section Life.
Context {E : Type} `{!Provider E} {granule : Z} `{!ProviderLaws E granule}.

(** * Init *)

Definition config_ok (c : Config) : Prop :=
  u64_ok (cfg_Limit c) ∧ u64_ok (cfg_Granule c) ∧ u64_ok (cfg_Initial c) ∧ u64_ok (cfg_Overhead c).

Lemma granule_power g :
  u64_ok g → 48 ≤ g → Z.land g (u64 (g - 1)) = 0 → ∃ k, 6 ≤ k < 64 ∧ g = 2 ^ k.
Proof.
  intros [? ?] Hg Hl. rewrite u64_small in Hl by (unfold u64_ok; lia).
  apply power_of_two in Hl; [|lia]. exists (Z.log2 g). split; [|done]. split.
  - assert (5 < Z.log2 g); [|lia]. apply Z.nle_gt. intros Hle.
    assert (2 ^ Z.log2 g ≤ 2 ^ 5) by (apply Z.pow_le_mono_r; lia). lia.
  - apply Z.log2_lt_pow2; lia.
Qed.

(** The preferred size is rounded up to the granule. *)
Lemma initial_spec initial :
  granule_ok (granule := granule) → 0 < initial ≤ u64 (maxUintptr - u64 (granule - 1)) →
  let size := roundDown (u64 (u64 (initial + granule) - 1)) granule in
  (granule | size) ∧ 0 < size < 2 ^ 64.
Proof.
  intros Hgk. pose proof Hgk as (k&Hk&Hg). destruct (granule_facts Hgk) as (_&?&->).
  unfold maxUintptr. rewrite (u64_small (2 ^ 64 - 1 - (granule - 1))) by (unfold u64_ok; lia).
  intros Hi. cbv zeta. assert (u64 (u64 (initial + granule) - 1) = initial + granule - 1) as ->.
  { unfold u64. rewrite Zminus_mod_idemp_l. apply Z.mod_small. lia. }
  rewrite Hg in *. destruct (roundDown_le (initial + 2 ^ k - 1) k) as [Hle Hd]; [lia..|].
  split; [done|]. split; [|lia]. rewrite roundDown_spec by lia.
  pose proof (Z.mod_pos_bound (initial + 2 ^ k - 1) (2 ^ k)).
  pose proof (Z.div_mod (initial + 2 ^ k - 1) (2 ^ k)). lia.
Qed.

Definition budgetOf (c : Config) : Budget :=
  MkBudget (heapSize + cfg_Overhead c) (if cfg_Limit c =? 0 then maxUintptr else cfg_Limit c).

(** An accepted configuration gives an empty heap within its limit; a refused one
    changes nothing. *)
Lemma Init_wp (e : E) memory roots c :
  config_ok c → cfg_Granule c = granule → held e ≡ₚ [] →
  wp False (Init memory roots c)
    (λ ok st, if ok : bool then heap_ok (granule := granule) (budgetOf c) st []
       else st = HS emptyHeap ∅ e) (HS emptyHeap ∅ e).
Proof.
  intros (Hl&Hgr&Hin&Hov) Hg Hheld. unfold Init. apply wp_bind, wp_get. cbn [hs_heap emptyHeap h_memory].
  destruct (_ || _); [by apply wp_ret|]. cbv zeta. rewrite Hg in *.
  destruct ((granule <? segmentSize + blockSize + alignment) || _) eqn:Hgc; [by apply wp_ret|].
  apply orb_false_iff in Hgc as [H48%Z.ltb_ge Hpow%negb_false_iff%Z.eqb_eq].
  change (segmentSize + blockSize + alignment) with 48 in H48.
  assert (granule_ok (granule := granule)) as Hgk by by apply granule_power.
  destruct (negb (cfg_Limit c =? 0) && _); [by apply wp_ret|].
  set (limit := if cfg_Limit c =? 0 then maxUintptr else cfg_Limit c).
  assert (u64_ok limit) as Hlim by (unfold limit; by destruct (cfg_Limit c =? 0)).
  destruct (Z.ltb_spec (maxUintptr - heapSize) (cfg_Overhead c)) as [|Hovm]; [by apply wp_ret|].
  unfold u64_ok, maxUintptr, heapSize in *.
  rewrite (u64_small (80 + cfg_Overhead c)) by (unfold u64_ok; lia).
  destruct (Z.ltb_spec limit (80 + cfg_Overhead c)) as [|Hfits]; [by apply wp_ret|].
  set (initial := if cfg_Initial c =? 0 then granule else cfg_Initial c).
  assert (0 < initial) by (unfold initial; destruct (Z.eqb_spec (cfg_Initial c) 0); lia).
  destruct (Z.ltb_spec (u64 (2 ^ 64 - 1 - u64 (granule - 1))) initial) as [|Hini]; [by apply wp_ret|].
  destruct (initial_spec initial Hgk) as [Hd Hsize]; [unfold maxUintptr; lia|].
  apply wp_bind, wp_modify, wp_ret.
  split; cbn [hs_heap hs_mem hs_env h_memory h_first h_limit h_reserved h_granule h_nextSize h_busy]; try done.
  - split; try done.
    + by intros a s ?%not_elem_of_nil.
    + intros a. rewrite lookup_empty. split; [by intros []|]. by intros (sg&?%not_elem_of_nil&_).
  - by intros a s ?%not_elem_of_nil.
  - unfold budgetOf, heapSize. split_and!; cbn [bg_fixed bg_limit h_reserved h_limit total foldr]; try done; lia.
  - lia.
Qed.

(** * Close *)

Lemma closeSegments_wp h m (e : E) first shape fuel :
  rep m first shape → held e ≡ₚ pairs shape → (length shape < fuel)%nat →
  wp False (closeSegments fuel first) (λ _ st, ∃ e', st = HS h ∅ e' ∧ held e' ≡ₚ []) (HS h m e).
Proof.
  revert m e first shape. induction fuel as [|fuel IH]; intros m e first shape R Hheld Hf; [lia|].
  cbn [closeSegments]. destruct shape as [|sg shape].
  { pose proof (rep_links _ _ _ R) as Hl. cbn in Hl. subst first. apply wp_ret. exists e. split; [|done].
    f_equal. apply map_eq. intros x. rewrite lookup_empty. apply eq_None_not_Some.
    rewrite (rep_dom _ _ _ R). by intros (sg&?%not_elem_of_nil&_). }
  pose proof (rep_links _ _ _ R) as (->&Hsize&next&Hnext&Hl).
  destruct (segment_in R sg) as (H0&_); [apply elem_of_cons; by left|].
  rewrite (proj2 (Z.eqb_neq _ _)) by lia. apply wp_bind. eapply wp_load; [done|].
  apply wp_bind. eapply wp_load; [done|]. apply wp_bind, wp_bind, wp_modify, wp_modify.
  cbn [hs_heap hs_mem hs_env].
  destruct (rep_release m (sg_base sg) [] sg shape next R Hnext) as [R' _].
  apply (IH _ _ next shape R'); [|simpl in Hf; lia]. by apply Release_ok.
Qed.

(** [Close] gives every segment back. *)
Lemma Close_wp budget st shape :
  heap_ok (granule := granule) budget st shape →
  wp False Close (λ _ st', ∃ e', st' = HS emptyHeap ∅ e' ∧ held e' ≡ₚ []) st.
Proof.
  destruct st as [h m e]. intros [R _ Hm Hb [Hheld _] _ _ _]. cbn [hs_heap hs_mem hs_env] in *.
  apply wp_bind, wp_get. cbn [hs_heap]. rewrite Hm, Hb. cbn [negb orb].
  apply wp_bind, wp_modify. cbn [hs_heap hs_mem hs_env]. apply wp_bind. eapply wp_conseq.
  { apply (closeSegments_wp _ m e (h_first h) shape); [done..|]. unfold memFuel. cbn [hs_mem].
    apply (fuel_segments R). }
  intros _ st (e'&->&Hh). apply wp_modify. exists e'. done.
Qed.

(** * Steps *)

(** What happens to a heap in use: allocations, collections, and clients that write
    words of the payloads they were given. *)
Inductive heap_step : HeapState E → HeapState E → Prop :=
| step_alloc st size p st' : u64_ok size → Alloc size st = Some (p, st') → heap_step st st'
| step_collect st complete st' : Collect st = Some (complete, st') → heap_step st st'
| step_write st shape a s i v st' :
    rep (hs_mem st) (h_first (hs_heap st)) shape → live (hs_mem st) shape a s →
    16 ≤ i < s → (8 | i) → u64_ok v → storeWord (a + i) v st = Some (tt, st') → heap_step st st'.

Inductive heap_reachable (c : Config) : HeapState E → Prop :=
| reachable_init e memory roots st :
    held e ≡ₚ [] → Init memory roots c (HS emptyHeap ∅ e) = Some (true, st) → heap_reachable c st
| reachable_step st st' : heap_reachable c st → heap_step st st' → heap_reachable c st'.

(** The segments and the blocks' addresses are determined by the storage. *)
Lemma tile_unique m lo hi bs bs' :
  tile lo hi bs → tile lo hi bs' → (∀ a s, (a, s) ∈ bs → m !! a = Some s) →
  (∀ a s, (a, s) ∈ bs' → (m : gmap Z Z) !! a = Some s) → bs = bs'.
Proof.
  revert lo bs'. induction bs as [|[a s] bs IH]; intros lo [|[a' s'] bs']; cbn [tile fst snd].
  - done.
  - intros -> (->&?&_&Ht). pose proof (tile_le _ _ _ Ht). pose proof (lenZ_nonneg bs'). lia.
  - intros (->&?&_&Ht) ->. pose proof (tile_le _ _ _ Ht). pose proof (lenZ_nonneg bs). lia.
  - intros (->&_&_&Ht) (->&_&_&Ht') H1 H2.
    pose proof (H1 lo s ltac:(apply elem_of_cons; by left)) as E1.
    pose proof (H2 lo s' ltac:(apply elem_of_cons; by left)) as E2. simplify_eq. f_equal.
    apply (IH _ bs' Ht Ht').
    + intros x y Hb. apply H1, elem_of_cons. by right.
    + intros x y Hb. apply H2, elem_of_cons. by right.
Qed.

Lemma rep_unique m first shape shape' : rep m first shape → rep m first shape' → shape = shape'.
Proof.
  intros R R'. pose proof (rep_links _ _ _ R) as Hl. pose proof (rep_links _ _ _ R') as Hl'.
  assert (∀ sg, sg ∈ shape → ∀ a s, (a, s) ∈ sg_blocks sg → m !! a = Some s) as Hsp.
  { intros sg Hsg a s Hb. apply (rep_spans _ _ _ R), blocks_in. by exists sg. }
  assert (∀ sg, sg ∈ shape' → ∀ a s, (a, s) ∈ sg_blocks sg → m !! a = Some s) as Hsp'.
  { intros sg Hsg a s Hb. apply (rep_spans _ _ _ R'), blocks_in. by exists sg. }
  pose proof (rep_shape _ _ _ R) as [Hf _]. pose proof (rep_shape _ _ _ R') as [Hf' _].
  clear R R'. revert first shape' Hl Hl' Hsp Hsp' Hf Hf'.
  induction shape as [|sg sh IH]; intros first [|sg' sh']; cbn [links].
  - done.
  - intros -> (H0&_) _ _ _ [(?&_) _]%Forall_cons. lia.
  - intros (H0&_) -> _ _ [(?&_) _]%Forall_cons _. lia.
  - intros (->&Hs&next&Hn&Hl) (Hb&Hs'&next'&Hn'&Hl') Hsp Hsp' [(_&_&_&_&_&Ht) Hf]%Forall_cons
      [(_&_&_&_&_&Ht') Hf']%Forall_cons.
    rewrite <- Hb in *. assert (sg_size sg' = sg_size sg ∧ next' = next) as [Hsz ->] by (split; congruence).
    rewrite Hsz in *. f_equal.
    + destruct sg as [b z bs], sg' as [b' z' bs']. cbn in *. subst. f_equal.
      eapply tile_unique; [done..| |].
      * apply (Hsp (MkSegment b' z bs)), elem_of_cons. by left.
      * apply (Hsp' (MkSegment b' z bs')), elem_of_cons. by left.
    + apply (IH next sh' Hl Hl'); try done.
      * intros o Ho. apply Hsp, elem_of_cons. by right.
      * intros o Ho. apply Hsp', elem_of_cons. by right.
Qed.

(** A client's write keeps the heap. *)
Lemma write_ok budget h m (e : E) shape a s i v :
  heap_ok (granule := granule) budget (HS h m e) shape → live m shape a s → 16 ≤ i < s → (8 | i) → u64_ok v →
  heap_ok (granule := granule) budget (HS h (<[a + i := v]> m) e) shape.
Proof.
  intros [R I Hm Hb Hacc Hlim Hg Hn] [Hbl _] Hi Hd Hv. cbn [hs_heap hs_mem hs_env] in *.
  split; cbn [hs_heap hs_mem hs_env]; try done.
  - apply rep_store; [done| |done|].
    + apply (block_word _ _ _ R a s); [done|lia|done].
    + apply (block_plain _ _ _ R a s); [done|lia].
  - intros a' s' Hb'. rewrite lookup_insert_ne; [by apply (I a' s')|].
    apply (payload_not_flags shape a s i (rep_shape _ _ _ R) Hbl Hi a' s' Hb').
Qed.

Lemma heap_step_ok budget st st' shape :
  heap_ok (granule := granule) budget st shape → heap_step st st' →
  ∃ shape', heap_ok (granule := granule) budget st' shape'.
Proof.
  intros Hok Hstep. destruct Hstep as [st size p st' Hs Hrun|st complete st' Hrun|st sh a s i v st' R Hl Hi Hd Hv Hrun].
  - destruct (wp_run _ _ _ _ _ (Alloc_wp budget st shape size Hok Hs) Hrun) as (_&_&shape'&_&Hok'&_).
    by exists shape'.
  - destruct (wp_run _ _ _ _ _ (Collect_wp budget st shape Hok) Hrun) as (shape'&Hcol).
    exists shape'. unfold collection in Hcol. destruct (MarkRoots _ _) as [[ps b] e']. tauto.
  - pose proof Hok as [R' _ _ _ _ _ _ _]. rewrite (rep_unique _ _ _ _ R R') in *.
    destruct st as [h m e]. cbn [hs_heap hs_mem] in *. unfold storeWord, loadWord, mbind, GoM_bind, get, lift in Hrun.
    cbn [hs_mem] in Hrun. destruct (m !! (a + i)); [|done]. injection Hrun as <-. exists shape.
    by apply write_ok with (s := s).
Qed.

(** Every reachable heap satisfies the invariant. *)
Lemma reachable_ok c st :
  config_ok c → cfg_Granule c = granule → heap_reachable c st →
  ∃ shape, heap_ok (granule := granule) (budgetOf c) st shape.
Proof.
  intros Hc Hg. induction 1 as [e memory roots st Hheld Hrun|st st' _ [shape Hok] Hstep].
  - pose proof (wp_run _ _ _ _ _ (Init_wp e memory roots c Hc Hg Hheld) Hrun) as Hok. by exists [].
  - by eapply heap_step_ok.
Qed.

End Life.
