(* ===== verification/HeapLimit.v ===== *)
(** The byte budget of internal/managedheap/limit.go: parsing without wrapping, and
    the precedence of the three sources. *)

From S2P Require Import Prelude.
From S2P Require Import GoInt.
From S2P Require Import HeapModel.

(** * The code *)

(** ["KiB"], ["MiB"], ["GiB"], ["TiB"] *)
Definition unitMultiplier (suffix : list Z) : Z :=
  if bool_decide (suffix = [75; 105; 66]) then Z.shiftl 1 10
  else if bool_decide (suffix = [77; 105; 66]) then Z.shiftl 1 20
  else if bool_decide (suffix = [71; 105; 66]) then Z.shiftl 1 30
  else if bool_decide (suffix = [84; 105; 66]) then Z.shiftl 1 40
  else 1.

(** The loop over the digits; the bytes ['0'] to ['9'] are 48 to 57. *)
Fixpoint parseDigits (maximum value : Z) (text : list Z) : option Z :=
  match text with
  | [] => Some value
  | c :: text =>
      if (c <? 48) || (57 <? c) then None
      else
        let digit := c - 48 in
        if (maximum `div` 10 <? value) ||
           ((value =? maximum `div` 10) && (maximum `mod` 10 <? digit)) then None
        else parseDigits maximum (u64 (value * 10 + digit)) text
  end.

(** A value and whether the text is a limit; the code returns 0 with false, except
    for a text of zeros, whose value is 0 as well. *)
Definition ParseLimit (text : list Z) : Z * bool :=
  let end_ := lenZ text in
  let multiplier :=
    if 3 <=? end_ then unitMultiplier (sublistZ text (end_ - 3) end_) else 1 in
  let end_ := if multiplier =? 1 then end_ else end_ - 3 in
  if end_ =? 0 then (0, false)
  else
    let maximum := maxUintptr `div` multiplier in
    match parseDigits maximum 0 (sublistZ text 0 end_) with
    | None => (0, false)
    | Some value => (u64 (value * multiplier), negb (value =? 0))
    end.

Definition ResolveLimit (target compiled : Z) (environment : list Z) (present : bool) : Z * bool :=
  if present then ParseLimit environment
  else if negb (compiled =? 0) then (compiled, true)
  else (target, true).

(** * What a limit is *)

Definition digit_ok (c : Z) : Prop := 48 ≤ c ≤ 57.

Definition decimalFrom (value : Z) (digits : list Z) : Z :=
  foldl (λ v c, v * 10 + (c - 48)) value digits.
Abbreviation decimal := (decimalFrom 0).

Definition units : list (list Z * Z) :=
  [([], 1); ([75; 105; 66], 2 ^ 10); ([77; 105; 66], 2 ^ 20); ([71; 105; 66], 2 ^ 30);
   ([84; 105; 66], 2 ^ 40)].

(** Digits with an optional unit, whose value is positive and fits 64 bits. *)
Definition is_limit (text : list Z) (n : Z) : Prop :=
  ∃ digits suffix m, text = digits ++ suffix ∧ (suffix, m) ∈ units ∧ digits ≠ [] ∧
    Forall digit_ok digits ∧ n = decimal digits * m ∧ 0 < n < 2 ^ 64.

(** * Lemmas *)

Lemma decimalFrom_ge value digits :
  Forall digit_ok digits → 0 ≤ value → value ≤ decimalFrom value digits.
Proof.
  intros Hd. revert value. induction Hd as [|c digits Hc _ IH]; intros value Hv; [done|].
  unfold digit_ok in Hc. cbn [decimalFrom foldl]. specialize (IH (value * 10 + (c - 48))).
  unfold decimalFrom in IH. lia.
Qed.

(** The loop computes the decimal value, and refuses what exceeds the maximum. *)
Lemma parseDigits_spec maximum value text :
  0 ≤ maximum < 2 ^ 64 → 0 ≤ value ≤ maximum →
  ∀ v, parseDigits maximum value text = Some v ↔
    Forall digit_ok text ∧ v = decimalFrom value text ∧ v ≤ maximum.
Proof.
  intros Hmax. revert value. induction text as [|c text IH]; intros value Hv v; cbn [parseDigits].
  { cbn. split; [intros [= <-]; split_and!; [constructor|done|lia]|]. by intros (_&->&_). }
  destruct ((c <? 48) || (57 <? c)) eqn:Hc.
  { split; [done|]. intros ([Hd _]%Forall_cons&_). unfold digit_ok in Hd. lia. }
  assert (digit_ok c) as Hd by (unfold digit_ok; lia). pose proof Hd as Hdc. cbv zeta. unfold digit_ok in Hd.
  assert ((maximum `div` 10 <? value) || ((value =? maximum `div` 10) && (maximum `mod` 10 <? c - 48)) =
    (maximum <? value * 10 + (c - 48))) as ->.
  { pose proof (Z.div_mod maximum 10). pose proof (Z.mod_pos_bound maximum 10). lia. }
  change (decimalFrom value (c :: text)) with (decimalFrom (value * 10 + (c - 48)) text).
  destruct (Z.ltb_spec maximum (value * 10 + (c - 48))) as [Hbig|Hfit].
  - split; [done|]. intros ([_ Ht]%Forall_cons&->&Hle).
    pose proof (decimalFrom_ge (value * 10 + (c - 48)) text Ht). lia.
  - rewrite u64_small by (unfold u64_ok; lia). rewrite IH by lia. rewrite Forall_cons. tauto.
Qed.

Lemma unitMultiplier_spec suffix :
  (∃ m, (suffix, m) ∈ units ∧ suffix ≠ [] ∧ unitMultiplier suffix = m ∧ 1 < m) ∨
  (unitMultiplier suffix = 1 ∧ ∀ m, (suffix, m) ∈ units → suffix = []).
Proof.
  unfold unitMultiplier, units. rewrite !Z.shiftl_mul_pow2, !Z.mul_1_l by lia.
  repeat case_bool_decide; subst; [left; eexists; (split; [|done]); rewrite !elem_of_cons; tauto..|].
  right. split; [done|]. intros m. rewrite !elem_of_cons.
  intros [[= ? _]|[[= ? _]|[[= ? _]|[[= ? _]|[[= ? _]|?%not_elem_of_nil]]]]]; done.
Qed.

Lemma units_length suffix m :
  (suffix, m) ∈ units → suffix = [] ∧ m = 1 ∨ lenZ suffix = 3 ∧ 1 < m < 2 ^ 64.
Proof.
  unfold units. rewrite !elem_of_cons.
  intros [[= -> ->]|[[= -> ->]|[[= -> ->]|[[= -> ->]|[[= -> ->]|?%not_elem_of_nil]]]]]; [by left|right..|done];
    by_decision.
Qed.

(** A unit does not end in a digit. *)
Lemma unit_not_digits suffix m : (suffix, m) ∈ units → suffix ≠ [] → ¬ Forall digit_ok suffix.
Proof.
  unfold units. rewrite !elem_of_cons. unfold digit_ok.
  intros [[= -> ->]|[[= -> ->]|[[= -> ->]|[[= -> ->]|[[= -> ->]|?%not_elem_of_nil]]]]] Hne; try done;
    rewrite !Forall_cons; lia.
Qed.

Lemma units_function suffix m m' : (suffix, m) ∈ units → (suffix, m') ∈ units → m = m'.
Proof.
  unfold units. rewrite !elem_of_cons.
  intros [[= -> ->]|[[= -> ->]|[[= -> ->]|[[= -> ->]|[[= -> ->]|?%not_elem_of_nil]]]]];
    intros [[= ?]|[[= ?]|[[= ?]|[[= ?]|[[= ?]|?%not_elem_of_nil]]]]]; done.
Qed.

(** The recognised unit, or none where the text has none. *)
Lemma ParseLimit_split text :
  ∃ d suffix m, text = d ++ suffix ∧ (suffix, m) ∈ units ∧
    (suffix = [] → ∀ d' s' m', text = d' ++ s' → (s', m') ∈ units → s' = []) ∧
    ParseLimit text =
      if lenZ d =? 0 then (0, false)
      else match parseDigits (maxUintptr `div` m) 0 d with
           | None => (0, false)
           | Some value => (u64 (value * m), negb (value =? 0))
           end.
Proof.
  pose proof (lenZ_nonneg text) as Hnn.
  assert (sublistZ text 0 (lenZ text) = text) as Hwhole.
  { rewrite <- (app_nil_r text) at 1. apply (sublistZ_app_exact [] text []). }
  assert (([], 1) ∈ units) as Hnone by (apply elem_of_cons; by left).
  unfold ParseLimit. destruct (Z.leb_spec 3 (lenZ text)) as [H3|H3].
  - destruct (unitMultiplier_spec (sublistZ text (lenZ text - 3) (lenZ text)))
      as [(m&Hm&Hne&->&H1)|[-> Hno]].
    + rewrite (proj2 (Z.eqb_neq m 1)) by lia. cbv zeta.
      exists (sublistZ text 0 (lenZ text - 3)), (sublistZ text (lenZ text - 3) (lenZ text)), m.
      rewrite sublistZ_app, Hwhole by lia. split_and!; [done|done|done|].
      by rewrite sublistZ_length, Z.sub_0_r by lia.
    + cbv zeta. change (1 =? 1) with true. cbv iota. rewrite Hwhole.
      exists text, [], 1. rewrite app_nil_r. split_and!; [done|done| |done].
      intros _ d' s' m' -> Hs. destruct (units_length _ _ Hs) as [[-> _]|[Hl _]]; [done|].
      assert (sublistZ (d' ++ s') (lenZ (d' ++ s') - 3) (lenZ (d' ++ s')) = s') as Hlast.
      { rewrite lenZ_app, Hl. replace (lenZ d' + 3 - 3) with (lenZ d') by lia.
        rewrite <- Hl, <- (app_nil_r s') at 1. by rewrite sublistZ_app_exact. }
      rewrite Hlast in Hno. by apply (Hno m').
  - cbv zeta. change (1 =? 1) with true. cbv iota. rewrite Hwhole.
    exists text, [], 1. rewrite app_nil_r. split_and!; [done|done| |done].
    intros _ d' s' m' -> Hs. destruct (units_length _ _ Hs) as [[-> _]|[Hl _]]; [done|].
    rewrite lenZ_app in H3. pose proof (lenZ_nonneg d'). lia.
Qed.

(** The split that makes a text a limit is the one the code makes. *)
Lemma limit_split d suffix m d' s' m' :
  (suffix, m) ∈ units → (s', m') ∈ units → d ++ suffix = d' ++ s' → Forall digit_ok d' →
  (suffix = [] → s' = []) → d' = d ∧ m' = m.
Proof.
  intros Hm Hm' Heq Hd Hnone. destruct (units_length _ _ Hm) as [[-> ->]|[Hl _]].
  - rewrite (Hnone eq_refl) in *. rewrite !app_nil_r in Heq. split; [done|].
    by eapply units_function.
  - destruct (units_length _ _ Hm') as [[-> ->]|[Hl' _]].
    + rewrite app_nil_r in Heq. subst d'. apply Forall_app in Hd as [_ Hd].
      destruct (unit_not_digits _ _ Hm); [|done]. by intros ->.
    + apply app_inj_2 in Heq as [-> ->]; [|unfold lenZ in *; lia]. split; [done|].
      by eapply units_function.
Qed.

Lemma maximum_spec m v : 1 ≤ m → v ≤ maxUintptr `div` m ↔ v * m < 2 ^ 64.
Proof.
  intros Hm. unfold maxUintptr. split; intros H.
  - pose proof (Z.mul_div_le (2 ^ 64 - 1) m ltac:(lia)). nia.
  - apply Z.div_le_lower_bound; lia.
Qed.
