(* ===== verification/HeapProperties.v ===== *)
(** The properties of the managed heap and of its budget. *)

From stdpp Require Import gmap.
From S2P Require Import Prelude.
From S2P Require Import GoInt.
From S2P Require Import HeapModel.
From S2P Require Import HeapShape.
From S2P Require Import HeapTrace.
From S2P Require Import HeapSweep.
From S2P Require Import HeapCollect.
From S2P Require Import HeapAlloc.
From S2P Require Import HeapGrow.
From S2P Require Import HeapLife.
From S2P Require Import HeapLimit.

(** * A provider *)

(** A provider that places segments one above the other, below one megabyte, and
    roots that are a list of words. *)
Record Shelf := MkShelf { sh_held : list (Z * Z); sh_roots : list Z; sh_complete : bool }.

Definition shelfTop (l : list (Z * Z)) : Z := foldr (λ p t, Z.max (p.1 + p.2) t) 64 l.
Definition shelfBase (l : list (Z * Z)) : Z := (shelfTop l + 63) `div` 64 * 64.

Fixpoint shelfRemove (x : Z * Z) (l : list (Z * Z)) : list (Z * Z) :=
  match l with
  | [] => []
  | y :: l => if decide (x = y) then l else y :: shelfRemove x l
  end.

#[export] Instance Shelf_Provider : Provider Shelf := {
  Acquire size e :=
    let base := shelfBase (sh_held e) in
    if base + size <=? 2 ^ 20 then
      (base, MkShelf ((base, size) :: sh_held e) (sh_roots e) (sh_complete e))
    else (0, e);
  Release base size e :=
    MkShelf (shelfRemove (base, size) (sh_held e)) (sh_roots e) (sh_complete e);
  MarkRoots _ e := (sh_roots e, sh_complete e, e)
}.

Lemma shelf_above l b s : (b, s) ∈ l → b + s ≤ shelfBase l.
Proof.
  intros Hin. assert (b + s ≤ shelfTop l) as Htop.
  { induction l as [|p l IH]; [by apply not_elem_of_nil in Hin|]. cbn [shelfTop foldr].
    fold (shelfTop l). apply elem_of_cons in Hin as [<-|Hin]; [cbn; lia|]. specialize (IH Hin). lia. }
  unfold shelfBase. pose proof (Z.div_mod (shelfTop l + 63) 64). pose proof (Z.mod_pos_bound (shelfTop l + 63) 64). lia.
Qed.

Lemma shelf_pos l : 64 ≤ shelfBase l.
Proof.
  assert (64 ≤ shelfTop l) as H.
  { induction l as [|p l IH]; cbn [shelfTop foldr]; [done|]. fold (shelfTop l). lia. }
  unfold shelfBase. pose proof (Z.div_mod (shelfTop l + 63) 64). pose proof (Z.mod_pos_bound (shelfTop l + 63) 64). lia.
Qed.

Lemma shelf_removed x l : x ∈ l → l ≡ₚ x :: shelfRemove x l.
Proof.
  induction l as [|y l IH]; [by intros ?%not_elem_of_nil|]. cbn [shelfRemove].
  destruct (decide (x = y)) as [->|Hne]; [done|]. intros [?|Hin]%elem_of_cons; [done|].
  rewrite (IH Hin) at 1. apply perm_swap.
Qed.

#[export, refine] Instance Shelf_Laws : ProviderLaws Shelf 64 := { held := sh_held }.
Proof.
  - intros size e base e' Hs Hd. cbn [Acquire Shelf_Provider]. cbv zeta.
    destruct (Z.leb_spec (shelfBase (sh_held e) + size) (2 ^ 20)); intros [= <- <-]; [right|by left].
    pose proof (shelf_pos (sh_held e)). split_and!; [lia|by eexists|lia|done|].
    intros b s Hin. right. by apply shelf_above.
  - intros base size e l Hl. cbn [Release Shelf_Provider sh_held].
    apply (Permutation_cons_inv (a := (base, size))). rewrite <- Hl. symmetry. apply shelf_removed.
    rewrite Hl. apply elem_of_cons. by left.
  - intros m e ps ok e'. cbn. by intros [= _ _ <-].
Defined.

Definition sampleConfig : Config := MkConfig 4096 64 0 16.
Definition sampleHeap (complete : bool) (roots : list Z) : HeapState Shelf :=
  match Init true true sampleConfig (HS emptyHeap ∅ (MkShelf [] roots complete)) with
  | Some (_, st) => st
  | None => HS emptyHeap ∅ (MkShelf [] roots complete)
  end.

(** After two allocations: the root is an inner pointer to the first. *)
Definition sampleAllocated : HeapState Shelf :=
  Eval vm_compute in
    match (_ ← Alloc 16; Alloc 8) (sampleHeap true [100]) with
    | Some (_, st) => st
    | None => sampleHeap true [100]
    end.

Lemma sample_config_ok : config_ok sampleConfig.
Proof. unfold config_ok, u64_ok. cbn. lia. Qed.

Lemma sampleHeap_reachable complete roots : heap_reachable (granule := 64) sampleConfig (sampleHeap complete roots).
Proof.
  apply (reachable_init _ (MkShelf [] roots complete) true true); [exact (Permutation_refl [])|]. vm_compute. reflexivity.
Qed.

Lemma sampleAllocated_reachable : heap_reachable (granule := 64) sampleConfig sampleAllocated.
Proof.
  destruct ((Alloc 16) (sampleHeap true [100])) as [[p st]|] eqn:H1; [|by vm_compute in H1].
  destruct ((Alloc 8) st) as [[q st']|] eqn:H2; [|vm_compute in H1; injection H1 as <- <-; by vm_compute in H2].
  assert (st' = sampleAllocated) as <-.
  { vm_compute in H1. injection H1 as <- <-. vm_compute in H2. by injection H2 as <- <-. }
  eapply reachable_step; [eapply reachable_step; [apply sampleHeap_reachable|]|].
  - by apply (step_alloc _ 16 p); [unfold u64_ok; lia|].
  - by apply (step_alloc _ 8 q); [unfold u64_ok; lia|].
Qed.

(** * The heap *)

(** C5. Any sequence of allocations, collections and writes of clients to their own
    payloads leaves a heap whose account is exact: [reserved] is the fixed charge
    plus what the provider holds, and is within the limit. No call touches a word
    outside the provider's segments or runs forever, and [Close] gives everything
    back. *)
Theorem managed_heap_safe {E} `{!Provider E} c `{!ProviderLaws E (cfg_Granule c)} st :
  config_ok c → heap_reachable (granule := cfg_Granule c) c st →
  h_reserved (hs_heap st) = heapSize + cfg_Overhead c + foldr (λ p t, p.2 + t) 0 (held (hs_env st)) ∧
  h_reserved (hs_heap st) ≤ (if cfg_Limit c =? 0 then maxUintptr else cfg_Limit c) ∧
  (∀ size, u64_ok size → ∃ p st', Alloc size st = Some (p, st')) ∧
  (∃ complete st', Collect st = Some (complete, st')) ∧
  ∃ e', Close st = Some (tt, HS emptyHeap ∅ e') ∧ held e' = [].
Proof.
  intros Hc Hr. destruct (reachable_ok c st Hc eq_refl Hr) as [shape Hok].
  pose proof Hok as [_ _ _ _ (Hheld&Hres&_&_&Hlim) [Hle _] _ _]. cbn [bg_fixed bg_limit budgetOf] in *.
  assert (foldr (λ p t, p.2 + t) 0 (held (hs_env st)) = total shape) as Htot.
  { transitivity (foldr (λ p t, p.2 + t) 0 (pairs shape)).
    - apply (foldr_permutation_proper eq); [by intros x y z ->|intros; lia|done].
    - clear. unfold pairs, total. induction shape as [|sg shape IH]; [done|]. cbn. by rewrite IH. }
  rewrite Htot, Hres. split_and!; [done|lia| | |].
  - intros size Hs. pose proof (Alloc_wp _ _ _ size Hok Hs) as Hw. unfold wp in Hw.
    destruct (Alloc size st) as [[p st']|]; [by exists p, st'|done].
  - pose proof (Collect_wp _ _ _ Hok) as Hw. unfold wp in Hw.
    destruct (Collect st) as [[b st']|]; [by exists b, st'|done].
  - pose proof (Close_wp _ _ _ Hok) as Hw. unfold wp in Hw.
    destruct (Close st) as [[[] st']|]; [|done]. destruct Hw as (e'&->&He).
    exists e'. split; [done|]. by apply Permutation_nil.
Qed.

Lemma managed_heap_safe_witness :
  h_reserved (hs_heap sampleAllocated) = heapSize + cfg_Overhead sampleConfig +
    foldr (λ p t, p.2 + t) 0 (held (hs_env sampleAllocated)) ∧
  h_reserved (hs_heap sampleAllocated) ≤ (if cfg_Limit sampleConfig =? 0 then maxUintptr else cfg_Limit sampleConfig) ∧
  (∀ size, u64_ok size → ∃ p st', Alloc size sampleAllocated = Some (p, st')) ∧
  (∃ complete st', Collect sampleAllocated = Some (complete, st')) ∧
  ∃ e', Close sampleAllocated = Some (tt, HS emptyHeap ∅ e') ∧ held e' = [].
Proof. apply (managed_heap_safe sampleConfig); [apply sample_config_ok|apply sampleAllocated_reachable]. Defined.

(** C12. A collection keeps exactly the allocated blocks that can be reached from the
    roots through the words of payloads, each at its address and with its payload,
    and gives back every segment in which nothing is left; when the roots are not
    complete it changes nothing. *)
Theorem Collect_spec {E} `{!Provider E} c `{!ProviderLaws E (cfg_Granule c)} st shape roots complete e' :
  config_ok c → heap_reachable (granule := cfg_Granule c) c st →
  rep (hs_mem st) (h_first (hs_heap st)) shape →
  MarkRoots (hs_mem st) (hs_env st) = (roots, complete, e') →
  ∃ st', Collect st = Some (complete, st') ∧
    if complete then
      ∃ shape', rep (hs_mem st') (h_first (hs_heap st')) shape' ∧
        (∀ a s, live (hs_mem st') shape' a s ↔
          live (hs_mem st) shape a s ∧ reach (hs_mem st) shape roots a) ∧
        (∀ a s x, live (hs_mem st') shape' a s → a + 16 ≤ x < a + s → hs_mem st' !! x = hs_mem st !! x) ∧
        ∀ sg, sg ∈ shape' → ∃ a s, (a, s) ∈ sg_blocks sg ∧ live (hs_mem st') shape' a s
    else st' = HS (hs_heap st) (hs_mem st) e'.
Proof.
  intros Hc Hr R Hroots. destruct (reachable_ok c st Hc eq_refl Hr) as [shape0 Hok].
  rewrite (rep_unique _ _ _ _ R (ok_rep _ _ _ Hok)) in *. clear R shape.
  pose proof (Collect_wp _ _ _ Hok) as Hw. unfold wp in Hw.
  destruct (Collect st) as [[b st']|]; [|done]. destruct Hw as (shape'&Hcol). unfold collection in Hcol.
  rewrite Hroots in Hcol. destruct Hcol as (->&Hok'&Hrest). exists st'. split; [done|].
  destruct complete; [|tauto]. destruct Hrest as [_ [Hlive Hwords Hsegs]].
  exists shape'. split_and!; [apply Hok'|done|done|].
  intros sg Hsg. destruct (Hsegs sg Hsg) as (a&s&Hb&Hone). exists a, s. split; [done|].
  split; [|done]. apply blocks_in. by exists sg.
Qed.

Lemma sample_rep : ∃ shape, rep (hs_mem sampleAllocated) (h_first (hs_heap sampleAllocated)) shape.
Proof.
  destruct (reachable_ok sampleConfig sampleAllocated sample_config_ok eq_refl sampleAllocated_reachable)
    as [shape Hok]. exists shape. apply Hok.
Qed.

Lemma Collect_spec_witness :
  ∃ shape st', Collect sampleAllocated = Some (true, st') ∧
    ∃ shape', rep (hs_mem st') (h_first (hs_heap st')) shape' ∧
      (∀ a s, live (hs_mem st') shape' a s ↔
        live (hs_mem sampleAllocated) shape a s ∧ reach (hs_mem sampleAllocated) shape [100] a) ∧
      (∀ a s x, live (hs_mem st') shape' a s → a + 16 ≤ x < a + s →
        hs_mem st' !! x = hs_mem sampleAllocated !! x) ∧
      ∀ sg, sg ∈ shape' → ∃ a s, (a, s) ∈ sg_blocks sg ∧ live (hs_mem st') shape' a s.
Proof.
  destruct sample_rep as [shape R]. exists shape.
  apply (Collect_spec sampleConfig sampleAllocated shape [100] true (hs_env sampleAllocated));
    [apply sample_config_ok|apply sampleAllocated_reachable|done|vm_compute; reflexivity].
Defined.

(** C25. An allocation returns nil, only if no free block fits even after the
    collection it makes, or an aligned pointer to a new block of at least the size
    asked for, all zero; the other live blocks and their contents are as they were
    (after that collection). *)
Theorem Alloc_spec {E} `{!Provider E} c `{!ProviderLaws E (cfg_Granule c)} st shape size :
  config_ok c → heap_reachable (granule := cfg_Granule c) c st →
  rep (hs_mem st) (h_first (hs_heap st)) shape → u64_ok size →
  ∃ p st' st1 shape1 shape', Alloc size st = Some (p, st') ∧
    settled (granule := cfg_Granule c) (budgetOf c) st shape st1 shape1 ∧
    rep (hs_mem st') (h_first (hs_heap st')) shape' ∧
    ((p = 0 ∧ shape' = shape1 ∧ hs_mem st' = hs_mem st1 ∧
      (size ≤ maxUintptr - 31 → no_fit (blocks shape') (hs_mem st') (spanOf size))) ∨
     (p ≠ 0 ∧ placed (hs_mem st1) (hs_mem st') shape1 shape' p (size + 16))).
Proof.
  intros Hc Hr R Hs. destruct (reachable_ok c st Hc eq_refl Hr) as [shape0 Hok].
  rewrite (rep_unique _ _ _ _ R (ok_rep _ _ _ Hok)) in *. clear R shape.
  pose proof (Alloc_wp _ _ _ size Hok Hs) as Hw. unfold wp in Hw.
  destruct (Alloc size st) as [[p st']|]; [|done].
  destruct Hw as (st1&shape1&shape'&Hset&Hok'&Hcase). exists p, st', st1, shape1, shape'.
  split_and!; [done|done|apply Hok'|done].
Qed.

Lemma Alloc_spec_witness :
  ∃ shape p st' st1 shape1 shape', Alloc 8 sampleAllocated = Some (p, st') ∧
    settled (granule := 64) (budgetOf sampleConfig) sampleAllocated shape st1 shape1 ∧
    rep (hs_mem st') (h_first (hs_heap st')) shape' ∧
    ((p = 0 ∧ shape' = shape1 ∧ hs_mem st' = hs_mem st1 ∧
      (8 ≤ maxUintptr - 31 → no_fit (blocks shape') (hs_mem st') (spanOf 8))) ∨
     (p ≠ 0 ∧ placed (hs_mem st1) (hs_mem st') shape1 shape' p (8 + 16))).
Proof.
  destruct sample_rep as [shape R]. exists shape.
  apply (Alloc_spec sampleConfig sampleAllocated shape 8);
    [apply sample_config_ok|apply sampleAllocated_reachable|done|unfold u64_ok; lia].
Defined.

(** * The budget *)

(** [ParseLimit] accepts exactly the decimal numbers with an optional KiB, MiB,
    GiB or TiB whose value is positive and fits 64 bits, and returns that value: no
    overflow, however long the text. *)
Theorem ParseLimit_spec text n :
  ParseLimit text = (n, true) ↔ is_limit text n.
Proof.
  destruct (ParseLimit_split text) as (d&suffix&m&Htext&Hm&Hnone&->).
  assert (1 ≤ m) as Hm1 by (destruct (units_length _ _ Hm) as [[_ ->]|[_ ?]]; lia).
  assert (0 ≤ maxUintptr `div` m < 2 ^ 64) as Hmax.
  { split; [apply Z.div_pos; [done|lia]|]. unfold maxUintptr. apply Z.div_lt_upper_bound; lia. }
  pose proof (parseDigits_spec (maxUintptr `div` m) 0 d Hmax ltac:(lia)) as Hparse.
  split.
  - destruct (Z.eqb_spec (lenZ d) 0) as [|Hd]; [done|].
    destruct (parseDigits _ 0 d) as [v|] eqn:Hv; [|done].
    destruct (proj1 (Hparse v) eq_refl) as (Hdigits&->&Hle). intros [= <- Hne%negb_true_iff%Z.eqb_neq].
    pose proof (decimalFrom_ge 0 d Hdigits ltac:(done)) as Hge.
    apply (maximum_spec m) in Hle; [|done]. exists d, suffix, m.
    split_and!; [done|done| |done| | |]; [by intros ->|..]; rewrite u64_small by (unfold u64_ok; nia); nia || done.
  - intros (d'&s'&m'&Htext'&Hm'&Hd'&Hdigits&->&Hn0&Hn).
    destruct (limit_split d suffix m d' s' m') as [-> ->]; [done|done|congruence|done| |].
    { intros Hs. by apply (Hnone Hs d' s' m'). }
    destruct (Z.eqb_spec (lenZ d) 0) as [H0|_]; [by destruct d|].
    assert (parseDigits (maxUintptr `div` m) 0 d = Some (decimal d)) as ->.
    { apply Hparse. split_and!; [done|done|]. by apply maximum_spec. }
    rewrite u64_small by (unfold u64_ok; lia). f_equal. apply negb_true_iff, Z.eqb_neq. nia.
Qed.
