(* ===== verification/SerialModel.v ===== *)
(** The serial goroutine scheduler and its channels: src/x/runtime/serial/serial.go.

    Every Go object that is shared through pointers has a store of its own, and a
    pointer is an index into it: jobs, waiters, select groups and select bindings; a
    channel is the entry of [Handler.channels] that created it.  Element storage is
    the byte memory of the program, addressed as [unsafe.Pointer] addresses it.

    A stack switch is a change of control.  What a stack remembers while another one
    runs is the [place] where it stopped: at the entry of a goroutine, or in one of
    the loops of [Drain], [waitFor], [waitSelect] and [blockForever].  An operation
    that has to wait ends in the place whose loop it enters ([Suspends]), and [resume]
    is what the loop does when it is looked at again.  The model is of targets with
    [runtime.StackSupported]. *)

From stdpp Require Import gmap.
From S2P Require Import Prelude.
From S2P Require Import GoInt.

(** * Data *)

Definition StatusOK : Z := 0.
Definition StatusClosed : Z := 1.
Definition StatusInvalid : Z := 2.
Definition SelectReceive : Z := 0.
Definition SelectSend : Z := 1.
Definition selectPendingStatus : Z := -1.

(** [runtime.ChanSelectValue]; a nil pointer is 0. *)
Record ChanSelectValue := SelectValue {
  v_Channel : Z; v_Value : Z; v_ReceiveOK : Z; v_Direction : Z
}.

(** Where a stack is stopped: before the entry of its goroutine, in the loop of
    [Drain], in [waitFor] below a send or a receive, in [waitSelect], in
    [blockForever]. *)
Inductive place :=
| AtEntry
| AtDrain
| AtSend (wait : nat)
| AtReceive (wait : nat)
| AtSelect (group : nat) (cases : list ChanSelectValue)
| AtForever.

(** [j_sp] is [None] while the field [sp] is 0: the stack does not exist yet. *)
Record job := Job {
  j_entry : Z; j_context : Z; j_sp : option place; j_done : bool; j_queued : bool
}.

Record waiter := Waiter {
  w_value : list Z; w_target : Z; w_done : bool; w_open : bool; w_status : Z;
  w_task : option nat
}.

Record selectWait := SelectWait {
  g_bindings : list (option nat); g_selected : Z; g_status : Z
}.

Record selectBinding := SelectBinding {
  b_wait : nat; b_group : nat; b_index : Z; b_owner : nat; b_send : bool
}.

Record channel := Channel {
  c_elementSize : Z; c_capacity : Z; c_closed : bool; c_buffer : list Z; c_head : Z;
  c_length : Z; c_senders : list nat; c_receivers : list nat; c_selects : list nat
}.

Record Handler := MkHandler {
  h_jobs : list nat; h_jobHead : Z; h_channels : list channel; h_selectNext : Z;
  h_scheduler : option place; h_current : option nat
}.

(** The handler with the objects its pointers lead to and the program's memory. *)
Record world := World {
  handler : Handler;
  jobs : list job;
  waiters : list waiter;
  groups : list selectWait;
  bindings : list selectBinding;
  memory : gmap Z Z
}.

Definition New : world := World (MkHandler [] 0 [] 0 None None) [] [] [] [] ∅.

Abbreviation M := (GoM world).

(** * Reading and writing objects *)

Definition setHandler (f : Handler → Handler) : M unit :=
  modify (λ s, World (f (handler s)) (jobs s) (waiters s) (groups s) (bindings s) (memory s)).
Definition setJobObjects (f : list job → list job) : M unit :=
  modify (λ s, World (handler s) (f (jobs s)) (waiters s) (groups s) (bindings s) (memory s)).
Definition setWaiters (f : list waiter → list waiter) : M unit :=
  modify (λ s, World (handler s) (jobs s) (f (waiters s)) (groups s) (bindings s) (memory s)).
Definition setGroups (f : list selectWait → list selectWait) : M unit :=
  modify (λ s, World (handler s) (jobs s) (waiters s) (f (groups s)) (bindings s) (memory s)).
Definition setBindings (f : list selectBinding → list selectBinding) : M unit :=
  modify (λ s, World (handler s) (jobs s) (waiters s) (groups s) (f (bindings s)) (memory s)).
Definition setMemory (f : gmap Z Z → gmap Z Z) : M unit :=
  modify (λ s, World (handler s) (jobs s) (waiters s) (groups s) (bindings s) (f (memory s))).

Definition setJobs (queue : list nat) (head : Z) : M unit :=
  setHandler (λ h, MkHandler queue head (h_channels h) (h_selectNext h) (h_scheduler h)
    (h_current h)).
Definition setChannels (channels : list channel) : M unit :=
  setHandler (λ h, MkHandler (h_jobs h) (h_jobHead h) channels (h_selectNext h)
    (h_scheduler h) (h_current h)).
Definition setSelectNext (next : Z) : M unit :=
  setHandler (λ h, MkHandler (h_jobs h) (h_jobHead h) (h_channels h) next (h_scheduler h)
    (h_current h)).
Definition setControl (scheduler : option place) (current : option nat) : M unit :=
  setHandler (λ h, MkHandler (h_jobs h) (h_jobHead h) (h_channels h) (h_selectNext h)
    scheduler current).

Definition getJob (j : nat) : M job := s ← get; lift (jobs s !! j).
Definition getWaiter (w : nat) : M waiter := s ← get; lift (waiters s !! w).
Definition getGroup (g : nat) : M selectWait := s ← get; lift (groups s !! g).
Definition getBinding (b : nat) : M selectBinding := s ← get; lift (bindings s !! b).
Definition getChannel (c : nat) : M channel := s ← get; lift (h_channels (handler s) !! c).

Definition setJob (j : nat) (f : job → job) : M unit := setJobObjects (alter f j).
Definition setWaiter (w : nat) (f : waiter → waiter) : M unit := setWaiters (alter f w).
Definition setGroup (g : nat) (f : selectWait → selectWait) : M unit := setGroups (alter f g).
Definition setChannel (c : nat) (f : channel → channel) : M unit :=
  s ← get;
  setChannels (alter f c (h_channels (handler s))).

(** [&waiter{...}] and the other allocations answer the new object's index. *)
Definition newJob (x : job) : M nat :=
  s ← get; _ ← setJobObjects (λ l, l ++ [x]); mret (length (jobs s)).
Definition newWaiter (x : waiter) : M nat :=
  s ← get; _ ← setWaiters (λ l, l ++ [x]); mret (length (waiters s)).
Definition newGroup (x : selectWait) : M nat :=
  s ← get; _ ← setGroups (λ l, l ++ [x]); mret (length (groups s)).
Definition newBinding (x : selectBinding) : M nat :=
  s ← get; _ ← setBindings (λ l, l ++ [x]); mret (length (bindings s)).

(** The assignments to the fields of an object. *)
Definition withSenders (senders : list nat) (c : channel) : channel :=
  Channel (c_elementSize c) (c_capacity c) (c_closed c) (c_buffer c) (c_head c) (c_length c)
    senders (c_receivers c) (c_selects c).
Definition withReceivers (receivers : list nat) (c : channel) : channel :=
  Channel (c_elementSize c) (c_capacity c) (c_closed c) (c_buffer c) (c_head c) (c_length c)
    (c_senders c) receivers (c_selects c).
Definition withSelects (selects : list nat) (c : channel) : channel :=
  Channel (c_elementSize c) (c_capacity c) (c_closed c) (c_buffer c) (c_head c) (c_length c)
    (c_senders c) (c_receivers c) selects.
Definition withBuffer (buffer : list Z) (head length : Z) (c : channel) : channel :=
  Channel (c_elementSize c) (c_capacity c) (c_closed c) buffer head length
    (c_senders c) (c_receivers c) (c_selects c).
Definition withClosed (c : channel) : channel :=
  Channel (c_elementSize c) (c_capacity c) true (c_buffer c) (c_head c) (c_length c)
    (c_senders c) (c_receivers c) (c_selects c).
Definition withQueued (queued : bool) (j : job) : job :=
  Job (j_entry j) (j_context j) (j_sp j) (j_done j) queued.
Definition withStack (sp : place) (j : job) : job :=
  Job (j_entry j) (j_context j) (Some sp) (j_done j) (j_queued j).
Definition withJobDone (j : job) : job :=
  Job (j_entry j) (j_context j) (j_sp j) true (j_queued j).
Definition withOutcome (open : bool) (status : Z) (w : waiter) : waiter :=
  Waiter (w_value w) (w_target w) true open status (w_task w).
Definition withSelected (index status : Z) (g : selectWait) : selectWait :=
  SelectWait (g_bindings g) index status.

(** * Memory: copy_renvo.go *)

Definition byteAt (m : gmap Z Z) (a : Z) : Z := default 0 (m !! a).

(** [copyAddressToBytes]: what the loop puts into a slice of [n] bytes. *)
Definition copyAddressToBytes (m : gmap Z Z) (n : nat) (source : Z) : list Z :=
  (λ i, byteAt m (u64 (source + Z.of_nat i))) <$> seq 0 n.

Fixpoint copyBytesToAddress_loop (target i : Z) (source : list Z) (m : gmap Z Z) : gmap Z Z :=
  match source with
  | [] => m
  | x :: source =>
      copyBytesToAddress_loop target (i + 1) source (<[u64 (target + i) := x]> m)
  end.
Definition copyBytesToAddress (target : Z) (source : list Z) : M unit :=
  setMemory (copyBytesToAddress_loop target 0 source).

Fixpoint copyFromAddress_loop (n : nat) (target source i : Z) (m : gmap Z Z) : gmap Z Z :=
  match n with
  | O => m
  | S n =>
      copyFromAddress_loop n target source (i + 1)
        (<[u64 (target + i) := byteAt m (u64 (source + i))]> m)
  end.
Definition copyFromAddress (target source size : Z) : M unit :=
  setMemory (copyFromAddress_loop (Z.to_nat size) target source 0).

(** [make] panics when the size is negative. *)
Definition bytesFromAddress (address size : Z) : M (list Z) :=
  if size <? 0 then lift None
  else
    s ← get;
    mret (copyAddressToBytes (memory s) (Z.to_nat size) address).

(** A store through a pointer to a [bool]. *)
Definition storeBool (p : Z) (b : bool) : M unit :=
  setMemory <[p := if b then 1 else 0]>.

(** * The ring buffer of a channel *)

(** [copy(buffer[lo:hi], source)] *)
Definition copySlice (buffer : list Z) (lo hi : Z) (source : list Z) : option (list Z) :=
  slot ← sliceZ buffer lo hi;
  writeAll buffer lo (take (length slot) source).

Definition pushBuffer (ch : nat) (source : Z) : M unit :=
  c ← getChannel ch;
  if c_capacity c =? 0 then mret tt
  else
    let index := Z.rem (c_head c + c_length c) (c_capacity c) in
    s ← get;
    slot ← lift (sliceZ (c_buffer c) (index * c_elementSize c) ((index + 1) * c_elementSize c));
    buffer ← lift (writeAll (c_buffer c) (index * c_elementSize c)
      (copyAddressToBytes (memory s) (length slot) source));
    setChannel ch (withBuffer buffer (c_head c) (c_length c + 1)).

Definition popBuffer (ch : nat) (target : Z) : M unit :=
  c ← getChannel ch;
  if c_length c =? 0 then mret tt
  else
    slot ← lift (sliceZ (c_buffer c) (c_head c * c_elementSize c)
      ((c_head c + 1) * c_elementSize c));
    _ ← copyBytesToAddress target slot;
    setChannel ch (withBuffer (c_buffer c) (Z.rem (c_head c + 1) (c_capacity c))
      (c_length c - 1)).

(** * Waiting lists *)

Definition popWaiter (l : list nat) : option (nat * list nat) :=
  match l with
  | [] => None
  | value :: rest => Some (value, rest)
  end.

Fixpoint removeWaiter (l : list nat) (wanted : nat) : list nat :=
  match l with
  | [] => []
  | w :: l => if decide (w = wanted) then l else w :: removeWaiter l wanted
  end.

(** * Jobs *)

(** [nil] is [None]. *)
Definition enqueue (item : option nat) : M unit :=
  match item with
  | None => mret tt
  | Some j =>
      item ← getJob j;
      if j_done item || j_queued item then mret tt
      else
        _ ← setJob j (withQueued true);
        s ← get;
        setJobs (h_jobs (handler s) ++ [j]) (h_jobHead (handler s))
  end.

Definition Spawn (entry context : Z) : M unit :=
  j ← newJob (Job entry context None false false);
  enqueue (Some j).

Definition compactJobs : M unit :=
  s ← get;
  if negb (h_jobHead (handler s) =? lenZ (h_jobs (handler s))) then mret tt
  else setJobs [] 0.

(** The loop of [runOne] over finished jobs, on what is left of the queue. *)
Fixpoint skipDone (rest : list nat) : M unit :=
  match rest with
  | [] => mret tt
  | j :: rest =>
      item ← getJob j;
      if j_done item then
        s ← get;
        _ ← setJobs (h_jobs (handler s)) (h_jobHead (handler s) + 1);
        skipDone rest
      else mret tt
  end.

(** [runOne] up to the switch: the job it takes from the queue, if there is one. *)
Definition runOne_pick : M (option nat) :=
  s ← get;
  _ ← skipDone (drop (Z.to_nat (h_jobHead (handler s))) (h_jobs (handler s)));
  s ← get;
  if lenZ (h_jobs (handler s)) <=? h_jobHead (handler s) then
    _ ← compactJobs;
    mret None
  else
    item ← lift (h_jobs (handler s) !!z h_jobHead (handler s));
    _ ← setJobs (h_jobs (handler s)) (h_jobHead (handler s) + 1);
    _ ← setJob item (withQueued false);
    mret (Some item).

(** The switch of [runOne], called from the loop [from]: the scheduler's stack stops
    there and control goes to the place where the job's stack is stopped. *)
Definition runOne_switch (item : nat) (from : place) : M place :=
  j ← getJob item;
  _ ← (match j_sp j with
       | None => setJob item (withStack AtEntry)
       | Some _ => mret tt
       end);
  _ ← setControl (Some from) (Some item);
  j ← getJob item;
  lift (j_sp j).

(** [runOne] after the switch back. *)
Definition runOne_return : M unit :=
  s ← get;
  _ ← setControl (h_scheduler (handler s)) None;
  compactJobs.

Definition wake (wait : nat) : M unit :=
  w ← getWaiter wait;
  enqueue (w_task w).

(** * Select groups *)

Fixpoint findSelect (selects : list nat) (wait : nat) : M (option nat) :=
  match selects with
  | [] => mret None
  | binding :: rest =>
      b ← getBinding binding;
      if decide (b_wait b = wait) then mret (Some binding) else findSelect rest wait
  end.
Fixpoint findBinding (channels : list channel) (wait : nat) : M (option nat) :=
  match channels with
  | [] => mret None
  | c :: rest =>
      found ← findSelect (c_selects c) wait;
      match found with
      | Some binding => mret (Some binding)
      | None => findBinding rest wait
      end
  end.
(** The method [selectBinding]. *)
Definition selectBindingOf (wait : nat) : M (option nat) :=
  s ← get;
  findBinding (h_channels (handler s)) wait.

(** The inner loop of [removeSelectGroup], which runs from the end of the list. *)
Fixpoint removeGroupBindings (group : nat) (selects : list nat) : M (list nat) :=
  match selects with
  | [] => mret []
  | binding :: rest =>
      rest' ← removeGroupBindings group rest;
      b ← getBinding binding;
      if decide (b_group b = group) then mret rest' else mret (binding :: rest')
  end.
Fixpoint removeSelectGroup_loop (group channelIndex : nat) (channels : list channel) : M unit :=
  match channels with
  | [] => mret tt
  | c :: channels =>
      selects ← removeGroupBindings group (c_selects c);
      _ ← setChannel channelIndex (withSelects selects);
      removeSelectGroup_loop group (S channelIndex) channels
  end.
Definition removeSelectGroup (group : nat) : M unit :=
  s ← get;
  removeSelectGroup_loop group 0 (h_channels (handler s)).

(** The loop of [complete] over the bindings of the group; the cases of nil channels
    have none. *)
Fixpoint removeSiblings (binding : nat) (siblings : list (option nat)) : M unit :=
  match siblings with
  | [] => mret tt
  | None :: siblings => removeSiblings binding siblings
  | Some sibling :: siblings =>
      b ← getBinding sibling;
      w ← getWaiter (b_wait b);
      if bool_decide (sibling = binding) || w_done w then removeSiblings binding siblings
      else
        c ← getChannel (b_owner b);
        _ ← (if b_send b
             then setChannel (b_owner b) (withSenders (removeWaiter (c_senders c) (b_wait b)))
             else setChannel (b_owner b)
                    (withReceivers (removeWaiter (c_receivers c) (b_wait b))));
        _ ← setWaiter (b_wait b) (λ w, withOutcome (w_open w) (w_status w) w);
        removeSiblings binding siblings
  end.

Definition complete (wait : nat) (open : bool) (status : Z) : M bool :=
  w ← getWaiter wait;
  if w_done w then mret false
  else
    binding ← selectBindingOf wait;
    match binding with
    | None => mret false
    | Some binding =>
        b ← getBinding binding;
        group ← getGroup (b_group b);
        if 0 <=? g_selected group then mret false
        else
          _ ← setWaiter wait (withOutcome open status);
          _ ← setGroup (b_group b) (withSelected (b_index b) status);
          _ ← removeSiblings binding (g_bindings group);
          _ ← removeSelectGroup (b_group b);
          _ ← wake wait;
          mret true
    end.

(** * Channels *)

Definition ChanCreate (elementSize capacity : Z) : M Z :=
  if capacity <? 0 then mret 0
  else
    let elementSize := i64 elementSize in
    buffer ← (if (0 <? capacity) && (0 <? elementSize)
              then if i64 (capacity * elementSize) <? 0 then lift None
                   else mret (replicate (Z.to_nat (i64 (capacity * elementSize))) 0)
              else mret []);
    s ← get;
    let channels := h_channels (handler s) ++
      [Channel elementSize capacity false buffer 0 0 [] [] []] in
    _ ← setChannels channels;
    mret (u64 (lenZ channels)).

(** The method [channel]: the index of the object, [None] for nil. *)
Definition channelOf (handle : Z) : M (option nat) :=
  let index := i64 (i64 handle - 1) in
  s ← get;
  if (index <? 0) || (lenZ (h_channels (handler s)) <=? index) then mret None
  else mret (Some (Z.to_nat index)).

(** Taking the first waiter of a list of the channel. *)
Definition popSender (ch : nat) : M (option nat) :=
  c ← getChannel ch;
  match popWaiter (c_senders c) with
  | None => mret None
  | Some (sender, rest) => _ ← setChannel ch (withSenders rest); mret (Some sender)
  end.
Definition popReceiver (ch : nat) : M (option nat) :=
  c ← getChannel ch;
  match popWaiter (c_receivers c) with
  | None => mret None
  | Some (receiver, rest) => _ ← setChannel ch (withReceivers rest); mret (Some receiver)
  end.

(** The statement that every operation ends a waiting one with: through its select
    group, or directly. *)
Definition finish (wait : nat) (open : bool) (status : Z) (plain : waiter → waiter) : M unit :=
  w ← getWaiter wait;
  if w_status w =? selectPendingStatus then
    _ ← complete wait open status;
    mret tt
  else
    _ ← setWaiter wait plain;
    wake wait.
(** [receiver.open = open; receiver.done = true] *)
Definition doneReceiver (open : bool) (w : waiter) : waiter := withOutcome open (w_status w) w.
(** [sender.done = true] *)
Definition doneSender (w : waiter) : waiter := withOutcome (w_open w) (w_status w) w.
(** [wait.status = StatusClosed; wait.done = true] *)
Definition closedSender (w : waiter) : waiter := withOutcome (w_open w) StatusClosed w.

Definition fillBufferFromSender (ch : nat) : M unit :=
  c ← getChannel ch;
  if c_capacity c <=? c_length c then mret tt
  else
    sender ← popSender ch;
    match sender with
    | None => mret tt
    | Some sender =>
        c ← getChannel ch;
        w ← getWaiter sender;
        let index := Z.rem (c_head c + c_length c) (c_capacity c) in
        buffer ← lift (copySlice (c_buffer c) (index * c_elementSize c)
          ((index + 1) * c_elementSize c) (w_value w));
        _ ← setChannel ch (withBuffer buffer (c_head c) (c_length c + 1));
        finish sender false StatusOK doneSender
    end.

(** What a call gives back to the program, or where its stack stops. *)
Inductive reply :=
| ReplyNone
| ReplyHandle (handle : Z)
| ReplyStatus (status : Z)
| ReplyOpen (open : bool)
| ReplySelect (index status : Z)
| ReplyInt (n : Z).
Inductive outcome :=
| Returns (r : reply)
| Suspends (p : place).

Definition ChanSend (handle value : Z) : M outcome :=
  ch ← channelOf handle;
  match ch with
  | None => mret (Suspends AtForever)
  | Some ch =>
      c ← getChannel ch;
      if c_closed c then mret (Returns (ReplyStatus StatusClosed))
      else
        receiver ← popReceiver ch;
        match receiver with
        | Some receiver =>
            w ← getWaiter receiver;
            _ ← copyFromAddress (w_target w) value (c_elementSize c);
            _ ← finish receiver true StatusOK (doneReceiver true);
            mret (Returns (ReplyStatus StatusOK))
        | None =>
            if c_length c <? c_capacity c then
              _ ← pushBuffer ch value;
              mret (Returns (ReplyStatus StatusOK))
            else
              bytes ← bytesFromAddress value (c_elementSize c);
              s ← get;
              wait ← newWaiter (Waiter bytes 0 false false StatusOK (h_current (handler s)));
              c ← getChannel ch;
              _ ← setChannel ch (withSenders (c_senders c ++ [wait]));
              mret (Suspends (AtSend wait))
        end
  end.

Definition ChanReceive (handle target : Z) : M outcome :=
  ch ← channelOf handle;
  match ch with
  | None => mret (Suspends AtForever)
  | Some ch =>
      c ← getChannel ch;
      if 0 <? c_length c then
        _ ← popBuffer ch target;
        _ ← fillBufferFromSender ch;
        mret (Returns (ReplyOpen true))
      else
        sender ← popSender ch;
        match sender with
        | Some sender =>
            w ← getWaiter sender;
            _ ← copyBytesToAddress target (w_value w);
            _ ← finish sender false StatusOK doneSender;
            mret (Returns (ReplyOpen true))
        | None =>
            if c_closed c then mret (Returns (ReplyOpen false))
            else
              s ← get;
              wait ← newWaiter (Waiter [] target false false 0 (h_current (handler s)));
              c ← getChannel ch;
              _ ← setChannel ch (withReceivers (c_receivers c ++ [wait]));
              mret (Suspends (AtReceive wait))
        end
  end.

(** * Select *)

Definition selectReady (value : ChanSelectValue) : M bool :=
  ch ← channelOf (v_Channel value);
  match ch with
  | None => mret false
  | Some ch =>
      c ← getChannel ch;
      if v_Direction value =? SelectSend then
        mret (c_closed c || (0 <? lenZ (c_receivers c)) || (c_length c <? c_capacity c))
      else mret ((0 <? c_length c) || (0 <? lenZ (c_senders c)) || c_closed c)
  end.

(** The channel of a ready case is not nil; touching nil is a panic. *)
Definition selectApply (value : ChanSelectValue) : M Z :=
  ch ← channelOf (v_Channel value);
  ch ← lift ch;
  c ← getChannel ch;
  if v_Direction value =? SelectSend then
    if c_closed c then mret StatusClosed
    else
      receiver ← popReceiver ch;
      _ ← (match receiver with
           | Some receiver =>
               w ← getWaiter receiver;
               _ ← copyFromAddress (w_target w) (v_Value value) (c_elementSize c);
               finish receiver true StatusOK (doneReceiver true)
           | None => pushBuffer ch (v_Value value)
           end);
      mret StatusOK
  else
    open ← (if 0 <? c_length c then
              _ ← popBuffer ch (v_Value value);
              _ ← fillBufferFromSender ch;
              mret true
            else
              sender ← popSender ch;
              match sender with
              | Some sender =>
                  w ← getWaiter sender;
                  _ ← copyBytesToAddress (v_Value value) (w_value w);
                  _ ← finish sender false StatusOK doneSender;
                  mret true
              | None => mret false
              end);
    _ ← (if v_ReceiveOK value =? 0 then mret tt else storeBool (v_ReceiveOK value) open);
    mret StatusOK.

Fixpoint readyCases (i : Z) (cases : list ChanSelectValue) : M (list Z) :=
  match cases with
  | [] => mret []
  | value :: cases =>
      r ← selectReady value;
      ready ← readyCases (i + 1) cases;
      mret (if (r : bool) then i :: ready else ready)
  end.

(** The registration of a case by [waitSelect]; a nil channel has none. *)
Definition registerCase (group : nat) (i : Z) (value : ChanSelectValue) : M unit :=
  ch ← channelOf (v_Channel value);
  match ch with
  | None => mret tt
  | Some ch =>
      c ← getChannel ch;
      s ← get;
      let task := h_current (handler s) in
      binding ← (if v_Direction value =? SelectSend then
        bytes ← bytesFromAddress (v_Value value) (c_elementSize c);
        wait ← newWaiter (Waiter bytes 0 false false selectPendingStatus task);
        binding ← newBinding (SelectBinding wait group i ch true);
        _ ← setGroup group (λ g, SelectWait (<[Z.to_nat i := Some binding]> (g_bindings g))
          (g_selected g) (g_status g));
        _ ← setChannel ch (withSenders (c_senders c ++ [wait]));
        mret binding
      else
        wait ← newWaiter (Waiter [] (v_Value value) false false selectPendingStatus task);
        binding ← newBinding (SelectBinding wait group i ch false);
        _ ← setGroup group (λ g, SelectWait (<[Z.to_nat i := Some binding]> (g_bindings g))
          (g_selected g) (g_status g));
        _ ← setChannel ch (withReceivers (c_receivers c ++ [wait]));
        mret binding);
      setChannel ch (λ c, withSelects (c_selects c ++ [binding]) c)
  end.
Fixpoint registerCases (group : nat) (i : Z) (cases : list ChanSelectValue) : M unit :=
  match cases with
  | [] => mret tt
  | value :: cases => _ ← registerCase group i value; registerCases group (i + 1) cases
  end.

(** [waitSelect] up to its loop. *)
Definition waitSelect (cases : list ChanSelectValue) : M outcome :=
  group ← newGroup (SelectWait (replicate (length cases) None) (-1) 0);
  _ ← registerCases group 0 cases;
  mret (Suspends (AtSelect group cases)).

Definition ChanSelect (cases : list ChanSelectValue) (hasDefault : bool) : M outcome :=
  ready ← readyCases 0 cases;
  if 0 <? lenZ ready then
    s ← get;
    choice ← lift (ready !!z Z.rem (h_selectNext (handler s)) (lenZ ready));
    _ ← setSelectNext (h_selectNext (handler s) + 1);
    value ← lift (cases !!z choice);
    status ← selectApply value;
    mret (Returns (ReplySelect choice status))
  else if hasDefault then mret (Returns (ReplySelect (-1) StatusOK))
  else waitSelect cases.

(** * Closing *)

(** A loop that pops waiters runs at most once per waiter. *)
Fixpoint closeSenders (fuel : nat) (ch : nat) : M unit :=
  sender ← popSender ch;
  match sender, fuel with
  | None, _ => mret tt
  | Some _, O => lift None
  | Some wait, S fuel =>
      _ ← finish wait false StatusClosed closedSender;
      closeSenders fuel ch
  end.
Fixpoint closeBuffered (fuel : nat) (ch : nat) : M unit :=
  c ← getChannel ch;
  if negb ((0 <? lenZ (c_receivers c)) && (0 <? c_length c)) then mret tt
  else
    receiver ← popReceiver ch;
    match receiver, fuel with
    | None, _ | Some _, O => lift None
    | Some wait, S fuel =>
        w ← getWaiter wait;
        _ ← popBuffer ch (w_target w);
        _ ← finish wait true StatusOK (doneReceiver true);
        closeBuffered fuel ch
    end.
Fixpoint closeReceivers (fuel : nat) (ch : nat) : M unit :=
  receiver ← popReceiver ch;
  match receiver, fuel with
  | None, _ => mret tt
  | Some _, O => lift None
  | Some wait, S fuel =>
      _ ← finish wait false StatusOK (doneReceiver false);
      closeReceivers fuel ch
  end.

Definition ChanClose (handle : Z) : M Z :=
  ch ← channelOf handle;
  match ch with
  | None => mret StatusInvalid
  | Some ch =>
      c ← getChannel ch;
      if c_closed c then mret StatusClosed
      else
        _ ← setChannel ch withClosed;
        _ ← closeSenders (length (c_senders c)) ch;
        _ ← closeBuffered (length (c_receivers c)) ch;
        _ ← closeReceivers (length (c_receivers c)) ch;
        mret StatusOK
  end.

Definition ChanLen (handle : Z) : M Z :=
  ch ← channelOf handle;
  match ch with
  | None => mret 0
  | Some ch => c ← getChannel ch; mret (c_length c)
  end.

Definition ChanCap (handle : Z) : M Z :=
  ch ← channelOf handle;
  match ch with
  | None => mret 0
  | Some ch => c ← getChannel ch; mret (c_capacity c)
  end.

(** * Programs *)

(** The calls a program makes, and its writes to its own memory. *)
Inductive call :=
| CallSpawn (entry context : Z)
| CallChanCreate (elementSize capacity : Z)
| CallChanSend (handle value : Z)
| CallChanReceive (handle target : Z)
| CallChanSelect (cases : list ChanSelectValue) (hasDefault : bool)
| CallChanClose (handle : Z)
| CallChanLen (handle : Z)
| CallChanCap (handle : Z)
| CallDrain
| Store (address value : Z).

Definition returning {A} (f : A → reply) (c : M A) : M outcome := a ← c; mret (Returns (f a)).

Definition dispatch (o : call) : M outcome :=
  match o with
  | CallSpawn entry context => returning (λ _, ReplyNone) (Spawn entry context)
  | CallChanCreate elementSize capacity => returning ReplyHandle (ChanCreate elementSize capacity)
  | CallChanSend handle value => ChanSend handle value
  | CallChanReceive handle target => ChanReceive handle target
  | CallChanSelect cases hasDefault => ChanSelect cases hasDefault
  | CallChanClose handle => returning ReplyStatus (ChanClose handle)
  | CallChanLen handle => returning ReplyInt (ChanLen handle)
  | CallChanCap handle => returning ReplyInt (ChanCap handle)
  | CallDrain => mret (Suspends AtDrain)
  | Store a v => returning (λ _, ReplyNone) (setMemory <[a := v]>)
  end.

(** The condition of a waiting loop and what follows it: the result of the call, or
    [None] as long as the loop goes on. *)
Definition resume (p : place) : M (option reply) :=
  match p with
  | AtEntry => mret (Some ReplyNone)
  | AtDrain | AtForever => mret None
  | AtSend wait =>
      w ← getWaiter wait;
      mret (if w_done w then Some (ReplyStatus (w_status w)) else None)
  | AtReceive wait =>
      w ← getWaiter wait;
      mret (if w_done w then Some (ReplyOpen (w_open w)) else None)
  | AtSelect group cases =>
      g ← getGroup group;
      if g_selected g <? 0 then mret None
      else
        value ← lift (cases !!z g_selected g);
        binding ← lift (g_bindings g !!z g_selected g);
        binding ← lift binding;
        b ← getBinding binding;
        w ← getWaiter (b_wait b);
        _ ← (if (v_Direction value =? SelectReceive) && negb (v_ReceiveOK value =? 0)
             then storeBool (v_ReceiveOK value) (w_open w) else mret tt);
        mret (Some (ReplySelect (g_selected g) (g_status g)))
  end.

(** What runs: the program ([Calling], with the answer to its last call), which on the
    stack of a goroutine is that goroutine, or the loop of a place. *)
Inductive control :=
| Calling (r : reply)
| Looping (p : place).

Definition controlOf (o : outcome) : control :=
  match o with
  | Returns r => Calling r
  | Suspends p => Looping p
  end.

(** One look of a loop at its condition, and the switch it makes when it has to go on:
    a goroutine switches back to the scheduler's stack, whose loop goes on after
    [runOne]; the scheduler's stack runs the next job, and without one it leaves
    [Drain] or enters [blockForever].  [Drain] does not look at [h.current]: called on
    the stack of a goroutine it runs the next job too, and the switch stores that stack
    in [h.scheduler]. *)
Definition loopOnce (p : place) : M control :=
  r ← resume p;
  match r with
  | Some r => mret (Calling r)
  | None =>
      s ← get;
      match (match p with AtDrain => None | _ => h_current (handler s) end) with
      | Some j =>
          _ ← setJob j (withStack p);
          from ← lift (h_scheduler (handler s));
          _ ← runOne_return;
          mret (Looping from)
      | None =>
          item ← runOne_pick;
          match item with
          | Some item => to ← runOne_switch item p; mret (Looping to)
          | None => mret (match p with AtDrain => Calling ReplyNone | _ => Looping AtForever end)
          end
      end
  end.

(** The end of a goroutine: [StackInit]'s stack sets the flag [done] and switches back. *)
Definition exitJob : M control :=
  s ← get;
  j ← lift (h_current (handler s));
  _ ← setJob j withJobDone;
  from ← lift (h_scheduler (handler s));
  _ ← runOne_return;
  mret (Looping from).
