(* ===== verification/SerialSpec.v ===== *)
(** What the handler promises: channels as queues and a list of waiting operations.

    The state forgets everything that is only representation.  A channel is a list of
    values; the operations that wait, on whatever channel, are one list in the order
    in which they were registered; a select statement is its registrations, which are
    removed together; and an operation that was completed has an outcome.  A [party]
    is what completes as a whole: a plain send or receive, or a select statement.
    [spec_ok] is the invariant of this machine. *)

From stdpp Require Import gmap.
From S2P Require Import Prelude.
From S2P Require Import GoInt.
From S2P Require Import SerialModel.

(** A waiting operation: its waiter's name, its channel and direction, the value to
    send or the address to receive at, the job to wake (none for the main program), and
    for a case of a select statement the group, the index and the binding's name. *)
Record registration := Reg {
  r_wait : nat; r_chan : nat; r_send : bool; r_value : list Z; r_target : Z;
  r_task : option nat; r_case : option (nat * Z * nat)
}.

#[global] Instance registration_eq_dec : EqDecision registration.
Proof. solve_decision. Defined.

Definition party (r : registration) : nat + nat :=
  match r_case r with
  | Some (group, _, _) => inr group
  | None => inl (r_wait r)
  end.
Definition r_index (r : registration) : Z :=
  match r_case r with
  | Some (_, index, _) => index
  | None => 0
  end.

Record chan := Chan { a_size : Z; a_cap : Z; a_closed : bool; a_queue : list (list Z) }.

(** How a party was completed: the case, and the results [open] and [status]. *)
Record completion := Completion { o_index : Z; o_open : bool; o_status : Z }.

(** [s_ready]: the jobs that will run, in order.  The last three fields count the names
    of waiters, groups and bindings that are in use. *)
Record spec := Spec {
  s_chans : list chan; s_regs : list registration; s_out : gmap (nat + nat) completion;
  s_ready : list nat; s_next : Z; s_mem : gmap Z Z;
  s_waits : nat; s_groups : nat; s_binds : nat
}.

Definition spec0 : spec := Spec [] [] ∅ [] 0 ∅ 0 0 0.

Definition on (ch : nat) (send : bool) (r : registration) : Prop :=
  r_chan r = ch ∧ r_send r = send.
#[global] Instance on_dec ch send r : Decision (on ch send r).
Proof. unfold on. apply _. Defined.

(** The operations waiting on a channel, the oldest first. *)
Definition waitingOn (ch : nat) (send : bool) (regs : list registration) : list registration :=
  filter (on ch send) regs.

Definition put_chans (f : list chan → list chan) (s : spec) : spec :=
  Spec (f (s_chans s)) (s_regs s) (s_out s) (s_ready s) (s_next s) (s_mem s)
    (s_waits s) (s_groups s) (s_binds s).
Definition put_chan (ch : nat) (f : chan → chan) : spec → spec := put_chans (alter f ch).
Definition put_queue (ch : nat) (queue : list (list Z)) : spec → spec :=
  put_chan ch (λ a, Chan (a_size a) (a_cap a) (a_closed a) queue).
Definition put_mem (m : gmap Z Z) (s : spec) : spec :=
  Spec (s_chans s) (s_regs s) (s_out s) (s_ready s) (s_next s) m
    (s_waits s) (s_groups s) (s_binds s).
Definition put_ready (ready : list nat) (s : spec) : spec :=
  Spec (s_chans s) (s_regs s) (s_out s) ready (s_next s) (s_mem s)
    (s_waits s) (s_groups s) (s_binds s).
Definition put_next (next : Z) (s : spec) : spec :=
  Spec (s_chans s) (s_regs s) (s_out s) (s_ready s) next (s_mem s)
    (s_waits s) (s_groups s) (s_binds s).

(** A value arrives in memory. *)
Definition deliver (target : Z) (value : list Z) (s : spec) : spec :=
  put_mem (copyBytesToAddress_loop target 0 value (s_mem s)) s.

Definition awaken (task : option nat) (ready : list nat) : list nat :=
  match task with
  | Some j => if decide (j ∈ ready) then ready else ready ++ [j]
  | None => ready
  end.

(** The party of [r] completes through [r]: all its registrations go at once. *)
Definition settle (r : registration) (open : bool) (status : Z) (s : spec) : spec :=
  Spec (s_chans s) (filter (λ r', party r' ≠ party r) (s_regs s))
    (<[party r := Completion (r_index r) open status]> (s_out s))
    (awaken (r_task r) (s_ready s)) (s_next s) (s_mem s) (s_waits s) (s_groups s) (s_binds s).

Definition wait_plain (ch : nat) (send : bool) (value : list Z) (target : Z) (task : option nat)
    (s : spec) : spec :=
  Spec (s_chans s) (s_regs s ++ [Reg (s_waits s) ch send value target task None])
    (s_out s) (s_ready s) (s_next s) (s_mem s) (S (s_waits s)) (s_groups s) (s_binds s).

(** * Channel operations *)

Definition chanAt (handle : Z) (s : spec) : option nat :=
  let index := i64 (i64 handle - 1) in
  if (index <? 0) || (lenZ (s_chans s) <=? index) then None else Some (Z.to_nat index).

(** A send to an open channel that need not wait. *)
Definition spec_give (ch : nat) (value : list Z) (a : chan) (s : spec) : spec :=
  match waitingOn ch false (s_regs s) with
  | r :: _ => settle r true StatusOK (deliver (r_target r) value s)
  | [] => put_queue ch (a_queue a ++ [value]) s
  end.

Definition spec_send (task : option nat) (handle value : Z) (s : spec) : outcome * spec :=
  match chanAt handle s with
  | None => (Suspends AtForever, s)
  | Some ch =>
      match s_chans s !! ch with
      | None => (Suspends AtForever, s)
      | Some a =>
          let bytes := copyAddressToBytes (s_mem s) (Z.to_nat (a_size a)) value in
          if a_closed a then (Returns (ReplyStatus StatusClosed), s)
          else if bool_decide (waitingOn ch false (s_regs s) = []) && (a_cap a <=? lenZ (a_queue a))
          then (Suspends (AtSend (s_waits s)), wait_plain ch true bytes 0 task s)
          else (Returns (ReplyStatus StatusOK), spec_give ch bytes a s)
      end
  end.

(** A receive that need not wait: the oldest value, with the place it leaves in the
    queue taken by the oldest waiting sender; and whether there was one. *)
Definition spec_take (ch : nat) (target : Z) (a : chan) (s : spec) : bool * spec :=
  match a_queue a, waitingOn ch true (s_regs s) with
  | value :: queue, [] => (true, put_queue ch queue (deliver target value s))
  | value :: queue, r :: _ =>
      (true, settle r false StatusOK (put_queue ch (queue ++ [r_value r]) (deliver target value s)))
  | [], r :: _ => (true, settle r false StatusOK (deliver target (r_value r) s))
  | [], [] => (false, s)
  end.

Definition spec_receive (task : option nat) (handle target : Z) (s : spec) : outcome * spec :=
  match chanAt handle s with
  | None => (Suspends AtForever, s)
  | Some ch =>
      match s_chans s !! ch with
      | None => (Suspends AtForever, s)
      | Some a =>
          if bool_decide (a_queue a = []) && bool_decide (waitingOn ch true (s_regs s) = []) &&
             negb (a_closed a)
          then (Suspends (AtReceive (s_waits s)), wait_plain ch false [] target task s)
          else let '(open, s') := spec_take ch target a s in (Returns (ReplyOpen open), s')
      end
  end.

(** Completing every operation that waits on one side of a channel. *)
Fixpoint settleAll (fuel : nat) (ch : nat) (send open : bool) (status : Z) (s : spec) : spec :=
  match waitingOn ch send (s_regs s), fuel with
  | r :: _, S fuel => settleAll fuel ch send open status (settle r open status s)
  | _, _ => s
  end.

Definition spec_close (handle : Z) (s : spec) : Z * spec :=
  match chanAt handle s with
  | None => (StatusInvalid, s)
  | Some ch =>
      match s_chans s !! ch with
      | None => (StatusInvalid, s)
      | Some a =>
          if a_closed a then (StatusClosed, s)
          else
            let s1 := put_chan ch (λ a, Chan (a_size a) (a_cap a) true (a_queue a)) s in
            let s2 := settleAll (length (waitingOn ch true (s_regs s))) ch true false StatusClosed s1 in
            (StatusOK, settleAll (length (waitingOn ch false (s_regs s))) ch false false StatusOK s2)
      end
  end.

(** * Select *)

Definition spec_ready (value : ChanSelectValue) (s : spec) : bool :=
  match chanAt (v_Channel value) s with
  | None => false
  | Some ch =>
      match s_chans s !! ch with
      | None => false
      | Some a =>
          if v_Direction value =? SelectSend then
            a_closed a || negb (bool_decide (waitingOn ch false (s_regs s) = [])) ||
            (lenZ (a_queue a) <? a_cap a)
          else
            negb (bool_decide (a_queue a = [])) ||
            negb (bool_decide (waitingOn ch true (s_regs s) = [])) || a_closed a
      end
  end.

Fixpoint spec_readyCases (i : Z) (cases : list ChanSelectValue) (s : spec) : list Z :=
  match cases with
  | [] => []
  | value :: cases =>
      if spec_ready value s then i :: spec_readyCases (i + 1) cases s
      else spec_readyCases (i + 1) cases s
  end.

Definition spec_apply (value : ChanSelectValue) (s : spec) : Z * spec :=
  match chanAt (v_Channel value) s with
  | None => (StatusOK, s)
  | Some ch =>
      match s_chans s !! ch with
      | None => (StatusOK, s)
      | Some a =>
          if v_Direction value =? SelectSend then
            if a_closed a then (StatusClosed, s)
            else (StatusOK, spec_give ch
                    (copyAddressToBytes (s_mem s) (Z.to_nat (a_size a)) (v_Value value)) a s)
          else
            let '(open, s') := spec_take ch (v_Value value) a s in
            (StatusOK,
              if v_ReceiveOK value =? 0 then s'
              else put_mem (<[v_ReceiveOK value := if open then 1 else 0]> (s_mem s')) s')
      end
  end.

(** The registration of case [i] of the group. *)
Definition spec_register (task : option nat) (group : nat) (i : Z) (value : ChanSelectValue)
    (s : spec) : spec :=
  match chanAt (v_Channel value) s with
  | None => s
  | Some ch =>
      match s_chans s !! ch with
      | None => s
      | Some a =>
          let send := v_Direction value =? SelectSend in
          let bytes := if send
                       then copyAddressToBytes (s_mem s) (Z.to_nat (a_size a)) (v_Value value)
                       else [] in
          let target := if send then 0 else v_Value value in
          Spec (s_chans s)
            (s_regs s ++ [Reg (s_waits s) ch send bytes target task (Some (group, i, s_binds s))])
            (s_out s) (s_ready s) (s_next s) (s_mem s) (S (s_waits s)) (s_groups s) (S (s_binds s))
      end
  end.
Fixpoint spec_registerCases (task : option nat) (group : nat) (i : Z)
    (cases : list ChanSelectValue) (s : spec) : spec :=
  match cases with
  | [] => s
  | value :: cases => spec_registerCases task group (i + 1) cases (spec_register task group i value s)
  end.

Definition spec_select (task : option nat) (cases : list ChanSelectValue) (hasDefault : bool)
    (s : spec) : outcome * spec :=
  let ready := spec_readyCases 0 cases s in
  match ready !!z Z.rem (s_next s) (lenZ ready) with
  | Some choice =>
      match cases !!z choice with
      | Some value =>
          let '(status, s') := spec_apply value (put_next (s_next s + 1) s) in
          (Returns (ReplySelect choice status), s')
      | None => (Suspends AtForever, s)
      end
  | None =>
      if hasDefault then (Returns (ReplySelect (-1) StatusOK), s)
      else
        (Suspends (AtSelect (s_groups s) cases),
          spec_registerCases task (s_groups s) 0 cases
            (Spec (s_chans s) (s_regs s) (s_out s) (s_ready s) (s_next s) (s_mem s)
               (s_waits s) (S (s_groups s)) (s_binds s)))
  end.

Definition spec_create (elementSize capacity : Z) (s : spec) : Z * spec :=
  if capacity <? 0 then (0, s)
  else
    let s' := put_chans (λ l, l ++ [Chan elementSize capacity false []]) s in
    (u64 (lenZ (s_chans s')), s').

Definition spec_chan (f : chan → Z) (handle : Z) (s : spec) : Z :=
  match chanAt handle s with
  | None => 0
  | Some ch => match s_chans s !! ch with None => 0 | Some a => f a end
  end.

(** A call by the program that runs as [task]; [job] is the name of a job it spawns. *)
Definition spec_dispatch (task : option nat) (job : nat) (o : call) (s : spec) : outcome * spec :=
  match o with
  | CallSpawn _ _ => (Returns ReplyNone, put_ready (s_ready s ++ [job]) s)
  | CallChanCreate size capacity =>
      let '(handle, s') := spec_create size capacity s in (Returns (ReplyHandle handle), s')
  | CallChanSend handle value => spec_send task handle value s
  | CallChanReceive handle target => spec_receive task handle target s
  | CallChanSelect cases hasDefault => spec_select task cases hasDefault s
  | CallChanClose handle =>
      let '(status, s') := spec_close handle s in (Returns (ReplyStatus status), s')
  | CallChanLen handle => (Returns (ReplyInt (spec_chan (λ a, lenZ (a_queue a)) handle s)), s)
  | CallChanCap handle => (Returns (ReplyInt (spec_chan a_cap handle s)), s)
  | CallDrain => (Suspends AtDrain, s)
  | Store a v => (Returns ReplyNone, put_mem (<[a := v]> (s_mem s)) s)
  end.

(** * Programs *)

(** The party that waits in a place. *)
Definition party_of (p : place) : option (nat + nat) :=
  match p with
  | AtSend wait | AtReceive wait => Some (inl wait)
  | AtSelect group _ => Some (inr group)
  | AtEntry | AtDrain | AtForever => None
  end.

(** The direction of a plain operation. *)
Definition sending (p : place) : bool :=
  match p with
  | AtSend _ => true
  | _ => false
  end.

(** What a party finds when it is completed. *)
Definition reply_of (p : place) (o : completion) : reply :=
  match p with
  | AtSend _ => ReplyStatus (o_status o)
  | AtReceive _ => ReplyOpen (o_open o)
  | AtSelect _ _ => ReplySelect (o_index o) (o_status o)
  | AtEntry | AtDrain | AtForever => ReplyNone
  end.

(** A select statement stores the result [open] of the receive that completed it. *)
Definition store_open (p : place) (o : completion) (s : spec) : spec :=
  match p with
  | AtSelect _ cases =>
      match cases !!z o_index o with
      | Some v =>
          if (v_Direction v =? SelectReceive) && negb (v_ReceiveOK v =? 0)
          then put_mem (<[v_ReceiveOK v := if o_open o then 1 else 0]> (s_mem s)) s
          else s
      | None => s
      end
  | _ => s
  end.

(** A stopped program goes on when its party was completed; a goroutine may start at any
    time. *)
Definition spec_resume (p : place) (s : spec) : option reply * spec :=
  match party_of p with
  | None => (match p with AtEntry => Some ReplyNone | _ => None end, s)
  | Some q =>
      match s_out s !! q with
      | None => (None, s)
      | Some o => (Some (reply_of p o), store_open p o s)
      end
  end.

(** The program and its goroutines: what runs ([y_current], [None] is the main program),
    where the main program is stopped while a goroutine runs, and where the goroutines
    are; one that has not run yet has no entry. *)
Record system := System {
  y_spec : spec; y_control : control; y_current : option nat; y_scheduler : place;
  y_stacks : gmap nat place
}.

Definition system0 : system := System spec0 (Calling ReplyNone) None AtDrain ∅.

(** What happens in a step: the program calls the handler, a loop looks at its condition,
    a goroutine ends. *)
Inductive event :=
| EvCall (o : call)
| EvLoop
| EvExit.

Inductive run {A} (R : A → event → A → Prop) : A → list event → A → Prop :=
| run_nil x : run R x [] x
| run_cons x y z e tr : R x e y → run R y tr z → run R x (e :: tr) z.

(** Calls; a stopped program going on; a goroutine that has to wait; the main program
    waiting, which runs the goroutine that has been ready for the longest time; and when
    there is none; the end of a goroutine. *)
Inductive sys_step : system → event → system → Prop :=
| sys_call s r current scheduler stacks o job :
    stacks !! job = None → job ∉ s_ready s → current ≠ Some job →
    sys_step (System s (Calling r) current scheduler stacks) (EvCall o)
      (System (spec_dispatch current job o s).2 (controlOf (spec_dispatch current job o s).1)
         current scheduler stacks)
| sys_resume s p current scheduler stacks r s' :
    spec_resume p s = (Some r, s') →
    sys_step (System s (Looping p) current scheduler stacks) EvLoop
      (System s' (Calling r) current scheduler stacks)
| sys_yield s p j scheduler stacks :
    spec_resume p s = (None, s) →
    sys_step (System s (Looping p) (Some j) scheduler stacks) EvLoop
      (System s (Looping scheduler) None scheduler (<[j := p]> stacks))
| sys_run s p j ready scheduler stacks :
    spec_resume p s = (None, s) → s_ready s = j :: ready →
    sys_step (System s (Looping p) None scheduler stacks) EvLoop
      (System (put_ready ready s) (Looping (default AtEntry (stacks !! j))) (Some j) p stacks)
| sys_idle s p scheduler stacks :
    spec_resume p s = (None, s) → s_ready s = [] →
    sys_step (System s (Looping p) None scheduler stacks) EvLoop
      (System s (match p with AtDrain => Calling ReplyNone | _ => Looping AtForever end)
         None scheduler stacks)
| sys_exit s r j scheduler stacks :
    sys_step (System s (Calling r) (Some j) scheduler stacks) EvExit
      (System s (Looping scheduler) None scheduler stacks).
