(* ===== verification/SerialSpecFacts.v ===== *)
(** The invariant of the channel machine of SerialSpec, and that every call keeps it. *)

From stdpp Require Import gmap.
From S2P Require Import Prelude.
From S2P Require Import GoInt.
From S2P Require Import SerialModel.
From S2P Require Import SerialSpec.

(** A waiting operation has to wait: its channel is open, and full for a sender and empty
    for a receiver. *)
Definition waits_for (a : chan) (r : registration) : Prop :=
  a_closed a = false ∧
  (r_send r = true → lenZ (r_value r) = a_size a ∧ lenZ (a_queue a) = a_cap a) ∧
  (r_send r = false → a_queue a = []).

(** The names in a registration are in use, and its party is not complete. *)
Definition named (s : spec) (r : registration) : Prop :=
  (r_wait r < s_waits s)%nat ∧
  (∀ g i b, r_case r = Some (g, i, b) → (g < s_groups s)%nat ∧ (b < s_binds s)%nat).

Record reg_ok (s : spec) (r : registration) : Prop := {
  reg_named : named s r;
  reg_open : s_out s !! party r = None;
  reg_chan : ∃ a, s_chans s !! r_chan r = Some a ∧ waits_for a r
}.

Record chan_ok (a : chan) : Prop := {
  ok_size : 0 ≤ a_size a;
  ok_cap : 0 ≤ a_cap a;
  ok_length : lenZ (a_queue a) ≤ a_cap a;
  ok_values : Forall (λ v, lenZ v = a_size a) (a_queue a)
}.

(** A sender and a receiver wait on the same channel only if they are cases of the same
    select statement. *)
Definition no_match (regs : list registration) : Prop :=
  ∀ r r', r ∈ regs → r' ∈ regs → r_chan r = r_chan r' → r_send r = true → r_send r' = false →
    party r = party r'.

(** The cases of a select statement wake the same job. *)
Definition same_task (regs : list registration) : Prop :=
  ∀ r r', r ∈ regs → r' ∈ regs → party r = party r' → r_task r = r_task r'.

Definition used (s : spec) (p : nat + nat) : Prop :=
  match p with
  | inl wait => (wait < s_waits s)%nat
  | inr group => (group < s_groups s)%nat
  end.

Record spec_ok (s : spec) : Prop := {
  ok_regs : ∀ r, r ∈ s_regs s → reg_ok s r;
  ok_nodup : NoDup (r_wait <$> s_regs s);
  ok_match : no_match (s_regs s);
  ok_task : same_task (s_regs s);
  ok_chans : ∀ ch a, s_chans s !! ch = Some a → chan_ok a;
  ok_used : ∀ p o, s_out s !! p = Some o → used s p;
  ok_ready : NoDup (s_ready s);
  ok_next : 0 ≤ s_next s
}.

Lemma spec0_ok : spec_ok spec0.
Proof.
  split; simpl; try apply NoDup_nil_2; 
    [by intros r ?%elem_of_nil|by intros r r' ?%elem_of_nil|by intros r r' ?%elem_of_nil| | |lia].
  - intros ch a H. by rewrite lookup_nil in H.
  - intros p o H. by rewrite lookup_empty in H.
Qed.

Lemma lookupZ_nil {A} i : @nil A !!z i = None.
Proof. unfold lookupZ. by case_match. Qed.

(** * Lists of registrations *)

Lemma waitingOn_in ch send regs r :
  r ∈ waitingOn ch send regs ↔ (r_chan r = ch ∧ r_send r = send) ∧ r ∈ regs.
Proof. unfold waitingOn. by rewrite list_elem_of_filter. Qed.

Lemma waitingOn_head ch send regs r rest :
  waitingOn ch send regs = r :: rest → r ∈ regs ∧ r_chan r = ch ∧ r_send r = send.
Proof. intros H. assert (r ∈ waitingOn ch send regs) as Hr by (rewrite H; left).
  apply waitingOn_in in Hr. tauto. Qed.

Lemma waitingOn_nil ch send regs r :
  waitingOn ch send regs = [] → r ∈ regs → r_chan r = ch → r_send r ≠ send.
Proof.
  intros H Hr Hc Hs. assert (r ∈ waitingOn ch send regs) as Hi by (by apply waitingOn_in).
  rewrite H in Hi. by apply elem_of_nil in Hi.
Qed.

Lemma waitingOn_app ch send l1 l2 :
  waitingOn ch send (l1 ++ l2) = waitingOn ch send l1 ++ waitingOn ch send l2.
Proof. apply filter_app. Qed.

Lemma reg_eq s r r' :
  spec_ok s → r ∈ s_regs s → r' ∈ s_regs s → r_wait r = r_wait r' → r = r'.
Proof.
  intros Hok (i & Hi)%list_elem_of_lookup (k & Hk)%list_elem_of_lookup He.
  assert (i = k) as ->; [|congruence].
  eapply (NoDup_lookup (r_wait <$> s_regs s)); [apply Hok| |];
    rewrite list_lookup_fmap; [by rewrite Hi|rewrite Hk; simpl; congruence].
Qed.

Lemma party_inj_wait r r' : party r ≠ party r' → r_wait r = r_wait r' → r_case r = None → r_case r' ≠ None.
Proof. unfold party. intros Hp Hw H H'. rewrite H, H' in Hp. congruence. Qed.

Lemma nodup_filter (P : registration → Prop) `{!∀ r, Decision (P r)} regs :
  NoDup (r_wait <$> regs) → NoDup (r_wait <$> filter P regs).
Proof.
  intros Hnd. eapply sublist_NoDup; [exact Hnd|]. apply fmap_sublist, sublist_filter.
Qed.

Lemma awaken_nodup t ready : NoDup ready → NoDup (awaken t ready).
Proof.
  destruct t as [j|]; simpl; [|done]. case_decide; [done|]. intros. apply NoDup_app.
  split_and!; [done| |apply NoDup_singleton]. set_solver.
Qed.

Lemma awaken_in t j ready : j ∈ awaken t ready ↔ t = Some j ∨ j ∈ ready.
Proof.
  destruct t as [k|]; simpl; [|naive_solver]. case_decide; [naive_solver|].
  rewrite elem_of_app, list_elem_of_singleton. naive_solver.
Qed.

(** * Steps *)

(** Registrations may go and outcomes of others may come. *)
Lemma reg_ok_out s r p o :
  reg_ok s r → party r ≠ p →
  reg_ok (Spec (s_chans s) (s_regs s) (<[p := o]> (s_out s)) (s_ready s) (s_next s) (s_mem s)
    (s_waits s) (s_groups s) (s_binds s)) r.
Proof.
  intros [Hn Ho Hc] Hp. split; [done| |done]. simpl. by rewrite lookup_insert_ne.
Qed.

Lemma party_used s r : named s r → used s (party r).
Proof.
  intros [Hw Hc]. unfold party. destruct (r_case r) as [[[g i] b]|]; simpl; [|done].
  by destruct (Hc g i b).
Qed.

Lemma settle_ok r open status s : spec_ok s → r ∈ s_regs s → spec_ok (settle r open status s).
Proof.
  intros Hok Hr. pose proof (ok_regs _ Hok r Hr) as Hrr. split; simpl.
  - intros r' [Hp Hr']%list_elem_of_filter. pose proof (ok_regs _ Hok r' Hr') as H.
    by destruct (reg_ok_out s r' (party r) (Completion (r_index r) open status) H Hp).
  - by apply nodup_filter, Hok.
  - intros r1 r2 [_ H1]%list_elem_of_filter [_ H2]%list_elem_of_filter. by apply (ok_match _ Hok).
  - intros r1 r2 [_ H1]%list_elem_of_filter [_ H2]%list_elem_of_filter. by apply (ok_task _ Hok).
  - apply Hok.
  - intros p o. destruct (decide (p = party r)) as [->|Hne].
    + intros _. apply (party_used s), Hrr.
    + rewrite lookup_insert_ne by congruence. apply Hok.
  - apply awaken_nodup, Hok.
  - apply Hok.
Qed.

Lemma put_mem_ok m s : spec_ok s → spec_ok (put_mem m s).
Proof.
  intros [Hr Hn Hm Ht Hc Hu Hq Hx]. split; try done. intros r Hin. by destruct (Hr r Hin).
Qed.

Lemma put_next_ok n s : spec_ok s → 0 ≤ n → spec_ok (put_next n s).
Proof.
  intros [Hr Hn Hm Ht Hc Hu Hq Hx] ?. split; try done. intros r Hin. by destruct (Hr r Hin).
Qed.

Lemma put_ready_ok l s : spec_ok s → NoDup l → spec_ok (put_ready l s).
Proof.
  intros [Hr Hn Hm Ht Hc Hu Hq Hx] ?. split; try done. intros r Hin. by destruct (Hr r Hin).
Qed.

Lemma alter_chan_inv ch f s i a :
  s_chans (put_chan ch f s) !! i = Some a →
  (i = ch ∧ ∃ a0, s_chans s !! ch = Some a0 ∧ a = f a0) ∨ (i ≠ ch ∧ s_chans s !! i = Some a).
Proof.
  simpl. destruct (decide (i = ch)) as [->|Hne].
  - rewrite list_lookup_alter_eq. intros (a0 & H & ->)%fmap_Some. left. eauto.
  - rewrite list_lookup_alter_ne by done. auto.
Qed.

(** A channel that changes while the operations that wait on it still have to. *)
Lemma put_chan_ok ch f s a :
  spec_ok s → s_chans s !! ch = Some a → chan_ok (f a) →
  (∀ r, r ∈ s_regs s → r_chan r = ch → waits_for (f a) r) →
  spec_ok (put_chan ch f s).
Proof.
  intros Hok Ha Hf Hw. split; try apply Hok.
  - intros r Hr. destruct (ok_regs _ Hok r Hr) as [Hn Ho (a0 & Ha0 & Hw0)].
    split; [done..|]. simpl. destruct (decide (r_chan r = ch)) as [Hc|Hc].
    + exists (f a). rewrite Hc, list_lookup_alter_eq, Ha. auto.
    + exists a0. by rewrite list_lookup_alter_ne.
  - intros i a' [(-> & a0 & Ha0 & ->)|[? ?]]%alter_chan_inv; [|by apply (ok_chans _ Hok i)].
    by assert (a0 = a) as -> by congruence.
Qed.

Lemma put_queue_ok ch q s a :
  spec_ok s → s_chans s !! ch = Some a → lenZ q ≤ a_cap a → Forall (λ v, lenZ v = a_size a) q →
  (∀ r, r ∈ s_regs s → r_chan r = ch →
     (r_send r = true → lenZ q = a_cap a) ∧ (r_send r = false → q = [])) →
  spec_ok (put_queue ch q s).
Proof.
  intros Hok Ha Hl Hv Hw. pose proof (ok_chans _ Hok ch a Ha) as Hc.
  apply (put_chan_ok _ _ _ a); [done|done|split; simpl; try done; apply Hc|].
  intros r Hr Hch. destruct (Hw r Hr Hch) as [Hs Hn].
  destruct (ok_regs _ Hok r Hr) as [_ _ (a0 & Ha0 & Hw0)].
  assert (a0 = a) as -> by congruence. unfold waits_for in *. simpl. naive_solver.
Qed.

(** A new registration: for the next plain operation, or for a case of the last group. *)
Lemma register_ok r s n :
  spec_ok s → r_wait r = s_waits s → (s_groups s ≤ n)%nat →
  (∀ g i b, r_case r = Some (g, i, b) → (g < n)%nat ∧ b = s_binds s) →
  s_out s !! party r = None →
  (∃ a, s_chans s !! r_chan r = Some a ∧ waits_for a r) →
  (∀ r', r' ∈ s_regs s → r_chan r' = r_chan r → r_send r' ≠ r_send r → party r' = party r) →
  (∀ r', r' ∈ s_regs s → party r' = party r → r_task r' = r_task r) →
  spec_ok (Spec (s_chans s) (s_regs s ++ [r]) (s_out s) (s_ready s) (s_next s) (s_mem s)
    (S (s_waits s)) n (if r_case r is Some _ then S (s_binds s) else s_binds s)).
Proof.
  intros Hok Hw Hg Hc Ho Ha Hm Ht. split; simpl; try apply Hok.
  - intros r' [Hr'| ->%list_elem_of_singleton]%elem_of_app.
    + destruct (ok_regs _ Hok r' Hr') as [[Hw' Hc'] Ho' Ha']. split; [|done..]. split; simpl; [lia|].
      intros g i b Hcase. destruct (Hc' g i b Hcase). split; [lia|]. case_match; lia.
    + split; [|done..]. split; simpl; [lia|]. intros g i b Hcase. destruct (Hc g i b Hcase) as [? ->].
      rewrite Hcase. lia.
  - rewrite fmap_app. apply NoDup_app. split_and!; [apply Hok| |apply NoDup_singleton].
    intros w (r' & -> & Hr')%list_elem_of_fmap. simpl. rewrite list_elem_of_singleton.
    destruct (ok_regs _ Hok r' Hr') as [[? _] _ _]. lia.
  - intros r1 r2 [H1| ->%list_elem_of_singleton]%elem_of_app [H2| ->%list_elem_of_singleton]%elem_of_app;
      intros Hch Hs1 Hs2; [by apply (ok_match _ Hok)| | |congruence].
    + apply Hm; congruence.
    + symmetry. apply Hm; congruence.
  - intros r1 r2 [H1| ->%list_elem_of_singleton]%elem_of_app [H2| ->%list_elem_of_singleton]%elem_of_app
      Hp; [by apply (ok_task _ Hok)|by apply Ht|symmetry; by apply Ht|done].
  - intros p o Hp. pose proof (ok_used _ Hok p o Hp). destruct p; simpl in *; lia.
Qed.

(** * Operations *)

Lemma no_regs s ch a send :
  spec_ok s → s_chans s !! ch = Some a → waitingOn ch send (s_regs s) = [] →
  (if send then a_queue a ≠ [] else lenZ (a_queue a) < a_cap a) →
  ∀ r, r ∈ s_regs s → r_chan r ≠ ch.
Proof.
  intros Hok Ha Hw Hq r Hr <-. destruct (ok_regs _ Hok r Hr) as [_ _ (a0 & Ha0 & _ & Hs & Hn)].
  assert (a0 = a) as -> by congruence. pose proof (waitingOn_nil _ _ _ _ Hw Hr eq_refl).
  destruct send, (r_send r); try done; [by rewrite Hn in Hq|]. destruct (Hs eq_refl). lia.
Qed.

Lemma spec_give_ok ch v a s :
  spec_ok s → s_chans s !! ch = Some a → lenZ v = a_size a →
  (waitingOn ch false (s_regs s) = [] → lenZ (a_queue a) < a_cap a) →
  spec_ok (spec_give ch v a s).
Proof.
  intros Hok Ha Hv Hq. unfold spec_give. destruct (waitingOn _ _ _) as [|r rest] eqn:Hw.
  - pose proof (no_regs s ch a false Hok Ha Hw (Hq eq_refl)) as Hno. specialize (Hq eq_refl).
    destruct (ok_chans _ Hok ch a Ha). apply (put_queue_ok _ _ _ a); [done|done| | |].
    + rewrite lenZ_app, lenZ_cons, lenZ_nil. lia.
    + apply Forall_app. auto.
    + intros r Hr Hc. by destruct (Hno r Hr).
  - apply settle_ok; [by apply put_mem_ok|]. by apply waitingOn_head in Hw as [? _].
Qed.

Lemma spec_take_ok ch target a s :
  spec_ok s → s_chans s !! ch = Some a → spec_ok (spec_take ch target a s).2.
Proof.
  intros Hok Ha. pose proof (ok_chans _ Hok ch a Ha) as [_ _ Hl Hv]. unfold spec_take.
  destruct (a_queue a) as [|v q] eqn:Hq, (waitingOn _ _ _) as [|r rest] eqn:Hw; simpl; [done| | |].
  - apply settle_ok; [by apply put_mem_ok|]. by apply waitingOn_head in Hw as [? _].
  - assert (∀ r, r ∈ s_regs s → r_chan r ≠ ch) as Hno.
    { apply (no_regs s ch a true); [done..|]. by rewrite Hq. }
    rewrite lenZ_cons in Hl. inversion_clear Hv.
    apply (put_queue_ok _ _ _ a); simpl; [by apply put_mem_ok|done|lia|done|].
    intros r Hr Hc. by destruct (Hno r Hr).
  - apply waitingOn_head in Hw as (Hr & Hc & Hs). rewrite lenZ_cons in Hl. inversion_clear Hv.
    destruct (ok_regs _ Hok r Hr) as [_ _ (a0 & Ha0 & _ & Hs0 & _)].
    assert (a0 = a) as -> by congruence. destruct (Hs0 Hs) as [Hlen Hfull].
    rewrite Hq, lenZ_cons in Hfull. apply settle_ok; [|done].
    apply (put_queue_ok _ _ _ a); simpl; [by apply put_mem_ok|done| | |].
    + rewrite lenZ_app, lenZ_cons, lenZ_nil. lia.
    + apply Forall_app. auto.
    + intros r' Hr' Hc'. destruct (ok_regs _ Hok r' Hr') as [_ _ (a1 & Ha1 & _ & _ & Hn)].
      assert (a1 = a) as -> by congruence. rewrite Hq in Hn. split; [|naive_solver].
      intros _. rewrite lenZ_app, lenZ_cons, lenZ_nil. lia.
Qed.

Lemma waitingOn_settle ch send r open status s :
  waitingOn ch send (s_regs (settle r open status s)) =
  filter (λ r', party r' ≠ party r) (waitingOn ch send (s_regs s)).
Proof.
  simpl. unfold waitingOn. rewrite !list_filter_filter. apply list_filter_iff. intros. tauto.
Qed.

Lemma settleAll_ok fuel ch send open status s :
  spec_ok s → spec_ok (settleAll fuel ch send open status s).
Proof.
  revert s. induction fuel as [|fuel IH]; intros s Hok; simpl; destruct (waitingOn _ _ _) eqn:Hw; try done.
  apply IH, settle_ok; [done|]. by apply waitingOn_head in Hw as [? _].
Qed.

Lemma settleAll_regs fuel ch send open status s r :
  r ∈ s_regs (settleAll fuel ch send open status s) → r ∈ s_regs s.
Proof.
  revert s. induction fuel as [|fuel IH]; intros s; simpl; destruct (waitingOn _ _ _); try done.
  intros [_ ?]%IH%list_elem_of_filter. done.
Qed.

Lemma settleAll_length fuel ch send ch' send' open status s :
  (length (waitingOn ch send (s_regs (settleAll fuel ch' send' open status s))) ≤
   length (waitingOn ch send (s_regs s)))%nat.
Proof.
  revert s. induction fuel as [|fuel IH]; intros s; simpl; destruct (waitingOn ch' _ _); try done.
  etransitivity; [apply IH|]. rewrite waitingOn_settle. apply length_filter.
Qed.

Lemma settleAll_none fuel ch send open status s :
  (length (waitingOn ch send (s_regs s)) ≤ fuel)%nat →
  waitingOn ch send (s_regs (settleAll fuel ch send open status s)) = [].
Proof.
  revert s. induction fuel as [|fuel IH]; intros s Hf; simpl; destruct (waitingOn _ _ _) eqn:Hw;
    simpl in Hf; try done; [lia|].
  apply IH. rewrite waitingOn_settle, Hw, filter_cons_False by tauto.
  etransitivity; [apply length_filter|]. lia.
Qed.

Lemma settleAll_put_chan fuel ch send open status ch' f s :
  settleAll fuel ch send open status (put_chan ch' f s) =
  put_chan ch' f (settleAll fuel ch send open status s).
Proof.
  revert s. induction fuel as [|fuel IH]; intros s; simpl; destruct (waitingOn _ _ _); try done.
  change (settle _ _ _ (put_chan ch' f s)) with (put_chan ch' f (settle r open status s)). apply IH.
Qed.

(** After a close nothing waits on the channel. *)
Lemma settleAll_both ch o1 x1 o2 x2 s r :
  r ∈ s_regs (settleAll (length (waitingOn ch false (s_regs s))) ch false o2 x2
    (settleAll (length (waitingOn ch true (s_regs s))) ch true o1 x1 s)) → r_chan r ≠ ch.
Proof.
  intros Hr Hc. pose proof (settleAll_regs _ _ _ _ _ _ _ Hr) as Hr1.
  destruct (r_send r) eqn:Hs.
  - eapply (waitingOn_nil ch true); [|exact Hr1|done|done]. by apply settleAll_none.
  - eapply (waitingOn_nil ch false); [|exact Hr|done|done].
    apply settleAll_none, settleAll_length.
Qed.

Lemma settleAll_chans fuel ch send open status s :
  s_chans (settleAll fuel ch send open status s) = s_chans s.
Proof.
  revert s. induction fuel as [|fuel IH]; intros s; simpl; destruct (waitingOn _ _ _); try done.
  by rewrite IH.
Qed.

Lemma spec_close_ok handle s : spec_ok s → spec_ok (spec_close handle s).2.
Proof.
  intros Hok. unfold spec_close. destruct (chanAt handle s) as [ch|]; [|done].
  destruct (s_chans s !! ch) as [a|] eqn:Ha; [|done]. destruct (a_closed a); [done|]. simpl.
  rewrite !settleAll_put_chan. eapply (put_chan_ok _ _ _ a).
  - by do 2 apply settleAll_ok.
  - by rewrite !settleAll_chans.
  - destruct (ok_chans _ Hok ch a Ha). by split.
  - intros r Hr Hc. by apply settleAll_both in Hr.
Qed.

Lemma spec_create_ok size capacity s :
  spec_ok s → (0 ≤ capacity → 0 ≤ size) → spec_ok (spec_create size capacity s).2.
Proof.
  intros Hok Hs. unfold spec_create. destruct (Z.ltb_spec capacity 0); [done|].
  destruct Hok as [Hr Hn Hm Ht Hc Hu Hq Hx]. split; simpl; try done.
  - intros r Hin. destruct (Hr r Hin) as [Hnm Ho (a & Ha & Hw)]. split; [done..|]. simpl.
    exists a. split; [|done]. by apply lookup_app_l_Some.
  - intros ch a [Ha|[Hl Ha]]%lookup_app_Some; [by apply (Hc ch)|].
    apply list_lookup_singleton_Some in Ha as [_ <-]. split; simpl; [lia|done|by rewrite lenZ_nil|done].
Qed.

(** ** Waiting *)

Lemma wait_plain_ok ch (send : bool) value target task a s :
  spec_ok s → s_chans s !! ch = Some a → a_closed a = false →
  (if send then lenZ value = a_size a ∧ a_cap a ≤ lenZ (a_queue a) else a_queue a = []) →
  waitingOn ch (negb send) (s_regs s) = [] →
  spec_ok (wait_plain ch send value target task s).
Proof.
  intros Hok Ha Hc Hd Hw. destruct (ok_chans _ Hok ch a Ha).
  apply (register_ok (Reg (s_waits s) ch send value target task None) s (s_groups s)); try done.
  - unfold party. simpl. destruct (s_out s !! inl _) eqn:Ho; [|done].
    apply (ok_used _ Hok) in Ho. simpl in Ho. lia.
  - exists a. split; [done|]. split; [done|]. simpl. destruct send; [|done].
    split; [|done]. intros _. destruct Hd. split; [done|lia].
  - intros r' Hr' Hch Hs. simpl in *. eapply waitingOn_nil in Hw; [|done..].
    by destruct send, (r_send r').
  - intros r' Hr' Hp. destruct (ok_regs _ Hok r' Hr') as [[Hw' _] _ _]. unfold party in Hp. simpl in Hp.
    destruct (r_case r') as [[[g i] b]|]; [done|]. injection Hp. lia.
Qed.

(** A case that [waitSelect] registers: nothing on its channel can complete it, except
    cases of the same statement. *)
Definition case_waits (group : nat) (value : ChanSelectValue) (s : spec) : Prop :=
  ∀ ch a, chanAt (v_Channel value) s = Some ch → s_chans s !! ch = Some a →
    a_closed a = false ∧
    (if v_Direction value =? SelectSend then a_cap a ≤ lenZ (a_queue a) else a_queue a = []) ∧
    ∀ r, r ∈ s_regs s → r_chan r = ch → r_send r ≠ (v_Direction value =? SelectSend) →
      party r = inr group.

Lemma unready_waits group value s :
  spec_ready value s = false → case_waits group value s.
Proof.
  unfold spec_ready, case_waits. intros H ch a Hch Ha. rewrite Hch, Ha in H.
  destruct (v_Direction value =? SelectSend); rewrite !orb_false_iff in H.
  - destruct H as [[? Hw%negb_false_iff%bool_decide_eq_true] ?%Z.ltb_ge].
    split_and!; [done|lia|]. intros r Hr Hc Hs. eapply waitingOn_nil in Hw; [|done..].
    by destruct (r_send r).
  - destruct H as [[?%negb_false_iff%bool_decide_eq_true Hw%negb_false_iff%bool_decide_eq_true] ?].
    split_and!; [done|done|]. intros r Hr Hc Hs. eapply waitingOn_nil in Hw; [|done..].
    by destruct (r_send r).
Qed.

Lemma spec_register_groups task group i value s :
  s_groups (spec_register task group i value s) = s_groups s ∧
  s_out (spec_register task group i value s) = s_out s ∧
  s_chans (spec_register task group i value s) = s_chans s.
Proof.
  unfold spec_register. destruct (chanAt _ _) as [ch|]; [|done]. by destruct (s_chans s !! ch).
Qed.

Lemma spec_register_waits task group i value value' s :
  case_waits group value' s → case_waits group value' (spec_register task group i value s).
Proof.
  intros H. unfold spec_register. destruct (chanAt _ s) as [ch|] eqn:Hch; [|done].
  destruct (s_chans s !! ch) as [a|] eqn:Ha; [|done]. intros ch' a' Hch' Ha'. simpl in *.
  destruct (H ch' a' Hch' Ha') as (Hc & Hd & Hr). split_and!; [done..|].
  intros r [Hin| ->%list_elem_of_singleton]%elem_of_app; [by apply Hr|done].
Qed.

(** The cases registered so far wake [task]. *)
Definition cases_task (task : option nat) (group : nat) (s : spec) : Prop :=
  ∀ r, r ∈ s_regs s → party r = inr group → r_task r = task.

Lemma spec_register_task task group i value s :
  cases_task task group s → cases_task task group (spec_register task group i value s).
Proof.
  intros H. unfold spec_register. destruct (chanAt _ s) as [ch|]; [|done].
  destruct (s_chans s !! ch) as [a|]; [|done].
  intros r [Hin| ->%list_elem_of_singleton]%elem_of_app Hp; [by apply H|done].
Qed.

Lemma spec_register_ok task group i value s :
  spec_ok s → case_waits group value s → (group < s_groups s)%nat → s_out s !! inr group = None →
  cases_task task group s →
  spec_ok (spec_register task group i value s).
Proof.
  intros Hok Hcw Hg Ho Ht. unfold spec_register. destruct (chanAt _ s) as [ch|] eqn:Hch; [|done].
  destruct (s_chans s !! ch) as [a|] eqn:Ha; [|done].
  destruct (Hcw ch a Hch Ha) as (Hc & Hd & Hr). destruct (ok_chans _ Hok ch a Ha).
  eapply (register_ok (Reg (s_waits s) ch _ _ _ task (Some (group, i, s_binds s))) s (s_groups s));
    simpl; try done.
  - by intros g i' b [= <- <- <-].
  - exists a. split; [done|]. split; [done|]. simpl.
    destruct (v_Direction value =? SelectSend); [|done]. split; [|done]. intros _.
    unfold lenZ at 1. unfold copyAddressToBytes. rewrite length_fmap, length_seq. lia.
Qed.

Lemma spec_registerCases_ok task group i cases s :
  spec_ok s → Forall (λ v, case_waits group v s) cases →
  (group < s_groups s)%nat → s_out s !! inr group = None → cases_task task group s →
  spec_ok (spec_registerCases task group i cases s).
Proof.
  revert i s. induction cases as [|v cases IH]; intros i s Hok Hf Hg Ho Ht; simpl; [done|].
  inversion_clear Hf as [|?? Hv Hf']. pose proof (spec_register_groups task group i v s) as (E1 & E2 & E3).
  apply IH; 
    [by apply spec_register_ok| |by rewrite E1|by rewrite E2|by apply spec_register_task].
  eapply Forall_impl; [exact Hf'|]. intros. by apply spec_register_waits.
Qed.

(** ** Calls *)

Lemma readyCases_lookup i cases s k choice :
  spec_readyCases i cases s !!z k = Some choice →
  ∃ v, cases !!z (choice - i) = Some v ∧ spec_ready v s = true.
Proof.
  revert i k. induction cases as [|v cases IH]; intros i k H; simpl in H; [by rewrite lookupZ_nil in H|].
  assert (∀ k', spec_readyCases (i + 1) cases s !!z k' = Some choice →
    ∃ v', (v :: cases) !!z (choice - i) = Some v' ∧ spec_ready v' s = true) as Hrec.
  { intros k' (v' & Hv & Hr)%IH. exists v'. split; [|done].
    pose proof (lookupZ_lt_Some _ _ _ Hv). replace (choice - i) with (choice - (i + 1) + 1) by lia.
    by rewrite lookupZ_cons_succ by lia. }
  destruct (spec_ready v s) eqn:Hv; [|by eapply Hrec].
  destruct (decide (k = 0)) as [->|Hk].
  - injection H as <-. exists v. by rewrite Z.sub_diag.
  - pose proof (lookupZ_lt_Some _ _ _ H). replace k with (k - 1 + 1) in H by lia.
    rewrite lookupZ_cons_succ in H by lia. by eapply Hrec.
Qed.

Lemma readyCases_nil i cases s :
  spec_readyCases i cases s = [] → Forall (λ v, spec_ready v s = false) cases.
Proof.
  revert i. induction cases as [|v cases IH]; intros i H; simpl in H; [done|].
  destruct (spec_ready v s) eqn:Hv; [done|]. constructor; [done|]. by eapply IH.
Qed.

(** The choice of a select statement: one of the ready cases, when there is one. *)
Lemma choice_spec s (ready : list Z) :
  0 ≤ s → match ready !!z Z.rem s (lenZ ready) with Some _ => ready ≠ [] | None => ready = [] end.
Proof.
  intros Hs. destruct (ready !!z _) eqn:H; [by intros ->; rewrite lookupZ_nil in H|].
  apply lookupZ_None in H as [H|H].
  - destruct ready as [|x l]; [done|]. pose proof (lenZ_nonneg l). rewrite lenZ_cons in *.
    pose proof (Z.rem_nonneg s (1 + lenZ l)). lia.
  - destruct ready as [|x l]; [done|]. pose proof (lenZ_nonneg l). rewrite lenZ_cons in *.
    pose proof (Z.rem_bound_pos s (1 + lenZ l)). lia.
Qed.

Lemma spec_apply_ok value s : spec_ok s → spec_ready value s = true → spec_ok (spec_apply value s).2.
Proof.
  intros Hok Hr. unfold spec_ready in Hr. unfold spec_apply.
  destruct (chanAt _ s) as [ch|]; [|done]. destruct (s_chans s !! ch) as [a|] eqn:Ha; [|done].
  destruct (v_Direction value =? SelectSend).
  - destruct (a_closed a); [done|]. simpl. destruct (ok_chans _ Hok ch a Ha).
    apply spec_give_ok; [done|done| |].
    + unfold lenZ, copyAddressToBytes. rewrite length_fmap, length_seq. lia.
    + intros Hw. rewrite Hw, bool_decide_true in Hr by done. simpl in Hr. lia.
  - pose proof (spec_take_ok ch (v_Value value) a s Hok Ha) as Ht.
    destruct (spec_take _ _ _ _) as [open s']. simpl in *.
    case_match; [done|]. by apply put_mem_ok.
Qed.

Lemma spec_select_ok task cases hasDefault s :
  spec_ok s → spec_ok (spec_select task cases hasDefault s).2.
Proof.
  intros Hok. unfold spec_select. pose proof (choice_spec (s_next s) (spec_readyCases 0 cases s)) as Hch.
  destruct (_ !!z _) as [choice|] eqn:Hc.
  - destruct (readyCases_lookup _ _ _ _ _ Hc) as (v & Hv & Hr). rewrite Z.sub_0_r in Hv. rewrite Hv.
    pose proof (ok_next _ Hok).
    pose proof (spec_apply_ok v (put_next (s_next s + 1) s)) as Ha.
    destruct (spec_apply _ _). simpl in *. apply Ha; [|done]. by apply put_next_ok; [|lia].
  - destruct hasDefault; [done|]. simpl.
    set (s1 := Spec _ _ _ _ _ _ _ _ _).
    assert (spec_ok s1) as Hok1.
    { destruct Hok as [Hr Hn Hm Ht Hcs Hu Hq Hx]. split; try done.
      - intros r Hin. destruct (Hr r Hin) as [[Hw Hcase] ? ?]. split; [|done..]. split; [done|].
        intros g i b H. destruct (Hcase g i b H). simpl. lia.
      - intros p o Hp%Hu. destruct p; simpl in *; lia. }
    apply spec_registerCases_ok; [done| |simpl; lia| |].
    + specialize (Hch (ok_next _ Hok)). apply readyCases_nil in Hch.
      eapply Forall_impl; [exact Hch|]. intros v Hv. by apply unready_waits.
    + simpl. destruct (s_out s !! _) eqn:Ho; [|done]. apply (ok_used _ Hok) in Ho. simpl in Ho. lia.
    + intros r Hr Hp. simpl in Hr. destruct (ok_regs _ Hok r Hr) as [[_ Hn] _ _]. unfold party in Hp.
      destruct (r_case r) as [[[g i] b]|]; [|done]. destruct (Hn g i b eq_refl). injection Hp. lia.
Qed.

Lemma spec_send_ok task handle value s : spec_ok s → spec_ok (spec_send task handle value s).2.
Proof.
  intros Hok. unfold spec_send. destruct (chanAt _ s) as [ch|]; [|done].
  destruct (s_chans s !! ch) as [a|] eqn:Ha; [|done]. destruct (ok_chans _ Hok ch a Ha).
  assert (lenZ (copyAddressToBytes (s_mem s) (Z.to_nat (a_size a)) value) = a_size a) as Hlen.
  { unfold lenZ, copyAddressToBytes. rewrite length_fmap, length_seq. lia. }
  destruct (a_closed a) eqn:Hc; [done|]. case_bool_decide as Hw; simpl.
  - destruct (Z.leb_spec (a_cap a) (lenZ (a_queue a))); simpl.
    + by apply (wait_plain_ok _ _ _ _ _ a).
    + by apply spec_give_ok.
  - by apply spec_give_ok.
Qed.

Lemma spec_receive_ok task handle target s : spec_ok s → spec_ok (spec_receive task handle target s).2.
Proof.
  intros Hok. unfold spec_receive. destruct (chanAt _ s) as [ch|]; [|done].
  destruct (s_chans s !! ch) as [a|] eqn:Ha; [|done].
  destruct (bool_decide (a_queue a = []) && _ && _) eqn:Hb.
  - apply andb_true_iff in Hb as [[Hq%bool_decide_eq_true Hw%bool_decide_eq_true]%andb_true_iff
      Hc%negb_true_iff]. simpl. by apply (wait_plain_ok _ _ _ _ _ a).
  - pose proof (spec_take_ok ch target a s Hok Ha). by destruct (spec_take _ _ _ _).
Qed.

(** The size of a channel's buffer is a size. *)
Definition fits (o : call) : Prop :=
  match o with
  | CallChanCreate size capacity =>
      0 ≤ capacity → 0 ≤ size < 2 ^ 63 ∧ capacity * size < 2 ^ 63
  | _ => True
  end.

Lemma spec_dispatch_ok task job o s :
  spec_ok s → fits o → job ∉ s_ready s → spec_ok (spec_dispatch task job o s).2.
Proof.
  intros Hok Hf Hj. destruct o; simpl.
  - apply put_ready_ok; [done|]. apply NoDup_app. split_and!; [apply Hok| |apply NoDup_singleton].
    set_solver.
  - pose proof (spec_create_ok elementSize capacity s Hok) as H. destruct (spec_create _ _ _).
    apply H. simpl in Hf. lia.
  - by apply spec_send_ok.
  - by apply spec_receive_ok.
  - by apply spec_select_ok.
  - pose proof (spec_close_ok handle s Hok). by destruct (spec_close _ _).
  - done.
  - done.
  - done.
  - by apply put_mem_ok.
Qed.
