(* ===== verification/SerialRep.v ===== *)
(** The ring buffer of a channel as a queue of values: slot [i] of the buffer is the
    bytes from [i * size] up to [(i + 1) * size], and the queue is the slots from the
    head on, modulo the capacity.

    The representation of the channel machine by the handler and its objects, and the
    steps that change one object: memory, the ring buffers, the job queue. *)

From stdpp Require Import gmap.
From S2P Require Import Prelude.
From S2P Require Import GoInt.
From S2P Require Import SerialModel.
From S2P Require Import SerialSpec.
From S2P Require Import SerialSpecFacts.

Definition slot (buffer : list Z) (size i : Z) : list Z :=
  sublistZ buffer (i * size) ((i + 1) * size).

Record ring (size cap head : Z) (buffer : list Z) (q : list (list Z)) : Prop := {
  ring_head : 0 ≤ head ∧ (0 < cap → head < cap);
  ring_buffer : lenZ buffer = cap * size;
  ring_slots : ∀ k v, q !!z k = Some v → slot buffer size (Z.rem (head + k) cap) = v
}.

Section ring.
Context (size cap : Z) (Hsize : 0 ≤ size).

Lemma slot_range (i : Z) : 0 ≤ i < cap → 0 ≤ i * size ∧ i * size ≤ (i + 1) * size ≤ cap * size.
Proof using Hsize. nia. Qed.

Lemma rem_range head k : 0 ≤ head → 0 ≤ k → 0 < cap → 0 ≤ Z.rem (head + k) cap < cap.
Proof using Type. intros. apply Z.rem_bound_pos; lia. Qed.

Lemma rem_ne head k k' :
  0 ≤ head → 0 ≤ k < cap → 0 ≤ k' < cap → k ≠ k' → Z.rem (head + k) cap ≠ Z.rem (head + k') cap.
Proof using Type.
  intros ? ? ? Hne Heq. rewrite !Z.rem_mod_nonneg in Heq by lia.
  pose proof (Z.div_mod (head + k) cap). pose proof (Z.div_mod (head + k') cap).
  assert (cap * ((head + k) `div` cap - (head + k') `div` cap) = k - k') as He by lia.
  set (d := (head + k) `div` cap - (head + k') `div` cap) in *. clearbody d.
  assert (d = 0) as -> by nia. lia.
Qed.

(** Writing a slot changes that slot and no other. *)
Lemma slot_write buffer i v buffer' j :
  0 ≤ i < cap → 0 ≤ j < cap → lenZ v = size → lenZ buffer = cap * size →
  writeAll buffer (i * size) v = Some buffer' →
  slot buffer' size j = if decide (i = j) then v else slot buffer size j.
Proof using Hsize.
  intros Hi Hj Hv Hb Hw. unfold slot. case_decide as Hij.
  - subst j. replace ((i + 1) * size) with (i * size + lenZ v) by nia.
    eapply writeAll_slice; [nia|done].
  - apply lookupZ_ext. intros k. pose proof (writeAll_length _ _ _ _ Hw) as Hlen.
    destruct (decide (0 ≤ k < size)) as [Hk|Hk].
    + rewrite !sublistZ_lookup by nia. eapply writeAll_lookup_out; [done|].
      destruct (decide (i < j)); nia.
    + transitivity (@None Z); [|symmetry]; apply lookupZ_None;
        (rewrite sublistZ_length by nia); nia.
Qed.

Lemma ring_push head buffer q v :
  ring size cap head buffer q → lenZ q < cap → lenZ v = size →
  let lo := Z.rem (head + lenZ q) cap * size in
  let hi := (Z.rem (head + lenZ q) cap + 1) * size in
  ∃ old buffer', sliceZ buffer lo hi = Some old ∧ lenZ old = size ∧
    writeAll buffer lo v = Some buffer' ∧ ring size cap head buffer' (q ++ [v]).
Proof using Hsize.
  intros [[Hh Hhc] Hb Hs] Hq Hv. pose proof (lenZ_nonneg q).
  pose proof (rem_range head (lenZ q)) as Hi. set (i := Z.rem (head + lenZ q) cap) in *.
  assert (0 ≤ i < cap) as Hic by (apply Hi; lia). pose proof (slot_range i Hic) as [Hlo Hhi].
  destruct (writeAll_Some v buffer (i * size)) as [buffer' Hw]; [lia|nia|].
  exists (slot buffer size i), buffer'. split_and!.
  - apply sliceZ_Some; lia.
  - unfold slot. rewrite sublistZ_length by lia. lia.
  - done.
  - split; [done|by rewrite (writeAll_length _ _ _ _ Hw)|]. intros k x Hk.
    pose proof (lookupZ_lt_Some _ _ _ Hk) as Hlt. autorewrite with lenZ in Hlt.
    rewrite (slot_write _ _ _ _ _ Hic (rem_range head k Hh ltac:(lia) ltac:(lia)) Hv Hb Hw).
    destruct (decide (k = lenZ q)) as [->|Hne].
    + rewrite decide_True by done. rewrite lookupZ_app_r, Z.sub_diag in Hk by lia.
      by injection Hk.
    + rewrite decide_False by (apply rem_ne; lia). apply Hs.
      by rewrite lookupZ_app_l in Hk by lia.
Qed.

Lemma ring_pop head buffer q v :
  ring size cap head buffer (v :: q) → lenZ (v :: q) ≤ cap →
  sliceZ buffer (head * size) ((head + 1) * size) = Some v ∧
  ring size cap (Z.rem (head + 1) cap) buffer q.
Proof using Hsize.
  intros [[Hh Hc] Hb Hs] Hq. rewrite lenZ_cons in Hq. pose proof (lenZ_nonneg q).
  specialize (Hc ltac:(lia)). pose proof (slot_range head ltac:(lia)) as [Hlo Hhi]. split.
  - rewrite sliceZ_Some by lia. f_equal. specialize (Hs 0 v eq_refl).
    rewrite Z.add_0_r, Z.rem_small in Hs by lia. done.
  - pose proof (rem_range head 1 Hh ltac:(lia) ltac:(lia)). split; [lia|done|].
    intros k x Hk. pose proof (lookupZ_lt_Some _ _ _ Hk) as Hlt.
    rewrite <- (Hs (k + 1) x) by (by rewrite lookupZ_cons_succ by lia). f_equal.
    rewrite !Z.rem_mod_nonneg by lia. rewrite Zplus_mod_idemp_l. f_equal. lia.
Qed.

Lemma ring_new : 0 ≤ cap → ring size cap 0 (replicate (Z.to_nat (cap * size)) 0) [].
Proof using Hsize.
  intros Hc. split; [lia| |].
  - rewrite lenZ_replicate. nia.
  - intros k v Hk. apply lookupZ_lt_Some in Hk. autorewrite with lenZ in Hk. lia.
Qed.
End ring.

Definition r_binding (r : registration) : option nat := (λ x, x.2) <$> r_case r.

(** The waiter of a registration. *)
Definition waiter_of (r : registration) : waiter :=
  Waiter (r_value r) (r_target r) false false
    (match r_case r with Some _ => selectPendingStatus | None => StatusOK end) (r_task r).

(** A channel, with the operations of [q] in its queues and those of [sel] in its list
    of bindings. *)
Record chan_rep (q sel : list registration) (ch : nat) (c : channel) (a : chan) : Prop := {
  cr_size : c_elementSize c = a_size a;
  cr_cap : c_capacity c = a_cap a;
  cr_closed : c_closed c = a_closed a;
  cr_length : c_length c = lenZ (a_queue a);
  cr_ring : ring (a_size a) (a_cap a) (c_head c) (c_buffer c) (a_queue a);
  cr_senders : c_senders c = r_wait <$> waitingOn ch true q;
  cr_receivers : c_receivers c = r_wait <$> waitingOn ch false q;
  cr_selects : c_selects c = omap r_binding (filter (λ r, r_chan r = ch) sel)
}.

Definition chans_rep (q sel : list registration) (cs : list channel) (l : list chan) : Prop :=
  length cs = length l ∧
  ∀ ch c a, cs !! ch = Some c → l !! ch = Some a → chan_rep q sel ch c a.

Definition reg_rep (w : world) (r : registration) : Prop :=
  waiters w !! r_wait r = Some (waiter_of r) ∧
  ∀ g i b, r_case r = Some (g, i, b) →
    bindings w !! b = Some (SelectBinding (r_wait r) g i (r_chan r) (r_send r)) ∧
    ∃ G, groups w !! g = Some G ∧ g_bindings G !!z i = Some (Some b).

(** A select statement that no case has completed. *)
Definition group_rep (regs : list registration) (g : nat) (G : selectWait) : Prop :=
  g_selected G = -1 ∧
  ∀ i b, g_bindings G !!z i = Some (Some b) → ∃ r, r ∈ regs ∧ r_case r = Some (g, i, b).

Definition out_rep (w : world) (p : nat + nat) (o : completion) : Prop :=
  match p with
  | inl wait => ∃ x, waiters w !! wait = Some x ∧ w_done x = true ∧
      w_open x = o_open o ∧ w_status x = o_status o
  | inr g => ∃ G b B x, groups w !! g = Some G ∧ g_selected G = o_index o ∧ 0 ≤ o_index o ∧
      g_status G = o_status o ∧ g_bindings G !!z o_index o = Some (Some b) ∧
      bindings w !! b = Some B ∧ waiters w !! b_wait B = Some x ∧ w_done x = true ∧
      w_open x = o_open o
  end.

Definition live (js : list job) (j : nat) : Prop := ∃ x, js !! j = Some x ∧ j_done x = false.

(** The queue of jobs; everything that waits or runs is not finished. *)
Record jobs_rep (h : Handler) (js : list job) (regs : list registration) (ready : list nat) : Prop := {
  jr_head : 0 ≤ h_jobHead h ≤ lenZ (h_jobs h);
  jr_queue : drop (Z.to_nat (h_jobHead h)) (h_jobs h) = ready;
  jr_queued : ∀ j x, js !! j = Some x → j_queued x = bool_decide (j ∈ ready);
  jr_ready : ∀ j, j ∈ ready → live js j;
  jr_tasks : ∀ r j, r ∈ regs → r_task r = Some j → live js j;
  jr_current : ∀ j, h_current h = Some j → live js j
}.

(** Bindings never change: those of a group lead back to it, and the waiter of a binding
    has no other. *)
Record binds_rep (w : world) (regs : list registration) : Prop := {
  br_group : ∀ g G i b, groups w !! g = Some G → g_bindings G !!z i = Some (Some b) →
    ∃ x, bindings w !! b = Some x ∧ b_group x = g;
  br_waiter : ∀ b x, bindings w !! b = Some x → (b_wait x < length (waiters w))%nat;
  br_unique : ∀ b x r, bindings w !! b = Some x → r ∈ regs → r_wait r = b_wait x →
    r_binding r = Some b
}.

(** [q] is the list of waiting operations that are in the queues: all of them, but for
    the one that an operation has just taken out. *)
Record repq (q : list registration) (w : world) (s : spec) : Prop := {
  rep_chans : chans_rep q (s_regs s) (h_channels (handler w)) (s_chans s);
  rep_regs : ∀ r, r ∈ s_regs s → reg_rep w r;
  rep_out : ∀ p o, s_out s !! p = Some o → out_rep w p o;
  rep_groups : ∀ g G, groups w !! g = Some G → s_out s !! inr g = None → group_rep (s_regs s) g G;
  rep_static : binds_rep w (s_regs s);
  rep_jobs : jobs_rep (handler w) (jobs w) (s_regs s) (s_ready s);
  rep_next : h_selectNext (handler w) = s_next s;
  rep_mem : memory w = s_mem s;
  rep_waits : length (waiters w) = s_waits s;
  rep_ngroups : length (groups w) = s_groups s;
  rep_binds : length (bindings w) = s_binds s
}.

Definition rep (w : world) (s : spec) : Prop := repq (s_regs s) w s.

Lemma binds_rep_change w w' regs regs' :
  binds_rep w regs → bindings w' = bindings w → length (waiters w') = length (waiters w) →
  (∀ r, r ∈ regs' → r ∈ regs) →
  (∀ g G', groups w' !! g = Some G' → ∃ G, groups w !! g = Some G ∧ g_bindings G' = g_bindings G) →
  binds_rep w' regs'.
Proof.
  intros [H1 H2 H3] Hb Hw Hr Hg. split; rewrite Hb; [|by rewrite Hw|by eauto].
  intros g G' i b (G & HG & ->)%Hg. by apply H1.
Qed.

Definition without (wait : nat) (q : list registration) : list registration :=
  filter (λ r, r_wait r ≠ wait) q.

Lemma rep_New : rep New spec0.
Proof.
  split; simpl; try done.
  - intros r Hr. by apply elem_of_nil in Hr.
  - split; simpl; [unfold lenZ; simpl; lia|done|by intros j x ?|by intros j ?%elem_of_nil|
      by intros r j ?%elem_of_nil|done].
Qed.

(** * Channels *)

Lemma chans_lookup q sel cs l ch a :
  chans_rep q sel cs l → l !! ch = Some a → ∃ c, cs !! ch = Some c ∧ chan_rep q sel ch c a.
Proof.
  intros [Hl H] Ha. pose proof (lookup_lt_Some _ _ _ Ha). destruct (lookup_lt_is_Some_2 cs ch) as [c Hc]; [lia|].
  eauto.
Qed.

Lemma chans_alter q sel q' sel' cs l ch f g :
  chans_rep q sel cs l →
  (∀ c a, cs !! ch = Some c → l !! ch = Some a → chan_rep q sel ch c a →
     chan_rep q' sel' ch (f c) (g a)) →
  (∀ i c a, i ≠ ch → chan_rep q sel i c a → chan_rep q' sel' i c a) →
  chans_rep q' sel' (alter f ch cs) (alter g ch l).
Proof.
  intros [Hl H] Hch Hne. split; [by rewrite !length_alter|]. intros i c a.
  destruct (decide (i = ch)) as [->|Hi].
  - rewrite !list_lookup_alter_eq. intros (c0 & Hc & ->)%fmap_Some (a0 & Ha & ->)%fmap_Some. eauto.
  - rewrite !list_lookup_alter_ne by done. eauto.
Qed.

Lemma alter_self {A} (l : list A) i : alter id i l = l.
Proof. apply list_eq. intros k. destruct (decide (k = i)) as [->|].
  - rewrite list_lookup_alter_eq. by destruct (l !! i).
  - by rewrite list_lookup_alter_ne.
Qed.

(** Only the queues of [ch] change. *)
Lemma chans_alter_queue q sel q' cs l ch f :
  chans_rep q sel cs l →
  (∀ c a, cs !! ch = Some c → l !! ch = Some a → chan_rep q sel ch c a →
     chan_rep q' sel ch (f c) a) →
  (∀ i c a, i ≠ ch → chan_rep q sel i c a → chan_rep q' sel i c a) →
  chans_rep q' sel (alter f ch cs) l.
Proof. intros H Hch Hne. rewrite <- (alter_self l ch). by eapply chans_alter. Qed.

(** ** Taking one waiter out of the queues *)

Lemma waits_without n ch send q :
  r_wait <$> waitingOn ch send (without n q) =
  filter (λ x, x ≠ n) (r_wait <$> waitingOn ch send q).
Proof.
  unfold waitingOn, without. induction q as [|r q IH]; [done|].
  destruct (decide (r_wait r = n)), (decide (on ch send r));
    repeat first [rewrite filter_cons_True by (done || congruence)
                 |rewrite filter_cons_False by tauto|rewrite fmap_cons]; congruence.
Qed.

Lemma filter_absent (n : nat) (l : list nat) : n ∉ l → filter (λ x, x ≠ n) l = l.
Proof.
  induction l as [|x l IH]; intros H; [done|]. rewrite not_elem_of_cons in H.
  rewrite filter_cons_True by naive_solver. by rewrite IH by naive_solver.
Qed.

Lemma removeWaiter_filter n l : NoDup l → removeWaiter l n = filter (λ x, x ≠ n) l.
Proof.
  induction 1 as [|x l Hx Hl IH]; simpl; [done|]. case_decide as Hn.
  - subst x. rewrite filter_cons_False by tauto. by rewrite filter_absent.
  - by rewrite filter_cons_True, IH.
Qed.

(** A waiter's name is in at most one queue. *)
Lemma absent_elsewhere q r ch send :
  NoDup (r_wait <$> q) → r ∈ q → ¬ on ch send r → r_wait r ∉ r_wait <$> waitingOn ch send q.
Proof.
  intros Hnd Hr Hon (r' & He & [Hon' Hr']%list_elem_of_filter)%list_elem_of_fmap.
  apply list_elem_of_lookup in Hr as [i Hi]. apply list_elem_of_lookup in Hr' as [k Hk].
  assert (i = k) as ->.
  { apply (NoDup_lookup (r_wait <$> q) _ _ (r_wait r)); [done| |];
      rewrite list_lookup_fmap; [by rewrite Hi|rewrite Hk; simpl; congruence]. }
  congruence.
Qed.

Lemma chan_rep_without q sel ch c a r :
  NoDup (r_wait <$> q) → r ∈ q → r_chan r ≠ ch → chan_rep q sel ch c a →
  chan_rep (without (r_wait r) q) sel ch c a.
Proof.
  intros Hnd Hr Hc [H1 H2 H3 H4 H5 H6 H7 H8].
  assert (∀ send, ¬ on ch send r) as Hon by (intros send [? _]; done).
  split; try done; rewrite waits_without, filter_absent; try done; by apply absent_elsewhere.
Qed.

Lemma without_nodup n q : NoDup (r_wait <$> q) → NoDup (r_wait <$> without n q).
Proof. apply nodup_filter. Qed.

(** The queues of a channel after the removal of one waiter of it, whichever way it is
    written. *)
Lemma chan_rep_drop q sel c a r l :
  NoDup (r_wait <$> q) → r ∈ q → chan_rep q sel (r_chan r) c a →
  l = filter (λ x, x ≠ r_wait r) (if r_send r then c_senders c else c_receivers c) →
  chan_rep (without (r_wait r) q) sel (r_chan r)
    (if r_send r then withSenders l c else withReceivers l c) a.
Proof.
  intros Hnd Hr [H1 H2 H3 H4 H5 H6 H7 H8] ->.
  assert (¬ on (r_chan r) (negb (r_send r)) r) as Hon by (intros [_ ?]; by destruct (r_send r)).
  pose proof (absent_elsewhere _ _ _ _ Hnd Hr Hon) as Habs.
  destruct (r_send r); split; simpl; try done; rewrite waits_without; try congruence.
  - by rewrite filter_absent.
  - by rewrite filter_absent.
Qed.

(** * Memory *)

(** The byte loop reads no source byte that it has overwritten. *)
Definition apart (target source : Z) (n : nat) : Prop :=
  ∀ i k : Z, 0 ≤ i < k → k < Z.of_nat n → u64 (target + i) ≠ u64 (source + k).

Lemma copyFromAddress_deliver_from n target source m i :
  0 ≤ i → apart target source (Z.to_nat i + n) →
  copyFromAddress_loop n target source i m =
  copyBytesToAddress_loop target i
    ((λ k, byteAt m (u64 (source + Z.of_nat k))) <$> seq (Z.to_nat i) n) m.
Proof.
  revert i m. induction n as [|n IH]; intros i m Hi Ha; simpl; [done|].
  rewrite IH; [|lia|by replace (Z.to_nat (i + 1) + n)%nat with (Z.to_nat i + S n)%nat by lia].
  replace (Z.to_nat (i + 1)) with (S (Z.to_nat i)) by lia.
  rewrite Z2Nat.id by done. f_equal. apply list_fmap_ext. intros p k Hp. simpl.
  apply lookup_seq in Hp as [-> Hp]. unfold byteAt. rewrite lookup_insert_ne; [done|].
  apply Ha; lia.
Qed.

Lemma copyFromAddress_deliver n target source m :
  apart target source n →
  copyFromAddress_loop n target source 0 m =
  copyBytesToAddress_loop target 0 (copyAddressToBytes m n source) m.
Proof. intros. by apply copyFromAddress_deliver_from. Qed.

Lemma copyAddressToBytes_length m n source : length (copyAddressToBytes m n source) = n.
Proof. unfold copyAddressToBytes. by rewrite length_fmap, length_seq. Qed.

Lemma repq_mem q m w s :
  repq q w s →
  repq q (World (handler w) (jobs w) (waiters w) (groups w) (bindings w) m) (put_mem m s).
Proof. intros [? ? ? ? []]. by split. Qed.

(** * Jobs *)

Definition with_jobs (queue : list nat) (head : Z) (js : list job) (w : world) : world :=
  World (MkHandler queue head (h_channels (handler w)) (h_selectNext (handler w))
      (h_scheduler (handler w)) (h_current (handler w)))
    js (waiters w) (groups w) (bindings w) (memory w).

Lemma live_alter js j k f :
  (∀ x, j_done (f x) = j_done x) → live js j → live (alter f k js) j.
Proof.
  intros Hf (x & Hx & Hd). unfold live. destruct (decide (j = k)) as [->|].
  - rewrite list_lookup_alter_eq, Hx. eexists. split; [done|]. by rewrite Hf.
  - rewrite list_lookup_alter_ne by done. eauto.
Qed.

(** The jobs of [js'] are those of [js], and no fewer are in the queue. *)
Definition jobs_same (js js' : list job) : Prop :=
  length js' = length js ∧
  ∀ j x', js' !! j = Some x' →
    ∃ x, js !! j = Some x ∧ j_sp x' = j_sp x ∧ j_done x' = j_done x ∧
      (j_queued x = true → j_queued x' = true).

Lemma enqueue_wp t regs ready w Q :
  jobs_rep (handler w) (jobs w) regs ready → (∀ j, t = Some j → live (jobs w) j) →
  (∀ queue js, let w' := with_jobs queue (h_jobHead (handler w)) js w in
     jobs_rep (handler w') js regs (awaken t ready) →
     jobs_same (jobs w) js →
     Q tt w') →
  wp False (enqueue t) Q w.
Proof.
  intros J Ht HQ.
  assert (jobs_same (jobs w) (jobs w)) as Hrefl by (split; [done|]; intros j x ?; by exists x).
  assert (with_jobs (h_jobs (handler w)) (h_jobHead (handler w)) (jobs w) w = w) as Hsame
    by (by destruct w as [[] ????]).
  destruct t as [j|]; simpl.
  2: { apply wp_ret. rewrite <- Hsame. by apply HQ; simpl; [destruct J|]. }
  destruct (Ht j eq_refl) as (x & Hx & Hd). unfold getJob, setJob, setJobs, setJobObjects, setHandler.
  repeat wp_step. eapply wp_lift; [done|]. rewrite Hd, (jr_queued _ _ _ _ J _ _ Hx). simpl.
  case_bool_decide as Hj; repeat wp_step; simpl in *.
  - rewrite <- Hsame. apply HQ; simpl; [|done]. rewrite decide_True by done. by destruct J.
  - apply HQ; simpl.
    + rewrite decide_False by done. destruct J as [Hh Hq Hqd Hr Hts Hc]. split; simpl.
      * rewrite lenZ_app. pose proof (lenZ_nonneg [j]). lia.
      * rewrite drop_app_le by (unfold lenZ in Hh; lia). by rewrite Hq.
      * intros k y. destruct (decide (k = j)) as [->|Hk].
        -- rewrite list_lookup_alter_eq, Hx. intros [= <-]. simpl. symmetry. apply bool_decide_eq_true.
           set_solver.
        -- rewrite list_lookup_alter_ne by done. intros Hy. rewrite (Hqd _ _ Hy).
           apply bool_decide_ext. set_solver.
      * intros k [Hk|Hk%list_elem_of_singleton]%elem_of_app; apply live_alter; try done; [by apply Hr|].
        subst k. by apply Ht.
      * intros r k Hin Hk. apply live_alter; [done|]. by eapply Hts.
      * intros k Hk. apply live_alter; [done|]. by apply Hc.
    + split; [by rewrite length_alter|]. intros k x'. destruct (decide (k = j)) as [->|Hk].
      * rewrite list_lookup_alter_eq, Hx. intros [= <-]. by exists x.
      * rewrite list_lookup_alter_ne by done. intros ?. by exists x'.
Qed.

(** * Channel operations that leave the waiters alone *)

Definition with_channels (cs : list channel) (w : world) : world :=
  World (MkHandler (h_jobs (handler w)) (h_jobHead (handler w)) cs (h_selectNext (handler w))
      (h_scheduler (handler w)) (h_current (handler w)))
    (jobs w) (waiters w) (groups w) (bindings w) (memory w).

(** What a channel operation leaves alone: the control of the scheduler and the stacks
    of the jobs; a new job has no stack and is in the queue. *)
Record frame (w w' : world) : Prop := {
  fr_current : h_current (handler w') = h_current (handler w);
  fr_scheduler : h_scheduler (handler w') = h_scheduler (handler w);
  fr_length : (length (jobs w) ≤ length (jobs w'))%nat;
  fr_jobs : ∀ j x', jobs w' !! j = Some x' →
    (∃ x, jobs w !! j = Some x ∧ j_sp x' = j_sp x ∧ j_done x' = j_done x ∧
       (j_queued x = true → j_queued x' = true)) ∨
    (jobs w !! j = None ∧ j_sp x' = None ∧ j_queued x' = true);
  fr_groups : ∀ g G, groups w !! g = Some G →
    ∃ G', groups w' !! g = Some G' ∧ length (g_bindings G') = length (g_bindings G)
}.

#[global] Instance frame_preorder : PreOrder frame.
Proof.
  split.
  - intros w. split; [done..| |]; [|by intros g G H; exists G]. intros j x' H. left. by exists x'.
  - intros w1 w2 w3 [Hc1 Hs1 Hl1 Hj1 Hg1] [Hc2 Hs2 Hl2 Hj2 Hg2]. split; [by rewrite Hc2|by rewrite Hs2|lia| |].
    + intros j x3 H3. destruct (Hj2 j x3 H3) as [(x2 & H2 & E1 & E2 & E3)|(H2 & E1 & E2)].
      * destruct (Hj1 j x2 H2) as [(x1 & H1 & F1 & F2 & F3)|(H1 & F1 & F2)].
        -- left. exists x1. split_and!; [done|by rewrite E1|by rewrite E2|auto].
        -- right. split_and!; [done|by rewrite E1|auto].
      * right. split_and!; [|done..]. apply lookup_ge_None_2. apply lookup_ge_None_1 in H2. lia.
    + intros g G (G2 & H2 & E2)%Hg1. destruct (Hg2 _ _ H2) as (G3 & H3 & E3).
      exists G3. split; [done|by rewrite E3].
Qed.

Lemma frame_same w w' :
  handler w' = handler (with_channels (h_channels (handler w')) w) → jobs w' = jobs w →
  groups w' = groups w → frame w w'.
Proof.
  intros Hh Hj Hg. split; [by rewrite Hh|by rewrite Hh|by rewrite Hj|rewrite Hj|rewrite Hg].
  - intros j x' H. left. by exists x'.
  - intros g G H. by exists G.
Qed.

Lemma frame_channels cs w : frame w (with_channels cs w).
Proof. by apply frame_same. Qed.

Lemma frame_memory w m :
  frame w (World (handler w) (jobs w) (waiters w) (groups w) (bindings w) m).
Proof. apply frame_same; [by destruct w as [[] ????]|done..]. Qed.

Lemma jobs_rep_channels w cs regs ready :
  jobs_rep (handler w) (jobs w) regs ready → jobs_rep (handler (with_channels cs w)) (jobs w) regs ready.
Proof. intros []. by split. Qed.

Lemma repq_channels q q' w s cs f :
  repq q w s → chans_rep q' (s_regs s) cs (f (s_chans s)) →
  repq q' (with_channels cs w) (put_chans f s).
Proof.
  intros [? ? ? ? []] Hc. split; try done. by apply (jobs_rep_channels w cs).
Qed.

Lemma repq_queues q q' w s cs :
  repq q w s → chans_rep q' (s_regs s) cs (s_chans s) → repq q' (with_channels cs w) s.
Proof.
  intros [? ? ? ? []] Hc. split; try done. by apply (jobs_rep_channels w cs).
Qed.

Lemma chan_rep_buffer q sel ch c a buffer head l :
  chan_rep q sel ch c a → ring (a_size a) (a_cap a) head buffer l →
  chan_rep q sel ch (withBuffer buffer head (lenZ l) c) (Chan (a_size a) (a_cap a) (a_closed a) l).
Proof. intros [] Hr. by split. Qed.

Lemma repq_buffer q w s ch a c buffer head l :
  repq q w s → s_chans s !! ch = Some a → h_channels (handler w) !! ch = Some c →
  ring (a_size a) (a_cap a) head buffer l →
  repq q (with_channels (alter (withBuffer buffer head (lenZ l)) ch (h_channels (handler w))) w)
    (put_queue ch l s).
Proof.
  intros R Ha Hc Hring. apply (repq_channels q); [done|].
  eapply chans_alter; [by apply R| |done]. intros c' a' Hc' Ha' Hcr.
  assert (c' = c) as -> by congruence. assert (a' = a) as -> by congruence.
  by apply chan_rep_buffer.
Qed.

Lemma setChannel_wp ch f w (Q : unit → world → Prop) :
  Q tt (with_channels (alter f ch (h_channels (handler w))) w) → wp False (setChannel ch f) Q w.
Proof. intros HQ. by unfold setChannel, setChannels, setHandler; repeat wp_step. Qed.

Section channel_ops.
Context (q : list registration) (w : world) (s : spec) (ch : nat) (a : chan).
Context (R : repq q w s) (Ha : s_chans s !! ch = Some a) (Hca : chan_ok a).

Lemma getChannel_wp Q :
  (∀ c, h_channels (handler w) !! ch = Some c → chan_rep q (s_regs s) ch c a → Q c w) →
  wp False (getChannel ch) Q w.
Proof using R Ha.
  intros HQ. destruct (chans_lookup _ _ _ _ _ _ (rep_chans _ _ _ R) Ha) as (c & Hc & Hcr).
  unfold getChannel. repeat wp_step. eapply wp_lift; [done|]. by apply HQ.
Qed.

Lemma pushBuffer_wp source Q :
  lenZ (a_queue a) < a_cap a →
  (∀ w', repq q w' (put_queue ch (a_queue a ++
       [copyAddressToBytes (s_mem s) (Z.to_nat (a_size a)) source]) s) →
     frame w w' → Q tt w') →
  wp False (pushBuffer ch source) Q w.
Proof using R Ha Hca.
  intros Hlen HQ. unfold pushBuffer. apply wp_bind, getChannel_wp. intros c Hc Hcr.
  pose proof (lenZ_nonneg (a_queue a)). destruct Hca as [Hs _ _ _]. pose proof Hcr as [-> -> _ -> Hring _ _ _].
  rewrite (proj2 (Z.eqb_neq _ _)) by lia.
  set (v := copyAddressToBytes (s_mem s) (Z.to_nat (a_size a)) source) in *.
  destruct (ring_push _ _ Hs _ _ _ v Hring Hlen) as (old & buffer & Hold & Holdl & Hw & Hring').
  { unfold v, lenZ. rewrite copyAddressToBytes_length. lia. }
  apply wp_bind, wp_get, wp_bind. eapply wp_lift; [done|]. apply wp_bind.
  rewrite (rep_mem _ _ _ R). replace (length old) with (Z.to_nat (a_size a)) by (unfold lenZ in Holdl; lia).
  eapply wp_lift; [done|]. apply setChannel_wp. apply HQ; [|apply frame_channels].
  pose proof (repq_buffer q w s ch a c buffer (c_head c) _ R Ha Hc Hring') as R'.
  by rewrite lenZ_app in R'.
Qed.

Lemma popBuffer_wp target v l Q :
  a_queue a = v :: l →
  (∀ w', repq q w' (put_queue ch l (deliver target v s)) →
     frame w w' → Q tt w') →
  wp False (popBuffer ch target) Q w.
Proof using R Ha Hca.
  intros Hq HQ. unfold popBuffer. apply wp_bind, getChannel_wp. intros c Hc Hcr.
  pose proof (lenZ_nonneg l). destruct Hca as [Hs _ Hl _]. pose proof Hcr as [-> -> _ -> Hring _ _ _].
  rewrite Hq in *. rewrite lenZ_cons, (proj2 (Z.eqb_neq _ _)) by lia.
  destruct (ring_pop _ _ Hs _ _ _ _ Hring Hl) as [Hslot Hring'].
  apply wp_bind. eapply wp_lift; [done|]. unfold copyBytesToAddress, setMemory.
  apply wp_bind, wp_modify, setChannel_wp. replace (1 + lenZ l - 1) with (lenZ l) by lia.
  apply HQ; [|etrans; [apply (frame_memory w)|apply frame_channels]]. rewrite (rep_mem _ _ _ R).
  pose proof (repq_mem q (copyBytesToAddress_loop target 0 v (s_mem s)) w s R) as R'.
  by apply (repq_buffer q _ _ ch a c _ _ _ R').
Qed.
End channel_ops.
