(* ===== verification/SerialFinish.v ===== *)
(** Completing a waiting operation: it is taken out of its queue, a select statement
    loses its other registrations, and its job is woken. *)

From stdpp Require Import gmap.
From S2P Require Import Prelude.
From S2P Require Import GoInt.
From S2P Require Import SerialModel.
From S2P Require Import SerialSpec.
From S2P Require Import SerialSpecFacts.
From S2P Require Import SerialRep.

Lemma wp_eq {S A} (c : GoM S A) a s s' (Q : A → S → Prop) :
  c s = Some (a, s') → Q a s' → wp False c Q s.
Proof. unfold wp. by intros ->. Qed.

(** * The lists of bindings *)

Section complete.
Context (w : world) (r : registration) (g : nat) (i : Z) (b : nat).
Context (Hcase : r_case r = Some (g, i, b)).

(** The bindings of a list of registrations lead back to them. *)
Definition bound (l : list registration) : Prop :=
  ∀ r', r' ∈ l → reg_rep w r' ∧ (r_wait r' = r_wait r → r' = r).

Lemma bound_cons r' l : bound (r' :: l) → bound l.
Proof using Type. intros H x Hx. apply H. by right. Qed.

Lemma findSelect_run l :
  bound l →
  (r ∈ l ∧ findSelect (omap r_binding l) (r_wait r) w = Some (Some b, w)) ∨
  ((r ∉ l) ∧ findSelect (omap r_binding l) (r_wait r) w = Some (None, w)).
Proof using Hcase.
  induction l as [|r' l IH]; intros Hb.
  { right. split; [apply not_elem_of_nil|done]. }
  destruct (IH (bound_cons _ _ Hb)) as [[Hin Hl]|[Hin Hl]];
    destruct (Hb r') as [[_ Hc] He]; try (by left);
    (destruct (r_case r') as [[[g' i'] b']|] eqn:Hr';
      [destruct (Hc g' i' b' eq_refl) as [Hb' _]|]);
    unfold r_binding in *; cbn [omap list_omap]; rewrite Hr'; cbn [fmap option_fmap option_map snd findSelect].
  - left. split; [by right|]. unfold getBinding, mbind, GoM_bind, get, lift. rewrite Hb'. cbn.
    case_decide as Hw; [|done]. rewrite (He Hw), Hcase in Hr'. by injection Hr' as <- <- <-.
  - left. split; [by right|done].
  - unfold getBinding, mbind, GoM_bind, get, lift. rewrite Hb'. cbn. case_decide as Hw.
    + left. rewrite (He Hw) in *. split; [by left|]. rewrite Hcase in Hr'. by injection Hr' as <- <- <-.
    + right. split; [|done]. rewrite not_elem_of_cons. split; [congruence|done].
  - right. split; [|done]. rewrite not_elem_of_cons. split; [congruence|done].
Qed.

Lemma findBinding_run regs cs k :
  bound regs → r ∈ regs →
  (∀ n c, cs !! n = Some c →
     c_selects c = omap r_binding (filter (λ r', r_chan r' = (k + n)%nat) regs)) →
  (k ≤ r_chan r < k + length cs)%nat →
  findBinding cs (r_wait r) w = Some (Some b, w).
Proof using Hcase.
  intros Hb Hr. revert k. induction cs as [|c cs IH]; intros k Hsel Hk; simpl in Hk; [lia|].
  pose proof (Hsel 0%nat c eq_refl) as Hc. rewrite Nat.add_0_r in Hc.
  assert (bound (filter (λ r', r_chan r' = k) regs)) as Hbf.
  { intros x [_ Hx]%list_elem_of_filter. by apply Hb. }
  cbn [findBinding]. unfold mbind, GoM_bind. rewrite Hc.
  destruct (findSelect_run _ Hbf) as [[_ ->]|[Hin ->]]; [done|].
  apply (IH (S k)).
  - intros n c' Hn. rewrite (Hsel (S n) c' Hn). f_equal. apply list_filter_iff. intros x. lia.
  - destruct (decide (r_chan r = k)) as [He|]; [|lia]. destruct Hin. by apply list_elem_of_filter.
Qed.
End complete.

(** * Removing a select group *)

Definition outside (g : nat) (l : list registration) : list registration :=
  filter (λ r, party r ≠ inr g) l.

Lemma party_case r g : party r = inr g ↔ ∃ i b, r_case r = Some (g, i, b).
Proof.
  unfold party. destruct (r_case r) as [[[g' i] b]|]; split.
  - intros [= ->]. eauto.
  - by intros (? & ? & [= -> -> ->]).
  - done.
  - by intros (? & ? & ?).
Qed.

Lemma removeGroupBindings_run g l w :
  (∀ r' g' i' b', r' ∈ l → r_case r' = Some (g', i', b') →
     ∃ x, bindings w !! b' = Some x ∧ b_group x = g') →
  removeGroupBindings g (omap r_binding l) w = Some (omap r_binding (outside g l), w).
Proof.
  intros Hb. induction l as [|r l IH]; [done|].
  assert (∀ r' g' i' b', r' ∈ l → r_case r' = Some (g', i', b') →
     ∃ x, bindings w !! b' = Some x ∧ b_group x = g') as Hb' by (intros; eapply Hb; [by right|done]).
  specialize (IH Hb'). unfold outside in *. rewrite filter_cons.
  destruct (r_case r) as [[[g' i'] b']|] eqn:Hr.
  - destruct (Hb r g' i' b' ltac:(by left) Hr) as (x & Hx & Hg).
    assert (r_binding r = Some b') as Hrb by (unfold r_binding; by rewrite Hr).
    cbn [omap list_omap]. rewrite Hrb. cbn [removeGroupBindings]. unfold mbind, GoM_bind.
    rewrite IH. unfold getBinding, mbind, GoM_bind, get, lift. rewrite Hx. rewrite Hg.
    case_decide as Hd; case_decide as Hp; unfold party in Hp; rewrite Hr in Hp.
    + by rewrite Hd in Hp.
    + done.
    + cbn [omap list_omap]. by rewrite Hrb.
    + congruence.
  - assert (r_binding r = None) as Hrb by (unfold r_binding; by rewrite Hr).
    rewrite decide_True by (unfold party; by rewrite Hr).
    cbn [omap list_omap]. by rewrite Hrb.
Qed.

Lemma length_lookup_fmap {A B} (f : nat → A → B) (l : list B) (k : list A) :
  (∀ i, l !! i = f i <$> k !! i) → length l = length k.
Proof.
  intros H. apply Nat.le_antisymm.
  - apply lookup_ge_None_1. rewrite H. by rewrite (lookup_ge_None_2 k).
  - apply lookup_ge_None_1. pose proof (H (length l)) as He. rewrite lookup_ge_None_2 in He by done.
    by destruct (k !! length l).
Qed.

Definition selects_of (g : nat) (regs : list registration) (ch : nat) : list nat :=
  omap r_binding (filter (λ r, r_chan r = ch) (outside g regs)).

Lemma removeSelectGroup_run g regs w :
  (∀ r' g' i' b', r' ∈ regs → r_case r' = Some (g', i', b') →
     ∃ x, bindings w !! b' = Some x ∧ b_group x = g') →
  (∀ ch c, h_channels (handler w) !! ch = Some c →
     c_selects c = omap r_binding (filter (λ r, r_chan r = ch) regs)) →
  ∃ cs, removeSelectGroup g w = Some (tt, with_channels cs w) ∧
    ∀ ch, cs !! ch = withSelects (selects_of g regs ch) <$> h_channels (handler w) !! ch.
Proof.
  intros Hb. unfold removeSelectGroup, mbind, GoM_bind, get.
  enough (∀ cs k w', bindings w' = bindings w →
    (∀ n c, cs !! n = Some c → c_selects c = omap r_binding (filter (λ r, r_chan r = (k + n)%nat) regs)) →
    ∃ cs', removeSelectGroup_loop g k cs w' = Some (tt, with_channels cs' w') ∧
      ∀ ch, cs' !! ch = (if decide (k ≤ ch < k + length cs)%nat then withSelects (selects_of g regs ch) else id)
        <$> h_channels (handler w') !! ch) as Hloop.
  { intros Hsel. destruct (Hloop (h_channels (handler w)) 0%nat w eq_refl Hsel) as (cs' & Hrun & Hcs').
    exists cs'. split; [done|]. intros ch. rewrite Hcs'. simpl. case_decide as Hd; [done|].
    by rewrite (lookup_ge_None_2 _ ch) by lia. }
  induction cs as [|c cs IH]; intros k w' Hw' Hsel.
  - exists (h_channels (handler w')). split; [by destruct w' as [[] ????]|]. intros ch.
    rewrite decide_False by (simpl; lia). by destruct (h_channels _ !! ch).
  - cbn [removeSelectGroup_loop]. unfold mbind, GoM_bind.
    pose proof (Hsel 0%nat c eq_refl) as Hc. rewrite Nat.add_0_r in Hc. rewrite Hc.
    rewrite removeGroupBindings_run.
    2: { intros r' g' i' b' [_ Hr']%list_elem_of_filter. rewrite Hw'. by apply Hb. }
    set (sel := omap r_binding (outside g (filter (λ r, r_chan r = k) regs))).
    assert (sel = selects_of g regs k) as Hselk.
    { unfold sel, selects_of, outside. rewrite !list_filter_filter. f_equal.
      apply list_filter_iff. intros; tauto. }
    unfold setChannel, mbind, GoM_bind, get, setChannels, setHandler, modify.
    destruct (IH (S k) (with_channels (alter (withSelects sel) k (h_channels (handler w'))) w')) as (cs' & Hrun & Hcs').
    { done. }
    { intros n c' Hn. rewrite (Hsel (S n) c' Hn). f_equal. apply list_filter_iff. intros x. lia. }
    exists cs'. split; [exact Hrun|]. intros ch. rewrite Hcs'. simpl.
    destruct (decide (ch = k)) as [->|Hne].
    + rewrite decide_False, decide_True, list_lookup_alter_eq by lia. rewrite Hselk.
      by destruct (h_channels _ !! k).
    + rewrite list_lookup_alter_ne by done. f_equal. repeat case_decide; done || lia.
Qed.

(** * The siblings of a completed case *)

Definition with_queues (cs : list channel) (ws : list waiter) (w : world) : world :=
  World (MkHandler (h_jobs (handler w)) (h_jobHead (handler w)) cs (h_selectNext (handler w))
      (h_scheduler (handler w)) (h_current (handler w)))
    (jobs w) ws (groups w) (bindings w) (memory w).

Definition named_apart (regs : list registration) : Prop :=
  ∀ r r', r ∈ regs → r' ∈ regs → r_wait r = r_wait r' → r = r'.

(** The objects of the registrations: those that are still in a queue are not done. *)
Record siblings_ok (q regs : list registration) (w : world) : Prop := {
  so_apart : named_apart regs;
  so_sub : ∀ r, r ∈ q → r ∈ regs;
  so_nodup : NoDup (r_wait <$> q);
  so_binding : ∀ r g i b, r ∈ regs → r_case r = Some (g, i, b) →
    bindings w !! b = Some (SelectBinding (r_wait r) g i (r_chan r) (r_send r));
  so_waiter : ∀ r, r ∈ regs →
    ∃ x, waiters w !! r_wait r = Some x ∧ (w_done x = true ↔ ¬ r ∈ q)
}.

Lemma siblings_ok_step q regs w r cs :
  siblings_ok q regs w → r ∈ regs →
  siblings_ok (without (r_wait r) q) regs
    (with_queues cs (alter (λ x, withOutcome (w_open x) (w_status x) x) (r_wait r) (waiters w)) w).
Proof.
  intros [Ha Hs Hn Hb Hw] Hr. split; simpl; [done| |by apply without_nodup|done|].
  - intros r' [_ ?]%list_elem_of_filter. auto.
  - intros r' Hr'. destruct (Hw r' Hr') as (x & Hx & Hd). unfold without.
    destruct (decide (r_wait r' = r_wait r)) as [He|Hne].
    + rewrite <- He, list_lookup_alter_eq, Hx. eexists. split; [done|]. simpl.
      rewrite list_elem_of_filter. tauto.
    + rewrite list_lookup_alter_ne by done. exists x. split; [done|].
      rewrite list_elem_of_filter. tauto.
Qed.

Lemma chans_without q sel cs l r f :
  chans_rep q sel cs l → NoDup (r_wait <$> q) → r ∈ q →
  (∀ c a, cs !! r_chan r = Some c → chan_rep q sel (r_chan r) c a →
     chan_rep (without (r_wait r) q) sel (r_chan r) (f c) a) →
  chans_rep (without (r_wait r) q) sel (alter f (r_chan r) cs) l.
Proof.
  intros Hc Hn Hr Hf. eapply chans_alter_queue; [done| |].
  - intros c a Hch _. by apply Hf.
  - intros i c a Hi. by apply chan_rep_without.
Qed.

(** What the loop of [complete] does: [names] are the waiters it removes. *)
Lemma removeSiblings_wp b g regs sel l L q w Q :
  chans_rep q sel (h_channels (handler w)) l → siblings_ok q regs w →
  (∀ r, r ∈ regs → is_Some (l !! r_chan r)) →
  (∀ b', Some b' ∈ L → ∃ r i, r ∈ regs ∧ r_case r = Some (g, i, b')) →
  (∀ (cs : list channel) (ws : list waiter) (names : list nat),
     chans_rep (filter (λ r, r_wait r ∉ names) q) sel cs l →
     (∀ n, n ∈ names → ∃ r b', r ∈ q ∧ r_wait r = n ∧ party r = inr g ∧ r_binding r = Some b' ∧ b' ≠ b) →
     (∀ r b', r ∈ q → r_binding r = Some b' → Some b' ∈ L → b' ≠ b → r_wait r ∈ names) →
     (∀ n, n ∉ names → ws !! n = waiters w !! n) → length ws = length (waiters w) →
     Q tt (with_queues cs ws w)) →
  wp False (removeSiblings b L) Q w.
Proof.
  revert q w. induction L as [|[b'|] L IH]; intros q w Hc Hso Hch HL HQ; cbn [removeSiblings].
  - assert (with_queues (h_channels (handler w)) (waiters w) w = w) as Hw
      by (by destruct w as [[] ????]).
    apply wp_ret. rewrite <- Hw. apply (HQ _ _ []); [|by intros n ?%elem_of_nil| |done|done].
    + rewrite filter_all; [done|]. intros. apply not_elem_of_nil.
    + by intros r b' _ _ ?%elem_of_nil.
  - destruct (HL b' ltac:(by left)) as (r & i & Hr & Hcase).
    assert (∀ b', Some b' ∈ L → ∃ r i, r ∈ regs ∧ r_case r = Some (g, i, b')) as HL'
      by (intros; apply HL; by right).
    pose proof (so_binding _ _ _ Hso _ _ _ _ Hr Hcase) as Hb'.
    destruct (so_waiter _ _ _ Hso r Hr) as (x & Hx & Hd).
    assert (∀ r' b1, r' ∈ q → r_binding r' = Some b1 → Some b1 ∈ Some b' :: L → b1 ≠ b →
      r' = r ∨ Some b1 ∈ L) as Hsame.
    { intros r' b1 Hr' Hb1 [[= ->]|Hin]%elem_of_cons _; [left|by right].
      unfold r_binding in Hb1. destruct (r_case r') as [[[g1 i1] b2]|] eqn:Hcase'; [|done].
      injection Hb1 as ->. apply (so_apart _ _ _ Hso); [by apply (so_sub _ _ _ Hso)|done|].
      pose proof (so_binding _ _ _ Hso _ _ _ _ (so_sub _ _ _ Hso _ Hr') Hcase') as H1. congruence. }
    unfold getBinding, getWaiter. repeat wp_step. eapply wp_lift; [done|]. cbn [b_wait].
    repeat wp_step. eapply wp_lift; [done|].
    destruct (bool_decide (b' = b) || w_done x) eqn:Hskip.
    + eapply IH; [done..|]. intros cs ws names H1 H2 H3. apply HQ; [done|done|].
      intros r' b1 Hr' Hb1 Hin Hne. destruct (Hsame r' b1 Hr' Hb1 Hin Hne) as [->|?]; [|by eapply H3].
      exfalso. apply orb_true_iff in Hskip as [He%bool_decide_eq_true|Hdone%Hd]; [|done].
      unfold r_binding in Hb1. rewrite Hcase in Hb1. injection Hb1. congruence.
    + apply orb_false_iff in Hskip as [Hbb%bool_decide_eq_false Hdx].
      assert (r ∈ q) as Hrq. { destruct (decide (r_wait r ∈ r_wait <$> q)) as [(r' & He & Hr')%list_elem_of_fmap|Hni].
        - by rewrite (so_apart _ _ _ Hso r r' Hr (so_sub _ _ _ Hso _ Hr') He).
        - rewrite (proj2 Hd) in Hdx; [done|]. intros Hin. apply Hni. by apply list_elem_of_fmap_2. }
      destruct (Hch r Hr) as [a Ha]. destruct (chans_lookup _ _ _ _ _ _ Hc Ha) as (c & Hcc & Hcr).
      cbn [b_owner b_send]. apply wp_bind. unfold getChannel. repeat wp_step. eapply wp_lift; [done|].
      set (F := if r_send r then withSenders (removeWaiter (c_senders c) (r_wait r))
                else withReceivers (removeWaiter (c_receivers c) (r_wait r))).
      apply wp_bind. eapply (wp_conseq _ (λ _ w', w' = with_channels (alter F (r_chan r) (h_channels (handler w))) w)).
      { unfold F. destruct (r_send r); by apply setChannel_wp. }
      intros _ ? ->. apply wp_bind. unfold setWaiter, setWaiters. apply wp_modify.
      change (World _ _ _ _ _ _) with
        (with_queues (alter F (r_chan r) (h_channels (handler w)))
           (alter (λ x, withOutcome (w_open x) (w_status x) x) (r_wait r) (waiters w)) w).
      set (w1 := with_queues _ _ w).
      assert (NoDup (c_senders c) ∧ NoDup (c_receivers c)) as [Hns Hnr].
      { rewrite (cr_senders _ _ _ _ _ Hcr), (cr_receivers _ _ _ _ _ Hcr).
        split; apply nodup_filter, Hso. }
      eapply (IH (without (r_wait r) q) w1); [|by apply siblings_ok_step|done|done|].
      * apply chans_without; [done|by apply Hso|done|]. intros c' a' Hc' Hcr'.
        assert (c' = c) as -> by congruence. unfold F.
        pose proof (chan_rep_drop q sel c a' r _ (so_nodup _ _ _ Hso) Hrq Hcr' eq_refl) as Hdrop.
        rewrite !removeWaiter_filter by done. by destruct (r_send r).
      * intros cs ws names H1 H2 H3 H4 H5.
        change (with_queues cs ws w1) with (with_queues cs ws w). apply (HQ _ _ (r_wait r :: names)).
        -- erewrite list_filter_iff; [erewrite <- list_filter_filter; exact H1|].
           intros r'. simpl. rewrite not_elem_of_cons. tauto.
        -- intros n [->|Hn]%elem_of_cons.
           ++ exists r, b'. unfold r_binding. rewrite Hcase. split_and!; try done.
              apply party_case. eauto.
           ++ destruct (H2 n Hn) as (r' & b1 & [_ ?]%list_elem_of_filter & ?). eauto.
        -- intros r' b1 Hr' Hb1 Hin Hne. destruct (decide (r_wait r' = r_wait r)) as [->|Hwn]; [by left|].
           right. destruct (Hsame r' b1 Hr' Hb1 Hin Hne) as [->|Hin']; [done|].
           eapply H3; [|done..]. by apply list_elem_of_filter.
        -- intros n [Hn1 Hn2]%not_elem_of_cons. rewrite H4 by done. simpl.
           by rewrite list_lookup_alter_ne by done.
        -- rewrite H5. simpl. by rewrite length_alter.
  - eapply IH; [done|done|done| |].
    + intros; apply HL; by right.
    + intros cs ws names H1 H2 H3. apply HQ; [done|done|].
      intros r' b1 Hr' Hb1 [?|Hin]%elem_of_cons; [done|by eapply H3].
Qed.

(** * Completing a select statement *)

Lemma filter_ext_in {A} (P P' : A → Prop) `{!∀ x, Decision (P x)} `{!∀ x, Decision (P' x)} (l : list A) :
  (∀ x, x ∈ l → P x ↔ P' x) → filter P l = filter P' l.
Proof.
  induction l as [|x l IH]; intros HP; [done|]. pose proof (HP x ltac:(by left)) as Hx.
  assert (filter P l = filter P' l) as He by (apply IH; intros y Hy; apply HP; by right).
  rewrite !filter_cons. do 2 case_decide; rewrite ?He; tauto.
Qed.

(** What completing needs of the waiting operations. *)
Record pending (s : spec) : Prop := {
  pe_nodup : NoDup (r_wait <$> s_regs s);
  pe_open : ∀ r, r ∈ s_regs s → s_out s !! party r = None;
  pe_chan : ∀ r, r ∈ s_regs s → is_Some (s_chans s !! r_chan r)
}.

Lemma spec_ok_pending s : spec_ok s → pending s.
Proof.
  intros Hok. split; [apply Hok| |]; intros r Hr; destruct (ok_regs _ Hok r Hr) as [_ Ho (a & Ha & _)]; eauto.
Qed.

Lemma pending_apart s : pending s → named_apart (s_regs s).
Proof.
  intros [Hn _ _] r r' (i & Hi)%list_elem_of_lookup (k & Hk)%list_elem_of_lookup He.
  assert (i = k) as ->; [|congruence].
  apply (NoDup_lookup (r_wait <$> s_regs s) _ _ (r_wait r)); [done| |];
    rewrite list_lookup_fmap; [by rewrite Hi|rewrite Hk; simpl; congruence].
Qed.

Lemma settle_pending r open status s : pending s → pending (settle r open status s).
Proof.
  intros [Hn Ho Hc]. split; simpl.
  - by apply nodup_filter.
  - intros r' [Hp Hr']%list_elem_of_filter. rewrite lookup_insert_ne by congruence. by apply Ho.
  - intros r' [Hp Hr']%list_elem_of_filter. by apply Hc.
Qed.

Lemma jobs_rep_sub h js regs regs' ready :
  jobs_rep h js regs ready → (∀ r, r ∈ regs' → r ∈ regs) → jobs_rep h js regs' ready.
Proof. intros [] Hs. split; try done. eauto. Qed.

Lemma waiter_done w r : reg_rep w r → ∀ x, waiters w !! r_wait r = Some x → w_done x = false.
Proof. intros [Hw _] x Hx. rewrite Hw in Hx. by injection Hx as <-. Qed.

Lemma reg_case w r g i b :
  reg_rep w r → r_case r = Some (g, i, b) →
  bindings w !! b = Some (SelectBinding (r_wait r) g i (r_chan r) (r_send r)) ∧
  ∃ G, groups w !! g = Some G ∧ g_bindings G !!z i = Some (Some b).
Proof. intros [_ H]. apply H. Qed.

(** The registrations of a group that is not complete are those of its bindings. *)
Lemma group_members q w s r g i b G x :
  repq q w s → pending s → r ∈ s_regs s → r_case r = Some (g, i, b) → groups w !! g = Some G →
  x ∈ s_regs s → party x = inr g →
  x = r ∨ ∃ b', r_binding x = Some b' ∧ b' ≠ b ∧ Some b' ∈ g_bindings G.
Proof.
  intros R Hp Hr Hcase HG Hx (i' & b' & Hcx)%party_case.
  destruct (reg_case _ _ _ _ _ (rep_regs _ _ _ R x Hx) Hcx) as (Hbx & G' & HG' & Hsl).
  destruct (reg_case _ _ _ _ _ (rep_regs _ _ _ R r Hr) Hcase) as (Hbr & _).
  assert (G' = G) as -> by congruence. destruct (decide (b' = b)) as [->|Hne].
  - left. apply (pending_apart _ Hp); congruence.
  - right. exists b'. unfold r_binding. rewrite Hcx. split_and!; [done..|].
    rewrite lookupZ_to_nat in Hsl by (by apply lookupZ_lt_Some in Hsl; lia).
    by eapply list_elem_of_lookup_2.
Qed.

(** The representation after all the steps of [complete]. *)
Section assemble.
Context (w : world) (s : spec) (r : registration) (g : nat) (i : Z) (b : nat) (G : selectWait).
Context (open : bool) (status : Z).
Context (Hp : pending s) (Hr : r ∈ s_regs s) (Hcase : r_case r = Some (g, i, b)).
Context (R : repq (without (r_wait r) (s_regs s)) w s) (HG : groups w !! g = Some G).
Context (names : list nat) (cs : list channel) (ws : list waiter) (queue : list nat) (js : list job).
Let w' : world := World (MkHandler queue (h_jobHead (handler w)) cs (h_selectNext (handler w))
    (h_scheduler (handler w)) (h_current (handler w)))
  js ws (alter (withSelected i status) g (groups w)) (bindings w) (memory w).
Context (Hnames : ∀ n, n ∈ names → ∃ r', r' ∈ without (r_wait r) (s_regs s) ∧ r_wait r' = n ∧
  party r' = inr g).
Context (Hws : ∀ n, n ∉ names → ws !! n = alter (withOutcome open status) (r_wait r) (waiters w) !! n).
Context (Hlen : length ws = length (waiters w)).
Context (Hcs : chans_rep (outside g (s_regs s)) (outside g (s_regs s)) cs (s_chans s)).
Context (Hjobs : jobs_rep (handler w') js (s_regs s) (awaken (r_task r) (s_ready s))).

Lemma party_r : party r = inr g.
Proof using Hcase. apply party_case. eauto. Qed.

(** Waiters of other parties, and waiters that are done, do not change. *)
Lemma ws_done n x : waiters w !! n = Some x → w_done x = true → ws !! n = Some x.
Proof using R Hr Hws Hnames.
  intros Hx Hd. assert (∀ r', r' ∈ s_regs s → r_wait r' ≠ n) as Hno.
  { intros r' Hr' <-. by rewrite (waiter_done _ _ (rep_regs _ _ _ R r' Hr') _ Hx) in Hd. }
  rewrite Hws.
  - rewrite list_lookup_alter_ne; [done|]. by apply Hno.
  - intros (r' & [_ Hr']%list_elem_of_filter & Hn & _)%Hnames. by apply (Hno r').
Qed.

Lemma ws_outside r' : r' ∈ s_regs s → party r' ≠ inr g → ws !! r_wait r' = waiters w !! r_wait r'.
Proof using Hp Hr Hcase Hws Hnames.
  intros Hr' Hpr. rewrite Hws.
  - rewrite list_lookup_alter_ne; [done|]. intros He.
    apply Hpr. rewrite <- (pending_apart _ Hp r r' Hr Hr' He). apply party_r.
  - intros (x & [_ Hx]%list_elem_of_filter & Hn & Hpx)%Hnames.
    apply Hpr. by rewrite <- (pending_apart _ Hp x r' Hx Hr' Hn).
Qed.

Lemma ws_completed : ws !! r_wait r = Some (withOutcome open status (waiter_of r)).
Proof using R Hr Hws Hnames.
  rewrite Hws.
  - rewrite list_lookup_alter_eq. by destruct (rep_regs _ _ _ R r Hr) as [-> _].
  - intros (x & [Hne _]%list_elem_of_filter & Hn & _)%Hnames. done.
Qed.

Lemma completed_rep : rep w' (settle r open status s).
Proof using All.
  pose proof party_r as Hpr.
  assert (∀ x, x ∈ filter (λ r', party r' ≠ party r) (s_regs s) → x ∈ s_regs s ∧ party x ≠ inr g) as Hout.
  { intros x [Hx1 Hx2]%list_elem_of_filter. by rewrite Hpr in Hx1. }
  split; simpl; rewrite ?length_alter, ?Hlen; try apply R.
  - rewrite Hpr. exact Hcs.
  - intros r' [Hr' Hne]%Hout. destruct (rep_regs _ _ _ R r' Hr') as [Hw Hc].
    split; simpl; [by rewrite ws_outside|]. intros g' i' b' Hcase'.
    destruct (Hc _ _ _ Hcase') as (? & G' & HG' & Hsl). split; [done|]. exists G'.
    split; [|done]. rewrite list_lookup_alter_ne; [done|]. intros <-. apply Hne, party_case. eauto.
  - intros p o. rewrite Hpr. destruct (decide (p = inr g)) as [->|Hne].
    + rewrite lookup_insert_eq. intros [= <-]. unfold r_index. rewrite Hcase. simpl.
      destruct (reg_case _ _ _ _ _ (rep_regs _ _ _ R r Hr) Hcase) as (Hb & G' & HG' & Hsl).
      assert (G' = G) as -> by congruence. exists (withSelected i status G), b, (SelectBinding (r_wait r) g i (r_chan r) (r_send r)),
        (withOutcome open status (waiter_of r)).
      rewrite list_lookup_alter_eq, HG, Hb. simpl. rewrite ws_completed.
      apply lookupZ_lt_Some in Hsl as Hi. split_and!; try done. lia.
    + rewrite lookup_insert_ne by done. intros Ho. pose proof (rep_out _ _ _ R p o Ho) as Hor.
      destruct p as [n|g']; simpl in *.
      * destruct Hor as (x & Hx & Hd & ?). exists x. by rewrite (ws_done n x).
      * destruct Hor as (G' & b' & B & x & HG' & ? & ? & ? & ? & ? & Hx & Hd & ?).
        exists G', b', B, x. rewrite list_lookup_alter_ne by congruence. by rewrite (ws_done _ x).
  - intros g' G'. rewrite Hpr. destruct (decide (g' = g)) as [->|Hne].
    { by rewrite lookup_insert_eq. }
    rewrite lookup_insert_ne, list_lookup_alter_ne by congruence. intros HG' Ho.
    destruct (rep_groups _ _ _ R g' G' HG' Ho) as [Hsel Hb]. split; [done|].
    intros k b' (x & Hx & Hcx)%Hb. exists x. split; [|done]. apply list_elem_of_filter. split; [|done].
    unfold party. rewrite Hcx. congruence.
  - eapply (binds_rep_change w); [apply R|done|exact Hlen|by intros x [? _]%Hout|]. simpl.
    intros g' G'. destruct (decide (g' = g)) as [->|Hne].
    + rewrite list_lookup_alter_eq, HG. intros [= <-]. by exists G.
    + rewrite list_lookup_alter_ne by done. intros HG'. by exists G'.
  - eapply jobs_rep_sub; [exact Hjobs|]. by intros x [? _]%Hout.
Qed.
End assemble.

(** ** The steps of [complete] *)

Lemma selectBindingOf_run q w s r g i b :
  repq q w s → pending s → r ∈ s_regs s → r_case r = Some (g, i, b) →
  selectBindingOf (r_wait r) w = Some (Some b, w).
Proof.
  intros R Hp Hr Hcase. unfold selectBindingOf, mbind, GoM_bind, get.
  destruct (rep_chans _ _ _ R) as [Hl Hc].
  apply (findBinding_run w r g i b Hcase (s_regs s) _ 0).
  - intros x Hx. split; [by apply (rep_regs _ _ _ R)|]. intros He. by apply (pending_apart _ Hp).
  - done.
  - intros n c Hn. destruct (lookup_lt_is_Some_2 (s_chans s) n) as [a Ha].
    { rewrite <- Hl. by eapply lookup_lt_Some. }
    by apply (cr_selects _ _ _ _ _ (Hc n c a Hn Ha)).
  - destruct (pe_chan _ Hp r Hr) as [a Ha]. apply lookup_lt_Some in Ha. lia.
Qed.

Lemma outside_filter w s r g i b (names : list nat) q :
  repq q w s → pending s → r ∈ s_regs s → r_case r = Some (g, i, b) →
  (∀ n, n ∈ names → ∃ r', r' ∈ without (r_wait r) (s_regs s) ∧ r_wait r' = n ∧ party r' = inr g) →
  (∀ G r' b', groups w !! g = Some G → r' ∈ without (r_wait r) (s_regs s) → r_binding r' = Some b' →
     Some b' ∈ g_bindings G → b' ≠ b → r_wait r' ∈ names) →
  filter (λ r', r_wait r' ∉ names) (without (r_wait r) (s_regs s)) = outside g (s_regs s).
Proof.
  intros R Hp Hr Hcase Hn Hin. unfold without, outside. rewrite list_filter_filter.
  apply filter_ext_in. intros x Hx. split.
  - intros [Hxn Hxw] Hpx. destruct (reg_case _ _ _ _ _ (rep_regs _ _ _ R r Hr) Hcase) as (_ & G & HG & _).
    destruct (group_members _ _ _ _ _ _ _ _ x R Hp Hr Hcase HG Hx Hpx) as [->|(b' & ? & ? & ?)]; [done|].
    apply Hxn. eapply Hin; [done| |done..]. by apply list_elem_of_filter.
  - intros Hpx. split.
    + intros (x' & [_ Hx']%list_elem_of_filter & He & Hpx')%Hn. apply Hpx.
      by rewrite (pending_apart _ Hp x x' Hx Hx').
    + intros He. apply Hpx. rewrite (pending_apart _ Hp x r Hx Hr He). apply party_case. eauto.
Qed.

Lemma getWaiter_wp q w s r Q :
  repq q w s → r ∈ s_regs s → Q (waiter_of r) w → wp False (getWaiter (r_wait r)) Q w.
Proof.
  intros R Hr HQ. unfold getWaiter. repeat wp_step. eapply wp_lift; [|exact HQ].
  by destruct (rep_regs _ _ _ R r Hr).
Qed.

Lemma complete_wp w s r g i b open status Q :
  repq (without (r_wait r) (s_regs s)) w s → pending s → r ∈ s_regs s →
  r_case r = Some (g, i, b) →
  (∀ w', rep w' (settle r open status s) → frame w w' → Q true w') →
  wp False (complete (r_wait r) open status) Q w.
Proof.
  intros R Hp Hr Hcase HQ. unfold complete. apply wp_bind. eapply getWaiter_wp; [done..|]. cbn [w_done waiter_of].
  apply wp_bind. eapply wp_eq; [by eapply selectBindingOf_run|].
  destruct (reg_case _ _ _ _ _ (rep_regs _ _ _ R r Hr) Hcase) as (Hb & G & HG & Hsl).
  assert (s_out s !! inr g = None) as Ho.
  { rewrite <- (pe_open _ Hp r Hr). f_equal. symmetry. apply party_case. eauto. }
  destruct (rep_groups _ _ _ R g G HG Ho) as [Hsel HGb].
  unfold getBinding, getGroup. apply wp_bind. repeat wp_step. eapply wp_lift; [done|]. cbn [b_group b_index].
  apply wp_bind. repeat wp_step. eapply wp_lift; [done|]. rewrite Hsel. cbn [Z.leb Z.compare].
  unfold setWaiter, setWaiters, setGroup, setGroups. do 2 (apply wp_bind, wp_modify).
  set (ws1 := alter (withOutcome open status) (r_wait r) (waiters w)).
  set (w1 := World _ _ _ _ _ _). apply wp_bind.
  eapply (removeSiblings_wp b g (s_regs s) (s_regs s) (s_chans s) (g_bindings G)
    (without (r_wait r) (s_regs s)) w1).
  - apply R.
  - split; [by apply pending_apart|by intros x [_ ?]%list_elem_of_filter|by apply without_nodup, Hp| |].
    + intros x g' i' b' Hx Hcx. by destruct (reg_case _ _ _ _ _ (rep_regs _ _ _ R x Hx) Hcx).
    + intros x Hx. simpl. unfold ws1, without. destruct (rep_regs _ _ _ R x Hx) as [Hwx _].
      destruct (decide (r_wait x = r_wait r)) as [He|Hne].
      * rewrite He, list_lookup_alter_eq, <- He, Hwx. eexists. split; [done|].
        rewrite list_elem_of_filter. simpl. split; [by intros _ [? _]|done].
      * rewrite list_lookup_alter_ne, Hwx by done. eexists. split; [done|].
        rewrite list_elem_of_filter. simpl. split; [done|]. intros Hn. by destruct Hn.
  - intros x Hx. by apply Hp.
  - intros b' (k & Hk)%list_elem_of_lookup. destruct (HGb (Z.of_nat k) b') as (x & ? & ?).
    { by rewrite lookupZ_of_nat. } eauto.
  - intros cs ws names Hcs Hnames Hin Hws Hlen.
    assert (∀ n, n ∈ names → ∃ r', r' ∈ without (r_wait r) (s_regs s) ∧ r_wait r' = n ∧ party r' = inr g) as Hnames'.
    { intros n (x & b' & ? & ? & ? & _)%Hnames. eauto. }
    rewrite (outside_filter w s r g i b names _ R Hp Hr Hcase Hnames') in Hcs.
    2: { intros G' x b' HG'. assert (G' = G) as -> by congruence. by apply Hin. }
    destruct (removeSelectGroup_run g (s_regs s) (with_queues cs ws w1)) as (cs' & Hrun & Hcs').
    { intros x g' i' b' Hx Hcx. simpl.
      destruct (reg_case _ _ _ _ _ (rep_regs _ _ _ R x Hx) Hcx) as [-> _]. by eexists. }
    { intros ch c Hc. destruct Hcs as [Hl Hcs]. destruct (lookup_lt_is_Some_2 (s_chans s) ch) as [a Ha].
      { rewrite <- Hl. by eapply lookup_lt_Some. } by apply (cr_selects _ _ _ _ _ (Hcs ch c a Hc Ha)). }
    apply wp_bind. eapply wp_eq; [exact Hrun|].
    assert (chans_rep (outside g (s_regs s)) (outside g (s_regs s)) cs' (s_chans s)) as Hcs2.
    { destruct Hcs as [Hl Hcs]. simpl in Hcs'. split.
      - by rewrite (length_lookup_fmap _ _ _ Hcs').
      - intros ch c a. rewrite Hcs'. intros (c0 & Hc0 & ->)%fmap_Some Ha.
        by destruct (Hcs ch c0 a Hc0 Ha). }
    apply wp_bind. unfold wake, getWaiter. repeat wp_step.
    eapply wp_lift; [by eapply (ws_completed w s r g open status Hr R names)|]. cbn [w_task withOutcome waiter_of].
    eapply (enqueue_wp _ (s_regs s) (s_ready s)).
    + simpl. destruct (rep_jobs _ _ _ R). by split.
    + intros j Hj. exact (jr_tasks _ _ _ _ (rep_jobs _ _ _ R) r j Hr Hj).
    + intros queue js w2 Hj2 Hjs. simpl in Hlen. unfold ws1 in Hlen. rewrite length_alter in Hlen.
      apply wp_ret, HQ.
      * exact (completed_rep w s r g i b G open status Hp Hr Hcase R HG names cs' ws queue js
          Hnames' Hws Hlen Hcs2 Hj2).
      * split; simpl; try done.
        -- destruct Hjs as [Hl _]. simpl in Hl. lia.
        -- intros j x' Hx'. left. by apply Hjs.
        -- intros g' G' HG'. destruct (decide (g' = g)) as [->|Hne].
           ++ rewrite list_lookup_alter_eq, HG'. by eexists.
           ++ rewrite list_lookup_alter_ne by done. by exists G'.
Qed.

(** * Completing a plain operation *)

Lemma party_plain r r' : r_case r = None → party r' = party r → r_case r' = None ∧ r_wait r' = r_wait r.
Proof.
  unfold party. intros ->. destruct (r_case r') as [[[g i] b]|]; [done|]. by intros [= ->].
Qed.

Lemma plain_selects (regs : list registration) r ch :
  r_case r = None →
  omap r_binding (filter (λ x, r_chan x = ch) (filter (λ x, party x ≠ party r) regs)) =
  omap r_binding (filter (λ x, r_chan x = ch) regs).
Proof.
  intros Hr. induction regs as [|x regs IH]; [done|].
  rewrite (filter_cons _ x regs). case_decide as Hp; rewrite !filter_cons.
  - case_decide; [|done]. cbn [omap list_omap]. by rewrite IH.
  - assert (r_binding x = None) as Hx.
    { unfold r_binding. by destruct (party_plain r x Hr Hp) as [-> _]. }
    rewrite IH. case_decide; [|done]. cbn [omap list_omap]. by rewrite Hx.
Qed.

Lemma plain_rep w s r open status queue js f :
  pending s → r ∈ s_regs s → r_case r = None → f (waiter_of r) = withOutcome open status (waiter_of r) →
  repq (without (r_wait r) (s_regs s)) w s →
  let w' := World (MkHandler queue (h_jobHead (handler w)) (h_channels (handler w))
      (h_selectNext (handler w)) (h_scheduler (handler w)) (h_current (handler w)))
    js (alter f (r_wait r) (waiters w)) (groups w) (bindings w) (memory w) in
  jobs_rep (handler w') js (s_regs s) (awaken (r_task r) (s_ready s)) →
  rep w' (settle r open status s).
Proof.
  intros Hp Hr Hcase Hf R w' Hjobs. pose proof (pending_apart _ Hp) as Hap.
  assert (∀ x, x ∈ s_regs s → party x = party r → x = r) as Hone.
  { intros x Hx Hpx. apply Hap; [done..|]. by apply (party_plain r x Hcase). }
  assert (filter (λ x, party x ≠ party r) (s_regs s) = without (r_wait r) (s_regs s)) as Hq.
  { apply filter_ext_in. intros x Hx. split; intros Hne He; apply Hne.
    - by rewrite (Hap x r Hx Hr He).
    - by rewrite (Hone x Hx He). }
  assert (∀ n x, waiters w !! n = Some x → w_done x = true → alter f (r_wait r) (waiters w) !! n = Some x) as Hdone.
  { intros n x Hx Hd. rewrite list_lookup_alter_ne; [done|]. intros <-.
    by rewrite (waiter_done _ _ (rep_regs _ _ _ R r Hr) _ Hx) in Hd. }
  split; simpl; rewrite ?length_alter; try apply R.
  - rewrite Hq. destruct (rep_chans _ _ _ R) as [Hl Hc]. split; [done|].
    intros ch c a Hch Ha. destruct (Hc ch c a Hch Ha). split; try done.
    by rewrite <- Hq, plain_selects.
  - intros x [Hne Hx]%list_elem_of_filter. destruct (rep_regs _ _ _ R x Hx) as [Hwx Hbx].
    split; [|done]. simpl. rewrite list_lookup_alter_ne; [done|]. intros He.
    apply Hne. by rewrite (Hap x r Hx Hr (eq_sym He)).
  - intros p o. destruct (decide (p = party r)) as [->|Hne].
    + rewrite lookup_insert_eq. intros [= <-]. destruct (rep_regs _ _ _ R r Hr) as [Hw _].
      unfold party. rewrite Hcase. simpl. exists (withOutcome open status (waiter_of r)).
      rewrite list_lookup_alter_eq, Hw. simpl. by rewrite Hf.
    + rewrite lookup_insert_ne by done. intros Ho. pose proof (rep_out _ _ _ R p o Ho) as Hor.
      destruct p as [n|g]; simpl in *.
      * destruct Hor as (x & Hx & Hd & ?). exists x. by rewrite (Hdone n x).
      * destruct Hor as (G' & b' & B & x & ? & ? & ? & ? & ? & ? & Hx & Hd & ?).
        exists G', b', B, x. by rewrite (Hdone _ x).
  - intros g G HG Ho. rewrite lookup_insert_ne in Ho by (unfold party; by rewrite Hcase).
    destruct (rep_groups _ _ _ R g G HG Ho) as [Hsel Hb]. split; [done|].
    intros k b' (x & Hx & Hcx)%Hb. exists x. split; [|done]. apply list_elem_of_filter. split; [|done].
    unfold party. by rewrite Hcx, Hcase.
  - eapply (binds_rep_change w); [apply R|done|apply length_alter|by intros x [_ ?]%list_elem_of_filter|].
    intros g G HG. by exists G.
  - eapply jobs_rep_sub; [exact Hjobs|]. by intros x [_ ?]%list_elem_of_filter.
Qed.

Lemma finish_wp w s r open status plain Q :
  repq (without (r_wait r) (s_regs s)) w s → pending s → r ∈ s_regs s →
  plain (waiter_of r) = withOutcome open status (waiter_of r) ∨ r_case r ≠ None →
  (∀ w', rep w' (settle r open status s) → frame w w' → Q tt w') →
  wp False (finish (r_wait r) open status plain) Q w.
Proof.
  intros R Hp Hr Hf HQ. unfold finish. apply wp_bind. eapply getWaiter_wp; [done..|]. cbn [w_status waiter_of].
  destruct (r_case r) as [[[g i] b]|] eqn:Hcase; cbn [Z.eqb selectPendingStatus StatusOK].
  - apply wp_bind. eapply complete_wp; [done..|]. intros w' R' Hfr. apply wp_ret. by apply HQ.
  - destruct Hf as [Hf|]; [|done]. unfold setWaiter, setWaiters. apply wp_bind, wp_modify.
    unfold wake, getWaiter. repeat wp_step. eapply wp_lift.
    { simpl. rewrite list_lookup_alter_eq. by destruct (rep_regs _ _ _ R r Hr) as [-> _]. }
    rewrite Hf. cbn [w_task withOutcome waiter_of].
    eapply (enqueue_wp _ (s_regs s) (s_ready s)); simpl.
    + apply R.
    + intros j Hj. exact (jr_tasks _ _ _ _ (rep_jobs _ _ _ R) r j Hr Hj).
    + intros queue js Hj2 [Hl Hjs]. apply HQ; [by apply (plain_rep w)|].
      split; simpl; try done; [lia| |by eauto]. intros j x' Hx'. left. by apply Hjs.
Qed.
