(* ===== verification/SerialOps.v ===== *)
(** Every call of the handler does what the channel machine of SerialSpec does.

    Registering an operation that has to wait: a plain send or receive, or a case of a
    select statement. *)

From stdpp Require Import gmap.
From S2P Require Import Prelude.
From S2P Require Import GoInt.
From S2P Require Import SerialModel.
From S2P Require Import SerialSpec.
From S2P Require Import SerialSpecFacts.
From S2P Require Import SerialRep.
From S2P Require Import SerialFinish.

Lemma put_mem_pending m s : pending s → pending (put_mem m s).
Proof. intros []. by split. Qed.

Lemma put_chan_pending ch f s : pending s → pending (put_chan ch f s).
Proof.
  intros [Hn Ho Hc]. split; [done..|]. intros r Hr. destruct (Hc r Hr) as [a Ha]. simpl.
  destruct (decide (r_chan r = ch)) as [<-|Hne].
  - rewrite list_lookup_alter_eq, Ha. eauto.
  - rewrite list_lookup_alter_ne by done. eauto.
Qed.

(** What a sender's completion is, by the kind of the waiter. *)
Lemma doneSender_outcome r : doneSender (waiter_of r) = withOutcome false StatusOK (waiter_of r) ∨ r_case r ≠ None.
Proof. unfold doneSender, waiter_of. destruct (r_case r); [by right|by left]. Qed.

Lemma closedSender_outcome r :
  closedSender (waiter_of r) = withOutcome false StatusClosed (waiter_of r) ∨ r_case r ≠ None.
Proof. by left. Qed.

Lemma doneReceiver_outcome open r :
  doneReceiver open (waiter_of r) = withOutcome open StatusOK (waiter_of r) ∨ r_case r ≠ None.
Proof. unfold doneReceiver, waiter_of. destruct (r_case r); [by right|by left]. Qed.

Lemma put_queue_twice ch q q' s : put_queue ch q' (put_queue ch q s) = put_queue ch q' s.
Proof.
  unfold put_queue, put_chan, put_chans. simpl. f_equal. apply list_eq. intros i.
  destruct (decide (i = ch)) as [->|Hne].
  - rewrite !list_lookup_alter_eq. by destruct (s_chans s !! ch).
  - by rewrite !list_lookup_alter_ne.
Qed.

(** * Taking the first waiter *)

Section calls.
Context (w : world) (s : spec) (ch : nat) (a : chan).
Context (R : rep w s) (Hp : pending s) (Ha : s_chans s !! ch = Some a).

Lemma pop_wp (send : bool) Q :
  (waitingOn ch send (s_regs s) = [] → Q None w) →
  (∀ r rest cs, waitingOn ch send (s_regs s) = r :: rest →
     repq (without (r_wait r) (s_regs s)) (with_channels cs w) s →
     Q (Some (r_wait r)) (with_channels cs w)) →
  wp False (if send then popSender ch else popReceiver ch) Q w.
Proof using R Hp Ha.
  intros Hnone Hsome.
  assert (∀ r rest f c, waitingOn ch send (s_regs s) = r :: rest → h_channels (handler w) !! ch = Some c →
    f = (if send then withSenders (r_wait <$> rest) else withReceivers (r_wait <$> rest)) →
    repq (without (r_wait r) (s_regs s)) (with_channels (alter f ch (h_channels (handler w))) w) s) as Hpop.
  { intros r rest f c Hw Hc ->. destruct (waitingOn_head _ _ _ _ _ Hw) as (Hr & <- & Hs).
    apply (repq_queues (s_regs s)); [done|]. apply chans_without; [apply R|apply Hp|done|].
    intros c' a' Hc' Hcr. assert (c' = c) as -> by congruence.
    pose proof (cr_senders _ _ _ _ _ Hcr) as Hsend. pose proof (cr_receivers _ _ _ _ _ Hcr) as Hrecv.
    assert (r_wait <$> rest = filter (λ x, x ≠ r_wait r) (r_wait <$> waitingOn (r_chan r) send (s_regs s))) as Hrest.
    { rewrite Hw. cbn [fmap list_fmap]. rewrite filter_cons_False by tauto. rewrite filter_absent; [done|].
      assert (NoDup (r_wait <$> waitingOn (r_chan r) send (s_regs s))) as Hnd by apply nodup_filter, Hp.
      rewrite Hw in Hnd. by apply NoDup_cons in Hnd as [? _]. }
    pose proof (chan_rep_drop _ _ c a' r (r_wait <$> rest) (pe_nodup _ Hp) Hr Hcr) as Hd.
    destruct send; rewrite Hs in Hd; apply Hd; congruence. }
  destruct send.
  - unfold popSender. apply wp_bind. eapply getChannel_wp; [done..|]. intros c Hc Hcr.
    rewrite (cr_senders _ _ _ _ _ Hcr). destruct (waitingOn ch true (s_regs s)) as [|r rest] eqn:Hw.
    + apply wp_ret. by apply Hnone.
    + apply wp_bind, setChannel_wp, wp_ret. eapply Hsome; [done|]. by eapply Hpop.
  - unfold popReceiver. apply wp_bind. eapply getChannel_wp; [done..|]. intros c Hc Hcr.
    rewrite (cr_receivers _ _ _ _ _ Hcr). destruct (waitingOn ch false (s_regs s)) as [|r rest] eqn:Hw.
    + apply wp_ret. by apply Hnone.
    + apply wp_bind, setChannel_wp, wp_ret. eapply Hsome; [done|]. by eapply Hpop.
Qed.

(** * Handing over a value *)

Lemma handover_wp r cs value n Q :
  r ∈ s_regs s → r_send r = false → repq (without (r_wait r) (s_regs s)) (with_channels cs w) s →
  apart (r_target r) value (Z.to_nat n) →
  (∀ w', rep w' (settle r true StatusOK
       (deliver (r_target r) (copyAddressToBytes (s_mem s) (Z.to_nat n) value) s)) →
     frame w w' → Q tt w') →
  wp False (w ← getWaiter (r_wait r); _ ← copyFromAddress (w_target w) value n;
    finish (r_wait r) true StatusOK (doneReceiver true)) Q (with_channels cs w).
Proof using Hp.
  intros Hr Hsend R' Hap HQ. apply wp_bind. eapply getWaiter_wp; [done..|]. cbn [w_target waiter_of].
  unfold copyFromAddress, setMemory. apply wp_bind, wp_modify. rewrite copyFromAddress_deliver by done.
  rewrite (rep_mem _ _ _ R').
  eapply (finish_wp _ (deliver (r_target r) (copyAddressToBytes (s_mem s) (Z.to_nat n) value) s)).
  - by apply repq_mem.
  - by apply put_mem_pending.
  - done.
  - destruct (r_case r) eqn:Hcase; [by right|left]. unfold doneReceiver, waiter_of. by rewrite Hcase.
  - intros w' Hw' Hfr. apply HQ; [done|]. etrans; [apply (frame_channels cs)|].
    etrans; [|exact Hfr]. apply (frame_memory (with_channels cs w)).
Qed.

(** A send that does not wait. *)
Lemma give_wp value Q :
  chan_ok a → (waitingOn ch false (s_regs s) = [] → lenZ (a_queue a) < a_cap a) →
  (∀ r, r ∈ waitingOn ch false (s_regs s) → apart (r_target r) value (Z.to_nat (a_size a))) →
  (∀ w', rep w' (spec_give ch (copyAddressToBytes (s_mem s) (Z.to_nat (a_size a)) value) a s) →
     frame w w' → Q tt w') →
  wp False (receiver ← popReceiver ch;
    match receiver with
    | Some receiver =>
        w ← getWaiter receiver;
        _ ← copyFromAddress (w_target w) value (a_size a);
        finish receiver true StatusOK (doneReceiver true)
    | None => pushBuffer ch value
    end) Q w.
Proof using R Hp Ha.
  intros Hca Hlen Hap HQ. apply wp_bind. apply (pop_wp false).
  - intros Hw. unfold spec_give in HQ. rewrite Hw in HQ. eapply pushBuffer_wp; [done..|by apply Hlen|exact HQ].
  - intros r rest cs Hw R'. unfold spec_give in HQ. rewrite Hw in HQ.
    destruct (waitingOn_head _ _ _ _ _ Hw) as (Hr & _ & Hs). eapply handover_wp; try done.
    apply Hap. rewrite Hw. by left.
Qed.

(** * Taking a value *)

Lemma fill_wp Q :
  chan_ok a → lenZ (a_queue a) < a_cap a →
  (∀ r, r ∈ waitingOn ch true (s_regs s) → lenZ (r_value r) = a_size a) →
  (∀ w', rep w' (match waitingOn ch true (s_regs s) with
        | r :: _ => settle r false StatusOK (put_queue ch (a_queue a ++ [r_value r]) s)
        | [] => s
        end) → frame w w' → Q tt w') →
  wp False (fillBufferFromSender ch) Q w.
Proof using R Hp Ha.
  intros Hca Hlen Hval HQ. pose proof (ok_size _ Hca) as Hsz.
  unfold fillBufferFromSender. apply wp_bind. eapply getChannel_wp; [done..|]. intros c0 _ [_ -> _ -> _ _ _ _].
  rewrite (proj2 (Z.leb_gt _ _)) by lia. apply wp_bind, (pop_wp true).
  - intros Hw. rewrite Hw in HQ. apply wp_ret, HQ; done.
  - intros r rest cs Hw R'. rewrite Hw in HQ. destruct (waitingOn_head _ _ _ _ _ Hw) as (Hr & _ & _).
    apply wp_bind. eapply getChannel_wp; [done..|]. intros c Hc Hcr.
    apply wp_bind. eapply getWaiter_wp; [done..|]. cbn [w_value waiter_of].
    pose proof Hcr as [-> -> _ -> Hring _ _ _].
    assert (lenZ (r_value r) = a_size a) as Hv by (apply Hval; rewrite Hw; by left).
    destruct (ring_push _ _ Hsz _ _ _ (r_value r) Hring Hlen Hv) as (old & buffer & Hold & Hol & Hwr & Hring').
    apply wp_bind. eapply wp_lift.
    { unfold copySlice. rewrite Hold. cbn [mbind option_bind].
      replace (length old) with (length (r_value r)) by (unfold lenZ in *; lia).
      rewrite firstn_all. exact Hwr. }
    apply wp_bind, setChannel_wp.
    pose proof (repq_buffer _ _ _ ch a c buffer (c_head c) _ R' Ha Hc Hring') as R2.
    replace (lenZ (a_queue a ++ [r_value r])) with (lenZ (a_queue a) + 1) in R2 by (by rewrite lenZ_app).
    eapply (finish_wp _ (put_queue ch (a_queue a ++ [r_value r]) s)); [exact R2|by apply put_chan_pending|done|apply doneSender_outcome|].
    intros w' Hw' Hfr. apply HQ; [exact Hw'|]. etrans; [apply (frame_channels cs)|].
    etrans; [apply frame_channels|exact Hfr].
Qed.
End calls.

Lemma take_sender_wp w s target r cs Q :
  pending s → r ∈ s_regs s → repq (without (r_wait r) (s_regs s)) (with_channels cs w) s →
  (∀ w', rep w' (settle r false StatusOK (deliver target (r_value r) s)) → frame w w' → Q tt w') →
  wp False (w ← getWaiter (r_wait r); _ ← copyBytesToAddress target (w_value w);
    finish (r_wait r) false StatusOK doneSender) Q (with_channels cs w).
Proof.
  intros Hp Hr R' HQ. apply wp_bind. eapply getWaiter_wp; [done..|]. cbn [w_value waiter_of].
  unfold copyBytesToAddress, setMemory. apply wp_bind, wp_modify. rewrite (rep_mem _ _ _ R').
  eapply (finish_wp _ (deliver target (r_value r) s));
    [by apply repq_mem|by apply put_mem_pending|done|apply doneSender_outcome|].
  intros w' Hw' Hfr. apply HQ; [done|]. etrans; [apply (frame_channels cs)|].
  etrans; [|exact Hfr]. apply (frame_memory (with_channels cs w)).
Qed.

(** The channel after a value was taken from its queue. *)
Lemma put_queue_lookup ch q s a :
  s_chans s !! ch = Some a →
  s_chans (put_queue ch q s) !! ch = Some (Chan (a_size a) (a_cap a) (a_closed a) q).
Proof. intros Ha. simpl. by rewrite list_lookup_alter_eq, Ha. Qed.

Lemma wp_bind3 {S A B C D} (c : GoM S A) (f : A → GoM S B) (g : GoM S C) (K : C → GoM S D) Q s :
  wp False (x ← c; _ ← f x; g) (λ z, wp False (K z) Q) s →
  wp False (x ← c; _ ← f x; z ← g; K z) Q s.
Proof.
  unfold wp, mbind, GoM_bind. destruct (c s) as [[x s1]|]; [|done].
  destruct (f x s1) as [[y s2]|]; [|done]. by destruct (g s2) as [[z s3]|].
Qed.

(** A receive that finds a value goes on with [K], one that does not with [N]. *)
Lemma receive_wp {A} w s ch a target c (K N : M A) Q :
  rep w s → spec_ok s → s_chans s !! ch = Some a → c_length c = lenZ (a_queue a) →
  (∀ w', rep w' (spec_take ch target a s).2 → frame w w' → (spec_take ch target a s).1 = true →
     wp False K Q w') →
  (a_queue a = [] → waitingOn ch true (s_regs s) = [] → wp False N Q w) →
  wp False (if 0 <? c_length c then
      _ ← popBuffer ch target; _ ← fillBufferFromSender ch; K
    else
      sender ← popSender ch;
      match sender with
      | Some sender =>
          w ← getWaiter sender; _ ← copyBytesToAddress target (w_value w);
          _ ← finish sender false StatusOK doneSender; K
      | None => N
      end) Q w.
Proof.
  intros R Hok Ha -> HK HN. pose proof (spec_ok_pending _ Hok) as Hp. pose proof (ok_chans _ Hok ch a Ha) as Hca.
  pose proof Hca as [Hs _ Hl Hv]. unfold spec_take in HK.
  destruct (a_queue a) as [|v q] eqn:Hq.
  - simpl. apply wp_bind. eapply (pop_wp _ _ _ _ R Hp Ha true); [by auto|].
    intros r rest cs Hw R'. rewrite Hw in HK. destruct (waitingOn_head _ _ _ _ _ Hw) as (Hr & _ & _).
    apply wp_bind3. eapply take_sender_wp; [done..|]. intros w' Hw' Hf. by apply HK.
  - pose proof (lenZ_nonneg q). rewrite lenZ_cons in *. rewrite (proj2 (Z.ltb_lt _ _)) by lia.
    apply wp_bind. eapply popBuffer_wp; [done..|]. intros w1 R1 Hf1.
    inversion_clear Hv as [|?? Hv1 Hv2]. set (s1 := put_queue ch q (deliver target v s)) in *.
    assert (pending s1) as Hp1 by (by apply put_chan_pending, put_mem_pending).
    apply wp_bind. eapply (fill_wp w1 s1 ch _ R1 Hp1 (put_queue_lookup ch q (deliver target v s) a Ha)).
    + by split; simpl; [lia|apply Hca|lia|].
    + simpl. lia.
    + intros r (Hc & Hr)%waitingOn_in. destruct (ok_regs _ Hok r Hr) as [_ _ (a' & Ha' & _ & Hsv & _)].
      destruct Hc as [Hch Hsend]. assert (a' = a) as -> by congruence. by destruct (Hsv Hsend).
    + intros w2 R2 Hf2. change (s_regs s1) with (s_regs s) in R2. cbn [a_queue] in R2. unfold s1 in R2.
      destruct (waitingOn ch true (s_regs s)) as [|r rest]; rewrite ?put_queue_twice in R2;
        apply HK; first [exact R2|done|by transitivity w1].
Qed.

(** The channel with one more waiter. *)
Definition enlist (r : registration) (c : channel) : channel :=
  let c := if r_send r then withSenders (c_senders c ++ [r_wait r]) c
           else withReceivers (c_receivers c ++ [r_wait r]) c in
  match r_binding r with
  | Some b => withSelects (c_selects c ++ [b]) c
  | None => c
  end.

(** The group with the binding of one more case. *)
Definition bind_case (i : Z) (b : nat) (G : selectWait) : selectWait :=
  SelectWait (<[Z.to_nat i := Some b]> (g_bindings G)) (g_selected G) (g_status G).

Definition registered (r : registration) (s : spec) : spec :=
  Spec (s_chans s) (s_regs s ++ [r]) (s_out s) (s_ready s) (s_next s) (s_mem s)
    (S (s_waits s)) (s_groups s)
    (match r_case r with Some _ => S (s_binds s) | None => s_binds s end).

Definition register_world (r : registration) (w : world) : world :=
  World (handler (with_channels (alter (enlist r) (r_chan r) (h_channels (handler w))) w))
    (jobs w) (waiters w ++ [waiter_of r])
    (match r_case r with Some (g, i, b) => alter (bind_case i b) g (groups w) | None => groups w end)
    (match r_case r with
     | Some (g, i, b) => bindings w ++ [SelectBinding (r_wait r) g i (r_chan r) (r_send r)]
     | None => bindings w
     end) (memory w).

Lemma alter_at {A} (l : list A) i f g c : l !! i = Some c → f c = g c → alter f i l = alter g i l.
Proof.
  intros H He. apply list_eq. intros k. destruct (decide (k = i)) as [->|].
  - rewrite !list_lookup_alter_eq, H. simpl. by rewrite He.
  - by rewrite !list_lookup_alter_ne.
Qed.

Lemma waitingOn_one ch send r :
  waitingOn ch send [r] = if decide (on ch send r) then [r] else [].
Proof. unfold waitingOn. rewrite filter_cons. by case_decide. Qed.

Lemma omap_binding_snoc ch regs r :
  omap r_binding (filter (λ x, r_chan x = ch) (regs ++ [r])) =
  omap r_binding (filter (λ x, r_chan x = ch) regs) ++
    (if decide (r_chan r = ch) then option_list (r_binding r) else []).
Proof.
  rewrite filter_app. rewrite omap_app. f_equal. rewrite filter_cons. case_decide; [|done].
  simpl. by destruct (r_binding r).
Qed.

Lemma enlist_rep regs c a r :
  chan_rep regs regs (r_chan r) c a → chan_rep (regs ++ [r]) (regs ++ [r]) (r_chan r) (enlist r c) a.
Proof.
  intros [H1 H2 H3 H4 H5 H6 H7 H8]. unfold enlist.
  assert (on (r_chan r) (r_send r) r) as Hon by done.
  assert (¬ on (r_chan r) (negb (r_send r)) r) as Hoff by (intros [_ ?]; by destruct (r_send r)).
  split; rewrite ?waitingOn_app, ?fmap_app, ?waitingOn_one, ?omap_binding_snoc;
    rewrite ?(decide_True_pi (P := r_chan r = r_chan r) eq_refl);
    destruct (r_send r); simpl in Hoff; destruct (r_binding r); simpl;
    rewrite ?(decide_True _ _ Hon), ?(decide_False _ _ Hoff), ?app_nil_r; try done;
    try (by rewrite H6); try (by rewrite H7); try (by rewrite H8).
Qed.

Lemma enlist_other regs ch c a r :
  r_chan r ≠ ch → chan_rep regs regs ch c a → chan_rep (regs ++ [r]) (regs ++ [r]) ch c a.
Proof.
  intros Hne [H1 H2 H3 H4 H5 H6 H7 H8].
  assert (∀ send, ¬ on ch send r) as Hoff by (by intros send [? _]).
  split; rewrite ?waitingOn_app, ?waitingOn_one, ?omap_binding_snoc, ?(decide_False _ _ Hne),
    ?(decide_False _ _ (Hoff _)), ?app_nil_r; done.
Qed.

(** What the objects of a new case need: a fresh binding, for an index of the group
    that has none. *)
Definition case_fresh (w : world) (s : spec) (r : registration) : Prop :=
  ∀ g i b, r_case r = Some (g, i, b) →
    b = length (bindings w) ∧ s_out s !! inr g = None ∧
    (∃ G, groups w !! g = Some G ∧ 0 ≤ i < lenZ (g_bindings G)) ∧
    ∀ r' i' b', r' ∈ s_regs s → r_case r' = Some (g, i', b') → i' ≠ i.

Lemma reg_rep_registered w s r r' :
  rep w s → case_fresh w s r → r' ∈ s_regs s → reg_rep (register_world r w) r'.
Proof.
  intros R Hf Hr'. destruct (rep_regs _ _ _ R r' Hr') as [Hw Hc]. split; simpl.
  { by apply lookup_app_l_Some. }
  intros g' i' b' Hcase'. destruct (Hc _ _ _ Hcase') as (Hb & G & HG & Hsl).
  destruct (r_case r) as [[[g i] b]|] eqn:Hcase; [|by eauto].
  destruct (Hf g i b Hcase) as (_ & _ & (G0 & HG0 & Hi) & Hne).
  split; [by apply lookup_app_l_Some|].
  destruct (decide (g' = g)) as [->|Hg].
  - rewrite list_lookup_alter_eq, HG. eexists. split; [done|]. simpl.
    pose proof (Hne r' i' b' Hr' Hcase') as Hii. pose proof (lookupZ_lt_Some _ _ _ Hsl).
    rewrite lookupZ_to_nat in Hsl |- * by lia. rewrite list_lookup_insert_ne by lia. done.
  - rewrite list_lookup_alter_ne by done. eauto.
Qed.

Lemma reg_rep_new w s r :
  rep w s → case_fresh w s r → r_wait r = length (waiters w) → reg_rep (register_world r w) r.
Proof.
  intros R Hf Hw. split; simpl.
  { rewrite Hw. by apply list_lookup_middle. }
  intros g i b Hcase. rewrite Hcase. destruct (Hf g i b Hcase) as (-> & _ & (G & HG & Hi) & _).
  split; [by apply list_lookup_middle|]. rewrite list_lookup_alter_eq, HG. eexists. split; [done|]. simpl.
  rewrite lookupZ_to_nat by lia. apply list_lookup_insert_eq. unfold lenZ in Hi. lia.
Qed.

Lemma group_rep_registered w s r g G :
  rep w s → case_fresh w s r → groups (register_world r w) !! g = Some G → s_out s !! inr g = None →
  group_rep (s_regs s ++ [r]) g G.
Proof.
  intros R Hf HG Ho. simpl in HG.
  assert (∀ G0, groups w !! g = Some G0 → group_rep (s_regs s ++ [r]) g G0) as Hold.
  { intros G0 HG0. destruct (rep_groups _ _ _ R g G0 HG0 Ho) as [Hs Hb]. split; [done|].
    intros k b (x & Hx & Hcx)%Hb. exists x. split; [|done]. apply elem_of_app. by left. }
  destruct (r_case r) as [[[g0 i] b]|] eqn:Hcase; [|by apply Hold].
  destruct (decide (g = g0)) as [->|Hne].
  - rewrite list_lookup_alter_eq in HG. apply fmap_Some in HG as (G0 & HG0 & ->).
    destruct (Hold G0 HG0) as [Hs Hb]. split; [done|]. simpl. intros k b'.
    destruct (Hf g0 i b Hcase) as (_ & _ & (G1 & HG1 & Hi) & _). assert (G1 = G0) as -> by congruence.
    intros Hk. pose proof (lookupZ_lt_Some _ _ _ Hk). rewrite lookupZ_to_nat in Hk by lia.
    destruct (decide (k = i)) as [->|Hki].
    + rewrite list_lookup_insert_eq in Hk by (unfold lenZ in Hi; lia). injection Hk as <-.
      exists r. split; [|done]. apply elem_of_app. right. by left.
    + rewrite list_lookup_insert_ne in Hk by lia. apply Hb. by rewrite lookupZ_to_nat by lia.
  - rewrite list_lookup_alter_ne in HG by done. by apply Hold.
Qed.

Lemma out_rep_registered w s r p o :
  rep w s → case_fresh w s r → s_out s !! p = Some o → out_rep (register_world r w) p o.
Proof.
  intros R Hf Ho. pose proof (rep_out _ _ _ R p o Ho) as Hor. destruct p as [n|g]; simpl in *.
  - destruct Hor as (x & Hx & ?). exists x. split; [|done]. by apply lookup_app_l_Some.
  - destruct Hor as (G & b & B & x & HG & ? & ? & ? & ? & HB & Hx & ?).
    exists G, b, B, x. destruct (r_case r) as [[[g0 i] b0]|] eqn:Hcase.
    + destruct (Hf g0 i b0 Hcase) as (_ & Ho' & _ & _). rewrite list_lookup_alter_ne by congruence.
      split_and!; try done; by apply lookup_app_l_Some || tauto.
    + split_and!; try done; by apply lookup_app_l_Some || tauto.
Qed.

Lemma binds_registered w s r :
  rep w s → case_fresh w s r → r_wait r = length (waiters w) →
  binds_rep (register_world r w) (s_regs s ++ [r]).
Proof.
  intros R Hf Hw. destruct (rep_static _ _ _ R) as [H1 H2 H3].
  assert (∀ x, x ∈ s_regs s → (r_wait x < length (waiters w))%nat) as Hlt.
  { intros x Hx. destruct (rep_regs _ _ _ R x Hx) as [Hwx _]. by apply lookup_lt_Some in Hwx. }
  assert (∀ b x, bindings w !! b = Some x → ∀ r', r' ∈ s_regs s ++ [r] → r_wait r' = b_wait x →
    r_binding r' = Some b) as Hold.
  { intros b x Hb r' [Hr'| ->%list_elem_of_singleton]%elem_of_app Hwx; [by eapply H3|].
    pose proof (H2 b x Hb). lia. }
  destruct (r_case r) as [[[g0 i0] b0]|] eqn:Hcase.
  - destruct (Hf g0 i0 b0 Hcase) as (-> & _ & (G0 & HG0 & Hi0) & _).
    split; simpl; rewrite Hcase.
    + intros g G i b HG Hb. destruct (decide (g = g0)) as [->|Hne].
      * rewrite list_lookup_alter_eq, HG0 in HG. injection HG as <-. simpl in Hb.
        pose proof (lookupZ_lt_Some _ _ _ Hb). rewrite lookupZ_to_nat in Hb by lia.
        destruct (decide (i = i0)) as [->|Hni].
        -- rewrite list_lookup_insert_eq in Hb by (unfold lenZ in Hi0; lia). injection Hb as <-.
           eexists. split; [by apply list_lookup_middle|done].
        -- rewrite list_lookup_insert_ne in Hb by lia. rewrite <- lookupZ_to_nat in Hb by lia.
           destruct (H1 _ _ _ _ HG0 Hb) as (x & Hx & Hg). exists x. split; [by apply lookup_app_l_Some|done].
      * rewrite list_lookup_alter_ne in HG by done. destruct (H1 _ _ _ _ HG Hb) as (x & Hx & Hg).
        exists x. split; [by apply lookup_app_l_Some|done].
    + intros b x [Hb|[_ Hb]]%lookup_app_Some; rewrite length_app; simpl; [pose proof (H2 b x Hb); lia|].
      apply list_lookup_singleton_Some in Hb as [_ <-]. simpl. lia.
    + intros b x r' [Hb|[Hl Hb]]%lookup_app_Some; [by apply Hold|].
      apply list_lookup_singleton_Some in Hb as [Hb <-]. simpl. rewrite Hw.
      intros [Hr'| ->%list_elem_of_singleton]%elem_of_app Hwx; [pose proof (Hlt r' Hr'); lia|].
      unfold r_binding. rewrite Hcase. simpl. f_equal. lia.
  - split; simpl; rewrite Hcase; [done| |intros b x r0 Hb; by apply Hold].
    intros b x Hb. rewrite length_app. pose proof (H2 b x Hb). lia.
Qed.

Lemma register_rep w s r :
  rep w s → case_fresh w s r → r_wait r = s_waits s →
  (∀ j, r_task r = Some j → live (jobs w) j) →
  rep (register_world r w) (registered r s).
Proof.
  intros R Hf Hw Ht. rewrite <- (rep_waits _ _ _ R) in Hw.
  split; simpl; rewrite ?length_app; try apply R; try (simpl; rewrite <- ?(rep_waits _ _ _ R); lia).
  - rewrite <- (alter_self (s_chans s) (r_chan r)). eapply chans_alter; [apply R| |].
    + intros c a _ _ Hc. by apply enlist_rep.
    + intros ch c a Hne. by apply enlist_other.
  - intros r' [Hr'| ->%list_elem_of_singleton]%elem_of_app;
      [by eapply reg_rep_registered|by eapply reg_rep_new].
  - intros p o. by eapply out_rep_registered.
  - intros g G. by eapply group_rep_registered.
  - by eapply binds_registered.
  - destruct (rep_jobs _ _ _ R) as [J1 J2 J3 J4 J5 J6]. split; try done.
    intros r' j [Hr'| ->%list_elem_of_singleton]%elem_of_app; [by apply J5|by apply Ht].
  - destruct (r_case r) as [[[g i] b]|]; [rewrite length_alter|]; apply R.
  - destruct (r_case r) as [[[g i] b]|]; [rewrite length_app; simpl; rewrite (rep_binds _ _ _ R); lia|apply R].
Qed.

Lemma register_frame r w : frame w (register_world r w).
Proof.
  split; simpl; try done.
  - intros j x' H. left. by exists x'.
  - intros g G HG. destruct (r_case r) as [[[g0 i] b]|]; [|by exists G].
    destruct (decide (g = g0)) as [->|Hne].
    + rewrite list_lookup_alter_eq, HG. eexists. split; [done|]. simpl. apply length_insert.
    + rewrite list_lookup_alter_ne by done. by exists G.
Qed.

(** * The registering code *)

Lemma bytesFromAddress_wp m a size w (Q : list Z → world → Prop) :
  0 ≤ size → memory w = m → Q (copyAddressToBytes m (Z.to_nat size) a) w →
  wp False (bytesFromAddress a size) Q w.
Proof.
  intros Hs <- HQ. unfold bytesFromAddress. rewrite (proj2 (Z.ltb_ge _ _)) by lia. by repeat wp_step.
Qed.

Section waiting.
Context (w : world) (s : spec) (ch : nat) (a : chan).
Context (R : rep w s) (Ha : s_chans s !! ch = Some a) (Hsize : 0 ≤ a_size a).

Lemma current_live j : h_current (handler w) = Some j → live (jobs w) j.
Proof using R. apply (jr_current _ _ _ _ (rep_jobs _ _ _ R)). Qed.

Lemma plain_fresh n send v t task : case_fresh w s (Reg n ch send v t task None).
Proof using Type. by intros g i b [=]. Qed.

Lemma wait_plain_wp send v t Q :
  (∀ w', rep w' (wait_plain ch send v t (h_current (handler w)) s) → frame w w' →
     Q (Suspends (if send then AtSend (s_waits s) else AtReceive (s_waits s))) w') →
  wp False (s ← get;
    wait ← newWaiter (Waiter v t false false StatusOK (h_current (handler s)));
    c ← getChannel ch;
    _ ← setChannel ch (if send then withSenders (c_senders c ++ [wait])
                       else withReceivers (c_receivers c ++ [wait]));
    mret (Suspends (if send then AtSend wait else AtReceive wait))) Q w.
Proof using R Ha.
  intros HQ. set (r := Reg (s_waits s) ch send v t (h_current (handler w)) None).
  destruct (chans_lookup _ _ _ _ _ _ (rep_chans _ _ _ R) Ha) as (c & Hc & Hcr).
  apply wp_bind, wp_get, wp_bind. unfold newWaiter, setWaiters. repeat wp_step.
  unfold getChannel. repeat wp_step. eapply wp_lift; [exact Hc|]. apply wp_bind, setChannel_wp, wp_ret.
  rewrite (rep_waits _ _ _ R). cbn [handler with_channels h_channels].
  assert (alter (if send then withSenders (c_senders c ++ [s_waits s])
                 else withReceivers (c_receivers c ++ [s_waits s])) ch (h_channels (handler w)) =
          alter (enlist r) ch (h_channels (handler w))) as ->.
  { apply (alter_at _ _ _ _ c); [done|]. unfold enlist, r. simpl. by destruct send. }
  apply (HQ (register_world r w)); [|apply register_frame].
  apply (register_rep w s r R); [apply plain_fresh|done|apply current_live].
Qed.

(** One case of [waitSelect]. *)
Lemma registerCase_wp group i value Q :
  chanAt (v_Channel value) s = Some ch →
  (∃ G, groups w !! group = Some G ∧ 0 ≤ i < lenZ (g_bindings G)) →
  s_out s !! inr group = None →
  (∀ r' i' b', r' ∈ s_regs s → r_case r' = Some (group, i', b') → i' < i) →
  (∀ w', rep w' (spec_register (h_current (handler w)) group i value s) → frame w w' → Q tt w') →
  wp False (c ← getChannel ch;
      s ← get;
      let task := h_current (handler s) in
      binding ← (if v_Direction value =? SelectSend then
        bytes ← bytesFromAddress (v_Value value) (c_elementSize c);
        wait ← newWaiter (Waiter bytes 0 false false selectPendingStatus task);
        binding ← newBinding (SelectBinding wait group i ch true);
        _ ← setGroup group (λ g, SelectWait (<[Z.to_nat i := Some binding]> (g_bindings g))
          (g_selected g) (g_status g));
        _ ← setChannel ch (withSenders (c_senders c ++ [wait]));
        mret binding
      else
        wait ← newWaiter (Waiter [] (v_Value value) false false selectPendingStatus task);
        binding ← newBinding (SelectBinding wait group i ch false);
        _ ← setGroup group (λ g, SelectWait (<[Z.to_nat i := Some binding]> (g_bindings g))
          (g_selected g) (g_status g));
        _ ← setChannel ch (withReceivers (c_receivers c ++ [wait]));
        mret binding);
      setChannel ch (λ c, withSelects (c_selects c ++ [binding]) c)) Q w.
Proof using R Ha Hsize.
  intros Hch HG Ho Hi HQ. unfold spec_register in HQ. rewrite Hch, Ha in HQ.
  set (send := v_Direction value =? SelectSend) in *.
  set (r := Reg (s_waits s) ch send _ _ _ _) in HQ.
  apply wp_bind. eapply getChannel_wp; [done..|]. intros c Hc Hcr.
  apply wp_bind, wp_get, wp_bind. rewrite (cr_size _ _ _ _ _ Hcr).
  assert (rep (register_world r w) (registered r s)) as R'.
  { apply register_rep; [done| |done|apply current_live]. intros g i' b [= <- <- <-].
    split_and!; [by rewrite (rep_binds _ _ _ R)|done|done|].
    intros r' i' b' Hr' Hcase. pose proof (Hi r' i' b' Hr' Hcase). lia. }
  specialize (HQ (register_world r w) R' (register_frame r w)). clear R'.
  assert (∀ f, (λ c, withSelects (c_selects c ++ [s_binds s]) c) (f c) = enlist r c →
    alter (λ c, withSelects (c_selects c ++ [s_binds s]) c) ch (alter f ch (h_channels (handler w))) =
    alter (enlist r) ch (h_channels (handler w))) as Hcs.
  { intros f Hf. rewrite list_alter_alter_eq. apply (alter_at _ _ _ _ c); done. }
  unfold r, register_world in HQ. cbn [r_case r_chan r_wait r_send] in HQ.
  destruct send eqn:Hsend.
  - apply wp_bind. eapply bytesFromAddress_wp; [done|by apply R|].
    unfold newWaiter, newBinding, setGroup, setWaiters, setBindings, setGroups. repeat wp_step.
    apply setChannel_wp. repeat wp_step. apply setChannel_wp.
    cbn [handler with_channels h_channels waiters groups bindings].
    rewrite (rep_waits _ _ _ R), (rep_binds _ _ _ R).
    rewrite (Hcs (withSenders (c_senders c ++ [s_waits s]))) by done.
    exact HQ.
  - unfold newWaiter, newBinding, setGroup, setWaiters, setBindings, setGroups. repeat wp_step.
    apply setChannel_wp. repeat wp_step. apply setChannel_wp.
    cbn [handler with_channels h_channels waiters groups bindings].
    rewrite (rep_waits _ _ _ R), (rep_binds _ _ _ R).
    rewrite (Hcs (withReceivers (c_receivers c ++ [s_waits s]))) by done.
    exact HQ.
Qed.
End waiting.
