(* ===== verification/SerialEvolve.v ===== *)
(** How a call changes the waiting operations: those that it completes get an outcome,
    and their jobs are made ready; those that it adds belong to the statement in which
    it suspends. *)

From stdpp Require Import gmap.
From S2P Require Import Prelude.
From S2P Require Import GoInt.
From S2P Require Import SerialModel.
From S2P Require Import SerialSpec.
From S2P Require Import SerialSpecFacts.

(** Operations complete, none is added. *)
Record shrinks (s s' : spec) : Prop := {
  sh_regs : ∀ r, r ∈ s_regs s' → r ∈ s_regs s;
  sh_kept : ∀ r, r ∈ s_regs s → r ∈ s_regs s' ∨ is_Some (s_out s' !! party r);
  sh_out : ∀ p o, s_out s !! p = Some o → s_out s' !! p = Some o;
  sh_ready : ∀ j, j ∈ s_ready s → j ∈ s_ready s';
  sh_woken : ∀ j, j ∈ s_ready s' → j ∈ s_ready s ∨ ∃ r, r ∈ s_regs s ∧ r_task r = Some j;
  sh_settled : ∀ p, s_out s !! p = None → is_Some (s_out s' !! p) →
    ∃ r, r ∈ s_regs s ∧ party r = p ∧ ∀ j, r_task r = Some j → j ∈ s_ready s';
  sh_names : s_waits s' = s_waits s ∧ s_groups s' = s_groups s
}.

#[global] Instance shrinks_preorder : PreOrder shrinks.
Proof.
  split.
  - intros s. split; auto. intros p Hp [o Ho]. congruence.
  - intros s1 s2 s3 [A1 K1 B1 C1 D1 E1 F1] [A2 K2 B2 C2 D2 E2 F2]. split; auto.
    + intros r [Hr|[o Ho]]%K1; [by apply K2|right]. eauto.
    + intros j [Hj|(r & Hr & Ht)]%D2; [by apply D1|right]. eauto.
    + intros p Hp Hs. destruct (s_out s2 !! p) as [o|] eqn:Hp2.
      * destruct (E1 p Hp) as (r & Hr & Hpr & Hj); [by eexists|]. exists r. auto.
      * destruct (E2 p Hp2 Hs) as (r & Hr & Hpr & Hj). exists r. auto.
    + destruct F1, F2. split; congruence.
Qed.

Lemma shrinks_same s s' :
  s_regs s' = s_regs s → s_out s' = s_out s → s_ready s' = s_ready s → s_waits s' = s_waits s →
  s_groups s' = s_groups s → shrinks s s'.
Proof.
  intros Hr Ho Hq Hw Hg. split; rewrite ?Hr, ?Ho, ?Hq; auto. intros p Hp [o Hs]. congruence.
Qed.

Lemma settle_shrinks r open status s :
  r ∈ s_regs s → s_out s !! party r = None → shrinks s (settle r open status s).
Proof.
  intros Hr Ho. split; simpl; [| | | | | |done].
  - by intros r' [_ ?]%list_elem_of_filter.
  - intros r' Hr'. destruct (decide (party r' = party r)) as [->|Hne].
    + right. rewrite lookup_insert_eq. by eexists.
    + left. by apply list_elem_of_filter.
  - intros p o Hp. rewrite lookup_insert_ne; [done|congruence].
  - intros j Hj. apply awaken_in. by right.
  - intros j [Hj|Hj]%awaken_in; [right; eauto|by left].
  - intros p Hp Hs. destruct (decide (p = party r)) as [->|Hne].
    + exists r. split_and!; [done..|]. intros j Hj. apply awaken_in. by left.
    + rewrite lookup_insert_ne, Hp in Hs by done. by destruct Hs.
Qed.

Definition all_open (s : spec) : Prop := ∀ r, r ∈ s_regs s → s_out s !! party r = None.

Lemma spec_ok_open s : spec_ok s → all_open s.
Proof. intros Hok r Hr. by destruct (ok_regs _ Hok r Hr). Qed.

Lemma settle_open r open status s : all_open s → all_open (settle r open status s).
Proof.
  intros H r' [Hp Hr']%list_elem_of_filter. simpl. rewrite lookup_insert_ne by congruence. by apply H.
Qed.

Lemma settleAll_shrinks fuel ch send open status s :
  all_open s → shrinks s (settleAll fuel ch send open status s).
Proof.
  revert s. induction fuel as [|fuel IH]; intros s Ho; simpl; destruct (waitingOn _ _ _) as [|r l] eqn:Hw; try done.
  destruct (waitingOn_head _ _ _ _ _ Hw) as (Hr & _ & _). etrans; [|apply IH, settle_open, Ho].
  apply settle_shrinks; auto.
Qed.

Lemma settleAll_open fuel ch send open status s :
  all_open s → all_open (settleAll fuel ch send open status s).
Proof.
  revert s. induction fuel as [|fuel IH]; intros s Ho; simpl; destruct (waitingOn _ _ _); try done.
  by apply IH, settle_open.
Qed.

Lemma spec_give_shrinks ch v a s : all_open s → shrinks s (spec_give ch v a s).
Proof.
  intros Ho. unfold spec_give. destruct (waitingOn _ _ _) as [|r l] eqn:Hw; [by apply shrinks_same|].
  destruct (waitingOn_head _ _ _ _ _ Hw) as (Hr & _ & _).
  transitivity (deliver (r_target r) v s); [by apply shrinks_same|]. apply settle_shrinks; [done|by apply Ho].
Qed.

Lemma spec_take_shrinks ch target a s : all_open s → shrinks s (spec_take ch target a s).2.
Proof.
  intros Ho. unfold spec_take. destruct (a_queue a) as [|v q], (waitingOn _ _ _) as [|r l] eqn:Hw; simpl.
  - done.
  - destruct (waitingOn_head _ _ _ _ _ Hw) as (Hr & _ & _).
    transitivity (deliver target (r_value r) s); [by apply shrinks_same|].
    apply settle_shrinks; [done|by apply Ho].
  - by apply shrinks_same.
  - destruct (waitingOn_head _ _ _ _ _ Hw) as (Hr & _ & _).
    transitivity (put_queue ch (q ++ [r_value r]) (deliver target v s)); [by apply shrinks_same|].
    apply settle_shrinks; [done|by apply Ho].
Qed.

Lemma spec_apply_shrinks v s : all_open s → shrinks s (spec_apply v s).2.
Proof.
  intros Ho. unfold spec_apply. destruct (chanAt _ s) as [ch|]; [|done].
  destruct (s_chans s !! ch) as [a|]; [|done]. case_match.
  - destruct (a_closed a); [done|]. by apply spec_give_shrinks.
  - pose proof (spec_take_shrinks ch (v_Value v) a s Ho) as Ht.
    destruct (spec_take _ _ _ _) as [open s']. simpl in *. case_match; [done|].
    etrans; [exact Ht|]. by apply shrinks_same.
Qed.

Lemma spec_close_shrinks handle s : all_open s → shrinks s (spec_close handle s).2.
Proof.
  intros Ho. unfold spec_close. destruct (chanAt _ s) as [ch|]; [|done].
  destruct (s_chans s !! ch) as [a|]; [|done]. destruct (a_closed a); [done|]. simpl.
  etrans; [|apply settleAll_shrinks, settleAll_open; exact Ho].
  etrans; [|apply settleAll_shrinks; exact Ho]. by apply shrinks_same.
Qed.

(** * Calls *)

Definition names_le (s s' : spec) : Prop := (s_waits s ≤ s_waits s')%nat ∧ (s_groups s ≤ s_groups s')%nat.

(** A call that suspends leaves everything else as it is; the operations it adds are
    those of a new party. *)
Record suspends (task : option nat) (p : place) (s s' : spec) : Prop := {
  su_old : ∀ r, r ∈ s_regs s → r ∈ s_regs s';
  su_new : ∀ r, r ∈ s_regs s' → r ∈ s_regs s ∨ (party_of p = Some (party r) ∧ r_task r = task);
  su_party : ∀ q, party_of p = Some q → ¬ used s q ∧ used s' q;
  su_plain : ∀ n, party_of p = Some (inl n) → ∃ r, r ∈ s_regs s' ∧ party r = inl n ∧ r_send r = sending p;
  su_out : s_out s' = s_out s;
  su_ready : s_ready s' = s_ready s;
  su_names : names_le s s';
  su_place : p ≠ AtEntry ∧ (p = AtDrain → s' = s)
}.

Lemma wait_plain_suspends ch (send : bool) v t task s :
  suspends task (if send then AtSend (s_waits s) else AtReceive (s_waits s)) s
    (wait_plain ch send v t task s).
Proof.
  split; simpl; [| | | |done|done|split; simpl; lia|by destruct send].
  - intros r Hr. apply elem_of_app. by left.
  - intros r [Hr| ->%list_elem_of_singleton]%elem_of_app; [by left|right]. by destruct send.
  - intros q Hq. destruct send; injection Hq as <-; simpl; lia.
  - intros n Hn. exists (Reg (s_waits s) ch send v t task None).
    split; [apply elem_of_app; right; by left|]. by destruct send; injection Hn as <-.
Qed.

Lemma spec_register_regs task group i v s r :
  (r ∈ s_regs s → r ∈ s_regs (spec_register task group i v s)) ∧
  (r ∈ s_regs (spec_register task group i v s) → r ∈ s_regs s ∨ (party r = inr group ∧ r_task r = task)).
Proof.
  unfold spec_register. destruct (chanAt _ s) as [ch|]; [|auto].
  destruct (s_chans s !! ch) as [a|]; [|auto]. simpl. split.
  - intros Hr. apply elem_of_app. by left.
  - intros [Hr| ->%list_elem_of_singleton]%elem_of_app; auto.
Qed.

Lemma spec_register_rest task group i v s :
  s_ready (spec_register task group i v s) = s_ready s ∧
  (s_waits s ≤ s_waits (spec_register task group i v s))%nat.
Proof.
  unfold spec_register. destruct (chanAt _ s) as [ch|]; [|auto].
  destruct (s_chans s !! ch) as [a|]; [|auto]. simpl. auto.
Qed.

Lemma spec_registerCases_evolve task group cases i s :
  let s' := spec_registerCases task group i cases s in
  (∀ r, r ∈ s_regs s → r ∈ s_regs s') ∧
  (∀ r, r ∈ s_regs s' → r ∈ s_regs s ∨ (party r = inr group ∧ r_task r = task)) ∧
  s_out s' = s_out s ∧ s_ready s' = s_ready s ∧ s_groups s' = s_groups s ∧ (s_waits s ≤ s_waits s')%nat.
Proof.
  revert i s. induction cases as [|v cases IH]; intros i s; simpl; [auto 10|].
  pose proof (spec_register_groups task group i v s) as (Hg & Ho & _).
  pose proof (spec_register_rest task group i v s) as [Hr Hw].
  destruct (IH (i + 1) (spec_register task group i v s)) as (H1 & H2 & H3 & H4 & H5 & H6).
  split; [|split; [|split_and!; congruence || lia]].
  - intros r Hin. by apply H1, spec_register_regs.
  - intros r [Hin|?]%H2; [|auto]. by apply spec_register_regs in Hin.
Qed.

(** A call either returns after completing some operations, with [job] ready if it
    spawned it, or suspends. *)
Definition evolves (task : option nat) (job : nat) (out : outcome) (s s' : spec) : Prop :=
  match out with
  | Returns _ => shrinks s s' ∨ s' = put_ready (s_ready s ++ [job]) s
  | Suspends p => suspends task p s s'
  end.

Lemma spec_dispatch_place task job o s p :
  (spec_dispatch task job o s).1 = Suspends p →
  (p = AtDrain → o = CallDrain) ∧
  ∀ g cases, p = AtSelect g cases → ∃ hasDefault, o = CallChanSelect cases hasDefault.
Proof.
  destruct o; simpl; unfold spec_create, spec_send, spec_receive, spec_select; intros H;
    repeat (case_match; simpl in *); try done; try (injection H as <-); try (by split).
  split; [done|]. intros g cs [= <- <-]. eauto.
Qed.

Lemma suspends_nowhere task p s :
  party_of p = None → p ≠ AtEntry → suspends task p s s.
Proof.
  intros Hp Hne. split; auto; by rewrite ?Hp.
Qed.

Lemma spec_select_evolves task cases hasDefault job s :
  spec_ok s →
  evolves task job (spec_select task cases hasDefault s).1 s (spec_select task cases hasDefault s).2.
Proof.
  intros Hok. unfold spec_select. pose proof (choice_spec (s_next s) (spec_readyCases 0 cases s) (ok_next _ Hok)) as Hch.
  destruct (_ !!z _) as [choice|] eqn:Hc.
  - destruct (readyCases_lookup _ _ _ _ _ Hc) as (v & Hv & Hr). rewrite Z.sub_0_r in Hv. rewrite Hv.
    pose proof (spec_apply_shrinks v (put_next (s_next s + 1) s) (spec_ok_open _ Hok)) as Ha.
    destruct (spec_apply _ _) as [status s']. simpl in *. left. etrans; [|exact Ha]. by apply shrinks_same.
  - destruct hasDefault; [by left|]. simpl.
    destruct (spec_registerCases_evolve task (s_groups s) cases 0
      (Spec (s_chans s) (s_regs s) (s_out s) (s_ready s) (s_next s) (s_mem s)
               (s_waits s) (S (s_groups s)) (s_binds s))) as (H1 & H2 & H3 & H4 & H5 & H6).
    simpl in *. split; try done.
    + intros r Hr. destruct (H2 r Hr) as [?|[Hp Ht]]; [by left|right]. by rewrite Hp.
    + intros q [= <-]. simpl. rewrite H5. simpl. lia.
    + split; [done|]. rewrite H5. simpl. lia.
Qed.

Lemma spec_dispatch_evolves task job o s :
  spec_ok s →
  evolves task job (spec_dispatch task job o s).1 s (spec_dispatch task job o s).2.
Proof.
  intros Hok. pose proof (spec_ok_open _ Hok) as Ho. destruct o; simpl.
  - by right.
  - unfold spec_create. destruct (capacity <? 0); simpl; left; by apply shrinks_same.
  - unfold spec_send. destruct (chanAt _ s) as [ch|]; [|by apply suspends_nowhere].
    destruct (s_chans s !! ch) as [a|]; [|by apply suspends_nowhere].
    destruct (a_closed a); [by left|]. case_match; [apply (wait_plain_suspends _ true)|].
    left. by apply spec_give_shrinks.
  - unfold spec_receive. destruct (chanAt _ s) as [ch|]; [|by apply suspends_nowhere].
    destruct (s_chans s !! ch) as [a|]; [|by apply suspends_nowhere].
    case_match; [apply (wait_plain_suspends _ false)|].
    pose proof (spec_take_shrinks ch target a s Ho). destruct (spec_take _ _ _ _). by left.
  - by apply spec_select_evolves.
  - pose proof (spec_close_shrinks handle s Ho). destruct (spec_close _ _). by left.
  - by left.
  - by left.
  - by apply suspends_nowhere.
  - left. by apply shrinks_same.
Qed.
