(* ===== verification/SerialCalls.v ===== *)
(** The calls of the handler refine the calls of the channel machine.

    Closing a channel, and the refinement theorem for all calls together. *)

From stdpp Require Import gmap.
From S2P Require Import Prelude.
From S2P Require Import GoInt.
From S2P Require Import SerialModel.
From S2P Require Import SerialSpec.
From S2P Require Import SerialSpecFacts.
From S2P Require Import SerialRep.
From S2P Require Import SerialFinish.
From S2P Require Import SerialOps.
From S2P Require Import SerialEvolve.

(** The value that is sent does not overlap the places where receivers wait for one. *)
Definition source_ok (w : world) (value : Z) : Prop :=
  ∀ c n x, c ∈ h_channels (handler w) → n ∈ c_receivers c → waiters w !! n = Some x →
    apart (w_target x) value (Z.to_nat (c_elementSize c)).

(** What the handler relies on: a channel whose buffer has a size, sources that are not
    targets, and [Drain] called by the main program. *)
Definition call_ok (w : world) (o : call) : Prop :=
  match o with
  | CallChanSend _ value => source_ok w value
  | CallChanSelect cases _ =>
      Forall (λ v, v_Direction v = SelectSend → source_ok w (v_Value v)) cases
  | CallDrain => h_current (handler w) = None
  | _ => fits o
  end.

Lemma source_apart w s value ch a r :
  rep w s → source_ok w value → s_chans s !! ch = Some a → r ∈ waitingOn ch false (s_regs s) →
  apart (r_target r) value (Z.to_nat (a_size a)).
Proof.
  intros R Hok Ha Hr. destruct (chans_lookup _ _ _ _ _ _ (rep_chans _ _ _ R) Ha) as (c & Hc & Hcr).
  assert (r ∈ s_regs s) as Hin by (by apply waitingOn_in in Hr as [_ ?]).
  destruct (rep_regs _ _ _ R r Hin) as [Hw _]. rewrite <- (cr_size _ _ _ _ _ Hcr).
  apply (Hok c (r_wait r) (waiter_of r)); [by eapply list_elem_of_lookup_2| |done].
  rewrite (cr_receivers _ _ _ _ _ Hcr). by apply list_elem_of_fmap_2.
Qed.

Lemma channelOf_run w s handle : rep w s → channelOf handle w = Some (chanAt handle s, w).
Proof.
  intros R. unfold channelOf, chanAt, mbind, GoM_bind, get, lenZ.
  destruct (rep_chans _ _ _ R) as [-> _]. by case_match.
Qed.

Lemma chanAt_lookup handle s ch : chanAt handle s = Some ch → ∃ a, s_chans s !! ch = Some a.
Proof.
  unfold chanAt. case_match eqn:Hb; [done|]. intros [= <-].
  apply orb_false_iff in Hb as [?%Z.ltb_ge ?%Z.leb_gt]. apply lookup_lt_is_Some_2.
  unfold lenZ in *. lia.
Qed.

(** Every call starts by looking up its handle. *)
Lemma channelOf_wp {A} w s handle (K : option nat → M A) Q :
  rep w s → (chanAt handle s = None → wp False (K None) Q w) →
  (∀ ch a, chanAt handle s = Some ch → s_chans s !! ch = Some a → wp False (K (Some ch)) Q w) →
  wp False (ch ← channelOf handle; K ch) Q w.
Proof.
  intros R Hn Hs. apply wp_bind. eapply wp_eq; [by eapply channelOf_run|].
  destruct (chanAt handle s) as [ch|] eqn:Hch; [|by apply Hn].
  destruct (chanAt_lookup _ _ _ Hch) as [a Ha]. by eapply Hs.
Qed.

(** * Send and receive *)

Lemma ChanSend_wp w s handle value Q :
  rep w s → spec_ok s → source_ok w value →
  (∀ w', rep w' (spec_send (h_current (handler w)) handle value s).2 → frame w w' →
     Q (spec_send (h_current (handler w)) handle value s).1 w') →
  wp False (ChanSend handle value) Q w.
Proof.
  intros R Hok Hsrc HQ. unfold ChanSend. eapply channelOf_wp; [done| |].
  { intros Hch. unfold spec_send in HQ. rewrite Hch in HQ. by apply wp_ret, HQ. }
  intros ch a Hch Ha. unfold spec_send in HQ. rewrite Hch, Ha in HQ.
  pose proof (spec_ok_pending _ Hok) as Hp. pose proof (ok_chans _ Hok ch a Ha) as Hca.
  apply wp_bind. eapply getChannel_wp; [done..|]. intros c _ [Hcs Hcc -> Hcl _ _ _ _].
  rewrite Hcs, Hcc, Hcl. destruct (a_closed a); [by apply wp_ret, HQ|].
  apply wp_bind. eapply (pop_wp _ _ _ _ R Hp Ha false).
  - intros Hw. unfold spec_give in HQ. rewrite Hw, bool_decide_true in HQ by done. simpl in HQ.
    destruct (Z.ltb_spec (lenZ (a_queue a)) (a_cap a)) as [Hlt|Hge].
    + rewrite (proj2 (Z.leb_gt _ _)) in HQ by done. apply wp_bind.
      eapply pushBuffer_wp; [done..|]. intros w' R' Hf. by apply wp_ret, HQ.
    + rewrite (proj2 (Z.leb_le _ _)) in HQ by done. apply wp_bind.
      eapply bytesFromAddress_wp; [apply Hca|by apply R|].
      by apply (wait_plain_wp w s ch a R Ha true).
  - intros r rest cs Hw R'. unfold spec_give in HQ. rewrite Hw, bool_decide_false in HQ by done. simpl in HQ.
    destruct (waitingOn_head _ _ _ _ _ Hw) as (Hr & _ & Hs).
    apply wp_bind3. eapply handover_wp; [done..| |].
    + eapply source_apart; [done..|]. rewrite Hw. by left.
    + intros w' Hw' Hf. by apply wp_ret, HQ.
Qed.

Lemma ChanReceive_wp w s handle target Q :
  rep w s → spec_ok s →
  (∀ w', rep w' (spec_receive (h_current (handler w)) handle target s).2 → frame w w' →
     Q (spec_receive (h_current (handler w)) handle target s).1 w') →
  wp False (ChanReceive handle target) Q w.
Proof.
  intros R Hok HQ. unfold ChanReceive. eapply channelOf_wp; [done| |].
  { intros Hch. unfold spec_receive in HQ. rewrite Hch in HQ. by apply wp_ret, HQ. }
  intros ch a Hch Ha. unfold spec_receive in HQ. rewrite Hch, Ha in HQ.
  apply wp_bind. eapply getChannel_wp; [done..|]. intros c _ [_ _ -> Hcl _ _ _ _].
  eapply receive_wp; [done..| |].
  - intros w' R' Hf Ht. apply wp_ret.
    assert (bool_decide (a_queue a = []) && bool_decide (waitingOn ch true (s_regs s) = []) = false) as Hb.
    { unfold spec_take in Ht. destruct (a_queue a), (waitingOn ch true (s_regs s)); done. }
    rewrite Hb in HQ. simpl in HQ. destruct (spec_take ch target a s) as [open s']. simpl in *. subst.
    by apply HQ.
  - intros Hq Hw. unfold spec_take in HQ. rewrite Hq, Hw in HQ. rewrite !bool_decide_true in HQ by done. simpl in HQ.
    destruct (a_closed a); simpl in HQ; [by apply wp_ret, HQ|].
    by apply (wait_plain_wp w s ch a R Ha false).
Qed.

(** * Select *)

Lemma pure_bind {A B} (c : M A) (f : A → M B) w a : c w = Some (a, w) → (c ≫= f) w = f a w.
Proof. unfold mbind, GoM_bind. by intros ->. Qed.

Lemma lenZ_positive {A} (l : list A) : (0 <? lenZ l) = negb (bool_decide (l = [])).
Proof.
  destruct l; [by rewrite bool_decide_true|]. rewrite bool_decide_false by done. by apply Z.ltb_lt.
Qed.

Lemma waiters_positive (l : list registration) :
  (0 <? lenZ (r_wait <$> l)) = negb (bool_decide (l = [])).
Proof. rewrite <- lenZ_positive. unfold lenZ. by rewrite length_fmap. Qed.

Lemma wp_bind2 {S A B C} (c : GoM S A) (f : A → GoM S B) (K : B → GoM S C) Q s :
  wp False (x ← c; f x) (λ z, wp False (K z) Q) s → wp False (x ← c; z ← f x; K z) Q s.
Proof.
  unfold wp, mbind, GoM_bind. destruct (c s) as [[x s1]|]; [|done]. by destruct (f x s1) as [[y s2]|].
Qed.

Lemma selectReady_run w s value : rep w s → selectReady value w = Some (spec_ready value s, w).
Proof.
  intros R. unfold selectReady. erewrite pure_bind by (by eapply channelOf_run). unfold spec_ready.
  destruct (chanAt (v_Channel value) s) as [ch|] eqn:Hch; [|done].
  destruct (chanAt_lookup _ _ _ Hch) as [a Ha].
  destruct (chans_lookup _ _ _ _ _ _ (rep_chans _ _ _ R) Ha) as (c & Hc & Hcr).
  assert (getChannel ch w = Some (c, w)) as Hget.
  { unfold getChannel, mbind, GoM_bind, get, lift. by rewrite Hc. }
  rewrite (pure_bind _ _ _ _ Hget), Ha. destruct Hcr as [_ -> -> -> _ -> -> _]. rewrite !waiters_positive.
  rewrite lenZ_positive. by case_match.
Qed.

Lemma readyCases_run w s i cases :
  rep w s → readyCases i cases w = Some (spec_readyCases i cases s, w).
Proof.
  intros R. revert i. induction cases as [|v cases IH]; intros i; simpl; [done|].
  rewrite (pure_bind _ _ _ _ (selectReady_run w s v R)), (pure_bind _ _ _ _ (IH (i + 1))).
  by destruct (spec_ready v s).
Qed.

Lemma selectApply_wp w s value Q :
  rep w s → spec_ok s → (v_Direction value = SelectSend → source_ok w (v_Value value)) →
  spec_ready value s = true →
  (∀ w', rep w' (spec_apply value s).2 → frame w w' → Q (spec_apply value s).1 w') →
  wp False (selectApply value) Q w.
Proof.
  intros R Hok Hsrc Hready HQ. unfold spec_ready in Hready. unfold selectApply. unfold spec_apply in HQ.
  eapply channelOf_wp; [done| |]; [by intros Hch; rewrite Hch in Hready|].
  intros ch a Hch Ha. rewrite Hch, Ha in *. apply wp_bind. eapply wp_lift; [done|].
  pose proof (spec_ok_pending _ Hok) as Hp. pose proof (ok_chans _ Hok ch a Ha) as Hca.
  apply wp_bind. eapply getChannel_wp; [done..|]. intros c _ [Hcs _ -> Hcl _ _ _ _]. rewrite Hcs.
  destruct (Z.eqb_spec (v_Direction value) SelectSend) as [Hd|Hd].
  - destruct (a_closed a); [by apply wp_ret, HQ|]. simpl in *. apply wp_bind2.
    eapply give_wp; [done..| | |].
    + intros Hw. rewrite Hw, bool_decide_true in Hready by done. simpl in Hready. lia.
    + intros r Hr. by eapply source_apart; [|apply Hsrc| |].
    + intros w' R' Hf. by apply wp_ret, HQ.
  - apply wp_bind. eapply receive_wp; [done..| |].
    + intros w' R' Hf Ht. apply wp_ret. destruct (spec_take ch (v_Value value) a s) as [open s'].
      simpl in *. subst open. apply wp_bind. destruct (v_ReceiveOK value =? 0).
      * by apply wp_ret, wp_ret, HQ.
      * unfold storeBool, setMemory. apply wp_modify, wp_ret. rewrite (rep_mem _ _ _ R').
        apply HQ; [by apply repq_mem|]. etrans; [exact Hf|]. apply frame_memory.
    + intros Hq Hw. apply wp_ret. unfold spec_take in HQ. rewrite Hq, Hw in HQ. simpl in HQ.
      apply wp_bind. destruct (v_ReceiveOK value =? 0).
      * by apply wp_ret, wp_ret, HQ.
      * unfold storeBool, setMemory. apply wp_modify, wp_ret. rewrite (rep_mem _ _ _ R).
        apply HQ; [by apply repq_mem|]. apply frame_memory.
Qed.

(** ** Waiting for a case *)

Lemma registerCases_wp group total task cases : ∀ w s i Q,
  rep w s → spec_ok s → h_current (handler w) = task →
  Forall (λ v, case_waits group v s) cases → (group < s_groups s)%nat →
  s_out s !! inr group = None → cases_task task group s →
  (∃ G, groups w !! group = Some G ∧ length (g_bindings G) = total) → 0 ≤ i →
  i + lenZ cases = Z.of_nat total →
  (∀ r i' b, r ∈ s_regs s → r_case r = Some (group, i', b) → i' < i) →
  (∀ w', rep w' (spec_registerCases task group i cases s) → frame w w' → Q tt w') →
  wp False (registerCases group i cases) Q w.
Proof.
  induction cases as [|v cases IH]; intros w s i Q R Hok Hcur Hcw Hg Ho Htask HG Hi Ht Hlow HQ; simpl.
  { by apply wp_ret, HQ. }
  inversion_clear Hcw as [|?? Hv Hcases]. pose proof (lenZ_nonneg cases). rewrite lenZ_cons in Ht.
  destruct HG as (G & HG & HGl).
  pose proof (spec_register_groups task group i v s) as (E1 & E2 & E3).
  assert (∀ w', rep w' (spec_register task group i v s) → frame w w' →
    wp False (registerCases group (i + 1) cases) Q w') as Hnext.
  { intros w' R' Hf. eapply (IH w' (spec_register task group i v s)).
    - exact R'.
    - by apply spec_register_ok.
    - by rewrite (fr_current _ _ Hf).
    - eapply Forall_impl; [exact Hcases|]. intros x Hx. by apply spec_register_waits.
    - by rewrite E1.
    - by rewrite E2.
    - by apply spec_register_task.
    - destruct (fr_groups _ _ Hf _ _ HG) as (G' & HG' & Hl). exists G'. split; [done|congruence].
    - lia.
    - lia.
    - intros r i' b Hr Hcase. unfold spec_register in Hr. destruct (chanAt _ _) as [ch|].
      2: { pose proof (Hlow r i' b Hr Hcase). lia. }
      destruct (s_chans s !! ch) as [a|].
      2: { pose proof (Hlow r i' b Hr Hcase). lia. }
      apply elem_of_app in Hr as [Hr| ->%list_elem_of_singleton].
      + pose proof (Hlow r i' b Hr Hcase). lia.
      + injection Hcase as <-. lia.
    - intros w2 R2 Hf2. apply HQ; [done|]. by transitivity w'. }
  apply wp_bind. unfold registerCase. eapply channelOf_wp; [done| |].
  - intros Hch. apply wp_ret. apply Hnext; [|done]. unfold spec_register. by rewrite Hch.
  - intros ch a Hch Ha. eapply registerCase_wp; [done|done| |done| |done|done|].
    + by apply (ok_chans _ Hok ch a).
    + exists G. split; [done|]. unfold lenZ. lia.
    + intros w' R' Hf. rewrite Hcur in R'. by apply Hnext.
Qed.

(** A select statement that waits has a group with a binding for each case. *)
Definition placed (w : world) (out : outcome) : Prop :=
  ∀ g cases, out = Suspends (AtSelect g cases) →
    ∃ G, groups w !! g = Some G ∧ length (g_bindings G) = length cases.

Lemma newGroup_wp w s n Q :
  rep w s → spec_ok s →
  (∀ w', rep w' (Spec (s_chans s) (s_regs s) (s_out s) (s_ready s) (s_next s) (s_mem s)
       (s_waits s) (S (s_groups s)) (s_binds s)) → frame w w' → h_current (handler w') = h_current (handler w) →
     groups w' !! s_groups s = Some (SelectWait (replicate n None) (-1) 0) → Q (s_groups s) w') →
  wp False (newGroup (SelectWait (replicate n None) (-1) 0)) Q w.
Proof.
  intros R Hok HQ. unfold newGroup, setGroups. repeat wp_step. rewrite (rep_ngroups _ _ _ R).
  apply HQ; [|split|done|].
  - destruct R as [Rc Rr Ro Rg Rs Rj Rn Rm Rw Rgl Rb].
    split; try done; simpl; rewrite ?length_app; simpl; try lia.
    + intros r Hr. destruct (Rr r Hr) as [Hw Hc]. split; [done|]. intros g i b Hcase.
      destruct (Hc g i b Hcase) as (? & G & HG & ?). split; [done|]. exists G. split; [|done].
      by apply lookup_app_l_Some.
    + intros p o Ho. pose proof (Ro p o Ho) as Hor. destruct p as [m|g]; [done|].
      destruct Hor as (G & b & B & x & HG & ?). exists G, b, B, x. split; [|done]. by apply lookup_app_l_Some.
    + intros g G [HG|[Hl HG]]%lookup_app_Some; [by apply Rg|]. intros _.
      apply list_lookup_singleton_Some in HG as [_ <-]. split; [done|]. simpl. intros i b Hi.
      pose proof (lookupZ_lt_Some _ _ _ Hi). rewrite lookupZ_to_nat in Hi by lia.
      apply lookup_replicate in Hi as [? _]. done.
    + destruct Rs as [H1 H2 H3]. split; [|done..]. simpl.
      intros g G i b [HG|[_ HG]]%lookup_app_Some; [by apply H1|].
      apply list_lookup_singleton_Some in HG as [_ <-]. simpl. intros Hi.
      pose proof (lookupZ_lt_Some _ _ _ Hi). rewrite lookupZ_to_nat in Hi by lia.
      by apply lookup_replicate in Hi as [? _].
  - done.
  - done.
  - done.
  - intros j x Hx. left. by exists x.
  - intros g G HG. exists G. split; [|done]. simpl. by apply lookup_app_l_Some.
  - simpl. rewrite <- (rep_ngroups _ _ _ R). by apply list_lookup_middle.
Qed.

Lemma setSelectNext_wp w s n Q :
  rep w s → (∀ w', rep w' (put_next n s) → frame w w' →
    (∀ v, source_ok w v → source_ok w' v) → Q tt w') →
  wp False (setSelectNext n) Q w.
Proof.
  intros R HQ. unfold setSelectNext, setHandler. repeat wp_step. apply HQ; [|split; try done|done].
  - destruct R as [Rc Rr Ro Rg Rs Rj Rn Rm Rw Rgl Rb]. split; try done; [by destruct Rs; split|by destruct Rj; split].
  - intros j x Hx. left. by exists x.
  - intros g G HG. by exists G.
Qed.

Lemma spec_select_base s :
  spec_ok s →
  spec_ok (Spec (s_chans s) (s_regs s) (s_out s) (s_ready s) (s_next s) (s_mem s)
    (s_waits s) (S (s_groups s)) (s_binds s)) ∧
  s_out s !! inr (s_groups s) = None ∧
  ∀ r i b, r ∈ s_regs s → r_case r ≠ Some (s_groups s, i, b).
Proof.
  intros Hok. split_and!.
  - destruct Hok as [Hr Hn Hm Ht Hcs Hu Hq Hx]. split; try done.
    + intros r Hin. destruct (Hr r Hin) as [[Hw Hcase] ? ?]. split; [|done..]. split; [done|].
      intros g i b H. destruct (Hcase g i b H). simpl. lia.
    + intros p o Hp%Hu. destruct p; simpl in *; lia.
  - destruct (s_out s !! _) eqn:Ho; [|done]. apply (ok_used _ Hok) in Ho. simpl in Ho. lia.
  - intros r i b Hr Hcase. destruct (ok_regs _ Hok r Hr) as [[_ Hn] _ _]. destruct (Hn _ _ _ Hcase). lia.
Qed.

Lemma waitSelect_wp w s cases Q :
  rep w s → spec_ok s → Forall (λ v, spec_ready v s = false) cases →
  (∀ w', rep w' (spec_registerCases (h_current (handler w)) (s_groups s) 0 cases
       (Spec (s_chans s) (s_regs s) (s_out s) (s_ready s) (s_next s) (s_mem s)
          (s_waits s) (S (s_groups s)) (s_binds s))) → frame w w' →
     placed w' (Suspends (AtSelect (s_groups s) cases)) →
     Q (Suspends (AtSelect (s_groups s) cases)) w') →
  wp False (waitSelect cases) Q w.
Proof.
  intros R Hok Hn HQ. destruct (spec_select_base s Hok) as (Hok1 & Ho & Hno).
  unfold waitSelect. apply wp_bind. eapply newGroup_wp; [done..|]. intros w1 R1 Hf1 Hcur HG.
  apply wp_bind. eapply (registerCases_wp _ (length cases) (h_current (handler w)) cases w1 _ 0 _ R1 Hok1).
  - done.
  - eapply Forall_impl; [exact Hn|]. intros v Hv. by apply unready_waits.
  - simpl. lia.
  - done.
  - intros r Hr (i & b & Hcase)%party_case. by destruct (Hno r i b Hr).
  - eexists. split; [exact HG|]. apply length_replicate.
  - done.
  - done.
  - intros r i' b Hr Hcase. by destruct (Hno r i' b Hr).
  - intros w2 R2 Hf2. apply wp_ret, HQ; [done|by transitivity w1|]. intros g cs [= <- <-].
    destruct (fr_groups _ _ Hf2 _ _ HG) as (G & HG2 & Hl). exists G. split; [done|].
    rewrite Hl. apply length_replicate.
Qed.

Lemma spec_ready_next v n s : spec_ready v (put_next n s) = spec_ready v s.
Proof. done. Qed.

Lemma ChanSelect_wp w s cases hasDefault Q :
  rep w s → spec_ok s → Forall (λ v, v_Direction v = SelectSend → source_ok w (v_Value v)) cases →
  (∀ w', rep w' (spec_select (h_current (handler w)) cases hasDefault s).2 → frame w w' →
     placed w' (spec_select (h_current (handler w)) cases hasDefault s).1 →
     Q (spec_select (h_current (handler w)) cases hasDefault s).1 w') →
  wp False (ChanSelect cases hasDefault) Q w.
Proof.
  intros R Hok Hsrc HQ. unfold ChanSelect. apply wp_bind. eapply wp_eq; [by apply readyCases_run|].
  pose proof (ok_next _ Hok) as Hnext. unfold spec_select in HQ.
  pose proof (choice_spec (s_next s) (spec_readyCases 0 cases s) Hnext) as Hch.
  destruct (spec_readyCases 0 cases s !!z _) as [choice|] eqn:Hc.
  - rewrite lenZ_positive, bool_decide_false by done. simpl. apply wp_bind, wp_get, wp_bind.
    rewrite (rep_next _ _ _ R). eapply wp_lift; [exact Hc|].
    destruct (readyCases_lookup _ _ _ _ _ Hc) as (v & Hv & Hr). rewrite Z.sub_0_r in Hv. rewrite Hv in HQ.
    apply wp_bind. eapply setSelectNext_wp; [done|]. intros w1 R1 Hf1 Hsrc1.
    apply wp_bind. eapply wp_lift; [exact Hv|]. apply wp_bind.
    eapply selectApply_wp; [exact R1|by apply put_next_ok; [|lia]| |done|].
    + intros Hd. apply Hsrc1. pose proof (lookupZ_lt_Some _ _ _ Hv). rewrite lookupZ_to_nat in Hv by lia.
      exact (Forall_lookup_1 _ _ _ _ Hsrc Hv Hd).
    + intros w2 R2 Hf2. apply wp_ret. destruct (spec_apply _ _) as [status s']. simpl in *.
      apply HQ; [done|by transitivity w1|by intros g cs].
  - rewrite lenZ_positive, bool_decide_true by done. simpl.
    destruct hasDefault; [by apply wp_ret, HQ|].
    eapply waitSelect_wp; [done..|by eapply readyCases_nil|exact HQ].
Qed.

Section closing.
Context (ch : nat) (a : chan).

Lemma closeSenders_wp fuel : ∀ w s Q,
  rep w s → pending s → s_chans s !! ch = Some a →
  (length (waitingOn ch true (s_regs s)) ≤ fuel)%nat →
  (∀ w', rep w' (settleAll fuel ch true false StatusClosed s) → frame w w' → Q tt w') →
  wp False (closeSenders fuel ch) Q w.
Proof using Type.
  induction fuel as [|fuel IH]; intros w s Q R Hp Ha Hf HQ; simpl in *; apply wp_bind;
    eapply (pop_wp _ _ _ _ R Hp Ha true).
  - intros Hw. rewrite Hw in HQ. by apply wp_ret, HQ.
  - intros r rest cs Hw _. rewrite Hw in Hf. simpl in Hf. lia.
  - intros Hw. rewrite Hw in HQ. by apply wp_ret, HQ.
  - intros r rest cs Hw R'. rewrite Hw in HQ. destruct (waitingOn_head _ _ _ _ _ Hw) as (Hr & _ & _).
    apply wp_bind. eapply finish_wp; [exact R'|done|done|apply closedSender_outcome|].
    intros w' Hw' Hfr. eapply IH; [exact Hw'|by apply settle_pending|done| |].
    + rewrite waitingOn_settle, Hw, filter_cons_False by tauto. rewrite Hw in Hf. simpl in Hf.
      etransitivity; [apply length_filter|]. lia.
    + intros w2 R2 Hf2. apply HQ; [done|]. etrans; [apply (frame_channels cs)|]. by etrans.
Qed.

Lemma closeReceivers_wp fuel : ∀ w s Q,
  rep w s → pending s → s_chans s !! ch = Some a →
  (length (waitingOn ch false (s_regs s)) ≤ fuel)%nat →
  (∀ w', rep w' (settleAll fuel ch false false StatusOK s) → frame w w' → Q tt w') →
  wp False (closeReceivers fuel ch) Q w.
Proof using Type.
  induction fuel as [|fuel IH]; intros w s Q R Hp Ha Hf HQ; simpl in *; apply wp_bind;
    eapply (pop_wp _ _ _ _ R Hp Ha false).
  - intros Hw. rewrite Hw in HQ. by apply wp_ret, HQ.
  - intros r rest cs Hw _. rewrite Hw in Hf. simpl in Hf. lia.
  - intros Hw. rewrite Hw in HQ. by apply wp_ret, HQ.
  - intros r rest cs Hw R'. rewrite Hw in HQ. destruct (waitingOn_head _ _ _ _ _ Hw) as (Hr & _ & _).
    apply wp_bind. eapply finish_wp; [exact R'|done|done|apply doneReceiver_outcome|].
    intros w' Hw' Hfr. eapply IH; [exact Hw'|by apply settle_pending|done| |].
    + rewrite waitingOn_settle, Hw, filter_cons_False by tauto. rewrite Hw in Hf. simpl in Hf.
      etransitivity; [apply length_filter|]. lia.
    + intros w2 R2 Hf2. apply HQ; [done|]. etrans; [apply (frame_channels cs)|]. by etrans.
Qed.

(** No receiver waits on a channel with values: the second loop does nothing. *)
Lemma closeBuffered_wp fuel w s Q :
  rep w s → s_chans s !! ch = Some a →
  (waitingOn ch false (s_regs s) ≠ [] → a_queue a = []) → Q tt w →
  wp False (closeBuffered fuel ch) Q w.
Proof using Type.
  intros R Ha Hq HQ. destruct fuel; simpl; (apply wp_bind; eapply getChannel_wp; [done..|];
    intros c _ [_ _ _ -> _ _ -> _]; rewrite waiters_positive, lenZ_positive;
    destruct (waitingOn ch false (s_regs s)); [by apply wp_ret|]; rewrite Hq by done; by apply wp_ret).
Qed.
End closing.

Lemma withClosed_rep w s ch :
  rep w s →
  rep (with_channels (alter withClosed ch (h_channels (handler w))) w)
    (put_chan ch (λ a, Chan (a_size a) (a_cap a) true (a_queue a)) s).
Proof.
  intros R. apply (repq_channels (s_regs s)); [done|]. eapply chans_alter; [apply R| |done].
  intros c a _ _ []. by split.
Qed.

Lemma ChanClose_wp w s handle Q :
  rep w s → spec_ok s →
  (∀ w', rep w' (spec_close handle s).2 → frame w w' → Q (spec_close handle s).1 w') →
  wp False (ChanClose handle) Q w.
Proof.
  intros R Hok HQ. unfold ChanClose. unfold spec_close in HQ. eapply channelOf_wp; [done| |].
  { intros Hch. rewrite Hch in HQ. by apply wp_ret, HQ. }
  intros ch a Hch Ha. rewrite Hch, Ha in HQ. pose proof (spec_ok_pending _ Hok) as Hp.
  apply wp_bind. eapply getChannel_wp; [done..|]. intros c _ [_ _ -> _ _ Hcs Hcr _].
  destruct (a_closed a); [by apply wp_ret, HQ|]. rewrite Hcs, Hcr, !length_fmap.
  apply wp_bind, setChannel_wp. pose proof (withClosed_rep w s ch R) as R1.
  set (w1 := with_channels _ w) in *. set (s1 := put_chan ch _ s) in *. set (a1 := Chan (a_size a) (a_cap a) true (a_queue a)).
  assert (s_chans s1 !! ch = Some a1) as Ha1 by (simpl; by rewrite list_lookup_alter_eq, Ha).
  assert (pending s1) as Hp1 by (by apply put_chan_pending).
  apply wp_bind. eapply (closeSenders_wp ch a1 _ w1 s1); [done..|]. intros w2 R2 Hf2.
  set (s2 := settleAll _ ch true false StatusClosed s1) in *.
  assert (pending s2) as Hp2.
  { unfold s2, s1. rewrite settleAll_put_chan. by apply put_chan_pending, spec_ok_pending, settleAll_ok. }
  assert (s_chans s2 !! ch = Some a1) as Ha2 by (unfold s2; by rewrite settleAll_chans).
  apply wp_bind. eapply (closeBuffered_wp ch a1 _ w2 s2); [done..| |].
  { intros Hne. destruct (waitingOn ch false (s_regs s2)) as [|r rest] eqn:Hw; [done|].
    destruct (waitingOn_head _ _ _ _ _ Hw) as (Hr & Hc & Hs). apply settleAll_regs in Hr.
    destruct (ok_regs _ Hok r Hr) as [_ _ (a' & Ha' & _ & _ & Hn)].
    assert (a' = a) as -> by congruence. by apply Hn. }
  apply wp_bind. eapply (closeReceivers_wp ch a1 _ w2 s2); [done..|exact (settleAll_length _ _ _ _ _ _ _ s1)|].
  intros w3 R3 Hf3. apply wp_ret, HQ; [exact R3|]. transitivity w1; [apply frame_channels|by transitivity w2].
Qed.

(** * The other calls *)

Lemma ChanCreate_wp w s size capacity Q :
  rep w s → pending s → (0 ≤ capacity → 0 ≤ size < 2 ^ 63 ∧ capacity * size < 2 ^ 63) →
  (∀ w', rep w' (spec_create size capacity s).2 → frame w w' → Q (spec_create size capacity s).1 w') →
  wp False (ChanCreate size capacity) Q w.
Proof.
  intros R Hp Hfit HQ. unfold ChanCreate. unfold spec_create in HQ.
  destruct (Z.ltb_spec capacity 0) as [|Hc]; [by apply wp_ret, HQ|]. destruct (Hfit Hc) as [Hs Hcs].
  assert (∀ z, 0 ≤ z < 2 ^ 63 → i64 z = z) as Hi64 by (intros z Hz; unfold i64; rewrite Z.mod_small; lia).
  rewrite (Hi64 size), (Hi64 (capacity * size)) by nia. cbv zeta.
  apply wp_bind. eapply (wp_conseq _ (λ b w', b = replicate (Z.to_nat (capacity * size)) 0 ∧ w' = w)).
  { destruct (Z.ltb_spec 0 capacity), (Z.ltb_spec 0 size); simpl;
      try (apply wp_ret; split; [|done]; by replace (capacity * size) with 0 by nia).
    rewrite (proj2 (Z.ltb_ge _ _)) by nia. by apply wp_ret. }
  intros buffer w0 [-> ->]. apply wp_bind, wp_get. unfold setChannels, setHandler.
  apply wp_bind, wp_modify, wp_ret. destruct (rep_chans _ _ _ R) as [Hl Hch].
  replace (lenZ (h_channels (handler w) ++ _)) with
    (lenZ (s_chans (put_chans (λ l, l ++ [Chan size capacity false []]) s))).
  2: { unfold lenZ. simpl. rewrite !length_app, Hl. done. }
  apply HQ; [|apply (frame_channels (h_channels (handler w) ++ _))].
  apply (repq_channels (s_regs s)); [done|]. split; [by rewrite !length_app, Hl|].
  intros i c x [Hi|[Hli Hi]]%lookup_app_Some [Hx|[Hlx Hx]]%lookup_app_Some.
  - by eapply Hch.
  - apply lookup_lt_Some in Hi. lia.
  - apply lookup_lt_Some in Hx. lia.
  - apply list_lookup_singleton_Some in Hi as [Hi <-]. apply list_lookup_singleton_Some in Hx as [_ <-].
    assert (∀ r, r ∈ s_regs s → r_chan r ≠ i) as Hno.
    { intros r Hr <-. destruct (pe_chan _ Hp r Hr) as [a Ha]. apply lookup_lt_Some in Ha. lia. }
    assert (∀ send, waitingOn i send (s_regs s) = []) as Hw.
    { intros send. destruct (waitingOn i send (s_regs s)) as [|r l] eqn:Hw; [done|].
      destruct (waitingOn_head _ _ _ _ _ Hw) as (Hr & Hri & _). by destruct (Hno r Hr). }
    split; simpl; rewrite ?Hw; try done; [apply ring_new; lia|].
    by rewrite filter_none.
Qed.

Lemma Spawn_wp w s entry context Q :
  rep w s →
  (∀ w', rep w' (put_ready (s_ready s ++ [length (jobs w)]) s) → frame w w' → Q tt w') →
  wp False (Spawn entry context) Q w.
Proof.
  intros R HQ. unfold Spawn, newJob, setJobObjects. repeat wp_step.
  pose proof (rep_jobs _ _ _ R) as [J1 J2 J3 J4 J5 J6].
  set (x := Job entry context None false false). set (w1 := World _ _ _ _ _ _).
  assert (∀ j, live (jobs w) j → live (jobs w ++ [x]) j) as Hlive.
  { intros j (y & Hy & Hd). exists y. split; [by apply lookup_app_l_Some|done]. }
  assert (length (jobs w) ∉ s_ready s) as Hnew.
  { intros (y & Hy & _)%J4. apply lookup_lt_Some in Hy. lia. }
  eapply (enqueue_wp _ (s_regs s) (s_ready s)).
  - split; simpl; auto; [|by eauto]. intros j y [Hy|[Hl Hy]]%lookup_app_Some; [by apply J3|].
    apply list_lookup_singleton_Some in Hy as [Hy <-]. symmetry. apply bool_decide_eq_false.
    by replace j with (length (jobs w)) by lia.
  - intros j [= <-]. exists x. split; [by apply list_lookup_middle|done].
  - intros queue js w2 J' [Hl Hjs]. simpl in J'. rewrite decide_False in J' by done. apply HQ.
    + destruct R as [Rc Rr Ro Rg Rs Rj Rn Rm Rw Rgl Rb]. split; try done. by destruct Rs; split.
    + split; simpl in *; try done.
      * rewrite Hl, length_app. lia.
      * intros j y Hy. destruct (Hjs j y Hy) as (z & Hz & E1 & E2 & E3).
        apply lookup_app_Some in Hz as [Hz|[Hlz Hz]]; [left; by exists z|]. right.
        apply list_lookup_singleton_Some in Hz as [Hz <-]. split_and!; [by apply lookup_ge_None_2|done|].
        rewrite (jr_queued _ _ _ _ J' _ _ Hy). apply bool_decide_eq_true, elem_of_app. right.
        apply list_elem_of_singleton. lia.
      * intros g G HG. by exists G.
Qed.

Lemma ChanLen_wp w s handle Q :
  rep w s → Q (spec_chan (λ a, lenZ (a_queue a)) handle s) w → wp False (ChanLen handle) Q w.
Proof.
  intros R HQ. unfold ChanLen. unfold spec_chan in HQ. eapply channelOf_wp; [done| |].
  - intros Hch. rewrite Hch in HQ. by apply wp_ret.
  - intros ch a Hch Ha. rewrite Hch, Ha in HQ. apply wp_bind. eapply getChannel_wp; [done..|].
    intros c _ [_ _ _ -> _ _ _ _]. by apply wp_ret.
Qed.

Lemma ChanCap_wp w s handle Q :
  rep w s → Q (spec_chan a_cap handle s) w → wp False (ChanCap handle) Q w.
Proof.
  intros R HQ. unfold ChanCap. unfold spec_chan in HQ. eapply channelOf_wp; [done| |].
  - intros Hch. rewrite Hch in HQ. by apply wp_ret.
  - intros ch a Hch Ha. rewrite Hch, Ha in HQ. apply wp_bind. eapply getChannel_wp; [done..|].
    intros c _ [_ -> _ _ _ _ _ _]. by apply wp_ret.
Qed.

(** Every call, from every represented world: no panic, and the machine's result. *)
Lemma dispatch_wp w s o Q :
  rep w s → spec_ok s → call_ok w o →
  (∀ w', rep w' (spec_dispatch (h_current (handler w)) (length (jobs w)) o s).2 → frame w w' →
     placed w' (spec_dispatch (h_current (handler w)) (length (jobs w)) o s).1 →
     Q (spec_dispatch (h_current (handler w)) (length (jobs w)) o s).1 w') →
  wp False (dispatch o) Q w.
Proof.
  intros R Hok Hcall HQ. pose proof (spec_ok_pending _ Hok) as Hp.
  assert ((∀ cs d, o ≠ CallChanSelect cs d) → ∀ w',
    rep w' (spec_dispatch (h_current (handler w)) (length (jobs w)) o s).2 → frame w w' →
    Q (spec_dispatch (h_current (handler w)) (length (jobs w)) o s).1 w') as HQ'.
  { intros Hno w' R' Hf. apply HQ; [done..|]. intros g cases Hsus.
    destruct (spec_dispatch_place _ _ _ _ _ Hsus) as [_ Hsel].
    destruct (Hsel g cases eq_refl) as [d ->]. by destruct (Hno cases d). }
  destruct o; try specialize (HQ' ltac:(done)); simpl in *; unfold returning.
  - apply wp_bind. eapply Spawn_wp; [done|]. intros w' R' Hf. by apply wp_ret, HQ'.
  - apply wp_bind. eapply ChanCreate_wp; [done..|]. intros w' R' Hf. apply wp_ret.
    destruct (spec_create _ _ _). by apply HQ'.
  - by eapply ChanSend_wp.
  - by eapply ChanReceive_wp.
  - by eapply ChanSelect_wp.
  - apply wp_bind. eapply ChanClose_wp; [done..|]. intros w' R' Hf. apply wp_ret.
    destruct (spec_close _ _). by apply HQ'.
  - apply wp_bind. eapply ChanLen_wp; [done|]. by apply wp_ret, HQ'.
  - apply wp_bind. eapply ChanCap_wp; [done|]. by apply wp_ret, HQ'.
  - by apply wp_ret, HQ'.
  - unfold setMemory. apply wp_bind, wp_modify, wp_ret. rewrite (rep_mem _ _ _ R).
    apply HQ'; [by apply repq_mem|apply frame_memory].
Qed.
