(* ===== verification/SerialSystem.v ===== *)
(** Programs on the handler: the steps of a program with its goroutines, and the
    invariant of the stacks, the job queue and the waiting operations. *)

From stdpp Require Import gmap relations.
From S2P Require Import Prelude.
From S2P Require Import GoInt.
From S2P Require Import SerialModel.
From S2P Require Import SerialSpec.
From S2P Require Import SerialSpecFacts.
From S2P Require Import SerialRep.
From S2P Require Import SerialFinish.
From S2P Require Import SerialOps.
From S2P Require Import SerialCalls.
From S2P Require Import SerialEvolve.

Definition config : Type := world * control.

(** The program calls the handler as it likes, within [call_ok]; a loop looks at its
    condition; a goroutine ends. *)
Inductive step : config → event → config → Prop :=
| step_call w r o out w' :
    call_ok w o → dispatch o w = Some (out, w') →
    step (w, Calling r) (EvCall o) (w', controlOf out)
| step_loop w p c w' : loopOnce p w = Some (c, w') → step (w, Looping p) EvLoop (w', c)
| step_exit w r c w' : exitJob w = Some (c, w') → step (w, Calling r) EvExit (w', c).

Definition start : config := (New, Calling ReplyNone).
Definition reachable (c : config) : Prop := ∃ tr, run step start tr c.

(** * Stacks *)

(** The objects that a place leads to. *)
Definition place_ok (w : world) (s : spec) (p : place) : Prop :=
  (∀ q, party_of p = Some q → used s q) ∧
  (∀ n, party_of p = Some (inl n) → s_out s !! inl n = None →
     ∃ r, r ∈ s_regs s ∧ party r = inl n ∧ r_send r = sending p) ∧
  (∀ g cases, p = AtSelect g cases →
     ∃ G, groups w !! g = Some G ∧ length (g_bindings G) = length cases).

(** The operations of a place wake the job [t]. *)
Definition wakes (s : spec) (t : option nat) (p : place) : Prop :=
  ∀ q r, party_of p = Some q → r ∈ s_regs s → party r = q → r_task r = t.

(** A stopped job whose wait is over is ready. *)
Definition asleep (w : world) (s : spec) (j : nat) (p : place) : Prop :=
  place_ok w s p ∧ p ≠ AtDrain ∧ (p = AtEntry → j ∈ s_ready s) ∧ wakes s (Some j) p ∧
  ∀ q, party_of p = Some q → is_Some (s_out s !! q) → j ∈ s_ready s.

(** The stack of the scheduler, while a job runs. *)
Definition scheduler_ok (w : world) (s : spec) : Prop :=
  ∃ p, h_scheduler (handler w) = Some p ∧ place_ok w s p ∧ wakes s None p ∧ p ≠ AtEntry.

Record stacks_ok (w : world) (s : spec) : Prop := {
  st_current : ∀ j, h_current (handler w) = Some j →
    scheduler_ok w s ∧ (j ∉ s_ready s) ∧ ∃ x, jobs w !! j = Some x ∧ is_Some (j_sp x);
  st_jobs : ∀ j x, jobs w !! j = Some x → j_done x = false → h_current (handler w) ≠ Some j →
    match j_sp x with None => j ∈ s_ready s | Some p => asleep w s j p end;
  st_tasks : ∀ r j, r ∈ s_regs s → r_task r = Some j → h_current (handler w) ≠ Some j →
    ∃ x p, jobs w !! j = Some x ∧ j_sp x = Some p ∧ party_of p = Some (party r)
}.

(** A running program waits nowhere; a loop is where its party waits. *)
Definition control_ok (w : world) (s : spec) (c : control) : Prop :=
  match c with
  | Calling _ => ∀ r j, r ∈ s_regs s → r_task r = Some j → h_current (handler w) ≠ Some j
  | Looping p =>
      place_ok w s p ∧ wakes s (h_current (handler w)) p ∧
      (h_current (handler w) = None → p ≠ AtEntry) ∧ (h_current (handler w) ≠ None → p ≠ AtDrain) ∧
      ∀ r j, r ∈ s_regs s → r_task r = Some j → h_current (handler w) = Some j →
        party_of p = Some (party r)
  end.

Record config_ok (c : config) (s : spec) : Prop := {
  cf_rep : rep c.1 s;
  cf_ok : spec_ok s;
  cf_stacks : stacks_ok c.1 s;
  cf_control : control_ok c.1 s c.2
}.

Lemma start_ok : config_ok start spec0.
Proof.
  split; simpl; [apply rep_New|apply spec0_ok| |].
  - split; try done. intros r j Hr. by apply elem_of_nil in Hr.
  - intros r j Hr. by apply elem_of_nil in Hr.
Qed.

(** * Calls *)

Lemma frame_job w w' j x :
  frame w w' → jobs w !! j = Some x →
  ∃ x', jobs w' !! j = Some x' ∧ j_sp x' = j_sp x ∧ j_done x' = j_done x.
Proof.
  intros Hf Hx. destruct (lookup_lt_is_Some_2 (jobs w') j) as [x' Hx'].
  { apply lookup_lt_Some in Hx. pose proof (fr_length _ _ Hf). lia. }
  exists x'. split; [done|]. destruct (fr_jobs _ _ Hf j x' Hx') as [(y & Hy & ? & ? & _)|(Hn & _)]; [|congruence].
  by assert (y = x) as -> by congruence.
Qed.

(** What a call may do to the operations that other parties wait in. *)
Record continues (task : option nat) (s s' : spec) : Prop := {
  co_old : ∀ r, r ∈ s_regs s' → used s (party r) → r ∈ s_regs s;
  co_new : ∀ r, r ∈ s_regs s' → r ∉ s_regs s → r_task r = task;
  co_kept : ∀ r, r ∈ s_regs s → r ∈ s_regs s' ∨ is_Some (s_out s' !! party r);
  co_ready : ∀ j, j ∈ s_ready s → j ∈ s_ready s';
  co_out : ∀ q, is_Some (s_out s !! q) → is_Some (s_out s' !! q);
  co_settled : ∀ q, s_out s !! q = None → is_Some (s_out s' !! q) →
    ∃ r, r ∈ s_regs s ∧ party r = q ∧ ∀ j, r_task r = Some j → j ∈ s_ready s';
  co_names : names_le s s'
}.

Lemma used_le s s' q : names_le s s' → used s q → used s' q.
Proof. intros [? ?]. destruct q; simpl; lia. Qed.

Lemma place_ok_continues task w w' s s' p :
  frame w w' → continues task s s' → place_ok w s p → place_ok w' s' p.
Proof.
  intros Hf Hc (H1 & H2 & H3). split_and!.
  - intros q Hq. eapply used_le; [apply Hc|by apply H1].
  - intros n Hn Ho. destruct (s_out s !! inl n) as [o|] eqn:Hs.
    { destruct (co_out _ _ _ Hc (inl n)) as [o' Ho']; [by eexists|congruence]. }
    destruct (H2 n Hn Hs) as (r & Hr & Hp & ?). exists r. split; [|done].
    destruct (co_kept _ _ _ Hc r Hr) as [|[o Ho']]; [done|congruence].
  - intros g cases Hp. destruct (H3 g cases Hp) as (G & HG & Hl).
    destruct (fr_groups _ _ Hf g G HG) as (G' & HG' & Hl'). exists G'. split; [done|congruence].
Qed.

Lemma wakes_continues task w s s' t p :
  continues task s s' → place_ok w s p → wakes s t p → wakes s' t p.
Proof.
  intros Hc (Hu & _) Hw q r Hq Hr Hp. apply (Hw q); [done| |done].
  apply (co_old _ _ _ Hc); [done|]. rewrite Hp. by apply Hu.
Qed.

Lemma asleep_continues task w w' s s' j p :
  frame w w' → continues task s s' → asleep w s j p → asleep w' s' j p.
Proof.
  intros Hf Hc (Hpl & Hd & He & Hw & Hs). split_and!; try done.
  - by eapply place_ok_continues.
  - intros Hp. by apply (co_ready _ _ _ Hc), He.
  - by eapply wakes_continues.
  - intros q Hq Ho. destruct (s_out s !! q) as [o|] eqn:Hsq.
    + apply (co_ready _ _ _ Hc), (Hs q Hq). by eexists.
    + destruct (co_settled _ _ _ Hc q Hsq Ho) as (r & Hr & Hp & Hj). apply Hj. by eapply Hw.
Qed.

Lemma stacks_continue w w' s s' :
  frame w w' → rep w' s' → continues (h_current (handler w)) s s' → stacks_ok w s →
  (∀ j, h_current (handler w) = Some j → j ∉ s_ready s') →
  stacks_ok w' s'.
Proof.
  intros Hf R' Hc [Hcur Hj Ht] Hnr. split; rewrite ?(fr_current _ _ Hf).
  - intros j Hjc. destruct (Hcur j Hjc) as ((p & Hp & Hpl & Hw & Hne) & _ & x & Hx & Hsp).
    split_and!; [|by apply Hnr|].
    + exists p. rewrite (fr_scheduler _ _ Hf). split_and!; [done|by eapply place_ok_continues|by eapply wakes_continues|done].
    + destruct (frame_job _ _ _ _ Hf Hx) as (x' & Hx' & E & _). exists x'. by rewrite E.
  - intros j x' Hx' Hd Hne. destruct (fr_jobs _ _ Hf j x' Hx') as [(x & Hx & E1 & E2 & _)|(_ & E1 & E2)].
    + rewrite E1. rewrite E2 in Hd. specialize (Hj j x Hx Hd Hne). destruct (j_sp x).
      * by eapply asleep_continues.
      * by apply (co_ready _ _ _ Hc).
    + rewrite E1. rewrite (jr_queued _ _ _ _ (rep_jobs _ _ _ R') _ _ Hx') in E2.
      by apply bool_decide_eq_true in E2.
  - intros r j Hr Htj Hne. destruct (decide (r ∈ s_regs s)) as [Hin|Hni].
    + destruct (Ht r j Hin Htj Hne) as (x & p & Hx & Hsp & Hp).
      destruct (frame_job _ _ _ _ Hf Hx) as (x' & Hx' & E & _). exists x', p. by rewrite E.
    + destruct Hne. rewrite <- Htj. symmetry. by apply (co_new _ _ _ Hc).
Qed.

Lemma shrinks_continues task s s' : shrinks s s' → continues task s s'.
Proof.
  intros [A K B C D E [F1 F2]]. split; auto.
  - intros r Hr Hn. by apply A in Hr.
  - intros q [o Ho]. eauto.
  - split; lia.
Qed.

Lemma suspends_continues task p s s' : suspends task p s s' → continues task s s'.
Proof.
  intros [A B C D E F G H]. split; auto.
  - intros r [?|[Hp _]]%B Hu; [done|]. by destruct (C _ Hp).
  - intros r [?|[_ ?]]%B Hn; done.
  - rewrite F. auto.
  - by rewrite E.
  - rewrite E. intros q Hq [o Ho]. congruence.
Qed.

Lemma evolves_continues task job out s s' : evolves task job out s s' → continues task s s'.
Proof.
  destruct out; simpl; [|by apply suspends_continues].
  intros [?| ->]; [by apply shrinks_continues|]. split; simpl; auto; [done| | |by split].
  - intros j Hj. apply elem_of_app. by left.
  - intros q Hq [o Ho]. congruence.
Qed.

(** The running job is not made ready. *)
Lemma evolves_current task job out s s' j :
  evolves task job out s s' → j ∉ s_ready s → j ≠ job →
  (∀ r, r ∈ s_regs s → r_task r ≠ Some j) → j ∉ s_ready s'.
Proof.
  destruct out; simpl; intros Hev Hr Hj Hno Hin.
  - destruct Hev as [Hsh| ->].
    + destruct (sh_woken _ _ Hsh j Hin) as [?|(x & Hx & Ht)]; [done|]. by eapply Hno.
    + simpl in Hin. set_solver.
  - by rewrite (su_ready _ _ _ _ Hev) in Hin.
Qed.

Lemma call_control w w' s s' o r out :
  config_ok (w, Calling r) s → call_ok w o →
  out = (spec_dispatch (h_current (handler w)) (length (jobs w)) o s).1 →
  evolves (h_current (handler w)) (length (jobs w)) out s s' → spec_ok s' → frame w w' → placed w' out →
  control_ok w' s' (controlOf out).
Proof.
  intros [R Hok Hst Hctl] Hcall Hout Hev Hok' Hf Hpl. simpl in *. destruct out as [r'|p]; simpl.
  - intros x j Hx. rewrite (fr_current _ _ Hf). apply Hctl.
    simpl in Hev. destruct Hev as [Hsh| ->]; [by apply (sh_regs _ _ Hsh)|done].
  - simpl in Hev. destruct Hev as [A B C D E F G [H1 H2]]. rewrite (fr_current _ _ Hf).
    assert (∀ q x, party_of p = Some q → x ∈ s_regs s' → party x = q → r_task x = h_current (handler w)) as Hw.
    { intros q x Hq [Hx|[_ ?]]%B Hp; [|done]. destruct (C q Hq) as [Hnu _]. destruct Hnu. rewrite <- Hp.
      by apply (party_used s), (ok_regs _ Hok x). }
    split_and!; try done.
    + split_and!; [by intros q Hq; apply C|by intros n Hn _; apply D|]. intros g cases ->. by apply Hpl.
    + intros Hc ->. symmetry in Hout. apply spec_dispatch_place in Hout as [Hd _]. rewrite (Hd eq_refl) in Hcall.
      by simpl in Hcall.
    + intros x j [Hx|[? _]]%B Ht Hc; [|done]. by destruct (Hctl x j Hx Ht).
Qed.

Lemma dispatch_ok w s r o Q :
  config_ok (w, Calling r) s → call_ok w o →
  (∀ w', frame w w' →
     config_ok (w', controlOf (spec_dispatch (h_current (handler w)) (length (jobs w)) o s).1)
       (spec_dispatch (h_current (handler w)) (length (jobs w)) o s).2 →
     Q (spec_dispatch (h_current (handler w)) (length (jobs w)) o s).1 w') →
  wp False (dispatch o) Q w.
Proof.
  intros Hc Hcall HQ. pose proof Hc as [R Hok Hst Hctl]. simpl in *.
  eapply dispatch_wp; [done..|]. intros w' R' Hf Hpl. apply HQ; [done|].
  pose proof (spec_dispatch_evolves (h_current (handler w)) (length (jobs w)) o s Hok) as Hev.
  assert (length (jobs w) ∉ s_ready s) as Hnew.
  { intros (x & Hx & _)%(jr_ready _ _ _ _ (rep_jobs _ _ _ R)). apply lookup_lt_Some in Hx. lia. }
  assert (spec_ok (spec_dispatch (h_current (handler w)) (length (jobs w)) o s).2) as Hok'.
  { apply spec_dispatch_ok; [done| |done]. by destruct o. }
  split; simpl; [done|done| |by eapply call_control].
  eapply stacks_continue; [done|done|by eapply evolves_continues|done|].
  intros j Hj. destruct (st_current _ _ Hst j Hj) as (_ & Hr & x & Hx & _).
  eapply evolves_current; [done|done| |].
  - apply lookup_lt_Some in Hx. lia.
  - intros y Hy Ht. by apply (Hctl y j).
Qed.
