(* ===== verification/SerialLoops.v ===== *)
(** The loops and switches of the scheduler keep the invariant of SerialSystem.

    The runs of the handler are runs of the machine of SerialSpec. *)

From stdpp Require Import gmap relations.
From S2P Require Import Prelude.
From S2P Require Import GoInt.
From S2P Require Import SerialModel.
From S2P Require Import SerialSpec.
From S2P Require Import SerialSpecFacts.
From S2P Require Import SerialRep.
From S2P Require Import SerialFinish.
From S2P Require Import SerialEvolve.
From S2P Require Import SerialCalls.
From S2P Require Import SerialSystem.

(** * The condition of a loop *)

Definition with_memory (m : gmap Z Z) (w : world) : world :=
  World (handler w) (jobs w) (waiters w) (groups w) (bindings w) m.

Lemma spec_resume_none p s :
  (spec_resume p s).1 = None →
  p ≠ AtEntry ∧ (∀ q, party_of p = Some q → s_out s !! q = None) ∧ spec_resume p s = (None, s).
Proof.
  unfold spec_resume. destruct (party_of p) as [q|] eqn:Hp.
  - destruct (s_out s !! q) as [o|] eqn:Ho; [done|]. intros _. split_and!; [by intros ->| |done].
    by intros q' [= <-].
  - intros H. split_and!; [by intros ->|done|]. by destruct p.
Qed.

Lemma spec_resume_some p s r q :
  (spec_resume p s).1 = Some r → party_of p = Some q → s_out s !! q ≠ None.
Proof. unfold spec_resume. intros H Hp Ho. by rewrite Hp, Ho in H. Qed.

(** The waiter of a plain operation shows its outcome. *)
Lemma plain_done w s n (send : bool) :
  rep w s → spec_ok s → (n < s_waits s)%nat →
  (s_out s !! inl n = None → ∃ r, r ∈ s_regs s ∧ party r = inl n ∧ r_send r = send) →
  ∃ x, waiters w !! n = Some x ∧
    match s_out s !! inl n with
    | None => w_done x = false
    | Some o => w_done x = true ∧ w_open x = o_open o ∧ w_status x = o_status o
    end.
Proof.
  intros R Hok Hn Hr. destruct (s_out s !! inl n) as [o|] eqn:Ho.
  - destruct (rep_out _ _ _ R _ _ Ho) as (x & Hx & Hd & ?). by exists x.
  - destruct (Hr eq_refl) as (r & Hin & Hp & _). unfold party in Hp.
    destruct (r_case r) as [[[g i] b]|]; [done|]. injection Hp as <-.
    destruct (rep_regs _ _ _ R r Hin) as [Hw _]. exists (waiter_of r). by split.
Qed.

Lemma resume_wp w s p Q :
  rep w s → spec_ok s → place_ok w s p →
  (∀ m, rep (with_memory m w) (put_mem m s) → (spec_resume p s).2 = put_mem m s →
     Q (spec_resume p s).1 (with_memory m w)) →
  wp False (resume p) Q w.
Proof.
  intros R Hok (Hu & Hpl & Hg) HQ.
  assert (rep (with_memory (s_mem s) w) (put_mem (s_mem s) s)) as R0 by (by apply repq_mem).
  assert (put_mem (s_mem s) s = s) as Hs by (by destruct s).
  assert (with_memory (s_mem s) w = w) as Hw by (rewrite <- (rep_mem _ _ _ R); by destruct w).
  assert ((spec_resume p s).2 = s → Q (spec_resume p s).1 w) as HQ'.
  { intros H2. rewrite <- Hw. apply HQ; [done|]. by rewrite Hs. }
  clear Hs Hw R0. unfold spec_resume in *. destruct p as [| |n|n|g cases|]; simpl in *; try (by apply wp_ret, HQ').
  - destruct (plain_done w s n _ R Hok (Hu _ eq_refl) (Hpl n eq_refl)) as (x & Hx & Hd).
    unfold getWaiter. repeat wp_step. eapply wp_lift; [done|]. apply wp_ret.
    destruct (s_out s !! inl n); [destruct Hd as (-> & _ & ->)|rewrite Hd]; by apply HQ'.
  - destruct (plain_done w s n _ R Hok (Hu _ eq_refl) (Hpl n eq_refl)) as (x & Hx & Hd).
    unfold getWaiter. repeat wp_step. eapply wp_lift; [done|]. apply wp_ret.
    destruct (s_out s !! inl n); [destruct Hd as (-> & -> & _)|rewrite Hd]; by apply HQ'.
  - destruct (Hg g cases eq_refl) as (G & HG & Hl). unfold getGroup. repeat wp_step. eapply wp_lift; [done|].
    destruct (s_out s !! inr g) as [o|] eqn:Ho.
    + destruct (rep_out _ _ _ R _ _ Ho) as (G' & b & B & x & HG' & Hsel & Hi & Hst & Hb & HB & Hx & _ & Hop).
      assert (G' = G) as -> by congruence. rewrite Hsel. rewrite (proj2 (Z.ltb_ge _ _)) by done.
      destruct (lookupZ_lt_is_Some cases (o_index o)) as [v Hv].
      { apply lookupZ_lt_Some in Hb. unfold lenZ in *. lia. }
      apply wp_bind. eapply wp_lift; [done|]. apply wp_bind. eapply wp_lift; [done|].
      apply wp_bind. eapply wp_lift; [done|]. unfold getBinding, getWaiter.
      apply wp_bind. repeat wp_step. eapply wp_lift; [done|].
      apply wp_bind. repeat wp_step. eapply wp_lift; [done|]. apply wp_bind.
      simpl in HQ, HQ'. rewrite Hv in HQ, HQ'. rewrite Hop, Hst.
      destruct ((v_Direction v =? SelectReceive) && negb (v_ReceiveOK v =? 0)).
      * unfold storeBool, setMemory. apply wp_modify, wp_ret. rewrite (rep_mem _ _ _ R).
        apply HQ; [|done]. by apply repq_mem.
      * by apply wp_ret, wp_ret, HQ'.
    + destruct (rep_groups _ _ _ R g G HG Ho) as [-> _]. simpl. by apply wp_ret, HQ'.
Qed.

(** * The job queue *)

(** A world that differs in control and jobs. *)
Definition with_control (h : Handler) (js : list job) (w : world) : world :=
  World (MkHandler (h_jobs h) (h_jobHead h) (h_channels (handler w)) (h_selectNext (handler w))
      (h_scheduler h) (h_current h))
    js (waiters w) (groups w) (bindings w) (memory w).

Lemma rep_control w s h js ready :
  rep w s → jobs_rep h js (s_regs s) ready → rep (with_control h js w) (put_ready ready s).
Proof.
  intros [Rc Rr Ro Rg Rs Rj Rn Rm Rw Rgl Rb] []. split; try done. by destruct Rs; split.
Qed.

Lemma compact_rep h js regs ready :
  jobs_rep h js regs ready → h_jobHead h = lenZ (h_jobs h) →
  jobs_rep (MkHandler [] 0 (h_channels h) (h_selectNext h) (h_scheduler h) (h_current h)) js regs ready.
Proof.
  intros [J1 J2 J3 J4 J5 J6] He. split; simpl; try done.
  rewrite <- J2, drop_ge; [done|]. unfold lenZ in He. lia.
Qed.

(** [compactJobs] changes nothing but the layout of the queue. *)
Lemma compactJobs_wp w regs ready Q :
  jobs_rep (handler w) (jobs w) regs ready →
  (∀ queue head, jobs_rep (handler (with_jobs queue head (jobs w) w)) (jobs w) regs ready →
     Q tt (with_jobs queue head (jobs w) w)) →
  wp False compactJobs Q w.
Proof.
  intros J HQ. unfold compactJobs. apply wp_bind, wp_get.
  destruct (Z.eqb_spec (h_jobHead (handler w)) (lenZ (h_jobs (handler w)))) as [He|He]; simpl.
  - unfold setJobs, setHandler. apply wp_modify. apply (HQ [] 0). by apply compact_rep.
  - apply wp_ret. assert (with_jobs (h_jobs (handler w)) (h_jobHead (handler w)) (jobs w) w = w) as Hw
      by (by destruct w as [[] ????]).
    rewrite <- Hw. apply HQ. by rewrite Hw.
Qed.

(** Nothing in the queue is done. *)
Lemma skipDone_run w regs ready rest :
  jobs_rep (handler w) (jobs w) regs ready → rest = ready → skipDone rest w = Some (tt, w).
Proof.
  intros J ->. destruct ready as [|j ready]; [done|]. simpl.
  destruct (jr_ready _ _ _ _ J j ltac:(by left)) as (x & Hx & Hd).
  unfold getJob, mbind, GoM_bind, get, lift. by rewrite Hx, Hd.
Qed.

Lemma pop_jobs_rep h js regs j ready :
  jobs_rep h js regs (j :: ready) → NoDup (j :: ready) →
  h_jobs h !!z h_jobHead h = Some j ∧
  jobs_rep (MkHandler (h_jobs h) (h_jobHead h + 1) (h_channels h) (h_selectNext h) (h_scheduler h) (h_current h))
    (alter (withQueued false) j js) regs ready.
Proof.
  intros [J1 J2 J3 J4 J5 J6] [Hj Hn]%NoDup_cons.
  assert (h_jobs h !! Z.to_nat (h_jobHead h) = Some j) as Hl.
  { rewrite <- (Nat.add_0_r (Z.to_nat (h_jobHead h))), <- lookup_drop, J2. done. }
  split; [by rewrite lookupZ_to_nat by lia|].
  assert (∀ k, live js k → live (alter (withQueued false) j js) k) as Hlive
    by (intros k; by apply live_alter).
  split; simpl; [| | |by intros k Hk; apply Hlive, J4; right|by eauto|by eauto].
  - apply lookup_lt_Some in Hl. unfold lenZ. lia.
  - replace (Z.to_nat (h_jobHead h + 1)) with (S (Z.to_nat (h_jobHead h))) by lia.
    rewrite (drop_S _ _ _ Hl) in J2. by injection J2.
  - intros k x. destruct (decide (k = j)) as [->|Hne].
    + rewrite list_lookup_alter_eq. intros (y & _ & ->)%fmap_Some. simpl. symmetry.
      by apply bool_decide_eq_false.
    + rewrite list_lookup_alter_ne by done. intros Hx. rewrite (J3 _ _ Hx). apply bool_decide_ext.
      rewrite elem_of_cons. tauto.
Qed.

Lemma runOne_pick_wp w s Q :
  rep w s → spec_ok s →
  (s_ready s = [] → ∀ queue head, rep (with_jobs queue head (jobs w) w) s →
     Q None (with_jobs queue head (jobs w) w)) →
  (∀ j ready head, s_ready s = j :: ready →
     rep (with_jobs (h_jobs (handler w)) head (alter (withQueued false) j (jobs w)) w) (put_ready ready s) →
     Q (Some j) (with_jobs (h_jobs (handler w)) head (alter (withQueued false) j (jobs w)) w)) →
  wp False runOne_pick Q w.
Proof.
  intros R Hok Hnone Hsome. pose proof (rep_jobs _ _ _ R) as J. unfold runOne_pick.
  apply wp_bind, wp_get, wp_bind. eapply wp_eq; [eapply skipDone_run; [exact J|apply J]|].
  apply wp_bind, wp_get. pose proof (jr_head _ _ _ _ J) as Hh. pose proof (jr_queue _ _ _ _ J) as Hq.
  destruct (Z.leb_spec (lenZ (h_jobs (handler w))) (h_jobHead (handler w))) as [Hge|Hlt].
  - assert (s_ready s = []) as Hr by (rewrite <- Hq; apply drop_ge; unfold lenZ in Hge; lia).
    apply wp_bind. eapply compactJobs_wp; [exact J|]. intros queue head J'. apply wp_ret, Hnone; [done|].
    replace s with (put_ready (s_ready s) s) by (by destruct s). exact (rep_control w s _ _ _ R J').
  - destruct (s_ready s) as [|j ready] eqn:Hr.
    { apply (f_equal length) in Hq. rewrite length_drop in Hq. simpl in Hq. unfold lenZ in Hlt. lia. }
    assert (NoDup (j :: ready)) as Hnd by (rewrite <- Hr; apply Hok).
    destruct (pop_jobs_rep _ _ _ _ _ J Hnd) as [Hl J'].
    apply wp_bind. eapply wp_lift; [exact Hl|]. unfold setJobs, setHandler, setJob, setJobObjects.
    do 2 (apply wp_bind, wp_modify). apply wp_ret, (Hsome j ready); [done|]. exact (rep_control w s _ _ _ R J').
Qed.

(** * One look of a loop *)

Lemma place_ok_groups w w' l s p :
  place_ok w s p → groups w' = groups w → place_ok w' (put_ready l s) p.
Proof. intros (H1 & H2 & H3) Hg. split_and!; [done|done|]. by rewrite Hg. Qed.

Lemma asleep_ready w w' l s j p :
  asleep w s j p → groups w' = groups w → (j ∈ s_ready s → j ∈ l) → asleep w' (put_ready l s) j p.
Proof.
  intros (H1 & H2 & H3 & H4 & H5) Hg Hl. split_and!; [|done| |done|].
  - by eapply place_ok_groups.
  - intros He. by apply Hl, H3.
  - intros q Hq Ho. apply Hl. by eapply H5.
Qed.

Lemma put_ready_self s : put_ready (s_ready s) s = s.
Proof. by destruct s. Qed.

(** The loop goes on with its program. *)
Lemma resume_done w s p r m :
  config_ok (w, Looping p) s → rep (with_memory m w) (put_mem m s) → (spec_resume p s).1 = Some r →
  config_ok (with_memory m w, Calling r) (put_mem m s).
Proof.
  intros [R Hok Hst Hctl] R' Hres. simpl in *. split; simpl; [done|by apply put_mem_ok| |].
  - destruct Hst as [H1 H2 H3]. by split.
  - intros x j Hx Ht Hc. destruct Hctl as (_ & _ & _ & _ & Hl). pose proof (Hl x j Hx Ht Hc) as Hp.
    by destruct (spec_resume_some _ _ _ _ Hres Hp (spec_ok_open _ Hok x Hx)).
Qed.

(** The loop of a job switches to the scheduler's stack. *)
Lemma job_switch w s p j :
  config_ok (w, Looping p) s → (spec_resume p s).1 = None → h_current (handler w) = Some j →
  ∃ from, h_scheduler (handler w) = Some from ∧
  ∀ queue head w',
    w' = World (MkHandler queue head (h_channels (handler w)) (h_selectNext (handler w))
             (h_scheduler (handler w)) None)
           (alter (withStack p) j (jobs w)) (waiters w) (groups w) (bindings w) (memory w) →
    rep w' s → config_ok (w', Looping from) s.
Proof.
  intros [R Hok [Hcur Hj Ht] Hctl] Hres Hc. simpl in *. rewrite Hc in *.
  destruct (Hcur j eq_refl) as ((from & Hfrom & Hpl & Hwk & Hne) & Hnr & x & Hx & Hsp).
  destruct Hctl as (Hplp & Hwp & _ & Hdr & Hl). exists from. split; [done|]. intros queue head w' -> R'.
  split; simpl; [done|done| |].
  - split; simpl; [done| |].
    + intros i y Hy Hd _. destruct (decide (i = j)) as [->|Hij].
      * rewrite list_lookup_alter_eq, Hx in Hy. injection Hy as <-. simpl. split_and!.
        -- done.
        -- by apply Hdr.
        -- intros ->. by apply spec_resume_none in Hres as [? _].
        -- done.
        -- intros q Hq Ho. apply spec_resume_none in Hres as (_ & Hres & _).
           rewrite (Hres q Hq) in Ho. by destruct Ho.
      * rewrite list_lookup_alter_ne in Hy by done. apply (Hj i y Hy Hd). congruence.
    + intros y i Hy Hti _. destruct (decide (i = j)) as [->|Hij].
      * exists (withStack p x), p. rewrite list_lookup_alter_eq, Hx. split_and!; [done|done|]. by eapply Hl.
      * rewrite list_lookup_alter_ne by done. apply (Ht y i Hy Hti). congruence.
  - split_and!; done.
Qed.

(** The scheduler's loop switches to the next job. *)
Lemma scheduler_switch w s p j ready x to :
  config_ok (w, Looping p) s → h_current (handler w) = None → s_ready s = j :: ready →
  jobs w !! j = Some x → to = default AtEntry (j_sp x) →
  ∀ head js w',
    w' = World (MkHandler (h_jobs (handler w)) head (h_channels (handler w)) (h_selectNext (handler w))
             (Some p) (Some j)) js (waiters w) (groups w) (bindings w) (memory w) →
    (∀ i, i ≠ j → js !! i = jobs w !! i) → (∃ y, js !! j = Some y ∧ j_sp y = Some to) →
    rep w' (put_ready ready s) → config_ok (w', Looping to) (put_ready ready s).
Proof.
  intros [R Hok [Hcur Hj Ht] Hctl] Hc Hr Hx -> head js w' -> Hjs (y & Hy & Hsp) R'. simpl in *. rewrite Hc in *.
  pose proof (ok_ready _ Hok) as Hnd. rewrite Hr in Hnd. apply NoDup_cons in Hnd as [Hjn Hnd].
  destruct Hctl as (Hpl & Hwp & Hne & _ & _).
  assert (j_done x = false) as Hd.
  { destruct (jr_ready _ _ _ _ (rep_jobs _ _ _ R) j) as (x' & Hx' & ?); [rewrite Hr; by left|]. congruence. }
  pose proof (Hj j x Hx Hd) as Hold.
  split; simpl; [done|by apply put_ready_ok| |].
  - split; simpl.
    + intros i [= <-]. split_and!; [|done|by eauto]. exists p. split_and!; [done| |done|by apply Hne].
      by eapply place_ok_groups.
    + intros i z Hz Hdz Hne'. assert (i ≠ j) as Hij by congruence. rewrite Hjs in Hz by done.
      pose proof (Hj i z Hz Hdz ltac:(done)) as Hi. destruct (j_sp z) as [pz|].
      * eapply asleep_ready; [exact Hi|done|]. rewrite Hr. by intros [->|?]%elem_of_cons.
      * rewrite Hr in Hi. by apply elem_of_cons in Hi as [->|?].
    + intros z i Hz Hti Hne'. assert (i ≠ j) as Hij by congruence. rewrite Hjs by done.
      by apply (Ht z i Hz Hti).
  - destruct (j_sp x) as [px|] eqn:Hspx; simpl.
    + destruct (Hold ltac:(done)) as (H1 & H2 & H3 & H4 & H5).
      split; [by eapply place_ok_groups|]. split_and!; try done.
      intros z i Hz Hti [= ->]. destruct (Ht z i Hz Hti ltac:(done)) as (x' & p' & Hx' & Hsp' & Hp').
      congruence.
    + split_and!; try done. intros z i Hz Hti [= ->].
      destruct (Ht z i Hz Hti ltac:(done)) as (x' & p' & Hx' & Hsp' & Hp'). congruence.
Qed.

Lemma config_queue w s p queue head c :
  config_ok (w, Looping p) s → rep (with_jobs queue head (jobs w) w) s →
  h_current (handler w) = None → (∃ r, c = Calling r) ∨ c = Looping AtForever →
  config_ok (with_jobs queue head (jobs w) w, c) s.
Proof.
  intros [R Hok [H1 H2 H3] Hctl] R' Hc Hcs. simpl in *. split; simpl; [done|done|by split|].
  destruct Hcs as [[r ->]| ->]; simpl.
  - intros x j _ _. by rewrite Hc.
  - rewrite Hc. by split_and!.
Qed.

Lemma runOne_switch_wp w s p j ready Q :
  rep w (put_ready ready s) → h_current (handler w) = None → live (jobs w) j →
  (∀ x js to, let w' := World (MkHandler (h_jobs (handler w)) (h_jobHead (handler w)) (h_channels (handler w))
         (h_selectNext (handler w)) (Some p) (Some j)) js (waiters w) (groups w) (bindings w) (memory w) in
     jobs w !! j = Some x → to = default AtEntry (j_sp x) → (∀ i, i ≠ j → js !! i = jobs w !! i) →
     (∃ y, js !! j = Some y ∧ j_sp y = Some to) → rep w' (put_ready ready s) → Q to w') →
  wp False (runOne_switch j p) Q w.
Proof.
  intros R Hc (x & Hx & Hd) HQ. pose proof (rep_jobs _ _ _ R) as J.
  unfold runOne_switch, getJob, setControl, setHandler. apply wp_bind. repeat wp_step. eapply wp_lift; [done|].
  assert (∀ js y, js !! j = Some y → j_done y = false → j_queued y = j_queued x →
    (∀ i, i ≠ j → js !! i = jobs w !! i) →
    rep (World (MkHandler (h_jobs (handler w)) (h_jobHead (handler w)) (h_channels (handler w))
         (h_selectNext (handler w)) (Some p) (Some j)) js (waiters w) (groups w) (bindings w) (memory w))
      (put_ready ready s)) as Hrep.
  { intros js y Hy Hdy Hqy Hjs. assert (∀ i, live (jobs w) i → live js i) as Hlive.
    { intros i Hi. destruct (decide (i = j)) as [->|]; [by exists y|]. unfold live. by rewrite Hjs. }
    apply (rep_control w (put_ready ready s) (MkHandler (h_jobs (handler w)) (h_jobHead (handler w)) [] 0 (Some p) (Some j)) js ready R).
    destruct J as [J1 J2 J3 J4 J5 J6]. split; simpl; [done|done| |by eauto|by eauto|].
    - intros i z Hz. destruct (decide (i = j)) as [->|Hij].
      + assert (z = y) as -> by congruence. rewrite Hqy. by apply J3.
      + rewrite Hjs in Hz by done. by apply J3.
    - intros i [= <-]. by exists y. }
  apply wp_bind. destruct (j_sp x) as [q|] eqn:Hsp.
  - apply wp_ret. apply wp_bind, wp_modify. repeat wp_step. simpl. eapply wp_lift; [done|]. eapply wp_lift; [done|].
    apply (HQ x); [done|by rewrite Hsp|done|by eauto|]. by apply (Hrep _ x).
  - unfold setJob, setJobObjects. apply wp_modify. apply wp_bind, wp_modify. repeat wp_step. simpl.
    eapply wp_lift; [by rewrite list_lookup_alter_eq, Hx|]. eapply wp_lift; [done|].
    apply (HQ x); [done|by rewrite Hsp| | |].
    + intros i Hi. by rewrite list_lookup_alter_ne.
    + exists (withStack AtEntry x). by rewrite list_lookup_alter_eq, Hx.
    + apply (Hrep _ (withStack AtEntry x)); [by rewrite list_lookup_alter_eq, Hx|done|done|].
      intros i Hi. by rewrite list_lookup_alter_ne.
Qed.

(** What one look of a loop does to the control and the stacks. *)
Inductive loop_move (w : world) (s : spec) (p : place) : world → spec → control → Prop :=
| lm_resume w' r s' :
    spec_resume p s = (Some r, s') → jobs w' = jobs w → handler w' = handler w →
    loop_move w s p w' s' (Calling r)
| lm_yield w' j from :
    spec_resume p s = (None, s) → h_current (handler w) = Some j →
    h_scheduler (handler w) = Some from → h_current (handler w') = None →
    jobs w' = alter (withStack p) j (jobs w) → loop_move w s p w' s (Looping from)
| lm_run w' j ready x :
    spec_resume p s = (None, s) → h_current (handler w) = None → s_ready s = j :: ready →
    jobs w !! j = Some x → h_current (handler w') = Some j → h_scheduler (handler w') = Some p →
    (∀ i, i ≠ j → jobs w' !! i = jobs w !! i) → is_Some (jobs w' !! j) →
    loop_move w s p w' (put_ready ready s) (Looping (default AtEntry (j_sp x)))
| lm_idle w' :
    spec_resume p s = (None, s) → h_current (handler w) = None → s_ready s = [] →
    jobs w' = jobs w → h_current (handler w') = None →
    loop_move w s p w' s (match p with AtDrain => Calling ReplyNone | _ => Looping AtForever end).

Lemma loop_move_out w s p w' s' c : loop_move w s p w' s' c → s_out s' = s_out s.
Proof.
  intros []; try done. unfold spec_resume in *. destruct (party_of p) as [q|]; [|by destruct p; simplify_eq].
  destruct (s_out s !! q) as [o|]; [|done]. simplify_eq. unfold store_open. by repeat case_match.
Qed.

(** [Drain] runs on the stack of the scheduler. *)
Lemma drain_current w s p :
  config_ok (w, Looping p) s →
  match p with AtDrain => None | _ => h_current (handler w) end = h_current (handler w).
Proof.
  intros [_ _ _ (_ & _ & _ & Hdrain & _)]. destruct p; try done. simpl in Hdrain.
  destruct (h_current (handler w)) as [j|]; [|done]. by destruct Hdrain.
Qed.

(** A loop that goes on. *)
Lemma loopOn_ok w s p Q :
  config_ok (w, Looping p) s → (spec_resume p s).1 = None →
  (∀ c w' s', config_ok (w', c) s' → loop_move w s p w' s' c → Q c w') →
  wp False (s ← get;
      match (match p with AtDrain => None | _ => h_current (handler s) end) with
      | Some j =>
          _ ← setJob j (withStack p);
          from ← lift (h_scheduler (handler s));
          _ ← runOne_return;
          mret (Looping from)
      | None =>
          item ← runOne_pick;
          match item with
          | Some item => to ← runOne_switch item p; mret (Looping to)
          | None => mret (match p with AtDrain => Calling ReplyNone | _ => Looping AtForever end)
          end
      end) Q w.
Proof.
  intros Hcfg Hres HQ. pose proof (spec_resume_none _ _ Hres) as (_ & _ & Hnone).
  pose proof (cf_rep _ _ Hcfg) as R. pose proof (rep_jobs _ _ _ R) as J. simpl in *.
  apply wp_bind, wp_get. rewrite (drain_current w s p Hcfg).
  destruct (h_current (handler w)) as [j|] eqn:Hc.
  - destruct (job_switch w s p j Hcfg Hres Hc) as (from & Hfrom & Hdone).
    unfold setJob, setJobObjects. apply wp_bind, wp_modify, wp_bind. eapply wp_lift; [done|]. apply wp_bind.
    unfold runOne_return. apply wp_bind, wp_get. unfold setControl, setHandler. apply wp_bind, wp_modify. simpl.
    eapply (compactJobs_wp _ (s_regs s) (s_ready s)).
    + destruct J as [J1 J2 J3 J4 J5 J6]. split; simpl; [done|done| | | |done].
      * intros i y. destruct (decide (i = j)) as [->|Hij].
        -- rewrite list_lookup_alter_eq. intros (x & Hx & ->)%fmap_Some. exact (J3 j x Hx).
        -- rewrite list_lookup_alter_ne by done. apply J3.
      * intros i Hi. apply live_alter; [done|by apply J4].
      * intros x i Hx Hi. apply live_alter; [done|by eapply J5].
    + intros queue head J'. apply wp_ret. eapply (HQ _ _ s); [|by eapply lm_yield].
      apply (Hdone queue head); [done|].
      rewrite <- (put_ready_self s). exact (rep_control w s _ _ _ R J').
  - pose proof (cf_ok _ _ Hcfg) as Hok. apply wp_bind. eapply runOne_pick_wp; [done|done| |].
    + intros Hr queue head R2. apply wp_ret. eapply (HQ _ _ s); [|by eapply lm_idle].
      eapply config_queue; [done..|]. destruct p; eauto.
    + intros j ready head Hr R2.
      destruct (jr_ready _ _ _ _ J j) as (x & Hx & Hd); [rewrite Hr; by left|].
      apply wp_bind. eapply (runOne_switch_wp _ s); [exact R2|done| |].
      { exists (withQueued false x). simpl. by rewrite list_lookup_alter_eq, Hx. }
      intros y js to w' Hy Hto Hjs Hjy R3. apply wp_ret. simpl in Hy, Hjs.
      rewrite list_lookup_alter_eq, Hx in Hy. injection Hy as <-.
      assert (∀ i, i ≠ j → js !! i = jobs w !! i) as Hjs'.
      { intros i Hi. rewrite Hjs by done. by rewrite list_lookup_alter_ne. }
      eapply (HQ _ _ (put_ready ready s)).
      * by eapply (scheduler_switch w s p j ready x to Hcfg Hc Hr Hx Hto head js).
      * rewrite Hto. apply (lm_run w s p w' j ready x); [done..|]. destruct Hjy as (z & Hz & _). by exists z.
Qed.

Lemma loopOnce_ok w s p Q :
  config_ok (w, Looping p) s →
  (∀ c w' s', config_ok (w', c) s' → loop_move w s p w' s' c → Q c w') →
  wp False (loopOnce p) Q w.
Proof.
  intros Hcfg HQ. pose proof Hcfg as [R Hok _ Hctl]. simpl in *. unfold loopOnce. apply wp_bind.
  eapply resume_wp; [done|done|apply Hctl|]. intros m R1 H2. destruct (spec_resume p s).1 as [r|] eqn:Hres.
  - apply wp_ret. eapply (HQ _ _ (put_mem m s)); [by eapply resume_done|].
    apply lm_resume; [|done..]. by rewrite <- H2, <- Hres, <- surjective_pairing.
  - pose proof (spec_resume_none _ _ Hres) as (_ & _ & Hnone). rewrite Hnone in H2. simpl in H2.
    rewrite <- H2 in R1. replace (with_memory m w) with w.
    { by apply (loopOn_ok w s p). }
    apply (f_equal s_mem) in H2. simpl in H2. rewrite <- H2, <- (rep_mem _ _ _ R). by destruct w.
Qed.

(** * The end of a goroutine *)

Lemma exitJob_ok w s r j Q :
  config_ok (w, Calling r) s → h_current (handler w) = Some j →
  (∀ from w', config_ok (w', Looping from) s → h_scheduler (handler w) = Some from →
     h_current (handler w') = None → jobs w' = alter withJobDone j (jobs w) → Q (Looping from) w') →
  wp False exitJob Q w.
Proof.
  intros [R Hok [Hcur Hj Ht] Hctl] Hc HQ. simpl in *.
  destruct (Hcur j Hc) as ((from & Hfrom & Hpl & Hwk & Hne) & Hnr & x & Hx & Hsp).
  pose proof (rep_jobs _ _ _ R) as [J1 J2 J3 J4 J5 J6].
  unfold exitJob. apply wp_bind, wp_get, wp_bind. eapply wp_lift; [done|].
  unfold setJob, setJobObjects. apply wp_bind, wp_modify, wp_bind. eapply wp_lift; [done|].
  apply wp_bind. unfold runOne_return. apply wp_bind, wp_get. unfold setControl, setHandler.
  apply wp_bind, wp_modify. simpl. eapply (compactJobs_wp _ (s_regs s) (s_ready s)).
  { assert (∀ i, i ≠ j → live (jobs w) i → live (alter withJobDone j (jobs w)) i) as Hlive.
    { intros i Hi. unfold live. by rewrite list_lookup_alter_ne. }
    split; simpl; [done|done| | | |done].
    - intros i y. destruct (decide (i = j)) as [->|Hij].
      + rewrite list_lookup_alter_eq. intros (z & Hz & ->)%fmap_Some. exact (J3 j z Hz).
      + rewrite list_lookup_alter_ne by done. apply J3.
    - intros i Hi. apply Hlive; [|by apply J4]. by intros ->.
    - intros y i Hy Hti. apply Hlive; [|by eapply J5]. intros ->. by eapply Hctl. }
  intros queue head J'. apply wp_ret, HQ; [|done..]. split; simpl; [|done| |].
  - rewrite <- (put_ready_self s). exact (rep_control w s _ _ _ R J').
  - split; simpl; [done| |].
    + intros i y Hy Hd _. destruct (decide (i = j)) as [->|Hij].
      * rewrite list_lookup_alter_eq, Hx in Hy. by injection Hy as <-.
      * rewrite list_lookup_alter_ne in Hy by done. apply (Hj i y Hy Hd). congruence.
    + intros y i Hy Hti _. assert (i ≠ j) as Hij by (intros ->; by eapply Hctl).
      rewrite list_lookup_alter_ne by done. apply (Ht y i Hy Hti). congruence.
  - split_and!; done.
Qed.

(** * Reachable configurations *)

Lemma exitJob_running w c w' : exitJob w = Some (c, w') → is_Some (h_current (handler w)).
Proof.
  unfold exitJob, mbind, GoM_bind, get, lift. destruct (h_current (handler w)) as [j|]; [eauto|done].
Qed.

(** Completed operations stay completed. *)
Definition out_mono (s s' : spec) : Prop := ∀ q o, s_out s !! q = Some o → s_out s' !! q = Some o.

Lemma evolves_out task job out s s' : evolves task job out s s' → out_mono s s'.
Proof.
  intros Hev q o Ho. destruct out; simpl in Hev.
  - destruct Hev as [Hsh| ->]; [by apply (sh_out _ _ Hsh)|done].
  - by rewrite (su_out _ _ _ _ Hev).
Qed.

Lemma step_ok c e c' s :
  config_ok c s → step c e c' → ∃ s', config_ok c' s' ∧ out_mono s s'.
Proof.
  intros Hc Hstep. destruct Hstep as [w r o out w' Hcall Hrun|w p c w' Hrun|w r c w' Hrun].
  - eapply (wp_run _ (λ out w', ∃ s', config_ok (w', controlOf out) s' ∧ out_mono s s')); [|exact Hrun].
    eapply dispatch_ok; [done..|]. intros w2 _ Hc2. eexists. split; [exact Hc2|].
    eapply evolves_out, spec_dispatch_evolves. apply Hc.
  - eapply (wp_run _ (λ c w', ∃ s', config_ok (w', c) s' ∧ out_mono s s')); [|exact Hrun].
    eapply loopOnce_ok; [done|]. intros c2 w2 s2 Hc2 Hm. exists s2. split; [done|]. intros q o.
    by rewrite (loop_move_out _ _ _ _ _ _ Hm).
  - destruct (exitJob_running _ _ _ Hrun) as [j Hj].
    eapply (wp_run _ (λ c w', ∃ s', config_ok (w', c) s' ∧ out_mono s s')); [|exact Hrun].
    eapply exitJob_ok; [done..|]. intros from w2 Hc2 _ _ _. exists s. split; [done|by intros q o].
Qed.

Lemma run_ok c tr c' s :
  config_ok c s → run step c tr c' → ∃ s', config_ok c' s' ∧ out_mono s s'.
Proof.
  intros Hc Hrun. revert s Hc. induction Hrun as [c|c1 c2 c3 e tr Hstep _ IH]; intros s Hc.
  - exists s. split; [done|by intros q o].
  - destruct (step_ok _ _ _ _ Hc Hstep) as (s2 & Hc2 & Ho). destruct (IH s2 Hc2) as (s3 & Hc3 & Ho').
    exists s3. split; [done|]. intros q o Hq. by apply Ho', Ho.
Qed.

Lemma config_reachable_ok c : reachable c → ∃ s, config_ok c s.
Proof. intros [tr H]. destruct (run_ok _ _ _ _ start_ok H) as (s & Hc & _). by exists s. Qed.

(** The goroutines that are stopped, and those that do not exist. *)
Record stacks_rep (w : world) (stacks : gmap nat place) : Prop := {
  sr_stopped : ∀ j x, jobs w !! j = Some x → j_done x = false → h_current (handler w) ≠ Some j →
    stacks !! j = j_sp x;
  sr_fresh : ∀ j, jobs w !! j = None → stacks !! j = None
}.

Record sim (c : config) (y : system) : Prop := {
  sim_rep : rep c.1 (y_spec y);
  sim_control : y_control y = c.2;
  sim_current : y_current y = h_current (handler c.1);
  sim_scheduler : is_Some (h_current (handler c.1)) →
    h_scheduler (handler c.1) = Some (y_scheduler y);
  sim_stacks : stacks_rep c.1 (y_stacks y)
}.

Lemma sim_start : sim start system0.
Proof. split; simpl; [apply rep_New|done|done|by intros [? ?]|by split]. Qed.

Lemma stacks_rep_same w w' stacks :
  jobs w' = jobs w → h_current (handler w') = h_current (handler w) → stacks_rep w stacks →
  stacks_rep w' stacks.
Proof. intros Hj Hc [H1 H2]. by split; rewrite Hj, ?Hc. Qed.

Lemma stacks_rep_frame w w' stacks : frame w w' → stacks_rep w stacks → stacks_rep w' stacks.
Proof.
  intros Hf [H1 H2]. split.
  - intros j x' Hx' Hd. rewrite (fr_current _ _ Hf). intros Hne.
    destruct (fr_jobs _ _ Hf j x' Hx') as [(x & Hx & E1 & E2 & _)|(Hn & E1 & _)]; rewrite E1; [|by apply H2].
    apply H1; congruence.
  - intros j Hj. apply H2. apply lookup_ge_None_2. apply lookup_ge_None_1 in Hj.
    pose proof (fr_length _ _ Hf). lia.
Qed.

(** A goroutine stops in [p]. *)
Lemma stacks_rep_yield w w' j p stacks :
  is_Some (jobs w !! j) → h_current (handler w) = Some j → h_current (handler w') = None →
  jobs w' = alter (withStack p) j (jobs w) → stacks_rep w stacks → stacks_rep w' (<[j := p]> stacks).
Proof.
  intros [x Hx] Hc _ Hj [H1 H2]. split; rewrite Hj.
  - intros i y Hy Hd _. destruct (decide (i = j)) as [->|Hne].
    + rewrite list_lookup_alter_eq, Hx in Hy. injection Hy as <-. by rewrite lookup_insert_eq.
    + rewrite list_lookup_alter_ne in Hy by done. rewrite lookup_insert_ne by done. apply H1; congruence.
  - intros i Hi. assert (i ≠ j) as Hne.
    { intros ->. by rewrite list_lookup_alter_eq, Hx in Hi. }
    rewrite list_lookup_alter_ne in Hi by done. rewrite lookup_insert_ne by done. by apply H2.
Qed.

(** Only the entry of [j] changes, which runs now or is done. *)
Lemma stacks_rep_but w w' j stacks :
  (∀ i, i ≠ j → jobs w' !! i = jobs w !! i) → is_Some (jobs w' !! j) →
  (h_current (handler w') = Some j ∨ ∀ x, jobs w' !! j = Some x → j_done x = true) →
  (∀ i, i ≠ j → h_current (handler w) ≠ Some i) →
  stacks_rep w stacks → stacks_rep w' stacks.
Proof.
  intros Hj [z Hz] Hd Hc [H1 H2]. split.
  - intros i x Hx Hdx Hne. destruct (decide (i = j)) as [->|Hij].
    + destruct Hd as [?|Hd]; [done|]. by rewrite (Hd _ Hx) in Hdx.
    + rewrite Hj in Hx by done. apply H1; auto.
  - intros i Hi. assert (i ≠ j) as Hij by congruence. rewrite Hj in Hi by done. by apply H2.
Qed.

Lemma sim_call w s r current scheduler stacks o Q :
  config_ok (w, Calling r) s → sim (w, Calling r) (System s (Calling r) current scheduler stacks) →
  call_ok w o →
  (∀ out w' y', sys_step (System s (Calling r) current scheduler stacks) (EvCall o) y' →
     sim (w', controlOf out) y' → config_ok (w', controlOf out) (y_spec y') → Q out w') →
  wp False (dispatch o) Q w.
Proof.
  intros Hc [Hr _ Hcur Hsch Hst] Hcall HQ. simpl in *. subst current.
  eapply dispatch_ok; [done..|]. intros w' Hf Hc'. eapply HQ.
  - apply sys_call with (job := length (jobs w)).
    + apply Hst, lookup_ge_None_2. lia.
    + intros (x & Hx & _)%(jr_ready _ _ _ _ (rep_jobs _ _ _ Hr)). apply lookup_lt_Some in Hx. lia.
    + intros (x & Hx & _)%(jr_current _ _ _ _ (rep_jobs _ _ _ Hr)). apply lookup_lt_Some in Hx. lia.
  - split; simpl; [apply Hc'|done|by rewrite (fr_current _ _ Hf)| |by eapply stacks_rep_frame].
    by rewrite (fr_current _ _ Hf), (fr_scheduler _ _ Hf).
  - exact Hc'.
Qed.

Lemma sim_loop w s p current scheduler stacks Q :
  config_ok (w, Looping p) s → sim (w, Looping p) (System s (Looping p) current scheduler stacks) →
  (∀ c w' y', sys_step (System s (Looping p) current scheduler stacks) EvLoop y' →
     sim (w', c) y' → config_ok (w', c) (y_spec y') → Q c w') →
  wp False (loopOnce p) Q w.
Proof.
  intros Hc [Hr _ Hcur Hsch Hst] HQ. simpl in *. subst current.
  eapply loopOnce_ok; [done|]. intros c w' s' Hc' Hm. pose proof (cf_rep _ _ Hc') as Hr'. simpl in Hr'.
  destruct Hm as [w' r s' Hres Hj Hh|w' j from Hres Hj Hf Hn Hjs|w' j ready x Hres Hn Hrd Hx Hj Hf Hjs Hs|
    w' Hres Hn Hrd Hj Hn'].
  - eapply HQ; [by apply sys_resume| |done]. split; simpl; rewrite ?Hh; [done..|].
    eapply stacks_rep_same; [exact Hj|by rewrite Hh|done].
  - rewrite Hj in *. rewrite Hsch in Hf by done. injection Hf as <-.
    eapply HQ; [by apply sys_yield| |done]. split; simpl; rewrite ?Hn; [done..|by intros [? ?]|].
    destruct (jr_current _ _ _ _ (rep_jobs _ _ _ Hr) j Hj) as (x & Hx & _).
    by eapply stacks_rep_yield.
  - rewrite Hn in *. assert (stacks !! j = j_sp x) as Hsj.
    { destruct (jr_ready _ _ _ _ (rep_jobs _ _ _ Hr) j) as (x' & Hx' & Hd); [rewrite Hrd; by left|].
      assert (x' = x) as -> by congruence. apply Hst; congruence. }
    eapply HQ; [eapply sys_run; [done|exact Hrd]| |by rewrite Hsj].
    rewrite Hsj. split; simpl; [done|done|done|done|].
    eapply (stacks_rep_but w w' j); [done..|by left| |done]. intros i _. by rewrite Hn.
  - rewrite Hn in *. eapply HQ; [by apply sys_idle| |done].
    split; simpl; [done|done|done|rewrite Hn'; by intros [? ?]|].
    eapply stacks_rep_same; [done|congruence|done].
Qed.

Lemma sim_exit w s r current scheduler stacks j Q :
  config_ok (w, Calling r) s → sim (w, Calling r) (System s (Calling r) current scheduler stacks) →
  h_current (handler w) = Some j →
  (∀ c w' y', sys_step (System s (Calling r) current scheduler stacks) EvExit y' →
     sim (w', c) y' → config_ok (w', c) (y_spec y') → Q c w') →
  wp False exitJob Q w.
Proof.
  intros Hc [Hr _ Hcur Hsch Hst] Hj HQ. simpl in *. subst current.
  eapply exitJob_ok; [done..|]. intros from w' Hc' Hf Hn Hjs.
  rewrite Hj in *. rewrite Hsch in Hf by done. injection Hf as <-.
  eapply HQ; [by apply sys_exit| |done].
  split; simpl; [apply Hc'|done|done|rewrite Hn; by intros [? ?]|].
  destruct (jr_current _ _ _ _ (rep_jobs _ _ _ Hr) j Hj) as (x & Hx & _).
  eapply (stacks_rep_but w w' j); [| | |intros i ?; congruence|done]; rewrite Hjs.
  - intros i Hi. by rewrite list_lookup_alter_ne.
  - rewrite list_lookup_alter_eq, Hx. by eexists.
  - right. intros y. rewrite list_lookup_alter_eq, Hx. by intros [= <-].
Qed.

Lemma sim_step c e c' y :
  config_ok c (y_spec y) → sim c y → step c e c' →
  ∃ y', sys_step y e y' ∧ sim c' y' ∧ config_ok c' (y_spec y').
Proof.
  intros Hc Hs Hstep. pose proof (sim_control _ _ Hs) as Hy.
  destruct y as [s ctl current scheduler stacks]. simpl in *.
  destruct Hstep as [w r o out w' Hcall Hrun|w p c w' Hrun|w r c w' Hrun]; simpl in Hy; subst ctl.
  - refine (wp_run _ (λ out w', ∃ y', sys_step _ _ y' ∧ sim (w', controlOf out) y' ∧
      config_ok (w', controlOf out) (y_spec y')) _ _ _ _ Hrun).
    eapply sim_call; [done..|]. intros out2 w2 y2. eauto.
  - refine (wp_run _ (λ c w', ∃ y', sys_step _ _ y' ∧ sim (w', c) y' ∧
      config_ok (w', c) (y_spec y')) _ _ _ _ Hrun).
    eapply sim_loop; [done..|]. intros c2 w2 y2. eauto.
  - destruct (exitJob_running _ _ _ Hrun) as [j Hj].
    refine (wp_run _ (λ c w', ∃ y', sys_step _ _ y' ∧ sim (w', c) y' ∧
      config_ok (w', c) (y_spec y')) _ _ _ _ Hrun).
    eapply sim_exit; [done..|]. intros c2 w2 y2. eauto.
Qed.

Lemma sim_run c tr c' y :
  config_ok c (y_spec y) → sim c y → run step c tr c' → ∃ y', run sys_step y tr y' ∧ sim c' y'.
Proof.
  intros Hc Hs Hrun. revert y Hc Hs. induction Hrun as [c|c1 c2 c3 e tr Hstep _ IH]; intros y Hc Hs.
  - exists y. split; [apply run_nil|done].
  - destruct (sim_step _ _ _ _ Hc Hs Hstep) as (y2 & Hy2 & Hs2 & Hc2).
    destruct (IH y2 Hc2 Hs2) as (y3 & Hy3 & Hs3). exists y3. split; [by eapply run_cons|done].
Qed.
