(* ===== verification/SerialProperties.v ===== *)
(** The properties of the scheduler and its channels: runs of a program and its
    goroutines from an empty handler. *)

From stdpp Require Import gmap relations.
From S2P Require Import Prelude.
From S2P Require Import GoInt.
From S2P Require Import SerialModel.
From S2P Require Import SerialSpec.
From S2P Require Import SerialSpecFacts.
From S2P Require Import SerialRep.
From S2P Require Import SerialCalls.
From S2P Require Import SerialSystem.
From S2P Require Import SerialLoops.

(** * Statements *)

(** The operation that waits as [wait] on channel [ch] cannot go on: the channel is
    open, full for a sender and empty for a receiver, and whoever waits on the other
    side satisfies [other]. *)
Definition blocked (w : world) (ch wait : nat) (send : bool) (other : nat → Prop) : Prop :=
  ∃ c, h_channels (handler w) !! ch = Some c ∧ c_closed c = false ∧
    if send then wait ∈ c_senders c ∧ c_length c = c_capacity c ∧ ∀ n, n ∈ c_receivers c → other n
    else wait ∈ c_receivers c ∧ c_length c = 0 ∧ ∀ n, n ∈ c_senders c → other n.

(** The waiter of a case of the group. *)
Definition case_of (w : world) (g n : nat) : Prop :=
  ∃ b B, bindings w !! b = Some B ∧ b_group B = g ∧ b_wait B = n.

(** A place where a goroutine has to wait. *)
Definition stuck (w : world) (p : place) : Prop :=
  match p with
  | AtForever => True
  | AtSend wait => ∃ ch, blocked w ch wait true (λ _, False)
  | AtReceive wait => ∃ ch, blocked w ch wait false (λ _, False)
  | AtSelect g _ => ∃ G, groups w !! g = Some G ∧ g_selected G < 0 ∧
      ∀ i b B, g_bindings G !!z i = Some (Some b) → bindings w !! b = Some B →
        blocked w (b_owner B) (b_wait B) (b_send B) (case_of w g)
  | AtEntry | AtDrain => False
  end.

(** The waiter is in no queue, and its binding in no list of bindings. *)
Definition detached (w : world) (b wait : nat) : Prop :=
  ∀ c, c ∈ h_channels (handler w) →
    (wait ∉ c_senders c) ∧ (wait ∉ c_receivers c) ∧ (b ∉ c_selects c).

(** * Executing runs *)

Definition apartb (target source : Z) (n : nat) : bool :=
  forallb (λ k : nat, forallb (λ i : nat,
      negb (u64 (target + Z.of_nat i) =? u64 (source + Z.of_nat k))) (seq 0 k)) (seq 0 n).

Definition source_okb (w : world) (value : Z) : bool :=
  forallb (λ c, forallb (λ n,
      match waiters w !! n with
      | Some x => apartb (w_target x) value (Z.to_nat (c_elementSize c))
      | None => true
      end) (c_receivers c)) (h_channels (handler w)).

Definition call_okb (w : world) (o : call) : bool :=
  match o with
  | CallChanCreate size capacity =>
      (0 <=? size) && (size <? 2 ^ 63) && (capacity * size <? 2 ^ 63)
  | CallChanSend _ value => source_okb w value
  | CallChanSelect cases _ => forallb (λ v, source_okb w (v_Value v)) cases
  | CallDrain => bool_decide (h_current (handler w) = None)
  | _ => true
  end.

Definition execute1 (e : event) (c : config) : option config :=
  match c, e with
  | (w, Calling _), EvCall o =>
      if call_okb w o
      then (λ '(out, w'), (w', controlOf out)) <$> dispatch o w
      else None
  | (w, Looping p), EvLoop => (λ '(c', w'), (w', c')) <$> loopOnce p w
  | (w, Calling _), EvExit => (λ '(c', w'), (w', c')) <$> exitJob w
  | _, _ => None
  end.
Fixpoint execute (tr : list event) (c : config) : option config :=
  match tr with
  | [] => Some c
  | e :: tr => c' ← execute1 e c; execute tr c'
  end.

(** A rendezvous: the main program selects between a receive from the first channel and
    a send to the second; the goroutine sends to the first. *)
Definition demoCases : list ChanSelectValue :=
  [SelectValue 1 2000 2900 SelectReceive; SelectValue 2 3000 0 SelectSend].
Definition demoSelect : list event :=
  [EvCall (CallChanCreate 8 0); EvCall (CallChanCreate 8 0); EvCall (CallSpawn 1 2);
   EvCall (Store 1000 7); EvCall (CallChanSelect demoCases false); EvLoop; EvLoop;
   EvCall (CallChanSend 1 1000)].
(** A goroutine that waits for a value. *)
Definition demoWait : list event :=
  [EvCall (CallChanCreate 8 1); EvCall (CallSpawn 1 2); EvCall CallDrain; EvLoop; EvLoop;
   EvCall (CallChanReceive 1 2000); EvLoop].

Definition after (tr : list event) (c : config) : config := default start (execute tr c).

Lemma apartb_sound target source n : apartb target source n = true → apart target source n.
Proof.
  intros H i k [Hi Hik] Hk. unfold apartb in H. rewrite forallb_forall in H.
  specialize (H (Z.to_nat k)). rewrite forallb_forall in H.
  specialize (H ltac:(apply in_seq; lia) (Z.to_nat i) ltac:(apply in_seq; lia)).
  rewrite !Z2Nat.id in H by lia. by apply negb_true_iff, Z.eqb_neq in H.
Qed.

Lemma source_okb_sound w value : source_okb w value = true → source_ok w value.
Proof.
  unfold source_okb. rewrite forallb_forall. intros H c n x Hc Hn Hx.
  specialize (H c ltac:(by apply list_elem_of_In)). rewrite forallb_forall in H.
  specialize (H n ltac:(by apply list_elem_of_In)). rewrite Hx in H. by apply apartb_sound.
Qed.

Lemma call_okb_sound w o : call_okb w o = true → call_ok w o.
Proof.
  destruct o; simpl; try done.
  - rewrite !andb_true_iff, Z.leb_le, !Z.ltb_lt. lia.
  - apply source_okb_sound.
  - rewrite forallb_forall, Forall_forall. intros H v Hv _.
    by apply source_okb_sound, H, list_elem_of_In.
  - by rewrite bool_decide_eq_true.
Qed.

Lemma execute1_step e c c' : execute1 e c = Some c' → step c e c'.
Proof.
  destruct c as [w [r|p]], e as [o| |]; simpl; try done.
  - destruct (call_okb w o) eqn:Hok; [|done]. intros ([out w'] & Hrun & ->)%fmap_Some.
    by apply step_call; [apply call_okb_sound|].
  - intros ([out w'] & Hrun & ->)%fmap_Some. by eapply step_exit.
  - intros ([out w'] & Hrun & ->)%fmap_Some. by apply step_loop.
Qed.

Lemma execute_run tr c c' : execute tr c = Some c' → run step c tr c'.
Proof.
  revert c. induction tr as [|e tr IH]; intros c; simpl; [intros [= ->]; apply run_nil|].
  destruct (execute1 e c) as [c1|] eqn:He; [|done]. intros H.
  eapply run_cons; [by apply execute1_step|by apply IH].
Qed.

Lemma after_run tr c : bool_decide (is_Some (execute tr c)) = true → run step c tr (after tr c).
Proof.
  intros [c' He]%bool_decide_eq_true. unfold after. rewrite He. by apply execute_run.
Qed.

(** * What the queues hold *)

Lemma queued_reg w s ch c (send : bool) n :
  rep w s → h_channels (handler w) !! ch = Some c →
  n ∈ (if send then c_senders c else c_receivers c) →
  ∃ r, r ∈ s_regs s ∧ r_chan r = ch ∧ r_send r = send ∧ r_wait r = n.
Proof.
  intros R Hc Hn. destruct (rep_chans _ _ _ R) as [Hl Hcs].
  destruct (lookup_lt_is_Some_2 (s_chans s) ch) as [a Ha].
  { rewrite <- Hl. by eapply lookup_lt_Some. }
  pose proof (Hcs ch c a Hc Ha) as Hcr.
  assert (n ∈ r_wait <$> waitingOn ch send (s_regs s)) as Hin.
  { destruct send; [rewrite <- (cr_senders _ _ _ _ _ Hcr)|rewrite <- (cr_receivers _ _ _ _ _ Hcr)]; done. }
  apply list_elem_of_fmap in Hin as (r & -> & [[? ?] ?]%list_elem_of_filter). by exists r.
Qed.

Lemma reg_queued w s r :
  rep w s → spec_ok s → r ∈ s_regs s →
  ∃ c a, h_channels (handler w) !! r_chan r = Some c ∧ chan_rep (s_regs s) (s_regs s) (r_chan r) c a ∧
    waits_for a r ∧ r_wait r ∈ (if r_send r then c_senders c else c_receivers c).
Proof.
  intros R Hok Hr. destruct (ok_regs _ Hok r Hr) as [_ _ (a & Ha & Hw)].
  destruct (chans_lookup _ _ _ _ _ _ (rep_chans _ _ _ R) Ha) as (c & Hc & Hcr).
  exists c, a. split_and!; [done..|].
  assert (r_wait r ∈ r_wait <$> waitingOn (r_chan r) (r_send r) (s_regs s)) as Hin.
  { apply list_elem_of_fmap_2, list_elem_of_filter. done. }
  destruct (r_send r); [by rewrite (cr_senders _ _ _ _ _ Hcr)|by rewrite (cr_receivers _ _ _ _ _ Hcr)].
Qed.

(** Whoever waits on the other side belongs to the same party. *)
Lemma reg_blocked w s r (other : nat → Prop) :
  rep w s → spec_ok s → r ∈ s_regs s →
  (∀ r', r' ∈ s_regs s → r_send r' ≠ r_send r → party r' = party r → other (r_wait r')) →
  blocked w (r_chan r) (r_wait r) (r_send r) other.
Proof.
  intros R Hok Hr Hother. destruct (reg_queued w s r R Hok Hr) as (c & a & Hc & Hcr & (Hcl & Hs & Hrc) & Hin).
  exists c. split_and!; [done|by rewrite (cr_closed _ _ _ _ _ Hcr)|].
  rewrite (cr_length _ _ _ _ _ Hcr), (cr_cap _ _ _ _ _ Hcr). pose proof (ok_match _ Hok) as Hm.
  destruct (r_send r) eqn:Hsend; (split_and!; [done| |]).
  - by apply Hs.
  - intros n Hn. destruct (queued_reg w s _ c false n R Hc Hn) as (r' & Hr' & Hch & Hs' & <-).
    apply Hother; [done|congruence|]. symmetry. by apply Hm.
  - by rewrite Hrc.
  - intros n Hn. destruct (queued_reg w s _ c true n R Hc Hn) as (r' & Hr' & Hch & Hs' & <-).
    apply Hother; [done|congruence|]. by apply Hm.
Qed.

(** The waiter of a binding that is queued is registered for the binding's group. *)
Lemma queued_binding w s r b B :
  rep w s → r ∈ s_regs s → bindings w !! b = Some B → b_wait B = r_wait r →
  party r = inr (b_group B) ∧ r_binding r = Some b.
Proof.
  intros R Hr HB He. pose proof (br_unique _ _ (rep_static _ _ _ R) b B r HB Hr (eq_sym He)) as Hb.
  split; [|done]. destruct (rep_regs _ _ _ R r Hr) as [_ Hreg]. unfold r_binding, party in *.
  destruct (r_case r) as [[[g i] b']|]; [|done]. injection Hb as ->.
  destruct (Hreg g i b eq_refl) as [HB' _]. rewrite HB in HB'. by injection HB' as ->.
Qed.

(** A plain waiter has only itself for a party. *)
Lemma plain_unique s r r' n :
  spec_ok s → r ∈ s_regs s → r' ∈ s_regs s → party r = inl n → party r' = inl n → r = r'.
Proof.
  intros Hok Hr Hr' H1 H2. unfold party in *.
  destruct (r_case r) as [[[??]?]|]; [done|]. destruct (r_case r') as [[[??]?]|]; [done|].
  apply list_elem_of_lookup in Hr as [i Hi]. apply list_elem_of_lookup in Hr' as [k Hk].
  assert (i = k); [|congruence].
  apply (NoDup_lookup (r_wait <$> s_regs s) _ _ n); [apply Hok| |]; rewrite list_lookup_fmap;
    [rewrite Hi|rewrite Hk]; simpl; congruence.
Qed.

Lemma plain_blocked w s n (send : bool) :
  rep w s → spec_ok s → (∃ r, r ∈ s_regs s ∧ party r = inl n ∧ r_send r = send) →
  ∃ ch, blocked w ch n send (λ _, False).
Proof.
  intros R Hok (r & Hr & Hp & Hs). exists (r_chan r). rewrite <- Hs.
  assert (r_wait r = n) as <-.
  { unfold party in Hp. by destruct (r_case r) as [[[??]?]|]; [|injection Hp]. }
  apply (reg_blocked w s r _ R Hok Hr). intros r' Hr' Hne Hp'. rewrite Hp in Hp'.
  rewrite (plain_unique s r' r (r_wait r) Hok Hr' Hr Hp' Hp) in Hne. done.
Qed.

Lemma select_blocked w s g G :
  rep w s → spec_ok s → groups w !! g = Some G → s_out s !! inr g = None →
  ∀ i b B, g_bindings G !!z i = Some (Some b) → bindings w !! b = Some B →
    blocked w (b_owner B) (b_wait B) (b_send B) (case_of w g).
Proof.
  intros R Hok HG Ho i b B Hb HB. destruct (rep_groups _ _ _ R g G HG Ho) as [_ Hreg].
  destruct (Hreg i b Hb) as (r & Hr & Hc). destruct (rep_regs _ _ _ R r Hr) as [_ Hrr].
  destruct (Hrr g i b Hc) as [HB' _]. rewrite HB in HB'. injection HB' as ->. simpl.
  apply (reg_blocked w s r _ R Hok Hr). intros r' Hr' _ Hp. unfold party in Hp. rewrite Hc in Hp.
  destruct (r_case r') as [[[g' i'] b']|] eqn:Hc'; [|done]. injection Hp as ->.
  destruct (rep_regs _ _ _ R r' Hr') as [_ Hrr']. destruct (Hrr' g i' b' Hc') as [HB' _].
  exists b', (SelectBinding (r_wait r') g i' (r_chan r') (r_send r')). by split_and!.
Qed.

(** A committed select statement has an outcome, and nothing of it waits. *)
Lemma committed_out w s g G :
  rep w s → groups w !! g = Some G → 0 ≤ g_selected G → is_Some (s_out s !! inr g).
Proof.
  intros R HG Hsel. destruct (s_out s !! inr g) as [o|] eqn:Ho; [by eexists|].
  destruct (rep_groups _ _ _ R g G HG Ho) as [He _]. lia.
Qed.

Lemma committed_detached w s g G i b B :
  rep w s → spec_ok s → groups w !! g = Some G → is_Some (s_out s !! inr g) →
  g_bindings G !!z i = Some (Some b) → bindings w !! b = Some B → detached w b (b_wait B).
Proof.
  intros R Hok HG [o Ho] Hb HB. destruct (br_group _ _ (rep_static _ _ _ R) g G i b HG Hb) as (B' & HB' & Hg).
  assert (B' = B) as -> by congruence.
  assert (∀ r, r ∈ s_regs s → party r ≠ inr g) as Hno.
  { intros r Hr Hp. pose proof (reg_open _ _ (ok_regs _ Hok r Hr)) as Hn. rewrite Hp in Hn. congruence. }
  assert (∀ ch c (send : bool), h_channels (handler w) !! ch = Some c →
    b_wait B ∉ (if send then c_senders c else c_receivers c)) as Hq.
  { intros ch c send Hc Hin. destruct (queued_reg w s ch c send _ R Hc Hin) as (r & Hr & _ & _ & Hw).
    destruct (queued_binding w s r b B R Hr HB (eq_sym Hw)) as [Hp _]. apply (Hno r Hr). congruence. }
  intros c [ch Hc]%list_elem_of_lookup. split_and!; [by apply (Hq ch c true)|by apply (Hq ch c false)|].
  intros Hin. destruct (rep_chans _ _ _ R) as [Hl Hcs].
  destruct (lookup_lt_is_Some_2 (s_chans s) ch) as [a Ha]; [rewrite <- Hl; by eapply lookup_lt_Some|].
  rewrite (cr_selects _ _ _ _ _ (Hcs ch c a Hc Ha)) in Hin.
  apply list_elem_of_omap in Hin as (r & [_ Hr]%list_elem_of_filter & Hrb). unfold r_binding in Hrb.
  destruct (r_case r) as [[[g' i'] b']|] eqn:Hcase; [|done]. injection Hrb as ->.
  destruct (rep_regs _ _ _ R r Hr) as [_ Hrr]. destruct (Hrr g' i' b Hcase) as [HB'' _].
  apply (Hno r Hr). unfold party. rewrite Hcase. rewrite HB in HB''. injection HB'' as ->. by simpl in Hg; subst.
Qed.

(** * Properties *)

(** C4. The scheduler, its channels and its select statements implement a simple machine:
    channels are queues of values with a bound, waiting operations are one list served
    in order of arrival, a select statement completes as a whole, and goroutines run in
    the order in which they became ready.  Every run of the handler whose calls keep the
    contract [call_ok] is a run of that machine with the same calls, the same replies,
    the same memory and every goroutine stopped in the same place.  The contract asks
    three things: the size of a channel's buffer is a Go integer ([CallChanCreate]); a
    value that is sent does not overlap memory in which a receiver of the handler waits
    for one; and [Drain] is called on the stack of the main program.  Every other call,
    with whatever arguments, is within it. *)
Theorem handler_refines tr c :
  run step start tr c → ∃ y, run sys_step system0 tr y ∧ sim c y.
Proof. intros H. by apply (sim_run start tr c system0 start_ok sim_start). Qed.

Lemma handler_refines_witness :
  ∃ y, run sys_step system0 demoSelect y ∧ sim (after demoSelect start) y.
Proof. apply handler_refines, after_run. vm_compute. reflexivity. Defined.

(** C14. No lost wakeup: in every configuration that is reachable by calls within the
    contract [call_ok], a goroutine that is not finished, does not run and is not in the
    queue of ready jobs cannot run.  It blocks for ever, or the channel of its operation
    is open and full (for a send) or empty (for a receive) with nobody waiting on the
    other side; of a select statement this holds for every case, where the other side
    may only have cases of the same statement. *)
Theorem no_lost_wakeup c j x :
  reachable c → jobs c.1 !! j = Some x → j_done x = false → h_current (handler c.1) ≠ Some j →
  j ∉ drop (Z.to_nat (h_jobHead (handler c.1))) (h_jobs (handler c.1)) →
  ∃ p, j_sp x = Some p ∧ stuck c.1 p.
Proof.
  intros [s [R Hok Hst _]]%config_reachable_ok Hx Hd Hne Hq. rewrite (jr_queue _ _ _ _ (rep_jobs _ _ _ R)) in Hq.
  pose proof (st_jobs _ _ Hst j x Hx Hd Hne) as Hj. destruct (j_sp x) as [p|]; [|done].
  exists p. split; [done|]. destruct Hj as ((Hu & Hplain & Hgroup) & Hdr & Hen & _ & Hout).
  assert (∀ q, party_of p = Some q → s_out s !! q = None) as Ho.
  { intros q Hp. destruct (s_out s !! q) as [o|] eqn:E; [|done]. destruct Hq. apply (Hout q Hp). by eexists. }
  destruct p as [| |n|n|g cases|]; simpl in *; [by destruct (Hq (Hen eq_refl))|done| | | |done].
  - exact (plain_blocked _ s n true R Hok (Hplain n eq_refl (Ho _ eq_refl))).
  - exact (plain_blocked _ s n false R Hok (Hplain n eq_refl (Ho _ eq_refl))).
  - destruct (Hgroup g cases eq_refl) as (G & HG & _). exists G. specialize (Ho _ eq_refl).
    destruct (rep_groups _ _ _ R g G HG Ho) as [Hsel _]. split_and!; [done|lia|].
    by eapply select_blocked.
Qed.

Lemma no_lost_wakeup_witness :
  ∃ x p, jobs (after demoWait start).1 !! 0%nat = Some x ∧ j_sp x = Some p ∧
    stuck (after demoWait start).1 p.
Proof.
  destruct (no_lost_wakeup (after demoWait start) 0%nat (Job 1 2 (Some (AtReceive 0)) false false))
    as (p & Hp & Hs).
  - exists demoWait. apply after_run. vm_compute. reflexivity.
  - vm_compute. reflexivity.
  - reflexivity.
  - vm_compute. discriminate.
  - intros Hin%list_elem_of_In. vm_compute in Hin. exact Hin.
  - eexists _, p. split; [|exact (conj Hp Hs)]. vm_compute. reflexivity.
Defined.

(** C13. A select statement commits once, in runs whose calls keep the contract [call_ok].
    From the moment its group has a selected case, in every later configuration the case and the status are the same, and no operation
    of any of its cases waits on any channel: no second send or receive can complete it. *)
Theorem select_commits_once c g G tr c' :
  reachable c → groups c.1 !! g = Some G → 0 ≤ g_selected G → run step c tr c' →
  ∃ G', groups c'.1 !! g = Some G' ∧ g_selected G' = g_selected G ∧ g_status G' = g_status G ∧
    ∀ i b B, g_bindings G' !!z i = Some (Some b) → bindings c'.1 !! b = Some B →
      detached c'.1 b (b_wait B).
Proof.
  intros [s Hc]%config_reachable_ok HG Hsel Hrun. pose proof (cf_rep _ _ Hc) as R.
  destruct (committed_out _ _ _ _ R HG Hsel) as [o Ho].
  destruct (rep_out _ _ _ R _ _ Ho) as (G0 & _ & _ & _ & HG0 & Hi & _ & Hst & _).
  assert (G0 = G) as -> by congruence.
  destruct (run_ok _ _ _ _ Hc Hrun) as (s' & Hc' & Hmono). pose proof (Hmono _ _ Ho) as Ho'.
  destruct (rep_out _ _ _ (cf_rep _ _ Hc') _ _ Ho') as (G' & _ & _ & _ & HG' & Hi' & _ & Hst' & _).
  exists G'. split_and!; [done|congruence|congruence|]. intros i b B Hb HB.
  by eapply committed_detached; [apply Hc'|apply Hc'| |by eexists| |].
Qed.

Lemma select_commits_once_witness :
  ∃ G', groups (after [EvExit; EvLoop] (after demoSelect start)).1 !! 0%nat = Some G' ∧
    g_selected G' = 0.
Proof.
  destruct (select_commits_once (after demoSelect start) 0%nat
    (SelectWait [Some 0%nat; Some 1%nat] 0 0) [EvExit; EvLoop]
    (after [EvExit; EvLoop] (after demoSelect start))) as (G' & HG' & Hsel & _).
  - exists demoSelect. apply after_run. vm_compute. reflexivity.
  - vm_compute. reflexivity.
  - discriminate.
  - apply after_run. vm_compute. reflexivity.
  - exists G'. exact (conj HG' Hsel).
Defined.

(** C15. The scheduler does not panic: in every configuration that is reachable by calls
    within the contract [call_ok], a further call within the contract succeeds, a loop
    can look at its condition and switch, and a goroutine can end.  So no index of a
    ring buffer, of the job queue or of the cases of a select statement is out of range
    there, and the loops of [ChanClose] end. *)
Theorem serial_safe w ctl :
  reachable (w, ctl) →
  match ctl with
  | Calling _ => (∀ o, call_ok w o → is_Some (dispatch o w)) ∧
      (is_Some (h_current (handler w)) → is_Some (exitJob w))
  | Looping p => is_Some (loopOnce p w)
  end.
Proof.
  assert (∀ A (m : GoM world A) v, wp False m (λ _ _, True) v → is_Some (m v)) as Hwp.
  { intros A m v. unfold wp. by destruct (m v). }
  intros [s Hc]%config_reachable_ok. destruct ctl as [r|p].
  - split.
    + intros o Ho. apply Hwp. by eapply dispatch_ok.
    + intros [j Hj]. apply Hwp. by eapply exitJob_ok.
  - apply Hwp. by eapply loopOnce_ok.
Qed.

Lemma serial_safe_witness :
  let w := (after demoSelect start).1 in
  (∀ o, call_ok w o → is_Some (dispatch o w)) ∧
  (is_Some (h_current (handler w)) → is_Some (exitJob w)).
Proof.
  assert ((after demoSelect start).2 = Calling (ReplyStatus 0)) as Hc by (vm_compute; reflexivity).
  pose proof (serial_safe (after demoSelect start).1 (after demoSelect start).2) as H.
  rewrite Hc in H. apply H. rewrite <- Hc, <- surjective_pairing.
  exists demoSelect. apply after_run. vm_compute. reflexivity.
Defined.

(** * Outside the contract *)

(** [Drain] on the stack of a goroutine: the switch to the next job stores that stack in
    [h.scheduler], in place of the stack of the main program, and clears [h.current]
    when it comes back. The goroutine goes on as if it were the main program, and when
    it ends there is no stack to switch back to. *)
Definition drainInGoroutine : option (control * option nat * option place * option bool * bool) :=
  '(w, _) ← execute [EvCall (CallSpawn 1 2); EvCall CallDrain; EvLoop; EvLoop] start;
  '(_, w) ← dispatch (CallSpawn 3 4) w;
  '(_, w) ← dispatch CallDrain w;
  '(_, w) ← loopOnce AtDrain w;
  '(_, w) ← loopOnce AtEntry w;
  '(_, w) ← exitJob w;
  '(c, w) ← loopOnce AtDrain w;
  Some (c, h_current (handler w), h_scheduler (handler w), j_done <$> jobs w !! 0%nat,
    bool_decide (exitJob w = None)).

Example drain_in_goroutine :
  drainInGoroutine = Some (Calling ReplyNone, None, Some AtDrain, Some false, true).
Proof. vm_compute. done. Qed.
