(* ===== verification/SyntaxToken.v ===== *)
(** Tokens of the Go scanner: src/internal/syntax/token.go.

    A source file is a [list Z] of bytes.  A token packs its kind, the byte of a
    one-byte operator and its line into one integer. *)

From Stdlib Require Import String Ascii.
From S2P Require Import Prelude.
From S2P Require Import GoInt.

(** The bytes of a Go string constant. *)
Definition text (s : string) : list Z :=
  (λ a, Z.of_nat (nat_of_ascii a)) <$> list_ascii_of_string s.
Arguments text s%_string.

(** A byte that the code writes as a character. *)
Definition chr (a : ascii) : Z := Z.of_nat (nat_of_ascii a).
Arguments chr a%_char.

(** Go's [||] on expressions that may panic. *)
Definition orO (a b : option bool) : option bool :=
  match a with
  | Some false => b
  | _ => a
  end.
Infix "||?" := orO (at level 50, left associativity) : go_scope.

(** A condition on [src[i]]. *)
Definition byteIs (src : list Z) (i : Z) (P : Z → bool) : option bool :=
  c ← src !!z i; Some (P c).

Definition TokenEOF : Z := 0.
Definition TokenIdent : Z := 1.
Definition TokenNumber : Z := 2.
Definition TokenString : Z := 3.
Definition TokenChar : Z := 4.
Definition TokenOperator : Z := 5.
Definition TokenPackage : Z := 6.
Definition TokenImport : Z := 7.
Definition TokenConst : Z := 8.
Definition TokenVar : Z := 9.
Definition TokenType : Z := 10.
Definition TokenFunc : Z := 11.
Definition TokenStruct : Z := 12.
Definition TokenInterface : Z := 13.
Definition TokenMap : Z := 14.
Definition TokenReturn : Z := 15.
Definition TokenIf : Z := 16.
Definition TokenElse : Z := 17.
Definition TokenFor : Z := 18.
Definition TokenRange : Z := 19.
Definition TokenSwitch : Z := 20.
Definition TokenCase : Z := 21.
Definition TokenDefault : Z := 22.
Definition TokenBreak : Z := 23.
Definition TokenContinue : Z := 24.
Definition TokenGoto : Z := 25.
Definition TokenDefer : Z := 26.
Definition TokenGo : Z := 27.
Definition TokenSelect : Z := 28.
Definition TokenChan : Z := 29.
Definition TokenFallthrough : Z := 30.

Definition TokenOperatorCharShift : Z := 8.
Definition TokenOperatorCharMask : Z := 127.
Definition TokenOperatorLineShift : Z := 15.
Definition TokenLineLimit : Z := 65535.

Record Token := MkToken { t_KindLine : Z; t_Start : Z; t_End : Z }.

#[global] Instance Token_eq_dec : EqDecision Token.
Proof. solve_decision. Defined.

(** [kind | line<<TokenOperatorLineShift] *)
Definition kindLine (kind line : Z) : Z :=
  Z.lor kind (Z.shiftl line TokenOperatorLineShift).

Definition MakeToken (kind start end_ line : Z) : Token :=
  MkToken (kindLine kind line) (i32 start) (i32 end_).

Definition TokenLine (tok : Token) : Z :=
  Z.land (Z.shiftr (t_KindLine tok) TokenOperatorLineShift) TokenLineLimit.

(** [tok.KindLine & 255] *)
Definition tokenKind (tok : Token) : Z := Z.land (t_KindLine tok) 255.

(** [packed >> TokenOperatorCharShift & TokenOperatorCharMask] *)
Definition tokenChar (tok : Token) : Z :=
  Z.land (Z.shiftr (t_KindLine tok) TokenOperatorCharShift) TokenOperatorCharMask.

(** The loop of a binary search from [lo] to [hi]: [below] is the condition under which
    it goes on behind [mid]. *)
Fixpoint bisect (fuel : nat) (below : Z → option bool) (lo hi : Z) : option Z :=
  if lo <? hi then
    match fuel with
    | O => None
    | S fuel =>
        let mid := lo + Z.quot (hi - lo) 2 in
        b ← below mid;
        if (b : bool) then bisect fuel below (mid + 1) hi else bisect fuel below lo mid
    end
  else Some lo.

Definition TokenLineAt (tokens : list Token) (at_ : Z) (lineStarts : list Z) : option Z :=
  tok ← tokens !!z at_;
  if lenZ lineStarts =? 0 then Some (TokenLine tok)
  else
    bisect (length lineStarts) (λ mid, s ← lineStarts !!z mid; Some (s <=? t_Start tok))
      0 (lenZ lineStarts).

Definition TokenSize (tok : Token) : Z := i32 (t_End tok - t_Start tok).
Definition TokenEnd (tok : Token) : Z := t_End tok.
Definition TokenStart (tok : Token) : Z := t_Start tok.

(** nil is the empty list. *)
Definition TokenText (src : list Z) (tok : Token) : list Z :=
  if (t_Start tok <? 0) || (t_End tok <? t_Start tok) || (lenZ src <? t_End tok) then []
  else sublistZ src (t_Start tok) (t_End tok).

(** A loop over [src[lo:end]] that looks for a byte. *)
Definition anyByte (src : list Z) (lo end_ : Z) (P : Z → bool) : option bool :=
  part ← sliceZ src lo end_; Some (existsb P part).

Definition NumberTokenIsFloat (src : list Z) (tok : Token) : option bool :=
  let start := t_Start tok in
  let end_ := t_End tok in
  if negb (tokenKind tok =? TokenNumber) || (start <? 0) || (end_ <? start) || (lenZ src <? end_)
  then Some false
  else
    let decimal := anyByte src start end_
      (λ c, (c =? chr ".") || (c =? chr "e") || (c =? chr "E") || (c =? chr "p") || (c =? chr "P")) in
    prefixed ← Some (2 <? end_ - start) &&? byteIs src start (Z.eqb (chr "0"));
    if (prefixed : bool) then
      prefix ← src !!z (start + 1);
      if (prefix =? chr "x") || (prefix =? chr "X") then
        anyByte src (start + 2) end_ (λ c, (c =? chr ".") || (c =? chr "p") || (c =? chr "P"))
      else if (prefix =? chr "b") || (prefix =? chr "B") || (prefix =? chr "o") || (prefix =? chr "O")
      then Some false
      else decimal
    else decimal.
