(* ===== verification/SyntaxUnicode.v ===== *)
(** The Unicode tables of the scanner: src/internal/syntax/unicode_tables.go.

    A table is a string of records of twelve characters: the first and the last
    character of a range and its stride, four characters each, six bits per character
    on top of a space.  The strings are written here with [q] for the double quote,
    which they use and a lower-case letter they do not.

    Unicode identifiers: src/internal/syntax/unicode.go. *)

From Stdlib Require Import String Ascii.
From S2P Require Import Prelude.
From S2P Require Import GoInt.
From S2P Require Import SyntaxToken.

Definition table (s : string) : list Z :=
  (λ c, if c =? chr "q" then 34 else c) <$> text s.
Arguments table s%_string.

Definition unicodeLetterRanges : list Z := Eval vm_compute in
    table "  !!  !:   !  !A  !Z   !  qJ  qU   +  qZ  #    &  #!  #6   !  #8  #V   !  #X  +!   !" ++
    table "  +&  +1   !  +@  +D   !  +L  +N   q  -P  -T   !  -V  -W   !  -Z  -]   !  -_  .&   '" ++
    table "  .(  .*   !  .,  ..   q  ./  .A   !  .C  /U   !  /W  2!   !  2*  4O   !  4Q  56   !" ++
    table "  59  5@   '  5A  6(   !  70  7J   !  7O  7R   !  8@  9*   !  9N  9O   !  9Q  ;3   !" ++
    table "  ;5  ;E   0  ;F  ;N   (  ;O  ;Z   +  ;[  ;\   !  ;_  <0   1  <2  <O   !  =-  >E   !" ++
    table "  >Q  ?*   9  ?+  ?J   !  ?T  ?U   !  ?Z  @    &  @!  @5   !  @:  @D   *  @H  A    8" ++
    table "  A!  A8   !  A@  AJ   !  AP  B'   !  B)  B.   !  B@  C)   !  D$  DY   !  D]  E0   3" ++
    table "  E8  EA   !  EQ  F    !  F%  F,   !  F/  F0   !  F3  FH   !  FJ  FP   !  FR  FV   $" ++
    table "  FW  FY   !  F]  G.   1  G<  G=   !  G?  GA   !  GP  GQ   !  G\  H%   )  H&  H*   !" ++
    table "  H/  H0   !  H3  HH   !  HJ  HP   !  HR  HS   !  HU  HV   !  HX  HY   !  I9  I<   !" ++
    table "  I>  IR   4  IS  IT   !  J%  J-   !  J/  J1   !  J3  JH   !  JJ  JP   !  JR  JS   !" ++
    table "  JU  JY   !  J]  K0   3  K@  KA   !  KY  L%   ,  L&  L,   !  L/  L0   !  L3  LH   !" ++
    table "  LJ  LP   !  LR  LS   !  LU  LY   !  L]  M<   ?  M=  M?   q  M@  MA   !  MQ  N#   2" ++
    table "  N%  N*   !  N.  N0   !  N2  N5   !  N9  N:   !  N<  N>   q  N?  NC   $  ND  NH   $" ++
    table "  NI  NJ   !  NN  NY   !  O0  P%   U  P&  P,   !  P.  P0   !  P2  PH   !  PJ  PY   !" ++
    table "  P]  Q8   ;  Q9  Q:   !  Q=  Q@   #  QA  R    ?  R%  R,   !  R.  R0   !  R2  RH   !" ++
    table "  RJ  RS   !  RU  RY   !  R]  S=   @  S>  S@   q  SA  SQ   0  SR  T$   2  T%  T,   !" ++
    table "  T.  T0   !  T2  TZ   !  T]  U.   1  U4  U6   !  U?  UA   !  UZ  U_   !  V%  V6   !" ++
    table "  V:  VQ   !  VS  V[   !  V]  W    #  W!  W&   !  X!  XP   !  XR  XS   !  Y   Y&   !" ++
    table "  Z!  Zq   !  Z$  Z&   q  Z'  Z*   !  Z,  ZC   !  ZE  ZG   q  ZH  ZP   !  ZR  ZS   !" ++
    table "  Z]  [    #  [!  [$   !  [&  [<   6  [=  [?   !  \   ]   !   ]!  ]'   !  ])  ]L   !" ++
    table "  ^(  ^,   ! !   ! J   ! ! _ !!0   1 !!1 !!5   ! !!: !!=   ! !!A !!E   $ !!F !!N   (" ++
    table " !!O !!P   ! !!U !q!   ! !q. !q@   2 !qA !#%   ! !#' !#-   & !#0 !#Z   ! !#\ !)(   !" ++
    table " !)* !)-   ! !)0 !)6   ! !)8 !):   q !); !)=   ! !)@ !*(   ! !** !*-   ! !*0 !*P   !" ++
    table " !*R !*U   ! !*X !*^   ! !+  !+q   q !+# !+%   ! !+( !+6   ! !+8 !,0   ! !,2 !,5   !" ++
    table " !,8 !-:   ! !.  !./   ! !.@ !/U   ! !/X !/]   ! !0! !9L   ! !9O !9_   ! !:! !::   !" ++
    table " !:@ !;J   ! !;Q !;X   ! !<  !<1   ! !<? !<Q   ! !=  !=1   ! !=@ !=L   ! !=N !=P   !" ++
    table " !>  !>S   ! !?7 !?<   % !@@ !AX   ! !B  !B$   ! !B' !BH   ! !BJ !BP   & !BQ !CU   !" ++
    table " !D  !D>   ! !E0 !EM   ! !EP !ET   ! !F  !FK   ! !FP !G)   ! !H  !H6   ! !H@ !I4   !" ++
    table " !JG !L%  !> !L& !LS   ! !M% !M,   ! !N# !N@   ! !NN !NO   ! !NZ !OE   ! !P  !PC   !" ++
    table " !Q- !Q/   ! !Q: !Q]   ! !R  !R(   ! !R0 !RZ   ! !R] !R_   ! !SI !SL   ! !SN !SS   !" ++
    table " !SU !SV   ! !SZ !T    & !T! !V_   ! !X  !\5   ! !\8 !\=   ! !\@ !]%   ! !]( !]-   !" ++
    table " !]0 !]7   ! !]9 !]?   q !]@ !]]   ! !^  !^T   ! !^V !^\   ! !^^ !_q   $ !_# !_$   !" ++
    table " !_& !_,   ! !_0 !_3   ! !_6 !_;   ! !_@ !_L   ! !_R !_T   ! !_V !_\   ! q!Q q!_   ." ++
    table " qq0 qq<   ! q$q q$'   % q$* q$3   ! q$5 q$9   $ q$: q$=   ! q$D q$J   q q$K q$M   !" ++
    table " q$O q$Y   ! q$\ q$_   ! q%% q%)   ! q%. q&#   U q&$ qP   I\ qP! qSD   ! qSK qSN   !" ++
    table " qSR qSS   ! qT  qTE   ! qTG qTM   & qTP qUG   ! qUO qV    1 qV! qV6   ! qV@ qVF   !" ++
    table " qVH qVN   ! qVP qVV   ! qVX qV^   ! qW  qW&   ! qW( qW.   ! qW0 qW6   ! qW8 qW>   !" ++
    table " qXO # %  '6 # & # Q   K # R # U   ! # [ # \   ! #!! #q6   ! #q= #q?   ! #qA ##Z   !" ++
    table " ##\ ##_   ! #$% #$O   ! #$Q #&.   ! #&@ #&_   ! #'P #'_   ! #0  $V_   ! $X  *2,   !" ++
    table " *30 *3]   ! *4  *8,   ! *80 *8?   ! *8J *8K   ! *9  *9N   ! *9_ *:=   ! *:@ *;E   !" ++
    table " *<7 *<?   ! *<B *>(   ! *>+ *?*   ! *?0 *?1   ! *?3 *?5   q *?6 *?9   ! *?R *@!   !" ++
    table " *@# *@%   ! *@' *@*   ! *@, *@B   ! *A  *AS   ! *Bq *BS   ! *CR *CW   ! *C[ *C]   q" ++
    table " *C^ *D*   , *D+ *DE   ! *DP *E&   ! *E@ *E\   ! *F$ *FR   ! *G/ *G@   1 *GA *GD   !" ++
    table " *GF *GO   ! *GZ *G^   ! *H  *HH   ! *I  *Iq   ! *I$ *I+   ! *I@ *IV   ! *IZ *I^   $" ++
    table " *I_ *JO   ! *JQ *JU   $ *JV *JY   # *JZ *J]   ! *K  *Kq   q *K; *K=   ! *K@ *KJ   !" ++
    table " *KR *KT   ! *L! *L&   ! *L) *L.   ! *L1 *L6   ! *L@ *LF   ! *LH *LN   ! *LP *M:   !" ++
    table " *M< *MI   ! *MP *OB   ! *P  ->C   ! ->P -?&   ! -?+ -?[   ! /D  /IM   ! /IP /K9   !" ++
    table " /L  /L&   ! /L3 /L7   ! /L= /L?   q /L@ /LH   ! /LJ /LV   ! /LX /L\   ! /L^ /M    q" ++
    table " /M! /M#   q /M$ /M&   q /M' /NQ   ! /O3 /T]   ! /U0 /V/   ! /V2 /W'   ! /WP /W[   !" ++
    table " /YP /YT   ! /YV /[\   ! /\A /\Z   ! /]! /]:   ! /]F /^^   ! /_q /_'   ! /_* /_/   !" ++
    table " /_2 /_7   ! /_: /_<   ! 0   0 +   ! 0 - 0 F   ! 0 H 0 Z   ! 0 \ 0 ]   ! 0 _ 0!-   !" ++
    table " 0!0 0!=   ! 0q  0#Z   ! 0*  0*<   ! 0*@ 0+0   ! 0,  0,?   ! 0,M 0-    ! 0-q 0-)   !" ++
    table " 0-0 0-U   ! 0.  0.=   ! 0.@ 0/#   ! 0/( 0//   ! 00  02=   ! 02P 033   ! 038 03[   !" ++
    table " 04  04G   ! 04P 05C   ! 05P 05Z   ! 05\ 06*   ! 06, 062   ! 064 065   ! 067 06A   !" ++
    table " 06C 06Q   ! 06S 06Y   ! 06[ 06\   ! 08  0<V   ! 0=  0=5   ! 0=@ 0=G   ! 0>  0>%   !" ++
    table " 0>' 0>P   ! 0>R 0>Z   ! 0@  0@%   ! 0@( 0@*   q 0@+ 0@U   ! 0@W 0@X   ! 0@\ 0@_   #" ++
    table " 0A  0A5   ! 0A@ 0AV   ! 0B  0B>   ! 0C@ 0CR   ! 0CT 0CU   ! 0D  0D5   ! 0D@ 0DY   !" ++
    table " 0F  0FW   ! 0F^ 0F_   ! 0H  0H0   0 0H1 0H3   ! 0H5 0H7   ! 0H9 0HU   ! 0I@ 0I\   !" ++
    table " 0J  0J<   ! 0K  0K'   ! 0K) 0KD   ! 0L  0LU   ! 0M  0M5   ! 0M@ 0MR   ! 0N  0N1   !" ++
    table " 0P  0Q(   ! 0R  0RR   ! 0S  0SR   ! 0T  0TC   ! 0Z  0ZI   ! 0ZP 0ZQ   ! 0\  0\<   !" ++
    table " 0\G 0\P   ) 0\Q 0]%   ! 0]P 0^!   ! 0^P 0_$   ! 0_@ 0_V   ! 1 # 1 W   ! 1!Q 1!R   !" ++
    table " 1!U 1q#   . 1q$ 1qO   ! 1#0 1#H   ! 1$# 1$F   ! 1%$ 1%'   # 1%0 1%R   ! 1%V 1&#   -" ++
    table " 1&$ 1&R   ! 1'! 1'$   ! 1': 1'<   q 1(  1(1   ! 1(3 1(K   ! 1(_ 1)    ! 1*  1*&   !" ++
    table " 1*( 1**   q 1*+ 1*-   ! 1*/ 1*=   ! 1*? 1*H   ! 1*P 1+>   ! 1,% 1,,   ! 1,/ 1,0   !" ++
    table " 1,3 1,H   ! 1,J 1,P   ! 1,R 1,S   ! 1,U 1,Y   ! 1,] 1-0   3 1-= 1-A   ! 10  10T   !" ++
    table " 11' 11*   ! 11? 11A   ! 12  12O   ! 13$ 13%   ! 13' 16   qY 16! 16N   ! 178 17;   !" ++
    table " 18  18O   ! 19$ 1:    \ 1:! 1:J   ! 1:X 1<   !( 1<! 1<:   ! 1=  1=&   ! 1@  1@K   !" ++
    table " 1B@ 1C?   ! 1C_ 1D&   ! 1D) 1D,   # 1D- 1D3   ! 1D5 1D6   ! 1D8 1DO   ! 1D_ 1E!   q" ++
    table " 1F@ 1FG   ! 1FJ 1G0   ! 1GA 1GC   q 1H  1H+   + 1H, 1HR   ! 1HZ 1I0   6 1I< 1J)   !" ++
    table " 1J= 1JP   3 1JQ 1KX   ! 1P  1P(   ! 1P* 1PN   ! 1Q  1QR   R 1QS 1R/   ! 1T  1T&   !" ++
    table " 1T( 1T)   ! 1T+ 1TP   ! 1U& 1U@   : 1UA 1UE   ! 1UG 1UH   ! 1UJ 1V)   ! 1V8 1[@  %(" ++
    table " 1[A 1[R   ! 1\q 1\$   q 1\% 1\0   ! 1\2 1\S   ! 1^P 2    !0 2 ! 2.9   ! 22  25#   !" ++
    table " 2^0 2_P   ! 3   30O   ! 31! 31&   ! 40  49&   ! 6@  6HX   ! 6I  6I>   ! 6IP 6J^   !" ++
    table " 6K0 6KM   ! 6L  6LO   ! 6M  6M#   ! 6MC 6MW   ! 6M] 6N/   ! 6Y  6Y_   ! 6\  6]*   !" ++
    table " 6]0 6^3  !# 6^4 6^?   ! 6_@ 6_A   ! 6_C 7     = 7 ! 8?W   ! 8@  8S5   ! 8T  8T(   !" ++
    table " :_P :_S   ! :_U :_[   ! :_] :_^   ! ;   ;$B   ! ;$R ;%0   > ;%1 ;%2   ! ;%5 ;%D   /" ++
    table " ;%E ;%G   ! ;%P ;+[   ! ;P  ;QJ   ! ;QP ;Q\   ! ;R  ;R(   ! ;R0 ;R9   ! =0  =14   !" ++
    table " =16 =2<   ! =2> =2?   ! =2B =2E   # =2F =2I   # =2J =2L   ! =2N =2Y   ! =2[ =2]   q" ++
    table " =2^ =3#   ! =3% =4%   ! =4' =4*   ! =4- =44   ! =46 =4<   ! =4> =4Y   ! =4[ =4^   !" ++
    table " =5  =5$   ! =5& =5*   $ =5+ =50   ! =52 =:E   ! =:H =;    ! =;q =;:   ! =;< =;Z   !" ++
    table " =;\ =<4   ! =<6 =<T   ! =<V ==.   ! ==0 ==N   ! ==P =>(   ! =>* =>H   ! =>J =?q   !" ++
    table " =?$ =?+   ! =\  =\>   ! =\E =\J   ! > P >!M   ! >$  >$L   ! >$W >$]   ! >%. >*0  %q" ++
    table " >*1 >*M   ! >+  >+K   ! >30 >3K   ! >?@ >?F   ! >?H >?K   ! >?M >?N   ! >?P >?^   !" ++
    table " >@  >C$   ! >D  >E#   ! >E+ >X   2U >X! >X#   ! >X% >X?   ! >XA >XB   ! >XD >XG   #" ++
    table " >XI >XR   ! >XT >XW   ! >XY >X[   q >Yq >Y'   % >Y) >Y-   q >Y. >Y/   ! >Y1 >Y2   !" ++
    table " >Y4 >Y7   # >Y9 >YA   q >YB >YD   q >YG >YJ   ! >YL >YR   ! >YT >YW   ! >YY >Y\   !" ++
    table " >Y^ >Z    q >Z! >Z)   ! >Z+ >Z;   ! >ZA >ZC   ! >ZE >ZI   ! >ZK >Z[   ! @   J;?   !" ++
    table " J<  K<Y   ! K=  K@=   ! K@@ LZA   ! LZP NO@   ! O@  OH=   ! P   Q-*   ! Q-0 R.O   !".

Definition unicodeDigitRanges : list Z := Eval vm_compute in
    table "   P   Y   !  9@  9I   !  ;P  ;Y   !  ?   ?)   !  EF  EO   !  GF  GO   !  IF  IO   !" ++
    table "  KF  KO   !  MF  MO   !  OF  OO   !  QF  QO   !  SF  SO   !  UF  UO   !  WF  WO   !" ++
    table "  Y0  Y9   !  [0  [9   !  \@  \I   ! !!  !!)   ! !q0 !q9   ! !?@ !?I   ! !@0 !@9   !" ++
    table " !E& !E/   ! !G0 !G9   ! !J  !J)   ! !J0 !J9   ! !M0 !M9   ! !NP !NY   ! !Q  !Q)   !" ++
    table " !Q0 !Q9   ! *8@ *8I   ! *C0 *C9   ! *D  *D)   ! *G0 *G9   ! *GP *GY   ! *I0 *I9   !" ++
    table " *OP *OY   ! /\0 /\9   ! 02@ 02I   ! 0TP 0TY   ! 1!F 1!O   ! 1#P 1#Y   ! 1$V 1$_   !" ++
    table " 1'0 1'9   ! 1+P 1+Y   ! 110 119   ! 130 139   ! 190 199   ! 1;  1;)   ! 1<P 1<Y   !" ++
    table " 1C@ 1CI   ! 1E0 1E9   ! 1Q0 1Q9   ! 1U0 1U9   ! 1V@ 1VI   ! 1]0 1]9   ! 6I@ 6II   !" ++
    table " 6K  6K)   ! 6M0 6M9   ! =?. =?_   ! >%  >%)   ! >+P >+Y   ! >3P >3Y   ! >E0 >E9   !" ++
    table " ?OP ?OY   !".

Definition unicodeUpperRanges : list Z := Eval vm_compute in
    table "  !!  !:   !  #   #6   !  #8  #>   !  $   $V   q  $Y  %'   q  %*  %X   q  %Y  %]   q" ++
    table "  &!  &q   !  &$  &&   q  &'  &)   q  &*  &+   !  &.  &1   !  &3  &4   !  &6  &8   !" ++
    table "  &<  &=   !  &?  &@   !  &B  &F   q  &G  &I   q  &L  &N   q  &O  &Q   q  &R  &S   !" ++
    table "  &U  &W   q  &X  &\   $  '$  '-   #  '/  ';   q  '>  'N   q  'Q  'T   #  'V  'X   !" ++
    table "  'Z  (R   q  (Z  ([   !  (]  (^   !  )!  )#   q  )$  )&   !  )(  ).   q  -P  -R   q" ++
    table "  -V  -_   )  .&  .(   q  .)  .*   !  .,  ..   q  ./  .1   q  .2  .A   !  .C  .K   !" ++
    table "  //  /2   #  /3  /4   !  /8  /N   q  /T  /W   #  /Y  /Z   !  /]  0O   !  1@  2    q" ++
    table "  2*  3    q  3!  3-   q  30  4N   q  4Q  56   ! !q@ !#%   ! !#' !#-   & !.@ !/U   !" ++
    table " !R0 !RZ   ! !R] !R_   ! !X  !Z4   q !Z> ![^   q !\( !\/   ! !\8 !\=   ! !\H !\O   !" ++
    table " !\X !\_   ! !]( !]-   ! !]9 !]?   q !]H !]O   ! !^X !^[   ! !_( !_+   ! !_8 !_;   !" ++
    table " !_H !_L   ! !_X !_[   ! q$q q$'   % q$+ q$-   ! q$0 q$2   ! q$5 q$9   $ q$: q$=   !" ++
    table " q$D q$J   q q$K q$M   ! q$P q$S   ! q$^ q$_   ! q%% q&#   ^ qP  qPO   ! qQ@ qQB   q" ++
    table " qQC qQD   ! qQG qQM   q qQN qQP   ! qQR qQU   # qQ^ qR    ! qRq qSB   q qSK qSM   q" ++
    table " qSR *9  'E. *9q *9L   q *:  *::   q *<B *<N   q *<R *=N   q *=Y *=]   q *=^ *>&   q" ++
    table " *>+ *>-   q *>0 *>2   q *>6 *>J   q *>K *>N   ! *>P *>T   ! *>V *?$   q *?% *?'   !" ++
    table " *?) *?0   ' *?6 *?8   q *?U /\A %<L /\B /\Z   ! 00  00G   ! 02P 033   ! 05P 05Z   !" ++
    table " 05\ 06*   ! 06, 062   ! 064 065   ! 0R  0RR   ! 1B@ 1B_   ! 6Y  6Y?   ! =0  =09   !" ++
    table " =0T =1-   ! =1H =2!   ! =2< =2>   q =2? =2E   # =2F =2I   # =2J =2L   ! =2N =2U   !" ++
    table " =30 =3I   ! =4$ =4%   ! =4' =4*   ! =4- =44   ! =46 =4<   ! =4X =4Y   ! =4[ =4^   !" ++
    table " =5  =5$   ! =5& =5*   $ =5+ =50   ! =5L =6%   ! =6@ =6Y   ! =74 =7M   ! =8( =8A   !" ++
    table " =8\ =95   ! =9P =:)   ! =:H =;    ! =;B =;Z   ! =<< =<T   ! ==6 ==N   ! =>0 =>H   !" ++
    table " =?* >D  !$V >D! >DA   !".

(** The loop of [identifierRune] over the continuation bytes. *)
Fixpoint runeTail (n : nat) (src : list Z) (start i value : Z) : option Z :=
  match n with
  | O => Some value
  | S n =>
      c ← src !!z (start + i);
      runeTail n src start (i + 1) (value * 64 + Z.land c 63)
  end.

(** The rune at [start] and its width; the width 0 is a failure. *)
Definition identifierRune (src : list Z) (start : Z) : option (Z * Z) :=
  if (start <? 0) || (lenZ src <=? start) then Some (0, 0)
  else
    c ← src !!z start;
    if c <? 128 then Some (c, 1)
    else
      let '(value, width) :=
        if 240 <=? c then (Z.land c 7, 4)
        else if 224 <=? c then (Z.land c 15, 3)
        else (Z.land c 31, 2) in
      if lenZ src <? start + width then Some (0, 0)
      else
        value ← runeTail (Z.to_nat (width - 1)) src start 1 value;
        Some (value, width).

Definition unicodeRangeValue (ranges : list Z) (offset : Z) : option Z :=
  a ← ranges !!z offset;
  b ← ranges !!z (offset + 1);
  c ← ranges !!z (offset + 2);
  d ← ranges !!z (offset + 3);
  Some (Z.lor (Z.lor (Z.lor (Z.shiftl (a - 32) 18) (Z.shiftl (b - 32) 12)) (Z.shiftl (c - 32) 6))
    (d - 32)).

(** A remainder by zero is a panic. *)
Definition remO (a b : Z) : option Z := if b =? 0 then None else Some (Z.rem a b).

Definition unicodeRangeContains (ranges : list Z) (value : Z) : option bool :=
  lo ← bisect (length ranges)
    (λ mid, last ← unicodeRangeValue ranges (mid * 12 + 4); Some (last <? value))
    0 (Z.quot (lenZ ranges) 12);
  outside ← Some (lenZ ranges <=? lo * 12) ||?
    (first ← unicodeRangeValue ranges (lo * 12); Some (value <? first));
  if (outside : bool) then Some false
  else
    first ← unicodeRangeValue ranges (lo * 12);
    stride ← unicodeRangeValue ranges (lo * 12 + 8);
    r ← remO (value - first) stride;
    Some (r =? 0).

Definition unicodeIdentifierWidth (src : list Z) (start : Z) (first : bool) : option Z :=
  '(value, width) ← identifierRune src start;
  if width =? 0 then Some 0
  else
    part ← unicodeRangeContains unicodeLetterRanges value ||?
      (Some (negb first) &&? unicodeRangeContains unicodeDigitRanges value);
    Some (if (part : bool) then width else 0).

(** Go's rule for exported identifiers. *)
Definition IdentifierExported (src : list Z) (start : Z) : option bool :=
  if (start <? 0) || (lenZ src <=? start) then Some false
  else
    c ← src !!z start;
    if c <? 128 then Some ((chr "A" <=? c) && (c <=? chr "Z"))
    else
      '(value, width) ← identifierRune src start;
      Some (0 <? width) &&? unicodeRangeContains unicodeUpperRanges value.
