(* ===== verification/SyntaxEncoding.v ===== *)
(** The validation of source files: [validSourceEncoding] of
    src/internal/syntax/scan.go.

    The function reads aligned machine words while the source is ASCII.  The size of a
    word and the address of the first byte are parameters; the words are those of a
    little-endian host. *)

From S2P Require Import Prelude.
From S2P Require Import GoInt.
From S2P Require Import SyntaxToken.

(** [src[i:]] *)
Definition from (src : list Z) (i : Z) : option (list Z) := sliceZ src i (lenZ src).

(** A zero or a byte of a multi-byte rune. *)
Definition stops (c : Z) : bool := (c =? 0) || (128 <=? c).

(** The range loop over the ASCII bytes at [i]. *)
Fixpoint asciiRun (rest : list Z) (i : Z) : Z :=
  match rest with
  | [] => i
  | c :: rest => if stops c then i else asciiRun rest (i + 1)
  end.

(** The length of a multi-byte rune, the bits of its first byte, its least value. *)
Definition runeHeader (c : Z) : option (Z * Z * Z) :=
  if (194 <=? c) && (c <=? 223) then Some (2, Z.land c 31, 128)
  else if (224 <=? c) && (c <=? 239) then Some (3, Z.land c 15, 2048)
  else if (240 <=? c) && (c <=? 244) then Some (4, Z.land c 7, 65536)
  else None.

(** The loop over the other bytes; the inner [None] is a byte that is none of them. *)
Fixpoint continuation (n : nat) (src : list Z) (i value : Z) : option (option Z) :=
  match n with
  | O => Some (Some value)
  | S n =>
      c ← src !!z i;
      if (c <? 128) || (191 <? c) then Some None
      else continuation n src (i + 1) (Z.lor (Z.shiftl value 6) (Z.land c 63))
  end.

Definition badRune (value minimum i : Z) : bool :=
  (value <? minimum) || (1114111 <? value) || ((55296 <=? value) && (value <=? 57343)) ||
  ((value =? 65279) && negb (i =? 0)).

Fixpoint littleEndian (bs : list Z) : Z :=
  match bs with
  | [] => 0
  | b :: bs => b + 256 * littleEndian bs
  end.

Section host.
Context (wordSize base : Z).

Definition lowBytes : Z := (2 ^ (8 * wordSize) - 1) `div` 255.
Definition highBytes : Z := lowBytes * 128.

(** The address of [src[i]] is a multiple of the word size. *)
Definition aligned (i : Z) : bool := Z.land (base + i) (wordSize - 1) =? 0.

(** A byte of the word is zero or has its high bit. *)
Definition wordStops (word : Z) : bool :=
  negb (Z.land word highBytes =? 0) ||
  negb (Z.land (Z.ldiff ((word - lowBytes) `mod` 2 ^ (8 * wordSize)) word) highBytes =? 0).

Fixpoint alignRun (fuel : nat) (src : list Z) (i : Z) : option Z :=
  if (i <? lenZ src) && negb (aligned i) then
    stop ← byteIs src i stops;
    if (stop : bool) then Some i
    else match fuel with O => None | S fuel => alignRun fuel src (i + 1) end
  else Some i.

Fixpoint wordRun (fuel : nat) (src : list Z) (i : Z) : option Z :=
  if i + wordSize <=? lenZ src then
    bytes ← sliceZ src i (i + wordSize);
    if wordStops (littleEndian bytes) then Some i
    else match fuel with O => None | S fuel => wordRun fuel src (i + wordSize) end
  else Some i.

Fixpoint validFrom (fuel : nat) (src : list Z) (i : Z) : option bool :=
  if lenZ src <=? i then Some true
  else
    i ← alignRun (length src) src i;
    i ← (if (i <? lenZ src) && aligned i then wordRun (length src) src i else Some i);
    rest ← from src i;
    let i := asciiRun rest i in
    if i =? lenZ src then Some true
    else
      c ← src !!z i;
      if c =? 0 then Some false
      else
        match runeHeader c, fuel with
        | None, _ => Some false
        | Some _, O => None
        | Some (n, value, minimum), S fuel =>
            if lenZ src <? i + n then Some false
            else
              value ← continuation (Z.to_nat (n - 1)) src (i + 1) value;
              match value with
              | None => Some false
              | Some value => if badRune value minimum i then Some false else validFrom fuel src (i + n)
              end
        end.

Definition validSourceEncoding (src : list Z) : option bool := validFrom (length src) src 0.

End host.
