(* ===== verification/SyntaxLiteral.v ===== *)
(** Literals: src/internal/syntax/literal.go, quoted_append.go, rune_literal.go and
    number_literal.go.

    A function that reports success with a last result [ok] answers [Some] or [None]
    for it, inside the [option] of run-time panics. *)

From Stdlib Require Import String Ascii.
From S2P Require Import Prelude.
From S2P Require Import GoInt.
From S2P Require Import SyntaxToken.
From S2P Require Import SyntaxUnicode.
From S2P Require Import SyntaxEncoding.

(** * Escapes *)

Definition hexValue (c : Z) : option Z :=
  if (chr "0" <=? c) && (c <=? chr "9") then Some (c - chr "0")
  else if (chr "a" <=? c) && (c <=? chr "f") then Some (c - chr "a" + 10)
  else if (chr "A" <=? c) && (c <=? chr "F") then Some (c - chr "A" + 10)
  else None.

Definition quote : Z := 34.
Definition newline : Z := 10.

(** [uint(c)-'0' < 10 || uint(c|32)-'a' < 6] *)
Definition isHexByte (c : Z) : bool :=
  (u64 (c - chr "0") <? 10) || (u64 (Z.lor c 32 - chr "a") <? 6).

Definition hexNibble (c : Z) : Z := if chr "9" <? c then Z.land c 15 + 9 else Z.land c 15.

(** The strings [simple] and [values] of [stringEscapeValue], side by side. *)
Definition simpleEscapes : list (Z * Z) :=
  [(chr "a", 7); (chr "b", 8); (chr "f", 12); (chr "n", 10); (chr "r", 13); (chr "t", 9);
   (chr "v", 11); (chr "\", 92); (quote, 34)].

Fixpoint simpleEscape (table : list (Z * Z)) (esc : Z) : option Z :=
  match table with
  | [] => None
  | (c, value) :: table => if esc =? c then Some value else simpleEscape table esc
  end.

(** The loop over the digits at [i]. *)
Fixpoint escapeDigits (n : nat) (src : list Z) (i base limit value : Z) : option (option Z) :=
  match n with
  | O => Some (Some value)
  | S n =>
      c ← src !!z i;
      match hexValue c with
      | None => Some None
      | Some digit =>
          if base <=? digit then Some None
          else if Z.quot (limit - digit) base <? value then Some None
          else escapeDigits n src (i + 1) base limit (value * base + digit)
      end
  end.

(** The number of digits, the base, whether the value is a rune, the first digit. *)
Definition escapeForm (esc slash : Z) : option (Z * Z * bool * Z) :=
  if esc =? chr "u" then Some (4, 16, true, slash + 2)
  else if esc =? chr "U" then Some (8, 16, true, slash + 2)
  else if (chr "0" <=? esc) && (esc <=? chr "7") then Some (3, 8, false, slash + 1)
  else None.

(** The end of the escape, its value and whether it is a rune. *)
Definition stringEscapeValue (src : list Z) (slash end_ : Z) : option (option (Z * Z * bool)) :=
  if (slash <? 0) || (end_ <=? slash + 1) || (lenZ src <? end_) then Some None
  else
    esc ← src !!z (slash + 1);
    if esc =? chr "x" then
      if end_ <? slash + 4 then Some None
      else
        a ← src !!z (slash + 2);
        b ← src !!z (slash + 3);
        if negb (isHexByte a) || negb (isHexByte b) then Some None
        else Some (Some (slash + 4, hexNibble a * 16 + hexNibble b, false))
    else
      match simpleEscape simpleEscapes esc with
      | Some value => Some (Some (slash + 2, value, false))
      | None =>
          match escapeForm esc slash with
          | None => Some None
          | Some (digits, base, unicode, start) =>
              if end_ <? start + digits then Some None
              else
                let limit := if unicode then 1114111 else 255 in
                value ← escapeDigits (Z.to_nat digits) src start base limit 0;
                match value with
                | None => Some None
                | Some value =>
                    if (unicode && ((1114111 <? value) || ((55296 <=? value) && (value <=? 57343))))
                       || (negb unicode && (255 <? value))
                    then Some None
                    else Some (Some (start + digits, value, unicode))
                end
          end
      end.

(** The UTF-8 encoding of a rune, as a list of bytes. *)
Definition runeBytes (value : Z) : list Z :=
  if value <? 128 then [u8 value]
  else if value <? 2048 then
    [u8 (Z.lor 192 (Z.shiftr value 6)); u8 (Z.lor 128 (Z.land value 63))]
  else if value <? 65536 then
    [u8 (Z.lor 224 (Z.shiftr value 12)); u8 (Z.lor 128 (Z.land (Z.shiftr value 6) 63));
     u8 (Z.lor 128 (Z.land value 63))]
  else
    [u8 (Z.lor 240 (Z.shiftr value 18)); u8 (Z.lor 128 (Z.land (Z.shiftr value 12) 63));
     u8 (Z.lor 128 (Z.land (Z.shiftr value 6) 63)); u8 (Z.lor 128 (Z.land value 63))].

Definition appendStringRune (out : list Z) (value : Z) : list Z := out ++ runeBytes value.

(** * String literals *)

Fixpoint stringBody (fuel : nat) (src : list Z) (i end_ : Z) (out : list Z) :
    option (option (list Z)) :=
  if end_ - 1 <=? i then Some (Some out)
  else
    match fuel with
    | O => None
    | S fuel =>
        c ← src !!z i;
        if negb (c =? chr "\") then stringBody fuel src (i + 1) end_ (out ++ [c])
        else if end_ - 1 <=? i + 1 then Some None
        else
          escape ← stringEscapeValue src i (end_ - 1);
          match escape with
          | None => Some None
          | Some (next, value, unicode) =>
              stringBody fuel src next end_
                (if (unicode : bool) then appendStringRune out value else out ++ [u8 value])
          end
    end.

Definition StringLiteralValue (src : list Z) (tok : Token) : option (option (list Z)) :=
  let start := t_Start tok in
  let end_ := t_End tok in
  if negb (tokenKind tok =? TokenString) || (start <? 0) || (end_ - start <? 2) || (lenZ src <? end_)
  then Some None
  else
    q ← src !!z start;
    last ← src !!z (end_ - 1);
    if q =? chr "`" then
      if negb (last =? chr "`") then Some None
      else value ← sliceZ src (start + 1) (end_ - 1); Some (Some value)
    else if negb (q =? quote) || negb (last =? quote) then Some None
    else stringBody (length src) src (start + 1) end_ [].

(** ** Canonical spelling *)

(** [hex[d]] *)
Definition hexDigit (d : Z) : option Z := text "0123456789abcdef" !!z d.

Definition appendQuotedByte (out : list Z) (ch : Z) : option (list Z) :=
  if (ch =? quote) || (ch =? chr "\") then Some (out ++ [chr "\"; ch])
  else if (ch <? 32) || (127 <=? ch) then
    a ← hexDigit (Z.quot ch 16);
    b ← hexDigit (Z.rem ch 16);
    Some (out ++ [chr "\"; chr "x"; a; b])
  else Some (out ++ [ch]).

Fixpoint appendQuotedBytes (out : list Z) (bytes : list Z) : option (list Z) :=
  match bytes with
  | [] => Some out
  | ch :: bytes => out ← appendQuotedByte out ch; appendQuotedBytes out bytes
  end.

Fixpoint quotedBody (fuel : nat) (src : list Z) (i end_ : Z) (out : list Z) :
    option (list Z * bool) :=
  if end_ - 1 <=? i then Some (out ++ [quote], true)
  else
    match fuel with
    | O => None
    | S fuel =>
        c ← src !!z i;
        if negb (c =? chr "\") then
          out ← appendQuotedByte out c;
          quotedBody fuel src (i + 1) end_ out
        else
          escape ← stringEscapeValue src i (end_ - 1);
          match escape with
          | None => Some (out, false)
          | Some (next, value, unicode) =>
              out ← (if negb unicode then appendQuotedByte out (u8 value)
                     else appendQuotedBytes out (runeBytes value));
              quotedBody fuel src next end_ out
          end
    end.

Definition AppendQuotedStringLiteral (out src : list Z) (tok : Token) : option (list Z * bool) :=
  let start := t_Start tok in
  let end_ := t_End tok in
  refused ← Some (negb (tokenKind tok =? TokenString) || (start <? 0) || (end_ - start <? 2) ||
      (lenZ src <? end_)) ||?
    byteIs src start (λ c, negb (c =? quote)) ||? byteIs src (end_ - 1) (λ c, negb (c =? quote));
  if (refused : bool) then Some (out, false)
  else quotedBody (length src) src (start + 1) end_ (out ++ [quote]).

(** * Rune literals *)

Section host.
Context (wordSize base : Z).

Definition RuneLiteralValue (src : list Z) (tok : Token) : option (Z * bool) :=
  let start := t_Start tok in
  let end_ := t_End tok in
  refused ← Some (negb (tokenKind tok =? TokenChar) || (start <? 0) || (lenZ src <? end_) ||
      (end_ - start <? 3)) ||?
    byteIs src start (λ c, negb (c =? chr "'")) ||? byteIs src (end_ - 1) (λ c, negb (c =? chr "'"));
  if (refused : bool) then Some (0, false)
  else
    let start := start + 1 in
    let end_ := end_ - 1 in
    c ← src !!z start;
    if c =? chr "\" then
      bad ← Some (end_ <=? start + 1) ||? byteIs src (start + 1) (Z.eqb quote);
      if (bad : bool) then Some (0, false)
      else
        esc ← src !!z (start + 1);
        if esc =? chr "'" then Some (chr "'", start + 2 =? end_)
        else
          escape ← stringEscapeValue src start end_;
          match escape with
          | None => Some (0, false)
          | Some (next, value, _) => Some (value, next =? end_)
          end
    else
      part ← sliceZ src start end_;
      bad ← Some ((c =? newline) || (c =? chr "'")) ||?
        (valid ← validSourceEncoding wordSize (base + start) part; Some (negb valid));
      if (bad : bool) then Some (0, false)
      else
        '(value, width) ← identifierRune src start;
        Some (value, (0 <? width) && (start + width =? end_)).

End host.

(** * Number literals *)

(** The position after the digits, their number, and whether they are well formed. *)
Fixpoint digitRun (fuel : nat) (src : list Z) (start end_ base pos count : Z) (previousDigit : bool) :
    option (Z * Z * bool) :=
  let done := Some (pos, count, negb ((start <? pos) && negb previousDigit)) in
  if end_ <=? pos then done
  else
    match fuel with
    | O => None
    | S fuel =>
        c ← src !!z pos;
        if c =? chr "_" then
          if negb previousDigit then Some (pos, count, false)
          else digitRun fuel src start end_ base (pos + 1) count false
        else
          match hexValue c with
          | None => done
          | Some digit =>
              if negb (base =? 16) && ((c <? chr "0") || (chr "9" <? c)) then done
              else if base <=? digit then Some (pos, count, false)
              else digitRun fuel src start end_ base (pos + 1) (count + 1) true
          end
    end.

Definition numberDigitRun (src : list Z) (start end_ base : Z) (prefix : bool) : option (Z * Z * bool) :=
  underscore ← Some (prefix && (start <? end_)) &&? byteIs src start (Z.eqb (chr "_"));
  digitRun (length src) src start end_ base (if (underscore : bool) then start + 1 else start) 0 false.

(** The base and whether the literal has a prefix for it. *)
Definition numberPrefix (src : list Z) (start end_ : Z) : option (Z * bool) :=
  zero ← Some (2 <=? end_ - start) &&? byteIs src start (Z.eqb (chr "0"));
  if (zero : bool) then
    c ← src !!z (start + 1);
    if (c =? chr "x") || (c =? chr "X") then Some (16, true)
    else if (c =? chr "b") || (c =? chr "B") then Some (2, true)
    else if (c =? chr "o") || (c =? chr "O") then Some (8, true)
    else Some (10, false)
  else Some (10, false).

(** The exponent at [pos]: the end of the number and whether there is one; [None] is a
    malformed one. *)
Definition numberExponent (src : list Z) (pos end_ base : Z) : option (option (Z * bool)) :=
  exponent ← Some (pos <? end_) &&?
    byteIs src pos (λ c, ((base =? 10) && ((c =? chr "e") || (c =? chr "E"))) ||
      ((base =? 16) && ((c =? chr "p") || (c =? chr "P"))));
  if (exponent : bool) then
    let pos := pos + 1 in
    sign ← Some (pos <? end_) &&? byteIs src pos (λ c, (c =? chr "+") || (c =? chr "-"));
    '(pos, digits, ok) ← numberDigitRun src (if (sign : bool) then pos + 1 else pos) end_ 10 false;
    Some (if negb ok || (digits =? 0) then None else Some (pos, true))
  else Some (Some (pos, false)).

(** The fraction at [pos]: the position after it, the digits in it, whether there is
    one; [None] is a malformed one. *)
Definition numberFraction (src : list Z) (pos end_ base : Z) : option (option (Z * Z * bool)) :=
  dot ← Some (pos <? end_) &&? byteIs src pos (Z.eqb (chr "."));
  if (dot : bool) then
    if negb (base =? 10) && negb (base =? 16) then Some None
    else
      '(pos, after, ok) ← numberDigitRun src (pos + 1) end_ base false;
      Some (if negb ok then None else Some (pos, after, true))
  else Some (Some (pos, 0, false)).

Definition validNumberLiteral (src : list Z) (start end_ : Z) : option bool :=
  if (start <? 0) || (end_ <=? start) || (lenZ src <? end_) then Some false
  else
    imaginary ← byteIs src (end_ - 1) (Z.eqb (chr "i"));
    let end_ := if (imaginary : bool) then end_ - 1 else end_ in
    if end_ <=? start then Some false
    else
      '(base, prefix) ← numberPrefix src start end_;
      '(pos, digits, ok) ← numberDigitRun src (if (prefix : bool) then start + 2 else start) end_ base prefix;
      if negb ok then Some false
      else
        fraction ← numberFraction src pos end_ base;
        match fraction with
        | None => Some false
        | Some (pos, after, dot) =>
            if digits + after =? 0 then Some false
            else
              tail ← numberExponent src pos end_ base;
              match tail with
              | None => Some false
              | Some (pos, exponent) =>
                  if negb (pos =? end_) || ((base =? 16) && dot && negb exponent) then Some false
                  else
                    octal ← Some (negb prefix && negb dot && negb exponent && negb imaginary) &&?
                      byteIs src start (Z.eqb (chr "0"));
                    if (octal : bool) then
                      '(_, _, ok) ← numberDigitRun src start end_ 8 false; Some ok
                    else Some true
              end
        end.
