(* ===== verification/SyntaxScan.v ===== *)
(** The scanner: src/internal/syntax/scan.go.

    [scanStep] is the body of the loop of [scanTokensMode] at one position: what it
    skips, the token it appends, or that it stops with an error. *)

From Stdlib Require Import String Ascii.
From S2P Require Import Prelude.
From S2P Require Import GoInt.
From S2P Require Import SyntaxToken.
From S2P Require Import SyntaxUnicode.
From S2P Require Import SyntaxEncoding.
From S2P Require Import SyntaxLiteral.

(** * Bytes *)

(** [uint(c|32)-'a' < 26] *)
Definition isLetter (c : Z) : bool := u64 (Z.lor c 32 - chr "a") <? 26.
Definition isIdentStart (c : Z) : bool := isLetter c || (c =? chr "_").
Definition isIdentPart (c : Z) : bool := isIdentStart c || ((chr "0" <=? c) && (c <=? chr "9")).
Definition isDigitOrUnderscore (c : Z) : bool :=
  ((chr "0" <=? c) && (c <=? chr "9")) || (c =? chr "_").
(** The condition in the loop over the ASCII bytes of an identifier. *)
Definition isAsciiPart (c : Z) : bool :=
  isLetter c || (u64 (c - chr "0") <? 10) || (c =? chr "_").

(** * Keywords *)

Fixpoint equalFrom (src : list Z) (start : Z) (txt : list Z) : option bool :=
  match txt with
  | [] => Some true
  | t :: txt =>
      c ← src !!z start;
      if negb (c =? t) then Some false else equalFrom src (start + 1) txt
  end.

Definition bytesEqualText (src : list Z) (start end_ : Z) (txt : list Z) : option bool :=
  if negb (end_ - start =? lenZ txt) then Some false else equalFrom src start txt.

Definition keywordKind (src : list Z) (start end_ first : Z) : option Z :=
  let n := end_ - start in
  if 11 <? n then Some TokenIdent
  else
  last ← src !!z (end_ - 1);
  let keyword (f l : Z) (txt : list Z) (kind : Z) (otherwise : option Z) :=
    same ← Some ((first =? f) && (last =? l)) &&? bytesEqualText src start end_ txt;
    if (same : bool) then Some kind else otherwise in
  if n =? 2 then
    keyword (chr "i") (chr "f") (text "if") TokenIf $
    keyword (chr "g") (chr "o") (text "go") TokenGo $
    Some TokenIdent
  else if n =? 3 then
    keyword (chr "v") (chr "r") (text "var") TokenVar $
    keyword (chr "f") (chr "r") (text "for") TokenFor $
    keyword (chr "m") (chr "p") (text "map") TokenMap $
    Some TokenIdent
  else if n =? 4 then
    keyword (chr "t") (chr "e") (text "type") TokenType $
    keyword (chr "f") (chr "c") (text "func") TokenFunc $
    keyword (chr "e") (chr "e") (text "else") TokenElse $
    keyword (chr "g") (chr "o") (text "goto") TokenGoto $
    keyword (chr "c") (chr "e") (text "case") TokenCase $
    keyword (chr "c") (chr "n") (text "chan") TokenChan $
    Some TokenIdent
  else if n =? 5 then
    keyword (chr "c") (chr "t") (text "const") TokenConst $
    keyword (chr "b") (chr "k") (text "break") TokenBreak $
    keyword (chr "r") (chr "e") (text "range") TokenRange $
    keyword (chr "d") (chr "r") (text "defer") TokenDefer $
    Some TokenIdent
  else if n =? 6 then
    keyword (chr "s") (chr "t") (text "struct") TokenStruct $
    keyword (chr "r") (chr "n") (text "return") TokenReturn $
    keyword (chr "s") (chr "h") (text "switch") TokenSwitch $
    keyword (chr "i") (chr "t") (text "import") TokenImport $
    keyword (chr "s") (chr "t") (text "select") TokenSelect $
    Some TokenIdent
  else if n =? 7 then
    keyword (chr "p") (chr "e") (text "package") TokenPackage $
    keyword (chr "d") (chr "t") (text "default") TokenDefault $
    Some TokenIdent
  else if n =? 8 then
    keyword (chr "c") (chr "e") (text "continue") TokenContinue $
    Some TokenIdent
  else if n =? 9 then
    keyword (chr "i") (chr "e") (text "interface") TokenInterface $
    Some TokenIdent
  else if n =? 11 then
    keyword (chr "f") (chr "h") (text "fallthrough") TokenFallthrough $
    Some TokenIdent
  else Some TokenIdent.

(** * Runs of bytes *)

(** Both results of the loop over white space: the position and the line. *)
Fixpoint spaceRun (rest : list Z) (i line : Z) : Z * Z :=
  match rest with
  | [] => (i, line)
  | space :: rest =>
      if space =? newline then spaceRun rest (i + 1) (line + 1)
      else if negb (space =? 32) && negb (space =? 9) && negb (space =? 13) then (i, line)
      else spaceRun rest (i + 1) line
  end.

Fixpoint lineCommentRun (rest : list Z) (i : Z) : Z :=
  match rest with
  | [] => i
  | comment :: rest => if comment =? newline then i else lineCommentRun rest (i + 1)
  end.

Fixpoint blockCommentRun (fuel : nat) (src : list Z) (i line : Z) : option (Z * Z) :=
  go ← Some (i + 1 <? lenZ src) &&?
    (ends ← byteIs src i (Z.eqb (chr "*")) &&? byteIs src (i + 1) (Z.eqb (chr "/")); Some (negb ends));
  if (go : bool) then
    match fuel with
    | O => None
    | S fuel =>
        c ← src !!z i;
        blockCommentRun fuel src (i + 1) (if c =? newline then line + 1 else line)
    end
  else Some (i, line).

Fixpoint identRun (rest : list Z) (i : Z) : Z :=
  match rest with
  | [] => i
  | part :: rest => if negb (isAsciiPart part) then i else identRun rest (i + 1)
  end.

(** The loop over the parts of an identifier. *)
Fixpoint identEnd (fuel : nat) (src : list Z) (i : Z) : option Z :=
  if i <? lenZ src then
    rest ← from src i;
    let i := identRun rest i in
    wide ← Some (i <? lenZ src) &&? byteIs src i (Z.leb 128);
    if (wide : bool) then
      width ← unicodeIdentifierWidth src i false;
      if width =? 0 then Some i
      else match fuel with O => None | S fuel => identEnd fuel src (i + width) end
    else Some i
  else Some i.

(** A loop over bytes that satisfy [P]. *)
Fixpoint bytesWhile (P : Z → bool) (fuel : nat) (src : list Z) (i : Z) : option Z :=
  go ← Some (i <? lenZ src) &&? byteIs src i P;
  if (go : bool) then
    match fuel with O => None | S fuel => bytesWhile P fuel src (i + 1) end
  else Some i.

(** * Numbers *)

Definition skipSign (src : list Z) (i : Z) : option Z :=
  sign ← Some (i <? lenZ src) &&? byteIs src i (λ c, (c =? chr "+") || (c =? chr "-"));
  Some (if (sign : bool) then i + 1 else i).

(** The loop after a base prefix. *)
Fixpoint prefixedRun (fuel : nat) (src : list Z) (hex dot : bool) (i : Z) : option Z :=
  if i <? lenZ src then
    match fuel with
    | O => None
    | S fuel =>
        c ← src !!z i;
        if c =? chr "." then if dot then Some i else prefixedRun fuel src hex true (i + 1)
        else if hex && ((c =? chr "p") || (c =? chr "P")) then
          i ← skipSign src (i + 1);
          bytesWhile isDigitOrUnderscore (length src) src i
        else if negb (isIdentPart c) then Some i
        else prefixedRun fuel src hex dot (i + 1)
    end
  else Some i.

Definition isPrefixByte (c : Z) : bool :=
  (c =? chr "x") || (c =? chr "X") || (c =? chr "b") || (c =? chr "B") || (c =? chr "o") || (c =? chr "O").

Definition decimalEnd (src : list Z) (start : Z) : option Z :=
  i ← bytesWhile isDigitOrUnderscore (length src) src (start + 1);
  dot ← byteIs src start (λ c, negb (c =? chr ".")) &&? Some (i <? lenZ src) &&?
    byteIs src i (Z.eqb (chr "."));
  i ← (if (dot : bool) then bytesWhile isDigitOrUnderscore (length src) src (i + 1) else Some i);
  exponent ← Some (i <? lenZ src) &&? byteIs src i (λ c, (c =? chr "e") || (c =? chr "E"));
  if (exponent : bool) then
    i ← skipSign src (i + 1);
    bytesWhile isDigitOrUnderscore (length src) src i
  else Some i.

Definition scanNumberEnd (src : list Z) (start : Z) : option Z :=
  prefixed ← byteIs src start (Z.eqb (chr "0")) &&? Some (start + 1 <? lenZ src) &&?
    byteIs src (start + 1) isPrefixByte;
  i ← (if (prefixed : bool) then
         c ← src !!z (start + 1);
         prefixedRun (length src) src ((c =? chr "x") || (c =? chr "X")) false (start + 2)
       else decimalEnd src start);
  imaginary ← Some (i <? lenZ src) &&? byteIs src i (Z.eqb (chr "i"));
  Some (if (imaginary : bool) then i + 1 else i).

(** * Quoted literals *)

(** The loop over the body of an interpreted string, and whether it kept [ok]. *)
Fixpoint stringRun (fuel : nat) (src : list Z) (i : Z) : option (Z * bool) :=
  go ← Some (i <? lenZ src) &&? byteIs src i (λ c, negb (c =? quote));
  if (go : bool) then
    match fuel with
    | O => None
    | S fuel =>
        c ← src !!z i;
        if c =? chr "\" then
          hex ← Some (i + 3 <? lenZ src) &&? byteIs src (i + 1) (Z.eqb (chr "x"));
          if (hex : bool) then
            high ← src !!z (i + 2);
            low ← src !!z (i + 3);
            if isHexByte high && isHexByte low then stringRun fuel src (i + 4) else Some (i, false)
          else
            escape ← stringEscapeValue src i (lenZ src);
            match escape with
            | None => Some (i, false)
            | Some (next, _, _) => stringRun fuel src next
            end
        else if c =? newline then Some (i, true)
        else stringRun fuel src (i + 1)
    end
  else Some (i, true).

Fixpoint rawRun (fuel : nat) (src : list Z) (i line : Z) : option (Z * Z) :=
  go ← Some (i <? lenZ src) &&? byteIs src i (λ c, negb (c =? chr "`"));
  if (go : bool) then
    match fuel with
    | O => None
    | S fuel =>
        c ← src !!z i;
        rawRun fuel src (i + 1) (if c =? newline then line + 1 else line)
    end
  else Some (i, line).

Fixpoint runeRun (fuel : nat) (src : list Z) (i : Z) : option Z :=
  go ← Some (i <? lenZ src) &&? byteIs src i (λ c, negb (c =? chr "'"));
  if (go : bool) then
    match fuel with
    | O => None
    | S fuel =>
        c ← src !!z i;
        if (c =? chr "\") && (i + 1 <? lenZ src) then runeRun fuel src (i + 2)
        else if c =? newline then Some i
        else runeRun fuel src (i + 1)
    end
  else Some i.

(** The loop ended at the closing byte. *)
Definition closedBy (src : list Z) (i c : Z) : option bool :=
  Some (i <? lenZ src) &&? byteIs src i (Z.eqb c).

(** * Operators *)

Definition isThreeByteOperator (a b c : Z) : bool :=
  if (a =? chr ".") && (b =? chr ".") && (c =? chr ".") then true
  else if b =? chr "=" then false
  else if (a =? chr "<") && (b =? chr "<") && (c =? chr "=") then true
  else if (a =? chr ">") && (b =? chr ">") && (c =? chr "=") then true
  else if (a =? chr "&") && (b =? chr "^") && (c =? chr "=") then true
  else false.

(** The operators of two bytes; [next] is whether a dot follows. *)
Definition isTwoByteOperator (c b : Z) (next : option bool) : option bool :=
  let assign := (b =? chr "=") &&
    ((c =? chr ":") || (c =? chr "=") || (c =? chr "!") || (c =? chr "<") || (c =? chr ">") ||
     (c =? chr "+") || (c =? chr "-") || (c =? chr "*") || (c =? chr "/") || (c =? chr "%") ||
     (c =? chr "&") || (c =? chr "|") || (c =? chr "^")) in
  let and := (c =? chr "&") && ((b =? chr "&") || (b =? chr "^")) in
  let doubled := ((c =? chr "|") && (b =? chr "|")) ||
    ((c =? chr "<") && ((b =? chr "<") || (b =? chr "-"))) || ((c =? chr ">") && (b =? chr ">")) in
  dots ← (if ((c =? chr "+") && (b =? chr "+")) || ((c =? chr "-") && (b =? chr "-")) then Some true
          else Some ((c =? chr ".") && (b =? chr ".")) &&? next);
  Some (assign || and || doubled || dots).

(** The end of the operator that starts with [c] at [start]. *)
Definition operatorEnd (src : list Z) (start c : Z) : option Z :=
  let i := start + 1 in
  if i <? lenZ src then
    b ← src !!z i;
    two ← isTwoByteOperator c b (Some (i + 1 <? lenZ src) &&? byteIs src (i + 1) (Z.eqb (chr ".")));
    if (two : bool) then
      let i := i + 1 in
      three ← Some (i <? lenZ src) &&? byteIs src i (isThreeByteOperator c b);
      Some (if (three : bool) then i + 1 else i)
    else Some i
  else Some i.

(** * The loop *)

(** The position and the line after it; a token, and whether it is a candidate for a
    constraint. *)
Inductive scanned :=
| Skipped (i line : Z)
| Scanned (tok : Token) (candidate : bool) (i line : Z)
| Stopped (line : Z).

Definition scanTok (kind line start i : Z) : Token := MkToken (kindLine kind line) (i32 start) (i32 i).

Definition scanIdent (src : list Z) (start line c : Z) : option scanned :=
  width ← (if 128 <=? c then unicodeIdentifierWidth src start true else Some 1);
  i ← identEnd (length src) src (start + width);
  let size := i - start in
  kind ← (if ((2 <=? size) && (size <=? 9)) || (size =? 11) then keywordKind src start i c
          else Some TokenIdent);
  candidate ← Some (kind =? TokenInterface) ||?
    (Some ((c =? chr "c") && (size =? 10)) &&? bytesEqualText src start i (text "comparable"));
  Some (Scanned (scanTok kind line start i) candidate i line).

Definition scanNumber (src : list Z) (start line : Z) : option scanned :=
  i ← scanNumberEnd src start;
  bad ← Some (10000 <? i - start) ||? (valid ← validNumberLiteral src start i; Some (negb valid));
  Some (if (bad : bool) then Stopped line
        else Scanned (scanTok TokenNumber line start i) false i line).

Definition scanString (src : list Z) (start line : Z) : option scanned :=
  '(i, ok) ← stringRun (length src) src (start + 1);
  closed ← Some ok &&? closedBy src i quote;
  Some (if (closed : bool) then Scanned (scanTok TokenString line start (i + 1)) false (i + 1) line
        else Stopped line).

Definition scanRaw (src : list Z) (start line : Z) : option scanned :=
  '(i, lastLine) ← rawRun (length src) src (start + 1) line;
  closed ← closedBy src i (chr "`");
  Some (if (closed : bool) then Scanned (scanTok TokenString line start (i + 1)) false (i + 1) lastLine
        else Stopped lastLine).

Definition scanOperator (src : list Z) (start line c : Z) : option scanned :=
  i ← operatorEnd src start c;
  let kl := kindLine TokenOperator line in
  let kl := if (i =? start + 1) && (c <=? TokenOperatorCharMask)
            then Z.lor kl (Z.shiftl c TokenOperatorCharShift) else kl in
  Some (Scanned (MkToken kl (i32 start) (i32 i)) false i line).

Definition scanLineComment (src : list Z) (i line : Z) : option scanned :=
  rest ← from src (i + 2); Some (Skipped (lineCommentRun rest (i + 2)) line).

Definition scanBlockComment (src : list Z) (i line : Z) : option scanned :=
  '(i, line) ← blockCommentRun (length src) src (i + 2) line;
  Some (if lenZ src <=? i + 1 then Stopped line else Skipped (i + 2) line).

Section host.
Context (wordSize base : Z).

Definition scanRune (src : list Z) (start line : Z) : option scanned :=
  i ← runeRun (length src) src (start + 1);
  closed ← closedBy src i (chr "'");
  if (closed : bool) then
    let tok := scanTok TokenChar line start (i + 1) in
    '(_, valid) ← RuneLiteralValue wordSize base src tok;
    Some (if (valid : bool) then Scanned tok false (i + 1) line else Stopped line)
  else Some (Stopped line).

Definition scanStep (src : list Z) (i line : Z) : option scanned :=
  c ← src !!z i;
  let second (P : Z → bool) := Some (i + 1 <? lenZ src) &&? byteIs src (i + 1) P in
  if (c =? 32) || (c =? 9) || (c =? 13) || (c =? newline) then
    rest ← from src i;
    let '(i, line) := spaceRun rest i line in Some (Skipped i line)
  else
  lineComment ← Some (c =? chr "/") &&? second (Z.eqb (chr "/"));
  if (lineComment : bool) then scanLineComment src i line
  else
  blockComment ← Some (c =? chr "/") &&? second (Z.eqb (chr "*"));
  if (blockComment : bool) then scanBlockComment src i line
  else
  ident ← Some (isLetter c || (c =? chr "_")) ||?
    (Some (128 <=? c) &&? (width ← unicodeIdentifierWidth src i true; Some (0 <? width)));
  if (ident : bool) then scanIdent src i line c
  else
  number ← Some ((chr "0" <=? c) && (c <=? chr "9")) ||?
    (Some (c =? chr ".") &&? second (λ d, (chr "0" <=? d) && (d <=? chr "9")));
  if (number : bool) then scanNumber src i line
  else if c =? quote then scanString src i line
  else if c =? chr "`" then scanRaw src i line
  else if c =? chr "'" then scanRune src i line
  else if 128 <=? c then Some (Stopped line)
  else scanOperator src i line c.

(** The tokens so far, [ok], the candidates so far and the line. *)
Fixpoint scanLoop (fuel : nat) (linked : bool) (src : list Z) (i line : Z) (tokens : list Token)
    (candidates : bool) : option (list Token * bool * bool * Z) :=
  if lenZ src <=? i then Some (tokens, true, candidates, line)
  else if negb linked && (TokenLineLimit <? line) then Some (tokens, false, candidates, line)
  else
    match fuel with
    | O => None
    | S fuel =>
        step ← scanStep src i line;
        match step with
        | Skipped i line => scanLoop fuel linked src i line tokens candidates
        | Scanned tok candidate i line =>
            scanLoop fuel linked src i line (tokens ++ [tok]) (candidates || candidate)
        | Stopped line => Some (tokens, false, candidates, line)
        end
    end.

Definition byteOrderMark : list Z := [239; 187; 191].

Definition scanTokensMode (src : list Z) (linked : bool) : option (list Token * bool * bool) :=
  valid ← validSourceEncoding wordSize base src;
  if negb valid then Some ([], false, false)
  else
    mark ← Some (3 <=? lenZ src) &&? byteIs src 0 (Z.eqb 239) &&? byteIs src 1 (Z.eqb 187) &&?
      byteIs src 2 (Z.eqb 191);
    '(tokens, ok, candidates, line) ←
      scanLoop (length src) linked src (if (mark : bool) then 3 else 0) 1 [] false;
    let ok := ok && (linked || (line <=? TokenLineLimit)) in
    Some (tokens ++ [scanTok TokenEOF line (lenZ src) (lenZ src)], ok, candidates).

Definition scanTokens (src : list Z) : option (list Token * bool) :=
  '(tokens, ok, _) ← scanTokensMode src false; Some (tokens, ok).

Definition Scan (src : list Z) : option (list Token) :=
  '(tokens, _) ← scanTokens src; Some tokens.

Definition parseScanTokens (src : list Z) : option (list Token * bool) := scanTokens src.

(** The struct [Scanner] and its method. *)
Record Scanner := MkScanner { s_Ok : bool; s_Tokens : list Token }.

Definition ScannerScan (s : Scanner) (src : list Z) : option Scanner :=
  '(tokens, ok) ← scanTokens src; Some (MkScanner ok tokens).

End host.

(** What the token array is allocated for. *)
Definition scanTokenCapacity (src : list Z) : Z :=
  let capacity := Z.quot (lenZ src) 4 in
  if capacity <? 16 then 16 else capacity + 16.
