(* ===== verification/SyntaxBytes.v ===== *)
(** Positions in a source as splits [pre ++ rest], and the loops of the scanner over a
    run of bytes.

    The word test of [validSourceEncoding]: a word that it passes has only ASCII bytes,
    none of them zero. *)

From S2P Require Import Prelude.
From S2P Require Import GoInt.
From S2P Require Import SyntaxToken.
From S2P Require Import SyntaxEncoding.

Implicit Types (pre rest src : list Z) (P : Z → bool).

Lemma bytes_okb src : forallb (λ c, (0 <=? c) && (c <? 256)) src = true → bytes_ok src.
Proof.
  rewrite forallb_forall. intros H. apply Forall_forall. intros c Hc%list_elem_of_In. specialize (H c Hc).
  apply andb_true_iff in H as [?%Z.leb_le ?%Z.ltb_lt]. unfold byte_ok. lia.
Qed.

(** The longest prefix of bytes that satisfy [P], and what follows it. *)
Fixpoint takeWhile P (l : list Z) : list Z :=
  match l with
  | [] => []
  | c :: l => if P c then c :: takeWhile P l else []
  end.
Fixpoint dropWhile P (l : list Z) : list Z :=
  match l with
  | [] => []
  | c :: l => if P c then dropWhile P l else c :: l
  end.

Lemma takeWhile_dropWhile P l : takeWhile P l ++ dropWhile P l = l.
Proof. induction l as [|c l IH]; simpl; [done|]. destruct (P c); simpl; congruence. Qed.

Lemma takeWhile_all P l : Forall (λ c, P c = true) (takeWhile P l).
Proof. induction l as [|c l IH]; simpl; [done|]. destruct (P c) eqn:E; [by constructor|done]. Qed.

Lemma dropWhile_head P l : match dropWhile P l with [] => True | c :: _ => P c = false end.
Proof. induction l as [|c l IH]; simpl; [done|]. by destruct (P c) eqn:E. Qed.

Lemma takeWhile_app P w l :
  Forall (λ c, P c = true) w → match l with [] => True | c :: _ => P c = false end →
  takeWhile P (w ++ l) = w.
Proof.
  intros Hw Hl. induction Hw as [|c w Hc _ IH]; simpl; [|by rewrite Hc, IH].
  destruct l as [|c l]; simpl; [done|]. by rewrite Hl.
Qed.

(** * Positions *)

Lemma lenZ_snoc pre c : lenZ (pre ++ [c]) = lenZ pre + 1.
Proof. autorewrite with lenZ. lia. Qed.

Lemma at_offset pre rest k : 0 ≤ k → (pre ++ rest) !!z (lenZ pre + k) = rest !!z k.
Proof. intros. pose proof (lenZ_nonneg pre). rewrite lookupZ_app_r by lia. f_equal. lia. Qed.

Lemma at_head pre rest : (pre ++ rest) !!z lenZ pre = head rest.
Proof.
  rewrite <- (Z.add_0_r (lenZ pre)), at_offset by lia. by destruct rest.
Qed.

Lemma head_lookup rest : rest !!z 0 = head rest.
Proof. by destruct rest. Qed.

Lemma byteIs_offset pre rest k P : 0 ≤ k → byteIs (pre ++ rest) (lenZ pre + k) P = byteIs rest k P.
Proof. intros. unfold byteIs. by rewrite at_offset. Qed.

Lemma byteIs_head pre c rest P : byteIs (pre ++ c :: rest) (lenZ pre) P = Some (P c).
Proof. unfold byteIs. by rewrite at_head. Qed.

Lemma byteIs_total src i P : 0 ≤ i < lenZ src → ∃ b, byteIs src i P = Some b.
Proof. intros H. unfold byteIs. destruct (lookupZ_lt_is_Some src i H) as [c ->]. by eexists. Qed.

Lemma from_here pre rest : from (pre ++ rest) (lenZ pre) = Some rest.
Proof.
  pose proof (lenZ_nonneg pre). pose proof (lenZ_nonneg rest). unfold from.
  rewrite sliceZ_Some by (rewrite ?lenZ_app; lia). unfold sublistZ. rewrite lenZ_app.
  unfold lenZ. rewrite Nat2Z.id, drop_app_length.
  rewrite take_ge; [done|lia].
Qed.

(** A position is a split. *)
Lemma split_at src i : 0 ≤ i ≤ lenZ src → ∃ pre rest, src = pre ++ rest ∧ i = lenZ pre.
Proof.
  intros H. exists (take (Z.to_nat i) src), (drop (Z.to_nat i) src). split; [by rewrite take_drop|].
  unfold lenZ in *. rewrite length_take. lia.
Qed.

Lemma slice_mid pre mid rest :
  sliceZ (pre ++ mid ++ rest) (lenZ pre) (lenZ pre + lenZ mid) = Some mid.
Proof.
  pose proof (lenZ_nonneg pre). pose proof (lenZ_nonneg mid). pose proof (lenZ_nonneg rest).
  rewrite sliceZ_Some by (rewrite ?lenZ_app; lia). by rewrite sublistZ_app_exact.
Qed.

Lemma inside pre c rest : (lenZ pre <? lenZ (pre ++ c :: rest)) = true.
Proof. apply Z.ltb_lt. autorewrite with lenZ. pose proof (lenZ_nonneg rest). lia. Qed.

Lemma outside pre : (lenZ pre <? lenZ (pre ++ [])) = false.
Proof. apply Z.ltb_ge. rewrite app_nil_r. lia. Qed.

Lemma inside_offset pre rest k : (lenZ pre + k <? lenZ (pre ++ rest)) = (k <? lenZ rest).
Proof. rewrite lenZ_app. destruct (Z.ltb_spec k (lenZ rest)); [apply Z.ltb_lt|apply Z.ltb_ge]; lia. Qed.

(** The guarded test [i < len(src) && P(src[i])] of the loops. *)
Lemma guarded_head pre rest P :
  Some (lenZ pre <? lenZ (pre ++ rest)) &&? byteIs (pre ++ rest) (lenZ pre) P =
  Some (match rest with [] => false | c :: _ => P c end).
Proof.
  destruct rest as [|c rest]; [by rewrite outside|]. rewrite inside. simpl. apply byteIs_head.
Qed.

Lemma guarded_offset pre rest k P :
  0 ≤ k →
  Some (lenZ pre + k <? lenZ (pre ++ rest)) &&? byteIs (pre ++ rest) (lenZ pre + k) P =
  Some (match rest !!z k with None => false | Some c => P c end).
Proof.
  intros Hk. rewrite inside_offset, byteIs_offset by done. unfold byteIs.
  destruct (Z.ltb_spec k (lenZ rest)) as [H|H].
  - by destruct (lookupZ_lt_is_Some rest k ltac:(lia)) as [c ->].
  - by rewrite (proj2 (lookupZ_None rest k)) by lia.
Qed.

(** Moving one byte on. *)
Lemma advance pre c rest : pre ++ c :: rest = (pre ++ [c]) ++ rest.
Proof. by rewrite <- app_assoc. Qed.

Ltac step_in :=
  match goal with
  | |- context [?pre ++ ?c :: ?rest] =>
      rewrite (advance pre c rest), <- (lenZ_snoc pre c)
  end.

(** * Bytes by cases *)

(** A property of bytes, checked on all 256. *)
Definition all_bytes P : bool := forallb (λ n, P (Z.of_nat n)) (seq 0 256).

Lemma all_bytes_spec P : all_bytes P = true → ∀ c, byte_ok c → P c = true.
Proof.
  unfold all_bytes. rewrite forallb_forall. intros H c Hc. unfold byte_ok in Hc.
  rewrite <- (Z2Nat.id c) by lia. apply H, in_seq. lia.
Qed.

Lemma all_bytes_eq (P Q : Z → bool) :
  all_bytes (λ c, Bool.eqb (P c) (Q c)) = true → ∀ c, byte_ok c → P c = Q c.
Proof. intros H c Hc. apply Bool.eqb_prop. exact (all_bytes_spec _ H c Hc). Qed.

(** Proves [P c = Q c], or [P c = true], for the byte [c]. *)
Ltac by_bytes c Hc :=
  pattern c;
  lazymatch goal with
  | |- (λ x, @?P x = true) _ => exact (all_bytes_spec P ltac:(vm_compute; reflexivity) c Hc)
  | |- (λ x, @?P x = @?Q x) _ => exact (all_bytes_eq P Q ltac:(vm_compute; reflexivity) c Hc)
  end.

(** ** Bits of a word by bytes *)

Lemma testbit_byte a x k :
  0 ≤ a < 256 → 0 ≤ k →
  Z.testbit (a + 256 * x) k = if k <? 8 then Z.testbit a k else Z.testbit x (k - 8).
Proof.
  intros Ha Hk. destruct (Z.ltb_spec k 8).
  - rewrite <- (Z.mod_pow2_bits_low _ 8) by lia. f_equal. change (2 ^ 8) with 256.
    by rewrite Z.mul_comm, Z.mod_add, Z.mod_small by lia.
  - replace k with (k - 8 + 8) at 1 by lia. rewrite <- Z.div_pow2_bits by lia. f_equal.
    change (2 ^ 8) with 256. by rewrite Z.mul_comm, Z.div_add, Z.div_small by lia.
Qed.

Lemma land_byte a x c y :
  0 ≤ a < 256 → 0 ≤ c < 256 → Z.land (a + 256 * x) (c + 256 * y) = Z.land a c + 256 * Z.land x y.
Proof.
  intros Ha Hc. assert (0 ≤ Z.land a c < 256) as Hl.
  { assert (Z.land a c = Z.land a c `mod` 2 ^ 8) as ->.
    { rewrite <- Z.land_ones, <- Z.land_assoc, Z.land_ones by lia. by rewrite (Z.mod_small c). }
    apply Z.mod_pos_bound. lia. }
  apply Z.bits_inj'. intros k Hk. rewrite Z.land_spec, !testbit_byte by done.
  destruct (k <? 8); by rewrite Z.land_spec.
Qed.

(** [^uint(0) / 255] of a word of [n] bytes: a one in every byte. *)
Fixpoint ones (n : nat) : Z :=
  match n with
  | O => 0
  | S n => 1 + 256 * ones n
  end.

Lemma lowBytes_ones n : lowBytes (Z.of_nat n) = ones n.
Proof.
  unfold lowBytes. replace (2 ^ (8 * Z.of_nat n) - 1) with (ones n * 255); [by rewrite Z.div_mul|].
  induction n as [|n IH]; [done|]. cbn [ones]. replace (8 * Z.of_nat (S n)) with (8 + 8 * Z.of_nat n) by lia.
  rewrite Z.pow_add_r by lia. change (2 ^ 8) with 256. lia.
Qed.

Lemma ones_bound n : 0 ≤ ones n * 128 < 2 ^ (8 * Z.of_nat n).
Proof.
  induction n as [|n IH]; [done|]. cbn [ones]. replace (8 * Z.of_nat (S n)) with (8 + 8 * Z.of_nat n) by lia.
  rewrite Z.pow_add_r by lia. change (2 ^ 8) with 256. lia.
Qed.

(** Without high bits, subtracting a one from every byte sets a high bit where the byte
    is zero. *)
Lemma passes_bytes bs :
  bytes_ok bs → Z.land (littleEndian bs) (ones (length bs) * 128) = 0 →
  Z.land (littleEndian bs - ones (length bs)) (ones (length bs) * 128) = 0 →
  Forall (λ c, stops c = false) bs.
Proof.
  induction 1 as [|b bs Hb Hbs IH]; [done|]. cbn [littleEndian ones length]. intros H1 H2.
  replace ((1 + 256 * ones (length bs)) * 128) with (128 + 256 * (ones (length bs) * 128)) in * by lia.
  unfold byte_ok in Hb. change (2 ^ 8) with 256 in Hb.
  assert (∀ x, 0 ≤ x < 256 → Z.land x 128 = if x <? 128 then 0 else 128) as H128.
  { intros x Hx. apply Z.eqb_eq. by_bytes x Hx. }
  assert (∀ x y, 0 ≤ Z.land x (ones y * 128)) as Hn.
  { intros x y. apply Z.land_nonneg. right. apply ones_bound. }
  rewrite land_byte, H128 in H1 by lia.
  pose proof (Hn (littleEndian bs) (length bs)).
  destruct (Z.ltb_spec b 128); [|lia].
  destruct (decide (b = 0)) as [->|Hb0].
  - replace (0 + 256 * littleEndian bs - _) with
      (255 + 256 * (littleEndian bs - ones (length bs) - 1)) in H2 by lia.
    rewrite land_byte in H2 by lia. change (Z.land 255 128) with 128 in H2.
    pose proof (Hn (littleEndian bs - ones (length bs) - 1) (length bs)). lia.
  - replace (b + 256 * littleEndian bs - _) with
      (b - 1 + 256 * (littleEndian bs - ones (length bs))) in H2 by lia.
    rewrite land_byte, H128 in H2 by lia.
    pose proof (Hn (littleEndian bs - ones (length bs)) (length bs)).
    destruct (Z.ltb_spec (b - 1) 128); [|lia].
    constructor; [|by apply IH; lia]. unfold stops. apply orb_false_iff. split; [lia|]. apply Z.leb_gt. lia.
Qed.

Lemma wordStops_bytes bs :
  bytes_ok bs → wordStops (lenZ bs) (littleEndian bs) = false → Forall (λ c, stops c = false) bs.
Proof.
  unfold wordStops, highBytes, lenZ. rewrite lowBytes_ones. intros Hbs H.
  apply orb_false_iff in H as [H1%negb_false_iff%Z.eqb_eq H2%negb_false_iff%Z.eqb_eq].
  apply passes_bytes; [done..|]. rewrite <- H2. apply Z.bits_inj'. intros k Hk.
  rewrite !Z.land_spec, Z.ldiff_spec.
  assert (Z.testbit (ones (length bs) * 128) k = true → k < 8 * Z.of_nat (length bs)) as Hlow.
  { intros Hbit. destruct (decide (k < 8 * Z.of_nat (length bs))); [done|].
    pose proof (ones_bound (length bs)) as Hb.
    rewrite <- (Z.mod_small _ _ Hb), Z.mod_pow2_bits_high in Hbit by lia. done. }
  apply (f_equal (λ z, Z.testbit z k)) in H1. rewrite Z.land_spec, Z.bits_0 in H1.
  destruct (Z.testbit (ones (length bs) * 128) k) eqn:Hbit; [|by rewrite !andb_false_r].
  rewrite andb_true_r in H1. rewrite H1, !andb_true_r. rewrite Z.mod_pow2_bits_low; [done|by apply Hlow].
Qed.
