(* ===== verification/SyntaxRunes.v ===== *)
(** UTF-8, and the sources that [validSourceEncoding] accepts.

    [validSourceEncoding] accepts exactly the source texts, whatever the word size and
    the alignment; on source text, [identifierRune] decodes the next scalar value. *)

From S2P Require Import Prelude.
From S2P Require Import GoInt.
From S2P Require Import SyntaxToken.
From S2P Require Import SyntaxUnicode.
From S2P Require Import SyntaxEncoding.
From S2P Require Import SyntaxLiteral.
From S2P Require Import SyntaxBytes.

(** * Specification *)

Definition scalar (r : Z) : Prop := 0 ≤ r ≤ 1114111 ∧ ¬ 55296 ≤ r ≤ 57343.

(** The UTF-8 encoding of a scalar value. *)
Definition utf8 (r : Z) : list Z :=
  if r <? 128 then [r]
  else if r <? 2048 then [192 + r `div` 64; 128 + r `mod` 64]
  else if r <? 65536 then [224 + r `div` 4096; 128 + (r `div` 64) `mod` 64; 128 + r `mod` 64]
  else [240 + r `div` 262144; 128 + (r `div` 4096) `mod` 64; 128 + (r `div` 64) `mod` 64;
        128 + r `mod` 64].

Definition byteOrder : Z := 65279.

(** Go source text: scalar values in UTF-8, without NUL, and with a byte order mark at
    most at the start ([first]). *)
Inductive source_text : bool → list Z → Prop :=
| st_nil first : source_text first []
| st_cons first r rest :
    scalar r → r ≠ 0 → (r = byteOrder → first = true) → source_text false rest →
    source_text first (utf8 r ++ rest).

(** * Encoding *)

Lemma scalar_nonneg r : scalar r → 0 ≤ r.
Proof. unfold scalar. lia. Qed.

Ltac utf8_cases r :=
  unfold utf8; destruct (Z.ltb_spec r 128); [|destruct (Z.ltb_spec r 2048);
    [|destruct (Z.ltb_spec r 65536)]].

(** Quotients and remainders by powers of 64, for [lia]. *)
Ltac runes := Z.div_mod_to_equations; lia.

Lemma utf8_nonempty r : ∃ c rest, utf8 r = c :: rest.
Proof. utf8_cases r; eauto. Qed.

Lemma utf8_ascii r : 0 ≤ r < 128 → utf8 r = [r].
Proof. intros. unfold utf8. by rewrite (proj2 (Z.ltb_lt r 128)) by lia. Qed.

(** The bytes of a longer encoding are not ASCII. *)
Lemma utf8_high r : scalar r → 128 ≤ r → Forall (λ c, 128 ≤ c < 256) (utf8 r).
Proof. unfold scalar. intros. utf8_cases r; [lia|..]; repeat constructor; runes. Qed.

Lemma utf8_bytes r : scalar r → bytes_ok (utf8 r).
Proof.
  intros Hr. destruct (decide (r < 128)).
  - rewrite utf8_ascii by (destruct Hr; lia). destruct Hr. repeat constructor; unfold byte_ok; lia.
  - eapply Forall_impl; [apply utf8_high; [done|lia]|]. unfold byte_ok. simpl. lia.
Qed.

Lemma utf8_length r : scalar r →
  lenZ (utf8 r) = if r <? 128 then 1 else if r <? 2048 then 2 else if r <? 65536 then 3 else 4.
Proof. intros _. utf8_cases r; done. Qed.

Lemma land_63 v : Z.land v 63 = v `mod` 64.
Proof. change 63 with (Z.ones 6). by rewrite Z.land_ones. Qed.

(** A marker above the bits of [x]. *)
Lemma lor_marker m n x : 0 ≤ n → 0 ≤ x < 2 ^ n → Z.lor (m * 2 ^ n) x = m * 2 ^ n + x.
Proof.
  intros Hn Hx. rewrite <- Z.shiftl_mul_pow2 by done. symmetry. apply Z.add_nocarry_lor.
  apply Z.bits_inj'. intros k Hk. rewrite Z.land_spec, Z.bits_0, Z.shiftl_spec by done.
  destruct (decide (k < n)); [by rewrite Z.testbit_neg_r by lia|].
  rewrite <- (Z.mod_small x (2 ^ n)), Z.mod_pow2_bits_high by lia. apply andb_false_r.
Qed.

(** [appendStringRune] writes UTF-8. *)
Lemma runeBytes_utf8 r : scalar r → runeBytes r = utf8 r.
Proof.
  unfold scalar. intros Hr. unfold runeBytes. rewrite !land_63, !Z.shiftr_div_pow2 by lia.
  change (2 ^ 6) with 64. change (2 ^ 12) with 4096. change (2 ^ 18) with 262144.
  assert (∀ x, 0 ≤ x < 64 → Z.lor 128 x = 128 + x) as H128.
  { intros x Hx. exact (lor_marker 2 6 x ltac:(lia) Hx). }
  utf8_cases r; rewrite ?H128 by runes.
  - rewrite u8_small; [done|]. unfold byte_ok. lia.
  - replace (Z.lor 192 (r `div` 64)) with (192 + r `div` 64)
      by (symmetry; apply (lor_marker 6 5); runes). rewrite !u8_small by (unfold byte_ok; runes). done.
  - replace (Z.lor 224 (r `div` 4096)) with (224 + r `div` 4096)
      by (symmetry; apply (lor_marker 14 4); runes). rewrite !u8_small by (unfold byte_ok; runes). done.
  - replace (Z.lor 240 (r `div` 262144)) with (240 + r `div` 262144)
      by (symmetry; apply (lor_marker 30 3); runes). rewrite !u8_small by (unfold byte_ok; runes). done.
Qed.

(** * Decoding *)

(** What is read from the first byte of a multi-byte rune. *)
Lemma runeHeader_spec c n v m :
  byte_ok c → runeHeader c = Some (n, v, m) →
  (n = 2 ∧ c = 192 + v ∧ 2 ≤ v < 32 ∧ m = 128) ∨ (n = 3 ∧ c = 224 + v ∧ 0 ≤ v < 16 ∧ m = 2048) ∨
  (n = 4 ∧ c = 240 + v ∧ 0 ≤ v < 5 ∧ m = 65536).
Proof.
  intros Hc. unfold runeHeader, byte_ok in *.
  assert (Z.land c 31 = c `mod` 32) as H1 by (change 31 with (Z.ones 5); by rewrite Z.land_ones).
  assert (Z.land c 15 = c `mod` 16) as H2 by (change 15 with (Z.ones 4); by rewrite Z.land_ones).
  assert (Z.land c 7 = c `mod` 8) as H3 by (change 7 with (Z.ones 3); by rewrite Z.land_ones).
  destruct (Z.leb_spec 194 c), (Z.leb_spec c 223); simpl; [|..];
    destruct (Z.leb_spec 224 c), (Z.leb_spec c 239); simpl;
    destruct (Z.leb_spec 240 c), (Z.leb_spec c 244); simpl; try done; try lia;
    intros [= <- <- <-]; rewrite ?H1, ?H2, ?H3;
    first [left; runes|right; left; runes|right; right; runes].
Qed.

Definition follows (b : Z) : Prop := 128 ≤ b ≤ 191.
#[global] Instance follows_dec b : Decision (follows b).
Proof. unfold follows. apply _. Defined.

(** The value of continuation bytes after a prefix [v]. *)
Definition runeValue (v : Z) (bs : list Z) : Z := foldl (λ v b, v * 64 + (b - 128)) v bs.

Lemma continuation_spec bs pre rest v :
  bytes_ok bs → 0 ≤ v →
  continuation (length bs) (pre ++ bs ++ rest) (lenZ pre) v =
  Some (if decide (Forall follows bs) then Some (runeValue v bs) else None).
Proof.
  intros Hbs. revert pre v. induction Hbs as [|b bs Hb Hbs IH]; intros pre v Hv; [done|].
  unfold byte_ok in Hb. simpl. rewrite at_head. simpl.
  destruct (decide (follows b)) as [Hf|Hf].
  - unfold follows in Hf. rewrite (proj2 (Z.ltb_ge b 128)), (proj2 (Z.ltb_ge 191 b)) by lia. simpl orb. cbv iota.
    rewrite land_63, Z.shiftl_mul_pow2 by lia.
    rewrite (lor_marker v 6) by runes. change ((b :: bs) ++ rest) with (b :: (bs ++ rest)). step_in.
    rewrite IH by runes. replace (v * 2 ^ 6 + b `mod` 64) with (v * 64 + (b - 128)) by runes.
    destruct (decide (Forall follows bs)).
    + rewrite decide_True by (by constructor). done.
    + rewrite decide_False; [done|]. by rewrite Forall_cons; intros [_ ?].
  - rewrite decide_False by (by rewrite Forall_cons; intros [? _]). unfold follows in Hf.
    assert ((b <? 128) || (191 <? b) = true) as ->; [|done]. apply orb_true_iff.
    rewrite !Z.ltb_lt. lia.
Qed.

Lemma badRune_spec value m i :
  0 ≤ m → badRune value m i = false ↔
  m ≤ value ∧ scalar value ∧ (value = byteOrder → i = 0).
Proof.
  intros Hm. unfold badRune, scalar, byteOrder.
  destruct (Z.ltb_spec value m), (Z.ltb_spec 1114111 value), (Z.leb_spec 55296 value),
    (Z.leb_spec value 57343), (Z.eqb_spec value 65279), (Z.eqb_spec i 0); simpl; split; try done; lia.
Qed.

Lemma decode_sound c n v m bs :
  byte_ok c → runeHeader c = Some (n, v, m) → lenZ bs = n - 1 → Forall follows bs →
  m ≤ runeValue v bs → runeValue v bs ≤ 1114111 → utf8 (runeValue v bs) = c :: bs.
Proof.
  unfold follows. intros Hc Hh Hl Hbs. unfold runeValue.
  destruct (runeHeader_spec c n v m Hc Hh) as [(-> & -> & Hv & ->)|[(-> & -> & Hv & ->)|(-> & -> & Hv & ->)]];
    (destruct bs as [|b1 bs]; [by rewrite lenZ_nil in Hl|]);
    (destruct bs as [|b2 bs]; [try done|try done]);
    try (destruct bs as [|b3 bs]; [try done|try done]);
    try (destruct bs as [|b4 bs]; [try done|]);
    autorewrite with lenZ in Hl; try (pose proof (lenZ_nonneg bs); lia);
    decompose_Forall_hyps; simpl; intros Hm Hu.
  - utf8_cases ((v * 64 + (b1 - 128))); try lia. f_equal; [runes|f_equal; runes].
  - utf8_cases ((v * 64 + (b1 - 128)) * 64 + (b2 - 128)); try lia.
    f_equal; [runes|f_equal; [runes|f_equal; runes]].
  - utf8_cases (((v * 64 + (b1 - 128)) * 64 + (b2 - 128)) * 64 + (b3 - 128)); try lia.
    f_equal; [runes|f_equal; [runes|f_equal; [runes|f_equal; runes]]].
Qed.

Lemma runeHeader_some c :
  (194 ≤ c ≤ 223 → runeHeader c = Some (2, c - 192, 128)) ∧
  (224 ≤ c ≤ 239 → runeHeader c = Some (3, c - 224, 2048)) ∧
  (240 ≤ c ≤ 244 → runeHeader c = Some (4, c - 240, 65536)).
Proof.
  unfold runeHeader.
  assert (Z.land c 31 = c `mod` 32) as -> by (change 31 with (Z.ones 5); by rewrite Z.land_ones).
  assert (Z.land c 15 = c `mod` 16) as -> by (change 15 with (Z.ones 4); by rewrite Z.land_ones).
  assert (Z.land c 7 = c `mod` 8) as -> by (change 7 with (Z.ones 3); by rewrite Z.land_ones).
  split_and!; intros Hc;
    destruct (Z.leb_spec 194 c), (Z.leb_spec c 223), (Z.leb_spec 224 c), (Z.leb_spec c 239),
      (Z.leb_spec 240 c), (Z.leb_spec c 244); simpl; try lia; repeat f_equal; runes.
Qed.

Lemma decode_complete r :
  scalar r → 128 ≤ r →
  ∃ c n v m bs, utf8 r = c :: bs ∧ runeHeader c = Some (n, v, m) ∧ lenZ bs = n - 1 ∧
    Forall follows bs ∧ runeValue v bs = r ∧ m ≤ r.
Proof.
  unfold scalar. intros Hr H. unfold runeValue.
  utf8_cases r; [lia|..]; do 5 eexists; (split; [reflexivity|]).
  - split_and!; [apply (proj1 (runeHeader_some _)); runes|done| |simpl; runes|done].
    repeat constructor; unfold follows; runes.
  - split_and!; [apply (proj1 (proj2 (runeHeader_some _))); runes|done| |simpl; runes|done].
    repeat constructor; unfold follows; runes.
  - split_and!; [apply (proj2 (proj2 (runeHeader_some _))); runes|done| |simpl; runes|done].
    repeat constructor; unfold follows; runes.
Qed.

Abbreviation ascii := (λ c, stops c = false).

(** * The runs of ASCII bytes *)

(** [i] is behind a run of ASCII bytes of [rest]. *)
Definition run_to (pre rest : list Z) (i : Z) : Prop :=
  ∃ w rest', rest = w ++ rest' ∧ Forall ascii w ∧ i = lenZ (pre ++ w).

Lemma run_to_here pre rest : run_to pre rest (lenZ pre).
Proof. exists [], rest. by rewrite app_nil_r. Qed.

Lemma run_to_cons pre c rest i : stops c = false → run_to (pre ++ [c]) rest i → run_to pre (c :: rest) i.
Proof.
  intros Hc (w & rest' & -> & Hw & ->). exists (c :: w), rest'. split_and!; [done|by constructor|].
  by rewrite <- app_assoc.
Qed.

Lemma run_to_trans pre rest i pre' rest' j :
  run_to pre rest i → i = lenZ pre' → pre ++ rest = pre' ++ rest' → run_to pre' rest' j → run_to pre rest j.
Proof.
  intros (w & r & -> & Hw & ->) Hl He (w' & r' & -> & Hw' & ->).
  rewrite app_assoc in He. apply app_inj_1 in He as [<- ->]; [|unfold lenZ in Hl; lia].
  exists (w ++ w'), r'. rewrite <- !app_assoc. split_and!; [done|by apply Forall_app|done].
Qed.

Lemma asciiRun_spec rest pre : asciiRun rest (lenZ pre) = lenZ (pre ++ takeWhile (λ c, negb (stops c)) rest).
Proof.
  revert pre. induction rest as [|c rest IH]; intros pre; simpl; [by rewrite app_nil_r|].
  destruct (stops c); simpl; [by rewrite app_nil_r|]. rewrite <- (lenZ_snoc pre c), IH.
  by rewrite <- app_assoc.
Qed.

Section host.
Context (wordSize base : Z) (Hword : 0 < wordSize).

Lemma alignRun_run fuel pre rest :
  (length rest ≤ fuel)%nat →
  ∃ i, alignRun wordSize base fuel (pre ++ rest) (lenZ pre) = Some i ∧ run_to pre rest i.
Proof.
  revert pre rest. induction fuel as [|fuel IH]; intros pre [|c rest] Hf; simpl in Hf; try lia.
  - exists (lenZ pre). simpl. rewrite outside. simpl. split; [done|apply run_to_here].
  - exists (lenZ pre). simpl. rewrite outside. simpl. split; [done|apply run_to_here].
  - simpl. rewrite inside, byteIs_head. simpl.
    destruct (aligned wordSize base (lenZ pre)); simpl; [eexists; split; [done|apply run_to_here]|].
    destruct (stops c) eqn:Hc; [eexists; split; [done|apply run_to_here]|]. step_in.
    destruct (IH (pre ++ [c]) rest ltac:(lia)) as (i & -> & Hi). exists i. split; [done|by apply run_to_cons].
Qed.

Lemma run_to_app pre bs rest i :
  Forall ascii bs → run_to (pre ++ bs) rest i → run_to pre (bs ++ rest) i.
Proof.
  intros Hbs (w & rest' & -> & Hw & ->). exists (bs ++ w), rest'.
  rewrite <- !app_assoc. split_and!; [done|by apply Forall_app|done].
Qed.

Lemma wordRun_run fuel pre rest :
  bytes_ok rest → (length rest ≤ fuel)%nat →
  ∃ i, wordRun wordSize fuel (pre ++ rest) (lenZ pre) = Some i ∧ run_to pre rest i.
Proof using Hword.
  revert pre rest. induction fuel as [|fuel IH]; intros pre rest Hb Hf.
  - destruct rest; [|simpl in Hf; lia]. exists (lenZ pre). simpl. rewrite app_nil_r.
    rewrite (proj2 (Z.leb_gt _ _)) by lia. split; [done|apply run_to_here].
  - simpl. destruct (Z.leb_spec (lenZ pre + wordSize) (lenZ (pre ++ rest))) as [Hle|]; [|eexists; split; [done|apply run_to_here]].
    rewrite lenZ_app in Hle. rewrite <- (take_drop (Z.to_nat wordSize) rest) in Hb |- *.
    assert (lenZ (take (Z.to_nat wordSize) rest) = wordSize) as Hl.
    { unfold lenZ in *. rewrite length_take. lia. }
    set (bs := take _ rest) in *. set (rest' := drop _ rest).
    replace (lenZ pre + wordSize) with (lenZ pre + lenZ bs) by lia. rewrite slice_mid. simpl.
    apply Forall_app in Hb as [Hb Hb'].
    destruct (wordStops wordSize (littleEndian bs)) eqn:Hs; [eexists; split; [done|apply run_to_here]|].
    rewrite <- Hl in Hs. apply wordStops_bytes in Hs; [|done].
    replace (pre ++ bs ++ rest') with ((pre ++ bs) ++ rest') by (by rewrite <- app_assoc).
    rewrite <- lenZ_app.
    destruct (IH (pre ++ bs) rest') as (i & -> & Hi); [done| |].
    { unfold rest'. rewrite length_drop. lia. }
    exists i. split; [done|by apply run_to_app].
Qed.

(** * Source text *)

Lemma source_text_inv first l :
  source_text first l → l ≠ [] →
  ∃ r rest, l = utf8 r ++ rest ∧ scalar r ∧ r ≠ 0 ∧ (r = byteOrder → first = true) ∧ source_text false rest.
Proof. destruct 1 as [|first r rest]; [done|]. intros _. by exists r, rest. Qed.

Lemma source_text_ascii first c rest :
  stops c = false → byte_ok c → source_text first (c :: rest) ↔ source_text false rest.
Proof.
  unfold stops, byte_ok. intros [Hc0%Z.eqb_neq Hc%Z.leb_gt]%orb_false_iff Hb. split.
  - intros (r & rest' & He & Hr & H0 & Hbo & Hrest)%source_text_inv; [|done].
    destruct (decide (r < 128)) as [Hr'|].
    + rewrite utf8_ascii in He by (destruct Hr; lia). by injection He as -> ->.
    + pose proof (utf8_high r Hr ltac:(lia)) as Hh. destruct (utf8_nonempty r) as (c' & rest'' & Hu).
      rewrite Hu in He, Hh. injection He as -> _. apply Forall_inv in Hh. lia.
  - intros H. change (c :: rest) with ([c] ++ rest). rewrite <- (utf8_ascii c) by lia.
    constructor; [unfold scalar; lia|done|unfold byteOrder; lia|done].
Qed.

Lemma source_text_run first w rest :
  Forall ascii w → bytes_ok w →
  source_text first (w ++ rest) ↔ source_text (bool_decide (w = []) && first) rest.
Proof.
  intros Hw Hb. revert first. induction Hw as [|c w Hc Hw IH]; intros first; simpl; [done|].
  apply Forall_cons in Hb as [Hb1 Hb]. rewrite source_text_ascii by done. rewrite IH by done.
  by rewrite andb_false_r.
Qed.

(** The first rune of source text that does not start with an ASCII byte. *)
Lemma source_text_wide first c rest :
  stops c = true →
  source_text first (c :: rest) ↔
  ∃ r bs rest', 128 ≤ r ∧ scalar r ∧ (r = byteOrder → first = true) ∧ utf8 r = c :: bs ∧
    rest = bs ++ rest' ∧ source_text false rest'.
Proof.
  unfold stops. intros Hc. split.
  - intros (r & rest' & He & Hr & H0 & Hbo & Hrest)%source_text_inv; [|done].
    destruct (decide (r < 128)) as [Hr'|].
    + rewrite utf8_ascii in He by (destruct Hr; lia). injection He as -> ->.
      apply orb_true_iff in Hc as [?%Z.eqb_eq|?%Z.leb_le]; lia.
    + destruct (utf8_nonempty r) as (c' & bs & Hu). rewrite Hu in He. injection He as -> ->.
      exists r, bs, rest'. split_and!; [lia|done..].
  - intros (r & bs & rest' & Hr & Hs & Hbo & Hu & -> & Hrest).
    change (source_text first ((c :: bs) ++ rest')). rewrite <- Hu. constructor; [done|lia|done..].
Qed.

Lemma source_text_nil first : source_text first [] ↔ True.
Proof. split; [done|constructor]. Qed.

(** The part of the loop behind the runs, at a byte that is not ASCII. *)
Lemma wide_step fuel pre c rest :
  stops c = true → c ≠ 0 → bytes_ok (c :: rest) → (length rest ≤ fuel)%nat →
  (∀ pre' rest', (length rest' ≤ fuel)%nat → bytes_ok rest' → pre' ≠ [] →
     ∃ b, validFrom wordSize base fuel (pre' ++ rest') (lenZ pre') = Some b ∧
       (b = true ↔ source_text false rest')) →
  ∃ b,
    match runeHeader c with
    | None => Some false
    | Some (n, value, minimum) =>
        if lenZ (pre ++ c :: rest) <? lenZ pre + n then Some false
        else
          value ← continuation (Z.to_nat (n - 1)) (pre ++ c :: rest) (lenZ pre + 1) value;
          match value with
          | None => Some false
          | Some value => if badRune value minimum (lenZ pre) then Some false
              else validFrom wordSize base fuel (pre ++ c :: rest) (lenZ pre + n)
          end
    end = Some b ∧ (b = true ↔ source_text (bool_decide (pre = [])) (c :: rest)).
Proof.
  intros Hc Hc0 [Hbc Hb]%Forall_cons Hf IH. setoid_rewrite (source_text_wide _ _ _ Hc).
  destruct (runeHeader c) as [[[n v] m]|] eqn:Hh.
  2: { exists false. split; [done|]. split; [done|]. intros (r & bs & rest' & Hr & Hs & _ & Hu & _).
       destruct (decode_complete r Hs Hr) as (c' & n & v & m & bs' & Hu' & Hh' & _). congruence. }
  assert (2 ≤ n ≤ 4 ∧ 0 ≤ v ∧ 0 ≤ m) as (Hn & Hv & Hm).
  { destruct (runeHeader_spec c n v m Hbc Hh) as [(-> & _ & ? & ->)|[(-> & _ & ? & ->)|(-> & _ & ? & ->)]]; lia. }
  autorewrite with lenZ. destruct (Z.ltb_spec (lenZ pre + (1 + lenZ rest)) (lenZ pre + n)) as [Hlen|Hlen].
  { exists false. split; [done|]. split; [done|]. intros (r & bs & rest' & Hr & Hs & _ & Hu & -> & _).
    destruct (decode_complete r Hs Hr) as (c' & n' & v' & m' & bs' & Hu' & Hh' & Hl & _).
    rewrite Hu in Hu'. injection Hu' as <- <-. rewrite Hh in Hh'. injection Hh' as -> -> ->.
    rewrite lenZ_app in Hlen. pose proof (lenZ_nonneg rest'). lia. }
  rewrite <- (take_drop (Z.to_nat (n - 1)) rest) in *.
  assert (length (take (Z.to_nat (n - 1)) rest) = Z.to_nat (n - 1)) as Hl.
  { autorewrite with lenZ in Hlen. rewrite length_take. unfold lenZ in Hlen.
    rewrite length_take, length_drop in Hlen. lia. }
  set (bs := take _ rest) in *. set (rest' := drop _ rest) in *. clearbody bs rest'.
  apply Forall_app in Hb as [Hb Hb']. rewrite length_app in Hf.
  rewrite (advance pre c), <- (lenZ_snoc pre c). rewrite <- Hl.
  rewrite continuation_spec by done. simpl.
  assert (lenZ bs = n - 1) as HlZ by (unfold lenZ; lia).
  assert (∀ r bs' rest'', 128 ≤ r → scalar r → utf8 r = c :: bs' → bs ++ rest' = bs' ++ rest'' →
    bs' = bs ∧ rest'' = rest' ∧ Forall follows bs ∧ runeValue v bs = r ∧ m ≤ r) as Huniq.
  { intros r bs' rest'' Hr Hs Hu He.
    destruct (decode_complete r Hs Hr) as (c' & n' & v' & m' & bs'' & Hu' & Hh' & Hl' & Hfo & Hval & Hmr).
    rewrite Hu in Hu'. injection Hu' as <- <-. rewrite Hh in Hh'. injection Hh' as <- <- <-.
    apply app_inj_1 in He as [-> ->]; [done|]. unfold lenZ in *. lia. }
  destruct (decide (Forall follows bs)) as [Hfo|Hfo].
  2: { exists false. split; [done|]. split; [done|]. intros (r & bs' & rest'' & Hr & Hs & _ & Hu & He & _).
       by destruct (Huniq r bs' rest'' Hr Hs Hu He) as (_ & _ & ? & _). }
  destruct (badRune (runeValue v bs) m (lenZ pre)) eqn:Hbad.
  - exists false. split; [done|]. split; [done|]. intros (r & bs' & rest'' & Hr & Hs & Hbo & Hu & He & _).
    destruct (Huniq r bs' rest'' Hr Hs Hu He) as (_ & _ & _ & Hval & Hmr).
    assert (badRune (runeValue v bs) m (lenZ pre) = false); [|congruence].
    apply badRune_spec; [done|]. rewrite Hval. split_and!; [done..|]. intros ->.
    by rewrite (bool_decide_eq_true_1 _ (Hbo eq_refl)).
  - apply badRune_spec in Hbad as (Hge & Hs & Hbo); [|done].
    replace (lenZ pre + n) with (lenZ (pre ++ c :: bs)) by (autorewrite with lenZ; lia).
    replace ((pre ++ [c]) ++ bs ++ rest') with ((pre ++ c :: bs) ++ rest') by (by rewrite <- !app_assoc).
    destruct (IH (pre ++ c :: bs) rest') as (b & -> & Hbt); [lia|done|by destruct pre|].
    exists b. split; [done|]. rewrite Hbt. split.
    + intros Hst. exists (runeValue v bs), bs, rest'.
      assert (128 ≤ m) by (destruct (runeHeader_spec c n v m Hbc Hh) as [(_ & _ & _ & ->)|[(_ & _ & _ & ->)|(_ & _ & _ & ->)]]; lia).
      split_and!; [lia|done| |apply (decode_sound c n v m); [done..|apply Hs]|done|done].
      intros Hv0. apply bool_decide_eq_true. specialize (Hbo Hv0). destruct pre; [done|].
      rewrite lenZ_cons in Hbo. pose proof (lenZ_nonneg pre). lia.
    + intros (r & bs' & rest'' & Hr & Hs' & _ & Hu & He & Hst).
      by destruct (Huniq r bs' rest'' Hr Hs' Hu He) as (_ & -> & _).
Qed.
(** The three runs together: everything up to the first byte that is not ASCII. *)
Lemma runs_spec pre rest :
  bytes_ok rest →
  ∃ w rest', rest = w ++ rest' ∧ Forall ascii w ∧
    match rest' with [] => True | c :: _ => stops c = true end ∧
    (i ← alignRun wordSize base (length (pre ++ rest)) (pre ++ rest) (lenZ pre);
     i ← (if (i <? lenZ (pre ++ rest)) && aligned wordSize base i
          then wordRun wordSize (length (pre ++ rest)) (pre ++ rest) i else Some i);
     rest ← from (pre ++ rest) i;
     Some (asciiRun rest i)) = Some (lenZ (pre ++ w)).
Proof using Hword.
  intros Hb.
  destruct (alignRun_run (length (pre ++ rest)) pre rest) as (i1 & -> & w1 & r1 & -> & Hw1 & ->).
  { rewrite length_app. lia. }
  simpl. set (src := pre ++ w1 ++ r1). apply Forall_app in Hb as [_ Hb]. assert (src = (pre ++ w1) ++ r1) as Hsrc by (unfold src; by rewrite app_assoc).
  assert (∃ i2, (if (lenZ (pre ++ w1) <? lenZ src) && aligned wordSize base (lenZ (pre ++ w1))
    then wordRun wordSize (length src) src (lenZ (pre ++ w1)) else Some (lenZ (pre ++ w1))) = Some i2 ∧
    run_to (pre ++ w1) r1 i2) as (i2 & -> & w2 & r2 & -> & Hw2 & ->).
  { case_match; [|eexists; split; [done|apply run_to_here]]. rewrite Hsrc. apply wordRun_run; [done|].
    rewrite !length_app. lia. }
  simpl. replace src with (((pre ++ w1) ++ w2) ++ r2) by (unfold src; by rewrite <- !app_assoc).
  rewrite from_here. simpl. rewrite asciiRun_spec.
  set (w3 := takeWhile _ r2). exists (w1 ++ w2 ++ w3), (dropWhile (λ c, negb (stops c)) r2).
  split_and!.
  - rewrite <- !app_assoc. unfold w3. by rewrite takeWhile_dropWhile.
  - rewrite !Forall_app. split_and!; [done..|]. eapply Forall_impl; [apply takeWhile_all|].
    intros c. apply negb_true_iff.
  - pose proof (dropWhile_head (λ c, negb (stops c)) r2) as H. destruct (dropWhile _ r2); [done|].
    by apply negb_false_iff.
  - by rewrite <- !app_assoc.
Qed.

Lemma validFrom_unfold fuel src i :
  validFrom wordSize base fuel src i =
  if lenZ src <=? i then Some true
  else
    i ← (i ← alignRun wordSize base (length src) src i;
         i ← (if (i <? lenZ src) && aligned wordSize base i then wordRun wordSize (length src) src i else Some i);
         rest ← from src i; Some (asciiRun rest i));
    if i =? lenZ src then Some true
    else
      c ← src !!z i;
      if c =? 0 then Some false
      else
        match runeHeader c, fuel with
        | None, _ => Some false
        | Some _, O => None
        | Some (n, value, minimum), S fuel =>
            if lenZ src <? i + n then Some false
            else
              value ← continuation (Z.to_nat (n - 1)) src (i + 1) value;
              match value with
              | None => Some false
              | Some value => if badRune value minimum i then Some false
                  else validFrom wordSize base fuel src (i + n)
              end
        end.
Proof.
  destruct fuel; simpl; (destruct (lenZ src <=? i); [done|]); (destruct (alignRun _ _ _ _ _); [|done]);
    simpl; (destruct (if _ : bool then _ else _); [|done]); simpl; by destruct (from _ _).
Qed.

Lemma validFrom_spec fuel pre rest :
  bytes_ok rest → (length rest ≤ fuel)%nat →
  ∃ b, validFrom wordSize base fuel (pre ++ rest) (lenZ pre) = Some b ∧
    (b = true ↔ source_text (bool_decide (pre = [])) rest).
Proof using Hword.
  revert pre rest. induction fuel as [|fuel IH]; intros pre rest Hb Hf; rewrite validFrom_unfold.
  { destruct rest; [|simpl in Hf; lia]. exists true. rewrite app_nil_r, Z.leb_refl. by rewrite source_text_nil. }
  destruct (Z.leb_spec (lenZ (pre ++ rest)) (lenZ pre)) as [Hle|_].
  { exists true. destruct rest as [|c rest]; [by rewrite source_text_nil|].
    autorewrite with lenZ in Hle. pose proof (lenZ_nonneg rest). lia. }
  destruct (runs_spec pre rest Hb) as (w & rest' & -> & Hw & Hh & ->). cbn [mbind option_bind].
  apply Forall_app in Hb as [Hbw Hb]. rewrite length_app in Hf.
  setoid_rewrite (source_text_run _ w rest' Hw Hbw).
  replace (bool_decide (w = []) && bool_decide (pre = [])) with (bool_decide (pre ++ w = [])).
  2: { destruct w as [|c w]; [by rewrite app_nil_r|]. rewrite bool_decide_false; [done|]. by destruct pre. }
  rewrite app_assoc. destruct rest' as [|c rest'].
  { exists true. rewrite app_nil_r, Z.eqb_refl. by rewrite source_text_nil. }
  pose proof (inside (pre ++ w) c rest') as Hin%Z.ltb_lt.
  rewrite (proj2 (Z.eqb_neq (lenZ (pre ++ w)) _)) by lia. rewrite at_head.
  change (head (c :: rest')) with (Some c). cbn [mbind option_bind].
  destruct (Z.eqb_spec c 0) as [->|Hc0].
  { exists false. split; [done|]. split; [done|]. intros (r & bs & rest'' & Hr & Hs & _ & Hu & _)%source_text_wide; [|done].
    pose proof (utf8_high r Hs Hr) as Hhigh. rewrite Hu in Hhigh. apply Forall_inv in Hhigh. lia. }
  simpl in Hf. apply (wide_step fuel); [done|done|done|lia|].
  intros pre' rest'' Hl Hb' Hne. destruct (IH pre' rest'' Hb' Hl) as (b & Hv & Hbt). exists b. split; [done|].
  by rewrite bool_decide_false in Hbt.
Qed.

Lemma validSourceEncoding_spec src :
  bytes_ok src → ∃ b, validSourceEncoding wordSize base src = Some b ∧ (b = true ↔ source_text true src).
Proof using Hword. intros Hb. exact (validFrom_spec (length src) [] src Hb ltac:(done)). Qed.
End host.
