(* ===== verification/SyntaxIdent.v ===== *)
(** Binary search, and membership in the tables of Unicode ranges.

    Identifiers: the scanner's loops over letters and digits, ASCII and Unicode, end
    where the longest identifier ends. *)

From Stdlib Require Import String Ascii.
From S2P Require Import Prelude.
From S2P Require Import GoInt.
From S2P Require Import SyntaxToken.
From S2P Require Import SyntaxUnicode.
From S2P Require Import SyntaxEncoding.
From S2P Require Import SyntaxLiteral.
From S2P Require Import SyntaxScan.
From S2P Require Import SyntaxBytes.
From S2P Require Import SyntaxRunes.

(** The search answers where [p] changes from true to false. *)
Lemma bisect_spec (p : Z → bool) below n fuel lo hi :
  (∀ i, 0 ≤ i < n → below i = Some (p i)) → (∀ i j, 0 ≤ i ≤ j → j < n → p j = true → p i = true) →
  0 ≤ lo ≤ hi → hi ≤ n → hi - lo ≤ Z.of_nat fuel →
  (∀ i, 0 ≤ i < lo → p i = true) → (∀ i, hi ≤ i < n → p i = false) →
  ∃ k, bisect fuel below lo hi = Some k ∧ lo ≤ k ≤ hi ∧
    (∀ i, 0 ≤ i < k → p i = true) ∧ (∀ i, k ≤ i < n → p i = false).
Proof.
  intros Hbelow Hmono. revert lo hi.
  induction fuel as [|fuel IH]; intros lo hi Hl Hh Hf Hlo Hhi; simpl; destruct (Z.ltb_spec lo hi) as [Hlt|Hge];
    try lia; try (exists lo; split_and!; [done|lia|lia|done|intros i Hi; apply Hhi; lia]).
  assert (0 ≤ Z.quot (hi - lo) 2 < hi - lo) as Hq.
  { rewrite Z.quot_div_nonneg by lia. split; [apply Z.div_pos; lia|apply Z.div_lt; lia]. }
  assert (Z.quot (hi - lo) 2 * 2 ≤ hi - lo ≤ Z.quot (hi - lo) 2 * 2 + 1) as Hq2.
  { rewrite Z.quot_div_nonneg by lia. Z.div_mod_to_equations; lia. }
  set (mid := lo + Z.quot (hi - lo) 2) in *. rewrite Hbelow by lia. simpl.
  destruct (p mid) eqn:Hp.
  - destruct (IH (mid + 1) hi) as (k & -> & Hk & Hk1 & Hk2); try lia; [|done|].
    + intros i Hi. destruct (decide (i < lo)); [apply Hlo; lia|]. apply (Hmono i mid); [lia|lia|done].
    + exists k. split_and!; [done|lia|lia|done|done].
  - destruct (IH lo mid) as (k & -> & Hk & Hk1 & Hk2); try lia; [done| |].
    + intros i Hi. destruct (decide (hi ≤ i)); [apply Hhi; lia|].
      destruct (p i) eqn:Hpi; [|done]. rewrite (Hmono mid i) in Hp by (done || lia). done.
    + exists k. split_and!; [done|lia|lia|done|done].
Qed.

(** * Tables *)

(** The number in four characters. *)
Definition rangeNumber (cs : list Z) : Z :=
  match cs with
  | [a; b; c; d] =>
      Z.lor (Z.lor (Z.lor (Z.shiftl (a - 32) 18) (Z.shiftl (b - 32) 12)) (Z.shiftl (c - 32) 6)) (d - 32)
  | _ => 0
  end.

(** The ranges of a table: first, last, stride. *)
Fixpoint records (ranges : list Z) : list (Z * Z * Z) :=
  match ranges with
  | a0 :: a1 :: a2 :: a3 :: b0 :: b1 :: b2 :: b3 :: c0 :: c1 :: c2 :: c3 :: ranges =>
      (rangeNumber [a0; a1; a2; a3], rangeNumber [b0; b1; b2; b3], rangeNumber [c0; c1; c2; c3])
        :: records ranges
  | _ => []
  end.

Definition in_range (value : Z) (r : Z * Z * Z) : bool :=
  let '(first, last, stride) := r in
  (first <=? value) && (value <=? last) && ((value - first) `mod` stride =? 0).
Definition in_ranges (value : Z) (rs : list (Z * Z * Z)) : bool := existsb (in_range value) rs.

(** Ranges in order, with positive strides. *)
Fixpoint ordered (rs : list (Z * Z * Z)) : bool :=
  match rs with
  | [] => true
  | (first, last, stride) :: rs =>
      (first <=? last) && (0 <? stride) &&
      match rs with [] => true | (first', _, _) :: _ => last <? first' end && ordered rs
  end.
Definition table_ok (ranges : list Z) : bool :=
  (lenZ ranges =? 12 * lenZ (records ranges)) && ordered (records ranges).

Lemma records_ind (P : list Z → Prop) :
  (∀ l, (length l < 12)%nat → P l) →
  (∀ a0 a1 a2 a3 b0 b1 b2 b3 c0 c1 c2 c3 l, P l →
     P (a0 :: a1 :: a2 :: a3 :: b0 :: b1 :: b2 :: b3 :: c0 :: c1 :: c2 :: c3 :: l)) →
  ∀ l, P l.
Proof.
  intros H0 H1 l. remember (length l) as n eqn:Hn. revert l Hn.
  induction (lt_wf n) as [n _ IH]. intros l ->.
  do 12 (destruct l as [|? l]; [apply H0; simpl; lia|]). apply H1. eapply IH; [|done]. simpl. lia.
Qed.

Lemma lookupZ_skip {A} (xs l : list A) i k :
  lenZ xs = k → k ≤ i → (xs ++ l) !!z i = l !!z (i - k).
Proof. intros <- Hi. by apply lookupZ_app_r. Qed.

(** A record of the table, field by field. *)
Lemma records_value ranges i first last stride :
  records ranges !!z i = Some (first, last, stride) →
  unicodeRangeValue ranges (i * 12) = Some first ∧
  unicodeRangeValue ranges (i * 12 + 4) = Some last ∧
  unicodeRangeValue ranges (i * 12 + 8) = Some stride.
Proof.
  revert i. induction ranges as [l Hl|a0 a1 a2 a3 b0 b1 b2 b3 c0 c1 c2 c3 l IH] using records_ind; intros i Hi.
  - assert (records l = []) as E.
    { do 12 (destruct l as [|? l]; [done|]). simpl in Hl. lia. }
    rewrite E in Hi. apply lookupZ_lt_Some in Hi. autorewrite with lenZ in Hi. lia.
  - cbn [records] in Hi. destruct (decide (i = 0)) as [->|Hne].
    + rewrite lookupZ_cons_0 in Hi. injection Hi as <- <- <-. done.
    + pose proof (lookupZ_lt_Some _ _ _ Hi). replace i with (i - 1 + 1) in Hi by lia.
      rewrite lookupZ_cons_succ in Hi by lia. specialize (IH _ Hi).
      assert (∀ k, 0 ≤ k → unicodeRangeValue
        ([a0; a1; a2; a3; b0; b1; b2; b3; c0; c1; c2; c3] ++ l) (k + 12) = unicodeRangeValue l k) as Hshift.
      { intros k Hk. unfold unicodeRangeValue.
        rewrite !(lookupZ_skip [a0; a1; a2; a3; b0; b1; b2; b3; c0; c1; c2; c3] l _ 12) by (done || lia).
        by replace (k + 12 - 12) with k by lia; replace (k + 12 + 1 - 12) with (k + 1) by lia;
          replace (k + 12 + 2 - 12) with (k + 2) by lia; replace (k + 12 + 3 - 12) with (k + 3) by lia. }
      destruct IH as (H1 & H2 & H3). split_and!.
      * rewrite <- H1, <- Hshift by lia. f_equal. lia.
      * rewrite <- H2, <- Hshift by lia. f_equal. lia.
      * rewrite <- H3, <- Hshift by lia. f_equal. lia.
Qed.

Lemma ordered_lookup rs i first last stride :
  ordered rs = true → rs !!z i = Some (first, last, stride) → first ≤ last ∧ 0 < stride.
Proof.
  revert i. induction rs as [|[[f l] s] rs IH]; intros i H Hi; [by apply lookupZ_lt_Some in Hi; autorewrite with lenZ in Hi; lia|].
  cbn [ordered] in H. rewrite !andb_true_iff, Z.leb_le, Z.ltb_lt in H. destruct H as [[[? ?] _] H].
  destruct (decide (i = 0)) as [->|]; [rewrite lookupZ_cons_0 in Hi; by injection Hi as <- <- <-|].
  pose proof (lookupZ_lt_Some _ _ _ Hi). replace i with (i - 1 + 1) in Hi by lia.
  rewrite lookupZ_cons_succ in Hi by lia. by eapply IH.
Qed.

(** A range ends before every later one starts. *)
Lemma ordered_before rs i j f l s f' l' s' :
  ordered rs = true → rs !!z i = Some (f, l, s) → rs !!z j = Some (f', l', s') → i < j → l < f'.
Proof.
  revert i j f l s. induction rs as [|[[f0 l0] s0] rs IH]; intros i j f l s H Hi Hj Hij;
    [by apply lookupZ_lt_Some in Hi; autorewrite with lenZ in Hi; lia|].
  pose proof (lookupZ_lt_Some _ _ _ Hi) as Hib. cbn [ordered] in H.
  rewrite !andb_true_iff in H. destruct H as [[_ Hnext] H].
  replace j with (j - 1 + 1) in Hj by lia. rewrite lookupZ_cons_succ in Hj by lia.
  destruct (decide (i = 0)) as [->|].
  - rewrite lookupZ_cons_0 in Hi. injection Hi as <- <- <-.
    destruct rs as [|[[f1 l1] s1] rs]; [by apply lookupZ_lt_Some in Hj; autorewrite with lenZ in Hj; lia|].
    apply Z.ltb_lt in Hnext. destruct (decide (j - 1 = 0)) as [E|].
    + rewrite E, lookupZ_cons_0 in Hj. by injection Hj as <- <- <-.
    + pose proof (lookupZ_lt_Some _ _ _ Hj).
      pose proof (IH 0 (j - 1) f1 l1 s1 H (lookupZ_cons_0 _ _) Hj ltac:(lia)).
      cbn [ordered] in H. rewrite !andb_true_iff, Z.leb_le in H. lia.
  - replace i with (i - 1 + 1) in Hi by lia. rewrite lookupZ_cons_succ in Hi by lia.
    apply (IH (i - 1) (j - 1) f l s); [done..|lia].
Qed.

Lemma in_ranges_true value rs :
  in_ranges value rs = true ↔ ∃ i r, rs !!z i = Some r ∧ in_range value r = true.
Proof.
  unfold in_ranges. rewrite existsb_exists. split.
  - intros (r & Hin & Hr). apply list_elem_of_In, list_elem_of_lookup in Hin as [n Hn].
    exists (Z.of_nat n), r. by rewrite lookupZ_of_nat.
  - intros (i & r & Hi & Hr). exists r. split; [|done]. apply list_elem_of_In.
    pose proof (lookupZ_lt_Some _ _ _ Hi). rewrite lookupZ_to_nat in Hi by lia.
    by eapply list_elem_of_lookup_2.
Qed.

(** The search in a well-formed table decides membership in its ranges. *)
Lemma unicodeRangeContains_spec ranges value :
  table_ok ranges = true → unicodeRangeContains ranges value = Some (in_ranges value (records ranges)).
Proof.
  unfold table_ok. intros [Hlen%Z.eqb_eq Hord]%andb_true_iff. set (rs := records ranges) in *.
  set (n := lenZ rs) in *. unfold unicodeRangeContains. rewrite Hlen.
  replace (Z.quot (12 * n) 12) with n by (rewrite Z.mul_comm, Z.quot_mul; lia).
  set (p i := match rs !!z i with Some (_, last, _) => last <? value | None => false end).
  destruct (bisect_spec p (λ mid, last ← unicodeRangeValue ranges (mid * 12 + 4); Some (last <? value))
    n (length ranges) 0 n) as (k & -> & Hk & Hlo & Hhi).
  - intros i Hi. unfold p. destruct (lookupZ_lt_is_Some rs i Hi) as [[[f l] s] Hr]. rewrite Hr.
    by destruct (records_value ranges i f l s Hr) as (_ & -> & _).
  - intros i j Hij Hj. unfold p. destruct (decide (i = j)) as [->|]; [done|].
    destruct (lookupZ_lt_is_Some rs i) as [[[f l] s] Hr]; [unfold n in *; lia|].
    destruct (lookupZ_lt_is_Some rs j) as [[[f' l'] s'] Hr']; [unfold n in *; lia|]. rewrite Hr, Hr', !Z.ltb_lt.
    pose proof (ordered_before rs i j _ _ _ _ _ _ Hord Hr Hr' ltac:(lia)).
    pose proof (ordered_lookup rs j _ _ _ Hord Hr'). lia.
  - pose proof (lenZ_nonneg rs). unfold n. lia.
  - lia.
  - unfold lenZ at 1 in Hlen. lia.
  - lia.
  - lia.
  - cbn [mbind option_bind]. destruct (Z.leb_spec (12 * n) (k * 12)) as [Hout|Hin]; cbn [orO mbind option_bind].
    + f_equal. symmetry. apply not_true_iff_false. rewrite in_ranges_true. intros (i & [[f l] s] & Hi & Hr).
      pose proof (lookupZ_lt_Some _ _ _ Hi). specialize (Hlo i ltac:(unfold n in *; lia)). unfold p in Hlo.
      rewrite Hi, Z.ltb_lt in Hlo. unfold in_range in Hr. rewrite !andb_true_iff, Z.leb_le, Z.leb_le in Hr. lia.
    + destruct (lookupZ_lt_is_Some rs k) as [[[f l] s] Hr]; [unfold n in *; lia|].
      destruct (records_value ranges k f l s Hr) as (-> & _ & ->). cbn [mbind option_bind].
      pose proof (ordered_lookup rs k _ _ _ Hord Hr) as [Hfl Hs].
      pose proof (Hhi k ltac:(unfold n in *; lia)) as Hp. unfold p in Hp. rewrite Hr, Z.ltb_ge in Hp.
      assert (in_ranges value rs = in_range value (f, l, s)) as ->.
      { apply eq_true_iff_eq. rewrite in_ranges_true. split; [|by exists k, (f, l, s)].
        intros (i & [[f' l'] s'] & Hi & Hin').
        destruct (decide (i = k)) as [->|]; [congruence|]. exfalso. pose proof (lookupZ_lt_Some _ _ _ Hi).
        unfold in_range in Hin'. rewrite !andb_true_iff, Z.leb_le, Z.leb_le in Hin'.
        destruct (decide (i < k)).
        - specialize (Hlo i ltac:(lia)). unfold p in Hlo. rewrite Hi, Z.ltb_lt in Hlo. lia.
        - pose proof (ordered_before rs k i _ _ _ _ _ _ Hord Hr Hi ltac:(lia)). lia. }
      unfold in_range. destruct (Z.ltb_spec value f); [by rewrite (proj2 (Z.leb_gt f value))|].
      rewrite (proj2 (Z.leb_le f value)), (proj2 (Z.leb_le value l)) by lia. unfold remO.
      rewrite (proj2 (Z.eqb_neq s 0)) by lia. cbn [mbind option_bind andb].
      by rewrite Z.rem_mod_nonneg by lia.
Qed.

Lemma letters_ok : table_ok unicodeLetterRanges = true.
Proof. vm_compute. reflexivity. Qed.
Lemma digits_ok : table_ok unicodeDigitRanges = true.
Proof. vm_compute. reflexivity. Qed.
Lemma uppers_ok : table_ok unicodeUpperRanges = true.
Proof. vm_compute. reflexivity. Qed.

(** * Specification *)

Definition letters : list (Z * Z * Z) := records unicodeLetterRanges.
Definition digits : list (Z * Z * Z) := records unicodeDigitRanges.

(** Go's letters and the runes of an identifier behind its first letter. *)
Definition identStart (r : Z) : bool := (r =? 95) || in_ranges r letters.
Definition identPart (r : Z) : bool := identStart r || in_ranges r digits.

Definition utf8s (rs : list Z) : list Z := flat_map utf8 rs.

(** The next rune satisfies [P]. *)
Definition starts_with (P : Z → bool) (rest : list Z) : Prop :=
  ∃ r rest', scalar r ∧ P r = true ∧ rest = utf8 r ++ rest'.

Definition identifier (w : list Z) : Prop :=
  ∃ r rs, w = utf8s (r :: rs) ∧ Forall scalar (r :: rs) ∧ identStart r = true ∧
    Forall (λ r, identPart r = true) rs.

(** * Runes *)

Lemma utf8_prefix_free r r' a b :
  scalar r → scalar r' → utf8 r ++ a = utf8 r' ++ b → r = r' ∧ a = b.
Proof.
  intros Hr Hr' He.
  destruct (utf8_nonempty r) as (c & l & Hu). destruct (utf8_nonempty r') as (c' & l' & Hu').
  pose proof He as Hc. rewrite Hu, Hu' in Hc. simpl in Hc. injection Hc as Hcc _. subst c'.
  destruct (decide (r < 128)) as [H|H], (decide (r' < 128)) as [H'|H'].
  - rewrite utf8_ascii in Hu, He by (destruct Hr; lia). rewrite utf8_ascii in Hu', He by (destruct Hr'; lia).
    by injection He as -> ->.
  - pose proof (utf8_high r' Hr' ltac:(lia)) as Hh. rewrite Hu' in Hh. apply Forall_inv in Hh.
    rewrite utf8_ascii in Hu by (destruct Hr; lia). injection Hu as <- _. lia.
  - pose proof (utf8_high r Hr ltac:(lia)) as Hh. rewrite Hu in Hh. apply Forall_inv in Hh.
    rewrite utf8_ascii in Hu' by (destruct Hr'; lia). injection Hu' as <- _. lia.
  - destruct (decode_complete r Hr ltac:(lia)) as (c1 & n & v & m & bs & E & Hh & Hl & _ & Hv & _).
    destruct (decode_complete r' Hr' ltac:(lia)) as (c2 & n' & v' & m' & bs' & E' & Hh' & Hl' & _ & Hv' & _).
    rewrite E, E' in He. simpl in He. injection He as <- He. rewrite Hh in Hh'. injection Hh' as <- <- <-.
    apply app_inj_1 in He as [<- <-]; [|unfold lenZ in *; lia]. split; [congruence|done].
Qed.

(** [identifierRune] reads back an encoding. *)
Lemma runeTail_spec bs pre rest v i :
  Forall follows bs →
  runeTail (length bs) (pre ++ bs ++ rest) (lenZ pre - i) i v = Some (runeValue v bs).
Proof.
  intros Hb. revert pre v i. induction Hb as [|b bs Hb1 Hb IH]; intros pre v i; [done|].
  unfold follows in Hb1. cbn [runeTail length].
  replace (lenZ pre - i + i) with (lenZ pre) by lia. simpl app. rewrite at_head. simpl. rewrite land_63.
  rewrite (advance pre b). replace (lenZ pre - i) with (lenZ (pre ++ [b]) - (i + 1)) by (rewrite lenZ_snoc; lia).
  rewrite IH. unfold runeValue. simpl. do 2 f_equal. runes.
Qed.

Lemma identifierRune_utf8 pre r rest :
  scalar r → identifierRune (pre ++ utf8 r ++ rest) (lenZ pre) = Some (r, lenZ (utf8 r)).
Proof.
  intros Hr. unfold identifierRune. pose proof (lenZ_nonneg pre).
  destruct (utf8_nonempty r) as (c & bs & Hu). rewrite Hu. simpl app.
  rewrite (proj2 (Z.ltb_ge (lenZ pre) 0)) by lia.
  pose proof (inside pre c (bs ++ rest)) as Hin%Z.ltb_lt. rewrite (proj2 (Z.leb_gt _ _)) by lia.
  rewrite at_head. simpl. destruct (decide (r < 128)) as [H128|H128].
  - rewrite utf8_ascii in Hu by (destruct Hr; lia). injection Hu as <- <-.
    by rewrite (proj2 (Z.ltb_lt r 128)) by lia.
  - destruct (decode_complete r Hr ltac:(lia)) as (c' & n & v & m & bs' & E & Hh & Hl & Hfo & Hv & _).
    rewrite Hu in E. injection E as <- <-.
    pose proof (utf8_high r Hr ltac:(lia)) as Hhigh. rewrite Hu in Hhigh. apply Forall_inv in Hhigh.
    rewrite (proj2 (Z.ltb_ge c 128)) by lia.
    assert ((if 240 <=? c then (Z.land c 7, 4) else if 224 <=? c then (Z.land c 15, 3) else (Z.land c 31, 2)) = (v, n)) as ->.
    { unfold runeHeader in Hh. destruct (Z.leb_spec 194 c), (Z.leb_spec c 223), (Z.leb_spec 224 c),
        (Z.leb_spec c 239), (Z.leb_spec 240 c), (Z.leb_spec c 244); simpl in Hh; try done; try lia; congruence. }
    rewrite (proj2 (Z.ltb_ge _ _)) by (autorewrite with lenZ; pose proof (lenZ_nonneg rest); lia).
    replace (Z.to_nat (n - 1)) with (length bs) by (unfold lenZ in Hl; lia).
    rewrite (advance pre c). replace (lenZ pre) with (lenZ (pre ++ [c]) - 1) at 1 by (rewrite lenZ_snoc; lia).
    rewrite runeTail_spec by done. simpl. rewrite Hv. do 2 f_equal. rewrite lenZ_cons. lia.
Qed.

(** Beyond ASCII, the width is that of a rune of an identifier. *)
Lemma unicodeIdentifierWidth_utf8 pre r rest first :
  scalar r → 128 ≤ r →
  unicodeIdentifierWidth (pre ++ utf8 r ++ rest) (lenZ pre) first =
  Some (if (if first then identStart r else identPart r) then lenZ (utf8 r) else 0).
Proof.
  intros Hr H. unfold unicodeIdentifierWidth. rewrite identifierRune_utf8 by done. cbn [mbind option_bind].
  assert (0 < lenZ (utf8 r)) as Hpos.
  { destruct (utf8_nonempty r) as (c & l & ->). rewrite lenZ_cons. pose proof (lenZ_nonneg l). lia. }
  rewrite (proj2 (Z.eqb_neq _ _)) by lia.
  rewrite !unicodeRangeContains_spec by (apply letters_ok || apply digits_ok).
  unfold identPart, identStart, letters, digits. rewrite (proj2 (Z.eqb_neq r 95)) by lia.
  destruct (in_ranges r (records unicodeLetterRanges)), first; simpl; try done.
Qed.

(** * ASCII *)

Lemma ascii_part c : byte_ok c → isAsciiPart c = (c <? 128) && identPart c.
Proof. intros Hc. by_bytes c Hc. Qed.

(** Bytes above ASCII satisfy none of the scanner's byte tests. *)
Lemma letter_ascii c : byte_ok c → isLetter c || (c =? chr "_") = (c <? 128) && identStart c.
Proof. intros Hc. by_bytes c Hc. Qed.

(** * The loop *)

Lemma identRun_spec rest pre : identRun rest (lenZ pre) = lenZ (pre ++ takeWhile isAsciiPart rest).
Proof.
  revert pre. induction rest as [|c rest IH]; intros pre; simpl; [by rewrite app_nil_r|].
  destruct (isAsciiPart c); simpl; [|by rewrite app_nil_r]. rewrite <- (lenZ_snoc pre c), IH.
  by rewrite <- app_assoc.
Qed.

(** ASCII parts are runes. *)
Lemma ascii_parts w :
  bytes_ok w → Forall (λ c, isAsciiPart c = true) w →
  utf8s w = w ∧ Forall scalar w ∧ Forall (λ r, identPart r = true) w ∧ Forall ascii w.
Proof.
  intros Hb Hw. induction Hw as [|c w Hc Hw IH]; [by split_and!|].
  apply Forall_cons in Hb as [Hbc Hb]. destruct (IH Hb) as (H1 & H2 & H3 & H4).
  pose proof Hc as Hc'. rewrite ascii_part in Hc' by done.
  apply andb_true_iff in Hc' as [Hlt%Z.ltb_lt Hp]. unfold byte_ok in Hbc.
  assert (c ≠ 0) as H0 by (intros ->; by vm_compute in Hc).
  split_and!.
  - simpl. rewrite utf8_ascii by lia. simpl. by rewrite H1.
  - constructor; [unfold scalar; lia|done].
  - by constructor.
  - constructor; [|done]. unfold stops. apply orb_false_iff. split; [by apply Z.eqb_neq|apply Z.leb_gt; lia].
Qed.

Lemma starts_with_head P c rest :
  byte_ok c → c < 128 → starts_with P (c :: rest) → P c = true.
Proof.
  intros Hb Hc (r & rest' & Hr & HP & He). destruct (decide (r < 128)).
  - rewrite utf8_ascii in He by (destruct Hr; lia). by injection He as -> ->.
  - pose proof (utf8_high r Hr ltac:(lia)) as Hh. destruct (utf8_nonempty r) as (c' & l & Hu).
    rewrite Hu in He, Hh. injection He as -> _. apply Forall_inv in Hh. lia.
Qed.

Lemma not_starts_nil P : ¬ starts_with P [].
Proof.
  intros (r & rest' & _ & _ & He). destruct (utf8_nonempty r) as (c & l & Hu). by rewrite Hu in He.
Qed.

Lemma wide_head first c rest :
  128 ≤ c → source_text first (c :: rest) →
  ∃ r rest', 128 ≤ r ∧ scalar r ∧ c :: rest = utf8 r ++ rest' ∧ source_text false rest'.
Proof.
  intros Hc (r & bs & rest' & Hr & Hs & _ & Hu & -> & Hst)%source_text_wide.
  - exists r, rest'. split_and!; [done..| |done]. by rewrite Hu.
  - unfold stops. apply orb_true_iff. right. by apply Z.leb_le.
Qed.

Lemma identEnd_spec fuel pre rest :
  bytes_ok rest → source_text false rest → (length rest ≤ fuel)%nat →
  ∃ rs rest', rest = utf8s rs ++ rest' ∧ Forall scalar rs ∧ Forall (λ r, identPart r = true) rs ∧
    ¬ starts_with identPart rest' ∧ source_text false rest' ∧
    identEnd fuel (pre ++ rest) (lenZ pre) = Some (lenZ (pre ++ utf8s rs)).
Proof.
  revert pre rest. induction fuel as [|fuel IH]; intros pre rest Hb Hst Hf.
  { destruct rest; [|simpl in Hf; lia]. exists [], []. simpl. rewrite outside, app_nil_r.
    split_and!; [done..|apply not_starts_nil|done|done]. }
  destruct rest as [|c0 rest0].
  { exists [], []. simpl. rewrite outside, app_nil_r. split_and!; [done..|apply not_starts_nil|done|done]. }
  cbn [identEnd]. rewrite inside, from_here. cbn [mbind option_bind]. rewrite identRun_spec.
  set (rest := c0 :: rest0) in *. set (w := takeWhile isAsciiPart rest).
  pose proof (takeWhile_dropWhile isAsciiPart rest) as Hsplit. fold w in Hsplit.
  pose proof (dropWhile_head isAsciiPart rest) as Hhead.
  set (rest1 := dropWhile isAsciiPart rest) in *. clearbody rest1. rewrite <- Hsplit in Hb, Hst, Hf |- *.
  apply Forall_app in Hb as [Hbw Hb]. rewrite length_app in Hf.
  destruct (ascii_parts w Hbw (takeWhile_all _ _)) as (Hw & Hsc & Hpart & Hasc).
  rewrite source_text_run in Hst by done. rewrite andb_false_r in Hst. rewrite app_assoc.
  rewrite guarded_head. cbn [mbind option_bind].
  assert (∀ rest', ¬ starts_with identPart rest' → rest' = rest1 →
    ∃ rs rest'', (w ++ rest1) = utf8s rs ++ rest'' ∧ Forall scalar rs ∧ Forall (λ r, identPart r = true) rs ∧
      ¬ starts_with identPart rest'' ∧ source_text false rest'' ∧ Some (lenZ (pre ++ w)) = Some (lenZ (pre ++ utf8s rs)))
    as Hstop.
  { intros rest' Hns ->. exists w, rest1. by rewrite Hw. }
  destruct rest1 as [|c rest1]; [by apply (Hstop [] (not_starts_nil _))|].
  apply Forall_cons in Hb as [Hbc Hb]. destruct (Z.leb_spec 128 c) as [Hc|Hc].
  2: { apply (Hstop (c :: rest1)); [|done]. intros Hs%starts_with_head; [|done..].
       rewrite ascii_part, (proj2 (Z.ltb_lt c 128)) in Hhead by done. simpl in Hhead. congruence. }
  destruct (wide_head false c rest1 Hc Hst) as (r & rest2 & Hr & Hs & He & Hst2). rewrite He.
  rewrite unicodeIdentifierWidth_utf8 by done. cbn [mbind option_bind].
  destruct (identPart r) eqn:Hp.
  - assert (0 < lenZ (utf8 r)) as Hpos.
    { destruct (utf8_nonempty r) as (c' & l & ->). rewrite lenZ_cons. pose proof (lenZ_nonneg l). lia. }
    rewrite (proj2 (Z.eqb_neq _ _)) by lia. rewrite <- lenZ_app.
    replace ((pre ++ w) ++ utf8 r ++ rest2) with (((pre ++ w) ++ utf8 r) ++ rest2) by (by rewrite <- !app_assoc).
    assert (length rest1 ≥ length rest2)%nat.
    { apply (f_equal length) in He. rewrite length_app in He. simpl in He. unfold lenZ in Hpos. lia. }
    destruct (IH ((pre ++ w) ++ utf8 r) rest2) as (rs & rest' & -> & H1 & H2 & H3 & H4 & ->).
    + assert (bytes_ok (c :: rest1)) as Hb' by (by constructor). rewrite He in Hb'. by apply Forall_app in Hb' as [_ ?].
    + done.
    + simpl in Hf. lia.
    + exists (w ++ r :: rs), rest'. unfold utf8s in *. rewrite flat_map_app. simpl. rewrite Hw.
      split_and!; [by rewrite <- !app_assoc|by apply Forall_app; split; [|constructor]..|done|done|].
      by rewrite <- !app_assoc.
  - change (0 =? 0) with true. cbv iota. rewrite <- He. apply (Hstop (c :: rest1)); [|done].
    intros (r' & rest' & Hs' & Hp' & He'). rewrite He in He'.
    destruct (utf8_prefix_free r r' rest2 rest' Hs Hs' He') as [-> _]. congruence.
Qed.
