(* ===== verification/SyntaxGrammar.v ===== *)
(** The lexical grammar of Go source, as the scanner implements it: which texts are
    literals, identifiers, comments and operators, and what a source is made of. *)

From Stdlib Require Import String Ascii.
From S2P Require Import Prelude.
From S2P Require Import GoInt.
From S2P Require Import SyntaxToken.
From S2P Require Import SyntaxLiteral.
From S2P Require Import SyntaxScan.
From S2P Require Import SyntaxBytes.
From S2P Require Import SyntaxRunes.
From S2P Require Import SyntaxIdent.

(** * Escapes, strings and runes *)

(** The value of digits in a base. *)
Definition numeral (base : Z) (ds : list Z) (v : Z) : Prop :=
  ∃ xs, Forall2 (λ c x, hexValue c = Some x ∧ x < base) ds xs ∧ v = foldl (λ v x, v * base + x) 0 xs.

Inductive escape : list Z → Z → bool → Prop :=
| esc_simple c v : (c, v) ∈ simpleEscapes → escape [chr "\"; c] v false
| esc_hex ds v : length ds = 2%nat → numeral 16 ds v → escape (chr "\" :: chr "x" :: ds) v false
| esc_octal ds v : length ds = 3%nat → numeral 8 ds v → v ≤ 255 → escape (chr "\" :: ds) v false
| esc_short ds v : length ds = 4%nat → numeral 16 ds v → scalar v →
    escape (chr "\" :: chr "u" :: ds) v true
| esc_long ds v : length ds = 8%nat → numeral 16 ds v → scalar v →
    escape (chr "\" :: chr "U" :: ds) v true.

(** The text between double quotes and the bytes it stands for. *)
Inductive string_body : list Z → list Z → Prop :=
| sb_nil : string_body [] []
| sb_byte c w out :
    c ≠ quote → c ≠ chr "\" → c ≠ newline → string_body w out → string_body (c :: w) (c :: out)
| sb_escape e v unicode w out :
    escape e v unicode → string_body w out →
    string_body (e ++ w) ((if unicode then utf8 v else [v]) ++ out).

(** The text between single quotes and its value. *)
Inductive rune_body : list Z → Z → Prop :=
| rb_quote : rune_body [chr "\"; chr "'"] (chr "'")
| rb_escape e v unicode : escape e v unicode → e ≠ [chr "\"; quote] → rune_body e v
| rb_rune r :
    scalar r → r ≠ 0 → r ≠ newline → r ≠ chr "'" → r ≠ chr "\" → rune_body (utf8 r) r.

(** * Numbers *)

(** Digits of a base, with single underscores between them. *)
Inductive digits_of (base : Z) : list Z → Prop :=
| do_one c x : hexValue c = Some x → x < base → digits_of base [c]
| do_next c x w : hexValue c = Some x → x < base → digits_of base w → digits_of base (c :: w)
| do_under c x w : hexValue c = Some x → x < base → digits_of base w →
    digits_of base (c :: chr "_" :: w).

Definition opt_digits (base : Z) (w : list Z) : Prop := w = [] ∨ digits_of base w.

(** The letters of a base prefix. *)
Definition prefix_base (c : Z) (base : Z) : Prop :=
  (c = chr "x" ∨ c = chr "X") ∧ base = 16 ∨ (c = chr "b" ∨ c = chr "B") ∧ base = 2 ∨
  (c = chr "o" ∨ c = chr "O") ∧ base = 8.

Definition exponent_of (marks : list Z) (w : list Z) : Prop :=
  ∃ m sign ds, m ∈ marks ∧ (sign = [] ∨ sign = [chr "+"] ∨ sign = [chr "-"]) ∧ digits_of 10 ds ∧
    w = m :: sign ++ ds.

(** An underscore may follow a base prefix. *)
Definition opt_under (w : list Z) : Prop := w = [] ∨ w = [chr "_"].

(** Numbers but for the suffix [i]: prefixed integers, hexadecimal floats, decimal
    numbers with or without a fraction and an exponent. *)
Inductive number_body : bool → list Z → Prop :=
| nb_prefixed imaginary c base u ds :
    prefix_base c base → opt_under u → digits_of base ds →
    number_body imaginary (chr "0" :: c :: u ++ ds)
| nb_hex_exponent imaginary c u ds e :
    prefix_base c 16 → opt_under u → digits_of 16 ds → exponent_of [chr "p"; chr "P"] e →
    number_body imaginary (chr "0" :: c :: u ++ ds ++ e)
| nb_hex_fraction imaginary c u whole part e :
    prefix_base c 16 → opt_under u → opt_digits 16 whole → opt_digits 16 part → whole ++ part ≠ [] →
    (whole = [] → u = []) → exponent_of [chr "p"; chr "P"] e →
    number_body imaginary (chr "0" :: c :: u ++ whole ++ chr "." :: part ++ e)
| nb_integer imaginary ds :
    digits_of 10 ds → (imaginary = false → head ds = Some (chr "0") → digits_of 8 ds) →
    number_body imaginary ds
| nb_exponent imaginary ds e :
    digits_of 10 ds → exponent_of [chr "e"; chr "E"] e → number_body imaginary (ds ++ e)
| nb_fraction imaginary whole part e :
    opt_digits 10 whole → opt_digits 10 part → whole ++ part ≠ [] →
    (e = [] ∨ exponent_of [chr "e"; chr "E"] e) →
    number_body imaginary (whole ++ chr "." :: part ++ e).

Definition number (w : list Z) : Prop :=
  number_body false w ∨ ∃ w', w = w' ++ [chr "i"] ∧ number_body true w'.

(** * Words and operators *)

(** The keywords, by length. *)
Definition keywords : list (list Z * Z) :=
  [(text "if", TokenIf); (text "go", TokenGo);
   (text "var", TokenVar); (text "for", TokenFor); (text "map", TokenMap);
   (text "type", TokenType); (text "func", TokenFunc); (text "else", TokenElse);
   (text "goto", TokenGoto); (text "case", TokenCase); (text "chan", TokenChan);
   (text "const", TokenConst); (text "break", TokenBreak); (text "range", TokenRange);
   (text "defer", TokenDefer);
   (text "struct", TokenStruct); (text "return", TokenReturn); (text "switch", TokenSwitch);
   (text "import", TokenImport); (text "select", TokenSelect);
   (text "package", TokenPackage); (text "default", TokenDefault);
   (text "continue", TokenContinue); (text "interface", TokenInterface);
   (text "fallthrough", TokenFallthrough)].

(** The kind of a word: that of the keyword it is, or an identifier. *)
Fixpoint word_kind (table : list (list Z * Z)) (w : list Z) : Z :=
  match table with
  | [] => TokenIdent
  | (word, kind) :: table => if decide (w = word) then kind else word_kind table w
  end.

Definition operators3 : list (list Z) := [text "..."; text "<<="; text ">>="; text "&^="].
Definition operators2 : list (list Z) :=
  [text ":="; text "=="; text "!="; text "<="; text ">="; text "+="; text "-="; text "*="; text "/=";
   text "%="; text "&="; text "|="; text "^="; text "&&"; text "&^"; text "||"; text "<<"; text "<-";
   text ">>"; text "++"; text "--"].

(** The longest operator that a text starts with: one of three bytes, of two, or its
    first byte. *)
Definition operator_length (l : list Z) : Z :=
  if decide (take 3 l ∈ operators3) then 3 else if decide (take 2 l ∈ operators2) then 2 else 1.

(** * Sources *)

Definition newlines (w : list Z) : Z := lenZ (filter (λ c, c = newline) w).

Definition blank (c : Z) : Prop := c = 32 ∨ c = 9 ∨ c = 13 ∨ c = newline.

(** [w] does not contain the end of a block comment, also not with what follows. *)
Fixpoint closes_first (w : list Z) : Prop :=
  match w with
  | [] => True
  | c :: w => ¬ (c = chr "*" ∧ head w = Some (chr "/")) ∧ closes_first w
  end.

(** What is skipped, by what follows it. *)
Inductive trivia : list Z → list Z → Prop :=
| tv_blank w rest : w ≠ [] → Forall blank w → trivia w rest
| tv_line w rest :
    newline ∉ w → (rest = [] ∨ head rest = Some newline) → trivia (chr "/" :: chr "/" :: w) rest
| tv_block w rest : closes_first (w ++ [chr "*"]) → trivia (chr "/" :: chr "*" :: w ++ [chr "*"; chr "/"]) rest.

Definition decimal (c : Z) : Prop := chr "0" ≤ c ≤ chr "9".

(** The text starts neither with white space nor with a comment, a word, a number or
    quoted text. *)
Definition operator_start (l : list Z) : Prop :=
  match l with
  | [] => False
  | c :: rest =>
      c < 128 ∧ ¬ blank c ∧ identStart c = false ∧ ¬ decimal c ∧ c ≠ quote ∧ c ≠ chr "`" ∧ c ≠ chr "'" ∧
      (c = chr "/" → head rest ≠ Some (chr "/") ∧ head rest ≠ Some (chr "*")) ∧
      (c = chr "." → ∀ d, head rest = Some d → ¬ decimal d)
  end.

(** The kinds of the lexemes, by what follows them. *)
Inductive lexeme : Z → list Z → list Z → Prop :=
| lx_word w rest :
    identifier w → ¬ starts_with identPart rest → lexeme (word_kind keywords w) w rest
| lx_number w rest : number w → lenZ w ≤ 10000 → lexeme TokenNumber w rest
| lx_string w out rest : string_body w out → lexeme TokenString (quote :: w ++ [quote]) rest
| lx_raw w rest : chr "`" ∉ w → lexeme TokenString (chr "`" :: w ++ [chr "`"]) rest
| lx_char w v rest : rune_body w v → lexeme TokenChar (chr "'" :: w ++ [chr "'"]) rest
| lx_operator w rest :
    operator_start (w ++ rest) → lenZ w = operator_length (w ++ rest) →
    lexeme TokenOperator w rest.

(** The packed word of a token: an operator of one byte keeps the byte. *)
Definition token_word (kind line : Z) (w : list Z) : Z :=
  match w with
  | [c] => if kind =? TokenOperator then Z.lor (kindLine kind line) (Z.shiftl c TokenOperatorCharShift)
           else kindLine kind line
  | _ => kindLine kind line
  end.

(** The tokens of a text that starts at position [pos] on line [line], and its last line. *)
Inductive lex : Z → Z → list Z → list Token → Z → Prop :=
| lex_end pos line : lex pos line [] [] line
| lex_trivia pos line w rest tokens last :
    trivia w rest → lex (pos + lenZ w) (line + newlines w) rest tokens last →
    lex pos line (w ++ rest) tokens last
| lex_token pos line kind w rest tokens last :
    lexeme kind w rest → lex (pos + lenZ w) (line + newlines w) rest tokens last →
    lex pos line (w ++ rest) (MkToken (token_word kind line w) pos (pos + lenZ w) :: tokens) last.
