(* ===== verification/SyntaxStrings.v ===== *)
(** Escapes: [stringEscapeValue] reads exactly the escapes of the grammar.

    String literals: the scanner ends them where the grammar does, their values are the
    decoded bodies, and the canonical spelling of a value decodes to it.

    Rune literals: [RuneLiteralValue] accepts exactly the bodies of the grammar, with
    their values. *)

From Stdlib Require Import String Ascii.
From S2P Require Import Prelude.
From S2P Require Import GoInt.
From S2P Require Import SyntaxToken.
From S2P Require Import SyntaxUnicode.
From S2P Require Import SyntaxEncoding.
From S2P Require Import SyntaxLiteral.
From S2P Require Import SyntaxScan.
From S2P Require Import SyntaxBytes.
From S2P Require Import SyntaxRunes.
From S2P Require Import SyntaxIdent.
From S2P Require Import SyntaxGrammar.

(** * Digits *)

Lemma hexValue_range c x : hexValue c = Some x → 0 ≤ x < 16.
Proof.
  unfold hexValue. change (chr "0") with 48. change (chr "9") with 57. change (chr "a") with 97.
  change (chr "f") with 102. change (chr "A") with 65. change (chr "F") with 70.
  repeat case_match; intros [= <-]; repeat match goal with
    | H : _ && _ = true |- _ => apply andb_true_iff in H as [?%Z.leb_le ?%Z.leb_le] end; lia.
Qed.

Lemma isHexByte_value c : byte_ok c → isHexByte c = bool_decide (is_Some (hexValue c)).
Proof. intros Hc. by_bytes c Hc. Qed.

Lemma hexNibble_value c x : byte_ok c → hexValue c = Some x → hexNibble c = x.
Proof.
  intros Hc Hx. apply Z.eqb_eq.
  assert (match hexValue c with Some x => hexNibble c =? x | None => true end = true) as H by (by_bytes c Hc).
  by rewrite Hx in H.
Qed.

(** The loop over digits, on the digits. *)
Fixpoint foldDigits (ds : list Z) (base limit value : Z) : option Z :=
  match ds with
  | [] => Some value
  | c :: ds =>
      match hexValue c with
      | None => None
      | Some digit =>
          if base <=? digit then None
          else if Z.quot (limit - digit) base <? value then None
          else foldDigits ds base limit (value * base + digit)
      end
  end.

Lemma escapeDigits_spec ds pre post base limit value :
  escapeDigits (length ds) (pre ++ ds ++ post) (lenZ pre) base limit value =
  Some (foldDigits ds base limit value).
Proof.
  revert pre value. induction ds as [|c ds IH]; intros pre value; [done|].
  simpl. rewrite at_head. simpl. destruct (hexValue c) as [digit|]; [|done].
  destruct (base <=? digit); [done|]. destruct (_ <? value); [done|]. step_in. apply IH.
Qed.

(** The value only grows, so the checks on the way amount to one at the end. *)
Lemma foldDigits_spec ds base limit value v :
  16 ≤ limit → 0 < base → 0 ≤ value ≤ limit →
  foldDigits ds base limit value = Some v ↔
  ∃ xs, Forall2 (λ c x, hexValue c = Some x ∧ x < base) ds xs ∧
    v = foldl (λ v x, v * base + x) value xs ∧ v ≤ limit.
Proof.
  intros Hlimit Hbase. revert value. induction ds as [|c ds IH]; intros value Hv; simpl.
  - split.
    + intros [= ->]. exists []. split_and!; [constructor|done|lia].
    + intros (xs & Hf & -> & _). by inversion Hf.
  - assert (∀ xs w, Forall2 (λ c x, hexValue c = Some x ∧ x < base) ds xs → 0 ≤ w →
      w ≤ foldl (λ v x, v * base + x) w xs) as Hgrow.
    { clear IH Hv. intros xs w Hf. revert w. induction Hf as [|c' x ds xs [Hx _] Hf IH]; intros w Hw; simpl; [lia|].
      apply hexValue_range in Hx. specialize (IH (w * base + x)). nia. }
    destruct (hexValue c) as [digit|] eqn:Hc; [|split; [done|]; intros (xs & Hf & _); inversion Hf; subst; naive_solver].
    pose proof (hexValue_range c digit Hc).
    destruct (Z.leb_spec base digit).
    { split; [done|]. intros (xs & Hf & _). inversion Hf as [|? x ? ? [Hx ?]]; subst. rewrite Hc in Hx. injection Hx as <-. lia. }
    rewrite Z.quot_div_nonneg by lia. destruct (Z.ltb_spec ((limit - digit) `div` base) value) as [Hq|Hq].
    + split; [done|]. intros (xs & Hf & -> & Hle). inversion Hf as [|? x ? xs' [Hx ?] Hf']; subst.
      rewrite Hc in Hx. injection Hx as <-. simpl in Hle.
      specialize (Hgrow xs' (value * base + digit) Hf' ltac:(nia)).
      assert (limit - digit < value * base) by (Z.div_mod_to_equations; nia). lia.
    + assert (value * base ≤ limit - digit) by (Z.div_mod_to_equations; nia).
      rewrite IH by nia. split.
      * intros (xs & Hf & -> & Hle). exists (digit :: xs). split_and!; [by constructor|done|done].
      * intros (xs & Hf & -> & Hle). inversion Hf as [|? x ? xs' [Hx ?] Hf']; subst.
        rewrite Hc in Hx. injection Hx as <-. by exists xs'.
Qed.

Lemma foldDigits_numeral ds base limit v :
  16 ≤ limit → 0 < base → foldDigits ds base limit 0 = Some v ↔ numeral base ds v ∧ v ≤ limit.
Proof.
  intros H1 H2. rewrite foldDigits_spec by lia. unfold numeral. naive_solver.
Qed.

Lemma numeral_nonneg base ds v : 0 < base → numeral base ds v → 0 ≤ v.
Proof.
  intros Hb (xs & Hf & ->). assert (∀ w, 0 ≤ w → 0 ≤ foldl (λ v x, v * base + x) w xs) as H; [|by apply H].
  induction Hf as [|c x ds xs [Hx _] Hf IH]; intros w Hw; simpl; [done|].
  apply IH. apply hexValue_range in Hx. nia.
Qed.

(** * The function on the text behind the backslash *)

(** [part] is what follows the backslash; the answer has the length of the escape. *)
Definition escapeAt (part : list Z) : option (Z * Z * bool) :=
  match part with
  | [] => None
  | esc :: ds =>
      if esc =? chr "x" then
        match ds with
        | a :: b :: _ =>
            if isHexByte a && isHexByte b then Some (4, hexNibble a * 16 + hexNibble b, false) else None
        | _ => None
        end
      else
        match simpleEscape simpleEscapes esc with
        | Some value => Some (2, value, false)
        | None =>
            match escapeForm esc 0 with
            | None => None
            | Some (digits, base, unicode, start) =>
                let ds := drop (Z.to_nat (start - 1)) part in
                if lenZ ds <? digits then None
                else
                  match foldDigits (take (Z.to_nat digits) ds) base (if unicode then 1114111 else 255) 0 with
                  | None => None
                  | Some value =>
                      if unicode && (55296 <=? value) && (value <=? 57343) then None
                      else Some (start + digits, value, unicode)
                  end
            end
        end
  end.

Lemma escapeForm_slash esc slash :
  escapeForm esc slash =
  (λ '(digits, base, unicode, start), (digits, base, unicode, slash + start)) <$> escapeForm esc 0.
Proof.
  unfold escapeForm. repeat case_match; simpl; done.
Qed.

Lemma escapeForm_spec esc digits base unicode start :
  escapeForm esc 0 = Some (digits, base, unicode, start) →
  (digits = 4 ∧ base = 16 ∧ unicode = true ∧ start = 2 ∧ esc = chr "u") ∨
  (digits = 8 ∧ base = 16 ∧ unicode = true ∧ start = 2 ∧ esc = chr "U") ∨
  (digits = 3 ∧ base = 8 ∧ unicode = false ∧ start = 1 ∧ chr "0" ≤ esc ≤ chr "7").
Proof.
  unfold escapeForm. destruct (Z.eqb_spec esc (chr "u")); [intros [= <- <- <- <-]; by left|].
  destruct (Z.eqb_spec esc (chr "U")); [intros [= <- <- <- <-]; right; by left|].
  destruct ((chr "0" <=? esc) && (esc <=? chr "7")) eqn:E; [|done].
  apply andb_true_iff in E as [?%Z.leb_le ?%Z.leb_le]. intros [= <- <- <- <-]. by right; right.
Qed.

Lemma stringEscapeValue_spec pre part post :
  bytes_ok part →
  stringEscapeValue (pre ++ chr "\" :: part ++ post) (lenZ pre) (lenZ (pre ++ chr "\" :: part)) =
  Some ((λ '(n, v, u), (lenZ pre + n, v, u)) <$> escapeAt part).
Proof.
  intros Hb. unfold stringEscapeValue. pose proof (lenZ_nonneg pre). pose proof (lenZ_nonneg post).
  rewrite (proj2 (Z.ltb_ge (lenZ pre) 0)) by lia.
  assert (lenZ (pre ++ chr "\" :: part) = lenZ pre + 1 + lenZ part) as Hend by (autorewrite with lenZ; lia).
  assert (lenZ (pre ++ chr "\" :: part ++ post) = lenZ pre + 1 + lenZ part + lenZ post) as Hlen
    by (autorewrite with lenZ; lia).
  rewrite (proj2 (Z.ltb_ge _ (lenZ (pre ++ chr "\" :: part)))) by lia. rewrite orb_false_r. simpl orb.
  destruct part as [|esc ds]; [by rewrite (proj2 (Z.leb_le _ _)) by (rewrite Hend, lenZ_nil; lia)|].
  rewrite (proj2 (Z.leb_gt _ _)) by (rewrite Hend, lenZ_cons; pose proof (lenZ_nonneg ds); lia).
  rewrite (at_offset pre _ 1) by lia. change ((chr "\" :: (esc :: ds) ++ post) !!z 1) with (Some esc).
  cbn [mbind option_bind escapeAt]. apply Forall_cons in Hb as [Hbe Hb].
  destruct (Z.eqb_spec esc (chr "x")) as [->|Hx].
  { rewrite Hend, lenZ_cons. destruct ds as [|a [|b ds]]; autorewrite with lenZ.
    - rewrite (proj2 (Z.ltb_lt _ _)) by lia. reflexivity.
    - rewrite (proj2 (Z.ltb_lt _ _)) by lia. reflexivity.
    - rewrite (proj2 (Z.ltb_ge _ _)) by (pose proof (lenZ_nonneg ds); lia). rewrite !at_offset by lia.
      change ((chr "\" :: (chr "x" :: a :: b :: ds) ++ post) !!z 2) with (Some a).
      change ((chr "\" :: (chr "x" :: a :: b :: ds) ++ post) !!z 3) with (Some b). cbn [mbind option_bind].
      destruct (isHexByte a), (isHexByte b); reflexivity. }
  destruct (simpleEscape simpleEscapes esc) as [v|]; [done|].
  rewrite escapeForm_slash. destruct (escapeForm esc 0) as [[[[digits base] unicode] start]|] eqn:Hform; [|done].
  cbn [fmap option_fmap option_map].
  assert (0 ≤ digits ∧ 1 ≤ start ≤ 2 ∧ 0 < base) as (Hd & Hs & Hbase).
  { destruct (escapeForm_spec _ _ _ _ _ Hform) as [(-> & -> & _ & -> & _)|[(-> & -> & _ & -> & _)|(-> & -> & _ & -> & _)]]; lia. }
  set (part := esc :: ds) in *.
  assert (1 ≤ lenZ part) as Hp by (unfold part; rewrite lenZ_cons; pose proof (lenZ_nonneg ds); lia).
  assert (lenZ (drop (Z.to_nat (start - 1)) part) = lenZ part - (start - 1)) as Hdl.
  { unfold lenZ in *. rewrite length_drop. lia. }
  rewrite Hdl, Hend. replace (lenZ part - (start - 1) <? digits) with (lenZ pre + 1 + lenZ part <? lenZ pre + start + digits).
  2: { destruct (Z.ltb_spec (lenZ pre + 1 + lenZ part) (lenZ pre + start + digits)); symmetry;
       [apply Z.ltb_lt|apply Z.ltb_ge]; lia. }
  destruct (Z.ltb_spec (lenZ pre + 1 + lenZ part) (lenZ pre + start + digits)) as [|Hroom]; [done|].
  set (skip := take (Z.to_nat (start - 1)) part). set (rest := drop (Z.to_nat (start - 1)) part) in *.
  set (num := take (Z.to_nat digits) rest).
  assert (pre ++ chr "\" :: part ++ post = (pre ++ chr "\" :: skip) ++ num ++ drop (Z.to_nat digits) rest ++ post) as ->.
  { rewrite <- (take_drop (Z.to_nat (start - 1)) part) at 1. fold skip rest.
    rewrite <- (take_drop (Z.to_nat digits) rest) at 1. fold num. rewrite <- !app_assoc. simpl. by rewrite <- ?app_assoc. }
  replace (lenZ pre + start) with (lenZ (pre ++ chr "\" :: skip)).
  2: { autorewrite with lenZ. unfold skip, lenZ in *. rewrite length_take. lia. }
  replace (Z.to_nat digits) with (length num) by (unfold num, lenZ in *; rewrite length_take; lia).
  rewrite escapeDigits_spec. cbn [mbind option_bind]. fold num.
  destruct (foldDigits num base (if unicode then 1114111 else 255) 0) as [v|] eqn:Hfold; [|done].
  rewrite foldDigits_numeral in Hfold by (destruct unicode; lia). destruct Hfold as [_ Hv].
  destruct unicode; simpl.
  - rewrite (proj2 (Z.ltb_ge 1114111 v)) by lia. rewrite orb_false_r. simpl.
    destruct ((55296 <=? v) && (v <=? 57343)); [done|]. simpl. do 4 f_equal.
    autorewrite with lenZ. unfold skip, lenZ in *. rewrite length_take. lia.
  - rewrite (proj2 (Z.ltb_ge 255 v)) by lia. simpl. do 4 f_equal.
    autorewrite with lenZ. unfold skip, lenZ in *. rewrite length_take. lia.
Qed.

(** * Exactly the escapes of the grammar *)

Lemma simpleEscape_spec esc v : simpleEscape simpleEscapes esc = Some v ↔ (esc, v) ∈ simpleEscapes.
Proof.
  split.
  - generalize simpleEscapes. intros table. induction table as [|[c w] table IH]; simpl; [done|].
    destruct (Z.eqb_spec esc c) as [->|]; [intros [= ->]; by left|]. intros ?. right. by apply IH.
  - unfold simpleEscapes. rewrite !elem_of_cons, elem_of_nil. intros H.
    decompose [or] H; clear H; try done; by match goal with H : _ = _ |- _ => injection H as -> -> end.
Qed.

(** The letters of the escapes with digits are not simple escapes. *)
Lemma simple_other c :
  c = chr "x" ∨ c = chr "u" ∨ c = chr "U" ∨ chr "0" ≤ c ≤ chr "7" → simpleEscape simpleEscapes c = None.
Proof.
  intros H. destruct (simpleEscape simpleEscapes c) eqn:E; [|done]. exfalso.
  apply simpleEscape_spec in E. unfold simpleEscapes in E. rewrite !elem_of_cons, elem_of_nil in E.
  change (chr "0") with 48 in H. change (chr "7") with 55 in H. change (chr "x") with 120 in H.
  change (chr "u") with 117 in H. change (chr "U") with 85 in H.
  decompose [or] E; clear E; try done;
    match goal with E : (c, _) = _ |- _ => apply (f_equal fst) in E; vm_compute in E; lia end.
Qed.

Lemma hexValue_octal c x : hexValue c = Some x → x < 8 → chr "0" ≤ c ≤ chr "7".
Proof.
  unfold hexValue. change (chr "0") with 48. change (chr "9") with 57. change (chr "a") with 97.
  change (chr "f") with 102. change (chr "A") with 65. change (chr "F") with 70. change (chr "7") with 55.
  repeat case_match; intros [= <-]; repeat match goal with
    | H : _ && _ = true |- _ => apply andb_true_iff in H as [?%Z.leb_le ?%Z.leb_le] end; lia.
Qed.

Lemma numeral_cons base c ds v :
  numeral base (c :: ds) v → ∃ x, hexValue c = Some x ∧ x < base.
Proof. intros (xs & Hf & _). inversion Hf as [|? x ? ? [? ?]]; subst. by exists x. Qed.

Lemma numeral_two a b v :
  numeral 16 [a; b] v ↔ ∃ x y, hexValue a = Some x ∧ hexValue b = Some y ∧ v = x * 16 + y.
Proof.
  split.
  - intros (xs & Hf & ->). inversion Hf as [|? x ? ? [Hx ?] Hf']; subst.
    inversion Hf' as [|? y ? ? [Hy ?] Hf'']; subst. inversion Hf''; subst. exists x, y. split_and!; [done..|]. simpl. lia.
  - intros (x & y & Hx & Hy & ->). pose proof (hexValue_range _ _ Hx). pose proof (hexValue_range _ _ Hy).
    exists [x; y]. split; [|simpl; lia]. repeat constructor; try done; lia.
Qed.

(** The escapes with digits after a letter or none. *)
Lemma escapeAt_digits esc ds n base unicode start rest v :
  escapeForm esc 0 = Some (Z.of_nat n, base, unicode, start) → esc ≠ chr "x" →
  simpleEscape simpleEscapes esc = None →
  drop (Z.to_nat (start - 1)) (esc :: ds ++ rest) = (if unicode then ds else esc :: ds) ++ rest →
  length (if unicode then ds else esc :: ds) = n →
  numeral base (if unicode then ds else esc :: ds) v →
  v ≤ (if unicode then 1114111 else 255) → (unicode = true → scalar v) →
  escapeAt (esc :: ds ++ rest) = Some (start + Z.of_nat n, v, unicode).
Proof.
  intros Hform Hx Hsimple Hdrop Hlen Hnum Hle Hsc. unfold escapeAt.
  rewrite (proj2 (Z.eqb_neq _ _) Hx), Hsimple, Hform, Hdrop.
  set (num := if unicode then ds else esc :: ds) in *.
  rewrite (proj2 (Z.ltb_ge _ _)) by (rewrite lenZ_app; pose proof (lenZ_nonneg rest); unfold lenZ in *; lia).
  rewrite Nat2Z.id, <- Hlen, take_app_length.
  assert (foldDigits num base (if unicode then 1114111 else 255) 0 = Some v) as ->.
  { apply foldDigits_numeral; [by destruct unicode| |done].
    destruct (escapeForm_spec _ _ _ _ _ Hform) as [(_ & -> & _)|[(_ & -> & _)|(_ & -> & _)]]; lia. }
  destruct unicode; simpl; [|done]. destruct (Hsc eq_refl) as [_ Hs].
  destruct (Z.leb_spec 55296 v), (Z.leb_spec v 57343); simpl; try done. lia.
Qed.

Lemma escapeAt_complete w v u rest :
  bytes_ok w → escape (chr "\" :: w) v u → escapeAt (w ++ rest) = Some (1 + lenZ w, v, u).
Proof.
  intros Hb He. inversion He as [c v' Hin|ds v' Hl Hn|ds v' Hl Hn Hle|ds v' Hl Hn Hs|ds v' Hl Hn Hs]; subst.
  - apply simpleEscape_spec in Hin. cbn [app escapeAt]. destruct (Z.eqb_spec c (chr "x")) as [->|]; [|by rewrite Hin].
    rewrite simple_other in Hin by (by left). done.
  - destruct ds as [|a [|b [|]]]; try done. apply numeral_two in Hn as (x & y & Ha & Hy & ->).
    apply Forall_cons in Hb as [_ Hb]. apply Forall_cons in Hb as [Hba Hb]. apply Forall_cons in Hb as [Hbb _].
    simpl. rewrite !isHexByte_value, Ha, Hy by done. simpl.
    by rewrite (hexNibble_value a x), (hexNibble_value b y).
  - destruct w as [|esc ds]; [done|]. pose proof Hn as (x & Hx & Hx8)%numeral_cons.
    pose proof (hexValue_octal _ _ Hx Hx8) as Hr.
    simpl app. rewrite (escapeAt_digits esc ds 3 8 false 1 rest v); try done.
    + rewrite lenZ_cons. unfold lenZ. simpl in Hl. do 3 f_equal. lia.
    + unfold escapeForm. change (chr "0") with 48 in *. change (chr "7") with 55 in *. change (chr "u") with 117.
      change (chr "U") with 85. rewrite !(proj2 (Z.eqb_neq esc _)) by lia.
      by rewrite !(proj2 (Z.leb_le _ _)) by lia.
    + intros ->. vm_compute in Hr. by destruct Hr.
    + apply simple_other. by do 3 right.
  - simpl app. rewrite (escapeAt_digits (chr "u") ds 4 16 true 2 rest v); try done.
    + rewrite lenZ_cons. unfold lenZ. rewrite Hl. done.
    + simpl. unfold scalar in Hs. lia.
  - simpl app. rewrite (escapeAt_digits (chr "U") ds 8 16 true 2 rest v); try done.
    + rewrite lenZ_cons. unfold lenZ. rewrite Hl. done.
    + simpl. unfold scalar in Hs. lia.
Qed.

Lemma escapeAt_sound part n v u :
  bytes_ok part → escapeAt part = Some (n, v, u) →
  ∃ w rest, part = w ++ rest ∧ escape (chr "\" :: w) v u ∧ n = 1 + lenZ w.
Proof.
  intros Hb. destruct part as [|esc ds]; [done|]. cbn [escapeAt]. apply Forall_cons in Hb as [Hbe Hb].
  destruct (Z.eqb_spec esc (chr "x")) as [->|Hx].
  { destruct ds as [|a [|b ds]]; try done. apply Forall_cons in Hb as [Hba Hb]. apply Forall_cons in Hb as [Hbb _].
    rewrite !isHexByte_value by done. destruct (hexValue a) as [x|] eqn:Ha; [|done].
    destruct (hexValue b) as [y|] eqn:Hv; [|done]. simpl. intros [= <- <- <-].
    exists [chr "x"; a; b], ds. split_and!; [done| |done]. apply esc_hex; [done|].
    apply numeral_two. exists x, y. by rewrite (hexNibble_value a x), (hexNibble_value b y). }
  destruct (simpleEscape simpleEscapes esc) as [w|] eqn:Hs.
  { intros [= <- <- <-]. exists [esc], ds. split_and!; [done| |done]. apply esc_simple. by apply simpleEscape_spec. }
  destruct (escapeForm esc 0) as [[[[digits base] unicode] start]|] eqn:Hform; [|done].
  set (num := drop (Z.to_nat (start - 1)) (esc :: ds)).
  destruct (Z.ltb_spec (lenZ num) digits) as [|Hd]; [done|].
  destruct (foldDigits _ _ _ 0) as [v'|] eqn:Hfold; [|done].
  assert (0 ≤ digits ∧ 0 < base) as (Hd0 & Hbase).
  { destruct (escapeForm_spec _ _ _ _ _ Hform) as [(-> & -> & _)|[(-> & -> & _)|(-> & -> & _)]]; lia. }
  apply foldDigits_numeral in Hfold as [Hn Hv]; [|by destruct unicode|done].
  assert (length (take (Z.to_nat digits) num) = Z.to_nat digits) as Hl.
  { rewrite length_take. unfold lenZ in Hd. lia. }
  destruct (unicode && _ && _) eqn:Hsur; [done|]. intros [= <- <- <-].
  set (rest := drop (Z.to_nat digits) num).
  assert (unicode = true → scalar v') as Hsc.
  { intros ->. simpl in Hsur. apply andb_false_iff in Hsur. rewrite !Z.leb_gt in Hsur.
    split; [|lia]. split; [by apply (numeral_nonneg base _ v') in Hn|done]. }
  assert (lenZ (take (Z.to_nat digits) num) = digits) as Hlz by (unfold lenZ; rewrite Hl; lia).
  destruct (escapeForm_spec _ _ _ _ _ Hform)
    as [(-> & -> & -> & -> & ->)|[(-> & -> & -> & -> & ->)|(-> & -> & -> & -> & _)]].
  - exists (chr "u" :: take 4 num), rest. split_and!.
    + unfold rest. simpl. by rewrite take_drop.
    + apply esc_short; [done..|by apply Hsc].
    + rewrite lenZ_cons. change (Z.to_nat 4) with 4%nat in Hlz. lia.
  - exists (chr "U" :: take 8 num), rest. split_and!.
    + unfold rest. change (Z.to_nat 8) with 8%nat. simpl. f_equal. by rewrite <- (take_drop 8 ds) at 1.
    + apply esc_long; [done..|by apply Hsc].
    + rewrite lenZ_cons. change (Z.to_nat 8) with 8%nat in Hlz. lia.
  - exists (take 3 num), rest. split_and!.
    + unfold rest. by rewrite take_drop.
    + by apply esc_octal.
    + change (Z.to_nat 3) with 3%nat in Hlz. lia.
Qed.

Implicit Types (pre rest post w out : list Z).

Lemma escape_slash e v u : escape e v u → ∃ w, e = chr "\" :: w.
Proof. intros H. inversion H; subst; by eexists. Qed.

Lemma escape_value e v u : bytes_ok e → escape e v u → if u then scalar v else byte_ok v.
Proof.
  intros Hb H. inversion H as [c v' Hin|ds v' Hl Hn|ds v' Hl Hn Hle|ds v' Hl Hn Hs|ds v' Hl Hn Hs]; subst; try done.
  - apply simpleEscape_spec in Hin. revert Hin. cbn. repeat case_match; intros [= <-]; unfold byte_ok; lia.
  - destruct ds as [|a [|b [|]]]; try done. apply numeral_two in Hn as (x & y & Hx & Hy & ->).
    apply hexValue_range in Hx, Hy. unfold byte_ok. lia.
  - pose proof (numeral_nonneg 8 ds v ltac:(lia) Hn). unfold byte_ok. lia.
Qed.

(** The bytes that an escape or a byte stands for. *)
Definition escapeBytes (v : Z) (unicode : bool) : list Z := if unicode then utf8 v else [v].

(** * The end of a string *)

(** At a backslash the loop goes on behind the escape. *)
Lemma stringRun_escape fuel pre part :
  bytes_ok part →
  stringRun (S fuel) (pre ++ chr "\" :: part) (lenZ pre) =
  match escapeAt part with
  | None => Some (lenZ pre, false)
  | Some (n, _, _) => stringRun fuel (pre ++ chr "\" :: part) (lenZ pre + n)
  end.
Proof.
  intros Hb. cbn [stringRun]. rewrite guarded_head. change (negb (chr "\" =? quote)) with true. cbn [mbind option_bind].
  rewrite at_head. change (head (chr "\" :: part)) with (Some (chr "\")). cbn [mbind option_bind].
  change (chr "\" =? chr "\") with true. cbv iota.
  rewrite inside_offset. rewrite byteIs_offset by lia.
  pose proof (stringEscapeValue_spec pre part [] Hb) as Hsev. rewrite app_nil_r in Hsev.
  destruct part as [|esc [|a [|b ds]]].
  1-3: match goal with |- context [3 <? ?l] => change (3 <? l) with false end; simpl andO; cbn [mbind option_bind];
    rewrite Hsev; cbn [mbind option_bind]; destruct (escapeAt _) as [[[n v] u]|]; reflexivity.
  rewrite (proj2 (Z.ltb_lt _ _)) by (autorewrite with lenZ; pose proof (lenZ_nonneg ds); lia).
  change (byteIs (chr "\" :: esc :: a :: b :: ds) 1 (Z.eqb (chr "x"))) with (Some (chr "x" =? esc)).
  rewrite (Z.eqb_sym (chr "x") esc). cbn [andO mbind option_bind].
  destruct (Z.eqb_spec esc (chr "x")) as [->|Hx].
  - rewrite !at_offset by lia. change ((chr "\" :: chr "x" :: a :: b :: ds) !!z 2) with (Some a).
    change ((chr "\" :: chr "x" :: a :: b :: ds) !!z 3) with (Some b). cbn [mbind option_bind escapeAt].
    change (chr "x" =? chr "x") with true. cbv iota. destruct (isHexByte a && isHexByte b); reflexivity.
  - rewrite Hsev. cbn [mbind option_bind]. destruct (escapeAt _) as [[[n v] u]|]; reflexivity.
Qed.

Lemma stringRun_byte fuel pre c rest :
  c ≠ quote → c ≠ chr "\" → c ≠ newline →
  stringRun (S fuel) (pre ++ c :: rest) (lenZ pre) = stringRun fuel ((pre ++ [c]) ++ rest) (lenZ (pre ++ [c])).
Proof.
  intros Hq Hs Hn. cbn [stringRun]. rewrite guarded_head, (proj2 (Z.eqb_neq _ _) Hq). simpl negb. cbn [mbind option_bind].
  rewrite at_head. change (head (c :: rest)) with (Some c). cbn [mbind option_bind].
  rewrite (proj2 (Z.eqb_neq _ _) Hs), (proj2 (Z.eqb_neq _ _) Hn). by rewrite advance, lenZ_snoc.
Qed.

Lemma escape_rest e w rest v u :
  bytes_ok e → escape e v u →
  ∃ e', e = chr "\" :: e' ∧ escapeAt (e' ++ w) = Some (lenZ e, v, u).
Proof.
  intros Hb He. destruct (escape_slash _ _ _ He) as [e' ->]. exists e'. split; [done|].
  apply Forall_cons in Hb as [_ Hb]. by rewrite (escapeAt_complete e' v u w), lenZ_cons.
Qed.

Lemma stringRun_complete w out pre rest fuel :
  string_body w out → bytes_ok (w ++ rest) → (length w ≤ fuel)%nat →
  stringRun fuel (pre ++ w ++ quote :: rest) (lenZ pre) = Some (lenZ (pre ++ w), true).
Proof.
  intros Hw. revert pre fuel. induction Hw as [|c w out Hq Hs Hn Hw IH|e v u w out He Hw IH]; intros pre fuel Hb Hf.
  - simpl app. destruct fuel; cbn [stringRun]; rewrite guarded_head; cbn; by rewrite app_nil_r.
  - destruct fuel as [|fuel]; [simpl in Hf; lia|]. simpl app in *. apply Forall_cons in Hb as [_ Hb].
    rewrite stringRun_byte by done. rewrite IH; [by rewrite <- app_assoc|done|simpl in Hf; lia].
  - rewrite <- app_assoc in Hb. apply Forall_app in Hb as [Hbe Hb].
    destruct (escape_rest e (w ++ quote :: rest) [] v u Hbe He) as (e' & -> & Hat).
    destruct fuel as [|fuel]; [simpl in Hf; lia|]. rewrite <- app_assoc. simpl app.
    apply Forall_cons in Hbe as [_ Hbe]. apply Forall_app in Hb as Hb'. destruct Hb' as [Hbw Hbr].
    rewrite stringRun_escape, Hat.
    2: { rewrite !Forall_app. split_and!; [done..|]. constructor; [by unfold byte_ok, quote|done]. }
    replace (lenZ pre + lenZ (chr "\" :: e')) with (lenZ (pre ++ chr "\" :: e')) by (by autorewrite with lenZ).
    replace (pre ++ chr "\" :: e' ++ w ++ quote :: rest) with ((pre ++ chr "\" :: e') ++ w ++ quote :: rest)
      by (by rewrite <- app_assoc).
    rewrite IH; [by rewrite <- app_assoc|done|]. rewrite length_app in Hf. simpl in Hf. lia.
Qed.

Lemma stringRun_sound fuel pre rest :
  bytes_ok rest → (length rest ≤ fuel)%nat →
  ∃ i ok, stringRun fuel (pre ++ rest) (lenZ pre) = Some (i, ok) ∧ lenZ pre ≤ i ≤ lenZ (pre ++ rest) ∧
    (ok = true → closedBy (pre ++ rest) i quote = Some true →
     ∃ w out rest', rest = w ++ quote :: rest' ∧ string_body w out ∧ i = lenZ (pre ++ w)).
Proof.
  revert pre rest. induction fuel as [|fuel IH]; intros pre rest Hb Hf.
  { destruct rest; [|simpl in Hf; lia]. cbn [stringRun]. rewrite guarded_head. cbn [mbind option_bind].
    exists (lenZ pre), true. rewrite app_nil_r. split_and!; [done|lia..|]. intros _. unfold closedBy. rewrite Z.ltb_irrefl. done. }
  destruct rest as [|c rest].
  { cbn [stringRun]. rewrite guarded_head. cbn [mbind option_bind].
    exists (lenZ pre), true. rewrite app_nil_r. split_and!; [done|lia..|]. intros _. unfold closedBy. rewrite Z.ltb_irrefl. done. }
  apply Forall_cons in Hb as [Hbc Hb]. simpl in Hf.
  destruct (decide (c = quote)) as [->|Hq].
  { cbn [stringRun]. rewrite guarded_head. change (negb (quote =? quote)) with false. cbn [mbind option_bind].
    exists (lenZ pre), true. split_and!; [done|autorewrite with lenZ; pose proof (lenZ_nonneg rest); lia..|].
    intros _ _. exists [], [], rest. rewrite app_nil_r. split_and!; [done|constructor|done]. }
  destruct (decide (c = chr "\")) as [->|Hs].
  { rewrite stringRun_escape by done. destruct (escapeAt rest) as [[[n v] u]|] eqn:Hat.
    2: { exists (lenZ pre), false. split_and!; [done|autorewrite with lenZ; pose proof (lenZ_nonneg rest); lia..|done]. }
    destruct (escapeAt_sound rest n v u Hb Hat) as (e & rest' & -> & He & ->). apply Forall_app in Hb as [Hbe Hb].
    replace (lenZ pre + (1 + lenZ e)) with (lenZ (pre ++ chr "\" :: e)) by (autorewrite with lenZ; lia).
    replace (pre ++ chr "\" :: e ++ rest') with ((pre ++ chr "\" :: e) ++ rest') by (by rewrite <- app_assoc).
    rewrite length_app in Hf.
    destruct (IH (pre ++ chr "\" :: e) rest' Hb ltac:(lia)) as (i & ok & -> & Hi & Hok). exists i, ok. split; [done|].
    split. { rewrite lenZ_app in Hi. pose proof (lenZ_nonneg (chr "\" :: e)). lia. }
    intros H1 H2. destruct (Hok H1 H2) as (w & out & rest'' & -> & Hw & ->).
    exists ((chr "\" :: e) ++ w), (escapeBytes v u ++ out), rest''. split_and!; [simpl; by rewrite <- app_assoc| |by rewrite <- !app_assoc].
    by apply sb_escape. }
  destruct (decide (c = newline)) as [->|Hn].
  { cbn [stringRun]. rewrite guarded_head. cbn [mbind option_bind]. change (negb (newline =? quote)) with true. cbv iota.
    rewrite at_head. change (head (newline :: rest)) with (Some newline). cbn [mbind option_bind].
    change (newline =? chr "\") with false. change (newline =? newline) with true. cbv iota.
    exists (lenZ pre), true. split_and!; [done|autorewrite with lenZ; pose proof (lenZ_nonneg rest); lia..|].
    intros _. unfold closedBy. rewrite guarded_head. done. }
  rewrite stringRun_byte by done. destruct (IH (pre ++ [c]) rest Hb ltac:(lia)) as (i & ok & -> & Hi & Hok).
  exists i, ok. split; [done|]. rewrite lenZ_snoc in Hi. rewrite advance. split; [lia|].
  intros H1 H2. destruct (Hok H1 H2) as (w & out & rest'' & -> & Hw & ->).
  exists (c :: w), (c :: out), rest''. split_and!; [done|by apply sb_byte|by rewrite <- !app_assoc].
Qed.

(** * Values *)

Lemma stringEscapeValue_in pre e w post v u :
  bytes_ok (e ++ w) → escape e v u →
  stringEscapeValue (pre ++ e ++ w ++ post) (lenZ pre) (lenZ (pre ++ e ++ w)) =
  Some (Some (lenZ (pre ++ e), v, u)).
Proof.
  intros Hb He. apply Forall_app in Hb as Hb'. destruct Hb' as [Hbe Hbw].
  destruct (escape_rest e w [] v u Hbe He) as (e' & -> & Hat).
  replace ((chr "\" :: e') ++ w ++ post) with (chr "\" :: (e' ++ w) ++ post) by (simpl; by rewrite <- app_assoc).
  replace ((chr "\" :: e') ++ w) with (chr "\" :: e' ++ w) by done.
  rewrite stringEscapeValue_spec; [|by apply Forall_cons in Hb as [_ ?]]. rewrite Hat. simpl. by rewrite lenZ_app.
Qed.

Lemma stringBody_value w out' pre post out fuel :
  string_body w out' → bytes_ok w → (length w ≤ fuel)%nat →
  stringBody fuel (pre ++ w ++ quote :: post) (lenZ pre) (lenZ (pre ++ w) + 1) out =
  Some (Some (out ++ out')).
Proof.
  intros Hw. revert pre out fuel.
  induction Hw as [|c w out' Hq Hs Hn Hw IH|e v u w out' He Hw IH]; intros pre out fuel Hb Hf.
  - rewrite !app_nil_r. destruct fuel; cbn [stringBody]; by rewrite (proj2 (Z.leb_le _ _)) by lia.
  - destruct fuel as [|fuel]; [simpl in Hf; lia|]. apply Forall_cons in Hb as [Hbc Hb]. cbn [stringBody].
    rewrite (proj2 (Z.leb_gt _ _)) by (autorewrite with lenZ; pose proof (lenZ_nonneg w); lia).
    simpl app. rewrite at_head. change (head (c :: w ++ quote :: post)) with (Some c). cbn [mbind option_bind].
    rewrite (proj2 (Z.eqb_neq _ _) Hs). simpl negb. cbv iota. rewrite <- (lenZ_snoc pre c), advance.
    replace (pre ++ c :: w) with ((pre ++ [c]) ++ w) by (by rewrite <- app_assoc).
    rewrite IH; [by rewrite <- app_assoc|done|simpl in Hf; lia].
  - destruct fuel as [|fuel]. { destruct (escape_slash _ _ _ He) as [? ->]. simpl in Hf; lia. }
    apply Forall_app in Hb as Hb'. destruct Hb' as [Hbe Hbw].
    pose proof (stringEscapeValue_in pre e w (quote :: post) v u Hb He) as Hsev.
    pose proof (escape_value e v u Hbe He) as Hv. rewrite <- app_assoc.
    assert (2 ≤ lenZ e) as Hle.
    { inversion He as [|? ? Hl|? ? Hl|? ? Hl|? ? Hl]; subst; unfold lenZ; simpl; rewrite ?Hl; lia. }
    cbn [stringBody].
    rewrite (proj2 (Z.leb_gt _ _)) by (autorewrite with lenZ; pose proof (lenZ_nonneg w); lia).
    destruct (escape_slash _ _ _ He) as [e' He']. rewrite at_head.
    replace (head (e ++ w ++ quote :: post)) with (Some (chr "\")) by (by rewrite He'). cbn [mbind option_bind].
    change (negb (chr "\" =? chr "\")) with false. cbv iota.
    rewrite (proj2 (Z.leb_gt _ _)) by (autorewrite with lenZ; pose proof (lenZ_nonneg w); lia).
    rewrite Z.add_simpl_r, Hsev. cbn [mbind option_bind].
    assert ((if u then appendStringRune out v else out ++ [u8 v]) = out ++ escapeBytes v u) as ->.
    { destruct u; simpl; [unfold appendStringRune; by rewrite runeBytes_utf8|by rewrite u8_small]. }
    rewrite !(app_assoc pre e), IH; [unfold escapeBytes; by rewrite <- app_assoc|done|].
    rewrite length_app, He' in Hf. simpl in Hf. lia.
Qed.

(** The first and the last byte of a quoted text. *)
Lemma quotes_at q pre w post :
  (pre ++ (q :: w ++ [q]) ++ post) !!z lenZ pre = Some q ∧
  (pre ++ (q :: w ++ [q]) ++ post) !!z (lenZ (pre ++ q :: w ++ [q]) - 1) = Some q ∧
  pre ++ (q :: w ++ [q]) ++ post = (pre ++ [q]) ++ w ++ q :: post ∧
  lenZ (pre ++ q :: w ++ [q]) = lenZ ((pre ++ [q]) ++ w) + 1.
Proof.
  split_and!.
  - simpl. by rewrite at_head.
  - replace (pre ++ (q :: w ++ [q]) ++ post) with ((pre ++ q :: w) ++ q :: post)
      by (rewrite <- !app_assoc; simpl; by rewrite <- !app_assoc).
    replace (lenZ (pre ++ q :: w ++ [q]) - 1) with (lenZ (pre ++ q :: w)) by (autorewrite with lenZ; lia).
    by rewrite at_head.
  - rewrite <- !app_assoc. simpl. by rewrite <- !app_assoc.
  - autorewrite with lenZ. lia.
Qed.

(** The token of [w] between [pre] and its surroundings. *)
Definition token_at (tok : Token) kind pre w : Prop :=
  tokenKind tok = kind ∧ t_Start tok = lenZ pre ∧ t_End tok = lenZ (pre ++ w).

Definition quoted w : list Z := quote :: w ++ [quote].

Lemma StringLiteralValue_quoted tok pre w post out :
  token_at tok TokenString pre (quoted w) → bytes_ok w → string_body w out →
  StringLiteralValue (pre ++ quoted w ++ post) tok = Some (Some out).
Proof.
  intros (Hk & Hs & He) Hb Hw. unfold StringLiteralValue, quoted in *. rewrite Hk, Hs, He.
  pose proof (lenZ_nonneg pre). pose proof (lenZ_nonneg post). pose proof (lenZ_nonneg w).
  change (negb (TokenString =? TokenString)) with false.
  rewrite !(proj2 (Z.ltb_ge _ _)) by (autorewrite with lenZ; lia). cbn [orb].
  destruct (quotes_at quote pre w post) as (Hfirst & Hlast & Heq & Hend).
  rewrite Hfirst, Hlast. cbn [mbind option_bind].
  change (quote =? chr "`") with false. change (negb (quote =? quote)) with false. cbn [orb].
  rewrite Hend, Heq, <- (lenZ_snoc pre quote), (stringBody_value w out); [done..|]. rewrite !length_app. lia.
Qed.

(** A raw string stands for its bytes. *)
Lemma StringLiteralValue_raw tok pre w post :
  token_at tok TokenString pre (chr "`" :: w ++ [chr "`"]) →
  StringLiteralValue (pre ++ (chr "`" :: w ++ [chr "`"]) ++ post) tok = Some (Some w).
Proof.
  intros (Hk & Hs & He). unfold StringLiteralValue. rewrite Hk, Hs, He.
  pose proof (lenZ_nonneg pre). pose proof (lenZ_nonneg post). pose proof (lenZ_nonneg w).
  change (negb (TokenString =? TokenString)) with false.
  rewrite !(proj2 (Z.ltb_ge _ _)) by (autorewrite with lenZ; lia). cbn [orb].
  destruct (quotes_at (chr "`") pre w post) as (Hfirst & Hlast & Heq & Hend).
  rewrite Hfirst, Hlast. cbn [mbind option_bind]. change (chr "`" =? chr "`") with true. cbn [negb].
  rewrite Hend, Heq, <- (lenZ_snoc pre (chr "`")), Z.add_simpl_r, (lenZ_app (pre ++ [chr "`"]) w), slice_mid. done.
Qed.

(** * Canonical spelling *)

Definition hexDigitByte (d : Z) : Z := if d <? 10 then 48 + d else 87 + d.

Lemma string_body_bytes w out : string_body w out → bytes_ok w → bytes_ok out.
Proof.
  induction 1 as [|c w out Hq Hs Hn Hw IH|e v u w out He Hw IH]; intros Hb; [done| |].
  - apply Forall_cons in Hb as [Hc Hb]. constructor; [done|by apply IH].
  - apply Forall_app in Hb as [Hbe Hb]. apply Forall_app. split; [|by apply IH].
    pose proof (escape_value e v u Hbe He) as Hv. destruct u; [by apply utf8_bytes|by apply list.Forall_singleton].
Qed.

(** How a byte is spelled. *)
Definition quoteByte (c : Z) : list Z :=
  if (c =? quote) || (c =? chr "\") then [chr "\"; c]
  else if (c <? 32) || (127 <=? c) then
    [chr "\"; chr "x"; hexDigitByte (c `div` 16); hexDigitByte (c `mod` 16)]
  else [c].

Lemma hexDigit_spec d : 0 ≤ d < 16 → hexDigit d = Some (hexDigitByte d).
Proof.
  intros H. assert (d ∈ [0;1;2;3;4;5;6;7;8;9;10;11;12;13;14;15]) as Hin.
  { rewrite !elem_of_cons, elem_of_nil. lia. }
  rewrite !elem_of_cons, elem_of_nil in Hin. decompose [or] Hin; clear Hin; subst; try done; reflexivity.
Qed.

Lemma hexValue_digit d : 0 ≤ d < 16 → hexValue (hexDigitByte d) = Some d.
Proof.
  intros H. assert (d ∈ [0;1;2;3;4;5;6;7;8;9;10;11;12;13;14;15]) as Hin.
  { rewrite !elem_of_cons, elem_of_nil. lia. }
  rewrite !elem_of_cons, elem_of_nil in Hin. decompose [or] Hin; clear Hin; subst; try done; reflexivity.
Qed.

Lemma appendQuotedByte_spec out c : byte_ok c → appendQuotedByte out c = Some (out ++ quoteByte c).
Proof.
  unfold byte_ok. intros Hc. unfold appendQuotedByte, quoteByte. destruct (_ || _); [done|].
  destruct (_ || _); [|done]. rewrite Z.quot_div_nonneg, Z.rem_mod_nonneg by lia.
  by rewrite !hexDigit_spec by runes.
Qed.

Lemma appendQuotedBytes_spec bs out :
  bytes_ok bs → appendQuotedBytes out bs = Some (out ++ flat_map quoteByte bs).
Proof.
  intros Hb. revert out. induction Hb as [|c bs Hc Hb IH]; intros out; simpl; [by rewrite app_nil_r|].
  rewrite appendQuotedByte_spec by done. simpl. by rewrite IH, <- app_assoc.
Qed.

Lemma quoteByte_ascii c : byte_ok c → forallb (λ d, (32 <=? d) && (d <? 127)) (quoteByte c) = true.
Proof. intros Hc. by_bytes c Hc. Qed.

Lemma quoteByte_body c w out :
  byte_ok c → string_body w out → string_body (quoteByte c ++ w) (c :: out).
Proof.
  intros Hc Hw. unfold quoteByte. destruct ((c =? quote) || (c =? chr "\")) eqn:Hq.
  - apply (sb_escape [chr "\"; c] c false); [|done]. apply esc_simple.
    apply simpleEscape_spec. apply orb_true_iff in Hq as [->%Z.eqb_eq| ->%Z.eqb_eq]; reflexivity.
  - apply orb_false_iff in Hq as [?%Z.eqb_neq ?%Z.eqb_neq].
    destruct ((c <? 32) || (127 <=? c)) eqn:Hp.
    + apply (sb_escape [_; _; _; _] c false); [|done]. apply esc_hex; [done|]. unfold byte_ok in Hc.
      apply numeral_two. exists (c `div` 16), (c `mod` 16). rewrite !hexValue_digit by runes.
      split_and!; [done..|]. runes.
    + apply sb_byte; try done. apply orb_false_iff in Hp as [?%Z.ltb_ge _]. unfold newline. lia.
Qed.

Lemma quoted_bytes bs : bytes_ok bs → string_body (flat_map quoteByte bs) bs.
Proof. induction 1 as [|c bs Hc Hb IH]; simpl; [constructor|by apply quoteByte_body]. Qed.

Lemma quoted_ascii bs : bytes_ok bs → Forall (λ d, 32 ≤ d < 127) (flat_map quoteByte bs).
Proof.
  induction 1 as [|c bs Hc Hb IH]; simpl; [constructor|]. apply Forall_app. split; [|done].
  pose proof (quoteByte_ascii c Hc) as H. rewrite forallb_forall in H. apply Forall_forall. intros d Hd%list_elem_of_In.
  specialize (H d Hd). apply andb_true_iff in H as [?%Z.leb_le ?%Z.ltb_lt]. lia.
Qed.

Lemma quoted_bytes_ok bs : bytes_ok bs → bytes_ok (flat_map quoteByte bs).
Proof.
  intros Hb. eapply Forall_impl; [by apply quoted_ascii|]. simpl. unfold byte_ok. lia.
Qed.

Lemma quotedBody_value w out' pre post out fuel :
  string_body w out' → bytes_ok w → (length w ≤ fuel)%nat →
  quotedBody fuel (pre ++ w ++ quote :: post) (lenZ pre) (lenZ (pre ++ w) + 1) out =
  Some (out ++ flat_map quoteByte out' ++ [quote], true).
Proof.
  intros Hw. revert pre out fuel.
  induction Hw as [|c w out' Hq Hs Hn Hw IH|e v u w out' He Hw IH]; intros pre out fuel Hb Hf.
  - rewrite !app_nil_r. destruct fuel; cbn [quotedBody]; by rewrite (proj2 (Z.leb_le _ _)) by lia.
  - destruct fuel as [|fuel]; [simpl in Hf; lia|]. apply Forall_cons in Hb as [Hbc Hb]. cbn [quotedBody].
    rewrite (proj2 (Z.leb_gt _ _)) by (autorewrite with lenZ; pose proof (lenZ_nonneg w); lia).
    simpl app. rewrite at_head. change (head (c :: w ++ quote :: post)) with (Some c). cbn [mbind option_bind].
    rewrite (proj2 (Z.eqb_neq _ _) Hs). simpl negb. cbv iota.
    rewrite appendQuotedByte_spec by done. cbn [mbind option_bind]. rewrite <- (lenZ_snoc pre c), advance.
    replace (pre ++ c :: w) with ((pre ++ [c]) ++ w) by (by rewrite <- app_assoc).
    rewrite IH; [by rewrite <- !app_assoc|done|simpl in Hf; lia].
  - destruct fuel as [|fuel]. { destruct (escape_slash _ _ _ He) as [? ->]. simpl in Hf; lia. }
    apply Forall_app in Hb as Hb'. destruct Hb' as [Hbe Hbw].
    pose proof (stringEscapeValue_in pre e w (quote :: post) v u Hb He) as Hsev.
    pose proof (escape_value e v u Hbe He) as Hv. rewrite <- app_assoc.
    destruct (escape_slash _ _ _ He) as [e' He']. cbn [quotedBody].
    rewrite (proj2 (Z.leb_gt _ _)) by (rewrite He'; autorewrite with lenZ; pose proof (lenZ_nonneg w); pose proof (lenZ_nonneg e'); lia).
    rewrite at_head. replace (head (e ++ w ++ quote :: post)) with (Some (chr "\")) by (by rewrite He').
    cbn [mbind option_bind]. change (negb (chr "\" =? chr "\")) with false. cbv iota.
    rewrite Z.add_simpl_r, Hsev. cbn [mbind option_bind].
    assert ((if negb u then appendQuotedByte out (u8 v) else appendQuotedBytes out (runeBytes v)) =
      Some (out ++ flat_map quoteByte (escapeBytes v u))) as ->.
    { destruct u; simpl.
      - rewrite runeBytes_utf8 by done. apply appendQuotedBytes_spec. by apply utf8_bytes.
      - rewrite u8_small by done. rewrite appendQuotedByte_spec by done. by rewrite app_nil_r. }
    cbn [mbind option_bind]. rewrite !(app_assoc pre e), IH; [|done|].
    + rewrite flat_map_app. unfold escapeBytes. by rewrite <- !app_assoc.
    + rewrite length_app, He' in Hf. simpl in Hf. lia.
Qed.

Lemma AppendQuotedStringLiteral_quoted out tok pre w post value :
  token_at tok TokenString pre (quoted w) → bytes_ok w → string_body w value →
  AppendQuotedStringLiteral out (pre ++ quoted w ++ post) tok =
  Some (out ++ quoted (flat_map quoteByte value), true).
Proof.
  intros (Hk & Hs & He) Hb Hw. unfold AppendQuotedStringLiteral, quoted in *. rewrite Hk, Hs, He.
  pose proof (lenZ_nonneg pre). pose proof (lenZ_nonneg post). pose proof (lenZ_nonneg w).
  change (negb (TokenString =? TokenString)) with false.
  rewrite !(proj2 (Z.ltb_ge _ _)) by (autorewrite with lenZ; lia). cbn [orb].
  destruct (quotes_at quote pre w post) as (Hfirst & Hlast & Heq & Hend).
  unfold byteIs. rewrite Hfirst, Hlast. cbn [mbind option_bind].
  change (quote =? quote) with true. cbn [orO negb mbind option_bind].
  rewrite Hend, Heq, <- (lenZ_snoc pre quote), (quotedBody_value w value); [by rewrite <- app_assoc|done..|].
  rewrite !length_app. lia.
Qed.

(** The first byte of a rune tells the ASCII ones. *)
Lemma utf8_head r k c w : scalar r → utf8 r = c :: w → k < 128 → c = k ↔ r = k.
Proof.
  intros Hr Hu Hk. destruct (decide (r < 128)).
  - rewrite utf8_ascii in Hu by (destruct Hr; lia). by injection Hu as <- _.
  - pose proof (utf8_high r Hr ltac:(lia)) as Hh. rewrite Hu in Hh. apply Forall_inv in Hh. lia.
Qed.

Lemma eqb_ext a b c d : (a = b ↔ c = d) → (a =? b) = (c =? d).
Proof. intros H. destruct (Z.eqb_spec a b), (Z.eqb_spec c d); tauto. Qed.

(** The answer of the part behind a backslash. *)
Definition escapedRune (part : list Z) : Z * bool :=
  match part with
  | [] => (0, false)
  | esc :: _ =>
      if quote =? esc then (0, false)
      else if esc =? chr "'" then (chr "'", lenZ part =? 1)
      else
        match escapeAt part with
        | None => (0, false)
        | Some (n, v, _) => (v, n =? 1 + lenZ part)
        end
  end.

Lemma escapedRune_spec part v :
  bytes_ok part → rune_body (chr "\" :: part) v ↔ escapedRune part = (v, true).
Proof.
  intros Hb. split.
  - intros H. inversion H as [|e v' u He Hne|r Hr H0 H1 H2 H3 Hu]; subst; [done| |].
    + destruct part as [|esc ds].
      { inversion He; subst; by (discriminate || simpl in *; lia). }
      pose proof (escapeAt_complete (esc :: ds) v u [] Hb He) as Hat. rewrite app_nil_r in Hat.
      unfold escapedRune. rewrite Hat.
      destruct (Z.eqb_spec quote esc) as [<-|].
      { exfalso. change (escapeAt (quote :: ds)) with (Some (2, 34, false)) in Hat.
        injection Hat as Hl _ _. unfold lenZ in Hl. destruct ds; [by destruct Hne|simpl in Hl; lia]. }
      destruct (Z.eqb_spec esc (chr "'")) as [->|]; [by change (escapeAt (chr "'" :: ds)) with (@None (Z * Z * bool)) in Hat|].
      by rewrite Z.eqb_refl.
    + apply (utf8_head v (chr "\") (chr "\") part) in Hr; [|done|done]. by destruct H3; apply Hr.
  - destruct part as [|esc ds]; [done|]. unfold escapedRune.
    destruct (Z.eqb_spec quote esc) as [|Hq]; [done|].
    destruct (Z.eqb_spec esc (chr "'")) as [->|].
    { destruct (Z.eqb_spec (lenZ (chr "'" :: ds)) 1) as [Hl|]; [|done]. intros [= <-].
      unfold lenZ in Hl. destruct ds; [constructor|simpl in Hl; lia]. }
    destruct (escapeAt (esc :: ds)) as [[[k v'] u]|] eqn:Hat; [|done]. destruct (Z.eqb_spec k (1 + lenZ (esc :: ds))) as [Hl|]; [|done]. intros [= <-].
    destruct (escapeAt_sound _ _ _ _ Hb Hat) as (w & rest & Hw & He & ->). rewrite Hw, lenZ_app in Hl.
    assert (rest = []) as -> by (unfold lenZ in Hl; destruct rest; [done|simpl in Hl; lia]).
    rewrite app_nil_r in Hw. rewrite Hw. eapply rb_escape; [exact He|]. rewrite <- Hw. naive_solver.
Qed.

Section host.
Context (wordSize base : Z) (Hword : 0 < wordSize).

(** The answer of a body without a backslash. *)
Lemma plainRune_spec at_ pre w post :
  w ≠ [] → head w ≠ Some (chr "\") → bytes_ok w →
  ∃ v b,
    (c ← head w;
     bad ← Some ((c =? newline) || (c =? chr "'")) ||?
       (valid ← validSourceEncoding wordSize at_ w; Some (negb valid));
     if (bad : bool) then Some (0, false)
     else
       '(value, width) ← identifierRune (pre ++ w ++ post) (lenZ pre);
       Some (value, (0 <? width) && (lenZ pre + width =? lenZ (pre ++ w)))) = Some (v, b) ∧
    (∀ v', rune_body w v' ↔ b = true ∧ v' = v).
Proof.
  intros Hne Hs Hb. destruct w as [|c w]; [done|]. cbn [head mbind option_bind].
  assert (c ≠ chr "\") as Hc by (intros ->; by destruct Hs).
  assert (∀ v', rune_body (c :: w) v' ↔ ∃ r, scalar r ∧ r ≠ 0 ∧ c ≠ newline ∧ c ≠ chr "'" ∧ c :: w = utf8 r ∧ v' = r) as Hrune.
  { intros v'. split.
    - intros H. inversion H as [|e v2 u He|r Hr H0 H1 H2 H3 Hu]; subst; [done|by destruct (escape_slash _ _ _ He) as [? [= ?]]|].
      exists v'. split_and!; try done.
      + intros Hk. by apply H1, (utf8_head v' newline c w).
      + intros Hk. by apply H2, (utf8_head v' (chr "'") c w).
    - intros (r & Hr & H0 & H1 & H2 & Hu & ->). rewrite Hu. symmetry in Hu.
      apply rb_rune; try done; intros Hk; [by apply H1, (utf8_head r newline c w)|by apply H2, (utf8_head r (chr "'") c w)|
        by apply Hc, (utf8_head r (chr "\") c w)]. }
  assert (∀ v', ¬ rune_body (c :: w) v' → rune_body (c :: w) v' ↔ false = true ∧ v' = 0) as Hno by naive_solver.
  destruct (Z.eqb_spec c newline) as [->|H1].
  { exists 0, false. split; [done|]. intros v'. apply Hno. rewrite Hrune. naive_solver. }
  destruct (Z.eqb_spec c (chr "'")) as [->|H2].
  { exists 0, false. split; [done|]. intros v'. apply Hno. rewrite Hrune. naive_solver. }
  cbn [orb orO]. destruct (validSourceEncoding_spec wordSize at_ Hword (c :: w) Hb) as (valid & -> & Hvalid).
  cbn [mbind option_bind]. destruct valid; simpl negb; cbv iota.
  2: { exists 0, false. split; [done|]. intros v'. apply Hno. rewrite Hrune. intros (r & Hr & Hr0 & _ & _ & Hu & _).
       assert (false = true) as [=]. apply Hvalid. rewrite Hu, <- (app_nil_r (utf8 r)). apply st_cons; [done..|apply st_nil]. }
  assert (∃ r rest, c :: w = utf8 r ++ rest ∧ scalar r ∧ r ≠ 0) as (r & rest & Hu & Hr & Hr0).
  { destruct (source_text_inv true (c :: w) (proj1 Hvalid eq_refl) Hne) as (r & rest & ? & ? & ? & _). by exists r, rest. }
  rewrite Hu, <- app_assoc, identifierRune_utf8 by done. cbn [mbind option_bind].
  eexists _, _. split; [reflexivity|]. intros v'. rewrite <- Hu, Hrune, andb_true_iff, Z.ltb_lt, Z.eqb_eq, lenZ_app, Hu, lenZ_app.
  destruct (utf8_nonempty r) as (c' & l & Hc').
  split.
  - intros (r' & Hr' & _ & _ & _ & Hu' & ->). destruct (utf8_prefix_free r r' rest [] Hr Hr') as [<- ->].
    { by rewrite app_nil_r. }
    assert (0 < lenZ (utf8 r)) by (rewrite Hc'; unfold lenZ; simpl; lia). unfold lenZ in *. simpl. lia.
  - intros [[_ Hl] ->]. exists r. split_and!; try done.
    assert (lenZ rest = 0) as Hl0 by lia. destruct rest; [by rewrite app_nil_r|]. unfold lenZ in Hl0. simpl in Hl0. lia.
Qed.

(** The whole function: the value of a token in single quotes, and whether it is one. *)
Lemma RuneLiteralValue_spec tok pre w post :
  token_at tok TokenChar pre (chr "'" :: w ++ [chr "'"]) → bytes_ok w →
  ∃ v b, RuneLiteralValue wordSize base (pre ++ (chr "'" :: w ++ [chr "'"]) ++ post) tok = Some (v, b) ∧
    (∀ v', rune_body w v' ↔ b = true ∧ v' = v).
Proof.
  intros (Hk & Hs & He) Hb. unfold RuneLiteralValue. rewrite Hk, Hs, He.
  pose proof (lenZ_nonneg pre). pose proof (lenZ_nonneg post). pose proof (lenZ_nonneg w).
  change (negb (TokenChar =? TokenChar)) with false.
  rewrite (proj2 (Z.ltb_ge (lenZ pre) 0)), (proj2 (Z.ltb_ge (lenZ (pre ++ _ ++ post)) _)) by (autorewrite with lenZ; lia).
  assert ((lenZ (pre ++ chr "'" :: w ++ [chr "'"]) - lenZ pre <? 3) = bool_decide (w = [])) as ->.
  { autorewrite with lenZ. destruct w as [|c w]; [by apply Z.ltb_lt; autorewrite with lenZ; lia|].
    rewrite bool_decide_false by done. apply Z.ltb_ge. autorewrite with lenZ. pose proof (lenZ_nonneg w). lia. }
  cbn [orb]. destruct (decide (w = [])) as [->|Hne].
  { exists 0, false. split; [done|]. intros v'. split; [|naive_solver].
    intros Hr. inversion Hr as [|e v u Hesc|r _ _ _ _ _ Hu]; subst; [by destruct (escape_slash _ _ _ Hesc)|].
    destruct (utf8_nonempty v') as (? & ? & ?). congruence. }
  rewrite bool_decide_false by done. destruct (quotes_at (chr "'") pre w post) as (Hfirst & Hlast & Heq & Hend).
  unfold byteIs. rewrite Hfirst. cbn [mbind option_bind orO]. rewrite Hlast. fold byteIs. cbn [mbind option_bind orO].
  change (negb (chr "'" =? chr "'")) with false. cbv iota.
  rewrite Hend, Heq, Z.add_simpl_r. rewrite <- (lenZ_snoc pre (chr "'")).
  set (pre1 := pre ++ [chr "'"]). rewrite at_head. destruct w as [|c w]; [done|].
  change (head ((c :: w) ++ chr "'" :: post)) with (Some c). cbn [mbind option_bind].
  destruct (Z.eqb_spec c (chr "\")) as [->|Hc].
  - apply Forall_cons in Hb as [_ Hb].
    exists (escapedRune w).1, (escapedRune w).2. split.
    2: { intros v'. rewrite (escapedRune_spec w v' Hb). destruct (escapedRune w). naive_solver. }
    destruct w as [|esc w].
    { by rewrite (proj2 (Z.leb_le _ _)) by (rewrite lenZ_snoc; lia). }
    rewrite (proj2 (Z.leb_gt _ _)) by (autorewrite with lenZ; pose proof (lenZ_nonneg w); lia).
    rewrite at_offset by lia. change (((chr "\" :: esc :: w) ++ chr "'" :: post) !!z 1) with (Some esc).
    cbn [orO mbind option_bind]. unfold escapedRune. destruct (quote =? esc); [done|].
    destruct (esc =? chr "'").
    { do 2 f_equal. apply eqb_ext. autorewrite with lenZ. lia. }
    simpl app. pose proof (stringEscapeValue_spec pre1 (esc :: w) (chr "'" :: post) Hb) as Hsev. simpl app in Hsev. rewrite Hsev.
    cbn [mbind option_bind]. destruct (escapeAt (esc :: w)) as [[[n v] u]|]; [|done].
    cbn [fmap option_fmap option_map]. do 2 f_equal. apply eqb_ext. autorewrite with lenZ. lia.
  - destruct (plainRune_spec (base + lenZ pre1) pre1 (c :: w) (chr "'" :: post)) as (v & b & Hv & Hspec); [done|naive_solver|done|].
    exists v, b. split; [|done]. rewrite <- Hv.
    pose proof (slice_mid pre1 (c :: w) (chr "'" :: post)) as Hsl. rewrite <- lenZ_app in Hsl. rewrite Hsl. reflexivity.
Qed.

End host.
