(* ===== verification/SyntaxNumbers.v ===== *)
(** Number literals: [validNumberLiteral] accepts exactly the numbers of the grammar. *)

From Stdlib Require Import String Ascii.
From S2P Require Import Prelude.
From S2P Require Import GoInt.
From S2P Require Import SyntaxToken.
From S2P Require Import SyntaxLiteral.
From S2P Require Import SyntaxScan.
From S2P Require Import SyntaxBytes.
From S2P Require Import SyntaxGrammar.
From S2P Require Import SyntaxStrings.

Implicit Types (pre rest post w ds : list Z).

(** * Runs of digits *)

Definition digit_of (base c : Z) : Prop := ∃ x, hexValue c = Some x ∧ x < base.

(** What may follow: [previous] is whether a digit precedes. *)
Inductive digits_from (base : Z) : bool → list Z → Prop :=
| df_nil : digits_from base true []
| df_under w : digits_from base false w → digits_from base true (chr "_" :: w)
| df_digit previous c w :
    digit_of base c → digits_from base true w → digits_from base previous (c :: w).

Lemma digits_from_of base w : digits_from base false w ↔ digits_of base w.
Proof.
  split.
  - intros H. assert (∀ p w, digits_from base p w →
      if p then ∀ c, digit_of base c → digits_of base (c :: w) else digits_of base w) as Hall; [|exact (Hall false w H)].
    clear w H. intros p w H. induction H as [|w H IH|p c w Hc H IH].
    + intros c (x & ? & ?). by apply (do_one base c x).
    + intros c (x & ? & ?). by apply (do_under base c x).
    + destruct p; [|by apply IH]. intros c' (x & ? & ?). apply (do_next base c' x); [done..|by apply IH].
  - induction 1 as [c x Hx Hb|c x w Hx Hb H IH|c x w Hx Hb H IH].
    + apply df_digit; [by exists x|constructor].
    + apply df_digit; [by exists x|]. inversion IH; subst. by apply df_digit.
    + apply df_digit; [by exists x|]. by apply df_under.
Qed.

(** A byte behind a run of digits. *)
Definition ends_run (base c : Z) : bool :=
  negb (c =? chr "_") &&
  match hexValue c with
  | None => true
  | Some _ => negb (base =? 16) && ((c <? chr "0") || (chr "9" <? c))
  end.
Definition run_ends (base : Z) (rest : list Z) : Prop :=
  match rest with [] => True | c :: _ => ends_run base c = true end.

(** The digits among digits and underscores. *)
Definition countDigits w : Z := lenZ (filter (λ c, c ≠ chr "_") w).

Lemma countDigits_cons c w : countDigits (c :: w) = (if decide (c ≠ chr "_") then 1 else 0) + countDigits w.
Proof. unfold countDigits. rewrite filter_cons. destruct (decide _); rewrite ?lenZ_cons; lia. Qed.

Lemma countDigits_nonneg w : 0 ≤ countDigits w.
Proof. apply lenZ_nonneg. Qed.

Lemma under_not_digit : hexValue (chr "_") = None.
Proof. reflexivity. Qed.

Lemma digit_not_under base c : digit_of base c → c ≠ chr "_".
Proof. intros (x & Hx & _) ->. by rewrite under_not_digit in Hx. Qed.

(** A decimal digit is one of ['0'..'9'], also in the smaller bases. *)
Lemma small_digit base c x : hexValue c = Some x → x < base → base ≤ 10 → chr "0" ≤ c ≤ chr "9".
Proof.
  unfold hexValue. change (chr "0") with 48. change (chr "9") with 57. change (chr "a") with 97.
  change (chr "f") with 102. change (chr "A") with 65. change (chr "F") with 70.
  repeat case_match; intros [= <-]; repeat match goal with
    | H : _ && _ = true |- _ => apply andb_true_iff in H as [?%Z.leb_le ?%Z.leb_le] end; lia.
Qed.

(** The bases of Go's numbers. *)
Definition go_base (base : Z) : Prop := base = 2 ∨ base = 8 ∨ base = 10 ∨ base = 16.

Lemma digit_continues base c x :
  go_base base → hexValue c = Some x → x < base →
  negb (base =? 16) && ((c <? chr "0") || (chr "9" <? c)) = false ∧ (base <=? x) = false.
Proof.
  intros Hb Hx Hlt. split; [|apply Z.leb_gt; lia]. destruct (Z.eqb_spec base 16); [done|]. simpl.
  pose proof (small_digit base c x Hx Hlt ltac:(unfold go_base in Hb; lia)).
  apply orb_false_iff. rewrite !Z.ltb_ge. lia.
Qed.

Definition runResult pre w count ok : option (Z * Z * bool) := Some (lenZ (pre ++ w), count + countDigits w, ok).

Lemma digitRun_end fuel pre rest post start base count previous :
  run_ends base rest → start ≤ lenZ pre →
  digitRun fuel (pre ++ rest ++ post) start (lenZ (pre ++ rest)) base (lenZ pre) count previous =
  runResult pre [] count (negb ((start <? lenZ pre) && negb previous)) ∨ fuel = O ∧ rest ≠ [].
Proof.
  intros Hr Hs. unfold runResult. rewrite app_nil_r. unfold countDigits. simpl. rewrite Z.add_0_r.
  destruct rest as [|c rest].
  { left. rewrite app_nil_r. destruct fuel; simpl; by rewrite Z.leb_refl. }
  destruct fuel as [|fuel]; [by right|]. left. cbn [digitRun].
  rewrite (proj2 (Z.leb_gt _ _)) by (autorewrite with lenZ; pose proof (lenZ_nonneg rest); lia).
  simpl app. rewrite at_head. change (head (c :: rest ++ post)) with (Some c). cbn [mbind option_bind].
  simpl in Hr. unfold ends_run in Hr. apply andb_true_iff in Hr as [->%negb_true_iff Hr].
  destruct (hexValue c); [|done]. by rewrite Hr.
Qed.

Lemma digitRun_complete fuel pre w rest post start base count previous :
  go_base base → digits_from base previous w → run_ends base rest → start ≤ lenZ pre →
  (w = [] → previous = true) → (length (w ++ rest) ≤ fuel)%nat →
  digitRun fuel (pre ++ (w ++ rest) ++ post) start (lenZ (pre ++ w ++ rest)) base (lenZ pre) count previous =
  runResult pre w count true.
Proof.
  intros Hbase Hw Hr. revert pre fuel count. induction Hw as [|w Hw IH|previous c w Hc Hw IH]; intros pre fuel count Hs Hp Hf.
  - simpl app. destruct (digitRun_end fuel pre rest post start base count true Hr Hs) as [->|[-> Hne]].
    + simpl. by rewrite andb_false_r.
    + destruct rest; [done|]. simpl in Hf. lia.
  - destruct fuel as [|fuel]; [simpl in Hf; lia|]. cbn [digitRun].
    rewrite (proj2 (Z.leb_gt _ _)) by (autorewrite with lenZ; pose proof (lenZ_nonneg w); pose proof (lenZ_nonneg rest); lia).
    simpl app. rewrite at_head. change (head (chr "_" :: (w ++ rest) ++ post)) with (Some (chr "_")). cbn [mbind option_bind].
    change (chr "_" =? chr "_") with true. simpl negb. cbv iota.
    rewrite <- (lenZ_snoc pre (chr "_")), (advance pre (chr "_") ((w ++ rest) ++ post)), (advance pre (chr "_") (w ++ rest)).
    rewrite IH; [|rewrite lenZ_snoc; lia|by intros ->; inversion Hw|simpl in Hf; lia].
    unfold runResult. rewrite countDigits_cons, <- app_assoc. rewrite decide_False by naive_solver. reflexivity.
  - destruct fuel as [|fuel]; [simpl in Hf; lia|]. cbn [digitRun].
    rewrite (proj2 (Z.leb_gt _ _)) by (autorewrite with lenZ; pose proof (lenZ_nonneg w); pose proof (lenZ_nonneg rest); lia).
    simpl app. rewrite at_head. change (head (c :: (w ++ rest) ++ post)) with (Some c). cbn [mbind option_bind].
    pose proof (digit_not_under base c Hc) as Hu. rewrite (proj2 (Z.eqb_neq _ _) Hu).
    destruct Hc as (x & Hx & Hlt). rewrite Hx. destruct (digit_continues base c x Hbase Hx Hlt) as [-> ->].
    rewrite <- (lenZ_snoc pre c), (advance pre c ((w ++ rest) ++ post)), (advance pre c (w ++ rest)).
    rewrite IH; [|rewrite lenZ_snoc; lia|done|simpl in Hf; lia].
    unfold runResult. rewrite countDigits_cons, <- app_assoc. rewrite decide_True by done. simpl. do 3 f_equal. lia.
Qed.

(** What [digitRun] finds from [pre] on, in the text [rest]. *)
Definition run_found (base : Z) pre rest (previous : bool) (start count : Z) (r : option (Z * Z * bool)) : Prop :=
  ∃ w rest' ok,
    rest = w ++ rest' ∧ r = runResult pre w count ok ∧
    (ok = true → (digits_from base previous w ∨ w = [] ∧ start = lenZ pre) ∧ run_ends base rest').

Lemma run_found_end fuel pre rest post start base count previous :
  run_ends base rest → start ≤ lenZ pre → (length rest ≤ fuel)%nat →
  run_found base pre rest previous start count
    (digitRun fuel (pre ++ rest ++ post) start (lenZ (pre ++ rest)) base (lenZ pre) count previous).
Proof.
  intros Hr Hs Hf. exists [], rest, (negb ((start <? lenZ pre) && negb previous)).
  destruct (digitRun_end fuel pre rest post start base count previous Hr Hs) as [->|[-> Hne]].
  2: { destruct rest; [done|]. simpl in Hf. lia. }
  split_and!; [done..|]. destruct previous; [split; [left; constructor|done]|].
  rewrite andb_true_r, negb_true_iff, Z.ltb_ge. intros. split; [right; split; [done|lia]|done].
Qed.

Lemma digitRun_sound fuel pre rest post start base count previous :
  go_base base → start ≤ lenZ pre → (length rest ≤ fuel)%nat →
  run_found base pre rest previous start count
    (digitRun fuel (pre ++ rest ++ post) start (lenZ (pre ++ rest)) base (lenZ pre) count previous).
Proof.
  intros Hbase. revert pre rest count previous. induction fuel as [|fuel IH]; intros pre rest count previous Hs Hf.
  { destruct rest; [|simpl in Hf; lia]. by apply run_found_end. }
  destruct rest as [|c rest]; [by apply run_found_end|].
  destruct (ends_run base c) eqn:Hend; [by apply run_found_end|].
  cbn [digitRun].
  rewrite (proj2 (Z.leb_gt _ _)) by (autorewrite with lenZ; pose proof (lenZ_nonneg rest); lia).
  simpl app. rewrite at_head. change (head (c :: rest ++ post)) with (Some c). cbn [mbind option_bind].
  assert (runResult pre [] count false = Some (lenZ pre, count, false)) as Hfail.
  { unfold runResult, countDigits. rewrite app_nil_r. simpl. by rewrite Z.add_0_r. }
  unfold ends_run in Hend. destruct (Z.eqb_spec c (chr "_")) as [->|Hu]; simpl in Hend.
  - destruct previous; simpl negb; cbv iota.
    2: { exists [], (chr "_" :: rest), false. by rewrite Hfail. }
    rewrite <- (lenZ_snoc pre (chr "_")), (advance pre (chr "_") (rest ++ post)), (advance pre (chr "_") rest).
    destruct (IH (pre ++ [chr "_"]) rest count false ltac:(rewrite lenZ_snoc; lia) ltac:(simpl in Hf; lia))
      as (w & rest' & ok & -> & -> & Hok).
    exists (chr "_" :: w), rest', ok. split_and!; [done| |].
    + unfold runResult. rewrite countDigits_cons, <- app_assoc. rewrite decide_False by naive_solver. reflexivity.
    + intros H. destruct (Hok H) as [[Hw|[-> Hst]] Hre]; [split; [left; by apply df_under|done]|].
      rewrite lenZ_snoc in Hst. lia.
  - destruct (hexValue c) as [x|] eqn:Hx; [|done]. simpl in Hend. rewrite Hend.
    destruct (Z.leb_spec base x) as [Hle|Hlt].
    { exists [], (c :: rest), false. by rewrite Hfail. }
    rewrite <- (lenZ_snoc pre c), (advance pre c (rest ++ post)), (advance pre c rest).
    destruct (IH (pre ++ [c]) rest (count + 1) true ltac:(rewrite lenZ_snoc; lia) ltac:(simpl in Hf; lia))
      as (w & rest' & ok & -> & -> & Hok).
    exists (c :: w), rest', ok. split_and!; [done| |].
    + unfold runResult. rewrite countDigits_cons, <- app_assoc. rewrite decide_True by done. simpl. do 3 f_equal. lia.
    + intros H. destruct (Hok H) as [[Hw|[-> Hst]] Hre]; [split; [left; apply df_digit; [by exists x|done]|done]|].
      rewrite lenZ_snoc in Hst. lia.
Qed.

(** The digits of [numberDigitRun], behind an underscore when a prefix precedes. *)
Definition run_word (prefix : bool) (base : Z) w : Prop :=
  w = [] ∨ ∃ u ds, w = u ++ ds ∧ (u = [] ∨ prefix = true ∧ u = [chr "_"]) ∧ digits_of base ds.

Lemma digits_of_count base ds : digits_of base ds → 0 < countDigits ds.
Proof.
  rewrite <- digits_from_of. intros H. inversion H as [| |p c w Hc Hw]; subst.
  rewrite countDigits_cons, decide_True by (by eapply digit_not_under). pose proof (countDigits_nonneg w). lia.
Qed.

Lemma run_word_count prefix base w : run_word prefix base w → countDigits w = 0 ↔ w = [].
Proof.
  intros [->|(u & ds & -> & Hu & Hd)]; [done|]. apply digits_of_count in Hd as Hc.
  assert (countDigits (u ++ ds) = countDigits ds) as ->.
  { destruct Hu as [->|[_ ->]]; [done|]. simpl app. rewrite countDigits_cons, decide_False by naive_solver. lia. }
  split; [lia|]. intros [-> ->]%app_eq_nil. done.
Qed.

Lemma numberDigitRun_complete pre w rest post base prefix :
  go_base base → run_word prefix base w → run_ends base rest →
  numberDigitRun (pre ++ (w ++ rest) ++ post) (lenZ pre) (lenZ (pre ++ w ++ rest)) base prefix =
  Some (lenZ (pre ++ w), countDigits w, true).
Proof.
  intros Hbase Hw Hr. unfold numberDigitRun.
  assert (∀ w, length (w ++ rest) ≤ length (pre ++ (w ++ rest) ++ post))%nat as Hfuel by (intros; rewrite !length_app; lia).
  assert (prefix = false ∨ head (w ++ rest) ≠ Some (chr "_") →
    (Some (prefix && (lenZ pre <? lenZ (pre ++ w ++ rest))) &&?
       byteIs (pre ++ (w ++ rest) ++ post) (lenZ pre) (Z.eqb (chr "_"))) = Some false) as Hno.
  { intros H. destruct prefix; [|done]. destruct (w ++ rest) as [|c l]; [by rewrite outside|].
    rewrite inside. simpl. rewrite byteIs_head. destruct (Z.eqb_spec (chr "_") c) as [<-|]; [|done]. naive_solver. }
  destruct Hw as [->|(u & ds & -> & Hu & Hd)].
  - simpl app. simpl app in Hno. rewrite Hno.
    2: { right. destruct rest as [|c rest]; [done|]. simpl in Hr |- *. intros [= ->]. done. }
    cbn [mbind option_bind]. destruct (digitRun_end (length (pre ++ rest ++ post)) pre rest post (lenZ pre) base 0 false Hr ltac:(lia)) as [->|[Hf Hne]].
    + unfold runResult. by rewrite Z.ltb_irrefl.
    + rewrite !length_app in Hf. destruct rest; [done|]. simpl in Hf. lia.
  - destruct Hu as [->|[-> ->]].
    + simpl app in Hno |- *. rewrite Hno.
      2: { right. apply digits_from_of in Hd. inversion Hd as [| |p c w Hc Hw]; subst. simpl. intros [= ->].
           by apply digit_not_under in Hc. }
      cbn [mbind option_bind]. rewrite digitRun_complete; [done|done|by apply digits_from_of|done|lia| |done].
      intros ->. apply digits_from_of in Hd. inversion Hd.
    + simpl app. rewrite inside, byteIs_head. change (chr "_" =? chr "_") with true. simpl andO. cbn [mbind option_bind].
      rewrite <- (lenZ_snoc pre (chr "_")), (advance pre (chr "_") ((ds ++ rest) ++ post)), (advance pre (chr "_") (ds ++ rest)).
      rewrite digitRun_complete; [|done|by apply digits_from_of|done|rewrite lenZ_snoc; lia| |rewrite !length_app; simpl; lia].
      * unfold runResult. rewrite countDigits_cons, decide_False by naive_solver. by rewrite <- app_assoc.
      * intros ->. apply digits_from_of in Hd. inversion Hd.
Qed.

Lemma numberDigitRun_sound pre rest post base prefix :
  go_base base →
  ∃ w rest' ok,
    rest = w ++ rest' ∧
    numberDigitRun (pre ++ rest ++ post) (lenZ pre) (lenZ (pre ++ rest)) base prefix =
      Some (lenZ (pre ++ w), countDigits w, ok) ∧
    (ok = true → run_word prefix base w ∧ run_ends base rest').
Proof.
  intros Hbase. unfold numberDigitRun.
  destruct (decide (prefix = true ∧ head rest = Some (chr "_"))) as [[-> Hh]|Hno].
  - destruct rest as [|c rest]; [done|]. injection Hh as ->. rewrite inside. simpl app. rewrite byteIs_head.
    change (chr "_" =? chr "_") with true. cbn [andb andO mbind option_bind].
    rewrite <- (lenZ_snoc pre (chr "_")), (advance pre (chr "_") (rest ++ post)), (advance pre (chr "_") rest).
    destruct (digitRun_sound (length ((pre ++ [chr "_"]) ++ rest ++ post)) (pre ++ [chr "_"]) rest post (lenZ pre) base 0 false)
      as (w & rest' & ok & -> & -> & Hok); [done|rewrite lenZ_snoc; lia|rewrite !length_app; lia|].
    exists (chr "_" :: w), rest', ok. split_and!; [done| |].
    + unfold runResult. rewrite countDigits_cons, decide_False by naive_solver. by rewrite <- app_assoc.
    + intros H. destruct (Hok H) as [[Hw|[-> Hst]] Hre]; [|rewrite lenZ_snoc in Hst; lia].
      split; [|done]. right. exists [chr "_"], w. split_and!; [done|by right|by apply digits_from_of].
  - assert ((Some (prefix && (lenZ pre <? lenZ (pre ++ rest))) &&?
       byteIs (pre ++ rest ++ post) (lenZ pre) (Z.eqb (chr "_"))) = Some false) as ->.
    { destruct prefix; [|done]. destruct rest as [|c l]; [by rewrite outside|].
      rewrite inside. simpl. rewrite byteIs_head. destruct (Z.eqb_spec (chr "_") c) as [<-|]; [|done]. naive_solver. }
    cbn [mbind option_bind].
    destruct (digitRun_sound (length (pre ++ rest ++ post)) pre rest post (lenZ pre) base 0 false)
      as (w & rest' & ok & -> & -> & Hok); [done|lia|rewrite !length_app; lia|].
    exists w, rest', ok. split_and!; [done|done|]. intros H.
    destruct (Hok H) as [[Hw|[-> _]] Hre]; (split; [|done]); [|by left].
    right. exists [], w. split_and!; [done|by left|by apply digits_from_of].
Qed.

(** * Exponent and fraction *)

Definition exponent_marks (base : Z) : list Z :=
  if base =? 10 then [chr "e"; chr "E"] else if base =? 16 then [chr "p"; chr "P"] else [].
Definition isMark (base c : Z) : bool :=
  ((base =? 10) && ((c =? chr "e") || (c =? chr "E"))) || ((base =? 16) && ((c =? chr "p") || (c =? chr "P"))).

Lemma isMark_spec base c : isMark base c = true ↔ c ∈ exponent_marks base.
Proof.
  unfold isMark, exponent_marks. rewrite orb_true_iff, !andb_true_iff, !orb_true_iff, !Z.eqb_eq.
  destruct (Z.eqb_spec base 10) as [->|]; [|destruct (Z.eqb_spec base 16) as [->|]];
    rewrite ?elem_of_cons, ?elem_of_nil; lia.
Qed.

Lemma guarded_mid pre rest post P :
  Some (lenZ pre <? lenZ (pre ++ rest)) &&? byteIs (pre ++ rest ++ post) (lenZ pre) P =
  Some (match rest with [] => false | c :: _ => P c end).
Proof.
  destruct rest as [|c rest]; [by rewrite outside|]. rewrite inside. simpl. apply byteIs_head.
Qed.

Definition sign_of w : Prop := w = [] ∨ w = [chr "+"] ∨ w = [chr "-"].

(** A sign is read when it is there. *)
Lemma sign_split rest :
  ∃ sign rest', rest = sign ++ rest' ∧ sign_of sign ∧
    match rest with [] => false | c :: _ => (c =? chr "+") || (c =? chr "-") end = bool_decide (sign ≠ []) ∧
    ∀ pre, (if bool_decide (sign ≠ []) then lenZ pre + 1 else lenZ pre) = lenZ (pre ++ sign).
Proof.
  destruct rest as [|c rest].
  { exists [], []. split_and!; [done|by left|done|]. intros pre. by rewrite app_nil_r. }
  destruct ((c =? chr "+") || (c =? chr "-")) eqn:Hs.
  - exists [c], rest. split_and!; [done| |done|intros pre; by rewrite lenZ_snoc].
    apply orb_true_iff in Hs as [->%Z.eqb_eq| ->%Z.eqb_eq]; unfold sign_of; naive_solver.
  - exists [], (c :: rest). split_and!; [done|by left|done|]. intros pre. by rewrite app_nil_r.
Qed.

Lemma numberExponent_sound pre rest post base :
  ∃ r, numberExponent (pre ++ rest ++ post) (lenZ pre) (lenZ (pre ++ rest)) base = Some r ∧
    match r with
    | None => True
    | Some (pos, exponent) =>
        ∃ e rest', rest = e ++ rest' ∧ pos = lenZ (pre ++ e) ∧
          if (exponent : bool) then exponent_of (exponent_marks base) e else e = []
    end.
Proof.
  unfold numberExponent. rewrite guarded_mid. cbn [mbind option_bind].
  destruct rest as [|c rest].
  { eexists. split; [done|]. exists [], []. split_and!; [done|by rewrite app_nil_r|done]. }
  destruct (isMark base c) eqn:Hm; unfold isMark in Hm; rewrite Hm.
  2: { eexists. split; [done|]. exists [], (c :: rest). split_and!; [done|by rewrite app_nil_r|done]. }
  apply isMark_spec in Hm. rewrite <- (lenZ_snoc pre c). simpl app.
  rewrite (advance pre c (rest ++ post)), (advance pre c rest), guarded_mid. cbn [mbind option_bind].
  destruct (sign_split rest) as (sign & ds & -> & Hsign & -> & Hpos). rewrite Hpos.
  set (pre1 := pre ++ [c]). replace (pre1 ++ (sign ++ ds) ++ post) with ((pre1 ++ sign) ++ ds ++ post) by (by rewrite <- !app_assoc).
  replace (pre1 ++ sign ++ ds) with ((pre1 ++ sign) ++ ds) by (by rewrite <- !app_assoc).
  destruct (numberDigitRun_sound (pre1 ++ sign) ds post 10 false) as (w & rest' & ok & -> & -> & Hok); [unfold go_base; lia|].
  cbn [mbind option_bind]. eexists. split; [done|]. destruct ok; [|done]. simpl negb.
  destruct (Hok eq_refl) as [Hw _]. destruct (Z.eqb_spec (countDigits w) 0) as [|Hne]; [done|]. simpl.
  exists (c :: sign ++ w), rest'. split_and!; [simpl; by rewrite <- app_assoc|unfold pre1; by rewrite <- !app_assoc|].
  exists c, sign, w. split_and!; [done|done| |done].
  destruct Hw as [->|(u & w' & -> & [->|[? _]] & Hd)]; [by destruct Hne|done|done].
Qed.

Lemma numberExponent_complete pre e post base :
  e = [] ∨ exponent_of (exponent_marks base) e →
  numberExponent (pre ++ e ++ post) (lenZ pre) (lenZ (pre ++ e)) base =
  Some (Some (lenZ (pre ++ e), bool_decide (e ≠ []))).
Proof.
  unfold numberExponent. rewrite guarded_mid. intros [->|(c & sign & ds & Hm & Hsign & Hd & ->)]; [by rewrite app_nil_r|].
  apply isMark_spec in Hm. unfold isMark in Hm. rewrite Hm. cbn [mbind option_bind].
  rewrite <- (lenZ_snoc pre c). simpl app.
  rewrite (advance pre c ((sign ++ ds) ++ post)), (advance pre c (sign ++ ds)), guarded_mid. cbn [mbind option_bind].
  set (pre1 := pre ++ [c]).
  assert ((if match sign ++ ds with [] => false | c :: _ => (c =? chr "+") || (c =? chr "-") end
           then lenZ pre1 + 1 else lenZ pre1) = lenZ (pre1 ++ sign)) as ->.
  { destruct Hsign as [->|[->| ->]]; [|by rewrite lenZ_snoc..]. rewrite app_nil_r. simpl app.
    apply digits_from_of in Hd. inversion Hd as [| |p d w (x & Hx & Hlt) Hw]; subst.
    apply (small_digit 10) in Hx; [|lia|lia]. change (chr "0") with 48 in Hx. change (chr "9") with 57 in Hx.
    rewrite (proj2 (Z.eqb_neq _ (chr "+"))), (proj2 (Z.eqb_neq _ (chr "-"))); [done|..];
      intros ->; vm_compute in Hx; naive_solver. }
  replace (pre1 ++ (sign ++ ds) ++ post) with ((pre1 ++ sign) ++ (ds ++ []) ++ post) by (rewrite app_nil_r; by rewrite <- !app_assoc).
  replace (pre1 ++ sign ++ ds) with ((pre1 ++ sign) ++ ds ++ []) by (rewrite app_nil_r; by rewrite <- !app_assoc).
  rewrite numberDigitRun_complete; [|unfold go_base; lia|right; exists [], ds; naive_solver|done].
  cbn [mbind option_bind]. apply digits_of_count in Hd. rewrite (proj2 (Z.eqb_neq _ _)) by lia. simpl.
  unfold pre1. by rewrite app_nil_r, <- !app_assoc.
Qed.

(** A fraction: the dot and the digits behind it. *)
Definition fraction_of (base : Z) f part : Prop :=
  (f = [] ∧ part = []) ∨ ((base = 10 ∨ base = 16) ∧ f = chr "." :: part ∧ run_word false base part).

Lemma numberFraction_sound pre rest post base :
  go_base base →
  ∃ r, numberFraction (pre ++ rest ++ post) (lenZ pre) (lenZ (pre ++ rest)) base = Some r ∧
    match r with
    | None => True
    | Some (pos, after, dot) =>
        ∃ f part rest', rest = f ++ rest' ∧ pos = lenZ (pre ++ f) ∧ fraction_of base f part ∧
          dot = bool_decide (f ≠ []) ∧ after = countDigits part
    end.
Proof.
  intros Hbase. unfold numberFraction. rewrite guarded_mid. cbn [mbind option_bind].
  assert (∃ r, Some (Some (lenZ pre, 0, false)) = Some r ∧
    match r with
    | None => True
    | Some (pos, after, dot) =>
        ∃ f part rest', rest = f ++ rest' ∧ pos = lenZ (pre ++ f) ∧ fraction_of base f part ∧
          dot = bool_decide (f ≠ []) ∧ after = countDigits part
    end) as Hnone.
  { eexists. split; [done|]. exists [], [], rest. rewrite app_nil_r. split_and!; try done. by left. }
  destruct rest as [|c rest]; [done|]. destruct (Z.eqb_spec (chr ".") c) as [<-|]; [|done]. clear Hnone.
  destruct (negb (base =? 10) && negb (base =? 16)) eqn:Hb.
  { by exists None. }
  rewrite <- (lenZ_snoc pre (chr ".")). simpl app.
  rewrite (advance pre _ (rest ++ post)), (advance pre _ rest).
  destruct (numberDigitRun_sound (pre ++ [chr "."]) rest post base false Hbase) as (w & rest' & ok & -> & -> & Hok).
  cbn [mbind option_bind]. eexists. split; [done|]. destruct ok; [|done]. simpl.
  exists (chr "." :: w), w, rest'. split_and!; [done|by rewrite <- app_assoc| |done|done].
  right. split_and!; [|done|by apply Hok]. apply andb_false_iff in Hb.
  rewrite !negb_false_iff, !Z.eqb_eq in Hb. lia.
Qed.

Lemma numberFraction_complete pre f part rest post base :
  go_base base → fraction_of base f part → run_ends base rest → head rest ≠ Some (chr ".") →
  numberFraction (pre ++ (f ++ rest) ++ post) (lenZ pre) (lenZ (pre ++ f ++ rest)) base =
  Some (Some (lenZ (pre ++ f), countDigits part, bool_decide (f ≠ []))).
Proof.
  intros Hbase Hf Hr Hh. unfold numberFraction. rewrite guarded_mid. cbn [mbind option_bind].
  destruct Hf as [[-> ->]|(Hb & -> & Hw)].
  - simpl app. destruct rest as [|c rest]; [by rewrite app_nil_r|].
    destruct (Z.eqb_spec (chr ".") c) as [<-|]; [done|]. by rewrite app_nil_r.
  - simpl app. change (chr "." =? chr ".") with true. cbv iota.
    rewrite (advance pre _ ((part ++ rest) ++ post)), (advance pre _ (part ++ rest)), <- (lenZ_snoc pre (chr ".")).
    rewrite numberDigitRun_complete by done. cbn [mbind option_bind]. simpl. rewrite <- app_assoc.
    by destruct Hb as [->| ->].
Qed.

(** * The parts of a number *)

(** Base, prefix, digits, fraction with its digits, exponent. *)
Definition prefix_of (base : Z) pfx : Prop :=
  (pfx = [] ∧ base = 10) ∨ ∃ c, pfx = [chr "0"; c] ∧ prefix_base c base.

Definition number_parts (imaginary : bool) (base : Z) pfx w f part e : Prop :=
  prefix_of base pfx ∧ run_word (bool_decide (pfx ≠ [])) base w ∧ fraction_of base f part ∧ w ++ part ≠ [] ∧
  (e = [] ∨ exponent_of (exponent_marks base) e) ∧ (base = 16 → f ≠ [] → e ≠ []) ∧
  (pfx = [] → f = [] → e = [] → imaginary = false → head w = Some (chr "0") → digits_of 8 w).

Lemma prefix_base_go c base : prefix_base c base → go_base base ∧ base ≠ 10.
Proof. unfold prefix_base, go_base. lia. Qed.

Lemma prefix_of_go base pfx : prefix_of base pfx → go_base base.
Proof. intros [[_ ->]|(c & _ & [? _]%prefix_base_go)]; [unfold go_base; lia|done]. Qed.

Lemma opt_digits_run base w : opt_digits base w ↔ run_word false base w.
Proof.
  unfold opt_digits, run_word. split.
  - intros [->|H]; [by left|]. right. exists [], w. naive_solver.
  - intros [->|(u & ds & -> & [->|[? _]] & Hd)]; [by left|by right|done].
Qed.

Lemma opt_under_run base u ds : opt_under u → digits_of base ds → run_word true base (u ++ ds).
Proof. intros Hu Hd. right. exists u, ds. split_and!; [done| |done]. destruct Hu; naive_solver. Qed.

Lemma digits_of_nonempty base ds : digits_of base ds → ds ≠ [].
Proof. intros H ->. apply digits_of_count in H. by unfold countDigits in H. Qed.

Lemma exponent_nonempty marks e : exponent_of marks e → e ≠ [].
Proof. by intros (m & sign & ds & _ & _ & _ & ->). Qed.

Lemma number_body_parts imaginary body :
  number_body imaginary body →
  ∃ base pfx w f part e, body = pfx ++ w ++ f ++ e ∧ number_parts imaginary base pfx w f part e.
Proof.
  unfold number_parts, prefix_of, fraction_of.
  destruct 1 as [im c base u ds Hc Hu Hd|im c u ds e Hc Hu Hd He|im c u whole part e Hc Hu Hw Hp Hne Hwu He
    |im ds Hd Ho|im ds e Hd He|im whole part e Hw Hp Hne He].
  - exists base, [chr "0"; c], (u ++ ds), [], [], []. rewrite !app_nil_r. split; [done|].
    split_and!; try done; [by right; exists c|by apply opt_under_run|by left| |by left].
    intros [_ ->]%app_eq_nil. by apply digits_of_nonempty in Hd.
  - exists 16, [chr "0"; c], (u ++ ds), [], [], e. simpl. split; [by rewrite <- !app_assoc|].
    split_and!; try done; [by right; exists c|by apply opt_under_run|by left| |by right].
    rewrite app_nil_r. intros [_ ->]%app_eq_nil. by apply digits_of_nonempty in Hd.
  - exists 16, [chr "0"; c], (u ++ whole), (chr "." :: part), part, e. simpl.
    split; [by rewrite <- !app_assoc|]. split_and!; try done; [by right; exists c| | | |by right|].
    + destruct Hw as [->|Hw]; [rewrite Hwu by done; by left|by apply opt_under_run].
    + right. split_and!; [by right|done|by apply opt_digits_run].
    + destruct whole as [|c' whole]; [by rewrite Hwu|]. by destruct u.
    + intros _ _. by eapply exponent_nonempty.
  - exists 10, [], ds, [], [], []. rewrite !app_nil_r. split; [done|]. split_and!; try done; [by left| |by left| |by left].
    + apply opt_digits_run. by right.
    + by eapply digits_of_nonempty.
  - exists 10, [], ds, [], [], e. split; [done|]. split_and!; try done; [by left| |by left| |by right|].
    + apply opt_digits_run. by right.
    + rewrite app_nil_r. by eapply digits_of_nonempty.
    + intros _ _ ->. by apply exponent_nonempty in He.
  - exists 10, [], whole, (chr "." :: part), part, e. split; [done|]. split_and!; try done; [by left| |].
    + by apply opt_digits_run.
    + right. split_and!; [by left|done|by apply opt_digits_run].
Qed.

Lemma number_parts_body imaginary base pfx w f part e :
  number_parts imaginary base pfx w f part e → number_body imaginary (pfx ++ w ++ f ++ e).
Proof.
  intros (Hp & Hw & Hf & Hne & He & H16 & Ho). destruct Hp as [[-> ->]|(c & -> & Hc)].
  - change (bool_decide (@nil Z ≠ [])) with false in Hw. apply opt_digits_run in Hw. simpl.
    destruct Hf as [[-> ->]|(_ & -> & Hpart)].
    + rewrite app_nil_r in Hne. destruct Hw as [->|Hw]; [done|]. simpl.
      destruct He as [->|He]; [|by apply nb_exponent]. rewrite app_nil_r. apply nb_integer; [done|]. intros; by apply Ho.
    + apply opt_digits_run in Hpart. by apply nb_fraction.
  - rewrite bool_decide_true in Hw by done. destruct Hf as [[-> ->]|(Hb & -> & Hpart)].
    + rewrite app_nil_r in Hne. destruct Hw as [->|(u & ds & -> & Hu & Hd)]; [done|]. simpl.
      assert (opt_under u) as Hu' by (destruct Hu as [->|[_ ->]]; [by left|by right]).
      destruct He as [->|He]; [rewrite app_nil_r; by eapply nb_prefixed|].
      rewrite <- app_assoc. assert (base = 16) as ->; [|by apply nb_hex_exponent].
      destruct He as (m & ? & ? & Hm & _). destruct (prefix_base_go c base Hc) as [_ H10].
      unfold exponent_marks in Hm. rewrite (proj2 (Z.eqb_neq base 10) H10) in Hm.
      destruct (Z.eqb_spec base 16); [done|]. by apply elem_of_nil in Hm.
    + destruct (prefix_base_go c base Hc) as [_ H10]. destruct Hb as [->| ->]; [done|].
      destruct He as [->|He]; [by destruct (H16 eq_refl)|]. apply opt_digits_run in Hpart.
      destruct Hw as [->|(u & ds & -> & Hu & Hd)].
      * apply (nb_hex_fraction imaginary c [] [] part e); try done; by left.
      * simpl. rewrite <- app_assoc. apply nb_hex_fraction; try done.
        -- destruct Hu as [->|[_ ->]]; [by left|by right].
        -- by right.
        -- intros [-> _]%app_eq_nil. by apply digits_of_nonempty in Hd.
        -- intros ->. by apply digits_of_nonempty in Hd.
Qed.

(** ** No part holds the suffix, or looks like a prefix *)

Definition safe (base c : Z) : Prop := c ≠ chr "i" ∧ c ≠ newline ∧ (base = 10 → isPrefixByte c = false).

Lemma safe_digit base c : digit_of base c → safe base c.
Proof.
  intros (x & Hx & Hlt). split_and!; [by intros ->|by intros ->|]. intros ->.
  apply (small_digit 10) in Hx; [|lia|lia].
  change (chr "0") with 48 in Hx. change (chr "9") with 57 in Hx. unfold isPrefixByte.
  change (chr "x") with 120. change (chr "X") with 88. change (chr "b") with 98. change (chr "B") with 66.
  change (chr "o") with 111. change (chr "O") with 79. by rewrite !(proj2 (Z.eqb_neq c _)) by lia.
Qed.

Lemma safe_const base c :
  negb (c =? chr "i") && negb (c =? newline) && negb (isPrefixByte c) = true → safe base c.
Proof.
  intros [[?%negb_true_iff%Z.eqb_neq ?%negb_true_iff%Z.eqb_neq]%andb_true_iff ?%negb_true_iff]%andb_true_iff.
  by split_and!.
Qed.

Lemma safe_digits base previous w : digits_from base previous w → Forall (safe base) w.
Proof. induction 1; [done|by constructor; [apply safe_const|]|by constructor; [apply safe_digit|]]. Qed.

Lemma safe_run prefix base w : run_word prefix base w → Forall (safe base) w.
Proof.
  intros [->|(u & ds & -> & Hu & Hd)]; [done|]. apply Forall_app. split; [|by eapply safe_digits, digits_from_of].
  destruct Hu as [->|[_ ->]]; [done|apply list.Forall_singleton; by apply safe_const].
Qed.

Lemma safe_fraction base f part : fraction_of base f part → Forall (safe base) f.
Proof.
  intros [[-> _]|(_ & -> & Hw)]; [done|]. constructor; [by apply safe_const|by eapply safe_run].
Qed.

Lemma safe_exponent base e : exponent_of (exponent_marks base) e → Forall (safe base) e.
Proof.
  intros (m & sign & ds & Hm & Hsign & Hd & ->). constructor; [|apply Forall_app; split].
  - unfold exponent_marks in Hm. revert Hm. destruct (Z.eqb_spec base 10); [|destruct (Z.eqb_spec base 16)];
      rewrite ?elem_of_cons, ?elem_of_nil; intros H; decompose [or] H; subst; try done; by apply safe_const.
  - destruct Hsign as [->|[->| ->]]; [done|apply list.Forall_singleton; by apply safe_const..].
  - apply digits_from_of in Hd. clear Hm. assert (Forall (safe 10) ds) as H by (by eapply safe_digits).
    eapply Forall_impl; [exact H|]. intros c (? & ? & Hc). split_and!; [done..|]. intros _. by apply Hc.
Qed.

Lemma safe_parts imaginary base pfx w f part e :
  number_parts imaginary base pfx w f part e → Forall (safe base) (w ++ f ++ e).
Proof.
  intros (Hp & Hw & Hf & Hne & He & _). rewrite !Forall_app. split_and!; [by eapply safe_run|by eapply safe_fraction|].
  destruct He as [->|He]; [done|by apply safe_exponent].
Qed.

Lemma number_body_safe imaginary body : number_body imaginary body → Forall (λ c, c ≠ chr "i" ∧ c ≠ newline) body.
Proof.
  intros (base & pfx & w & f & part & e & -> & Hp)%number_body_parts. apply Forall_app. split.
  - destruct Hp as [[[-> _]|(c & -> & Hc)] _]; [done|]. unfold prefix_base in Hc.
    constructor; [done|]. constructor; [|done]. split; intros ->; vm_compute in Hc; naive_solver.
  - eapply Forall_impl; [by eapply safe_parts|]. by intros c (? & ? & _).
Qed.

(** * The whole literal *)

Lemma numberPrefix_sound pre body post :
  ∃ base pfx rest, body = pfx ++ rest ∧ prefix_of base pfx ∧
    numberPrefix (pre ++ body ++ post) (lenZ pre) (lenZ (pre ++ body)) = Some (base, bool_decide (pfx ≠ [])).
Proof.
  unfold numberPrefix.
  assert (lenZ (pre ++ body) - lenZ pre = lenZ body) as -> by (rewrite lenZ_app; lia).
  assert (∃ base pfx rest, body = pfx ++ rest ∧ prefix_of base pfx ∧ Some (10, false) = Some (base, bool_decide (pfx ≠ []))) as Hno.
  { exists 10, [], body. split_and!; [done|by left|done]. }
  destruct body as [|z [|c rest]]; [done..|].
  assert ((2 <=? lenZ (z :: c :: rest)) = true) as ->.
  { apply Z.leb_le. autorewrite with lenZ. pose proof (lenZ_nonneg rest). lia. }
  cbn [andO]. simpl app. rewrite byteIs_head. cbn [mbind option_bind].
  destruct (Z.eqb_spec (chr "0") z) as [<-|]; [|done].
  rewrite at_offset by lia. change ((chr "0" :: c :: rest ++ post) !!z 1) with (Some c). cbn [mbind option_bind].
  assert (∀ base, prefix_base c base → ∃ base' pfx rest', chr "0" :: c :: rest = pfx ++ rest' ∧ prefix_of base' pfx ∧
    Some (base, true) = Some (base', bool_decide (pfx ≠ []))) as Hyes.
  { intros base Hc. exists base, [chr "0"; c], rest. split_and!; [done| |done]. right. by exists c. }
  destruct ((c =? chr "x") || (c =? chr "X")) eqn:Hx; [|destruct ((c =? chr "b") || (c =? chr "B")) eqn:Hb;
    [|destruct ((c =? chr "o") || (c =? chr "O")) eqn:Ho; [|done]]].
  - apply Hyes. rewrite orb_true_iff, !Z.eqb_eq in Hx. unfold prefix_base. tauto.
  - apply Hyes. rewrite orb_true_iff, !Z.eqb_eq in Hb. unfold prefix_base. tauto.
  - apply Hyes. rewrite orb_true_iff, !Z.eqb_eq in Ho. unfold prefix_base. tauto.
Qed.

Lemma numberPrefix_complete base pfx pre rest post :
  prefix_of base pfx → (base = 10 → Forall (safe 10) rest) →
  numberPrefix (pre ++ (pfx ++ rest) ++ post) (lenZ pre) (lenZ (pre ++ pfx ++ rest)) =
  Some (base, bool_decide (pfx ≠ [])).
Proof.
  intros Hp Hs. unfold numberPrefix.
  assert (lenZ (pre ++ pfx ++ rest) - lenZ pre = lenZ (pfx ++ rest)) as -> by (rewrite lenZ_app; lia).
  destruct Hp as [[-> ->]|(c & -> & Hc)]; simpl app.
  - destruct rest as [|z [|c rest]]; [done..|]. specialize (Hs eq_refl).
    apply Forall_cons in Hs as [_ [(_ & _ & Hc) _]%Forall_cons]. specialize (Hc eq_refl). unfold isPrefixByte in Hc.
    rewrite !orb_false_iff in Hc. destruct Hc as [[[[[H1 H2] H3] H4] H5] H6].
    assert ((2 <=? lenZ (z :: c :: rest)) = true) as ->.
    { apply Z.leb_le. autorewrite with lenZ. pose proof (lenZ_nonneg rest). lia. }
    cbn [andO]. simpl app. rewrite byteIs_head. cbn [mbind option_bind]. destruct (chr "0" =? z) eqn:Hz; rewrite ?Hz; [|done].
    rewrite at_offset by lia. change ((z :: c :: rest ++ post) !!z 1) with (Some c). cbn [mbind option_bind].
    by rewrite H1, H2, H3, H4, H5, H6.
  - assert ((2 <=? lenZ (chr "0" :: c :: rest)) = true) as ->.
    { apply Z.leb_le. autorewrite with lenZ. pose proof (lenZ_nonneg rest). lia. }
    cbn [andO]. simpl app. rewrite byteIs_head. cbn [mbind option_bind].
    change (chr "0" =? chr "0") with true. cbv iota. rewrite at_offset by lia.
    change ((chr "0" :: c :: rest ++ post) !!z 1) with (Some c). cbn [mbind option_bind].
    by destruct Hc as [[[->| ->] ->]|[[[->| ->] ->]|[[->| ->] ->]]].
Qed.

(** The test for the digits of an octal number without a prefix. *)
Definition octalTest (src : list Z) (start end_ : Z) (applies : bool) : option bool :=
  octal ← Some applies &&? byteIs src start (Z.eqb (chr "0"));
  if (octal : bool) then '(_, _, ok) ← numberDigitRun src start end_ 8 false; Some ok else Some true.

(** The tail of [validNumberLiteral], behind the suffix. *)
Definition validBody (src : list Z) (start end_ : Z) (imaginary : bool) : option bool :=
  '(base, prefix) ← numberPrefix src start end_;
  '(pos, digits, ok) ← numberDigitRun src (if (prefix : bool) then start + 2 else start) end_ base prefix;
  if negb ok then Some false
  else
    fraction ← numberFraction src pos end_ base;
    match fraction with
    | None => Some false
    | Some (pos, after, dot) =>
        if digits + after =? 0 then Some false
        else
          tail ← numberExponent src pos end_ base;
          match tail with
          | None => Some false
          | Some (pos, exponent) =>
              if negb (pos =? end_) || ((base =? 16) && dot && negb exponent) then Some false
              else
                octalTest src start end_ (negb prefix && negb dot && negb exponent && negb imaginary)
          end
    end.

Lemma prefix_position base pfx pre :
  prefix_of base pfx → (if bool_decide (pfx ≠ []) then lenZ pre + 2 else lenZ pre) = lenZ (pre ++ pfx).
Proof. intros [[-> _]|(c & -> & _)]; [by rewrite app_nil_r|]. rewrite bool_decide_true by done. by autorewrite with lenZ. Qed.

Lemma lenZ_app_inj pre rest : lenZ pre = lenZ (pre ++ rest) ↔ rest = [].
Proof.
  rewrite lenZ_app. destruct rest as [|c rest]; [by rewrite lenZ_nil, Z.add_0_r|].
  rewrite lenZ_cons. pose proof (lenZ_nonneg rest). split; [lia|done].
Qed.

(** Decimal digits do not end an octal run. *)
Lemma decimal_octal w rest : digits_of 10 (w ++ rest) → run_ends 8 rest → rest = [].
Proof.
  intros Hd%digits_from_of Hr. assert (∀ p l, digits_from 10 p l → Forall (λ c, ends_run 8 c = false) l) as H.
  { clear. intros p l Hd. induction Hd as [|? Hd IH|p c l (x & Hx & Hlt) Hd IH]; [done|by constructor|].
    constructor; [|done]. unfold ends_run. rewrite Hx. apply (small_digit 10) in Hx; [|lia|lia].
    rewrite !(proj2 (Z.ltb_ge _ _)) by lia. by rewrite !andb_false_r. }
  apply H, Forall_app in Hd as [_ Hd]. destruct rest as [|c rest]; [done|]. apply Forall_inv in Hd. simpl in Hr. congruence.
Qed.

Lemma octalTest_sound pre body post applies :
  body ≠ [] →
  ∃ r, octalTest (pre ++ body ++ post) (lenZ pre) (lenZ (pre ++ body)) applies = Some r ∧
    (r = true → applies = true → head body = Some (chr "0") → digits_of 10 body → digits_of 8 body).
Proof.
  intros Hne. unfold octalTest. destruct applies; [|by exists true]. destruct body as [|z body]; [done|].
  cbn [andO]. simpl app. rewrite byteIs_head. cbn [mbind option_bind].
  destruct (Z.eqb_spec (chr "0") z) as [<-|Hz]; [|exists true; split; [done|]; naive_solver].
  destruct (numberDigitRun_sound pre (chr "0" :: body) post 8 false) as (w & rest & ok & Hw & Hrun & Hok);
    [unfold go_base; lia|].
  simpl app in Hrun. rewrite Hrun. cbn [mbind option_bind]. exists ok. split; [done|]. intros -> _ _ Hd.
  destruct (Hok eq_refl) as [Hw8 He8]. rewrite Hw in Hd |- *. pose proof (decimal_octal w rest Hd He8) as ->.
  rewrite app_nil_r in *. subst w. by apply opt_digits_run in Hw8 as [?|?].
Qed.

Lemma octalTest_complete pre body post applies :
  body ≠ [] → (applies = true → head body = Some (chr "0") → digits_of 8 body) →
  octalTest (pre ++ body ++ post) (lenZ pre) (lenZ (pre ++ body)) applies = Some true.
Proof.
  intros Hne Ho. unfold octalTest. destruct applies; [|done]. destruct body as [|z l]; [done|].
  cbn [andO]. simpl app. rewrite byteIs_head. cbn [mbind option_bind].
  destruct (Z.eqb_spec (chr "0") z) as [<-|Hz]; [|done]. specialize (Ho eq_refl eq_refl).
  pose proof (numberDigitRun_complete pre (chr "0" :: l) [] post 8 false) as Hrun. rewrite app_nil_r in Hrun.
  simpl app in Hrun. rewrite Hrun; [done|unfold go_base; lia|by apply opt_digits_run; right|done].
Qed.

Lemma validBody_sound pre body post imaginary :
  ∃ b, validBody (pre ++ body ++ post) (lenZ pre) (lenZ (pre ++ body)) imaginary = Some b ∧
    (b = true → number_body imaginary body).
Proof.
  destruct (numberPrefix_sound pre body post) as (base & pfx & rest & -> & Hp & Hpx).
  unfold validBody. rewrite Hpx. cbn [mbind option_bind]. rewrite (prefix_position base pfx pre Hp).
  pose proof (prefix_of_go base pfx Hp) as Hbase.
  remember (pre ++ (pfx ++ rest) ++ post) as src eqn:Hsrc0.
  assert (src = (pre ++ pfx) ++ rest ++ post) as Hsrc by (rewrite Hsrc0; by rewrite <- !app_assoc).
  rewrite (app_assoc pre pfx rest).
  destruct (numberDigitRun_sound (pre ++ pfx) rest post base (bool_decide (pfx ≠ [])) Hbase) as (w & rest1 & ok & -> & Hrun & Hok).
  rewrite <- Hsrc in Hrun. rewrite Hrun. cbn [mbind option_bind]. destruct ok; [|by exists false]. destruct (Hok eq_refl) as [Hw _]. simpl negb.
  set (pre1 := (pre ++ pfx) ++ w). assert (src = pre1 ++ rest1 ++ post) as Hsrc1 by (rewrite Hsrc; unfold pre1; by rewrite <- !app_assoc).
  rewrite (app_assoc (pre ++ pfx) w rest1). fold pre1.
  destruct (numberFraction_sound pre1 rest1 post base Hbase) as (fr & Hfr & Hf). rewrite <- Hsrc1 in Hfr. rewrite Hfr. cbn [mbind option_bind].
  destruct fr as [[[pos after] dot]|]; [|by exists false]. destruct Hf as (f & part & rest2 & -> & -> & Hf & -> & ->).
  destruct (Z.eqb_spec (countDigits w + countDigits part) 0) as [|Hne]; [by exists false|].
  set (pre2 := pre1 ++ f). assert (src = pre2 ++ rest2 ++ post) as Hsrc2 by (rewrite Hsrc1; unfold pre2; by rewrite <- !app_assoc).
  rewrite (app_assoc pre1 f rest2). fold pre2.
  destruct (numberExponent_sound pre2 rest2 post base) as (ex & Hex & He). rewrite <- Hsrc2 in Hex. rewrite Hex. cbn [mbind option_bind].
  destruct ex as [[pos exponent]|]; [|by exists false]. destruct He as (e & rest3 & -> & -> & He).
  rewrite (app_assoc pre2 e rest3).
  destruct (Z.eqb_spec (lenZ (pre2 ++ e)) (lenZ ((pre2 ++ e) ++ rest3))) as [->%lenZ_app_inj|]; [|by exists false].
  destruct ((base =? 16) && bool_decide (f ≠ []) && negb exponent) eqn:H16; [by exists false|]. simpl orb. cbv iota.
  assert (w ++ part ≠ []) as Hnil. { intros [-> ->]%app_eq_nil. by destruct Hne. }
  assert (e = [] ∨ exponent_of (exponent_marks base) e) as He'. { destruct exponent; [by right|by left]. }
  assert (exponent = bool_decide (e ≠ [])) as ->.
  { destruct exponent; [apply exponent_nonempty in He|]; by destruct e. }
  assert (base = 16 → f ≠ [] → e ≠ []) as H16'.
  { intros -> Hfn ->. rewrite (bool_decide_true (f ≠ [])) in H16 by done. done. }
  rewrite ?app_nil_r in *.
  assert (pfx ++ w ++ f ++ e ≠ []) as Hbody.
  { intros [-> [-> [-> ->]%app_eq_nil]%app_eq_nil]%app_eq_nil. destruct Hf as [[_ ->]|(_ & ? & _)]; done. }
  replace (pre2 ++ e) with (pre ++ (pfx ++ w ++ f ++ e)) by (unfold pre2, pre1; by rewrite <- !app_assoc).
  rewrite Hsrc0. destruct (octalTest_sound pre (pfx ++ w ++ f ++ e) post
    (negb (bool_decide (pfx ≠ [])) && negb (bool_decide (f ≠ [])) && negb (bool_decide (e ≠ [])) && negb imaginary) Hbody)
    as (r & Hr & Ho).
  exists r. split; [exact Hr|]. intros ->. apply (number_parts_body imaginary base pfx w f part e).
  do 6 (split; [done|]). intros -> -> -> ->. simpl. rewrite !app_nil_r in *. intros Hz.
  apply Ho; [done|done|done|]. destruct Hp as [[_ ->]|(? & ? & _)]; [|done].
  change (bool_decide (@nil Z ≠ [])) with false in Hw. by apply opt_digits_run in Hw as [->|?].
Qed.

(** What follows the digits, or the fraction, ends a run. *)
Lemma mark_ends base c : c ∈ exponent_marks base → ends_run base c = true ∧ c ≠ chr ".".
Proof.
  unfold exponent_marks. destruct (Z.eqb_spec base 10) as [->|]; [|destruct (Z.eqb_spec base 16) as [->|]];
    rewrite ?elem_of_cons, ?elem_of_nil; intros H; decompose [or] H; subst; done.
Qed.

Lemma exponent_ends base e :
  e = [] ∨ exponent_of (exponent_marks base) e → run_ends base e ∧ head e ≠ Some (chr ".").
Proof.
  intros [->|(m & sign & ds & Hm & _ & _ & ->)]; [done|]. apply mark_ends in Hm as [? ?]. split; [done|]. naive_solver.
Qed.

Lemma fraction_ends base f part e :
  fraction_of base f part → run_ends base e → run_ends base (f ++ e).
Proof. by intros [[-> _]|([->| ->] & -> & _)] ?. Qed.

Lemma validBody_complete pre body post imaginary :
  number_body imaginary body →
  validBody (pre ++ body ++ post) (lenZ pre) (lenZ (pre ++ body)) imaginary = Some true.
Proof.
  intros (base & pfx & w & f & part & e & Hbody & Hparts)%number_body_parts.
  pose proof (safe_parts _ _ _ _ _ _ _ Hparts) as Hsafe. destruct Hparts as (Hp & Hw & Hf & Hne & He & H16 & Ho).
  pose proof (prefix_of_go base pfx Hp) as Hbase. destruct (exponent_ends base e He) as [Hee Hed].
  pose proof (fraction_ends base f part e Hf Hee) as Hfe.
  pose proof (numberPrefix_complete base pfx pre (w ++ f ++ e) post Hp ltac:(by intros ->)) as Hpx.
  rewrite <- Hbody in Hpx. unfold validBody. rewrite Hpx. cbn [mbind option_bind]. rewrite (prefix_position base pfx pre Hp).
  pose proof (numberDigitRun_complete (pre ++ pfx) w (f ++ e) post base _ Hbase Hw Hfe) as Hrun.
  replace ((pre ++ pfx) ++ (w ++ f ++ e) ++ post) with (pre ++ body ++ post) in Hrun by (rewrite Hbody; by rewrite <- !app_assoc).
  replace ((pre ++ pfx) ++ w ++ f ++ e) with (pre ++ body) in Hrun by (rewrite Hbody; by rewrite <- !app_assoc).
  rewrite Hrun. cbn [mbind option_bind negb].
  pose proof (numberFraction_complete ((pre ++ pfx) ++ w) f part e post base Hbase Hf Hee Hed) as Hfr.
  replace (((pre ++ pfx) ++ w) ++ (f ++ e) ++ post) with (pre ++ body ++ post) in Hfr by (rewrite Hbody; by rewrite <- !app_assoc).
  replace (((pre ++ pfx) ++ w) ++ f ++ e) with (pre ++ body) in Hfr by (rewrite Hbody; by rewrite <- !app_assoc).
  rewrite Hfr. cbn [mbind option_bind].
  assert (run_word false base part) as Hpart by (destruct Hf as [[_ ->]|(_ & _ & ?)]; [by left|done]).
  pose proof (countDigits_nonneg w). pose proof (countDigits_nonneg part).
  destruct (Z.eqb_spec (countDigits w + countDigits part) 0) as [Hzero|_].
  { destruct Hne. rewrite (proj1 (run_word_count _ _ _ Hw)), (proj1 (run_word_count _ _ _ Hpart)) by lia. done. }
  pose proof (numberExponent_complete (((pre ++ pfx) ++ w) ++ f) e post base He) as Hex.
  replace ((((pre ++ pfx) ++ w) ++ f) ++ e ++ post) with (pre ++ body ++ post) in Hex by (rewrite Hbody; by rewrite <- !app_assoc).
  replace ((((pre ++ pfx) ++ w) ++ f) ++ e) with (pre ++ body) in Hex by (rewrite Hbody; by rewrite <- !app_assoc).
  rewrite Hex. cbn [mbind option_bind]. rewrite Z.eqb_refl. simpl negb. simpl orb.
  assert ((base =? 16) && bool_decide (f ≠ []) && negb (bool_decide (e ≠ [])) = false) as ->.
  { destruct (Z.eqb_spec base 16), (bool_decide_reflect (f ≠ [])), (bool_decide_reflect (e ≠ [])); simpl; naive_solver. }
  apply octalTest_complete.
  - intros ->. symmetry in Hbody. apply app_eq_nil in Hbody as [-> [-> [-> ->]%app_eq_nil]%app_eq_nil].
    destruct Hf as [[_ ->]|(_ & ? & _)]; done.
  - destruct (bool_decide_reflect (pfx ≠ [])) as [|Hn1%dec_stable]; [done|].
    destruct (bool_decide_reflect (f ≠ [])) as [|Hn2%dec_stable]; [done|].
    destruct (bool_decide_reflect (e ≠ [])) as [|Hn3%dec_stable]; [done|].
    subst. simpl. rewrite !app_nil_r. intros Him%negb_true_iff Hh. by apply Ho.
Qed.

Lemma number_nonempty w : number w → w ≠ [].
Proof.
  intros [Hb|(w' & -> & _)]; [|by destruct w'].
  apply number_body_parts in Hb as (base & pfx & w1 & f & part & e & -> & Hp & _ & Hf & Hne & _).
  intros [-> [-> [-> ->]%app_eq_nil]%app_eq_nil]%app_eq_nil. destruct Hf as [[_ ->]|(_ & ? & _)]; done.
Qed.

Lemma validNumberLiteral_body pre w post :
  w ≠ [] →
  validNumberLiteral (pre ++ w ++ post) (lenZ pre) (lenZ (pre ++ w)) =
  (imaginary ← byteIs (pre ++ w ++ post) (lenZ (pre ++ w) - 1) (Z.eqb (chr "i"));
   let end_ := if (imaginary : bool) then lenZ (pre ++ w) - 1 else lenZ (pre ++ w) in
   if end_ <=? lenZ pre then Some false else validBody (pre ++ w ++ post) (lenZ pre) end_ imaginary).
Proof.
  intros Hw. unfold validNumberLiteral, validBody, octalTest. pose proof (lenZ_nonneg pre). pose proof (lenZ_nonneg post).
  assert (0 < lenZ w) by (destruct w; [done|]; rewrite lenZ_cons; pose proof (lenZ_nonneg w); lia).
  rewrite (proj2 (Z.ltb_ge (lenZ pre) 0)), (proj2 (Z.leb_gt (lenZ (pre ++ w)) (lenZ pre))), (proj2 (Z.ltb_ge _ _))
    by (autorewrite with lenZ; lia). reflexivity.
Qed.

(** [validNumberLiteral] never panics and decides the grammar. *)
Lemma validNumberLiteral_number pre w post :
  ∃ b, validNumberLiteral (pre ++ w ++ post) (lenZ pre) (lenZ (pre ++ w)) = Some b ∧ (b = true ↔ number w).
Proof.
  destruct w as [|c0 w0] using rev_ind.
  { rewrite app_nil_r. unfold validNumberLiteral. rewrite Z.leb_refl, orb_true_r. exists false. split; [done|].
    split; [done|]. intros H. by apply number_nonempty in H. }
  clear IHw0. rewrite validNumberLiteral_body by (by destruct w0).
  assert (lenZ (pre ++ w0 ++ [c0]) - 1 = lenZ (pre ++ w0)) as -> by (autorewrite with lenZ; lia).
  assert (byteIs (pre ++ (w0 ++ [c0]) ++ post) (lenZ (pre ++ w0)) (Z.eqb (chr "i")) = Some (chr "i" =? c0)) as ->.
  { rewrite <- (byteIs_head (pre ++ w0) c0 post). f_equal. by rewrite <- !app_assoc. }
  cbn [mbind option_bind]. destruct (Z.eqb_spec (chr "i") c0) as [<-|Hi]; cbv zeta iota.
  - destruct (Z.leb_spec (lenZ (pre ++ w0)) (lenZ pre)) as [Hle|Hgt].
    + exists false. split; [done|]. split; [done|]. intros [Hb|(w' & Hw' & Hb)].
      * apply number_body_safe, Forall_app in Hb as [_ Hb]. by apply Forall_inv in Hb as [? _].
      * apply app_inj_tail in Hw' as [-> _]. destruct w' as [|c' w']; [|autorewrite with lenZ in Hle; pose proof (lenZ_nonneg w'); lia].
        exfalso.
        apply number_body_parts in Hb as (base & pfx & w1 & f & part & e & Hn & Hp & _ & Hf & Hne & _).
        symmetry in Hn. apply app_eq_nil in Hn as [-> [-> [-> ->]%app_eq_nil]%app_eq_nil]. destruct Hf as [[_ ->]|(_ & ? & _)]; done.
    + replace (pre ++ (w0 ++ [chr "i"]) ++ post) with (pre ++ w0 ++ chr "i" :: post) by (by rewrite <- !app_assoc).
      destruct (validBody_sound pre w0 (chr "i" :: post) true) as (b & Hb & Hs). exists b. split; [done|].
      split; [intros ->; right; exists w0; naive_solver|]. intros [Hn|(w' & Hw' & Hn)].
      * apply number_body_safe, Forall_app in Hn as [_ Hn]. by apply Forall_inv in Hn as [? _].
      * apply app_inj_tail in Hw' as [-> _]. rewrite validBody_complete in Hb by done. by injection Hb.
  - rewrite (proj2 (Z.leb_gt _ _)) by (autorewrite with lenZ; pose proof (lenZ_nonneg w0); lia).
    destruct (validBody_sound pre (w0 ++ [c0]) post false) as (b & Hb & Hs). exists b. split; [done|].
    split; [intros ->; left; by apply Hs|]. intros [Hn|(w' & Hw' & Hn)].
    + rewrite validBody_complete in Hb by done. by injection Hb.
    + apply app_inj_tail in Hw' as [_ ->]. done.
Qed.

Lemma number_no_newline w : number w → newline ∉ w.
Proof.
  intros H Hin. assert (Forall (λ c, c ≠ newline) w) as Hall.
  { destruct H as [Hb|(w' & -> & Hb)]; [|apply Forall_app; split; [|by repeat constructor]];
      (eapply Forall_impl; [by eapply number_body_safe|]; by intros c [_ ?]). }
  by apply (proj1 (Forall_forall _ _) Hall newline).
Qed.
