(* ===== verification/SyntaxRuns.v ===== *)
(** Words and operators: [keywordKind] finds the keywords of the table, and
    [operatorEnd] the longest operator.

    The runs of bytes of the scanner: white space, comments, raw strings, rune literals
    and numbers, as prefixes of the text that is left. *)

From Stdlib Require Import String Ascii.
From S2P Require Import Prelude.
From S2P Require Import GoInt.
From S2P Require Import SyntaxToken.
From S2P Require Import SyntaxLiteral.
From S2P Require Import SyntaxScan.
From S2P Require Import SyntaxBytes.
From S2P Require Import SyntaxRunes.
From S2P Require Import SyntaxGrammar.

Implicit Types (pre rest post w txt : list Z).

(** * Keywords *)

Lemma equalFrom_spec txt pre w post :
  length w = length txt → equalFrom (pre ++ w ++ post) (lenZ pre) txt = Some (bool_decide (w = txt)).
Proof.
  revert pre w. induction txt as [|t txt IH]; intros pre [|c w] Hl; try done; simpl in *.
  rewrite at_head. change (head (c :: w ++ post)) with (Some c). cbn [mbind option_bind].
  destruct (Z.eqb_spec c t) as [->|Hne]; simpl.
  - step_in. rewrite IH by lia. f_equal. apply bool_decide_ext. naive_solver.
  - rewrite bool_decide_false; [done|naive_solver].
Qed.

Lemma bytesEqualText_spec txt pre w post :
  bytesEqualText (pre ++ w ++ post) (lenZ pre) (lenZ (pre ++ w)) txt = Some (bool_decide (w = txt)).
Proof.
  unfold bytesEqualText. replace (lenZ (pre ++ w) - lenZ pre) with (lenZ w) by (rewrite lenZ_app; lia).
  destruct (Z.eqb_spec (lenZ w) (lenZ txt)) as [Hl|Hl]; simpl.
  - apply equalFrom_spec. unfold lenZ in Hl. lia.
  - rewrite bool_decide_false; [done|]. by intros ->.
Qed.

(** The test of the first and the last byte is only a shortcut. *)
Lemma keyword_test f l txt pre w post first last :
  head w = Some first → list.last w = Some last → head txt = Some f → list.last txt = Some l →
  (Some ((first =? f) && (last =? l)) &&? bytesEqualText (pre ++ w ++ post) (lenZ pre) (lenZ (pre ++ w)) txt) =
  Some (bool_decide (w = txt)).
Proof.
  intros Hf Hl Hf' Hl'. rewrite bytesEqualText_spec.
  destruct ((first =? f) && (last =? l)) eqn:E; [done|]. simpl. rewrite bool_decide_false; [done|].
  intros ->. rewrite Hf in Hf'. rewrite Hl in Hl'. injection Hf' as ->. injection Hl' as ->.
  by rewrite !Z.eqb_refl in E.
Qed.

Lemma word_kind_filter n table w :
  length w = n → word_kind table w = word_kind (filter (λ e, length e.1 = n) table) w.
Proof.
  intros <-. induction table as [|[t k] table IH]; [done|]. rewrite filter_cons. simpl.
  destruct (decide (length t = length w)) as [|Hn]; simpl.
  - by rewrite IH.
  - rewrite decide_False; [done|]. by intros ->.
Qed.

Lemma last_at pre w post last :
  list.last w = Some last → (pre ++ w ++ post) !!z (lenZ (pre ++ w) - 1) = Some last.
Proof.
  intros (w' & ->)%last_Some. replace (lenZ (pre ++ w' ++ [last]) - 1) with (lenZ (pre ++ w')) by (autorewrite with lenZ; lia).
  replace (pre ++ (w' ++ [last]) ++ post) with ((pre ++ w') ++ last :: post) by (by rewrite <- !app_assoc). by rewrite at_head.
Qed.

(** The tests of the code for the words of one length, in a list: first byte, last byte,
    word and kind. *)
Definition keyword_chain pre w post (first last : Z) (l : list (Z * Z * list Z * Z)) : option Z :=
  foldr (λ '(f, e, txt, kind) otherwise,
    same ← Some ((first =? f) && (last =? e)) &&?
      bytesEqualText (pre ++ w ++ post) (lenZ pre) (lenZ (pre ++ w)) txt;
    if (same : bool) then Some kind else otherwise) (Some TokenIdent) l.

Lemma keyword_chain_spec pre w post first last l :
  head w = Some first → list.last w = Some last →
  forallb (λ '(f, e, txt, _), bool_decide (head txt = Some f) && bool_decide (list.last txt = Some e)) l = true →
  keyword_chain pre w post first last l = Some (word_kind ((λ '(_, _, txt, kind), (txt, kind)) <$> l) w).
Proof.
  intros Hf Hl. unfold keyword_chain.
  induction l as [|[[[f e] txt] kind] l IH]; [done|]. rewrite fmap_cons. cbn [foldr forallb word_kind].
  intros [[Hf'%bool_decide_eq_true Hl'%bool_decide_eq_true]%andb_true_iff Hall]%andb_true_iff.
  rewrite (keyword_test f e txt pre w post first last) by done. cbn [mbind option_bind].
  destruct (decide (w = txt)); [by rewrite bool_decide_true|]. rewrite bool_decide_false by done. by apply IH.
Qed.

Definition chain_of (n : nat) : list (Z * Z * list Z * Z) :=
  (λ '(txt, kind), (default 0 (head txt), default 0 (list.last txt), txt, kind)) <$>
    filter (λ e, length e.1 = n) keywords.

Lemma chain_of_ok n w pre post first last :
  length w = n → head w = Some first → list.last w = Some last → (n ≤ 11)%nat →
  keyword_chain pre w post first last (chain_of n) = Some (word_kind keywords w).
Proof.
  intros Hn Hf Hl Hle. rewrite keyword_chain_spec by (try done; do 12 (destruct n; [reflexivity|]); lia).
  rewrite (word_kind_filter n keywords w Hn). do 2 f_equal. unfold chain_of. rewrite <- list_fmap_compose.
  rewrite <- (list_fmap_id (filter _ keywords)) at 2. apply list_fmap_ext. by intros ? [t k].
Qed.

(** [keywordKind] is the table of keywords. *)
Lemma keywordKind_spec pre w post first :
  head w = Some first →
  keywordKind (pre ++ w ++ post) (lenZ pre) (lenZ (pre ++ w)) first = Some (word_kind keywords w).
Proof.
  intros Hf. destruct (list.last w) as [last|] eqn:Hl; [|by apply last_None in Hl as ->].
  unfold keywordKind. replace (lenZ (pre ++ w) - lenZ pre) with (lenZ w) by (rewrite lenZ_app; lia).
  destruct (Z.ltb_spec 11 (lenZ w)) as [Hbig|Hsmall].
  { rewrite (word_kind_filter (length w)) by done. assert (filter (λ e, length e.1 = length w) keywords = []) as ->; [|done].
    assert (Forall (λ e, length e.1 < 12)%nat keywords) as Hk by (by apply (bool_decide_unpack _)).
    unfold lenZ in Hbig. induction Hk as [|e l He Hk IH]; [done|]. rewrite filter_cons, decide_False by lia. exact IH. }
  rewrite (last_at pre w post last Hl). cbn [mbind option_bind].
  remember (length w) as n eqn:Hn. symmetry in Hn.
  pose proof (chain_of_ok n w pre post first last Hn Hf Hl) as Hc. assert (lenZ w = Z.of_nat n) as Hw by (unfold lenZ; by rewrite Hn). rewrite Hw in Hsmall |- *.
  rewrite <- Hc by lia. clear Hc Hn Hw. do 12 (destruct n as [|n]; [reflexivity|]). lia.
Qed.

(** * Operators *)

Lemma three_eq (a b c x y z : Z) : [a; b; c] = [x; y; z] ↔ a = x ∧ b = y ∧ c = z.
Proof. naive_solver. Qed.

Lemma isThreeByteOperator_spec a b c :
  isThreeByteOperator a b c = bool_decide ([a; b; c] ∈ operators3).
Proof.
  apply Bool.eq_iff_eq_true. rewrite bool_decide_eq_true. unfold isThreeByteOperator, operators3.
  change (text "...") with [46; 46; 46]. change (text "<<=") with [60; 60; 61].
  change (text ">>=") with [62; 62; 61]. change (text "&^=") with [38; 94; 61].
  change (chr ".") with 46. change (chr "<") with 60. change (chr ">") with 62. change (chr "=") with 61.
  change (chr "&") with 38. change (chr "^") with 94.
  rewrite !elem_of_cons, elem_of_nil, !three_eq.
  repeat case_match; repeat match goal with
    | H : _ && _ = true |- _ => apply andb_true_iff in H as [? ?]
    | H : _ && _ = false |- _ => apply andb_false_iff in H
    | H : (_ =? _) = true |- _ => apply Z.eqb_eq in H
    | H : (_ =? _) = false |- _ => apply Z.eqb_neq in H
    end; rewrite ?Z.eqb_neq in *; split; intros; try done; lia.
Qed.

(** Two bytes, without the dots. *)
Definition two_bytes (c b : Z) : bool := bool_decide ([c; b] ∈ operators2).

Lemma isTwoByteOperator_spec c b next :
  byte_ok c → byte_ok b →
  isTwoByteOperator c b (Some next) = Some (two_bytes c b || ((c =? chr ".") && (b =? chr ".") && next)).
Proof.
  intros Hc Hb.
  assert (isTwoByteOperator c b (Some false) = Some (two_bytes c b)) as Hno.
  { assert (match isTwoByteOperator c b (Some false) with Some r => Bool.eqb r (two_bytes c b) | None => false end = true) as H.
    { revert b Hb. apply (all_bytes_spec (λ b, match isTwoByteOperator c b (Some false) with
        Some r => Bool.eqb r (two_bytes c b) | None => false end)). revert c Hc.
      apply (all_bytes_spec (λ c, all_bytes (λ b, match isTwoByteOperator c b (Some false) with
        Some r => Bool.eqb r (two_bytes c b) | None => false end))). vm_compute. reflexivity. }
    destruct (isTwoByteOperator c b (Some false)) as [r|]; [|done]. f_equal. by apply Bool.eqb_prop. }
  destruct next; [|by rewrite Hno, !andb_false_r, orb_false_r].
  revert Hno. unfold isTwoByteOperator.
  destruct ((c =? chr "+") && (b =? chr "+") || (c =? chr "-") && (b =? chr "-")) eqn:Hinc; simpl.
  - intros [= <-]. by rewrite !orb_true_r.
  - destruct ((c =? chr ".") && (b =? chr ".")) eqn:Hdots; simpl; intros [= <-]; by rewrite ?orb_true_r, ?orb_false_r.
Qed.

Lemma three_two c b d : [c; b; d] ∈ operators3 → two_bytes c b = true ∨ c = chr "." ∧ b = chr "." ∧ d = chr ".".
Proof.
  unfold operators3. rewrite !elem_of_cons, elem_of_nil. intros H. decompose [or] H; clear H; try done;
    match goal with H : _ :: _ = _ |- _ => injection H as -> -> -> end; first [by right|by left].
Qed.

Lemma operators3_length l : l ∈ operators3 → length l = 3%nat.
Proof. unfold operators3. rewrite !elem_of_cons, elem_of_nil. intros H. by decompose [or] H; subst. Qed.

Lemma operators2_length l : l ∈ operators2 → length l = 2%nat.
Proof. unfold operators2. rewrite !elem_of_cons, elem_of_nil. intros H. by decompose [or] H; subst. Qed.

Lemma decide_two (c b : Z) : (if decide ([c; b] ∈ operators2) then 2 else 1) = if two_bytes c b then 2 else 1.
Proof. unfold two_bytes. by destruct (decide _); [rewrite bool_decide_true|rewrite bool_decide_false]. Qed.

Lemma operator_length_one c : operator_length [c] = 1.
Proof.
  unfold operator_length. rewrite decide_False by (by intros ?%operators3_length).
  by rewrite decide_False by (by intros ?%operators2_length).
Qed.

Lemma operator_length_two c b : operator_length [c; b] = if two_bytes c b then 2 else 1.
Proof.
  unfold operator_length. rewrite decide_False by (by intros ?%operators3_length). apply decide_two.
Qed.

Lemma operator_length_three c b d rest :
  operator_length (c :: b :: d :: rest) =
  if isThreeByteOperator c b d then 3 else if two_bytes c b then 2 else 1.
Proof.
  unfold operator_length. rewrite isThreeByteOperator_spec. simpl take. rewrite decide_two.
  by destruct (decide _); [rewrite bool_decide_true|rewrite bool_decide_false].
Qed.

(** [operatorEnd] takes the longest operator. *)
Lemma operatorEnd_spec pre c rest :
  byte_ok c → bytes_ok rest →
  operatorEnd (pre ++ c :: rest) (lenZ pre) c = Some (lenZ pre + operator_length (c :: rest)).
Proof.
  intros Hc Hr. unfold operatorEnd. rewrite inside_offset, !at_offset by lia.
  destruct rest as [|b rest]; [by rewrite operator_length_one|]. apply Forall_cons in Hr as [Hb Hr].
  replace (1 <? lenZ (c :: b :: rest)) with true.
  2: { symmetry. apply Z.ltb_lt. autorewrite with lenZ. pose proof (lenZ_nonneg rest). lia. }
  change ((c :: b :: rest) !!z 1) with (Some b). cbn [mbind option_bind].
  replace (lenZ pre + 1 + 1) with (lenZ pre + 2) by lia. rewrite !guarded_offset by lia.
  rewrite isTwoByteOperator_spec by done. cbn [mbind option_bind].
  destruct rest as [|d rest].
  { change ((c :: [b]) !!z 2) with (@None Z). rewrite andb_false_r, orb_false_r, operator_length_two.
    destruct (two_bytes c b); simpl; done. }
  change ((c :: b :: d :: rest) !!z 2) with (Some d). rewrite operator_length_three. cbn [mbind option_bind].
  destruct (isThreeByteOperator c b d) eqn:H3.
  - assert (two_bytes c b || ((c =? chr ".") && (b =? chr ".") && (chr "." =? d)) = true) as ->.
    { rewrite isThreeByteOperator_spec in H3. apply bool_decide_eq_true, three_two in H3 as [->|(-> & -> & ->)]; [done|].
      by rewrite orb_true_r. }
    f_equal. lia.
  - assert ((c =? chr ".") && (b =? chr ".") && (chr "." =? d) = false) as ->.
    { destruct (Z.eqb_spec c (chr ".")) as [->|]; [|done]. destruct (Z.eqb_spec b (chr ".")) as [->|]; [|done].
      by destruct (Z.eqb_spec (chr ".") d) as [<-|]. }
    rewrite orb_false_r. destruct (two_bytes c b); f_equal; lia.
Qed.

Lemma operator_length_bounds l : 1 ≤ operator_length l ≤ 3.
Proof. unfold operator_length. repeat case_match; lia. Qed.

Lemma operator_length_fits c rest : operator_length (c :: rest) ≤ lenZ (c :: rest).
Proof.
  destruct rest as [|b [|d rest]].
  - by rewrite operator_length_one.
  - rewrite operator_length_two. by destruct (two_bytes c b).
  - pose proof (operator_length_bounds (c :: b :: d :: rest)). autorewrite with lenZ. pose proof (lenZ_nonneg rest). lia.
Qed.

(** The bytes of an operator. *)
Definition operator_text (l : list Z) : list Z := take (Z.to_nat (operator_length l)) l.

Lemma operator_text_ascii c rest : c < 128 → Forall (λ c, c < 128) (operator_text (c :: rest)).
Proof.
  intros Hc. unfold operator_text, operator_length. destruct (decide (take 3 (c :: rest) ∈ operators3)) as [H3|_].
  - assert (Forall (Forall (λ c, c < 128)) operators3) as Hall by (by apply (bool_decide_unpack _)).
    exact (proj1 (Forall_forall _ _) Hall _ H3).
  - destruct (decide (take 2 (c :: rest) ∈ operators2)) as [H2|_]; [|by repeat constructor].
    assert (Forall (Forall (λ c, c < 128)) operators2) as Hall by (by apply (bool_decide_unpack _)).
    exact (proj1 (Forall_forall _ _) Hall _ H2).
Qed.

Lemma operator_text_newline c rest : c ≠ newline → newline ∉ operator_text (c :: rest).
Proof.
  intros Hc. unfold operator_text, operator_length. destruct (decide (take 3 (c :: rest) ∈ operators3)) as [H3|_].
  - assert (Forall (λ w, newline ∉ w) operators3) as Hall by (by apply (bool_decide_unpack _)).
    exact (proj1 (Forall_forall _ _) Hall _ H3).
  - destruct (decide (take 2 (c :: rest) ∈ operators2)) as [H2|_]; [|change (newline ∉ [c]); rewrite list_elem_of_singleton; naive_solver].
    assert (Forall (λ w, newline ∉ w) operators2) as Hall by (by apply (bool_decide_unpack _)).
    exact (proj1 (Forall_forall _ _) Hall _ H2).
Qed.

(** The operator and what follows it. *)
Lemma operator_text_split c rest :
  ∃ w rest', c :: rest = (c :: w) ++ rest' ∧ operator_text (c :: rest) = c :: w ∧
    lenZ (c :: w) = operator_length (c :: rest).
Proof.
  pose proof (operator_length_bounds (c :: rest)) as Hb. pose proof (operator_length_fits c rest) as Hf.
  unfold operator_text. set (n := operator_length (c :: rest)) in *. clearbody n.
  assert (∃ k, Z.to_nat n = S k ∧ (k ≤ length rest)%nat) as (k & Hk & Hle).
  { exists (Z.to_nat (n - 1)). unfold lenZ in Hf. simpl in Hf. lia. }
  rewrite Hk. exists (take k rest), (drop k rest). simpl. rewrite take_drop. split_and!; [done..|].
  unfold lenZ. simpl. rewrite length_take. lia.
Qed.

(** * Lines *)

Lemma newlines_nil (line : Z) : line + newlines [] = line.
Proof. unfold newlines. rewrite filter_nil, lenZ_nil. lia. Qed.

Lemma newlines_cons c w : newlines (c :: w) = (if decide (c = newline) then 1 else 0) + newlines w.
Proof. unfold newlines. rewrite filter_cons. destruct (decide _); rewrite ?lenZ_cons; lia. Qed.

Lemma newlines_app w w' : newlines (w ++ w') = newlines w + newlines w'.
Proof. unfold newlines. by rewrite filter_app, lenZ_app. Qed.

Lemma newlines_nonneg w : 0 ≤ newlines w.
Proof. apply lenZ_nonneg. Qed.

Lemma newlines_none w : newline ∉ w → newlines w = 0.
Proof.
  induction w as [|c w IH]; [done|]. rewrite not_elem_of_cons. intros [Hc Hw].
  rewrite newlines_cons, decide_False by naive_solver. by rewrite IH.
Qed.

Lemma newlines_eqb c (line : Z) w :
  (if c =? newline then line + 1 else line) + newlines w = line + newlines (c :: w).
Proof.
  rewrite newlines_cons. destruct (Z.eqb_spec c newline) as [->|]; [rewrite decide_True by done|rewrite decide_False by done]; lia.
Qed.

(** * Boundaries *)

(** Behind an ASCII byte the text is a source. *)
Lemma source_text_behind first w c rest :
  source_text first (w ++ c :: rest) → c < 128 → source_text false rest ∧ source_text false (c :: rest).
Proof.
  intros Hs Hc. remember (w ++ c :: rest) as l eqn:Hl. revert w Hl.
  induction Hs as [|first r l Hr H0 Hbom Hs IH]; intros w Hl; [by destruct w|].
  destruct (decide (r < 128)) as [Hlow|Hhigh].
  - rewrite utf8_ascii in Hl by (destruct Hr; lia). destruct w as [|c' w]; simpl in Hl.
    + injection Hl as <- <-. split; [done|]. change (r :: l) with ([r] ++ l).
      rewrite <- (utf8_ascii r) by (destruct Hr; lia). apply st_cons; [done|done| |done]. unfold byteOrder. lia.
    + injection Hl as -> ->. by apply (IH w).
  - pose proof (utf8_high r Hr ltac:(lia)) as Hh. clear Hs Hbom H0.
    assert (∃ w', l = w' ++ c :: rest) as [w' ->]; [|by eapply IH].
    revert w Hl. induction Hh as [|b bs Hb Hbs IHb]; intros w Hl; simpl in Hl; [by exists w|].
    destruct w as [|c' w]; simpl in Hl; injection Hl as -> Hl; [lia|]. by apply (IHb w).
Qed.

Lemma source_text_end first w c rest :
  source_text first (w ++ [c] ++ rest) → c < 128 → source_text false rest.
Proof. intros Hs Hc. by destruct (source_text_behind first w c rest Hs Hc). Qed.

(** * White space *)

Lemma spaceRun_spec rest pre line :
  ∃ w rest', rest = w ++ rest' ∧ Forall blank w ∧ (match rest' with [] => True | c :: _ => ¬ blank c end) ∧
    spaceRun rest (lenZ pre) line = (lenZ (pre ++ w), line + newlines w).
Proof.
  revert pre line. induction rest as [|c rest IH]; intros pre line.
  { exists [], []. rewrite (app_nil_r pre). split_and!; [done|by apply Forall_nil|done|by rewrite newlines_nil]. }
  simpl. destruct (decide (blank c)) as [Hb|Hb].
  2: { exists [], (c :: rest). split_and!; [done|by apply Forall_nil|done|]. rewrite (app_nil_r pre).
       assert (c ≠ newline ∧ c ≠ 32 ∧ c ≠ 9 ∧ c ≠ 13) as (? & ? & ? & ?) by (unfold blank in Hb; tauto).
       rewrite (proj2 (Z.eqb_neq c newline)), (proj2 (Z.eqb_neq c 32)), (proj2 (Z.eqb_neq c 9)),
         (proj2 (Z.eqb_neq c 13)) by done. by rewrite newlines_nil. }
  assert ((if c =? newline then spaceRun rest (lenZ pre + 1) (line + 1)
    else if negb (c =? 32) && negb (c =? 9) && negb (c =? 13) then (lenZ pre, line) else spaceRun rest (lenZ pre + 1) line) =
    spaceRun rest (lenZ (pre ++ [c])) (if c =? newline then line + 1 else line)) as ->.
  { rewrite lenZ_snoc. destruct (Z.eqb_spec c newline) as [|Hn]; [done|]. by destruct Hb as [->|[->|[->| ->]]]. }
  destruct (IH (pre ++ [c]) (if c =? newline then line + 1 else line)) as (w & rest' & -> & Hw & Hh & ->).
  exists (c :: w), rest'. split_and!; [done|by constructor|done|]. by rewrite newlines_eqb, <- app_assoc.
Qed.

(** * Comments *)

Lemma lineCommentRun_spec rest pre :
  ∃ w rest', rest = w ++ rest' ∧ newline ∉ w ∧ (rest' = [] ∨ head rest' = Some newline) ∧
    lineCommentRun rest (lenZ pre) = lenZ (pre ++ w).
Proof.
  revert pre. induction rest as [|c rest IH]; intros pre.
  { exists [], []. rewrite (app_nil_r pre). split_and!; [done|apply not_elem_of_nil|by left|done]. }
  simpl. destruct (Z.eqb_spec c newline) as [->|Hc].
  { exists [], (newline :: rest). rewrite (app_nil_r pre). split_and!; [done|apply not_elem_of_nil|by right|done]. }
  rewrite <- (lenZ_snoc pre c). destruct (IH (pre ++ [c])) as (w & rest' & -> & Hw & Hh & ->).
  exists (c :: w), rest'. split_and!; [done| |done|by rewrite <- app_assoc]. rewrite not_elem_of_cons. naive_solver.
Qed.

(** The end of a block comment, or of the text. *)
Lemma blockCommentRun_spec fuel pre rest line :
  (length rest ≤ fuel)%nat →
  (∃ w rest', rest = w ++ chr "*" :: chr "/" :: rest' ∧ closes_first (w ++ [chr "*"]) ∧
     blockCommentRun fuel (pre ++ rest) (lenZ pre) line = Some (lenZ (pre ++ w), line + newlines w)) ∨
  (∃ i line', blockCommentRun fuel (pre ++ rest) (lenZ pre) line = Some (i, line') ∧ lenZ (pre ++ rest) ≤ i + 1).
Proof.
  revert fuel pre line. induction rest as [|c rest IH]; intros fuel pre line Hf.
  { right. exists (lenZ pre), line. rewrite (app_nil_r pre). split; [|lia].
    destruct fuel; cbn [blockCommentRun]; rewrite (proj2 (Z.ltb_ge _ _)) by lia; done. }
  destruct fuel as [|fuel]; [simpl in Hf; lia|]. cbn [blockCommentRun]. rewrite inside_offset.
  destruct rest as [|d rest].
  { right. exists (lenZ pre), line. autorewrite with lenZ. split; [done|lia]. }
  replace (1 <? lenZ (c :: d :: rest)) with true.
  2: { symmetry. apply Z.ltb_lt. autorewrite with lenZ. pose proof (lenZ_nonneg rest). lia. }
  cbn [andO]. rewrite byteIs_head, byteIs_offset by lia. change (byteIs (c :: d :: rest) 1 (Z.eqb (chr "/"))) with (Some (chr "/" =? d)).
  destruct ((chr "*" =? c) && (chr "/" =? d)) eqn:Hends.
  { apply andb_true_iff in Hends as [<-%Z.eqb_eq <-%Z.eqb_eq]. left. exists [], rest. split_and!; [done| |].
    - simpl. split; [|done]. by intros [_ ?].
    - cbn. by rewrite (app_nil_r pre), newlines_nil. }
  assert ((ends ← Some (chr "*" =? c) &&? Some (chr "/" =? d); Some (negb ends)) = Some true) as ->.
  { destruct (chr "*" =? c); simpl in *; [by rewrite Hends|done]. }
  cbn [mbind option_bind]. rewrite at_head. change (head (c :: d :: rest)) with (Some c). cbn [mbind option_bind].
  rewrite <- (lenZ_snoc pre c), (advance pre c (d :: rest)).
  destruct (IH fuel (pre ++ [c]) (if c =? newline then line + 1 else line) ltac:(simpl in *; lia))
    as [(w & rest' & Hw & Hcl & ->)|(i & line' & -> & Hi)].
  - left. exists (c :: w), rest'. split_and!; [by rewrite Hw| |by rewrite newlines_eqb, <- app_assoc].
    simpl. split; [|done]. intros [-> Hh]. assert (head (d :: rest) = Some (chr "/")) as Hd.
    { rewrite Hw. by destruct w. }
    injection Hd as ->. by rewrite !Z.eqb_refl in Hends.
  - right. by exists i, line'.
Qed.

(** * Raw strings and rune literals *)

Lemma rawRun_spec fuel pre rest line :
  (length rest ≤ fuel)%nat →
  (∃ w rest', rest = w ++ chr "`" :: rest' ∧ chr "`" ∉ w ∧
     rawRun fuel (pre ++ rest) (lenZ pre) line = Some (lenZ (pre ++ w), line + newlines w)) ∨
  (∃ line', rawRun fuel (pre ++ rest) (lenZ pre) line = Some (lenZ (pre ++ rest), line')).
Proof.
  revert fuel pre line. induction rest as [|c rest IH]; intros fuel pre line Hf.
  { right. exists line. destruct fuel; cbn [rawRun]; rewrite guarded_head; by rewrite ?app_nil_r. }
  destruct fuel as [|fuel]; [simpl in Hf; lia|]. cbn [rawRun]. rewrite guarded_head.
  destruct (Z.eqb_spec c (chr "`")) as [->|Hc]; cbn [negb mbind option_bind].
  { left. exists [], rest. rewrite (app_nil_r pre). split_and!; [done|apply not_elem_of_nil|]. by rewrite newlines_nil. }
  rewrite at_head. change (head (c :: rest)) with (Some c). cbn [mbind option_bind].
  rewrite <- (lenZ_snoc pre c), (advance pre c rest).
  destruct (IH fuel (pre ++ [c]) (if c =? newline then line + 1 else line) ltac:(simpl in Hf; lia))
    as [(w & rest' & -> & Hw & ->)|(line' & ->)].
  - left. exists (c :: w), rest'. split_and!; [done| |by rewrite newlines_eqb, <- app_assoc].
    rewrite not_elem_of_cons. naive_solver.
  - right. exists line'. done.
Qed.

Lemma runeRun_spec fuel pre rest :
  (length rest ≤ fuel)%nat →
  ∃ w rest', rest = w ++ rest' ∧ runeRun fuel (pre ++ rest) (lenZ pre) = Some (lenZ (pre ++ w)).
Proof.
  revert pre rest. induction fuel as [|fuel IH]; intros pre rest Hf.
  { destruct rest; [|simpl in Hf; lia]. exists [], []. cbn [runeRun]. rewrite guarded_head. by rewrite (app_nil_r pre). }
  cbn [runeRun]. rewrite guarded_head. destruct rest as [|c rest]; [by exists [], []; rewrite (app_nil_r pre)|].
  destruct (Z.eqb_spec c (chr "'")) as [->|Hc]; cbn [negb mbind option_bind].
  { exists [], (chr "'" :: rest). by rewrite (app_nil_r pre). }
  rewrite at_head. change (head (c :: rest)) with (Some c). cbn [mbind option_bind]. rewrite inside_offset.
  destruct ((c =? chr "\") && (1 <? lenZ (c :: rest))) eqn:Hesc.
  - apply andb_true_iff in Hesc as [_ Hl%Z.ltb_lt]. destruct rest as [|d rest]; [by autorewrite with lenZ in Hl|].
    replace (lenZ pre + 2) with (lenZ (pre ++ [c; d])) by (autorewrite with lenZ; lia).
    replace (pre ++ c :: d :: rest) with ((pre ++ [c; d]) ++ rest) by (by rewrite <- app_assoc).
    destruct (IH (pre ++ [c; d]) rest ltac:(simpl in Hf; lia)) as (w & rest' & -> & ->).
    exists (c :: d :: w), rest'. split; [done|]. by rewrite <- app_assoc.
  - destruct (c =? newline); [by exists [], (c :: rest); rewrite (app_nil_r pre)|].
    rewrite <- (lenZ_snoc pre c), (advance pre c rest).
    destruct (IH (pre ++ [c]) rest ltac:(simpl in Hf; lia)) as (w & rest' & -> & ->).
    exists (c :: w), rest'. split; [done|]. by rewrite <- app_assoc.
Qed.

(** * Numbers *)

(** [i] is reached from [pre] over ASCII bytes of [rest]. *)
Definition ascii_to pre rest (i : Z) : Prop :=
  ∃ w rest', rest = w ++ rest' ∧ Forall (λ c, c < 128) w ∧ i = lenZ (pre ++ w).

Lemma ascii_to_here pre rest : ascii_to pre rest (lenZ pre).
Proof. exists [], rest. by rewrite (app_nil_r pre). Qed.

Lemma ascii_to_app pre w rest i :
  Forall (λ c, c < 128) w → ascii_to (pre ++ w) rest i → ascii_to pre (w ++ rest) i.
Proof.
  intros Hw (w' & rest' & -> & Hw' & ->). exists (w ++ w'), rest'. rewrite <- !app_assoc. split_and!; [done| |done].
  by apply Forall_app.
Qed.

Lemma ascii_to_cons pre c rest i : c < 128 → ascii_to (pre ++ [c]) rest i → ascii_to pre (c :: rest) i.
Proof. intros Hc. apply (ascii_to_app pre [c]). by constructor. Qed.

Lemma bytesWhile_spec P fuel pre rest :
  (length rest ≤ fuel)%nat →
  bytesWhile P fuel (pre ++ rest) (lenZ pre) = Some (lenZ (pre ++ takeWhile P rest)).
Proof.
  revert pre fuel. induction rest as [|c rest IH]; intros pre fuel Hf.
  - destruct fuel; cbn [bytesWhile]; rewrite guarded_head; simpl; by rewrite app_nil_r.
  - destruct fuel as [|fuel]; [simpl in Hf; lia|]. cbn [bytesWhile takeWhile]. rewrite guarded_head.
    cbn [mbind option_bind]. destruct (P c); [|by rewrite app_nil_r].
    rewrite <- (lenZ_snoc pre c), (advance pre c rest), IH by (simpl in Hf; lia). by rewrite <- app_assoc.
Qed.

Lemma takeWhile_ascii P pre rest :
  bytes_ok rest → (∀ c, byte_ok c → P c = true → c < 128) → ascii_to pre rest (lenZ (pre ++ takeWhile P rest)).
Proof.
  intros Hb HP. exists (takeWhile P rest), (dropWhile P rest). rewrite takeWhile_dropWhile. split_and!; [done| |done].
  rewrite <- (takeWhile_dropWhile P rest) in Hb. apply Forall_app in Hb as [Hb _].
  pose proof (takeWhile_all P rest) as Hall. induction Hall; constructor; decompose_Forall_hyps; auto.
Qed.

Lemma digitOrUnderscore_ascii c : byte_ok c → isDigitOrUnderscore c = true → c < 128.
Proof.
  intros Hc H. apply Z.ltb_lt. assert (negb (isDigitOrUnderscore c) || (c <? 128) = true) as H' by (by_bytes c Hc).
  by rewrite H in H'.
Qed.

Lemma identPart_ascii c : byte_ok c → isIdentPart c = true → c < 128.
Proof.
  intros Hc H. apply Z.ltb_lt. assert (negb (isIdentPart c) || (c <? 128) = true) as H' by (by_bytes c Hc).
  by rewrite H in H'.
Qed.

(** The loops over digits and signs. *)
Lemma digits_ascii pre rest fuel :
  bytes_ok rest → (length rest ≤ fuel)%nat →
  ∃ j, bytesWhile isDigitOrUnderscore fuel (pre ++ rest) (lenZ pre) = Some j ∧ ascii_to pre rest j.
Proof.
  intros Hb Hf. rewrite bytesWhile_spec by done. eexists. split; [done|].
  apply takeWhile_ascii; [done|]. apply digitOrUnderscore_ascii.
Qed.

Lemma skipSign_ascii pre rest : ∃ j, skipSign (pre ++ rest) (lenZ pre) = Some j ∧ ascii_to pre rest j.
Proof.
  unfold skipSign. rewrite guarded_head. cbn [mbind option_bind].
  destruct rest as [|c rest]; [eexists; split; [done|apply ascii_to_here]|].
  destruct ((c =? chr "+") || (c =? chr "-")) eqn:Hs; (eexists; split; [done|]); [|apply ascii_to_here].
  rewrite <- (lenZ_snoc pre c). apply ascii_to_cons; [|apply ascii_to_here].
  apply orb_true_iff in Hs as [->%Z.eqb_eq| ->%Z.eqb_eq]; done.
Qed.

(** An exponent behind its mark. *)
Lemma exponent_ascii pre rest n :
  bytes_ok rest → (length (pre ++ rest) ≤ n)%nat →
  ∃ j, (i ← skipSign (pre ++ rest) (lenZ pre); bytesWhile isDigitOrUnderscore n (pre ++ rest) i) = Some j ∧
    ascii_to pre rest j.
Proof.
  intros Hb Hn. destruct (skipSign_ascii pre rest) as (i & -> & Hi). cbn [mbind option_bind].
  destruct Hi as (w & rest' & -> & Hw & ->). apply Forall_app in Hb as [_ Hb]. rewrite app_assoc.
  destruct (digits_ascii (pre ++ w) rest' n Hb) as (j & -> & Hj); [rewrite !length_app in Hn; lia|].
  exists j. split; [done|]. by apply ascii_to_app.
Qed.

Lemma prefixedRun_ascii fuel hex dot pre rest :
  bytes_ok rest → (length rest ≤ fuel)%nat →
  ∃ j, prefixedRun fuel (pre ++ rest) hex dot (lenZ pre) = Some j ∧ ascii_to pre rest j.
Proof.
  revert pre rest dot. induction fuel as [|fuel IH]; intros pre rest dot Hb Hf.
  { destruct rest; [|simpl in Hf; lia]. cbn [prefixedRun]. rewrite outside. eexists. split; [done|apply ascii_to_here]. }
  cbn [prefixedRun]. destruct rest as [|c rest]; [rewrite outside; eexists; split; [done|apply ascii_to_here]|].
  rewrite inside, at_head. change (head (c :: rest)) with (Some c). cbn [mbind option_bind].
  apply Forall_cons in Hb as [Hc Hb]. simpl in Hf. rewrite <- (lenZ_snoc pre c), (advance pre c rest).
  assert (∀ dot, c < 128 → ∃ j, prefixedRun fuel ((pre ++ [c]) ++ rest) hex dot (lenZ (pre ++ [c])) = Some j ∧
    ascii_to pre (c :: rest) j) as Hgo.
  { intros d Hlt. destruct (IH (pre ++ [c]) rest d Hb ltac:(lia)) as (j & -> & Hj). exists j. split; [done|].
    by apply ascii_to_cons. }
  destruct (Z.eqb_spec c (chr ".")) as [->|].
  { destruct dot; [eexists; split; [done|apply ascii_to_here]|]. by apply Hgo. }
  destruct (hex && ((c =? chr "p") || (c =? chr "P"))) eqn:Hp.
  { apply andb_true_iff in Hp as [_ Hp]. rewrite orb_true_iff, !Z.eqb_eq in Hp.
    destruct (exponent_ascii (pre ++ [c]) rest (length ((pre ++ [c]) ++ rest)) Hb ltac:(lia)) as (j & -> & Hj).
    exists j. split; [done|]. apply ascii_to_cons; [|done]. by destruct Hp as [->| ->]. }
  destruct (isIdentPart c) eqn:Hi; simpl; [|eexists; split; [done|apply ascii_to_here]].
  by apply Hgo, identPart_ascii.
Qed.

Lemma decimalEnd_ascii pre c rest :
  byte_ok c → c < 128 → bytes_ok rest →
  ∃ j, decimalEnd (pre ++ c :: rest) (lenZ pre) = Some j ∧ ascii_to (pre ++ [c]) rest j.
Proof.
  intros Hc Hlt Hb. unfold decimalEnd. rewrite byteIs_head, <- (lenZ_snoc pre c), (advance pre c rest).
  set (n := length ((pre ++ [c]) ++ rest)). assert (length (pre ++ [c]) + length rest = n)%nat as Hn by (unfold n; rewrite !length_app; simpl; lia).
  clearbody n. set (pre1 := pre ++ [c]) in *. clearbody pre1.
  destruct (digits_ascii pre1 rest n Hb ltac:(lia)) as (i & -> & w & rest1 & -> & Hw & ->). cbn [mbind option_bind].
  rewrite length_app in Hn. apply Forall_app in Hb as [_ Hb]. rewrite app_assoc.
  assert ((Some (negb (c =? chr ".")) &&? Some (lenZ (pre1 ++ w) <? lenZ ((pre1 ++ w) ++ rest1)) &&?
      byteIs ((pre1 ++ w) ++ rest1) (lenZ (pre1 ++ w)) (Z.eqb (chr "."))) =
    Some (negb (c =? chr ".") && match rest1 with [] => false | d :: _ => chr "." =? d end)) as ->.
  { destruct (negb (c =? chr ".")); [|done]. simpl. apply guarded_head. }
  cbn [mbind option_bind].
  assert (∃ i, (if negb (c =? chr ".") && match rest1 with [] => false | d :: _ => chr "." =? d end
      then bytesWhile isDigitOrUnderscore n ((pre1 ++ w) ++ rest1) (lenZ (pre1 ++ w) + 1)
      else Some (lenZ (pre1 ++ w))) = Some i ∧ ascii_to (pre1 ++ w) rest1 i) as (i & -> & Hi).
  { destruct (negb (c =? chr ".")); [|eexists; split; [done|apply ascii_to_here]].
    destruct rest1 as [|d rest1]; [eexists; split; [done|apply ascii_to_here]|].
    destruct (Z.eqb_spec (chr ".") d) as [<-|]; [|eexists; split; [done|apply ascii_to_here]]. cbn [andb].
    rewrite <- (lenZ_snoc (pre1 ++ w) (chr ".")), (advance (pre1 ++ w) _ rest1). apply Forall_cons in Hb as [_ Hb].
    destruct (digits_ascii ((pre1 ++ w) ++ [chr "."]) rest1 n Hb ltac:(simpl in Hn; lia)) as (i & -> & Hi).
    exists i. split; [done|]. by apply ascii_to_cons. }
  destruct Hi as (w1 & rest2 & -> & Hw1 & ->). rewrite length_app in Hn. apply Forall_app in Hb as [_ Hb].
  cbn [mbind option_bind]. rewrite app_assoc. set (pre2 := (pre1 ++ w) ++ w1).
  assert (∀ j, ascii_to pre2 rest2 j → ascii_to pre1 (w ++ w1 ++ rest2) j) as Hdone.
  { intros j Hj. apply ascii_to_app; [done|]. by apply ascii_to_app. }
  rewrite guarded_head. cbn [mbind option_bind].
  destruct rest2 as [|d rest2]; [eexists; split; [done|apply Hdone, ascii_to_here]|].
  destruct ((d =? chr "e") || (d =? chr "E")) eqn:He; [|eexists; split; [done|apply Hdone, ascii_to_here]].
  apply Forall_cons in Hb as [_ Hb]. rewrite <- (lenZ_snoc pre2 d), (advance pre2 d rest2).
  destruct (exponent_ascii (pre2 ++ [d]) rest2 n Hb) as (j & -> & Hj).
  { unfold pre2. rewrite !length_app. simpl in *. lia. }
  exists j. split; [done|]. apply Hdone, ascii_to_cons; [|done].
  rewrite orb_true_iff, !Z.eqb_eq in He. by destruct He as [->| ->].
Qed.

Lemma isPrefixByte_ascii c : byte_ok c → isPrefixByte c = true → c < 128.
Proof.
  intros Hc H. apply Z.ltb_lt. assert (negb (isPrefixByte c) || (c <? 128) = true) as H' by (by_bytes c Hc).
  by rewrite H in H'.
Qed.

(** A number ends behind ASCII bytes, its first one among them. *)
Lemma scanNumberEnd_ascii pre c rest :
  byte_ok c → c < 128 → bytes_ok rest →
  ∃ j, scanNumberEnd (pre ++ c :: rest) (lenZ pre) = Some j ∧ ascii_to (pre ++ [c]) rest j.
Proof.
  intros Hc Hlt Hb. unfold scanNumberEnd. set (n := length (pre ++ c :: rest)).
  assert (length pre + 1 + length rest = n)%nat as Hn by (unfold n; rewrite length_app; simpl; lia). clearbody n.
  assert ((byteIs (pre ++ c :: rest) (lenZ pre) (Z.eqb (chr "0")) &&? Some (lenZ pre + 1 <? lenZ (pre ++ c :: rest)) &&?
      byteIs (pre ++ c :: rest) (lenZ pre + 1) isPrefixByte) =
    Some ((chr "0" =? c) && match rest with [] => false | d :: _ => isPrefixByte d end)) as ->.
  { rewrite byteIs_head. destruct (chr "0" =? c); [|done].
    rewrite <- (lenZ_snoc pre c), (advance pre c rest). exact (guarded_head (pre ++ [c]) rest isPrefixByte). }
  cbn [mbind option_bind].
  assert (∃ i, (if (chr "0" =? c) && match rest with [] => false | d :: _ => isPrefixByte d end
      then c0 ← (pre ++ c :: rest) !!z (lenZ pre + 1);
           prefixedRun n (pre ++ c :: rest) ((c0 =? chr "x") || (c0 =? chr "X")) false (lenZ pre + 2)
      else decimalEnd (pre ++ c :: rest) (lenZ pre)) = Some i ∧ ascii_to (pre ++ [c]) rest i) as (i & -> & Hi).
  { destruct (_ && _) eqn:Hp; [|by apply decimalEnd_ascii]. apply andb_true_iff in Hp as [_ Hp].
    destruct rest as [|d rest]; [done|]. apply Forall_cons in Hb as [Hd Hb].
    rewrite at_offset by lia. change ((c :: d :: rest) !!z 1) with (Some d). cbn [mbind option_bind].
    replace (lenZ pre + 2) with (lenZ ((pre ++ [c]) ++ [d])) by (autorewrite with lenZ; lia).
    replace (pre ++ c :: d :: rest) with (((pre ++ [c]) ++ [d]) ++ rest) by (by rewrite <- !app_assoc).
    destruct (prefixedRun_ascii n ((d =? chr "x") || (d =? chr "X")) false ((pre ++ [c]) ++ [d]) rest Hb) as (j & -> & Hj).
    { simpl in Hn. lia. }
    exists j. split; [done|]. apply ascii_to_cons; [by apply isPrefixByte_ascii|done]. }
  cbn [mbind option_bind]. destruct Hi as (w & rest' & -> & Hw & ->). rewrite (advance pre c (w ++ rest')), (app_assoc (pre ++ [c])).
  rewrite guarded_head. cbn [mbind option_bind]. eexists. split; [done|].
  apply ascii_to_app; [done|]. destruct rest' as [|d rest']; [apply ascii_to_here|].
  destruct (Z.eqb_spec (chr "i") d) as [<-|]; [|apply ascii_to_here].
  rewrite <- (lenZ_snoc _ (chr "i")). apply ascii_to_cons; [done|apply ascii_to_here].
Qed.
