(* ===== verification/SyntaxScanner.v ===== *)
(** The steps of the scanner: each reads a lexeme of the grammar, or what is skipped.

    The scanner as a whole: it ends without a panic on every source, and the tokens of a
    source that it accepts are its lexemes. *)

From Stdlib Require Import String Ascii.
From S2P Require Import Prelude.
From S2P Require Import GoInt.
From S2P Require Import SyntaxToken.
From S2P Require Import SyntaxUnicode.
From S2P Require Import SyntaxEncoding.
From S2P Require Import SyntaxLiteral.
From S2P Require Import SyntaxScan.
From S2P Require Import SyntaxBytes.
From S2P Require Import SyntaxRunes.
From S2P Require Import SyntaxIdent.
From S2P Require Import SyntaxGrammar.
From S2P Require Import SyntaxStrings.
From S2P Require Import SyntaxNumbers.
From S2P Require Import SyntaxRuns.

Implicit Types (pre rest post w : list Z).

(** * Lexemes without line ends *)

Lemma identifier_no_newline w : identifier w → newline ∉ w.
Proof.
  intros (r & rs & -> & Hs & Hr & Hrs). assert (Forall (λ r, identPart r = true) (r :: rs)) as Hp.
  { constructor; [|done]. unfold identPart. by rewrite Hr. }
  clear Hr Hrs. revert Hs Hp. generalize (r :: rs). intros l Hs Hp. induction l as [|x l IH]; [apply not_elem_of_nil|].
  apply Forall_cons in Hs as [Hx Hs]. apply Forall_cons in Hp as [Hpx Hp]. unfold utf8s. simpl.
  rewrite not_elem_of_app. split; [|by apply IH]. destruct (decide (x < 128)).
  - rewrite utf8_ascii by (destruct Hx; lia). rewrite list_elem_of_singleton. intros <-. by vm_compute in Hpx.
  - intros Hin. pose proof (proj1 (Forall_forall _ _) (utf8_high x Hx ltac:(lia)) _ Hin) as Hh. simpl in Hh.
    unfold newline in Hh. lia.
Qed.

Lemma numeral_no_newline base ds v : numeral base ds v → newline ∉ ds.
Proof.
  intros (xs & Hf & _). induction Hf as [|c x ds xs [Hc _] Hf IH]; [apply not_elem_of_nil|].
  rewrite not_elem_of_cons. split; [|done]. by intros <-.
Qed.

Lemma escape_no_newline e v u : escape e v u → newline ∉ e.
Proof.
  destruct 1 as [c v Hin|ds v _ Hn|ds v _ Hn _|ds v _ Hn _|ds v _ Hn _];
    [|apply numeral_no_newline in Hn; rewrite ?not_elem_of_cons; by split_and!..].
  rewrite !not_elem_of_cons. split_and!; [done| |apply not_elem_of_nil].
  intros <-. apply simpleEscape_spec in Hin. by vm_compute in Hin.
Qed.

Lemma string_no_newline w out : string_body w out → newline ∉ w.
Proof.
  induction 1 as [|c w out Hq Hs Hn Hw IH|e v u w out He Hw IH].
  - apply not_elem_of_nil.
  - rewrite not_elem_of_cons. naive_solver.
  - rewrite not_elem_of_app. split; [by eapply escape_no_newline|done].
Qed.

Lemma rune_no_newline w v : rune_body w v → newline ∉ w.
Proof.
  destruct 1 as [|e v u He _|r Hr H0 H1 H2 H3].
  - rewrite !not_elem_of_cons. split_and!; [done..|apply not_elem_of_nil].
  - by eapply escape_no_newline.
  - destruct (decide (r < 128)).
    + rewrite utf8_ascii by (destruct Hr; lia). rewrite list_elem_of_singleton. naive_solver.
    + intros Hin. pose proof (proj1 (Forall_forall _ _) (utf8_high r Hr ltac:(lia)) _ Hin) as Hh. simpl in Hh.
      unfold newline in Hh. lia.
Qed.

Lemma newlines_delimited q w : q ≠ newline → newline ∉ w → newlines (q :: w ++ [q]) = 0.
Proof.
  intros Hq Hw. apply newlines_none. rewrite not_elem_of_cons, not_elem_of_app, list_elem_of_singleton. naive_solver.
Qed.

(** * What a step does *)

(** The candidates for constraints. *)
Definition isCandidate (kind : Z) w : bool :=
  (kind =? TokenInterface) || ((kind =? TokenIdent) && bool_decide (w = text "comparable")).

Definition step_ok pre rest (line : Z) (s : scanned) : Prop :=
  match s with
  | Skipped i line' =>
      ∃ w rest', rest = w ++ rest' ∧ w ≠ [] ∧ trivia w rest' ∧ source_text false rest' ∧
        i = lenZ (pre ++ w) ∧ line' = line + newlines w
  | Scanned tok candidate i line' =>
      ∃ kind w rest', rest = w ++ rest' ∧ w ≠ [] ∧ lexeme kind w rest' ∧ source_text false rest' ∧
        i = lenZ (pre ++ w) ∧ line' = line + newlines w ∧
        tok = MkToken (token_word kind line w) (lenZ pre) (lenZ (pre ++ w)) ∧ candidate = isCandidate kind w
  | Stopped _ => True
  end.

(** Sources that fit the offsets of tokens. *)
Definition fits (src : list Z) : Prop := lenZ src < 2 ^ 31.

Lemma fits_pre pre rest : fits (pre ++ rest) → i32 (lenZ pre) = lenZ pre.
Proof.
  unfold fits. rewrite lenZ_app. pose proof (lenZ_nonneg pre). pose proof (lenZ_nonneg rest). intros Hf. apply i32_small. unfold i32_ok. lia.
Qed.

Lemma token_word_plain kind line w : kind ≠ TokenOperator → token_word kind line w = kindLine kind line.
Proof.
  intros Hk. unfold token_word. rewrite (proj2 (Z.eqb_neq _ _) Hk). by destruct w as [|? []].
Qed.

Lemma scanTok_eq kind line pre w rest :
  fits (pre ++ w ++ rest) → kind ≠ TokenOperator →
  scanTok kind line (lenZ pre) (lenZ (pre ++ w)) = MkToken (token_word kind line w) (lenZ pre) (lenZ (pre ++ w)).
Proof.
  intros Hf Hk. unfold scanTok. rewrite (fits_pre pre (w ++ rest) Hf), (fits_pre (pre ++ w) rest) by (by rewrite <- app_assoc).
  by rewrite token_word_plain.
Qed.

Lemma isCandidate_other kind w : kind ≠ TokenInterface → kind ≠ TokenIdent → isCandidate kind w = false.
Proof. intros H1 H2. unfold isCandidate. by rewrite (proj2 (Z.eqb_neq _ _) H1), (proj2 (Z.eqb_neq _ _) H2). Qed.

(** * Words *)

Lemma word_kind_size w :
  let size := lenZ w in ((2 <=? size) && (size <=? 9)) || (size =? 11) = false → word_kind keywords w = TokenIdent.
Proof.
  intros size Hs. rewrite (word_kind_filter (length w)) by done.
  assert (filter (λ e, length e.1 = length w) keywords = []) as ->; [|done].
  assert (Forall (λ e, ((2 <=? lenZ e.1) && (lenZ e.1 <=? 9)) || (lenZ e.1 =? 11) = true) keywords) as Hk
    by (by apply (bool_decide_unpack _)).
  induction Hk as [|e l He Hk IH]; [done|]. rewrite filter_cons, decide_False; [done|].
  intros Hl. unfold size, lenZ in *. rewrite Hl in He. congruence.
Qed.

Lemma word_kind_cases table w : word_kind table w = TokenIdent ∨ ∃ e, e ∈ table ∧ word_kind table w = e.2 ∧ w = e.1.
Proof.
  induction table as [|[t k] table IH]; [by left|]. simpl. destruct (decide (w = t)) as [->|].
  - right. exists (t, k). split_and!; [by left|done|done].
  - destruct IH as [IH|(e & He & IH & ->)]; [by left|]. right. exists e. split_and!; [by right|done|done].
Qed.

Lemma word_kind_not_operator w : word_kind keywords w ≠ TokenOperator.
Proof.
  destruct (word_kind_cases keywords w) as [->|(e & He & -> & _)]; [done|].
  assert (Forall (λ e, e.2 ≠ TokenOperator) keywords) as Hk by (by apply (bool_decide_unpack _)).
  by apply (proj1 (Forall_forall _ _) Hk e).
Qed.

(** The tail of [scanIdent], from the end of the word. *)
Lemma scanIdent_word pre w rest line c :
  head w = Some c → identifier w → ¬ starts_with identPart rest → source_text false rest →
  fits (pre ++ w ++ rest) →
  ∃ s,
    (let size := lenZ (pre ++ w) - lenZ pre in
     kind ← (if ((2 <=? size) && (size <=? 9)) || (size =? 11)
             then keywordKind (pre ++ w ++ rest) (lenZ pre) (lenZ (pre ++ w)) c else Some TokenIdent);
     candidate ← Some (kind =? TokenInterface) ||?
       (Some ((c =? chr "c") && (size =? 10)) &&?
          bytesEqualText (pre ++ w ++ rest) (lenZ pre) (lenZ (pre ++ w)) (text "comparable"));
     Some (Scanned (scanTok kind line (lenZ pre) (lenZ (pre ++ w))) candidate (lenZ (pre ++ w)) line)) = Some s ∧
    step_ok pre (w ++ rest) line s.
Proof.
  intros Hc Hi Hn Hst Hf. cbv zeta. replace (lenZ (pre ++ w) - lenZ pre) with (lenZ w) by (rewrite lenZ_app; lia).
  assert ((if ((2 <=? lenZ w) && (lenZ w <=? 9)) || (lenZ w =? 11)
    then keywordKind (pre ++ w ++ rest) (lenZ pre) (lenZ (pre ++ w)) c else Some TokenIdent) = Some (word_kind keywords w)) as ->.
  { destruct (_ || _) eqn:Hsize; [by apply keywordKind_spec|]. by rewrite word_kind_size. }
  cbn [mbind option_bind]. rewrite bytesEqualText_spec.
  assert (Some (word_kind keywords w =? TokenInterface) ||?
    (Some ((c =? chr "c") && (lenZ w =? 10)) &&? Some (bool_decide (w = text "comparable"))) =
    Some (isCandidate (word_kind keywords w) w)) as ->.
  { unfold isCandidate. destruct (word_kind keywords w =? TokenInterface); [done|]. simpl.
    destruct (decide (w = text "comparable")) as [->|Hne].
    - injection Hc as <-. by vm_compute.
    - rewrite bool_decide_false by done. rewrite andb_false_r. by destruct (_ && _). }
  cbn [mbind option_bind]. eexists. split; [reflexivity|].
  exists (word_kind keywords w), w, rest. split_and!; try done.
  - by intros ->.
  - by apply lx_word.
  - rewrite newlines_none by (by apply identifier_no_newline). lia.
  - by apply (scanTok_eq _ _ _ _ rest), word_kind_not_operator.
Qed.

Lemma identifier_app r rs :
  scalar r → identStart r = true → Forall scalar rs → Forall (λ r, identPart r = true) rs →
  identifier (utf8 r ++ utf8s rs).
Proof. intros H1 H2 H3 H4. exists r, rs. split_and!; [done|by constructor|done|done]. Qed.

Lemma scanIdent_step pre r rest line c :
  scalar r → identStart r = true → head (utf8 r ++ rest) = Some c → bytes_ok rest → source_text false rest →
  fits (pre ++ utf8 r ++ rest) →
  ∃ s, scanIdent (pre ++ utf8 r ++ rest) (lenZ pre) line c = Some s ∧ step_ok pre (utf8 r ++ rest) line s.
Proof.
  intros Hr Hs Hc Hb Hst Hf. unfold scanIdent.
  assert ((if 128 <=? c then unicodeIdentifierWidth (pre ++ utf8 r ++ rest) (lenZ pre) true else Some 1) =
    Some (lenZ (utf8 r))) as ->.
  { destruct (utf8_nonempty r) as (c' & l & Hu). rewrite Hu in Hc. injection Hc as ->.
    destruct (Z.leb_spec 128 c).
    - rewrite unicodeIdentifierWidth_utf8, Hs; [done|done|]. destruct (decide (r < 128)); [|lia].
      rewrite utf8_ascii in Hu by (destruct Hr; lia). injection Hu as ->. lia.
    - assert (r = c) as -> by (by apply (utf8_head r c c l)). by rewrite utf8_ascii by (destruct Hr; lia). }
  cbn [mbind option_bind]. rewrite <- lenZ_app.
  destruct (identEnd_spec (length (pre ++ utf8 r ++ rest)) (pre ++ utf8 r) rest Hb Hst) as (rs & rest' & -> & H1 & H2 & H3 & H4 & H5).
  { rewrite !length_app. lia. }
  rewrite <- app_assoc in H5. rewrite H5. cbn [mbind option_bind].
  rewrite (app_assoc (utf8 r)) in Hf, Hc |- *. rewrite <- (app_assoc pre (utf8 r) (utf8s rs)).
  apply scanIdent_word; [|by apply identifier_app|done..]. destruct (utf8_nonempty r) as (c' & l & Hu). by rewrite Hu in Hc |- *.
Qed.

(** * Numbers *)

(** Behind ASCII bytes the text is a source. *)
Lemma source_text_over first w rest :
  Forall (λ c, c < 128) w → w ≠ [] → source_text first (w ++ rest) → source_text false rest.
Proof.
  intros Hw Hne Hs. destruct w as [|c w] using rev_ind; [done|]. apply Forall_app in Hw as [_ Hc%Forall_inv].
  rewrite <- app_assoc in Hs. by apply (source_text_end first w c).
Qed.

Lemma scanNumber_step pre c rest line :
  byte_ok c → c < 128 → bytes_ok rest → source_text false (c :: rest) → fits (pre ++ c :: rest) →
  ∃ s, scanNumber (pre ++ c :: rest) (lenZ pre) line = Some s ∧ step_ok pre (c :: rest) line s.
Proof.
  intros Hc Hlt Hb Hst Hf. unfold scanNumber.
  destruct (scanNumberEnd_ascii pre c rest Hc Hlt Hb) as (i & -> & w & rest' & -> & Hw & ->).
  cbn [mbind option_bind]. rewrite <- app_assoc. simpl app.
  destruct (validNumberLiteral_number pre (c :: w) rest') as (b & Hv & Hn).
  change (c :: w ++ rest') with ((c :: w) ++ rest') in *. rewrite Hv.
  replace (lenZ (pre ++ c :: w) - lenZ pre) with (lenZ (c :: w)) by (rewrite lenZ_app; lia).
  cbn [mbind option_bind]. destruct (Z.ltb_spec 10000 (lenZ (c :: w))); [by eexists|].
  cbn [orO mbind option_bind]. destruct b; [|by eexists]. pose proof (proj1 Hn eq_refl) as Hnum.
  simpl negb. cbv iota. eexists. split; [reflexivity|]. exists TokenNumber, (c :: w), rest'. split_and!; try done.
  - by apply lx_number.
  - apply (source_text_over false (c :: w)); [by constructor|done|done].
  - rewrite newlines_none by (by apply number_no_newline). lia.
  - by apply (scanTok_eq _ _ _ _ rest').
Qed.

(** * Quoted text *)

(** A token between two bytes [q], with [w] inside. *)
Lemma delimited_step pre q w rest line kind line' :
  source_text false (q :: w ++ q :: rest) → q < 128 → fits (pre ++ q :: w ++ q :: rest) →
  lexeme kind (q :: w ++ [q]) rest → kind ≠ TokenOperator → kind ≠ TokenInterface → kind ≠ TokenIdent →
  line' = line + newlines (q :: w ++ [q]) →
  step_ok pre (q :: w ++ q :: rest) line
    (Scanned (scanTok kind line (lenZ pre) (lenZ (pre ++ q :: w) + 1)) false (lenZ (pre ++ q :: w) + 1) line').
Proof.
  intros Hst Hq Hf Hl H1 H2 H3 ->.
  assert (q :: w ++ q :: rest = (q :: w ++ [q]) ++ rest) as Hsplit by (simpl; by rewrite <- app_assoc).
  assert (lenZ (pre ++ q :: w) + 1 = lenZ (pre ++ q :: w ++ [q])) as -> by (autorewrite with lenZ; lia).
  exists kind, (q :: w ++ [q]), rest. split_and!; try done.
  - by apply (source_text_end false (q :: w) q).
  - rewrite Hsplit in Hf. by apply (scanTok_eq _ _ _ _ rest).
  - by rewrite isCandidate_other.
Qed.

Lemma scanString_step pre rest line :
  bytes_ok rest → source_text false (quote :: rest) → fits (pre ++ quote :: rest) →
  ∃ s, scanString (pre ++ quote :: rest) (lenZ pre) line = Some s ∧ step_ok pre (quote :: rest) line s.
Proof.
  intros Hb Hst Hf. unfold scanString. rewrite <- (lenZ_snoc pre quote), (advance pre quote rest).
  destruct (stringRun_sound (length ((pre ++ [quote]) ++ rest)) (pre ++ [quote]) rest Hb) as (i & ok & -> & Hi & Hok).
  { rewrite !length_app. lia. }
  cbn [mbind option_bind]. destruct ok; [|by eexists]. cbn [andO].
  destruct (closedBy ((pre ++ [quote]) ++ rest) i quote) as [closed|] eqn:Hclosed.
  2: { exfalso. unfold closedBy in Hclosed. pose proof (lenZ_nonneg (pre ++ [quote])).
       destruct (Z.ltb_spec i (lenZ ((pre ++ [quote]) ++ rest))); [|done]. simpl in Hclosed.
       destruct (byteIs_total ((pre ++ [quote]) ++ rest) i (Z.eqb quote) ltac:(lia)) as [b Hbyte]. congruence. }
  cbn [mbind option_bind]. destruct closed; [|by eexists].
  destruct (Hok eq_refl eq_refl) as (w & out & rest' & -> & Hw & ->).
  eexists. split; [reflexivity|]. rewrite <- app_assoc. simpl app.
  apply delimited_step; [done..|by eapply lx_string|done|done|done|].
  rewrite newlines_delimited; [lia|done|by eapply string_no_newline].
Qed.

(** Where a string of the grammar stands, its token is read. *)
Lemma scanString_quoted pre w out rest line :
  string_body w out → bytes_ok (w ++ rest) → fits (pre ++ quoted w ++ rest) →
  scanString (pre ++ quoted w ++ rest) (lenZ pre) line =
  Some (Scanned (MkToken (token_word TokenString line (quoted w)) (lenZ pre) (lenZ (pre ++ quoted w))) false
    (lenZ (pre ++ quoted w)) line).
Proof.
  intros Hw Hb Hf. unfold scanString. pose proof (scanTok_eq TokenString line pre (quoted w) rest Hf ltac:(done)) as Htok.
  assert (pre ++ quoted w ++ rest = (pre ++ [quote]) ++ w ++ quote :: rest) as Hsrc.
  { unfold quoted. simpl. by rewrite <- !app_assoc. }
  assert (lenZ (pre ++ quoted w) = lenZ ((pre ++ [quote]) ++ w) + 1) as Hend.
  { unfold quoted. autorewrite with lenZ. lia. }
  rewrite Hsrc, <- (lenZ_snoc pre quote), (stringRun_complete w out (pre ++ [quote]) rest) by (try done; rewrite !length_app; lia).
  cbn [mbind option_bind andO]. unfold closedBy. rewrite (app_assoc (pre ++ [quote]) w), guarded_head. cbn [mbind option_bind].
  change (quote =? quote) with true. cbv iota. by rewrite <- Hend, Htok.
Qed.

Lemma scanRaw_step pre rest line :
  source_text false (chr "`" :: rest) → fits (pre ++ chr "`" :: rest) →
  ∃ s, scanRaw (pre ++ chr "`" :: rest) (lenZ pre) line = Some s ∧ step_ok pre (chr "`" :: rest) line s.
Proof.
  intros Hst Hf. unfold scanRaw. rewrite <- (lenZ_snoc pre (chr "`")), (advance pre _ rest).
  destruct (rawRun_spec (length ((pre ++ [chr "`"]) ++ rest)) (pre ++ [chr "`"]) rest line)
    as [(w & rest' & -> & Hw & ->)|(line' & ->)]; [rewrite !length_app; lia|..]; cbn [mbind option_bind].
  - unfold closedBy. rewrite (app_assoc (pre ++ [_]) w). rewrite guarded_head. cbn [mbind option_bind].
    change (chr "`" =? chr "`") with true. cbv iota. eexists. split; [reflexivity|]. rewrite <- app_assoc. simpl app.
    apply delimited_step; [done..|by apply lx_raw|done|done|done|].
    change (chr "`" :: w ++ [chr "`"]) with ([chr "`"] ++ w ++ [chr "`"]). rewrite !newlines_app.
    change (newlines [chr "`"]) with 0. lia.
  - unfold closedBy. rewrite Z.ltb_irrefl. by eexists.
Qed.

(** The packed word: the line, the byte of an operator, the kind. *)
Lemma token_word_value kind line w :
  0 ≤ kind < 256 → (kind = TokenOperator → Forall (λ c, 0 ≤ c < 128) w) →
  ∃ c, 0 ≤ c < 128 ∧ token_word kind line w = line * 2 ^ 15 + (c * 2 ^ 8 + kind).
Proof.
  intros Hk Hw. assert (∀ x, 0 ≤ x < 2 ^ 15 → Z.lor x (Z.shiftl line TokenOperatorLineShift) = line * 2 ^ 15 + x) as Hline.
  { intros x Hx. unfold TokenOperatorLineShift. rewrite Z.shiftl_mul_pow2, Z.lor_comm by lia. by apply lor_marker. }
  assert (∃ c, 0 ≤ c < 128 ∧ kindLine kind line = line * 2 ^ 15 + (c * 2 ^ 8 + kind)) as Hplain.
  { exists 0. split; [lia|]. unfold kindLine. rewrite Hline by lia. lia. }
  unfold token_word. destruct w as [|c [|]]; [done| |done]. destruct (Z.eqb_spec kind TokenOperator) as [->|]; [|done].
  pose proof (Forall_inv (Hw eq_refl)) as Hc. simpl in Hc. exists c. split; [done|]. unfold kindLine, TokenOperatorCharShift.
  rewrite <- Z.lor_assoc, (Z.lor_comm (Z.shiftl line _)), Z.lor_assoc, Z.shiftl_mul_pow2 by lia.
  rewrite (Z.lor_comm TokenOperator), lor_marker by (unfold TokenOperator; lia). apply Hline. unfold TokenOperator. lia.
Qed.

Lemma token_word_kind kind line w start end_ :
  0 ≤ kind < 256 → (kind = TokenOperator → Forall (λ c, 0 ≤ c < 128) w) →
  tokenKind (MkToken (token_word kind line w) start end_) = kind.
Proof.
  intros Hk Hw. destruct (token_word_value kind line w Hk Hw) as (c & Hc & He). unfold tokenKind. cbn [t_KindLine].
  rewrite He. change 255 with (Z.ones 8). rewrite Z.land_ones by lia. change (2 ^ 15) with 32768. change (2 ^ 8) with 256. runes.
Qed.

Lemma token_word_line kind line w start end_ :
  0 ≤ kind < 256 → (kind = TokenOperator → Forall (λ c, 0 ≤ c < 128) w) → 0 ≤ line ≤ TokenLineLimit →
  TokenLine (MkToken (token_word kind line w) start end_) = line.
Proof.
  unfold TokenLineLimit. intros Hk Hw Hl. destruct (token_word_value kind line w Hk Hw) as (c & Hc & He).
  unfold TokenLine. cbn [t_KindLine]. rewrite He. unfold TokenOperatorLineShift, TokenLineLimit.
  change 65535 with (Z.ones 16). rewrite Z.land_ones, Z.shiftr_div_pow2 by lia.
  change (2 ^ 15) with 32768. change (2 ^ 8) with 256. change (2 ^ 16) with 65536. runes.
Qed.

Section host.
Context (wordSize base : Z) (Hword : 0 < wordSize).

Lemma scanRune_step pre rest line :
  bytes_ok rest → source_text false (chr "'" :: rest) → fits (pre ++ chr "'" :: rest) →
  ∃ s, scanRune wordSize base (pre ++ chr "'" :: rest) (lenZ pre) line = Some s ∧ step_ok pre (chr "'" :: rest) line s.
Proof.
  intros Hb Hst Hf. unfold scanRune. rewrite <- (lenZ_snoc pre (chr "'")), (advance pre _ rest).
  destruct (runeRun_spec (length ((pre ++ [chr "'"]) ++ rest)) (pre ++ [chr "'"]) rest) as (w & rest' & -> & ->).
  { rewrite !length_app. lia. }
  cbn [mbind option_bind]. unfold closedBy. rewrite (app_assoc (pre ++ [_]) w), guarded_head. cbn [mbind option_bind].
  destruct rest' as [|c rest']; [by eexists|]. destruct (Z.eqb_spec (chr "'") c) as [<-|]; [|by eexists].
  apply Forall_app in Hb as [Hbw _]. rewrite <- !app_assoc. simpl app in *.
  assert (lenZ (pre ++ chr "'" :: w) + 1 = lenZ (pre ++ chr "'" :: w ++ [chr "'"])) as He by (autorewrite with lenZ; lia).
  assert (chr "'" :: w ++ chr "'" :: rest' = (chr "'" :: w ++ [chr "'"]) ++ rest') as Hsplit by (simpl; by rewrite <- app_assoc).
  destruct (RuneLiteralValue_spec wordSize base Hword (scanTok TokenChar line (lenZ pre) (lenZ (pre ++ chr "'" :: w ++ [chr "'"])))
    pre w rest') as (v & b & Hv & Hrune); [|done|].
  { rewrite Hsplit in Hf. rewrite (scanTok_eq _ _ _ _ rest') by done. unfold token_at. cbn [t_Start t_End].
    split_and!; [|done|done]. by apply token_word_kind. }
  rewrite He, Hsplit, Hv. cbn [mbind option_bind]. destruct b; [|by eexists]. eexists. split; [reflexivity|].
  rewrite <- Hsplit, <- He. assert (rune_body w v) as Hbody by (by apply Hrune).
  apply delimited_step; [done..|by eapply lx_char|done|done|done|].
  rewrite newlines_delimited; [lia|done|by eapply rune_no_newline].
Qed.

(** * Operators *)

Lemma scanOperator_step pre c rest line :
  byte_ok c → bytes_ok rest → source_text false (c :: rest) → fits (pre ++ c :: rest) → operator_start (c :: rest) →
  ∃ s, scanOperator (pre ++ c :: rest) (lenZ pre) line c = Some s ∧ step_ok pre (c :: rest) line s.
Proof.
  intros Hc Hb Hst Hf Hop. assert (c < 128 ∧ ¬ blank c) as [Hlt Hbl] by (by destruct Hop as (? & ? & _)).
  unfold scanOperator. rewrite operatorEnd_spec by done. cbn [mbind option_bind]. eexists. split; [reflexivity|].
  pose proof (operator_text_ascii c rest Hlt) as Hascii.
  assert (newline ∉ operator_text (c :: rest)) as Hnl.
  { apply operator_text_newline. intros ->. apply Hbl. by do 3 right. }
  destruct (operator_text_split c rest) as (w & rest' & Hsplit & Htext & Hlen). rewrite Htext in Hascii, Hnl.
  exists TokenOperator, (c :: w), rest'. rewrite <- Hlen, <- lenZ_app. split_and!; try done.
  - apply lx_operator; by rewrite <- Hsplit.
  - rewrite Hsplit in Hst. by apply (source_text_over false (c :: w)).
  - rewrite newlines_none by done. lia.
  - rewrite (fits_pre pre _ Hf). rewrite Hsplit, app_assoc in Hf. rewrite (fits_pre _ _ Hf). f_equal.
    unfold token_word. destruct w as [|d w].
    + rewrite lenZ_snoc, Z.eqb_refl. unfold TokenOperatorCharMask. by rewrite (proj2 (Z.leb_le c 127)) by lia.
    + rewrite (proj2 (Z.eqb_neq _ _)); [done|]. autorewrite with lenZ. pose proof (lenZ_nonneg w). lia.
Qed.

(** * What is skipped *)

Lemma scanSpace_step pre c rest line :
  blank c → source_text false (c :: rest) →
  ∃ s, (r ← from (pre ++ c :: rest) (lenZ pre);
        let '(i, line) := spaceRun r (lenZ pre) line in Some (Skipped i line)) = Some s ∧
    step_ok pre (c :: rest) line s.
Proof.
  intros Hc Hst. rewrite from_here. cbn [mbind option_bind].
  destruct (spaceRun_spec (c :: rest) pre line) as (w & rest' & Hw & Hbl & Hh & ->). eexists. split; [reflexivity|].
  assert (w ≠ []) as Hne. { intros ->. simpl in Hw. subst rest'. by apply Hh. }
  exists w, rest'. split_and!; try done; [by apply tv_blank|]. rewrite Hw in Hst.
  apply (source_text_over false w); [|done..]. eapply Forall_impl; [exact Hbl|].
  intros x [->|[->|[->| ->]]]; done.
Qed.

Lemma scanLineComment_step pre rest line :
  source_text false (chr "/" :: chr "/" :: rest) →
  ∃ s, scanLineComment (pre ++ chr "/" :: chr "/" :: rest) (lenZ pre) line = Some s ∧
    step_ok pre (chr "/" :: chr "/" :: rest) line s.
Proof.
  intros Hst. unfold scanLineComment. set (pre2 := pre ++ [chr "/"; chr "/"]).
  replace (lenZ pre + 2) with (lenZ pre2) by (unfold pre2; autorewrite with lenZ; lia).
  replace (pre ++ chr "/" :: chr "/" :: rest) with (pre2 ++ rest) by (unfold pre2; by rewrite <- app_assoc).
  rewrite from_here. cbn [mbind option_bind].
  destruct (lineCommentRun_spec rest pre2) as (w & rest' & -> & Hw & Hh & ->). eexists. split; [reflexivity|].
  exists (chr "/" :: chr "/" :: w), rest'. split_and!; try done.
  - by apply tv_line.
  - destruct Hh as [->|Hh]; [constructor|]. destruct rest' as [|c rest']; [done|]. injection Hh as ->.
    by apply (source_text_behind false (chr "/" :: chr "/" :: w) newline).
  - unfold pre2. by rewrite <- app_assoc.
  - rewrite newlines_none; [lia|]. by rewrite !not_elem_of_cons.
Qed.

Lemma scanBlockComment_step pre rest line :
  source_text false (chr "/" :: chr "*" :: rest) →
  ∃ s, scanBlockComment (pre ++ chr "/" :: chr "*" :: rest) (lenZ pre) line = Some s ∧
    step_ok pre (chr "/" :: chr "*" :: rest) line s.
Proof.
  intros Hst. unfold scanBlockComment. set (pre2 := pre ++ [chr "/"; chr "*"]).
  replace (lenZ pre + 2) with (lenZ pre2) by (unfold pre2; autorewrite with lenZ; lia).
  replace (pre ++ chr "/" :: chr "*" :: rest) with (pre2 ++ rest) by (unfold pre2; by rewrite <- app_assoc).
  destruct (blockCommentRun_spec (length (pre2 ++ rest)) pre2 rest line)
    as [(w & rest' & -> & Hcl & ->)|(i & line' & -> & Hi)]; [rewrite length_app; lia|..]; cbn [mbind option_bind].
  2: { rewrite (proj2 (Z.leb_le _ _)) by lia. by eexists. }
  rewrite (proj2 (Z.leb_gt _ _)) by (autorewrite with lenZ; pose proof (lenZ_nonneg rest'); lia).
  eexists. split; [reflexivity|]. exists (chr "/" :: chr "*" :: w ++ [chr "*"; chr "/"]), rest'.
  split_and!; try done.
  - simpl. by rewrite <- app_assoc.
  - by apply tv_block.
  - apply (source_text_end false (chr "/" :: chr "*" :: w ++ [chr "*"]) (chr "/")); [|done].
    simpl. by rewrite <- app_assoc.
  - unfold pre2. autorewrite with lenZ. lia.
  - change (chr "/" :: chr "*" :: w ++ [chr "*"; chr "/"]) with ([chr "/"; chr "*"] ++ w ++ [chr "*"; chr "/"]).
    rewrite !newlines_app. change (newlines [chr "/"; chr "*"]) with 0. change (newlines [chr "*"; chr "/"]) with 0. lia.
Qed.

End host.


(** * One step *)

Lemma second_byte pre c rest P :
  (Some (lenZ pre + 1 <? lenZ (pre ++ c :: rest)) &&? byteIs (pre ++ c :: rest) (lenZ pre + 1) P) =
  Some (match rest with [] => false | d :: _ => P d end).
Proof. rewrite guarded_offset by lia. by destruct rest. Qed.

Lemma isLetter_ascii c : byte_ok c → isLetter c || (c =? chr "_") = true → c < 128 ∧ identStart c = true.
Proof. intros Hc. rewrite letter_ascii by done. by intros [?%Z.ltb_lt ?]%andb_true_iff. Qed.

(** The first bytes of words beyond ASCII. *)
Lemma wide_word pre c rest :
  byte_ok c → 128 ≤ c → source_text false (c :: rest) →
  ∃ r rest', c :: rest = utf8 r ++ rest' ∧ scalar r ∧ source_text false rest' ∧
    unicodeIdentifierWidth (pre ++ c :: rest) (lenZ pre) true = Some (if identStart r then lenZ (utf8 r) else 0) ∧
    0 < lenZ (utf8 r).
Proof.
  intros Hc Hge Hst. destruct (wide_head false c rest Hge Hst) as (r & rest' & Hr & Hs & He & Hst').
  exists r, rest'. split_and!; [done..| |].
  - rewrite He. by apply (unicodeIdentifierWidth_utf8 pre r rest' true).
  - destruct (utf8_nonempty r) as (c' & l & ->). unfold lenZ. simpl. lia.
Qed.

Section host.
Context (wordSize base : Z) (Hword : 0 < wordSize).

(** The step at a byte that starts no word and is not skipped. *)
Lemma scanStep_other pre c rest line :
  byte_ok c → bytes_ok rest → source_text false (c :: rest) → fits (pre ++ c :: rest) → ¬ blank c →
  (c = chr "/" → head rest ≠ Some (chr "/") ∧ head rest ≠ Some (chr "*")) → (c < 128 → identStart c = false) →
  ∃ s,
    (number ← Some ((chr "0" <=? c) && (c <=? chr "9")) ||?
       (Some (c =? chr ".") &&?
          Some (match rest with [] => false | d :: _ => (chr "0" <=? d) && (d <=? chr "9") end));
     if (number : bool) then scanNumber (pre ++ c :: rest) (lenZ pre) line
     else if c =? quote then scanString (pre ++ c :: rest) (lenZ pre) line
     else if c =? chr "`" then scanRaw (pre ++ c :: rest) (lenZ pre) line
     else if c =? chr "'" then scanRune wordSize base (pre ++ c :: rest) (lenZ pre) line
     else if 128 <=? c then Some (Stopped line)
     else scanOperator (pre ++ c :: rest) (lenZ pre) line c) = Some s ∧ step_ok pre (c :: rest) line s.
Proof.
  intros Hc Hb Hst Hf Hbl Hslash Hid.
  set (second := match rest with [] => false | d :: _ => (chr "0" <=? d) && (d <=? chr "9") end).
  assert (Some ((chr "0" <=? c) && (c <=? chr "9")) ||? (Some (c =? chr ".") &&? Some second) =
    Some ((chr "0" <=? c) && (c <=? chr "9") || (c =? chr ".") && second)) as ->.
  { destruct ((chr "0" <=? c) && (c <=? chr "9")); [done|]. by destruct (c =? chr "."). }
  cbn [mbind option_bind]. destruct (_ || _) eqn:Hnum.
  { apply scanNumber_step; [done| |done..].
    apply orb_true_iff in Hnum as [[_ Hle%Z.leb_le]%andb_true_iff|[->%Z.eqb_eq _]%andb_true_iff]; [|done].
    change (chr "9") with 57 in Hle. lia. }
  destruct (Z.eqb_spec c quote) as [->|Hq]; [by apply scanString_step|].
  destruct (Z.eqb_spec c (chr "`")) as [->|Hraw]; [by apply scanRaw_step|].
  destruct (Z.eqb_spec c (chr "'")) as [->|Hr]; [by apply scanRune_step|].
  destruct (Z.leb_spec 128 c) as [|Hlt]; [by eexists|].
  apply scanOperator_step; [done..|]. apply orb_false_iff in Hnum as [Hdec Hdot]. unfold decimal.
  split_and!; try done; [by apply Hid| |].
  - intros [H1 H2]. apply andb_false_iff in Hdec. rewrite !Z.leb_gt in Hdec. lia.
  - intros -> d Hd [H1 H2]. destruct rest as [|d' rest]; [done|]. injection Hd as ->. simpl in Hdot.
    apply andb_false_iff in Hdot. rewrite !Z.leb_gt in Hdot. lia.
Qed.

Lemma scanStep_spec pre rest line :
  rest ≠ [] → bytes_ok rest → source_text false rest → fits (pre ++ rest) →
  ∃ s, scanStep wordSize base (pre ++ rest) (lenZ pre) line = Some s ∧ step_ok pre rest line s.
Proof.
  intros Hne Hb Hst Hf. destruct rest as [|c rest]; [done|]. apply Forall_cons in Hb as [Hc Hb].
  unfold scanStep. rewrite at_head. change (head (c :: rest)) with (Some c). cbn [mbind option_bind]. cbv zeta.
  destruct (decide (blank c)) as [Hbl|Hbl].
  { assert ((c =? 32) || (c =? 9) || (c =? 13) || (c =? newline) = true) as ->.
    { by destruct Hbl as [->|[->|[->| ->]]]. }
    by apply scanSpace_step. }
  assert ((c =? 32) || (c =? 9) || (c =? 13) || (c =? newline) = false) as ->.
  { rewrite !orb_false_iff, !Z.eqb_neq. unfold blank in Hbl. tauto. }
  rewrite !second_byte.
  destruct (decide (c = chr "/" ∧ head rest = Some (chr "/"))) as [[-> Hh]|Hline].
  { destruct rest as [|d rest]; [done|]. injection Hh as ->. by apply scanLineComment_step. }
  assert (Some (c =? chr "/") &&? Some (match rest with [] => false | d :: _ => chr "/" =? d end) = Some false) as ->.
  { destruct (Z.eqb_spec c (chr "/")) as [->|]; [|done]. destruct rest as [|d rest]; [done|]. cbn [andO].
    destruct (Z.eqb_spec (chr "/") d) as [<-|]; [by destruct Hline|done]. }
  cbn [mbind option_bind].
  destruct (decide (c = chr "/" ∧ head rest = Some (chr "*"))) as [[-> Hh]|Hblock].
  { destruct rest as [|d rest]; [done|]. injection Hh as ->. by apply scanBlockComment_step. }
  assert (Some (c =? chr "/") &&? Some (match rest with [] => false | d :: _ => chr "*" =? d end) = Some false) as ->.
  { destruct (Z.eqb_spec c (chr "/")) as [->|]; [|done]. destruct rest as [|d rest]; [done|]. cbn [andO].
    destruct (Z.eqb_spec (chr "*") d) as [<-|]; [by destruct Hblock|done]. }
  cbn [mbind option_bind].
  assert (c = chr "/" → head rest ≠ Some (chr "/") ∧ head rest ≠ Some (chr "*")) as Hslash by naive_solver.
  destruct (isLetter c || (c =? chr "_")) eqn:Hlet.
  { destruct (isLetter_ascii c Hc Hlet) as [Hlt Hid]. cbn [orO mbind option_bind].
    assert (scalar c) as Hsc by (unfold scalar, byte_ok in *; lia).
    destruct (source_text_behind false [] c rest Hst Hlt) as [Hst' _].
    pose proof (scanIdent_step pre c rest line c Hsc Hid) as Hstep. rewrite utf8_ascii in Hstep by (unfold byte_ok in *; lia).
    by apply Hstep. }
  assert (c < 128 → identStart c = false) as Hid.
  { intros Hlt. rewrite letter_ascii, (proj2 (Z.ltb_lt c 128)) in Hlet by done. by simpl in Hlet. }
  set (wide := Some false ||? _). destruct (decide (c < 128)) as [Hlt|Hge].
  { assert (wide = Some false) as -> by (unfold wide; by rewrite (proj2 (Z.leb_gt 128 c))). by apply scanStep_other. }
  destruct (wide_word pre c rest Hc ltac:(lia) Hst) as (r & rest' & He & Hr & Hst' & Hwidth & Hpos).
  assert (wide = Some (identStart r)) as ->.
  { unfold wide. rewrite (proj2 (Z.leb_le 128 c)), Hwidth by lia. cbn [orO andO mbind option_bind].
    destruct (identStart r); [by rewrite (proj2 (Z.ltb_lt _ _))|done]. }
  cbn [mbind option_bind]. destruct (identStart r) eqn:Hidr; [|by apply scanStep_other].
  rewrite He in Hf |- *. apply scanIdent_step; try done; [by rewrite <- He|].
  assert (bytes_ok (c :: rest)) as Hb' by (by constructor). rewrite He in Hb'. by apply Forall_app in Hb' as [_ ?].
Qed.

(** * The loop *)

(** A token that the scanner counts as a candidate for a constraint. *)
Definition tokenCandidate (src : list Z) (tok : Token) : bool :=
  isCandidate (tokenKind tok) (TokenText src tok).

Lemma lexeme_kind kind w rest :
  lexeme kind w rest → bytes_ok w →
  0 ≤ kind < 256 ∧ (kind = TokenOperator → Forall (λ c, 0 ≤ c < 128) w).
Proof.
  intros Hl Hb.
  assert (∀ w, 0 ≤ word_kind keywords w < 256) as Hw.
  { intros w'. destruct (word_kind_cases keywords w') as [->|(e & He & -> & _)]; [done|].
    assert (Forall (λ e, 0 ≤ e.2 < 256) keywords) as Hk by (by apply (bool_decide_unpack _)).
    by apply (proj1 (Forall_forall _ _) Hk e). }
  destruct Hl as [w rest Hi Hn|w rest _ _|w out rest _|w rest _|w v rest _|w rest Hop Hlen];
    [split; [done|by intros ?%word_kind_not_operator]|by split..|].
  split; [done|]. intros _. destruct (w ++ rest) as [|c l] eqn:Hcl; [done|].
  destruct (operator_text_split c l) as (w' & rest' & Hsplit & Htext & Hlen').
  assert (w = operator_text (c :: l)) as Heq.
  { rewrite Htext. rewrite <- Hlen' in Hlen. rewrite <- Hcl in Hsplit.
    apply app_inj_1 in Hsplit as [? _]; [done|]. unfold lenZ in Hlen. lia. }
  pose proof (operator_text_ascii c l ltac:(by destruct Hop)) as Hascii. rewrite <- Heq in Hascii.
  clear -Hb Hascii. unfold byte_ok in *. apply Forall_forall. intros x Hx.
  pose proof (proj1 (Forall_forall _ _) Hb x Hx). pose proof (proj1 (Forall_forall _ _) Hascii x Hx). simpl in *. lia.
Qed.

Lemma TokenText_at pre w rest kl :
  TokenText (pre ++ w ++ rest) (MkToken kl (lenZ pre) (lenZ (pre ++ w))) = w.
Proof.
  unfold TokenText. cbn [t_Start t_End]. pose proof (lenZ_nonneg pre). pose proof (lenZ_nonneg w). pose proof (lenZ_nonneg rest).
  rewrite !(proj2 (Z.ltb_ge _ _)) by (autorewrite with lenZ; lia). simpl orb. cbv iota.
  rewrite lenZ_app. apply sublistZ_app_exact.
Qed.

Lemma tokenCandidate_at pre kind line w rest :
  lexeme kind w rest → bytes_ok w →
  tokenCandidate (pre ++ w ++ rest) (MkToken (token_word kind line w) (lenZ pre) (lenZ (pre ++ w))) = isCandidate kind w.
Proof.
  intros Hl Hb. destruct (lexeme_kind kind w rest Hl Hb) as [Hk Hop]. unfold tokenCandidate.
  by rewrite token_word_kind, TokenText_at.
Qed.

Lemma scanLoop_spec linked fuel pre rest line tokens cand :
  (length rest ≤ fuel)%nat → bytes_ok rest → source_text false rest → fits (pre ++ rest) →
  ∃ new ok cand' last,
    scanLoop wordSize base fuel linked (pre ++ rest) (lenZ pre) line tokens cand = Some (tokens ++ new, ok, cand', last) ∧
    (ok = true → lex (lenZ pre) line rest new last ∧
       cand' = cand || existsb (tokenCandidate (pre ++ rest)) new).
Proof.
  revert pre rest line tokens cand. induction fuel as [|fuel IH]; intros pre rest line tokens cand Hfuel Hb Hst Hf.
  { destruct rest; [|simpl in Hfuel; lia]. exists [], true, cand, line. cbn [scanLoop].
    rewrite !app_nil_r, (proj2 (Z.leb_le _ _)), orb_false_r by lia. split; [done|]. intros _. split; [constructor|done]. }
  destruct (decide (rest = [])) as [->|Hne].
  { exists [], true, cand, line. cbn [scanLoop].
    rewrite !app_nil_r, (proj2 (Z.leb_le _ _)), orb_false_r by lia. split; [done|]. intros _. split; [constructor|done]. }
  cbn [scanLoop]. rewrite (proj2 (Z.leb_gt _ _)).
  2: { destruct rest as [|c rest]; [done|]. autorewrite with lenZ. pose proof (lenZ_nonneg rest). lia. }
  destruct (negb linked && (TokenLineLimit <? line)).
  { exists [], false, cand, line. by rewrite app_nil_r. }
  destruct (scanStep_spec pre rest line Hne Hb Hst Hf) as (s & -> & Hs). cbn [mbind option_bind].
  destruct s as [i line'|tok candidate i line'|line']; cbn [step_ok] in Hs.
  3: { exists [], false, cand, line'. by rewrite app_nil_r. }
  - destruct Hs as (w & rest' & -> & Hw & Htv & Hst' & -> & ->). apply Forall_app in Hb as [Hbw Hb].
    rewrite app_assoc in Hf |- *.
    destruct (IH (pre ++ w) rest' (line + newlines w) tokens cand) as (new & ok & cand' & last & -> & Hok); [|done..|].
    { rewrite length_app in Hfuel. destruct w; [done|]. simpl in Hfuel. lia. }
    exists new, ok, cand', last. split; [done|]. intros H. destruct (Hok H) as [Hlex Hc]. split; [|done].
    apply lex_trivia; [done|]. by rewrite <- lenZ_app.
  - destruct Hs as (kind & w & rest' & -> & Hw & Hl & Hst' & -> & -> & -> & ->). apply Forall_app in Hb as [Hbw Hb].
    pose proof (tokenCandidate_at pre kind line w rest' Hl Hbw) as Hcand.
    set (tok := MkToken _ _ _) in *. rewrite app_assoc in Hf, Hcand |- *.
    destruct (IH (pre ++ w) rest' (line + newlines w) (tokens ++ [tok]) (cand || isCandidate kind w))
      as (new & ok & cand' & last & -> & Hok); [|done..|].
    { rewrite length_app in Hfuel. destruct w; [done|]. simpl in Hfuel. lia. }
    exists (tok :: new), ok, cand', last. split; [by rewrite <- app_assoc|]. intros H. destruct (Hok H) as [Hlex Hc]. split.
    + unfold tok. rewrite lenZ_app. apply lex_token; [done|]. by rewrite <- lenZ_app.
    + rewrite Hc. simpl. by rewrite Hcand, orb_assoc.
Qed.

(** * The whole source *)

(** The mark and the text behind it. *)
Definition split_mark (src bom body : list Z) : Prop :=
  src = bom ++ body ∧ (bom = byteOrderMark ∨ bom = [] ∧ take 3 src ≠ byteOrderMark).

Lemma mark_text src :
  bytes_ok src → source_text true src →
  ∃ bom body, split_mark src bom body ∧ source_text false body ∧
    (Some (3 <=? lenZ src) &&? byteIs src 0 (Z.eqb 239) &&? byteIs src 1 (Z.eqb 187) &&? byteIs src 2 (Z.eqb 191)) =
    Some (bool_decide (bom ≠ [])) ∧ (if bool_decide (bom ≠ []) then 3 else 0) = lenZ bom.
Proof.
  intros Hb Hst. destruct (decide (take 3 src = byteOrderMark)) as [Hmark|Hmark].
  - assert (src = byteOrderMark ++ drop 3 src) as Hsrc by (rewrite <- Hmark; by rewrite take_drop).
    exists byteOrderMark, (drop 3 src). split_and!; [split; [done|by left]| | |done].
    + destruct (source_text_inv true src Hst) as (r & rest & Hu & Hr & _ & _ & Hrest); [by rewrite Hsrc|].
      assert (scalar byteOrder) as Hs by (unfold scalar, byteOrder; lia).
      assert (utf8 r ++ rest = utf8 byteOrder ++ drop 3 src) as He by (rewrite <- Hu; exact Hsrc).
      apply utf8_prefix_free in He as [_ <-]; done.
    + rewrite Hsrc. rewrite (proj2 (Z.leb_le _ _)); [done|]. unfold lenZ. rewrite length_app. simpl. lia.
  - exists [], src. split_and!; [split; [done|by right]| | |done].
    + destruct (decide (src = [])) as [->|Hne]; [constructor|].
      destruct (source_text_inv true src Hst Hne) as (r & rest & -> & Hr & H0 & _ & Hrest). apply st_cons; [done..| |done].
      intros ->. by destruct Hmark.
    + destruct src as [|a [|b [|c l]]]; try done.
      rewrite (proj2 (Z.leb_le _ _)) by (unfold lenZ; simpl; lia).
      change (byteIs (a :: b :: c :: l) 0 (Z.eqb 239)) with (Some (239 =? a)).
      change (byteIs (a :: b :: c :: l) 1 (Z.eqb 187)) with (Some (187 =? b)).
      change (byteIs (a :: b :: c :: l) 2 (Z.eqb 191)) with (Some (191 =? c)).
      destruct (Z.eqb_spec 239 a) as [<-|]; [|done]. destruct (Z.eqb_spec 187 b) as [<-|]; [|done].
      by destruct (Z.eqb_spec 191 c) as [<-|].
Qed.

(** What [scanTokensMode] answers on a source that it accepts. *)
Definition scanned_as (linked : bool) src (tokens : list Token) (candidates : bool) : Prop :=
  source_text true src ∧
  ∃ bom body new last,
    split_mark src bom body ∧ lex (lenZ bom) 1 body new last ∧
    tokens = new ++ [MkToken (kindLine TokenEOF last) (lenZ src) (lenZ src)] ∧
    candidates = existsb (tokenCandidate src) new ∧ (linked = false → last ≤ TokenLineLimit).

Lemma scanTokensMode_spec linked src :
  bytes_ok src → fits src →
  ∃ tokens ok candidates, scanTokensMode wordSize base src linked = Some (tokens, ok, candidates) ∧
    (ok = true → scanned_as linked src tokens candidates).
Proof.
  intros Hb Hf. unfold scanTokensMode.
  destruct (validSourceEncoding_spec wordSize base Hword src Hb) as (valid & -> & Hvalid). cbn [mbind option_bind].
  destruct valid; [|by exists [], false, false]. simpl negb. cbv iota. pose proof (proj1 Hvalid eq_refl) as Hst.
  destruct (mark_text src Hb Hst) as (bom & body & Hsplit & Hbody & -> & Hpos). cbn [mbind option_bind].
  rewrite Hpos. destruct Hsplit as [Hsrc Hmark].
  rewrite Hsrc in Hb, Hf. apply Forall_app in Hb as [_ Hb]. 
  destruct (scanLoop_spec linked (length src) bom body 1 [] false) as (new & ok & cand & last & Hloop & Hok); [|done..|].
  { rewrite Hsrc, length_app. lia. }
  rewrite <- Hsrc in Hloop, Hok, Hf. rewrite Hloop. cbn [mbind option_bind]. eexists _, _, _. split; [reflexivity|].
  intros [-> Hline]%andb_true_iff. destruct (Hok eq_refl) as [Hlex ->]. split; [done|].
  exists bom, body, new, last. split_and!; try done.
  - unfold scanTok. pose proof (fits_pre src []) as Hi. rewrite app_nil_r in Hi. by rewrite (Hi Hf).
  - intros ->. by apply Z.leb_le.
Qed.

End host.

(** * Texts and lines of tokens *)

(** A token of [src]: a lexeme of its kind, with its position and its line. *)
Definition token_of (src : list Z) (tok : Token) : Prop :=
  ∃ before w after,
    src = before ++ w ++ after ∧ lexeme (tokenKind tok) w after ∧ TokenText src tok = w ∧
    t_Start tok = lenZ before ∧ t_End tok = lenZ (before ++ w) ∧ TokenLine tok = 1 + newlines before.

Lemma lex_tokens pos line rest tokens last :
  lex pos line rest tokens last →
  ∀ pre, pos = lenZ pre → line = 1 + newlines pre → bytes_ok rest → last ≤ TokenLineLimit →
    Forall (token_of (pre ++ rest)) tokens ∧ last = 1 + newlines (pre ++ rest).
Proof.
  induction 1 as [pos line|pos line w rest tokens last Htv Hlex IH|pos line kind w rest tokens last Hl Hlex IH];
    intros pre -> -> Hb Hlimit.
  - by rewrite app_nil_r.
  - apply Forall_app in Hb as [_ Hb]. rewrite app_assoc. apply IH; [by rewrite lenZ_app| |done|done].
    rewrite newlines_app. lia.
  - apply Forall_app in Hb as [Hbw Hb].
    destruct (IH (pre ++ w)) as [Htokens Hlast]; [by rewrite lenZ_app|rewrite newlines_app; lia|done|done|].
    rewrite app_assoc. split; [|done]. constructor; [|done].
    destruct (lexeme_kind kind w rest Hl Hbw) as [Hk Hop]. rewrite <- app_assoc.
    assert (0 ≤ 1 + newlines pre ≤ TokenLineLimit) as Hline.
    { pose proof (newlines_nonneg pre). rewrite !newlines_app in Hlast. pose proof (newlines_nonneg w).
      pose proof (newlines_nonneg rest). lia. }
    exists pre, w, rest. rewrite token_word_kind, token_word_line by done. rewrite <- lenZ_app.
    split_and!; try done. apply TokenText_at.
Qed.

Lemma mark_newlines src bom body : split_mark src bom body → newlines bom = 0.
Proof. by intros [_ [->|[-> _]]]. Qed.

(** The last line is one more than the line ends. *)
Lemma lex_last pos line rest tokens last : lex pos line rest tokens last → last = line + newlines rest.
Proof. induction 1; [by rewrite newlines_nil|rewrite newlines_app; lia..]. Qed.

Lemma scanned_line_count src tokens candidates :
  scanned_as false src tokens candidates → newlines src < TokenLineLimit.
Proof.
  intros (_ & bom & body & new & last & Hsplit & ->%lex_last & _ & _ & Hlimit). specialize (Hlimit eq_refl).
  pose proof (mark_newlines _ _ _ Hsplit) as Hbom. destruct Hsplit as [-> _]. rewrite newlines_app. lia.
Qed.

(** When lines fit their field, every token has its text and its physical line. *)
Lemma scanned_lines linked src tokens candidates :
  bytes_ok src → scanned_as linked src tokens candidates →
  (linked = true → newlines src < TokenLineLimit) →
  ∃ new eof, tokens = new ++ [eof] ∧ Forall (token_of src) new ∧
    tokenKind eof = TokenEOF ∧ t_Start eof = lenZ src ∧ t_End eof = lenZ src ∧ TokenLine eof = 1 + newlines src.
Proof.
  intros Hb (_ & bom & body & new & last & Hsplit & Hlex & -> & _ & Hlimit) Hlinked.
  pose proof (mark_newlines _ _ _ Hsplit) as Hbom. destruct Hsplit as [-> _]. apply Forall_app in Hb as [_ Hb].
  assert (last ≤ TokenLineLimit → Forall (token_of (bom ++ body)) new ∧ last = 1 + newlines (bom ++ body)) as Hall.
  { intros Hle. apply (lex_tokens (lenZ bom) 1 body new last Hlex bom); [done|lia|done|done]. }
  assert (last ≤ TokenLineLimit) as Hle.
  { destruct linked; [|by apply Hlimit]. specialize (Hlinked eq_refl). apply lex_last in Hlex. rewrite newlines_app in Hlinked. lia. }
  destruct (Hall Hle) as [Htokens ->]. eexists new, _. split; [reflexivity|]. split; [done|].
  pose proof (newlines_nonneg (bom ++ body)).
  assert (token_word TokenEOF (1 + newlines (bom ++ body)) [] = kindLine TokenEOF (1 + newlines (bom ++ body))) as <- by done.
  by rewrite token_word_kind, token_word_line by (done || lia).
Qed.
