(* ===== verification/SyntaxProperties.v ===== *)
(** What the scanner guarantees. *)

From Stdlib Require Import String Ascii.
From S2P Require Import Prelude.
From S2P Require Import GoInt.
From S2P Require Import SyntaxToken.
From S2P Require Import SyntaxUnicode.
From S2P Require Import SyntaxEncoding.
From S2P Require Import SyntaxLiteral.
From S2P Require Import SyntaxScan.
From S2P Require Import SyntaxBytes.
From S2P Require Import SyntaxRunes.
From S2P Require Import SyntaxIdent.
From S2P Require Import SyntaxGrammar.
From S2P Require Import SyntaxStrings.
From S2P Require Import SyntaxNumbers.
From S2P Require Import SyntaxRuns.
From S2P Require Import SyntaxScanner.

(** C7. The scanner ends without a panic on every source, for every word size and
    address of the host.  When it accepts, the source is UTF-8 text without NUL, and
    behind an optional byte order mark it is a sequence of lexemes of the grammar and of
    white space and comments: each token has the kind, the position, the line and the
    operator byte of its lexeme, words and operators are the longest ones, an end token
    follows, and the candidates flag tells whether a token is [interface] or
    [comparable]. *)
Theorem scan_lexes wordSize base linked src :
  0 < wordSize → bytes_ok src → fits src →
  ∃ tokens ok candidates,
    scanTokensMode wordSize base src linked = Some (tokens, ok, candidates) ∧
    (ok = true → scanned_as linked src tokens candidates).
Proof. intros Hword Hb Hf. by apply scanTokensMode_spec. Qed.

Definition demoSource : list Z :=
  text "package p // x
type T interface { comparable }
var s = 'a' + 0x1f - 1.5e3<<2".

Definition demoTokens : list Token :=
  match scanTokensMode 8 0 demoSource false with Some (tokens, _, _) => tokens | None => [] end.

Lemma scan_lexes_witness : lenZ demoTokens = 19 ∧ scanned_as false demoSource demoTokens true.
Proof.
  assert (scanTokensMode 8 0 demoSource false = Some (demoTokens, true, true)) as Hd by (vm_compute; reflexivity).
  destruct (scan_lexes 8 0 false demoSource) as (tokens & ok & candidates & Hs & Hok).
  - reflexivity.
  - apply bytes_okb. vm_compute. reflexivity.
  - vm_compute. reflexivity.
  - split; [vm_compute; reflexivity|]. revert Hs Hok. rewrite Hd. generalize demoTokens.
    intros t [= <- <- <-] Hok. exact (Hok eq_refl).
Defined.

(** C21. Every token of an accepted file that is not linked from several has the text of
    its lexeme, and its line is the physical one: one more than the number of line ends
    before it, also behind raw strings and block comments that span lines.  So the line
    always fits the 16 bits that the packed word has for it. *)
Theorem token_lines wordSize base src tokens :
  0 < wordSize → bytes_ok src → fits src → scanTokens wordSize base src = Some (tokens, true) →
  newlines src < TokenLineLimit ∧
  ∃ new eof, tokens = new ++ [eof] ∧ Forall (token_of src) new ∧
    tokenKind eof = TokenEOF ∧ t_Start eof = lenZ src ∧ t_End eof = lenZ src ∧ TokenLine eof = 1 + newlines src.
Proof.
  intros Hword Hb Hf. unfold scanTokens.
  destruct (scanTokensMode_spec wordSize base Hword false src Hb Hf) as (ts & ok & cand & -> & Hok).
  intros [= -> ->]. pose proof (Hok eq_refl) as Hs. split; [by eapply scanned_line_count|]. by eapply scanned_lines.
Qed.

Lemma token_lines_witness :
  newlines demoSource < TokenLineLimit ∧
  ∃ new eof, demoTokens = new ++ [eof] ∧ Forall (token_of demoSource) new ∧
    tokenKind eof = TokenEOF ∧ t_Start eof = lenZ demoSource ∧ t_End eof = lenZ demoSource ∧
    TokenLine eof = 1 + newlines demoSource.
Proof.
  apply (token_lines 8 0 demoSource demoTokens).
  - reflexivity.
  - apply bytes_okb. vm_compute. reflexivity.
  - vm_compute. reflexivity.
  - vm_compute. reflexivity.
Defined.

(** C23. [validSourceEncoding] decides, without a panic, whether a file is Go source text:
    UTF-8 in the shortest form, without surrogates, NUL and a byte order mark behind the
    start.  Its loop over machine words, for every word size and alignment of the array,
    finds the same bytes as a loop over bytes. *)
Theorem source_encoding_exact wordSize base src :
  0 < wordSize → bytes_ok src →
  ∃ b, validSourceEncoding wordSize base src = Some b ∧ (b = true ↔ source_text true src).
Proof. intros Hword Hb. by apply validSourceEncoding_spec. Qed.

Lemma source_encoding_exact_witness :
  source_text true demoSource ∧ ¬ source_text true [chr "a"; 237; 160; 128].
Proof.
  split.
  - destruct (source_encoding_exact 8 3 demoSource) as (b & Hb & Hs).
    + reflexivity.
    + apply bytes_okb. vm_compute. reflexivity.
    + apply Hs. assert (validSourceEncoding 8 3 demoSource = Some true) as Ht by (vm_compute; reflexivity).
      rewrite Ht in Hb. by injection Hb.
  - destruct (source_encoding_exact 4 0 [chr "a"; 237; 160; 128]) as (b & Hb & Hs).
    + reflexivity.
    + apply bytes_okb. vm_compute. reflexivity.
    + rewrite <- Hs. assert (validSourceEncoding 4 0 [chr "a"; 237; 160; 128] = Some false) as Ht by (vm_compute; reflexivity).
      rewrite Ht in Hb. injection Hb as <-. discriminate.
Defined.

(** C17. Interpreted strings.  Where a string of the grammar stands, the scanner reads its
    token, [StringLiteralValue] gives the bytes it stands for, and
    [AppendQuotedStringLiteral] appends a canonical spelling: printable ASCII, again a
    string of the grammar, whose value is the same bytes. *)
Theorem string_literal_roundtrip pre w rest out line buf :
  string_body w out → bytes_ok (w ++ rest) → fits (pre ++ quoted w ++ rest) →
  ∃ tok,
    scanString (pre ++ quoted w ++ rest) (lenZ pre) line =
      Some (Scanned tok false (lenZ (pre ++ quoted w)) line) ∧
    token_at tok TokenString pre (quoted w) ∧
    StringLiteralValue (pre ++ quoted w ++ rest) tok = Some (Some out) ∧
    AppendQuotedStringLiteral buf (pre ++ quoted w ++ rest) tok =
      Some (buf ++ quoted (flat_map quoteByte out), true) ∧
    Forall (λ c, 32 ≤ c < 127) (flat_map quoteByte out) ∧
    ∀ tok', token_at tok' TokenString buf (quoted (flat_map quoteByte out)) →
      StringLiteralValue (buf ++ quoted (flat_map quoteByte out)) tok' = Some (Some out).
Proof.
  intros Hw Hb Hf. apply Forall_app in Hb as Hb'. destruct Hb' as [Hbw Hbr].
  pose proof (string_body_bytes w out Hw Hbw) as Hout.
  exists (MkToken (token_word TokenString line (quoted w)) (lenZ pre) (lenZ (pre ++ quoted w))).
  assert (token_at (MkToken (token_word TokenString line (quoted w)) (lenZ pre) (lenZ (pre ++ quoted w)))
    TokenString pre (quoted w)) as Htok by (split_and!; [by apply token_word_kind|done|done]).
  split_and!; [|done|by eapply StringLiteralValue_quoted|by eapply AppendQuotedStringLiteral_quoted|by apply quoted_ascii|].
  - by eapply scanString_quoted.
  - intros tok' Htok'. rewrite <- (app_nil_r (quoted _)), app_assoc, <- app_assoc.
    eapply StringLiteralValue_quoted; [done|by apply quoted_bytes_ok|by apply quoted_bytes].
Qed.

(** The body [a\n\u00e9\x41] and what it stands for. *)
Definition demoBody : list Z := text "a\n\u00e9\x41".
Definition demoBytes : list Z := [97; 10; 195; 169; 65].

Lemma demoBody_body : string_body demoBody demoBytes.
Proof.
  apply sb_byte; [done..|].
  apply (sb_escape (text "\n") 10 false (text "\u00e9\x41") [195; 169; 65]).
  { apply esc_simple, simpleEscape_spec. reflexivity. }
  apply (sb_escape (text "\u00e9") 233 true (text "\x41") [65]).
  { apply esc_short; [done| |unfold scalar; lia]. exists [0; 0; 14; 9]. split; [|done]. by repeat constructor. }
  apply (sb_escape (text "\x41") 65 false [] []); [|constructor].
  apply esc_hex; [done|]. exists [4; 1]. split; [|done]. by repeat constructor.
Qed.

Lemma string_literal_roundtrip_witness :
  ∃ tok,
    StringLiteralValue ([32] ++ quoted demoBody ++ [10]) tok = Some (Some demoBytes) ∧
    AppendQuotedStringLiteral [] ([32] ++ quoted demoBody ++ [10]) tok =
      Some (quoted (text "a\x0a\xc3\xa9A"), true).
Proof.
  destruct (string_literal_roundtrip [32] demoBody [10] demoBytes 1 []) as (tok & _ & _ & Hv & Hq & _).
  - exact demoBody_body.
  - apply bytes_okb. vm_compute. reflexivity.
  - vm_compute. reflexivity.
  - exists tok. exact (conj Hv Hq).
Defined.

(** C18. [validNumberLiteral] decides, without a panic, whether a part of a source is a
    number of Go: integers in the four bases with single underscores between digits,
    decimal and hexadecimal floats with their exponents, imaginary numbers, and no octal
    number with a digit above seven. *)
Theorem number_literal_exact pre w post :
  ∃ b, validNumberLiteral (pre ++ w ++ post) (lenZ pre) (lenZ (pre ++ w)) = Some b ∧ (b = true ↔ number w).
Proof. apply validNumberLiteral_number. Qed.

(** C32. [RuneLiteralValue] accepts exactly the rune literals of Go, with their values: a
    scalar value in UTF-8, or an escape whose value it decodes. *)
Theorem rune_literal_exact wordSize base tok pre w post :
  0 < wordSize → token_at tok TokenChar pre (chr "'" :: w ++ [chr "'"]) → bytes_ok w →
  ∃ v b, RuneLiteralValue wordSize base (pre ++ (chr "'" :: w ++ [chr "'"]) ++ post) tok = Some (v, b) ∧
    (∀ v', rune_body w v' ↔ b = true ∧ v' = v).
Proof. intros Hword. by apply RuneLiteralValue_spec. Qed.

Lemma rune_literal_exact_witness :
  rune_body (text "\u00e9") 233 ∧ ¬ rune_body (text "ab") 97.
Proof.
  assert (∀ w, token_at (MkToken (kindLine TokenChar 1) 0 (lenZ (chr "'" :: w ++ [chr "'"]))) TokenChar []
    (chr "'" :: w ++ [chr "'"])) as Htok
    by (intros w; split_and!; reflexivity).
  split.
  - destruct (rune_literal_exact 8 0 _ [] (text "\u00e9") [] eq_refl (Htok _)) as (v & b & Hv & Hr).
    + apply bytes_okb. vm_compute. reflexivity.
    + apply Hr. assert (RuneLiteralValue 8 0 (text "'\u00e9'") (MkToken (kindLine TokenChar 1) 0 8) = Some (233, true)) as Hd
        by (vm_compute; reflexivity).
      pose proof (eq_trans (eq_sym Hv) Hd) as H. by injection H as -> ->.
  - destruct (rune_literal_exact 8 0 _ [] (text "ab") [] eq_refl (Htok _)) as (v & b & Hv & Hr).
    + apply bytes_okb. vm_compute. reflexivity.
    + rewrite Hr. assert (RuneLiteralValue 8 0 (text "'ab'") (MkToken (kindLine TokenChar 1) 0 4) = Some (97, false)) as Hd
        by (vm_compute; reflexivity).
      pose proof (eq_trans (eq_sym Hv) Hd) as H. injection H as -> ->. by intros [? _].
Defined.

(** C33. The binary search in the packed tables finds what a linear search finds: a value
    is a letter, a digit or an upper case letter when a record's range and stride hold
    it. *)
Theorem unicode_search_exact value :
  unicodeRangeContains unicodeLetterRanges value = Some (in_ranges value (records unicodeLetterRanges)) ∧
  unicodeRangeContains unicodeDigitRanges value = Some (in_ranges value (records unicodeDigitRanges)) ∧
  unicodeRangeContains unicodeUpperRanges value = Some (in_ranges value (records unicodeUpperRanges)).
Proof.
  split_and!; apply unicodeRangeContains_spec; [apply letters_ok|apply digits_ok|apply uppers_ok].
Qed.

(** [keywordKind], with its tests of length, first and last byte, is a lookup in the
    table of the 25 keywords. *)
Theorem keywords_exact pre w post first :
  head w = Some first →
  keywordKind (pre ++ w ++ post) (lenZ pre) (lenZ (pre ++ w)) first = Some (word_kind keywords w).
Proof. apply keywordKind_spec. Qed.

Lemma keywords_exact_witness :
  word_kind keywords (text "fallthrough") = TokenFallthrough ∧
  word_kind keywords (text "fallthroughs") = TokenIdent.
Proof.
  split.
  - pose proof (keywords_exact [32] (text "fallthrough") [10] (chr "f") eq_refl) as H.
    assert (keywordKind ([32] ++ text "fallthrough" ++ [10]) 1 12 (chr "f") = Some TokenFallthrough) as Hk
      by (vm_compute; reflexivity).
    exact (f_equal (default 0) (eq_trans (eq_sym H) Hk)).
  - pose proof (keywords_exact [32] (text "fallthroughs") [10] (chr "f") eq_refl) as H.
    assert (keywordKind ([32] ++ text "fallthroughs" ++ [10]) 1 13 (chr "f") = Some TokenIdent) as Hk
      by (vm_compute; reflexivity).
    exact (f_equal (default 0) (eq_trans (eq_sym H) Hk)).
Defined.
