(* ===== verification/SyntaxParse.v ===== *)
(** The parser of declarations: src/internal/syntax/parse.go and generics.go.

    [file.Src] and [file.Tokens] do not change while a file is parsed; they are variables
    of the section, with the line starts of a linked file.  The rest of the file is the
    state of [GoM].  Loops over tokens take the number of tokens as fuel. *)

From Stdlib Require Import String Ascii.
From S2P Require Import Prelude.
From S2P Require Import GoInt.
From S2P Require Import SyntaxToken.
From S2P Require Import SyntaxEncoding.
From S2P Require Import SyntaxLiteral.
From S2P Require Import SyntaxScan.

Definition ParseOK : Z := 0.
Definition ParseErrScan : Z := 1.
Definition ParseErrPackage : Z := 2.
Definition ParseErrImport : Z := 3.
Definition ParseErrDecl : Z := 4.
Definition ParseErrFunc : Z := 5.
Definition ParseErrTopLevel : Z := 6.
Definition ParseErrDot : Z := 7.

Record ImportDecl := MkImportDecl { i_NameTok : Z; i_PathTok : Z; i_StartTok : Z; i_EndTok : Z }.

Record TopDecl := MkTopDecl { d_Kind : Z; d_NameTok : Z; d_StartTok : Z; d_EndTok : Z }.

Record FuncDecl := MkFuncDecl {
  fn_NameTok : Z; fn_StartTok : Z; fn_EndTok : Z;
  fn_ReceiverStart : Z; fn_ReceiverEnd : Z;
  fn_ParamsStart : Z; fn_ParamsEnd : Z;
  fn_ResultStart : Z; fn_ResultEnd : Z;
  fn_BodyStart : Z; fn_BodyEnd : Z }.

Record TypeParameter := MkTypeParameter {
  p_NameTok : Z; p_ConstraintStart : Z; p_ConstraintEnd : Z }.

Record TypeParamList := MkTypeParamList {
  l_Kind : Z; l_NameTok : Z; l_StartTok : Z; l_EndTok : Z; l_Parameters : list TypeParameter }.

(** [Generics] is the list behind the pointer; a nil pointer is the empty list. *)
Record File := MkFile {
  f_Src : list Z; f_Tokens : list Token; f_PackageName : Z;
  f_Imports : list ImportDecl; f_Decls : list TopDecl; f_Funcs : list FuncDecl;
  f_Generics : list TypeParamList; f_HasInterfaceCandidates : bool;
  f_Ok : bool; f_Error : Z; f_ErrorTok : Z }.

Definition withPackage (n : Z) (f : File) : File :=
  MkFile (f_Src f) (f_Tokens f) n (f_Imports f) (f_Decls f) (f_Funcs f) (f_Generics f)
    (f_HasInterfaceCandidates f) (f_Ok f) (f_Error f) (f_ErrorTok f).
Definition addImport (d : ImportDecl) (f : File) : File :=
  MkFile (f_Src f) (f_Tokens f) (f_PackageName f) (f_Imports f ++ [d]) (f_Decls f) (f_Funcs f) (f_Generics f)
    (f_HasInterfaceCandidates f) (f_Ok f) (f_Error f) (f_ErrorTok f).
Definition addDecl (d : TopDecl) (f : File) : File :=
  MkFile (f_Src f) (f_Tokens f) (f_PackageName f) (f_Imports f) (f_Decls f ++ [d]) (f_Funcs f) (f_Generics f)
    (f_HasInterfaceCandidates f) (f_Ok f) (f_Error f) (f_ErrorTok f).
Definition addFunc (d : FuncDecl) (f : File) : File :=
  MkFile (f_Src f) (f_Tokens f) (f_PackageName f) (f_Imports f) (f_Decls f) (f_Funcs f ++ [d]) (f_Generics f)
    (f_HasInterfaceCandidates f) (f_Ok f) (f_Error f) (f_ErrorTok f).
Definition addGeneric (l : TypeParamList) (f : File) : File :=
  MkFile (f_Src f) (f_Tokens f) (f_PackageName f) (f_Imports f) (f_Decls f) (f_Funcs f) (f_Generics f ++ [l])
    (f_HasInterfaceCandidates f) (f_Ok f) (f_Error f) (f_ErrorTok f).
Definition parseFail (f : File) (err tok : Z) : File :=
  MkFile (f_Src f) (f_Tokens f) (f_PackageName f) (f_Imports f) (f_Decls f) (f_Funcs f) (f_Generics f)
    (f_HasInterfaceCandidates f) false err tok.

Definition parseFailInPlace (err tok : Z) : GoM File unit := modify (λ f, parseFail f err tok).

(** * Reading tokens *)

(** [uint(i) >= uint(len(toks))] is also true of a negative [i]. *)
Definition tokCharIs (toks : list Token) (i c : Z) : bool :=
  match toks !!z i with
  | None => false
  | Some tok => tokenChar tok =? c
  end.

Fixpoint textFrom (src : list Z) (start : Z) (txt : list Z) : option bool :=
  match txt with
  | [] => Some true
  | t :: txt => byteIs src start (Z.eqb t) &&? textFrom src (start + 1) txt
  end.

Definition tokenTextIs (src : list Z) (tok : Token) (txt : list Z) : option bool :=
  let start := t_Start tok in
  let end_ := t_End tok in
  if negb (end_ - start =? lenZ txt) || (start <? 0) || (lenZ src <? end_) then Some false
  else textFrom src start txt.

Section file.
Context (src : list Z) (toks : list Token) (lineStarts : list Z).

(** A condition on the kind of a token. *)
Definition kindIs (i : Z) (P : Z → bool) : option bool := t ← toks !!z i; Some (P (tokenKind t)).

(** [i < len(file.Tokens) && file.Tokens[i].KindLine&255 != TokenEOF] *)
Definition more (i : Z) : option bool :=
  Some (i <? lenZ toks) &&? kindIs i (λ k, negb (k =? TokenEOF)).

Definition lineAt (i : Z) : option Z := TokenLineAt toks i lineStarts.

Fixpoint skipSeparators (fuel : nat) (start : Z) : option Z :=
  if (start <? lenZ toks) && tokCharIs toks start (chr ";") then
    match fuel with O => None | S fuel => skipSeparators fuel (start + 1) end
  else Some start.

Definition skipTopSeparators (start : Z) : option Z := skipSeparators (length toks) start.
Definition skipImportSeparators (start : Z) : option Z := skipSeparators (length toks) start.
Definition skipDeclSeparators (start : Z) : option Z := skipSeparators (length toks) start.

(** The end behind the token that closes [depth] open ones; [None] is the end of the file. *)
Fixpoint balancedEnd (fuel : nat) (open close depth i : Z) : option (option Z) :=
  go ← more i;
  if (go : bool) then
    match fuel with
    | O => None
    | S fuel =>
        t ← toks !!z i;
        let c := tokenChar t in
        if c =? open then balancedEnd fuel open close (depth + 1) (i + 1)
        else if c =? close then
          if depth - 1 =? 0 then Some (Some (i + 1)) else balancedEnd fuel open close (depth - 1) (i + 1)
        else balancedEnd fuel open close depth (i + 1)
    end
  else Some None.

Definition skipBalanced (start open close : Z) : option Z :=
  if negb (tokCharIs toks start open) then Some start
  else
    r ← balancedEnd (length toks) open close 1 (start + 1);
    Some (default start r).

Definition isImportName (i : Z) : option bool :=
  if (i <? 0) || (lenZ toks <=? i) then Some false
  else kindIs i (Z.eqb TokenIdent) ||? Some (tokCharIs toks i (chr ".")).

(** Go inserts a semicolon after these tokens at a line boundary. *)
Definition insertsSemicolon (at_ : Z) : option bool :=
  t ← toks !!z at_;
  let kind := tokenKind t in
  if (kind =? TokenIdent) || (kind =? TokenNumber) || (kind =? TokenString) || (kind =? TokenChar) ||
     (kind =? TokenBreak) || (kind =? TokenContinue) || (kind =? TokenFallthrough) || (kind =? TokenReturn)
  then Some true
  else if kind =? TokenOperator then
    Some (tokCharIs toks at_ (chr ")") || tokCharIs toks at_ (chr "]") || tokCharIs toks at_ (chr "}")) ||?
      tokenTextIs src t (text "++") ||? tokenTextIs src t (text "--")
  else Some false.

(** A line end among [n] bytes from [offset] on. *)
Fixpoint newlineIn (n : nat) (offset : Z) : option bool :=
  match n with
  | O => Some false
  | S n => c ← src !!z offset; if c =? newline then Some true else newlineIn n (offset + 1)
  end.

(** A line end between two neighbours of which the first one ends a statement. *)
Definition endsDecl (start i : Z) : option bool :=
  if start <? i then
    a ← lineAt i;
    b ← lineAt (i - 1);
    ends ← Some (negb (a =? b)) &&? insertsSemicolon (i - 1);
    if (ends : bool) then
      prev ← toks !!z (i - 1);
      t ← toks !!z i;
      newlineIn (Z.to_nat (t_Start t - t_End prev)) (t_End prev)
    else Some false
  else Some false.

(** Depths of parentheses, brackets and braces. *)
Record depths := MkDepths { parenDepth : Z; bracketDepth : Z; braceDepth : Z }.
Definition noDepth : depths := MkDepths 0 0 0.
Definition atTop (d : depths) : bool :=
  (parenDepth d =? 0) && (bracketDepth d =? 0) && (braceDepth d =? 0).

(** The depths behind a token of byte [c]; [None] when it closes what is not open. *)
Definition enter (c : Z) (d : depths) : option depths :=
  let '(MkDepths p k b) := d in
  if c =? chr "(" then Some (MkDepths (p + 1) k b)
  else if c =? chr ")" then if p =? 0 then None else Some (MkDepths (p - 1) k b)
  else if c =? chr "[" then Some (MkDepths p (k + 1) b)
  else if c =? chr "]" then if k =? 0 then None else Some (MkDepths p (k - 1) b)
  else if c =? chr "{" then Some (MkDepths p k (b + 1))
  else if c =? chr "}" then if b =? 0 then None else Some (MkDepths p k (b - 1))
  else Some d.

(** The loop of [skipDeclSpec]: the end, the next token and whether it is well formed. *)
Fixpoint declEnd (fuel : nat) (start : Z) (grouped : bool) (i : Z) (d : depths) : option (Z * Z * bool) :=
  go ← more i;
  if (go : bool) then
    match fuel with
    | O => None
    | S fuel =>
        t ← toks !!z i;
        let c := tokenChar t in
        if atTop d && grouped && (c =? chr ")") then Some (i, i, true)
        else if atTop d && (c =? chr ";") then Some (i, i + 1, true)
        else
          ends ← Some (atTop d) &&? endsDecl start i;
          if (ends : bool) then Some (i, i, true)
          else
            match enter c d with
            | None =>
                Some (if (c =? chr ")") && grouped && (bracketDepth d =? 0) && (braceDepth d =? 0)
                      then (i, i, true) else (start, start, false))
            | Some d => declEnd fuel start grouped (i + 1) d
            end
    end
  else Some (if negb (atTop d) then (start, start, false) else (i, i, true)).

Definition skipDeclSpec (start : Z) (grouped : bool) : option (Z * Z * bool) :=
  declEnd (length toks) start grouped start noDepth.

(** The kinds at the start of a line that end a function without a body. *)
Definition startsDecl (i : Z) : option bool :=
  t ← toks !!z i;
  let kind := tokenKind t in
  Some ((kind =? TokenConst) || (kind =? TokenVar) || (kind =? TokenType) || (kind =? TokenImport)) ||?
    (Some (kind =? TokenFunc) &&? Some (i + 1 <? lenZ toks) &&? kindIs (i + 1) (Z.eqb TokenIdent)).

(** The start of the body, or -1 with the end of the declaration. *)
Fixpoint findBody (fuel : nat) (start i : Z) : option (Z * Z) :=
  go ← more i;
  if (go : bool) then
    match fuel with
    | O => None
    | S fuel =>
        let skip (open close : Z) : option (Z * Z) :=
          next ← skipBalanced i open close;
          if next <=? i then Some (-1, -1) else findBody fuel start next in
        if tokCharIs toks i (chr ";") then Some (-1, i + 1)
        else if tokCharIs toks i (chr "(") then skip (chr "(") (chr ")")
        else if tokCharIs toks i (chr "[") then skip (chr "[") (chr "]")
        else if tokCharIs toks i (chr "{") then
          literal ← Some (0 <? i) &&?
            kindIs (i - 1) (λ k, (k =? TokenStruct) || (k =? TokenInterface));
          if (literal : bool) then skip (chr "{") (chr "}") else Some (i, i)
        else
          let previous := if start <? i then i - 1 else start - 1 in
          a ← lineAt i;
          b ← lineAt previous;
          ends ← Some (b <? a) &&? startsDecl i;
          if (ends : bool) then Some (-1, i) else findBody fuel start (i + 1)
    end
  else
    eof ← Some (i <? lenZ toks) &&? kindIs i (Z.eqb TokenEOF);
    Some (if (eof : bool) then (-1, i) else (-1, -1)).

Definition findFuncBody (start : Z) : option (Z * Z) := findBody (length toks) start start.

(** * Type parameters *)

(** The byte that closes an opening one, or 0. *)
Definition closing (open : Z) : Z :=
  if open =? chr "{" then chr "}"
  else if open =? chr "(" then chr ")"
  else if open =? chr "[" then chr "]"
  else 0.

(** The end of a constraint; [None] when it is malformed. *)
Fixpoint constraintEnd (fuel : nat) (end_ i : Z) : option (option Z) :=
  if (i <? end_ - 1) && negb (tokCharIs toks i (chr ",")) then
    match fuel with
    | O => None
    | S fuel =>
        if tokCharIs toks i (chr ";") then Some None
        else
          t ← toks !!z i;
          let open := tokenChar t in
          let close := closing open in
          if negb (close =? 0) then
            next ← skipBalanced i open close;
            if (next <=? i) || (end_ - 1 <? next) then Some None else constraintEnd fuel end_ next
          else constraintEnd fuel end_ (i + 1)
    end
  else Some (Some i).

(** The parameters from [i] on, behind the names in [pending]. *)
Fixpoint typeParams (fuel : nat) (end_ i : Z) (pending : list Z) (params : list TypeParameter) :
    option (option (list Z * list TypeParameter)) :=
  if i <? end_ - 1 then
    match fuel with
    | O => None
    | S fuel =>
        ident ← kindIs i (Z.eqb TokenIdent);
        if negb ident then Some None
        else
          let pending := pending ++ [i] in
          let i := i + 1 in
          if tokCharIs toks i (chr ",") then typeParams fuel end_ (i + 1) pending params
          else
            r ← constraintEnd (length toks) end_ i;
            match r with
            | None => Some None
            | Some j =>
                if j =? i then Some None
                else
                  typeParams fuel end_ (if j <? end_ - 1 then j + 1 else j) []
                    (params ++ ((λ name, MkTypeParameter name i j) <$> pending))
            end
    end
  else Some (Some (pending, params)).

Definition parseTypeParamList (name start kind : Z) : GoM File (Z * bool) :=
  end_ ← lift (skipBalanced start (chr "[") (chr "]"));
  if end_ <=? start + 2 then mret (start, false)
  else
    r ← lift (typeParams (length toks) end_ (start + 1) [] []);
    match r with
    | Some ([], p :: params) =>
        _ ← modify (addGeneric (MkTypeParamList kind name start end_ (p :: params)));
        mret (end_, true)
    | _ => mret (start, false)
    end.

(** The loop of [typeDeclarationHasParameters] up to [last]. *)
Fixpoint parameterSigns (fuel : nat) (second last i depth : Z) : option bool :=
  if i <? last then
    match fuel with
    | O => None
    | S fuel =>
        t ← toks !!z i;
        let kind := tokenKind t in
        let here := tokCharIs toks i in
        let before := tokCharIs toks (i - 1) in
        if (kind =? TokenStruct) || (kind =? TokenInterface) || (kind =? TokenMap) || (kind =? TokenChan) ||
           (kind =? TokenFunc) || here (chr "~")
        then Some true
        else if (depth =? 0) && here (chr ",") then Some true
        else if here (chr "[") &&
                ((i =? second) || before (chr "*") || before (chr "(") || before (chr "|"))
        then Some true
        else
          let depth := if here (chr "(") || here (chr "[") || here (chr "{") then depth + 1 else depth in
          let depth := if here (chr ")") || here (chr "]") || here (chr "}") then depth - 1 else depth in
          parameterSigns fuel second last (i + 1) depth
    end
  else Some false.

Definition typeDeclarationHasParameters (start end_ : Z) : option bool :=
  none ← Some (negb (tokCharIs toks start (chr "[")) || (end_ <=? start + 2)) ||?
    kindIs (start + 1) (λ k, negb (k =? TokenIdent));
  if (none : bool) then Some false
  else
    close ← skipBalanced start (chr "[") (chr "]");
    if close <=? start + 3 then Some false
    else
      let second := start + 2 in
      ident ← kindIs second (Z.eqb TokenIdent);
      if (ident : bool) then Some true
      else parameterSigns (length toks) second (close - 1) second 0.

(** * Declarations *)

(** What follows the path of an import; [None] is a token on its line.  The loop of the
    code leaves in its first round. *)
Definition importEnd (pathTok next : Z) (grouped : bool) : option (option Z) :=
  go ← more next;
  if (go : bool) then
    if tokCharIs toks next (chr ";") then Some (Some (next + 1))
    else if grouped && tokCharIs toks next (chr ")") then Some (Some next)
    else
      a ← lineAt next;
      b ← lineAt pathTok;
      Some (if negb (a =? b) then Some next else None)
  else Some (Some next).

Definition parseImportSpec (start : Z) (grouped : bool) : GoM File (Z * bool) :=
  if lenZ toks <=? start then mret (start, false)
  else
    string ← lift (kindIs start (Z.eqb TokenString));
    named ← (if negb string then lift (isImportName start) else mret false);
    let '(nameTok, pathTok) := if (named : bool) then (start, start + 1) else (-1, start) in
    bad ← lift (Some (lenZ toks <=? pathTok) ||? kindIs pathTok (λ k, negb (k =? TokenString)));
    if (bad : bool) then mret (start, false)
    else
      r ← lift (importEnd pathTok (pathTok + 1) grouped);
      match r with
      | None => mret (start, false)
      | Some next =>
          _ ← modify (addImport (MkImportDecl nameTok pathTok start (pathTok + 1)));
          mret (next, true)
      end.

(** The loop over the specifications of a group; [None] is a failure. *)
Fixpoint group (fuel : nat) (skip : Z → option Z) (spec : Z → GoM File (Z * bool)) (i : Z) :
    GoM File (option Z) :=
  go ← lift (more i);
  if (go : bool) then
    match fuel with
    | O => lift None
    | S fuel =>
        i ← lift (skip i);
        if tokCharIs toks i (chr ")") then mret (Some (i + 1))
        else
          '(next, ok) ← spec i;
          if negb ok then mret None else group fuel skip spec next
    end
  else mret None.

Definition parseImportDecl (start : Z) : GoM File (Z * bool) :=
  let i := start + 1 in
  if tokCharIs toks i (chr "(") then
    r ← group (length toks) skipImportSeparators (λ i, parseImportSpec i true) (i + 1);
    mret (match r with Some next => (next, true) | None => (start, false) end)
  else
    '(next, ok) ← parseImportSpec i false;
    mret (if negb ok then (start, false) else (next, true)).

(** The names behind commas; whether they are well formed. *)
Fixpoint declNames (fuel : nat) (kind start end_ i : Z) : GoM File bool :=
  if tokCharIs toks i (chr ",") then
    match fuel with
    | O => lift None
    | S fuel =>
        let i := i + 1 in
        bad ← lift (Some (lenZ toks <=? i) ||? kindIs i (λ k, negb (k =? TokenIdent)) ||? Some (end_ <=? i));
        if (bad : bool) then mret false
        else
          _ ← modify (addDecl (MkTopDecl kind i start end_));
          declNames fuel kind start end_ (i + 1)
    end
  else mret true.

Definition parseDeclSpec (kind start : Z) (grouped : bool) : GoM File (Z * bool) :=
  bad ← lift (Some (lenZ toks <=? start) ||? kindIs start (λ k, negb (k =? TokenIdent)));
  if (bad : bool) then mret (start, false)
  else
    '(end_, next, ok) ← lift (skipDeclSpec start grouped);
    if negb ok || (end_ <=? start) then mret (start, false)
    else if kind =? TokenType then
      generic ← lift (typeDeclarationHasParameters (start + 1) end_);
      ok ← (if (generic : bool) then
              '(_, ok) ← parseTypeParamList start (start + 1) TokenType; mret ok
            else mret true);
      if negb ok then mret (start, false)
      else
        _ ← modify (addDecl (MkTopDecl kind start start end_));
        mret (next, true)
    else
      _ ← modify (addDecl (MkTopDecl kind start start end_));
      ok ← declNames (length toks) kind start end_ (start + 1);
      mret (if negb ok then (start, false) else (next, true)).

Definition parseTopDecl (start : Z) : GoM File (Z * bool) :=
  t ← lift (toks !!z start);
  let kind := tokenKind t in
  let i := start + 1 in
  if tokCharIs toks i (chr "(") then
    r ← group (length toks) skipDeclSeparators (λ i, parseDeclSpec kind i true) (i + 1);
    mret (match r with Some next => (next, true) | None => (start, false) end)
  else
    '(next, ok) ← parseDeclSpec kind i false;
    mret (if negb ok then (start, false) else (next, true)).

(** ** Functions *)

(** The receiver: its span and the token behind it; [None] when it is malformed. *)
Definition parseReceiver (i : Z) : option (option (Z * Z * Z)) :=
  if tokCharIs toks i (chr "(") then
    receiverEnd ← skipBalanced i (chr "(") (chr ")");
    Some (if receiverEnd <=? i then None else Some (i + 1, receiverEnd - 1, receiverEnd))
  else Some (Some (-1, -1, i)).

(** The part behind the parameters. *)
Definition parseFuncTail (name start receiverStart receiverEnd paramsStart paramsEnd : Z) :
    option (FuncDecl * bool) :=
  let decl (endTok resultEnd bodyStart bodyEnd : Z) : FuncDecl :=
    MkFuncDecl name start endTok receiverStart receiverEnd paramsStart paramsEnd paramsEnd resultEnd
      bodyStart bodyEnd in
  '(bodyStart, declarationEnd) ← findFuncBody paramsEnd;
  if bodyStart <? 0 then
    Some (decl declarationEnd declarationEnd (-1) (-1), paramsEnd <=? declarationEnd)
  else
    bodyEnd ← skipBalanced bodyStart (chr "{") (chr "}");
    Some (if bodyEnd <=? bodyStart then (decl start bodyStart (-1) (-1), false)
          else (decl bodyEnd bodyStart bodyStart bodyEnd, true)).

(** The function as far as it was read, and whether it is well formed. *)
Definition parseFuncDecl (start : Z) : GoM File (FuncDecl * bool) :=
  let decl (name receiverStart receiverEnd paramsStart : Z) : FuncDecl :=
    MkFuncDecl name start start receiverStart receiverEnd paramsStart (-1) (-1) (-1) (-1) (-1) in
  receiver ← lift (parseReceiver (start + 1));
  match receiver with
  | None => mret (decl (-1) (-1) (-1) (-1), false)
  | Some (receiverStart, receiverEnd, i) =>
      bad ← lift (Some (lenZ toks <=? i) ||? kindIs i (λ k, negb (k =? TokenIdent)));
      if (bad : bool) then mret (decl (-1) receiverStart receiverEnd (-1), false)
      else
        let name := i in
        '(i, ok) ← (if tokCharIs toks (i + 1) (chr "[") then
                      if 0 <=? receiverStart then mret (i + 1, false)
                      else parseTypeParamList name (i + 1) TokenFunc
                    else mret (i + 1, true));
        if negb ok || negb (tokCharIs toks i (chr "(")) then
          mret (decl name receiverStart receiverEnd (-1), false)
        else
          paramsEnd ← lift (skipBalanced i (chr "(") (chr ")"));
          if paramsEnd <=? i then mret (decl name receiverStart receiverEnd i, false)
          else lift (parseFuncTail name start receiverStart receiverEnd i paramsEnd)
  end.

(** * Files *)

(** One declaration at [i]: the token behind it, or the end of the parse. *)
Definition parseItem (i kind : Z) : GoM File (option Z) :=
  let failed (err : Z) : GoM File (option Z) := _ ← parseFailInPlace err i; mret None in
  if kind =? TokenImport then
    '(next, ok) ← parseImportDecl i; if negb ok then failed ParseErrImport else mret (Some next)
  else if (kind =? TokenConst) || (kind =? TokenVar) || (kind =? TokenType) then
    '(next, ok) ← parseTopDecl i; if negb ok then failed ParseErrDecl else mret (Some next)
  else if kind =? TokenFunc then
    '(fn, ok) ← parseFuncDecl i;
    if negb ok then failed ParseErrFunc
    else _ ← modify (addFunc fn); mret (Some (fn_EndTok fn))
  else failed ParseErrTopLevel.

Fixpoint parseItems (fuel : nat) (i : Z) : GoM File unit :=
  go ← lift (more i);
  if (go : bool) then
    match fuel with
    | O => lift None
    | S fuel =>
        i ← lift (skipTopSeparators i);
        stop ← lift (Some (lenZ toks <=? i) ||? kindIs i (Z.eqb TokenEOF));
        if (stop : bool) then mret tt
        else
          t ← lift (toks !!z i);
          next ← parseItem i (tokenKind t);
          match next with Some next => parseItems fuel next | None => mret tt end
    end
  else mret tt.

Definition parseTokens : GoM File unit :=
  bad ← lift (Some (lenZ toks <? 3) ||? kindIs 0 (λ k, negb (k =? TokenPackage)) ||?
    kindIs 1 (λ k, negb (k =? TokenIdent)));
  if (bad : bool) then parseFailInPlace ParseErrPackage 0
  else
    _ ← modify (withPackage 1);
    parseItems (length toks) 2.

(** The first dot before more dots. *)
Fixpoint badDot (fuel : nat) (tok : Z) : option (option Z) :=
  if tok + 1 <? lenZ toks then
    match fuel with
    | O => None
    | S fuel =>
        bad ← Some (tokCharIs toks tok (chr ".")) &&?
          (next ← toks !!z (tok + 1);
           Some (tokenKind next =? TokenOperator) &&? byteIs src (t_Start next) (Z.eqb (chr ".")));
        if (bad : bool) then Some (Some tok) else badDot fuel (tok + 1)
    end
  else Some None.

Definition validateDots : GoM File unit :=
  bad ← lift (badDot (length toks) 2);
  match bad with
  | Some tok => parseFailInPlace ParseErrDot tok
  | None => mret tt
  end.

End file.

(** The positions behind the line ends of a text that starts at [i]. *)
Fixpoint lineStartsFrom (src : list Z) (i : Z) : list Z :=
  match src with
  | [] => []
  | c :: src => if c =? newline then (i + 1) :: lineStartsFrom src (i + 1) else lineStartsFrom src (i + 1)
  end.

Section host.
Context (wordSize base : Z).

Definition parseFileMode (src : list Z) (linked : bool) : option (File * list Z) :=
  '(tokens, scanOK, interfaceCandidates) ← scanTokensMode wordSize base src linked;
  let file := MkFile src tokens (-1) [] [] [] [] interfaceCandidates true ParseOK (-1) in
  if negb scanOK then Some (parseFail file ParseErrScan (lenZ tokens - 1), [])
  else
    let lineStarts := if linked then 0 :: lineStartsFrom src 0 else [] in
    '(_, file) ← parseTokens src tokens lineStarts file;
    '(_, file) ← (if f_Ok file then validateDots src tokens file else Some (tt, file));
    Some (file, lineStarts).

Definition ParseFile (src : list Z) : option File :=
  '(file, _) ← parseFileMode src false; Some file.

Definition ParseLinkedFile (src : list Z) : option (File * list Z) := parseFileMode src true.

End host.

(** * Type parameters of a file *)

Definition TypeParameterLists (file : File) : list TypeParamList := f_Generics file.

Definition noTypeParams : TypeParamList := MkTypeParamList 0 0 0 0 [].

Fixpoint findTypeParams (lists : list TypeParamList) (nameTok : Z) : TypeParamList :=
  match lists with
  | [] => noTypeParams
  | l :: lists => if l_NameTok l =? nameTok then l else findTypeParams lists nameTok
  end.

Definition TypeParameters (file : File) (nameTok : Z) : TypeParamList :=
  findTypeParams (TypeParameterLists file) nameTok.
