(* ===== verification/SyntaxBody.v ===== *)
(** The parser of function bodies: src/internal/syntax/body.go.

    A body is threaded through the calls by value; it is the state of [GoM].  Statements
    nest, so [parseStmt], [parseBlockStmt] and [parseBlockInto] take fuel for the depth
    of their calls and the rounds of their loop. *)

From Stdlib Require Import String Ascii.
From S2P Require Import Prelude.
From S2P Require Import GoInt.
From S2P Require Import SyntaxToken.
From S2P Require Import SyntaxParse.

Definition BodyOK : Z := 0.
Definition BodyErrFunc : Z := 1.
Definition BodyErrBlock : Z := 2.
Definition BodyErrStmt : Z := 3.

Definition StmtOther : Z := 0.
Definition StmtReturn : Z := 1.
Definition StmtIf : Z := 2.
Definition StmtFor : Z := 3.
Definition StmtSwitch : Z := 4.
Definition StmtCase : Z := 5.
Definition StmtDefault : Z := 6.
Definition StmtDecl : Z := 7.
Definition StmtAssign : Z := 8.
Definition StmtExpr : Z := 9.
Definition StmtBlock : Z := 10.
Definition StmtBreak : Z := 11.
Definition StmtContinue : Z := 12.
Definition StmtGoto : Z := 13.
Definition StmtDefer : Z := 14.
Definition StmtGo : Z := 15.
Definition StmtFallthrough : Z := 16.
Definition StmtLabel : Z := 17.
Definition StmtSelect : Z := 18.

Definition ExprOther : Z := 0.
Definition ExprIdent : Z := 1.
Definition ExprLiteral : Z := 2.
Definition ExprCall : Z := 3.
Definition ExprSelector : Z := 4.
Definition ExprIndex : Z := 5.
Definition ExprComposite : Z := 6.
Definition ExprUnary : Z := 7.
Definition ExprBinary : Z := 8.

Record Stmt := MkStmt {
  st_Kind : Z; st_StartTok : Z; st_EndTok : Z; st_ExprStart : Z; st_ExprEnd : Z;
  st_BodyStart : Z; st_BodyEnd : Z; st_ElseStart : Z; st_ElseEnd : Z }.

Record Expr := MkExpr { e_Kind : Z; e_StartTok : Z; e_EndTok : Z }.

Record Body := MkBody {
  b_Stmts : list Stmt; b_Exprs : list Expr; b_Ok : bool; b_Error : Z; b_ErrorTok : Z; b_stmtsOnly : bool }.

Definition addStmt (s : Stmt) (b : Body) : Body :=
  MkBody (b_Stmts b ++ [s]) (b_Exprs b) (b_Ok b) (b_Error b) (b_ErrorTok b) (b_stmtsOnly b).
Definition addExpr (e : Expr) (b : Body) : Body :=
  MkBody (b_Stmts b) (b_Exprs b ++ [e]) (b_Ok b) (b_Error b) (b_ErrorTok b) (b_stmtsOnly b).
Definition bodyFail (b : Body) (err tok : Z) : Body :=
  MkBody (b_Stmts b) (b_Exprs b) false err tok (b_stmtsOnly b).

Definition fail (err tok : Z) : GoM Body unit := modify (λ b, bodyFail b err tok).

Definition newStmt (kind start end_ : Z) : Stmt := MkStmt kind start end_ (-1) (-1) (-1) (-1) (-1) (-1).
Definition withExpr (span : Z * Z) (s : Stmt) : Stmt :=
  MkStmt (st_Kind s) (st_StartTok s) (st_EndTok s) span.1 span.2 (st_BodyStart s) (st_BodyEnd s)
    (st_ElseStart s) (st_ElseEnd s).
Definition withBody (start end_ : Z) (s : Stmt) : Stmt :=
  MkStmt (st_Kind s) (st_StartTok s) (st_EndTok s) (st_ExprStart s) (st_ExprEnd s) start end_
    (st_ElseStart s) (st_ElseEnd s).
Definition withElse (start end_ : Z) (s : Stmt) : Stmt :=
  MkStmt (st_Kind s) (st_StartTok s) end_ (st_ExprStart s) (st_ExprEnd s) (st_BodyStart s) (st_BodyEnd s)
    start end_.

(** The operators that assign. *)
Definition assignOperator (src : list Z) (start size : Z) : option bool :=
  first ← src !!z start;
  if size =? 1 then Some (first =? chr "=")
  else if size =? 2 then
    second ← src !!z (start + 1);
    Some ((second =? chr "=") &&
      ((first =? chr ":") || (first =? chr "+") || (first =? chr "-") || (first =? chr "*") || (first =? chr "/") ||
       (first =? chr "%") || (first =? chr "&") || (first =? chr "|") || (first =? chr "^")))
  else if size =? 3 then
    third ← src !!z (start + 2);
    second ← src !!z (start + 1);
    Some ((third =? chr "=") &&
      (((first =? chr "<") && (second =? chr "<")) || ((first =? chr ">") && (second =? chr ">")) ||
       ((first =? chr "&") && (second =? chr "^"))))
  else Some false.

Definition pairOf (a b : Z) : Z := Z.lor (Z.shiftl a 8) b.

Section file.
Context (src : list Z) (toks : list Token).

Definition lineOf (i : Z) : option Z := t ← toks !!z i; Some (TokenLine t).
Definition kindOf (i : Z) : option Z := t ← toks !!z i; Some (tokenKind t).
Definition charOf (i : Z) : option Z := t ← toks !!z i; Some (tokenChar t).

Definition skipStmtSeparators (start : Z) : option Z := skipSeparators toks (length toks) start.

Definition tokenIsAssign (token : Token) : option bool :=
  let start := t_Start token in
  let end_ := t_End token in
  if negb (tokenKind token =? TokenOperator) || (start <? 0) || (lenZ src <? end_) then Some false
  else
    let size := end_ - start in
    if (size =? 1) || (size =? 2) || (size =? 3) then assignOperator src start size else Some false.

(** ** Loops over spans of tokens *)

(** The first token from [start] to [end] that satisfies [P]. *)
Fixpoint findToken (n : nat) (P : Token → option bool) (i : Z) : option (option Z) :=
  match n with
  | O => Some None
  | S n =>
      t ← toks !!z i;
      b ← P t;
      if (b : bool) then Some (Some i) else findToken n P (i + 1)
  end.

Definition findIn (P : Token → option bool) (start end_ : Z) : option (option Z) :=
  findToken (Z.to_nat (end_ - start)) P start.

Definition findAssign (start end_ : Z) : option Z :=
  r ← findIn tokenIsAssign start end_; Some (default (-1) r).

Definition spanHasAssign (start end_ : Z) : option bool := a ← findAssign start end_; Some (0 <=? a).

Definition findCaseHeaderEnd (start limit : Z) : option Z :=
  r ← findIn (λ t, Some (tokenChar t =? chr ":")) start limit;
  Some (match r with Some i => i + 1 | None => limit end).

Definition spanHas (c start end_ : Z) : option bool :=
  r ← findIn (λ t, Some (tokenChar t =? c)) start end_; Some (bool_decide (r ≠ None)).

Definition spanHasCall (start end_ : Z) : option bool := spanHas (chr "(") (start + 1) end_.
Definition spanHasChar (start end_ c : Z) : option bool := spanHas c start end_.

(** Depths that do not go below zero; a brace is counted when [braces]. *)
Definition enterLoose (c : Z) (d : depths) : depths :=
  let '(MkDepths p k b) := d in
  if c =? chr "(" then MkDepths (p + 1) k b
  else if c =? chr ")" then if 0 <? p then MkDepths (p - 1) k b else d
  else if c =? chr "[" then MkDepths p (k + 1) b
  else if c =? chr "]" then if 0 <? k then MkDepths p (k - 1) b else d
  else if c =? chr "{" then MkDepths p k (b + 1)
  else if c =? chr "}" then if 0 <? b then MkDepths p k (b - 1) else d
  else d.

Definition isBracket (c : Z) : bool :=
  (c =? chr "(") || (c =? chr ")") || (c =? chr "[") || (c =? chr "]") || (c =? chr "{") || (c =? chr "}").

Fixpoint topLevelChar (n : nat) (c i : Z) (d : depths) : option Z :=
  match n with
  | O => Some (-1)
  | S n =>
      tokChar ← charOf i;
      if atTop d && (tokChar =? c) then Some i else topLevelChar n c (i + 1) (enterLoose tokChar d)
  end.

Definition findTopLevelChar (start limit c : Z) : option Z :=
  topLevelChar (Z.to_nat (limit - start)) c start noDepth.

(** ** Operators and spans *)

Definition isBinaryOp (i : Z) : option bool :=
  tok ← toks !!z i;
  if negb (tokenKind tok =? TokenOperator) then Some false
  else
    let size := TokenSize tok in
    if size =? 1 then
      let c := tokenChar tok in
      Some ((c =? chr "+") || (c =? chr "-") || (c =? chr "*") || (c =? chr "/") || (c =? chr "%") ||
        (c =? chr "&") || (c =? chr "|") || (c =? chr "^") || (c =? chr "<") || (c =? chr ">"))
    else
      let start := t_Start tok in
      if negb (size =? 2) || (start <? 0) || (lenZ src <=? start + 1) then Some false
      else
        a ← src !!z start;
        b ← src !!z (start + 1);
        let pair := pairOf a b in
        Some ((pair =? pairOf (chr "|") (chr "|")) || (pair =? pairOf (chr "&") (chr "&")) ||
          (pair =? pairOf (chr "=") (chr "=")) || (pair =? pairOf (chr "!") (chr "=")) ||
          (pair =? pairOf (chr "<") (chr "=")) || (pair =? pairOf (chr ">") (chr "=")) ||
          (pair =? pairOf (chr "<") (chr "<")) || (pair =? pairOf (chr ">") (chr ">")) ||
          (pair =? pairOf (chr "&") (chr "^"))).

Definition isUnaryExpr (start : Z) : option bool :=
  tok ← toks !!z start;
  if negb (tokenKind tok =? TokenOperator) then Some false
  else
    let size := TokenSize tok in
    if size =? 1 then
      let c := tokenChar tok in
      Some ((c =? chr "+") || (c =? chr "-") || (c =? chr "!") || (c =? chr "^") || (c =? chr "*") || (c =? chr "&"))
    else
      let start := t_Start tok in
      Some ((size =? 2) && (0 <=? start) && (start + 1 <? lenZ src)) &&?
        byteIs src start (Z.eqb (chr "<")) &&? byteIs src (start + 1) (Z.eqb (chr "-")).

Fixpoint topLevelBinary (n : nat) (i : Z) (d : depths) : option bool :=
  match n with
  | O => Some false
  | S n =>
      c ← charOf i;
      if isBracket c then topLevelBinary n (i + 1) (enterLoose c d)
      else
        binary ← Some (atTop d) &&? isBinaryOp i;
        if (binary : bool) then Some true else topLevelBinary n (i + 1) d
  end.

Definition hasTopLevelBinary (start end_ : Z) : option bool :=
  topLevelBinary (Z.to_nat (end_ - start)) start noDepth.

Fixpoint trimStart (n : nat) (start end_ : Z) : Z :=
  if (start <? end_) && tokCharIs toks start (chr ";") then
    match n with O => start | S n => trimStart n (start + 1) end_ end
  else start.
Fixpoint trimEnd (n : nat) (start end_ : Z) : Z :=
  if (start <? end_) && tokCharIs toks (end_ - 1) (chr ";") then
    match n with O => end_ | S n => trimEnd n start (end_ - 1) end
  else end_.

(** The span without semicolons at its ends; there are at most as many as tokens. *)
Definition trimSpan (start end_ : Z) : Z * Z :=
  let start := trimStart (length toks) start end_ in
  (start, trimEnd (length toks) start end_).

Definition lineContinues (prev next : Z) : option bool :=
  if (prev <? 0) || (next <? 0) || (lenZ toks <=? prev) || (lenZ toks <=? next) then Some false
  else
    t ← toks !!z prev;
    before ← isBinaryOp prev ||? tokenIsAssign t ||?
      Some (tokCharIs toks prev (chr ",") || tokCharIs toks prev (chr "."));
    if (before : bool) then Some true
    else Some (tokCharIs toks next (chr ".") || tokCharIs toks next (chr ",")).

Definition classifyExpr (start end_ : Z) : option Z :=
  let '(start, end_) := trimSpan start end_ in
  if end_ <=? start then Some ExprOther
  else
    kind ← kindOf start;
    if (end_ - start =? 1) && (kind =? TokenIdent) then Some ExprIdent
    else if (end_ - start =? 1) && ((kind =? TokenNumber) || (kind =? TokenString) || (kind =? TokenChar)) then Some ExprLiteral
    else
      unary ← isUnaryExpr start;
      if (unary : bool) then Some ExprUnary
      else
        binary ← hasTopLevelBinary start end_;
        if (binary : bool) then Some ExprBinary
        else
          composite ← spanHasChar start end_ (chr "{");
          if (composite : bool) then Some ExprComposite
          else
            call ← spanHasCall start end_;
            if (call : bool) then Some ExprCall
            else
              index ← spanHasChar start end_ (chr "[");
              if (index : bool) then Some ExprIndex
              else
                selector ← spanHasChar start end_ (chr ".");
                Some (if (selector : bool) then ExprSelector else ExprOther).

(** ** Ends of statements *)

(** Another line than that of the token before, where the statement does not go on. *)
Definition lineEnds (prev i : Z) : option bool :=
  a ← lineOf i;
  b ← lineOf prev;
  Some (negb (a =? b)) &&? (continues ← lineContinues prev i; Some (negb continues)).

Fixpoint stmtEnd (n : nat) (start i limit : Z) (d : depths) : option Z :=
  match n with
  | O => Some limit
  | S n =>
      c ← charOf i;
      if atTop d && (c =? chr ";") then Some (i + 1)
      else
        ends ← Some (atTop d && (start <? i)) &&? lineEnds (i - 1) i;
        if (ends : bool) then Some i
        else if (c =? chr "}") && (braceDepth d =? 0) then Some i
        else stmtEnd n start (i + 1) limit (enterLoose c d)
  end.

Definition findStmtEnd (start limit : Z) : option Z :=
  ends ← Some ((start <? limit) && (0 <? start)) &&? lineEnds (start - 1) start;
  if (ends : bool) then Some start else stmtEnd (Z.to_nat (limit - start)) start start limit noDepth.

(** The bytes after which a brace does not start the block of a statement. *)
Definition continuesHeader (next : Z) (headerAssignment : bool) : bool :=
  ((next =? chr ";") && headerAssignment) || (next =? chr "{") || (next =? chr ".") || (next =? chr "[") ||
  (next =? chr "(") || (next =? chr ",") || (next =? chr "!") || (next =? chr "=") || (next =? chr "<") ||
  (next =? chr ">") || (next =? chr "+") || (next =? chr "-") || (next =? chr "*") || (next =? chr "/") ||
  (next =? chr "%") || (next =? chr "&") || (next =? chr "|") || (next =? chr "^").

(** Whether the braces at [i] are a literal in a header, and their end. *)
Definition headerLiteral (i limit : Z) (headerAssignment : bool) : option (option Z) :=
  closeTok ← skipBalanced toks i (chr "{") (chr "}");
  sameLine ← Some ((i <? closeTok) && (closeTok <? limit)) &&?
    (a ← lineOf (closeTok - 1); b ← lineOf closeTok; Some (a =? b));
  if (sameLine : bool) then
    nextTok ← toks !!z closeTok;
    next ← (if t_Start nextTok <? t_End nextTok then src !!z t_Start nextTok else Some 0);
    Some (if continuesHeader next headerAssignment then Some closeTok else None)
  else Some None.

Fixpoint blockStart (fuel : nat) (i limit paren bracket : Z) (headerAssignment : bool) : option Z :=
  if i <? limit then
    match fuel with
    | O => None
    | S fuel =>
        tok ← toks !!z i;
        let c := tokenChar tok in
        headerAssignment ←
          (if (paren =? 0) && (bracket =? 0) then
             assign ← tokenTextIs src tok (text ":=") ||? tokenTextIs src tok (text "=");
             Some (if (assign : bool) then true
                   else if (c =? chr ";") || (tokenKind tok =? TokenRange) then false else headerAssignment)
           else Some headerAssignment);
        if c =? chr "(" then blockStart fuel (i + 1) limit (paren + 1) bracket headerAssignment
        else if c =? chr ")" then
          blockStart fuel (i + 1) limit (if 0 <? paren then paren - 1 else paren) bracket headerAssignment
        else if c =? chr "[" then blockStart fuel (i + 1) limit paren (bracket + 1) headerAssignment
        else if c =? chr "]" then
          blockStart fuel (i + 1) limit paren (if 0 <? bracket then bracket - 1 else bracket) headerAssignment
        else if (c =? chr "{") && (paren =? 0) && (bracket =? 0) then
          literal ← headerLiteral i limit headerAssignment;
          match literal with
          | Some closeTok => blockStart fuel closeTok limit paren bracket headerAssignment
          | None => Some i
          end
        else blockStart fuel (i + 1) limit paren bracket headerAssignment
    end
  else Some (-1).

Definition findStmtBlockStart (start limit : Z) : option Z :=
  blockStart (length toks) start limit 0 0 false.

Fixpoint findIfEnd (fuel : nat) (start limit : Z) : option Z :=
  match fuel with
  | O => None
  | S fuel =>
      bodyStart ← findStmtBlockStart (start + 1) limit;
      if bodyStart <? 0 then Some (-1)
      else
        bodyEnd ← skipBalanced toks bodyStart (chr "{") (chr "}");
        if (bodyEnd <=? bodyStart) || (limit + 1 <? bodyEnd) then Some (-1)
        else
          next ← skipStmtSeparators bodyEnd;
          elses ← Some (next <? limit) &&? kindIs toks next (Z.eqb TokenElse);
          if (elses : bool) then
            elseIf ← Some (next + 1 <? limit) &&? kindIs toks (next + 1) (Z.eqb TokenIf);
            if (elseIf : bool) then findIfEnd fuel (next + 1) limit
            else if tokCharIs toks (next + 1) (chr "{") then
              end_ ← skipBalanced toks (next + 1) (chr "{") (chr "}");
              Some (if (end_ - 1 <=? next) || (limit <=? end_ - 1) then -1 else end_)
            else Some (-1)
          else Some bodyEnd
  end.

(** ** Statements *)

Definition appendStmtExpr (stmt : Stmt) : GoM Body unit :=
  _ ← modify (addStmt stmt);
  body ← get;
  if negb (b_stmtsOnly body) && (0 <=? st_ExprStart stmt) && (st_ExprStart stmt <? st_ExprEnd stmt) then
    kind ← lift (classifyExpr (st_ExprStart stmt) (st_ExprEnd stmt));
    modify (addExpr (MkExpr kind (st_ExprStart stmt) (st_ExprEnd stmt)))
  else mret tt.

(** A statement of one line and its expression, if it has one. *)
Definition simpleStmt (kind start limit : Z) (withSpan : bool) : GoM Body Z :=
  end_ ← lift (findStmtEnd (start + 1) limit);
  _ ← (if withSpan then appendStmtExpr (withExpr (trimSpan (start + 1) end_) (newStmt kind start end_))
       else modify (addStmt (newStmt kind start end_)));
  mret end_.

Definition gotoStmt (start limit : Z) : GoM Body Z :=
  end_ ← lift (findStmtEnd (start + 1) limit);
  let stmt := withExpr (trimSpan (start + 1) end_) (newStmt StmtGoto start end_) in
  bad ← lift (Some (negb (st_ExprEnd stmt - st_ExprStart stmt =? 1)) ||?
    kindIs toks (st_ExprStart stmt) (λ k, negb (k =? TokenIdent)));
  if (bad : bool) then _ ← fail BodyErrStmt start; mret start
  else _ ← appendStmtExpr stmt; mret end_.

Definition caseStmt (start limit : Z) : GoM Body Z :=
  end_ ← lift (findCaseHeaderEnd (start + 1) limit);
  colon ← lift (findTopLevelChar (start + 1) end_ (chr ":"));
  let stmt := newStmt StmtCase start end_ in
  _ ← appendStmtExpr (if 0 <=? colon then withExpr (trimSpan (start + 1) colon) stmt else stmt);
  mret end_.

Definition defaultStmt (start limit : Z) : GoM Body Z :=
  end_ ← lift (findCaseHeaderEnd (start + 1) limit);
  _ ← modify (addStmt (newStmt StmtDefault start end_));
  mret end_.

(** An expression or an assignment. *)
Definition exprStmt (start limit : Z) : GoM Body Z :=
  end_ ← lift (findStmtEnd (start + 1) limit);
  assigns ← lift (spanHasAssign start end_);
  span ← (if (assigns : bool) then
            assign ← lift (findAssign start end_); mret (trimSpan (assign + 1) end_)
          else mret (trimSpan start end_));
  _ ← appendStmtExpr (withExpr span (newStmt (if (assigns : bool) then StmtAssign else StmtExpr) start end_));
  mret end_.

(** The statements with a keyword and without a block. *)
Definition keywordStmt (kind start limit : Z) : option (GoM Body Z) :=
  let simple (k : Z) (withSpan : bool) := Some (simpleStmt k start limit withSpan) in
  if kind =? TokenReturn then simple StmtReturn true
  else if kind =? TokenCase then Some (caseStmt start limit)
  else if kind =? TokenDefault then Some (defaultStmt start limit)
  else if (kind =? TokenConst) || (kind =? TokenVar) || (kind =? TokenType) then simple StmtDecl false
  else if kind =? TokenBreak then simple StmtBreak false
  else if kind =? TokenContinue then simple StmtContinue false
  else if kind =? TokenFallthrough then simple StmtFallthrough false
  else if kind =? TokenGoto then Some (gotoStmt start limit)
  else if kind =? TokenDefer then simple StmtDefer true
  else if kind =? TokenGo then simple StmtGo true
  else None.

(** A label, an expression or an assignment. *)
Definition plainStmt (kind start limit : Z) : GoM Body Z :=
  if (kind =? TokenIdent) && tokCharIs toks (start + 1) (chr ":") then
    _ ← modify (addStmt (newStmt StmtLabel start (start + 2))); mret (start + 2)
  else exprStmt start limit.

(** The kinds with a block. *)
Definition blockKind (kind : Z) : option Z :=
  if kind =? TokenIf then Some StmtIf
  else if kind =? TokenFor then Some StmtFor
  else if kind =? TokenSwitch then Some StmtSwitch
  else if kind =? TokenSelect then Some StmtSelect
  else None.

(** What follows an if statement: nothing, another if statement or a block; [inr] is a
    failure and its token. *)
Inductive elsePart :=
| NoElse
| ElseIf (start end_ : Z)
| ElseBlock (start close : Z).

Definition findElse (bodyEnd limit : Z) : option ((Z * elsePart) + (Z * Z)) :=
  next ← skipStmtSeparators bodyEnd;
  elses ← Some (next <? limit) &&? kindIs toks next (Z.eqb TokenElse);
  if (elses : bool) then
    elseIf ← Some (next + 1 <? limit) &&? kindIs toks (next + 1) (Z.eqb TokenIf);
    if (elseIf : bool) then
      elseEnd ← findIfEnd (length toks) (next + 1) limit;
      Some (if elseEnd <=? next + 1 then inr (BodyErrStmt, next) else inl (next, ElseIf (next + 1) elseEnd))
    else if tokCharIs toks (next + 1) (chr "{") then
      end_ ← skipBalanced toks (next + 1) (chr "{") (chr "}");
      Some (if (end_ - 1 <=? next) || (limit <=? end_ - 1) then inr (BodyErrBlock, next + 1)
            else inl (next, ElseBlock (next + 1) (end_ - 1)))
    else Some (inr (BodyErrStmt, next))
  else Some (inl (-1, NoElse)).

(** The header of a statement with a block: its block and what follows it; [inr] is a
    failure and its token. *)
Definition blockHeader (start limit stmtKind : Z) : option ((Z * Z * Z * elsePart) + (Z * Z)) :=
  bodyStart ← findStmtBlockStart (start + 1) limit;
  if bodyStart <? 0 then Some (inr (BodyErrBlock, start))
  else
    bodyEnd ← skipBalanced toks bodyStart (chr "{") (chr "}");
    if (bodyEnd <=? bodyStart) || (limit + 1 <? bodyEnd) then Some (inr (BodyErrBlock, bodyStart))
    else if stmtKind =? StmtIf then
      elses ← findElse bodyEnd limit;
      Some (match elses with
            | inl (elseStart, part) => inl (bodyStart, bodyEnd, elseStart, part)
            | inr e => inr e
            end)
    else Some (inl (bodyStart, bodyEnd, -1, NoElse)).

(** The statement that a header describes. *)
Definition headerStmt (stmtKind start bodyStart bodyEnd elseStart : Z) (part : elsePart) : Stmt :=
  let stmt := withBody bodyStart bodyEnd
    (withExpr (trimSpan (start + 1) bodyStart) (newStmt stmtKind start bodyEnd)) in
  match part with
  | NoElse => stmt
  | ElseIf _ end_ => withElse elseStart end_ stmt
  | ElseBlock _ close => withElse elseStart (close + 1) stmt
  end.

(** [parseStmt] at [start]; [parseBlockInto] of a block; its loop from [i] on. *)
Fixpoint parseStmt (fuel : nat) (start limit : Z) : GoM Body Z :=
  match fuel with
  | O => lift None
  | S fuel =>
      kind ← lift (kindOf start);
      match blockKind kind with
      | Some stmtKind =>
          header ← lift (blockHeader start limit stmtKind);
          match header with
          | inr (err, tok) => _ ← fail err tok; mret start
          | inl (bodyStart, bodyEnd, elseStart, part) =>
              let stmt := headerStmt stmtKind start bodyStart bodyEnd elseStart part in
              _ ← appendStmtExpr stmt;
              _ ← parseBlockInto fuel bodyStart (bodyEnd - 1);
              body ← get;
              if negb (b_Ok body) then mret start
              else
                _ ← match part with
                    | NoElse => mret tt
                    | ElseIf elseIf _ => _ ← parseStmt fuel elseIf limit; mret tt
                    | ElseBlock open close => parseBlockInto fuel open close
                    end;
                mret (st_EndTok stmt)
          end
      | None =>
          match keywordStmt kind start limit with
          | Some run => run
          | None =>
              if tokCharIs toks start (chr "{") then
                end_ ← lift (skipBalanced toks start (chr "{") (chr "}"));
                let closeTok := end_ - 1 in
                if (closeTok <? start) || (limit <=? closeTok) then _ ← fail BodyErrBlock start; mret start
                else _ ← parseBlockInto fuel start closeTok; mret (closeTok + 1)
              else plainStmt kind start limit
          end
      end
  end
with parseBlockInto (fuel : nat) (openTok closeTok : Z) : GoM Body unit :=
  match fuel with
  | O => lift None
  | S fuel =>
      if negb (tokCharIs toks openTok (chr "{")) || negb (tokCharIs toks closeTok (chr "}")) then
        fail BodyErrBlock openTok
      else
        _ ← modify (addStmt (MkStmt StmtBlock openTok (closeTok + 1) (-1) (-1) openTok (closeTok + 1) (-1) (-1)));
        parseStmts fuel (openTok + 1) closeTok
  end
with parseStmts (fuel : nat) (i closeTok : Z) : GoM Body unit :=
  match fuel with
  | O => lift None
  | S fuel =>
      body ← get;
      if (i <? closeTok) && b_Ok body then
        i ← lift (skipStmtSeparators i);
        if closeTok <=? i then mret tt
        else
          next ← parseStmt fuel i closeTok;
          body ← get;
          if negb (b_Ok body) then mret tt
          else if next <=? i then fail BodyErrStmt i
          else parseStmts fuel next closeTok
      else mret tt
  end.

(** Enough for every depth: three calls for a token. *)
Definition bodyFuel : nat := 3 * length toks + 3.

Definition parseFuncBody (fn : FuncDecl) : GoM Body unit :=
  if (fn_BodyStart fn <? 0) && (fn_BodyEnd fn <? 0) then mret tt
  else
    let closeTok := fn_BodyEnd fn - 1 in
    if (fn_BodyStart fn <? 0) || (closeTok <=? fn_BodyStart fn) ||
       negb (tokCharIs toks (fn_BodyStart fn) (chr "{")) || negb (tokCharIs toks closeTok (chr "}"))
    then fail BodyErrFunc (fn_BodyStart fn)
    else parseBlockInto bodyFuel (fn_BodyStart fn) closeTok.

End file.

Definition ParseFuncBody (file : File) (fn : FuncDecl) : option Body :=
  snd <$> parseFuncBody (f_Src file) (f_Tokens file) fn (MkBody [] [] true BodyOK (-1) false).

Definition ParseFuncBodyStatements (file : File) (fn : FuncDecl) : option Body :=
  snd <$> parseFuncBody (f_Src file) (f_Tokens file) fn (MkBody [] [] true BodyOK (-1) true).
