(* ===== verification/SyntaxDirective.v ===== *)
(** Directives in comments: src/internal/syntax/export.go, reflect.go and type_name.go.

    They are looked for in the bytes before a declaration, backwards from its first
    token.  A loop takes as fuel the number of bytes that it can pass. *)

From Stdlib Require Import String Ascii.
From S2P Require Import Prelude.
From S2P Require Import GoInt.
From S2P Require Import SyntaxToken.
From S2P Require Import SyntaxLiteral.
From S2P Require Import SyntaxParse.

Definition isIndent (c : Z) : bool := (c =? chr " ") || (c =? 9).
Definition isBlank (c : Z) : bool := (c =? chr " ") || (c =? 9) || (c =? 13).

Fixpoint bytesEqualString (value txt : list Z) : bool :=
  match value, txt with
  | [], [] => true
  | a :: value, b :: txt => if negb (a =? b) then false else bytesEqualString value txt
  | _, _ => false
  end.

Definition exportIdentifierStart (ch : Z) : bool :=
  (ch =? chr "_") || ((chr "a" <=? ch) && (ch <=? chr "z")) || ((chr "A" <=? ch) && (ch <=? chr "Z")).

Definition exportIdentifierPart (ch : Z) : bool :=
  exportIdentifierStart ch || ((chr "0" <=? ch) && (ch <=? chr "9")).

Definition exportIdentifier (name : list Z) : bool :=
  match name with
  | [] => false
  | c :: name => exportIdentifierStart c && forallb exportIdentifierPart name
  end.

Section source.
Context (src : list Z).

(** [for i > 0 && P(src[i-1]) { i-- }] *)
Fixpoint backWhile (n : nat) (P : Z → bool) (i : Z) : option Z :=
  go ← Some (0 <? i) &&? byteIs src (i - 1) P;
  if (go : bool) then match n with O => None | S n => backWhile n P (i - 1) end else Some i.

Definition back (P : Z → bool) (i : Z) : option Z := backWhile (Z.to_nat i) P i.

(** [for i < end && P(src[i]) { i++ }] *)
Fixpoint aheadWhile (n : nat) (P : Z → bool) (i end_ : Z) : option Z :=
  go ← Some (i <? end_) &&? byteIs src i P;
  if (go : bool) then match n with O => None | S n => aheadWhile n P (i + 1) end_ end else Some i.

Definition ahead (P : Z → bool) (i end_ : Z) : option Z := aheadWhile (Z.to_nat (end_ - i)) P i end_.

(** The first byte that is no indentation of the line that ends at [end]. *)
Definition lineStart (end_ : Z) : option Z :=
  line ← back (λ c, negb (c =? newline)) end_;
  ahead isIndent line end_.

(** The end of the line before [start], when only blanks are between them. *)
Definition lineBefore (start : Z) : option (option Z) :=
  if (start <=? 0) || (lenZ src <? start) then Some None
  else
    i ← back isBlank start;
    no ← Some (i =? 0) ||? byteIs src (i - 1) (λ c, negb (c =? newline));
    Some (if (no : bool) then None else Some (i - 1)).

Definition precedingDirectiveLine (start : Z) : option (Z * Z) :=
  line ← lineBefore start;
  match line with
  | None => Some (-1, -1)
  | Some end_ =>
      end_ ← back isBlank end_;
      begin ← lineStart end_;
      Some (begin, end_)
  end.

(** [src[start:start+len(txt)]] compared with a text. *)
Definition textAt (start end_ : Z) (txt : list Z) : option bool :=
  value ← sliceZ src start end_; Some (bytesEqualString value txt).

(** ** Names of generated types *)

(** The loop of [directiveString]: the position behind the closing quote. *)
Fixpoint closingQuote (n : nat) (pos end_ : Z) : option (option Z) :=
  if pos <? end_ then
    match n with
    | O => None
    | S n =>
        c ← src !!z pos;
        if c =? quote then Some (Some (pos + 1))
        else closingQuote n (if c =? 92 then pos + 2 else pos + 1) end_
    end
  else Some None.

Definition directiveString (start end_ : Z) : option (list Z * Z * bool) :=
  no ← Some (end_ <=? start) ||? byteIs src start (λ c, negb (c =? quote));
  if (no : bool) then Some ([], start, false)
  else
    close ← closingQuote (Z.to_nat (end_ - start)) (start + 1) end_;
    match close with
    | None => Some ([], start, false)
    | Some pos =>
        value ← StringLiteralValue src (MkToken TokenString (i32 start) (i32 pos));
        Some (match value with Some v => (v, pos, true) | None => ([], pos, false) end)
    end.

Definition isEmpty (l : list Z) : bool := match l with [] => true | _ => false end.

Definition typeNames (begin end_ : Z) : option (list Z * list Z) :=
  let prefix := text "//renvo:typename " in
  bad ← Some (end_ - begin <? lenZ prefix) ||?
    (same ← textAt begin (begin + lenZ prefix) prefix; Some (negb same));
  if (bad : bool) then Some ([], [])
  else
    '(typeName, next, ok) ← directiveString (begin + lenZ prefix) end_;
    bad ← Some (negb ok || (end_ <=? next)) ||? byteIs src next (λ c, negb (c =? chr " "));
    if (bad : bool) then Some ([], [])
    else
      '(fieldName, next, ok) ← directiveString (next + 1) end_;
      if negb ok || negb (next =? end_) || isEmpty typeName || isEmpty fieldName then Some ([], [])
      else Some (typeName, fieldName).

Definition GeneratedTypeNames (declarationStart : Z) : option (list Z * list Z) :=
  '(begin, end_) ← precedingDirectiveLine declarationStart;
  if begin <? 0 then Some ([], [])
  else
    reflect ← textAt begin end_ (text "//renvo:reflect");
    if (reflect : bool) then
      '(begin, end_) ← precedingDirectiveLine begin;
      if begin <? 0 then Some ([], []) else typeNames begin end_
    else typeNames begin end_.

End source.

(** ** Directives of declarations *)

(** The code repeats the loops of [precedingDirectiveLine] here. *)
Definition ReflectDirective (file : File) (decl : TopDecl) : option bool :=
  if negb (d_Kind decl =? TokenType) || (d_StartTok decl <? 0) || (lenZ (f_Tokens file) <=? d_StartTok decl) then Some false
  else
    let tok := d_StartTok decl in
    keyword ← Some (0 <? tok) &&? kindIs (f_Tokens file) (tok - 1) (Z.eqb TokenType);
    t ← f_Tokens file !!z (if (keyword : bool) then tok - 1 else tok);
    '(begin, end_) ← precedingDirectiveLine (f_Src file) (TokenStart t);
    if begin <? 0 then Some false else textAt (f_Src file) begin end_ (text "//renvo:reflect").

Definition exportPrefix : list Z := text "//export ".

(** The name of the directive in a line that ends at [end]. *)
Definition exportName (src : list Z) (end_ : Z) : option (list Z) :=
  cr ← Some (0 <? end_) &&? byteIs src (end_ - 1) (Z.eqb 13);
  let end_ := if (cr : bool) then end_ - 1 else end_ in
  line ← lineStart src end_;
  bad ← Some (end_ - line <=? lenZ exportPrefix) ||?
    (same ← textAt src line (line + lenZ exportPrefix) exportPrefix; Some (negb same));
  if (bad : bool) then Some []
  else
    name ← sliceZ src (line + lenZ exportPrefix) end_;
    Some (if negb (exportIdentifier name) then [] else name).

Definition ExportDirective (file : File) (fn : FuncDecl) : option (list Z) :=
  if (0 <=? fn_ReceiverStart fn) || (fn_StartTok fn <? 0) || (lenZ (f_Tokens file) <=? fn_StartTok fn) then Some []
  else
    t ← f_Tokens file !!z fn_StartTok fn;
    line ← lineBefore (f_Src file) (TokenStart t);
    match line with
    | None => Some []
    | Some end_ => exportName (f_Src file) end_
    end.

(** ** The preamble of an import of C *)

(** The blanks before [i] and the line ends among them. *)
Fixpoint blanksBefore (n : nat) (src : list Z) (i newlines : Z) : option (Z * Z) :=
  go ← Some (0 <? i) &&? byteIs src (i - 1) (λ c, isBlank c || (c =? newline));
  if (go : bool) then
    match n with
    | O => None
    | S n =>
        c ← src !!z (i - 1);
        blanksBefore n src (i - 1) (if c =? newline then newlines + 1 else newlines)
    end
  else Some (i, newlines).

(** The last opening of a comment at [begin] or before. *)
Fixpoint commentStart (n : nat) (src : list Z) (begin : Z) : option (option Z) :=
  if 0 <=? begin then
    match n with
    | O => None
    | S n =>
        opens ← byteIs src begin (Z.eqb (chr "/")) &&? byteIs src (begin + 1) (Z.eqb (chr "*"));
        if (opens : bool) then Some (Some begin) else commentStart n src (begin - 1)
    end
  else Some None.

(** The text of the comment that ends at [i], its position, and whether it is well formed. *)
Definition commentBefore (src : list Z) (i : Z) : option (list Z * Z * bool) :=
  block ← Some (2 <=? i) &&? byteIs src (i - 2) (Z.eqb (chr "*")) &&? byteIs src (i - 1) (Z.eqb (chr "/"));
  if (block : bool) then
    begin ← commentStart (Z.to_nat i) src (i - 4);
    match begin with
    | Some begin => value ← sliceZ src (begin + 2) (i - 2); Some (value, begin + 2, true)
    | None => Some ([], -1, false)
    end
  else
    line ← lineStart src i;
    comment ← Some (line + 2 <=? i) &&? byteIs src line (Z.eqb (chr "/")) &&? byteIs src (line + 1) (Z.eqb (chr "/"));
    if (comment : bool) then value ← sliceZ src (line + 2) i; Some (value, line + 2, true)
    else Some ([], -1, true).

Definition CgoPreamble (file : File) (decl : ImportDecl) : option (list Z * Z * bool) :=
  let toks := f_Tokens file in
  let none := ([], -1, false) in
  if (i_PathTok decl <? 0) || (lenZ toks <=? i_PathTok decl) then Some none
  else
    t ← toks !!z i_PathTok decl;
    path ← StringLiteralValue (f_Src file) t;
    match path with
    | None => Some none
    | Some path =>
        let importTok := i_StartTok decl - 1 in
        if negb (bytesEqualString path (text "C")) then Some none
        else
          bad ← Some ((importTok <? 0) || (lenZ toks <=? importTok)) ||?
            kindIs toks importTok (λ k, negb (k =? TokenImport));
          if (bad : bool) then Some none
          else
            t ← toks !!z importTok;
            '(i, newlines) ← blanksBefore (Z.to_nat (TokenStart t)) (f_Src file) (TokenStart t) 0;
            if 1 <? newlines then Some ([], -1, true) else commentBefore (f_Src file) i
    end.
