(* ===== verification/SyntaxTokens.v ===== *)
(** What the parsers rely on: the shape of a token array, and the loops over tokens that
    the parsers share. *)

From Stdlib Require Import String Ascii.
From S2P Require Import Prelude.
From S2P Require Import GoInt.
From S2P Require Import SyntaxToken.
From S2P Require Import SyntaxEncoding.
From S2P Require Import SyntaxLiteral.
From S2P Require Import SyntaxScan.
From S2P Require Import SyntaxBytes.
From S2P Require Import SyntaxRunes.
From S2P Require Import SyntaxIdent.
From S2P Require Import SyntaxGrammar.
From S2P Require Import SyntaxNumbers.
From S2P Require Import SyntaxScanner.
From S2P Require Import SyntaxParse.

(** * Token arrays *)

(** The last token and no other is the end of the file, and all lie in the source. *)
Record toks_ok (src : list Z) (toks : list Token) : Prop := {
  to_last : ∃ front eof, toks = front ++ [eof] ∧ tokenKind eof = TokenEOF ∧ tokenChar eof = 0 ∧
    Forall (λ t, tokenKind t ≠ TokenEOF) front;
  to_spans : Forall (λ t, 0 ≤ t_Start t ≤ t_End t ∧ t_End t ≤ lenZ src) toks;
  to_words : Forall (λ t, tokenKind t = TokenEOF ∨ t_Start t < t_End t) toks }.

Lemma lexeme_nonempty kind w rest : lexeme kind w rest → w ≠ [].
Proof.
  destruct 1 as [w rest (r & rs & -> & _) _|w rest Hw _|w out rest _|w rest _|w v rest _|w rest Hop Hlen]; try done.
  - unfold utf8s. simpl. destruct (utf8_nonempty r) as (c & l & ->). done.
  - by apply number_nonempty.
  - intros ->. revert Hlen. unfold operator_length. change (lenZ (@nil Z)) with 0. by repeat case_decide.
Qed.

Lemma lexeme_not_eof kind w rest : lexeme kind w rest → kind ≠ TokenEOF.
Proof.
  destruct 1; try done. destruct (word_kind_cases keywords w) as [->|(e & He & -> & _)]; [done|].
  assert (Forall (λ e, e.2 ≠ TokenEOF) keywords) as Hk by (by apply (bool_decide_unpack _)).
  by apply (proj1 (Forall_forall _ _) Hk e).
Qed.

Lemma lex_spans pos line rest tokens last :
  lex pos line rest tokens last → 0 ≤ pos → bytes_ok rest →
  Forall (λ t, 0 ≤ t_Start t ∧ t_Start t < t_End t ∧ t_End t ≤ pos + lenZ rest ∧ tokenKind t ≠ TokenEOF) tokens.
Proof.
  induction 1 as [pos line|pos line w rest tokens last Htv Hlex IH|pos line kind w rest tokens last Hl Hlex IH];
    intros Hpos Hb; [constructor| |]; apply Forall_app in Hb as [Hbw Hb]; pose proof (lenZ_nonneg w);
    rewrite lenZ_app, Z.add_assoc; [apply IH; [lia|done]|].
  constructor; [|apply IH; [lia|done]]. cbn [t_Start t_End]. pose proof (lenZ_nonneg rest).
  destruct (lexeme_kind kind w rest Hl Hbw) as [Hk Hop]. rewrite token_word_kind by done.
  split_and!; [lia| |lia|by eapply lexeme_not_eof].
  apply lexeme_nonempty in Hl. destruct w; [done|]. rewrite lenZ_cons. pose proof (lenZ_nonneg w). lia.
Qed.

Lemma eof_token line start end_ :
  tokenKind (MkToken (kindLine TokenEOF line) start end_) = TokenEOF ∧
  tokenChar (MkToken (kindLine TokenEOF line) start end_) = 0.
Proof.
  split; [by apply (token_word_kind TokenEOF line [])|]. unfold tokenChar, kindLine, TokenOperatorCharShift.
  cbn [t_KindLine]. unfold TokenOperatorCharMask, TokenOperatorLineShift, TokenEOF. change 127 with (Z.ones 7).
  rewrite Z.lor_0_l. apply Z.bits_inj_0. intros n. rewrite Z.land_spec. destruct (Z.ltb_spec n 0); [by rewrite Z.testbit_neg_r|].
  destruct (decide (n < 7)); [|rewrite Z.ones_spec_high by lia; apply andb_false_r].
  rewrite Z.shiftr_spec, Z.shiftl_spec, Z.testbit_neg_r by lia. done.
Qed.

(** What the scanner answers satisfies it. *)
Lemma scanned_toks_ok linked src tokens candidates :
  bytes_ok src → scanned_as linked src tokens candidates → toks_ok src tokens.
Proof.
  intros Hb (_ & bom & body & new & last & [Hsrc _] & Hlex & -> & _ & _).
  assert (bytes_ok body) as Hbody by (rewrite Hsrc in Hb; by apply Forall_app in Hb as [_ ?]).
  pose proof (lenZ_nonneg src). pose proof (lex_spans _ _ _ _ _ Hlex (lenZ_nonneg bom) Hbody) as Hs.
  rewrite <- lenZ_app, <- Hsrc in Hs. destruct (eof_token last (lenZ src) (lenZ src)) as [Hk Hc]. split.
  - eexists new, _. split_and!; [reflexivity|done|done|]. eapply Forall_impl; [exact Hs|]. naive_solver.
  - apply Forall_app. split; [eapply Forall_impl; [exact Hs|]; simpl; lia|]. apply list.Forall_singleton. simpl. lia.
  - apply Forall_app. split; [eapply Forall_impl; [exact Hs|]; simpl; lia|]. apply list.Forall_singleton. by left.
Qed.

(** * Reading tokens *)

Lemma bisect_total below n fuel lo hi :
  (∀ i, 0 ≤ i < n → ∃ b, below i = Some b) → 0 ≤ lo ≤ hi → hi ≤ n → hi - lo ≤ Z.of_nat fuel →
  ∃ k, bisect fuel below lo hi = Some k ∧ lo ≤ k ≤ hi.
Proof.
  intros Hbelow. revert lo hi. induction fuel as [|fuel IH]; intros lo hi Hl Hh Hf; simpl; destruct (Z.ltb_spec lo hi); try lia;
    try (exists lo; split; [done|lia]).
  assert (0 ≤ Z.quot (hi - lo) 2 < hi - lo) as Hq.
  { rewrite Z.quot_div_nonneg by lia. split; [apply Z.div_pos; lia|apply Z.div_lt; lia]. }
  destruct (Hbelow (lo + Z.quot (hi - lo) 2)) as [[] ->]; [lia| |]; cbn [mbind option_bind].
  - destruct (IH (lo + Z.quot (hi - lo) 2 + 1) hi) as (k & -> & Hk); [lia..|]. exists k. split; [done|lia].
  - destruct (IH lo (lo + Z.quot (hi - lo) 2)) as (k & -> & Hk); [lia..|]. exists k. split; [done|lia].
Qed.

Section tokens.
Context (src : list Z) (toks : list Token) (lineStarts : list Z) (Hok : toks_ok src toks).

(** The index of the end token. *)
Definition eofTok : Z := lenZ toks - 1.

Lemma eofTok_nonneg : 0 ≤ eofTok.
Proof.
  destruct (to_last _ _ Hok) as (front & eof & Hsplit & _). unfold eofTok. rewrite Hsplit. autorewrite with lenZ.
  pose proof (lenZ_nonneg front). lia.
Qed.

Lemma tok_at i : 0 ≤ i ≤ eofTok → ∃ t, toks !!z i = Some t.
Proof. unfold eofTok. intros. apply lookupZ_lt_is_Some. lia. Qed.

Lemma tok_range i t : toks !!z i = Some t → 0 ≤ i ≤ eofTok.
Proof. unfold eofTok. intros ?%lookupZ_lt_Some. lia. Qed.

(** The end token is the last one, and no other. *)
Lemma tok_kind i t : toks !!z i = Some t → (tokenKind t = TokenEOF ↔ i = eofTok).
Proof.
  destruct (to_last _ _ Hok) as (front & eof & Hsplit & Hk & _ & Hf). intros Hi. pose proof (tok_range _ _ Hi) as Hr.
  unfold eofTok in *. rewrite Hsplit in *. autorewrite with lenZ in *. pose proof (lenZ_nonneg front). split.
  - intros He. destruct (decide (i < lenZ front)) as [Hlt|]; [|lia]. rewrite lookupZ_app_l in Hi by lia.
    by pose proof (lookupZ_Forall _ _ _ _ Hf Hi).
  - intros ->. rewrite lookupZ_app_r in Hi by lia. replace (lenZ front + (1 + 0) - 1 - lenZ front) with 0 in Hi by lia.
    by injection Hi as <-.
Qed.

Lemma tok_span i t : toks !!z i = Some t → 0 ≤ t_Start t ≤ t_End t ∧ t_End t ≤ lenZ src.
Proof. intros Hi. exact (lookupZ_Forall _ _ _ _ (to_spans _ _ Hok) Hi). Qed.

Lemma tok_word i t : toks !!z i = Some t → i < eofTok → t_Start t < t_End t.
Proof.
  intros Hi Hlt. pose proof (lookupZ_Forall _ _ _ _ (to_words _ _ Hok) Hi) as [He|]; [|done].
  apply (tok_kind _ _ Hi) in He. lia.
Qed.

Lemma kindIs_at i t P : toks !!z i = Some t → kindIs toks i P = Some (P (tokenKind t)).
Proof. unfold kindIs. by intros ->. Qed.

Lemma kindIs_total i P : 0 ≤ i ≤ eofTok → ∃ b, kindIs toks i P = Some b.
Proof. intros Hi. destruct (tok_at i Hi) as [t Ht]. rewrite (kindIs_at i t) by done. eauto. Qed.

(** The kind at an index. *)
Definition kindAt (i k : Z) : Prop := ∃ t, toks !!z i = Some t ∧ tokenKind t = k.

Lemma kindIs_eqb i k b : kindIs toks i (Z.eqb k) = Some b → b = true → kindAt i k.
Proof. unfold kindIs. intros Hk ->. destruct (toks !!z i) as [t|] eqn:Ht; [|done]. injection Hk as ?%Z.eqb_eq. by exists t. Qed.

Lemma kindIs_neqb i k b : kindIs toks i (λ x, negb (x =? k)) = Some b → b = false → kindAt i k.
Proof.
  unfold kindIs. intros Hk ->. destruct (toks !!z i) as [t|] eqn:Ht; [|done]. injection Hk as ?%negb_false_iff%Z.eqb_eq. by exists t.
Qed.

Lemma kindAt_range i k : kindAt i k → 0 ≤ i ≤ eofTok.
Proof. intros (t & Ht & _). by eapply tok_range. Qed.

Lemma kindAt_lt i k : kindAt i k → k ≠ TokenEOF → 0 ≤ i < eofTok.
Proof.
  intros (t & Ht & <-) Hne. pose proof (tok_range _ _ Ht). pose proof (tok_kind _ _ Ht) as Hk.
  destruct (decide (i = eofTok)); [tauto|lia].
Qed.

Lemma more_spec i : 0 ≤ i → more toks i = Some (i <? eofTok).
Proof.
  intros Hi. unfold more. destruct (Z.ltb_spec i (lenZ toks)) as [Hlt|Hge]; cbn [andO].
  - destruct (tok_at i) as [t Ht]; [unfold eofTok; lia|]. rewrite (kindIs_at _ _ _ Ht).
    pose proof (tok_kind _ _ Ht) as Hk. pose proof (tok_range _ _ Ht). f_equal.
    destruct (Z.eqb_spec (tokenKind t) TokenEOF), (Z.ltb_spec i eofTok); simpl; try done; [|]; exfalso; intuition lia.
  - f_equal. symmetry. apply Z.ltb_ge. unfold eofTok. lia.
Qed.

(** The byte of an operator at an index. *)
Lemma tokCharIs_true i c : tokCharIs toks i c = true ↔ ∃ t, toks !!z i = Some t ∧ tokenChar t = c.
Proof.
  unfold tokCharIs. destruct (toks !!z i) as [t|]; [|naive_solver]. rewrite Z.eqb_eq. naive_solver.
Qed.

Lemma tokCharIs_lt i c : tokCharIs toks i c = true → c ≠ 0 → 0 ≤ i < eofTok.
Proof.
  intros (t & Ht & <-)%tokCharIs_true Hc. pose proof (tok_range _ _ Ht).
  destruct (decide (i = eofTok)) as [->|]; [|lia]. destruct Hc.
  destruct (to_last _ _ Hok) as (front & eof & Hsplit & _ & Hc & _). unfold eofTok in Ht. rewrite Hsplit in Ht. autorewrite with lenZ in Ht.
  rewrite lookupZ_app_r in Ht by lia. replace (lenZ front + (1 + 0) - 1 - lenZ front) with 0 in Ht by lia. by injection Ht as <-.
Qed.

Lemma lineAt_total i : 0 ≤ i ≤ eofTok → ∃ l, lineAt toks lineStarts i = Some l.
Proof.
  intros Hi. destruct (tok_at i Hi) as [t Ht]. unfold lineAt, TokenLineAt. rewrite Ht. cbn [mbind option_bind].
  destruct (_ =? 0); [eauto|]. pose proof (lenZ_nonneg lineStarts).
  destruct (bisect_total (λ mid, s ← lineStarts !!z mid; Some (s <=? t_Start t)) (lenZ lineStarts) (length lineStarts) 0
    (lenZ lineStarts)) as (k & Hk & _); [|unfold lenZ in *; lia..|by exists k].
  intros k Hk. destruct (lookupZ_lt_is_Some lineStarts k Hk) as [x ->]. eexists. reflexivity.
Qed.
End tokens.

(** * Groups *)

(** Tokens between which every opening byte has its closing one. *)
Inductive nest (open close : Z) : list Token → Prop :=
| nest_nil : nest open close []
| nest_other t l : tokenChar t ≠ open → tokenChar t ≠ close → nest open close l → nest open close (t :: l)
| nest_group a l c l' :
    tokenChar a = open → nest open close l → tokenChar c = close → nest open close l' →
    nest open close (a :: l ++ c :: l').

(** The tokens from [start] to [end] are one group. *)
Definition grouped (toks : list Token) (open close start end_ : Z) : Prop :=
  0 ≤ start ∧ end_ ≤ lenZ toks ∧
  ∃ a l c, sublistZ toks start end_ = a :: l ++ [c] ∧ tokenChar a = open ∧ nest open close l ∧ tokenChar c = close.

(** Bytes that open and close a group. *)
Class Brackets (open close : Z) : Prop := {
  br_ne : open ≠ close;
  br_open : open ≠ 0;
  br_close : close ≠ 0 }.

#[global] Instance parentheses : Brackets (chr "(") (chr ")").
Proof. by split. Qed.
#[global] Instance square_brackets : Brackets (chr "[") (chr "]").
Proof. by split. Qed.
#[global] Instance braces : Brackets (chr "{") (chr "}").
Proof. by split. Qed.

Section groups.
Context (open close : Z) (Hne : open ≠ close).
Implicit Types (l m : list Token) (k : nat).

(** Where a list closes [S k] groups that are open. *)
Fixpoint levels k l : option Z :=
  match l with
  | [] => None
  | t :: l =>
      Z.succ <$>
        (if tokenChar t =? open then levels (S k) l
         else if tokenChar t =? close then match k with O => Some 0 | S k => levels k l end
         else levels k l)
  end.

(** What is before that place. *)
Inductive unwinds : nat → list Token → Prop :=
| unwinds_0 l : nest open close l → unwinds 0 l
| unwinds_S k l c l' : nest open close l → tokenChar c = close → unwinds k l' → unwinds (S k) (l ++ c :: l').

Lemma nest_levels l : nest open close l → ∀ k m, levels k (l ++ m) = Z.add (lenZ l) <$> levels k m.
Proof.
  induction 1 as [|t l Ho Hc _ IH|a l c l' Ha _ IH Hc _ IH']; intros k m.
  - change (lenZ (@nil Token)) with 0. simpl. by destruct (levels k m).
  - simpl. rewrite (proj2 (Z.eqb_neq _ _) Ho), (proj2 (Z.eqb_neq _ _) Hc), IH, lenZ_cons. rewrite <- option_fmap_compose.
    apply option_fmap_ext. intros x. simpl. lia.
  - simpl. rewrite Ha, Z.eqb_refl, <- app_assoc, IH. simpl. rewrite Hc, Z.eqb_refl.
    rewrite (proj2 (Z.eqb_neq close open)) by done. rewrite IH', <- !option_fmap_compose. apply option_fmap_ext.
    intros x. simpl. autorewrite with lenZ. lia.
Qed.

Lemma unwinds_other k t l :
  tokenChar t ≠ open → tokenChar t ≠ close → unwinds k l → unwinds k (t :: l).
Proof.
  intros Ho Hc Hu. inversion Hu as [l0 Hn|k0 l0 c l' Hn Hcc Hu']; subst.
  - by apply unwinds_0, nest_other.
  - rewrite app_comm_cons. apply unwinds_S; [by apply nest_other|done|done].
Qed.

Lemma unwinds_open k t l : tokenChar t = open → unwinds (S k) l → unwinds k (t :: l).
Proof.
  intros Ho Hu. inversion Hu as [|k0 l0 c l' Hn Hcc Hu']; subst k0 l. inversion Hu' as [l1 Hn'|k1 l1 c1 l1' Hn' Hc1 Hu1]; subst.
  - apply unwinds_0. by apply nest_group.
  - rewrite app_comm_cons, app_comm_cons, app_assoc. apply unwinds_S; [|done|done]. rewrite <- app_comm_cons. by apply nest_group.
Qed.

Lemma levels_unwinds l : ∀ k j, levels k l = Some j →
  ∃ pre c post, l = pre ++ c :: post ∧ j = lenZ pre + 1 ∧ unwinds k pre ∧ tokenChar c = close.
Proof.
  induction l as [|t l IH]; intros k j; [done|]. simpl. destruct (Z.eqb_spec (tokenChar t) open) as [Ho|Ho].
  { intros (j' & (pre & c & post & -> & -> & Hu & Hc)%IH & ->)%fmap_Some.
    exists (t :: pre), c, post. split_and!; [done|rewrite lenZ_cons; lia|by apply unwinds_open|done]. }
  destruct (Z.eqb_spec (tokenChar t) close) as [Hc|Hc]; [destruct k as [|k]|].
  - intros [= <-]. exists [], t, l. split_and!; [done|done|apply unwinds_0, nest_nil|done].
  - intros (j' & (pre & c & post & -> & -> & Hu & Hc')%IH & ->)%fmap_Some.
    exists (t :: pre), c, post. split_and!; [done|rewrite lenZ_cons; lia| |done]. apply (unwinds_S k [] t pre); [apply nest_nil|done|done].
  - intros (j' & (pre & c & post & -> & -> & Hu & Hc')%IH & ->)%fmap_Some.
    exists (t :: pre), c, post. split_and!; [done|rewrite lenZ_cons; lia|by apply unwinds_other|done].
Qed.
End groups.

(** * [skipBalanced] *)

Lemma sublistZ_split {A} (l : list A) i j n :
  0 ≤ i ≤ j → j ≤ n → n ≤ lenZ l → sublistZ l i n = sublistZ l i j ++ sublistZ l j n.
Proof.
  unfold lenZ. intros Hij Hjn Hn. unfold sublistZ.
  rewrite <- (take_drop (Z.to_nat (j - i)) (take (Z.to_nat (n - i)) (drop (Z.to_nat i) l))).
  rewrite take_take, skipn_firstn_comm, drop_drop. f_equal; [f_equal; lia|]. f_equal; [lia|f_equal; lia].
Qed.

Section balanced.
Context (src : list Z) (toks : list Token) (Hok : toks_ok src toks).
Context (open close : Z) {Hbr : Brackets open close}.

Lemma balancedEnd_levels fuel : ∀ k i, 0 ≤ i ≤ eofTok toks → eofTok toks - i ≤ Z.of_nat fuel →
  balancedEnd toks fuel open close (Z.of_nat k + 1) i = Some (Z.add i <$> levels open close k (sublistZ toks i (eofTok toks))).
Proof.
  induction fuel as [|fuel IH]; intros k i Hi Hf; cbn [balancedEnd]; rewrite (more_spec src) by (done || lia); cbn [mbind option_bind].
  { rewrite (proj2 (Z.ltb_ge _ _)) by lia. by rewrite sublistZ_empty by lia. }
  destruct (Z.ltb_spec i (eofTok toks)) as [Hlt|]; [|by rewrite sublistZ_empty by lia].
  destruct (tok_at toks i ltac:(lia)) as [t Ht]. rewrite Ht, (sublistZ_cons _ _ _ t) by (done || lia). cbn [mbind option_bind levels].
  assert (∀ o : option Z, Z.add (i + 1) <$> o = Z.add i <$> (Z.succ <$> o)) as Hadd.
  { intros o. rewrite <- option_fmap_compose. apply option_fmap_ext. intros x. simpl. lia. }
  destruct (tokenChar t =? open).
  { replace (Z.of_nat k + 1 + 1) with (Z.of_nat (S k) + 1) by lia. rewrite IH by lia. by rewrite Hadd. }
  destruct (tokenChar t =? close).
  - destruct k as [|k]; [done|].
    rewrite (proj2 (Z.eqb_neq _ _)) by lia. replace (Z.of_nat (S k) + 1 - 1) with (Z.of_nat k + 1) by lia.
    rewrite IH by lia. by rewrite Hadd.
  - rewrite IH by lia. by rewrite Hadd.
Qed.

(** [skipBalanced] finds the end of the group that starts at an opening token, if the
    file has it. *)
Lemma skipBalanced_levels start :
  tokCharIs toks start open = true →
  skipBalanced toks start open close =
    Some (default start (Z.add (start + 1) <$> levels open close 0 (sublistZ toks (start + 1) (eofTok toks)))).
Proof.
  intros Hs. pose proof (tokCharIs_lt _ _ Hok _ _ Hs br_open) as Hr. unfold skipBalanced. rewrite Hs. simpl negb. cbv iota.
  change 1 with (Z.of_nat 0 + 1) at 1. rewrite balancedEnd_levels; [done|lia|]. unfold eofTok, lenZ in *. lia.
Qed.

Lemma grouped_levels start end_ :
  grouped toks open close start end_ →
  tokCharIs toks start open = true ∧ start + 1 < end_ ≤ eofTok toks ∧
  levels open close 0 (sublistZ toks (start + 1) (eofTok toks)) = Some (end_ - (start + 1)).
Proof.
  intros (H0 & He & a & l & c & Hl & Ha & Hn & Hcl).
  assert (start + 1 < end_) as Hlt.
  { assert (lenZ (sublistZ toks start end_) = lenZ (a :: l ++ [c])) as Hlen by by rewrite Hl.
    autorewrite with lenZ in Hlen. pose proof (lenZ_nonneg l). unfold sublistZ, lenZ in Hlen. rewrite length_take in Hlen.
    unfold lenZ in *. lia. }
  destruct (lookupZ_lt_is_Some toks start ltac:(lia)) as [a' Ha'].
  rewrite (sublistZ_cons _ _ _ a') in Hl by (done || lia). injection Hl as -> Hl.
  assert (toks !!z (end_ - 1) = Some c) as Hend.
  { assert (sublistZ toks (start + 1) end_ !!z lenZ l = Some c) as Hx.
    { rewrite Hl, lookupZ_app_r by lia. by rewrite Z.sub_diag. }
    assert (lenZ (sublistZ toks (start + 1) end_) = lenZ (l ++ [c])) as Hlen by by rewrite Hl.
    rewrite sublistZ_length in Hlen by lia. autorewrite with lenZ in Hlen.
    rewrite sublistZ_lookup in Hx by (pose proof (lenZ_nonneg l); lia). rewrite <- Hx. f_equal. lia. }
  assert (end_ - 1 < eofTok toks) as Hin.
  { eapply (tokCharIs_lt _ _ Hok (end_ - 1) close); [apply tokCharIs_true; eauto|apply br_close]. }
  split_and!; [apply tokCharIs_true; eauto|lia|lia|].
  rewrite (sublistZ_split _ _ end_) by (unfold eofTok in *; lia). rewrite Hl, <- app_assoc, nest_levels by (done || apply br_ne).
  simpl. rewrite Hcl, Z.eqb_refl, (proj2 (Z.eqb_neq close open)) by (symmetry; apply br_ne). simpl. f_equal.
  assert (lenZ (sublistZ toks (start + 1) end_) = lenZ (l ++ [c])) as Hlen by by rewrite Hl.
  rewrite sublistZ_length in Hlen by lia. autorewrite with lenZ in Hlen. lia.
Qed.

Lemma skipBalanced_grouped start end_ :
  grouped toks open close start end_ → skipBalanced toks start open close = Some end_.
Proof. intros (Hs & Hr & Hl)%grouped_levels. rewrite skipBalanced_levels, Hl by done. simpl. f_equal. lia. Qed.

Lemma levels_grouped start j :
  tokCharIs toks start open = true → levels open close 0 (sublistZ toks (start + 1) (eofTok toks)) = Some j →
  grouped toks open close start (start + 1 + j) ∧ start + 1 < start + 1 + j ≤ eofTok toks.
Proof.
  intros Hs (pre & c & post & Hl & -> & Hu & Hcc)%levels_unwinds. pose proof (tokCharIs_lt _ _ Hok _ _ Hs br_open) as Hr.
  apply tokCharIs_true in Hs as (a & Ha & Hao). pose proof (lenZ_nonneg pre). pose proof (lenZ_nonneg post).
  assert (lenZ (sublistZ toks (start + 1) (eofTok toks)) = lenZ (pre ++ c :: post)) as Hlen by by rewrite Hl.
  rewrite sublistZ_length in Hlen by (unfold eofTok in *; lia). autorewrite with lenZ in Hlen. split; [|lia].
  split_and!; [lia|unfold eofTok in *; lia|]. exists a, pre, c. inversion Hu; subst. split_and!; [|done..].
  rewrite (sublistZ_cons _ _ _ a) by (done || lia). f_equal.
  rewrite (sublistZ_split _ _ (start + 1 + (lenZ pre + 1))) in Hl by (unfold eofTok in *; lia).
  change (pre ++ c :: post) with (pre ++ [c] ++ post) in Hl. rewrite (app_assoc pre [c] post) in Hl. apply app_inj_1 in Hl as [Hl _]; [done|].
  pose proof (sublistZ_length toks (start + 1) (start + 1 + (lenZ pre + 1)) ltac:(lia) ltac:(lia) ltac:(unfold eofTok in *; lia)) as Hn.
  unfold lenZ in *. rewrite length_app. simpl. lia.
Qed.

(** The answer is a group, or nothing was skipped and there is none. *)
Lemma skipBalanced_spec start :
  ∃ r, skipBalanced toks start open close = Some r ∧
    ((r = start ∧ ∀ end_, ¬ grouped toks open close start end_) ∨
     (start + 1 < r ≤ eofTok toks ∧ grouped toks open close start r)).
Proof.
  destruct (tokCharIs toks start open) eqn:Hs.
  - rewrite skipBalanced_levels by done. eexists. split; [done|].
    destruct (levels open close 0 _) as [j|] eqn:Hl; simpl.
    + right. destruct (levels_grouped start j Hs Hl). done.
    + left. split; [done|]. intros end_ (_ & _ & Hl')%grouped_levels. congruence.
  - unfold skipBalanced. rewrite Hs. exists start. split; [done|]. left. split; [done|].
    intros end_ (Hs' & _)%grouped_levels. congruence.
Qed.

Lemma grouped_range start end_ : grouped toks open close start end_ → 0 ≤ start ∧ start + 1 < end_ ≤ eofTok toks.
Proof. intros Hg. pose proof (grouped_levels _ _ Hg) as (_ & ? & _). destruct Hg. lia. Qed.

Lemma grouped_chars start end_ :
  grouped toks open close start end_ → tokCharIs toks start open = true ∧ tokCharIs toks (end_ - 1) close = true.
Proof.
  intros Hg. pose proof (grouped_levels _ _ Hg) as (Hs & Hr & _). split; [done|].
  destruct Hg as (H0 & He & a & l & c & Hl & Ha & Hn & Hcl). apply tokCharIs_true. exists c. split; [|done].
  assert (sublistZ toks start end_ !!z lenZ (a :: l) = Some c) as Hx.
  { rewrite Hl, app_comm_cons, lookupZ_app_r by lia. by rewrite Z.sub_diag. }
  assert (lenZ (sublistZ toks start end_) = lenZ (a :: l ++ [c])) as Hlen by by rewrite Hl.
  rewrite sublistZ_length in Hlen by lia. autorewrite with lenZ in Hlen, Hx. pose proof (lenZ_nonneg l).
  rewrite sublistZ_lookup in Hx by lia. rewrite <- Hx. f_equal. lia.
Qed.
End balanced.

(** * Other loops *)

Section loops.
Context (src : list Z) (toks : list Token) (lineStarts : list Z) (Hok : toks_ok src toks).

Lemma skipSeparators_total fuel : ∀ start, 0 ≤ start → eofTok toks - start ≤ Z.of_nat fuel →
  ∃ r, skipSeparators toks fuel start = Some r ∧ start ≤ r ∧ (start ≤ eofTok toks → r ≤ eofTok toks).
Proof.
  induction fuel as [|fuel IH]; intros start Hs Hf; cbn [skipSeparators];
    destruct ((start <? lenZ toks) && tokCharIs toks start (chr ";")) eqn:Hc; try (exists start; split_and!; [done|lia|lia]).
  - apply andb_true_iff in Hc as [_ Hc]. pose proof (tokCharIs_lt _ _ Hok _ _ Hc ltac:(done)). lia.
  - apply andb_true_iff in Hc as [_ Hc]. pose proof (tokCharIs_lt _ _ Hok _ _ Hc ltac:(done)).
    destruct (IH (start + 1)) as (r & -> & Hr & Hle); [lia..|]. exists r. split_and!; [done|lia|lia].
Qed.

(** All skips over separators. *)
Lemma skip_total start : 0 ≤ start →
  ∃ r, skipSeparators toks (length toks) start = Some r ∧ start ≤ r ∧ (start ≤ eofTok toks → r ≤ eofTok toks).
Proof. intros. apply skipSeparators_total; [done|]. unfold eofTok, lenZ. lia. Qed.

Lemma textFrom_total txt : ∀ start, 0 ≤ start → start + lenZ txt ≤ lenZ src → ∃ b, textFrom src start txt = Some b.
Proof.
  induction txt as [|t txt IH]; intros start Hs He; [by exists true|]. cbn [textFrom]. rewrite lenZ_cons in He. pose proof (lenZ_nonneg txt).
  unfold byteIs. destruct (lookupZ_lt_is_Some src start ltac:(lia)) as [c ->]. cbn [mbind option_bind].
  destruct (t =? c); cbn [andO]; [apply IH; lia|eauto].
Qed.

Lemma tokenTextIs_total i t txt : toks !!z i = Some t → ∃ b, tokenTextIs src t txt = Some b.
Proof.
  intros Ht. pose proof (tok_span _ _ Hok _ _ Ht) as Hs. unfold tokenTextIs.
  destruct (Z.eqb_spec (t_End t - t_Start t) (lenZ txt)) as [He|]; simpl; [|eauto].
  rewrite (proj2 (Z.ltb_ge _ _)), (proj2 (Z.ltb_ge _ _)) by lia. simpl. apply textFrom_total; lia.
Qed.

Lemma newlineIn_total n : ∀ offset, 0 ≤ offset → offset + Z.of_nat n ≤ lenZ src → ∃ b, newlineIn src n offset = Some b.
Proof.
  induction n as [|n IH]; intros offset H0 Hn; [by exists false|]. cbn [newlineIn].
  destruct (lookupZ_lt_is_Some src offset ltac:(lia)) as [c ->]. cbn [mbind option_bind].
  destruct (c =? newline); [eauto|]. apply IH; lia.
Qed.
End loops.

(** Guards whose second part is total. *)
Lemma guard_and (b : bool) o : (b = true → ∃ x, o = Some x) → ∃ x, (Some b &&? o) = Some x ∧ (x = true → b = true ∧ o = Some true).
Proof. destruct b; intros H; [|by exists false]. destruct (H eq_refl) as [x ->]. exists x. split; [done|]. by intros ->. Qed.

Lemma guard_or (b : bool) o : (b = false → ∃ x, o = Some x) → ∃ x, (Some b ||? o) = Some x ∧ (x = false → b = false ∧ o = Some false).
Proof. destruct b; intros H; [by exists true|]. destruct (H eq_refl) as [x ->]. exists x. split; [done|]. by intros ->. Qed.
