(* ===== verification/SyntaxParseFacts.v ===== *)
(** The parser of declarations: what each part reads, and that none of them panics. *)

From Stdlib Require Import String Ascii Sorted.
From S2P Require Import Prelude.
From S2P Require Import GoInt.
From S2P Require Import SyntaxToken.
From S2P Require Import SyntaxLiteral.
From S2P Require Import SyntaxScan.
From S2P Require Import SyntaxGrammar.
From S2P Require Import SyntaxIdent.
From S2P Require Import SyntaxParse.
From S2P Require Import SyntaxTokens.

(** * Files *)

(** Entries one behind the other between [lo] and [hi]. *)
Fixpoint chain {A} (first last : A → Z) (lo hi : Z) (l : list A) : Prop :=
  match l with
  | [] => lo ≤ hi
  | d :: l => lo ≤ first d ∧ first d < last d ∧ chain first last (last d) hi l
  end.

Lemma chain_le {A} first last lo hi (l : list A) : chain first last lo hi l → lo ≤ hi.
Proof. revert lo. induction l as [|d l IH]; simpl; [done|]. intros lo (? & ? & ?%IH). lia. Qed.

Lemma chain_app {A} first last lo mid hi (l m : list A) :
  chain first last lo mid l → chain first last mid hi m → chain first last lo hi (l ++ m).
Proof.
  revert lo. induction l as [|d l IH]; intros lo; simpl.
  - intros Hle Hm. destruct m as [|d m]; simpl in *; [lia|]. destruct Hm as (? & ? & ?). split_and!; [lia|done|done].
  - intros (? & ? & Hl) Hm. split_and!; [done|done|by apply IH].
Qed.

Lemma chain_one {A} first last lo hi (d : A) : lo ≤ first d → first d < last d → last d ≤ hi → chain first last lo hi [d].
Proof. done. Qed.

Section shapes.
Context (toks : list Token).
Local Notation kindAt := (kindAt toks).
Local Notation grouped := (grouped toks).

Record import_ok (d : ImportDecl) : Prop := {
  io_path : kindAt (i_PathTok d) TokenString;
  io_end : i_EndTok d = i_PathTok d + 1;
  io_name : (i_NameTok d = -1 ∧ i_PathTok d = i_StartTok d) ∨
    (i_NameTok d = i_StartTok d ∧ i_PathTok d = i_StartTok d + 1 ∧
     (kindAt (i_NameTok d) TokenIdent ∨ tokCharIs toks (i_NameTok d) (chr ".") = true)) }.

Record decl_ok (d : TopDecl) : Prop := {
  do_kind : d_Kind d = TokenConst ∨ d_Kind d = TokenVar ∨ d_Kind d = TokenType;
  do_name : kindAt (d_NameTok d) TokenIdent;
  do_span : d_StartTok d ≤ d_NameTok d < d_EndTok d ∧ d_EndTok d ≤ eofTok toks;
  do_type : d_Kind d = TokenType → d_NameTok d = d_StartTok d }.

Record param_ok (p : TypeParameter) : Prop := {
  po_name : kindAt (p_NameTok p) TokenIdent;
  po_span : p_NameTok p < p_ConstraintStart p < p_ConstraintEnd p }.

Record generic_ok (g : TypeParamList) : Prop := {
  go_kind : l_Kind g = TokenType ∨ l_Kind g = TokenFunc;
  go_name : kindAt (l_NameTok g) TokenIdent;
  go_start : l_StartTok g = l_NameTok g + 1;
  go_group : grouped (chr "[") (chr "]") (l_StartTok g) (l_EndTok g);
  go_some : l_Parameters g ≠ [];
  go_params : Forall param_ok (l_Parameters g);
  go_ends : Forall (λ p, p_ConstraintEnd p < l_EndTok g) (l_Parameters g);
  go_order : chain p_NameTok (λ p, p_NameTok p + 1) (l_StartTok g + 1) (l_EndTok g - 1) (l_Parameters g) }.

(** The token behind the name: that of the parameters, or of the type parameters. *)
Record func_ok (fn : FuncDecl) : Prop := {
  fo_func : kindAt (fn_StartTok fn) TokenFunc;
  fo_name : kindAt (fn_NameTok fn) TokenIdent;
  fo_receiver : (fn_ReceiverStart fn = -1 ∧ fn_ReceiverEnd fn = -1 ∧ fn_NameTok fn = fn_StartTok fn + 1) ∨
    (fn_ReceiverStart fn = fn_StartTok fn + 2 ∧ fn_NameTok fn = fn_ReceiverEnd fn + 1 ∧
     grouped (chr "(") (chr ")") (fn_StartTok fn + 1) (fn_ReceiverEnd fn + 1));
  fo_params : grouped (chr "(") (chr ")") (fn_ParamsStart fn) (fn_ParamsEnd fn);
  fo_generic : fn_ParamsStart fn = fn_NameTok fn + 1 ∨
    (fn_ReceiverStart fn = -1 ∧ grouped (chr "[") (chr "]") (fn_NameTok fn + 1) (fn_ParamsStart fn));
  fo_result : fn_ParamsEnd fn = fn_ResultStart fn ∧ fn_ResultStart fn ≤ fn_ResultEnd fn;
  fo_body : (fn_BodyStart fn = -1 ∧ fn_BodyEnd fn = -1 ∧ fn_EndTok fn = fn_ResultEnd fn) ∨
    (fn_BodyStart fn = fn_ResultEnd fn ∧ fn_EndTok fn = fn_BodyEnd fn ∧
     grouped (chr "{") (chr "}") (fn_BodyStart fn) (fn_BodyEnd fn)) }.

(** The entries of a file between two tokens are well formed and in order. *)
Record entries_ok (lo hi : Z) (ims : list ImportDecl) (ds : list TopDecl) (fs : list FuncDecl) (gs : list TypeParamList) : Prop := {
  en_imports : chain i_StartTok i_EndTok lo hi ims;
  en_decls : chain d_NameTok (λ d, d_NameTok d + 1) lo hi ds;
  en_funcs : chain fn_StartTok fn_EndTok lo hi fs;
  en_generics : chain l_StartTok l_EndTok lo hi gs;
  en_import_ok : Forall import_ok ims;
  en_decl_ok : Forall decl_ok ds;
  en_func_ok : Forall func_ok fs;
  en_generic_ok : Forall generic_ok gs }.

Lemma entries_app lo mid hi ims ds fs gs ims' ds' fs' gs' :
  entries_ok lo mid ims ds fs gs → entries_ok mid hi ims' ds' fs' gs' →
  entries_ok lo hi (ims ++ ims') (ds ++ ds') (fs ++ fs') (gs ++ gs').
Proof. intros [] []. split; try (by eapply chain_app); by apply Forall_app. Qed.

Lemma entries_nil lo hi : lo ≤ hi → entries_ok lo hi [] [] [] [].
Proof. by split. Qed.

(** [f'] is [f] with entries between [lo] and [hi]. *)
Definition grown (lo hi : Z) (f f' : File) : Prop :=
  ∃ ims ds fs gs, entries_ok lo hi ims ds fs gs ∧
    f' = MkFile (f_Src f) (f_Tokens f) (f_PackageName f) (f_Imports f ++ ims) (f_Decls f ++ ds) (f_Funcs f ++ fs)
      (f_Generics f ++ gs) (f_HasInterfaceCandidates f) (f_Ok f) (f_Error f) (f_ErrorTok f).

Lemma grown_refl lo hi f : lo ≤ hi → grown lo hi f f.
Proof. intros. exists [], [], [], []. split; [by apply entries_nil|]. rewrite !app_nil_r. by destruct f. Qed.

Lemma grown_trans lo mid hi f f1 f2 : grown lo mid f f1 → grown mid hi f1 f2 → grown lo hi f f2.
Proof.
  intros (ims & ds & fs & gs & He & ->) (ims' & ds' & fs' & gs' & He' & ->).
  exists (ims ++ ims'), (ds ++ ds'), (fs ++ fs'), (gs ++ gs'). split; [by eapply entries_app|]. simpl. by rewrite !app_assoc.
Qed.

Lemma grown_weaken lo mid hi hi' f f' : grown mid hi f f' → lo ≤ mid → hi ≤ hi' → grown lo hi' f f'.
Proof.
  intros Hg Hlo Hhi. eapply (grown_trans _ mid); [by apply grown_refl|]. eapply grown_trans; [done|]. by apply grown_refl.
Qed.

Lemma grown_le lo hi f f' : grown lo hi f f' → lo ≤ hi.
Proof. intros (ims & ds & fs & gs & [H _ _ _ _ _ _ _] & _). by eapply chain_le. Qed.

Lemma grown_import lo hi d f :
  import_ok d → lo ≤ i_StartTok d → i_StartTok d < i_EndTok d → i_EndTok d ≤ hi → grown lo hi f (addImport d f).
Proof.
  intros Hd Hlo Hlt Hhi. exists [d], [], [], []. split; [|by rewrite !app_nil_r].
  split; simpl; try lia; try done. by apply list.Forall_singleton.
Qed.

Lemma grown_decl lo hi d f : decl_ok d → lo ≤ d_NameTok d → d_NameTok d < hi → grown lo hi f (addDecl d f).
Proof.
  intros Hd Hlo Hhi. exists [], [d], [], []. split; [|by rewrite !app_nil_r].
  split; simpl; try lia; try done. by apply list.Forall_singleton.
Qed.

Lemma grown_func lo hi d f :
  func_ok d → lo ≤ fn_StartTok d → fn_StartTok d < fn_EndTok d → fn_EndTok d ≤ hi → grown lo hi f (addFunc d f).
Proof.
  intros Hd Hlo Hlt Hhi. exists [], [], [d], []. split; [|by rewrite !app_nil_r].
  split; simpl; try lia; try done. by apply list.Forall_singleton.
Qed.

Lemma grown_generic lo hi d f :
  generic_ok d → lo ≤ l_StartTok d → l_StartTok d < l_EndTok d → l_EndTok d ≤ hi → grown lo hi f (addGeneric d f).
Proof.
  intros Hd Hlo Hlt Hhi. exists [], [], [], [d]. split; [|by rewrite !app_nil_r].
  split; simpl; try lia; try done. by apply list.Forall_singleton.
Qed.

(** What a function answers that reads from [lo] on: the next token and whether it is
    well formed. *)
Definition reads (lo : Z) (f : File) (r : Z * bool) (f' : File) : Prop :=
  grown lo (eofTok toks) f f' ∧ (r.2 = true → lo < r.1 ≤ eofTok toks ∧ grown lo r.1 f f').
End shapes.

Section parser.
Context (src : list Z) (toks : list Token) (lineStarts : list Z) (Hok : toks_ok src toks).
Local Notation eofTok := (eofTok toks).
Local Notation kindAt := (kindAt toks).
Local Notation grown := (grown toks).
Local Notation reads := (reads toks).

(** The guard before a token of some kind. *)
Lemma kind_guard i k : 0 ≤ i →
  ∃ bad, (Some (lenZ toks <=? i) ||? kindIs toks i (λ x, negb (x =? k))) = Some bad ∧ (bad = false → kindAt i k).
Proof.
  intros Hi. destruct (guard_or (lenZ toks <=? i) (kindIs toks i (λ x, negb (x =? k)))) as (bad & -> & Hbad).
  - intros Hle%Z.leb_gt. apply (kindIs_total toks). unfold eofTok. lia.
  - exists bad. split; [done|]. intros [_ H]%Hbad. by eapply kindIs_neqb.
Qed.

(** ** Ends of declarations *)

Lemma insertsSemicolon_total i : 0 ≤ i ≤ eofTok → ∃ b, insertsSemicolon src toks i = Some b.
Proof.
  intros Hi. destruct (tok_at toks i Hi) as [t Ht]. unfold insertsSemicolon. rewrite Ht. cbn [mbind option_bind]. cbv zeta.
  case_match; [eauto|]. case_match; [|eauto].
  destruct (tokenTextIs_total src toks Hok i t (text "++") Ht) as [a ->], (tokenTextIs_total src toks Hok i t (text "--") Ht) as [b ->].
  unfold orO. repeat case_match; eauto.
Qed.

Lemma endsDecl_total start i : 0 ≤ start → i ≤ eofTok → ∃ b, endsDecl src toks lineStarts start i = Some b.
Proof.
  intros Hs Hi. unfold endsDecl. destruct (Z.ltb_spec start i); [|eauto].
  destruct (lineAt_total toks lineStarts i ltac:(lia)) as [a ->], (lineAt_total toks lineStarts (i - 1) ltac:(lia)) as [b ->].
  cbn [mbind option_bind]. destruct (guard_and (negb (a =? b)) (insertsSemicolon src toks (i - 1))) as (x & -> & _).
  { intros _. apply insertsSemicolon_total. lia. }
  cbn [mbind option_bind]. destruct x; [|eauto].
  destruct (tok_at toks i ltac:(lia)) as [t Ht], (tok_at toks (i - 1) ltac:(lia)) as [prev Hprev]. rewrite Ht, Hprev. cbn [mbind option_bind].
  pose proof (tok_span _ _ Hok _ _ Ht). pose proof (tok_span _ _ Hok _ _ Hprev).
  destruct (decide (t_End prev ≤ t_Start t)); [apply newlineIn_total; lia|].
  replace (Z.to_nat (t_Start t - t_End prev)) with 0%nat by lia. by exists false.
Qed.

Lemma declEnd_total grp start : 0 ≤ start → ∀ fuel i d, start ≤ i ≤ eofTok → eofTok - i ≤ Z.of_nat fuel →
  ∃ end_ next ok, declEnd src toks lineStarts fuel start grp i d = Some (end_, next, ok) ∧
    (ok = true → i ≤ end_ ≤ next ∧ next ≤ eofTok).
Proof.
  intros Hs fuel. induction fuel as [|fuel IH]; intros i d Hi Hf; cbn [declEnd]; rewrite (more_spec src) by (done || lia);
    cbn [mbind option_bind]; destruct (Z.ltb_spec i eofTok) as [Hlt|Hge]; try lia;
    try (destruct (negb (atTop d)); eexists _, _, _; (split; [done|]); [done|lia]).
  destruct (tok_at toks i ltac:(lia)) as [t ->]. cbn [mbind option_bind]. cbv zeta.
  destruct (atTop d && grp && _); [eexists _, _, _; split; [done|lia]|].
  destruct (atTop d && _); [eexists _, _, _; split; [done|lia]|].
  destruct (guard_and (atTop d) (endsDecl src toks lineStarts start i)) as (x & -> & _); [intros _; apply endsDecl_total; lia|].
  cbn [mbind option_bind]. destruct x; [eexists _, _, _; split; [done|lia]|].
  destruct (enter (tokenChar t) d) as [d'|].
  - destruct (IH (i + 1) d') as (e & nx & k & -> & Hk); [lia..|]. eexists _, _, _. split; [done|]. intros ?%Hk. lia.
  - destruct (_ && _ && _ && _); eexists _, _, _; (split; [done|]); [lia|done].
Qed.

Lemma skipDeclSpec_total start grp : 0 ≤ start ≤ eofTok →
  ∃ end_ next ok, skipDeclSpec src toks lineStarts start grp = Some (end_, next, ok) ∧
    (ok = true → start ≤ end_ ≤ next ∧ next ≤ eofTok).
Proof. intros Hs. apply declEnd_total; [lia..|]. unfold SyntaxTokens.eofTok, lenZ. lia. Qed.

(** ** Bodies of functions *)

Lemma startsDecl_total i : 0 ≤ i ≤ eofTok → ∃ b, startsDecl toks i = Some b.
Proof.
  intros Hi. destruct (tok_at toks i Hi) as [t Ht]. unfold startsDecl. rewrite Ht. cbn [mbind option_bind]. cbv zeta.
  destruct (guard_or ((tokenKind t =? TokenConst) || (tokenKind t =? TokenVar) || (tokenKind t =? TokenType) || (tokenKind t =? TokenImport))
    (Some (tokenKind t =? TokenFunc) &&? Some (i + 1 <? lenZ toks) &&? kindIs toks (i + 1) (Z.eqb TokenIdent))) as (x & Hx & _); [|by exists x].
  intros _. destruct (tokenKind t =? TokenFunc); [|eauto]. cbn [andO].
  destruct (Z.ltb_spec (i + 1) (lenZ toks)); cbn [andO]; [|eauto]. apply (kindIs_total toks). unfold SyntaxTokens.eofTok in *. lia.
Qed.

(** What [findFuncBody] answers. *)
Definition body_at (i : Z) (r : Z * Z) : Prop :=
  (r.1 = -1 ∧ (r.2 = -1 ∨ i ≤ r.2 ≤ eofTok)) ∨ (i ≤ r.1 < eofTok ∧ tokCharIs toks r.1 (chr "{") = true).

Lemma body_at_weaken i j r : body_at j r → i ≤ j → body_at i r.
Proof. unfold body_at. intuition lia. Qed.

Lemma findBody_total start : 1 ≤ start → ∀ fuel i, start ≤ i ≤ eofTok → eofTok - i ≤ Z.of_nat fuel →
  ∃ r, findBody toks lineStarts fuel start i = Some r ∧ body_at i r.
Proof.
  intros Hs fuel. induction fuel as [|fuel IH]; intros i Hi Hf; cbn [findBody]; rewrite (more_spec src) by (done || lia);
    cbn [mbind option_bind]; destruct (Z.ltb_spec i eofTok) as [Hlt|Hge]; try lia.
  1, 3: assert (i = eofTok) as -> by lia; destruct (tok_at toks eofTok ltac:(lia)) as [t Ht];
    rewrite (proj2 (Z.ltb_lt _ _)), (kindIs_at _ _ _ _ Ht) by (unfold SyntaxTokens.eofTok; lia); cbn [andO mbind option_bind];
    rewrite (proj2 (tok_kind _ _ Hok _ _ Ht)) by done; eexists; (split; [done|]); left; simpl; lia.
  assert (∀ open close, Brackets open close → ∃ r,
    (next ← skipBalanced toks i open close; if next <=? i then Some (-1, -1) else findBody toks lineStarts fuel start next) = Some r ∧
    body_at i r) as Hskip.
  { intros open close Hbr. destruct (skipBalanced_spec _ _ Hok open close i) as (r & -> & Hr). cbn [mbind option_bind].
    destruct (Z.leb_spec r i); [eexists; split; [done|]; left; simpl; lia|].
    destruct (IH r) as (r' & -> & Hr'); [lia..|]. exists r'. split; [done|]. eapply body_at_weaken; [done|lia]. }
  destruct (tokCharIs toks i (chr ";")); [eexists; split; [done|]; left; simpl; lia|].
  destruct (tokCharIs toks i (chr "(")); [apply Hskip, _|]. destruct (tokCharIs toks i (chr "[")); [apply Hskip, _|].
  destruct (tokCharIs toks i (chr "{")) eqn:Hbrace.
  - destruct (guard_and (0 <? i) (kindIs toks (i - 1) (λ k, (k =? TokenStruct) || (k =? TokenInterface)))) as (x & -> & _).
    { intros ?. apply (kindIs_total toks). lia. }
    cbn [mbind option_bind]. destruct x; [apply Hskip, _|]. eexists. split; [done|]. right. simpl. split; [lia|done].
  - cbv zeta. set (previous := if start <? i then _ else _).
    assert (0 ≤ previous ≤ eofTok) as Hp by (unfold previous; case_match; lia).
    destruct (lineAt_total toks lineStarts i ltac:(lia)) as [a ->], (lineAt_total toks lineStarts previous Hp) as [b ->].
    cbn [mbind option_bind]. destruct (guard_and (b <? a) (startsDecl toks i)) as (x & -> & _).
    { intros _. apply startsDecl_total. lia. }
    cbn [mbind option_bind]. destruct x; [eexists; split; [done|]; left; simpl; lia|].
    destruct (IH (i + 1)) as (r & -> & Hr); [lia..|]. exists r. split; [done|]. eapply body_at_weaken; [done|lia].
Qed.

Lemma findFuncBody_total start : 1 ≤ start ≤ eofTok → ∃ r, findFuncBody toks lineStarts start = Some r ∧ body_at start r.
Proof. intros Hs. apply findBody_total; [lia..|]. unfold SyntaxTokens.eofTok, lenZ. lia. Qed.

(** ** Type parameters *)

Lemma closing_spec open : closing open ≠ 0 → Brackets open (closing open).
Proof.
  unfold closing. destruct (Z.eqb_spec open (chr "{")) as [->|]; [by split|]. destruct (Z.eqb_spec open (chr "(")) as [->|]; [by split|].
  by destruct (Z.eqb_spec open (chr "[")) as [->|].
Qed.

Lemma constraintEnd_total end_ fuel : end_ ≤ eofTok → ∀ i, 0 ≤ i ≤ end_ - 1 → end_ - i ≤ Z.of_nat fuel →
  ∃ r, constraintEnd toks fuel end_ i = Some r ∧ ∀ j, r = Some j → i ≤ j ≤ end_ - 1.
Proof.
  intros He. induction fuel as [|fuel IH]; intros i Hi Hf; cbn [constraintEnd]; [lia|].
  destruct (Z.ltb_spec i (end_ - 1)); simpl; [|exists (Some i); split; [done|]; intros j [= <-]; lia].
  destruct (tokCharIs toks i (chr ",")); simpl; [exists (Some i); split; [done|]; intros j [= <-]; lia|].
  destruct (tokCharIs toks i (chr ";")); [by exists None|].
  destruct (tok_at toks i ltac:(lia)) as [t ->]. cbn [mbind option_bind]. cbv zeta.
  destruct (Z.eqb_spec (closing (tokenChar t)) 0) as [|Hcl]; simpl.
  - destruct (IH (i + 1)) as (r & -> & Hr); [lia..|]. exists r. split; [done|]. intros j ?%Hr. lia.
  - pose proof (closing_spec _ Hcl). destruct (skipBalanced_spec _ _ Hok (tokenChar t) (closing (tokenChar t)) i) as (r & -> & Hr). cbn [mbind option_bind].
    destruct (Z.leb_spec r i); simpl; [by exists None|]. destruct (Z.ltb_spec (end_ - 1) r); [by exists None|].
    destruct (IH r) as (r' & -> & Hr'); [lia..|]. exists r'. split; [done|]. intros j ?%Hr'. lia.
Qed.

(** Names and parameters that lie between [lo] and [i]. *)
Definition params_in (lo i : Z) (pending : list Z) (params : list TypeParameter) : Prop :=
  ∃ mid, chain p_NameTok (λ p, p_NameTok p + 1) lo mid params ∧
    chain (λ name : Z, name) (λ name, name + 1) mid i pending ∧
    Forall (param_ok toks) params ∧ Forall (λ p, p_ConstraintEnd p ≤ i) params ∧ Forall (λ name, kindAt name TokenIdent) pending.

Lemma params_pending lo i j pending params :
  params_in lo i pending params → i < j →
  params_in lo j [] (params ++ ((λ name, MkTypeParameter name i j) <$> pending)).
Proof.
  intros (mid & Hps & Hpe & Hok1 & Hle & Hid) Hj. exists i. split_and!.
  - eapply chain_app; [done|]. clear -Hpe. revert mid Hpe. induction pending as [|p l IH]; intros mid; simpl; [done|].
    intros (? & ? & Hl). split_and!; [done|lia|by apply IH].
  - simpl. lia.
  - apply Forall_app. split; [done|]. apply Forall_fmap. clear -Hpe Hid Hj. revert mid Hpe.
    induction Hid as [|p l Hp _ IH]; intros mid; simpl; [done|]. intros (? & ? & Hl). constructor; [|by eapply IH].
    apply chain_le in Hl. split; simpl; [done|lia].
  - apply Forall_app. split; [eapply Forall_impl; [done|]; simpl; lia|]. apply Forall_fmap, Forall_true. simpl. lia.
  - done.
Qed.

Lemma typeParams_total lo end_ fuel : end_ ≤ eofTok → 0 ≤ lo → ∀ i pending params, lo ≤ i ≤ end_ →
  end_ - i ≤ Z.of_nat fuel → i ≤ end_ - 1 ∨ pending ≠ [] → params_in lo i pending params →
  ∃ r, typeParams toks fuel end_ i pending params = Some r ∧
    ∀ ps, r = Some ([], ps) → params_in lo (end_ - 1) [] ps.
Proof.
  intros He Hlo. induction fuel as [|fuel IH]; intros i pending params Hi Hf Hor Hin; cbn [typeParams];
    destruct (Z.ltb_spec i (end_ - 1)) as [Hlt|Hge]; try lia.
  1, 3: eexists; split; [done|]; intros ps [= -> ->]; assert (i = end_ - 1) as -> by (destruct Hor; [lia|done]); done.
  destruct (kindIs_total toks i (Z.eqb TokenIdent) ltac:(lia)) as [b Hb]. rewrite Hb. cbn [mbind option_bind].
  destruct b; simpl; [|by exists None]. pose proof (kindIs_eqb _ _ _ _ Hb eq_refl) as Hid.
  assert (params_in lo (i + 1) (pending ++ [i]) params) as Hin'.
  { destruct Hin as (mid & Hps & Hpe & H1 & H2 & H3). exists mid. split_and!; [done| |done| |].
    - eapply chain_app; [done|]. apply chain_one; lia.
    - eapply Forall_impl; [done|]. simpl. lia.
    - apply Forall_app. split; [done|]. by apply list.Forall_singleton. }
  destruct (tokCharIs toks (i + 1) (chr ",")).
  - apply IH; [lia|lia| |].
    + right. by destruct pending.
    + destruct Hin' as (mid & Hps & Hpe & H1 & H2 & H3). exists mid. split_and!; [done| |done| |done].
      * rewrite <- (app_nil_r (pending ++ [i])). eapply chain_app; [done|]. simpl. lia.
      * eapply Forall_impl; [done|]. simpl. lia.
  - destruct (constraintEnd_total end_ (length toks) He (i + 1)) as (r & -> & Hr); [lia|unfold SyntaxTokens.eofTok, lenZ in *; lia|].
    cbn [mbind option_bind]. destruct r as [j|]; [|by exists None]. specialize (Hr j eq_refl).
    destruct (Z.eqb_spec j (i + 1)); [by exists None|].
    pose proof (params_pending lo (i + 1) j _ _ Hin' ltac:(lia)) as Hin''.
    destruct (Z.ltb_spec j (end_ - 1)).
    + apply IH; [lia|lia|left; lia|]. destruct Hin'' as (mid & Hps & Hpe & H1 & H2 & H3). exists mid. split_and!; [done| |done| |done].
      * simpl in *. lia.
      * eapply Forall_impl; [done|]. simpl. lia.
    + apply IH; [lia|lia|left; lia|done].
Qed.

Lemma parameterSigns_total last fuel : last ≤ eofTok → ∀ second i depth, 0 ≤ i → last - i ≤ Z.of_nat fuel →
  ∃ b, parameterSigns toks fuel second last i depth = Some b.
Proof.
  intros He. induction fuel as [|fuel IH]; intros second i depth Hi Hf; cbn [parameterSigns];
    destruct (Z.ltb_spec i last); try lia; try by eexists.
  destruct (tok_at toks i ltac:(lia)) as [t ->]. cbn [mbind option_bind]. cbv zeta.
  do 3 (case_match; [by eexists|]). apply IH; lia.
Qed.

Lemma typeDeclarationHasParameters_total start end_ : 0 ≤ start →
  ∃ b, typeDeclarationHasParameters toks start end_ = Some b ∧
    (b = true → start + 2 < end_).
Proof.
  intros Hs. unfold typeDeclarationHasParameters.
  destruct (guard_or (negb (tokCharIs toks start (chr "[")) || (end_ <=? start + 2)) (kindIs toks (start + 1) (λ k, negb (k =? TokenIdent))))
    as (none & -> & Hnone).
  { intros [Hc%negb_false_iff _]%orb_false_iff. apply (kindIs_total toks). pose proof (tokCharIs_lt _ _ Hok _ _ Hc ltac:(done)). lia. }
  cbn [mbind option_bind]. destruct none; [by exists false|]. destruct (Hnone eq_refl) as [[_ He%Z.leb_gt]%orb_false_iff _].
  destruct (skipBalanced_spec _ _ Hok (chr "[") (chr "]") start) as (r & -> & Hr). cbn [mbind option_bind].
  destruct (Z.leb_spec r (start + 3)); [by exists false|]. destruct Hr as [[-> _]|[Hr Hg]]; [lia|].
  destruct (kindIs_total toks (start + 2) (Z.eqb TokenIdent) ltac:(lia)) as [b ->]. cbn [mbind option_bind].
  destruct b; [by exists true|].
  destruct (parameterSigns_total (r - 1) (length toks) ltac:(lia) (start + 2) (start + 2) 0) as [b ->]; [lia| |].
  { unfold SyntaxTokens.eofTok, lenZ in *. lia. }
  by exists b.
Qed.

Lemma parseTypeParamList_spec name start kind f :
  kindAt name TokenIdent → start = name + 1 → kind = TokenType ∨ kind = TokenFunc →
  wp False (parseTypeParamList toks name start kind) (λ r f',
    (r.2 = false → f' = f) ∧
    (r.2 = true → ∃ g, f' = addGeneric g f ∧ generic_ok toks g ∧ l_StartTok g = start ∧ l_EndTok g = r.1)) f.
Proof.
  intros Hname -> Hkind. pose proof (kindAt_range _ _ _ Hname) as Hr. unfold parseTypeParamList. wp_step.
  destruct (skipBalanced_spec _ _ Hok (chr "[") (chr "]") (name + 1)) as (end_ & Hskip & Hend).
  eapply wp_lift; [done|]. destruct (Z.leb_spec end_ (name + 1 + 2)); [by wp_step|]. destruct Hend as [[-> _]|[Hend Hg]]; [lia|].
  wp_step. destruct (typeParams_total (name + 1 + 1) end_ (length toks) ltac:(lia) ltac:(lia) (name + 1 + 1) [] []) as (r & Hrun & Hps).
  { lia. } { unfold SyntaxTokens.eofTok, lenZ in *. lia. } { left. lia. }
  { exists (name + 1 + 1). split_and!; simpl; done || lia. }
  eapply wp_lift; [done|]. destruct r as [[[|] [|p params]]|]; try by wp_step.
  destruct (Hps _ eq_refl) as (mid & Hch & Hmid & Hpok & Hle & _).
  assert (chain p_NameTok (λ p, p_NameTok p + 1) (name + 1 + 1) (end_ - 1) (p :: params)) as Hch'.
  { rewrite <- (app_nil_r (p :: params)). by eapply chain_app. }
  wp_step. wp_step. wp_step. split; [done|]. intros _. eexists. split; [done|]. split; [|done].
  split; cbn [l_Kind l_NameTok l_StartTok l_EndTok l_Parameters]; try done.
  eapply Forall_impl; [done|]. simpl. lia.
Qed.

(** ** Imports *)

(** A malformed part that left the file as it was. *)
Lemma reads_fail lo f tok : lo ≤ eofTok → reads lo f (tok, false) f.
Proof. intros. split; [by apply grown_refl|done]. Qed.

Lemma reads_ok lo next f f' : lo < next ≤ eofTok → grown lo next f f' → reads lo f (next, true) f'.
Proof. intros Hn Hg. split; [by eapply grown_weaken; [done|lia|lia]|]. by split. Qed.

Lemma importEnd_total pathTok grp : 0 ≤ pathTok ≤ eofTok →
  ∃ r, importEnd toks lineStarts pathTok (pathTok + 1) grp = Some r ∧
    ∀ next, r = Some next → pathTok < eofTok → pathTok < next ≤ eofTok.
Proof.
  intros Hp. unfold importEnd. rewrite (more_spec src) by (done || lia). cbn [mbind option_bind].
  destruct (Z.ltb_spec (pathTok + 1) eofTok); [|exists (Some (pathTok + 1)); split; [done|]; intros ? [= <-]; lia].
  destruct (tokCharIs toks (pathTok + 1) (chr ";")); [exists (Some (pathTok + 1 + 1)); split; [done|]; intros ? [= <-]; lia|].
  destruct (grp && _); [exists (Some (pathTok + 1)); split; [done|]; intros ? [= <-]; lia|].
  destruct (lineAt_total toks lineStarts (pathTok + 1) ltac:(lia)) as [a ->], (lineAt_total toks lineStarts pathTok ltac:(lia)) as [b ->].
  cbn [mbind option_bind]. eexists. split; [done|]. intros next. destruct (negb _); [|done]. intros [= <-]. lia.
Qed.

Lemma isImportName_total i : 0 ≤ i ≤ eofTok → ∃ b, isImportName toks i = Some b ∧
  (b = true → kindAt i TokenIdent ∨ tokCharIs toks i (chr ".") = true).
Proof.
  intros Hi. unfold isImportName. rewrite (proj2 (Z.ltb_ge i 0)), (proj2 (Z.leb_gt _ _)) by (unfold SyntaxTokens.eofTok in *; lia). simpl.
  destruct (kindIs_total toks i (Z.eqb TokenIdent) Hi) as [b Hb]. rewrite Hb. destruct b; simpl.
  - exists true. split; [done|]. left. by eapply kindIs_eqb.
  - eexists. split; [done|]. by right.
Qed.

Lemma parseImportSpec_spec start grp f : 0 ≤ start ≤ eofTok →
  wp False (parseImportSpec toks lineStarts start grp) (reads start f) f.
Proof.
  intros Hs. unfold parseImportSpec. rewrite (proj2 (Z.leb_gt _ _)) by (unfold SyntaxTokens.eofTok in *; lia).
  destruct (kindIs_total toks start (Z.eqb TokenString) Hs) as [b Hb]. wp_step. eapply wp_lift; [done|]. wp_step.
  destruct (isImportName_total start Hs) as (nm & Hnm & Hname).
  assert (∃ named : bool, (if negb b then lift (isImportName toks start) else mret false) f = Some (named, f) ∧
    (named = true → kindAt start TokenIdent ∨ tokCharIs toks start (chr ".") = true)) as (named & Hrun & Hnamed).
  { destruct b; [by exists false|]. exists nm. by rewrite Hnm. }
  unfold wp at 1. rewrite Hrun.
  set (sp := if named then (start, start + 1) else (-1, start)).
  assert (start ≤ sp.2 ≤ start + 1) as Hsp by (unfold sp; destruct named; simpl; lia).
  destruct sp as [nameTok pathTok] eqn:He. simpl in Hsp. unfold sp in He.
  destruct (kind_guard pathTok TokenString ltac:(lia)) as (bad & Hbad & Hpath). wp_step. eapply wp_lift; [done|].
  destruct bad; [wp_step; apply reads_fail; lia|]. specialize (Hpath eq_refl). pose proof (kindAt_lt _ _ Hok _ _ Hpath ltac:(done)) as Hlt.
  destruct (importEnd_total pathTok grp ltac:(lia)) as (r & Hr & Hnext). wp_step. eapply wp_lift; [done|].
  destruct r as [next|]; [|wp_step; apply reads_fail; lia]. specialize (Hnext next eq_refl ltac:(lia)). repeat wp_step.
  apply reads_ok; [lia|]. apply grown_import; simpl; try lia. split; simpl; [done|done|].
  destruct named; injection He as <- <-; [right|by left]. split_and!; [done|done|]. by apply Hnamed.
Qed.

(** The loop over a group in parentheses. *)
Lemma group_spec skip spec fuel :
  (∀ i, 0 ≤ i ≤ eofTok → ∃ r, skip i = Some r ∧ i ≤ r ≤ eofTok) →
  (∀ i f, 0 ≤ i ≤ eofTok → wp False (spec i) (reads i f) f) →
  ∀ i f, 0 ≤ i ≤ eofTok → eofTok - i ≤ Z.of_nat fuel →
  wp False (group toks fuel skip spec i) (λ r f', grown i eofTok f f' ∧ ∀ next, r = Some next → i < next ≤ eofTok ∧ grown i next f f') f.
Proof.
  intros Hskip Hspec. induction fuel as [|fuel IH]; intros i f Hi Hf; cbn [group]; wp_step;
    (eapply wp_lift; [apply (more_spec src); [done|lia]|]); destruct (Z.ltb_spec i eofTok); try lia;
    try (wp_step; split; [apply grown_refl; lia|done]).
  destruct (Hskip i Hi) as (j & Hj & Hij). wp_step. eapply wp_lift; [done|].
  destruct (tokCharIs toks j (chr ")")) eqn:Hc.
  { pose proof (tokCharIs_lt _ _ Hok _ _ Hc ltac:(done)). wp_step. split; [apply grown_refl; lia|].
    intros next [= <-]. split; [lia|]. apply grown_refl. lia. }
  wp_step. eapply wp_conseq; [apply Hspec; lia|]. intros [next ok] f1 [Hg Hg1]. simpl in Hg1. destruct ok; simpl.
  - destruct (Hg1 eq_refl) as [Hn Hg2]. eapply wp_conseq; [apply IH; lia|]. intros r f2 [Hg3 Hr]. split.
    + eapply (grown_weaken _ i j); [by eapply grown_trans|lia|lia].
    + intros next' Hn'. destruct (Hr _ Hn') as [H1 H2]. split; [lia|]. eapply (grown_weaken _ i j); [by eapply grown_trans|lia|lia].
  - wp_step. split; [|done]. by eapply grown_weaken; [done|lia|lia].
Qed.

(** A declaration of one specification, or of a group of them. *)
Lemma grouped_decl_spec skip (spec : Z → bool → GoM File (Z * bool)) start f :
  (∀ i, 0 ≤ i ≤ eofTok → ∃ r, skip i = Some r ∧ i ≤ r ≤ eofTok) →
  (∀ i g f, 0 ≤ i ≤ eofTok → wp False (spec i g) (reads i f) f) →
  0 ≤ start < eofTok →
  wp False (if tokCharIs toks (start + 1) (chr "(") then
      r ← group toks (length toks) skip (λ i, spec i true) (start + 1 + 1);
      mret (match r with Some next => (next, true) | None => (start, false) end)
    else
      '(next, ok) ← spec (start + 1) false;
      mret (if negb ok then (start, false) else (next, true))) (reads start f) f.
Proof.
  intros Hskip Hspec Hs. destruct (tokCharIs toks (start + 1) (chr "(")) eqn:Hc; wp_step.
  - pose proof (tokCharIs_lt _ _ Hok _ _ Hc ltac:(done)). eapply wp_conseq.
    { apply group_spec; [done|intros; by apply Hspec|lia|unfold SyntaxTokens.eofTok, lenZ; lia]. }
    intros r f1 [Hg Hr]. wp_step. destruct r as [next|].
    + destruct (Hr next eq_refl). apply reads_ok; [lia|]. by eapply grown_weaken; [done|lia|lia].
    + split; [|done]. by eapply grown_weaken; [done|lia|lia].
  - eapply wp_conseq; [apply Hspec; lia|]. intros [next ok] f1 [Hg Hg1]. simpl in Hg1. wp_step. destruct ok; simpl.
    + destruct (Hg1 eq_refl). apply reads_ok; [lia|]. by eapply grown_weaken; [done|lia|lia].
    + split; [|done]. by eapply grown_weaken; [done|lia|lia].
Qed.

Lemma skip_in i : 0 ≤ i ≤ eofTok → ∃ r, skipSeparators toks (length toks) i = Some r ∧ i ≤ r ≤ eofTok.
Proof. intros Hi. destruct (skip_total src toks Hok i ltac:(lia)) as (r & Hr & H1 & H2). exists r. split; [done|lia]. Qed.

Lemma parseImportDecl_spec start f : 0 ≤ start < eofTok →
  wp False (parseImportDecl toks lineStarts start) (reads start f) f.
Proof.
  intros Hs. apply (grouped_decl_spec (skipImportSeparators toks) (parseImportSpec toks lineStarts)); [exact skip_in| |done].
  intros i g f' Hi. by apply parseImportSpec_spec.
Qed.

(** ** Constants, variables, types *)

Lemma declNames_spec kind start end_ fuel : kind = TokenConst ∨ kind = TokenVar →
  0 ≤ start → end_ ≤ eofTok → ∀ i f, start < i → eofTok - i ≤ Z.of_nat fuel → i ≤ end_ →
  wp False (declNames toks fuel kind start end_ i) (λ _ f', grown i end_ f f') f.
Proof.
  intros Hk Hs He. induction fuel as [|fuel IH]; intros i f Hi Hf Hle; cbn [declNames];
    destruct (tokCharIs toks i (chr ",")) eqn:Hc; try (wp_step; apply grown_refl; lia);
    pose proof (tokCharIs_lt _ _ Hok _ _ Hc ltac:(done)); [lia|].
  destruct (kind_guard (i + 1) TokenIdent ltac:(lia)) as (bad & Hbad & Hid). wp_step.
  rewrite Hbad. destruct bad; cbn [orO]; (eapply wp_lift; [done|]); cbv beta iota; [wp_step; apply grown_refl; lia|].
  destruct (Z.leb_spec end_ (i + 1)); [wp_step; apply grown_refl; lia|]. specialize (Hid eq_refl).
  do 2 wp_step. eapply wp_conseq; [apply IH; lia|]. intros ? f1 Hg. eapply grown_trans; [|exact Hg].
  apply grown_decl; simpl; [|lia|lia]. split; simpl; [tauto|done|lia|]. intros ->. by destruct Hk.
Qed.

Lemma enter_brackets c d d' : enter c d = Some d' →
  bracketDepth d' = if c =? chr "[" then bracketDepth d + 1 else if c =? chr "]" then bracketDepth d - 1 else bracketDepth d.
Proof.
  destruct d as [p b e]. unfold enter.
  destruct (Z.eqb_spec c (chr "(")) as [->|]; [by intros [= <-]|].
  destruct (Z.eqb_spec c (chr ")")) as [->|]; [destruct (p =? 0); [done|by intros [= <-]]|].
  destruct (c =? chr "["); [by intros [= <-]|]. destruct (c =? chr "]"); [destruct (b =? 0); [done|by intros [= <-]]|].
  destruct (c =? chr "{"); [by intros [= <-]|]. destruct (c =? chr "}"); [destruct (e =? 0); [done|]|]; by intros [= <-].
Qed.

(** Behind an opening bracket, a declaration does not end before the bracket is closed. *)
Lemma declEnd_past grp start fuel : 0 ≤ start → ∀ i d k j end_ next, start ≤ i ≤ eofTok → eofTok - i ≤ Z.of_nat fuel →
  declEnd src toks lineStarts fuel start grp i d = Some (end_, next, true) → Z.of_nat k < bracketDepth d →
  levels (chr "[") (chr "]") k (sublistZ toks i eofTok) = Some j → i + j ≤ end_.
Proof.
  intros Hs. induction fuel as [|fuel IH]; intros i d k j end_ next Hi Hf Hrun Hd Hl;
    (destruct (Z.ltb_spec i eofTok) as [Hlt|]; [|by rewrite sublistZ_empty in Hl by lia]); [lia|].
  cbn [declEnd] in Hrun. rewrite (more_spec src) in Hrun by (done || lia). cbn [mbind option_bind] in Hrun.
  rewrite (proj2 (Z.ltb_lt _ _)) in Hrun by done. destruct (tok_at toks i ltac:(lia)) as [t Ht]. rewrite Ht in Hrun.
  rewrite (sublistZ_cons _ _ _ t) in Hl by (done || lia). cbn [mbind option_bind] in Hrun. cbv zeta in Hrun. cbn [levels] in Hl.
  assert (atTop d = false) as Htop.
  { unfold atTop. rewrite (proj2 (Z.eqb_neq (bracketDepth d) 0)) by lia. by rewrite andb_false_r. }
  rewrite Htop in Hrun. cbn [andb andO mbind option_bind] in Hrun.
  destruct (enter (tokenChar t) d) as [d'|] eqn:Hent.
  2: { rewrite (proj2 (Z.eqb_neq (bracketDepth d) 0)) in Hrun by lia. by rewrite andb_false_r in Hrun. }
  assert (i + 1 ≤ end_) as Hend.
  { destruct (declEnd_total grp start Hs fuel (i + 1) d') as (e & nx & ok & Hrun' & Hle); [lia..|].
    rewrite Hrun in Hrun'. injection Hrun' as <- <- <-. specialize (Hle eq_refl). lia. }
  assert (∀ k', Z.of_nat k' < bracketDepth d' → levels (chr "[") (chr "]") k' (sublistZ toks (i + 1) eofTok) = Some (j - 1) → i + j ≤ end_) as Hstep.
  { intros k' Hk' Hl'. pose proof (IH (i + 1) d' k' (j - 1) end_ next ltac:(lia) ltac:(lia) Hrun Hk' Hl'). lia. }
  apply fmap_Some in Hl as (j' & Hl & ->). rewrite <- (Z.add_1_r j'), Z.add_simpl_r in Hstep.
  apply enter_brackets in Hent. revert Hl Hent. destruct (_ =? chr "["); [|destruct (_ =? chr "]"); [destruct k as [|k]|]]; intros Hl Hent.
  - apply (Hstep (S k)); [lia|done].
  - injection Hl as <-. lia.
  - apply (Hstep k); [lia|done].
  - apply (Hstep k); [lia|done].
Qed.

Lemma declEnd_step grp start fuel i d end_ next :
  0 ≤ i < eofTok → i < end_ → declEnd src toks lineStarts (S fuel) start grp i d = Some (end_, next, true) →
  ∃ t d', toks !!z i = Some t ∧ enter (tokenChar t) d = Some d' ∧
    declEnd src toks lineStarts fuel start grp (i + 1) d' = Some (end_, next, true).
Proof.
  intros Hi He. cbn [declEnd]. rewrite (more_spec src) by (done || lia). rewrite (proj2 (Z.ltb_lt i _)) by lia. cbn [mbind option_bind].
  destruct (tok_at toks i ltac:(lia)) as [t Ht]. rewrite Ht. cbn [mbind option_bind]. cbv zeta.
  destruct (atTop d && grp && _); [intros [= -> _]; lia|]. destruct (atTop d && _); [intros [= -> _]; lia|].
  destruct (Some (atTop d) &&? _) as [[]|]; cbn [mbind option_bind]; [intros [= -> _]; lia| |done].
  destruct (enter (tokenChar t) d) as [d'|] eqn:Hd; [eauto|]. destruct (_ && _ && _ && _); [intros [= -> _]; lia|done].
Qed.

(** The type parameters of a declaration lie in it. *)
Lemma typeParams_within start grp end_ next e :
  0 ≤ start < eofTok → skipDeclSpec src toks lineStarts start grp = Some (end_, next, true) → start + 1 < end_ →
  grouped toks (chr "[") (chr "]") (start + 1) e → e ≤ end_.
Proof.
  intros Hs Hskip He Hg. destruct (grouped_levels _ _ Hok _ _ _ _ Hg) as (Hc & Hr & Hl).
  assert (∃ fuel, length toks = S (S fuel) ∧ eofTok - (start + 1 + 1) ≤ Z.of_nat fuel) as (fuel & Hfuel & Hle).
  { unfold SyntaxTokens.eofTok, lenZ in *. exists (length toks - 2)%nat. lia. }
  unfold skipDeclSpec in Hskip. rewrite Hfuel in Hskip.
  destruct (declEnd_step grp start (S fuel) start noDepth end_ next Hs ltac:(lia) Hskip) as (t & d & _ & Hd & Hskip1).
  destruct (declEnd_step grp start fuel (start + 1) d end_ next ltac:(lia) ltac:(lia) Hskip1) as (t' & d' & Ht' & Hd' & Hskip2).
  apply tokCharIs_true in Hc as (t'' & Ht'' & Hc). rewrite Ht'' in Ht'. injection Ht' as ->. rewrite Hc in Hd'.
  destruct d as [p b c]. injection Hd' as <-.
  assert (0 ≤ b) as Hb. { clear -Hd. unfold enter, noDepth in Hd. repeat case_match; simplify_eq; lia. }
  pose proof (declEnd_past grp start fuel ltac:(lia) (start + 1 + 1) _ 0 _ end_ next ltac:(lia) Hle Hskip2 ltac:(simpl; lia) Hl). lia.
Qed.

Lemma parseDeclSpec_spec kind start grp f :
  kind = TokenConst ∨ kind = TokenVar ∨ kind = TokenType → 0 ≤ start ≤ eofTok →
  wp False (parseDeclSpec src toks lineStarts kind start grp) (reads start f) f.
Proof.
  intros Hk Hs. unfold parseDeclSpec. destruct (kind_guard start TokenIdent ltac:(lia)) as (bad & Hbad & Hid).
  wp_step. eapply wp_lift; [done|]. destruct bad; [wp_step; apply reads_fail; lia|]. specialize (Hid eq_refl).
  pose proof (kindAt_lt _ _ Hok _ _ Hid ltac:(done)) as Hlt.
  destruct (skipDeclSpec_total start grp ltac:(lia)) as (end_ & next & ok & Hskip & Hend). wp_step. eapply wp_lift; [done|].
  destruct ok; simpl; [|wp_step; apply reads_fail; lia]. specialize (Hend eq_refl).
  destruct (Z.leb_spec end_ start); [wp_step; apply reads_fail; lia|].
  assert (∀ f, grown start (start + 1) f (addDecl (MkTopDecl kind start start end_) f)) as Hadd.
  { intros f'. apply grown_decl; simpl; [|lia|lia]. split; simpl; [done|done|lia|done]. }
  destruct (Z.eqb_spec kind TokenType) as [->|Hne].
  - destruct (typeDeclarationHasParameters_total (start + 1) end_ ltac:(lia)) as (gen & Hgen & Hlong).
    wp_step. eapply wp_lift; [done|]. wp_step. destruct gen.
    + wp_step. eapply wp_conseq; [apply parseTypeParamList_spec; [done|done|by left]|].
      intros [e ok] f1 [Hf Ht]. simpl in Hf, Ht. wp_step. destruct ok; cbn [negb]; [|rewrite Hf by done; wp_step; apply reads_fail; lia].
      destruct (Ht eq_refl) as (g & -> & Hgok & Hgs & Hge). pose proof (go_group _ _ Hgok) as Hgr. rewrite Hgs, Hge in Hgr.
      destruct (grouped_range _ _ Hok _ _ _ _ Hgr) as [_ Hgr'].
      assert (e ≤ end_) as Hin.
      { specialize (Hlong eq_refl). eapply (typeParams_within start grp end_ next); [lia|done|lia|done]. }
      repeat wp_step. apply reads_ok; [lia|]. eapply (grown_trans _ _ (start + 1)); [apply Hadd|].
      change (addDecl ?d (addGeneric g f)) with (addGeneric g (addDecl d f)). apply grown_generic; [done|lia..].
    + repeat wp_step. apply reads_ok; [lia|]. by eapply grown_weaken; [done|lia|lia].
  - repeat wp_step. eapply wp_conseq; [apply (declNames_spec _ start end_); [tauto|lia|lia|lia|unfold SyntaxTokens.eofTok, lenZ; lia|lia]|].
    intros ok f1 Hg. wp_step. assert (grown start end_ f f1) as Hg' by (eapply grown_trans; [apply Hadd|done]).
    destruct ok; simpl; [apply reads_ok; [lia|]|split; [|done]]; (eapply grown_weaken; [done|lia|lia]).
Qed.

Lemma parseTopDecl_spec start f :
  0 ≤ start < eofTok → kindAt start TokenConst ∨ kindAt start TokenVar ∨ kindAt start TokenType →
  wp False (parseTopDecl src toks lineStarts start) (reads start f) f.
Proof.
  intros Hs Hk. unfold parseTopDecl. destruct (tok_at toks start ltac:(lia)) as [t Ht]. wp_step. eapply wp_lift; [done|].
  assert (tokenKind t = TokenConst ∨ tokenKind t = TokenVar ∨ tokenKind t = TokenType) as Hkind.
  { unfold SyntaxTokens.kindAt in Hk. rewrite Ht in Hk. naive_solver. }
  apply (grouped_decl_spec (skipDeclSeparators toks) (parseDeclSpec src toks lineStarts (tokenKind t))); [exact skip_in| |done].
  intros i g f' Hi. by apply parseDeclSpec_spec.
Qed.

(** ** Functions *)

Lemma parseReceiver_total i : 0 ≤ i ≤ eofTok →
  ∃ r, parseReceiver toks i = Some r ∧ ∀ rs re j, r = Some (rs, re, j) → i ≤ j ≤ eofTok ∧
    ((rs = -1 ∧ re = -1 ∧ j = i) ∨ (rs = i + 1 ∧ j = re + 1 ∧ grouped toks (chr "(") (chr ")") i j)).
Proof.
  intros Hi. unfold parseReceiver. destruct (tokCharIs toks i (chr "(")).
  - destruct (skipBalanced_spec _ _ Hok (chr "(") (chr ")") i) as (e & -> & He). cbn [mbind option_bind]. eexists. split; [done|].
    destruct (Z.leb_spec e i); [done|]. intros rs re j [= <- <- <-]. destruct He as [[-> _]|[He Hg]]; [lia|].
    split; [lia|]. right. split_and!; [done|lia|done].
  - eexists. split; [done|]. intros rs re j [= <- <- <-]. split; [lia|]. by left.
Qed.

Lemma parseFuncTail_spec name start rs re ps pe :
  1 ≤ pe ≤ eofTok → start < pe →
  (∀ fn, fn_StartTok fn = start → fn_NameTok fn = name → fn_ReceiverStart fn = rs → fn_ReceiverEnd fn = re →
     fn_ParamsStart fn = ps → fn_ParamsEnd fn = pe → fn_ResultStart fn = pe → pe ≤ fn_ResultEnd fn →
     ((fn_BodyStart fn = -1 ∧ fn_BodyEnd fn = -1 ∧ fn_EndTok fn = fn_ResultEnd fn) ∨
      (fn_BodyStart fn = fn_ResultEnd fn ∧ fn_EndTok fn = fn_BodyEnd fn ∧
       grouped toks (chr "{") (chr "}") (fn_BodyStart fn) (fn_BodyEnd fn))) → func_ok toks fn) →
  ∃ fn ok, parseFuncTail toks lineStarts name start rs re ps pe = Some (fn, ok) ∧
    (ok = true → func_ok toks fn ∧ fn_StartTok fn = start ∧ start < fn_EndTok fn ≤ eofTok ∧ fn_ParamsStart fn = ps).
Proof.
  intros Hpe Hstart Hfn. unfold parseFuncTail. destruct (findFuncBody_total pe Hpe) as ([b e] & -> & Hbody). cbn [mbind option_bind].
  unfold body_at in Hbody. simpl in Hbody. destruct (Z.ltb_spec b 0) as [Hb|Hb].
  - eexists _, _. split; [done|]. intros Hle%Z.leb_le. simpl. split_and!; [|done|lia|lia|done].
    apply Hfn; simpl; try done. by left.
  - destruct Hbody as [[-> _]|[Hb' Hc]]; [lia|].
    destruct (skipBalanced_spec _ _ Hok (chr "{") (chr "}") b) as (be & -> & Hbe). cbn [mbind option_bind].
    destruct (Z.leb_spec be b); [by eexists _, _|]. destruct Hbe as [[-> _]|[Hbe Hg]]; [lia|].
    eexists _, _. split; [done|]. intros _. simpl. split_and!; [|done|lia|lia|done]. apply Hfn; simpl; try done; [lia|]. by right.
Qed.

Lemma func_span fn : func_ok toks fn → fn_ParamsStart fn < fn_EndTok fn.
Proof.
  intros [_ _ _ Hp _ Hr Hb]. destruct (grouped_range _ _ Hok _ _ _ _ Hp) as [_ ?].
  destruct Hb as [(_ & _ & Hend)|(Hstart & Hend & Hg)]; [lia|]. destruct (grouped_range _ _ Hok _ _ _ _ Hg) as [_ ?]. lia.
Qed.

(** At most the type parameters of a function were read. *)
Definition maybe_generic (lo hi : Z) (f f' : File) : Prop :=
  f' = f ∨ ∃ g, f' = addGeneric g f ∧ generic_ok toks g ∧ lo ≤ l_StartTok g ∧ l_EndTok g ≤ hi.

Lemma maybe_generic_weaken lo hi hi' f f' : maybe_generic lo hi f f' → hi ≤ hi' → maybe_generic lo hi' f f'.
Proof. intros [->|(g & -> & Hg & Hlo & Hhi)] Hle; [by left|]. right. exists g. split_and!; done || lia. Qed.

Lemma maybe_generic_grown lo hi f f' : maybe_generic lo hi f f' → lo ≤ hi → grown lo hi f f'.
Proof.
  intros [->|(g & -> & Hg & Hlo & Hhi)] Hle; [by apply grown_refl|]. destruct (grouped_range _ _ Hok _ _ _ _ (go_group _ _ Hg)) as [_ ?].
  apply grown_generic; done || lia.
Qed.

Lemma grown_func_generic lo hi fn f f' :
  maybe_generic lo hi f f' → func_ok toks fn → lo ≤ fn_StartTok fn + 1 → fn_StartTok fn < fn_EndTok fn ≤ hi →
  grown (lo - 1) hi f (addFunc fn f').
Proof.
  intros [->|(g & -> & Hg & Hlo & Hhi)] Hfn H1 H2; [apply grown_func; done || lia|].
  destruct (grouped_range _ _ Hok _ _ _ _ (go_group _ _ Hg)) as [_ ?]. exists [], [], [fn], [g]. split; [|by rewrite !app_nil_r].
  split; simpl; try lia; try done; by apply list.Forall_singleton.
Qed.

Lemma parseFuncDecl_spec start f :
  0 ≤ start < eofTok → kindAt start TokenFunc →
  wp False (parseFuncDecl toks lineStarts start) (λ r f',
    maybe_generic (start + 1) eofTok f f' ∧
    (r.2 = true → func_ok toks r.1 ∧ fn_StartTok r.1 = start ∧ start < fn_EndTok r.1 ≤ eofTok ∧
       maybe_generic (start + 1) (fn_EndTok r.1) f f')) f.
Proof.
  intros Hs Hk. unfold parseFuncDecl. destruct (parseReceiver_total (start + 1) ltac:(lia)) as (r & Hr & Hrec).
  wp_step. eapply wp_lift; [done|]. destruct r as [[[rs re] i]|]; [|wp_step; split; [by left|done]].
  destruct (Hrec _ _ _ eq_refl) as [Hi Hrs]. destruct (kind_guard i TokenIdent ltac:(lia)) as (bad & Hbad & Hname).
  wp_step. eapply wp_lift; [done|]. destruct bad; [wp_step; split; [by left|done]|]. specialize (Hname eq_refl).
  pose proof (kindAt_lt _ _ Hok _ _ Hname ltac:(done)) as Hlt. wp_step.
  eapply (wp_conseq _ (λ r f', maybe_generic (start + 1) eofTok f f' ∧ (r.2 = true → i < r.1 ≤ eofTok ∧ maybe_generic (start + 1) r.1 f f' ∧
    (r.1 = i + 1 ∨ (rs = -1 ∧ grouped toks (chr "[") (chr "]") (i + 1) r.1))))).
  { destruct (tokCharIs toks (i + 1) (chr "[")).
    2: { wp_step. split; [by left|]. intros _. simpl. split_and!; [lia|lia|by left|by left]. }
    destruct (Z.leb_spec 0 rs); [wp_step; split; [by left|done]|].
    eapply wp_conseq; [apply parseTypeParamList_spec; [done|done|by right]|]. intros [e ok] f1 [Hf Ht]. simpl in *.
    destruct ok; [|rewrite Hf by done; split; [by left|done]].
    destruct (Ht eq_refl) as (g & -> & Hgok & Hgs & Hge). pose proof (go_group _ _ Hgok) as Hg. rewrite Hgs, Hge in Hg.
    destruct (grouped_range _ _ Hok _ _ _ _ Hg) as [_ Hgr].
    split; [right; exists g; split_and!; done || lia|]. intros _. split_and!; [lia|lia|right; exists g; split_and!; done || lia|].
    right. split; [lia|done]. }
  intros [j ok] f1 [Hg Hj]. simpl in Hj. destruct ok; simpl; [|wp_step; by split].
  destruct (Hj eq_refl) as (Hij & Hg1 & Hgen). destruct (tokCharIs toks j (chr "(")) eqn:Hc; simpl; [|wp_step; by split].
  destruct (skipBalanced_spec _ _ Hok (chr "(") (chr ")") j) as (pe & Hpe & Hend). wp_step. eapply wp_lift; [done|].
  destruct (Z.leb_spec pe j); [wp_step; by split|]. destruct Hend as [[-> _]|[Hend Hgroup]]; [lia|].
  destruct (parseFuncTail_spec i start rs re j pe) as (fn & ok & Hrun & Hfn); [lia|lia| |].
  { intros fn H1 H2 H3 H4 H5 H6 H7 H8 H9. split; rewrite ?H1, ?H2, ?H3, ?H4, ?H5, ?H6, ?H7; try done.
    destruct Hrs as [(-> & -> & ->)|(-> & -> & Hgrp)]; [by left|]. right. split_and!; [lia|done|done]. }
  eapply wp_lift; [done|]. split; [done|]. intros Hok'. simpl in Hok'. destruct (Hfn Hok') as (H1 & H2 & H3 & H4). cbn [fst snd]. split_and!; try done; try lia.
  eapply maybe_generic_weaken; [exact Hg1|]. pose proof (func_span fn H1). lia.
Qed.

(** ** Files *)

(** The tokens from [i] on are separators and declarations, which made [f'] of [f]. *)
Inductive covered : Z → File → File → Prop :=
| cov_end f : covered eofTok f f
| cov_separator i f f' : tokCharIs toks i (chr ";") = true → covered (i + 1) f f' → covered i f f'
| cov_decl i next f f1 f' :
    (kindAt i TokenImport ∨ kindAt i TokenConst ∨ kindAt i TokenVar ∨ kindAt i TokenType ∨ kindAt i TokenFunc) →
    i < next ≤ eofTok → grown i next f f1 → covered next f1 f' → covered i f f'.

Lemma covered_grown i f f' : covered i f f' → grown i eofTok f f'.
Proof.
  induction 1 as [f|i f f' Hc _ IH|i next f f1 f' _ Hn Hg _ IH].
  - by apply grown_refl.
  - eapply grown_weaken; [done|lia|lia].
  - by eapply grown_trans.
Qed.

(** The answer of a parse that failed. *)
Definition failed (i : Z) (f f' : File) : Prop :=
  ∃ f1 err tok, grown i eofTok f f1 ∧ f' = parseFail f1 err tok ∧ ParseErrImport ≤ err ≤ ParseErrTopLevel ∧ i ≤ tok < eofTok.

Lemma parseItem_spec i t f :
  0 ≤ i < eofTok → toks !!z i = Some t →
  wp False (parseItem src toks lineStarts i (tokenKind t)) (λ r f',
    match r with
    | Some next => i < next ≤ eofTok ∧ grown i next f f' ∧
        (kindAt i TokenImport ∨ kindAt i TokenConst ∨ kindAt i TokenVar ∨ kindAt i TokenType ∨ kindAt i TokenFunc)
    | None => failed i f f'
    end) f.
Proof.
  intros Hi Ht. unfold parseItem.
  assert (∀ k, (tokenKind t =? k) = true → kindAt i k) as Hk by (intros k Hk%Z.eqb_eq; by exists t).
  assert (∀ f1 err, ParseErrImport ≤ err ≤ ParseErrTopLevel → grown i eofTok f f1 →
    wp False (_ ← parseFailInPlace err i; mret (M := GoM File) (@None Z)) (λ r f', match r with
      | Some next => i < next ≤ eofTok ∧ grown i next f f' ∧
          (kindAt i TokenImport ∨ kindAt i TokenConst ∨ kindAt i TokenVar ∨ kindAt i TokenType ∨ kindAt i TokenFunc)
      | None => failed i f f' end) f1) as Hfail.
  { intros f1 err He Hg. wp_step. unfold parseFailInPlace. repeat wp_step. exists f1, err, i. split_and!; try done; lia. }
  destruct (tokenKind t =? TokenImport) eqn:H1.
  { wp_step. eapply wp_conseq; [by apply parseImportDecl_spec|]. intros [next ok] f1 [Hg Hn]. destruct ok; simpl; [|by apply Hfail].
    destruct (Hn eq_refl). wp_step. simpl in *. split_and!; try done; [lia|lia|]. left. by apply Hk. }
  destruct ((tokenKind t =? TokenConst) || (tokenKind t =? TokenVar) || (tokenKind t =? TokenType)) eqn:H2.
  { assert (kindAt i TokenConst ∨ kindAt i TokenVar ∨ kindAt i TokenType) as Hdecl.
    { apply orb_true_iff in H2 as [[H2|H2]%orb_true_iff|H2]; auto. }
    wp_step. eapply wp_conseq; [by apply parseTopDecl_spec|]. intros [next ok] f1 [Hg Hn]. destruct ok; simpl; [|by apply Hfail].
    destruct (Hn eq_refl). wp_step. simpl in *. split_and!; try done; [lia|lia|tauto]. }
  destruct (tokenKind t =? TokenFunc) eqn:H3; [|apply Hfail; [done|apply grown_refl; lia]].
  wp_step. eapply wp_conseq; [apply parseFuncDecl_spec; [done|by apply Hk]|]. intros [fn ok] f1 [Hg Hn]. simpl in Hn. destruct ok; simpl.
  - destruct (Hn eq_refl) as (Hfn & Hs & He & Hg1). repeat wp_step. split_and!; [lia|lia| |auto 6].
    replace i with (i + 1 - 1) at 1 by lia. apply grown_func_generic; [done|done|lia|lia].
  - apply Hfail; [done|]. eapply grown_weaken; [by apply maybe_generic_grown; [done|lia]|lia|lia].
Qed.

Lemma skipSeparators_covered fuel : ∀ i j f f', skipSeparators toks fuel i = Some j → covered j f f' → covered i f f'.
Proof.
  induction fuel as [|fuel IH]; intros i j f f'; cbn [skipSeparators]; destruct (_ && _) eqn:Hc; try done;
    try (by intros [= ->]). apply andb_true_iff in Hc as [_ Hc]. intros Hrun Hcov. eapply cov_separator; [done|]. by eapply IH.
Qed.

Lemma parseItems_spec fuel : ∀ i f, 0 ≤ i ≤ eofTok → eofTok - i ≤ Z.of_nat fuel →
  wp False (parseItems src toks lineStarts fuel i) (λ _ f', covered i f f' ∨ failed i f f') f.
Proof.
  induction fuel as [|fuel IH]; intros i f Hi Hf; cbn [parseItems]; wp_step;
    (eapply wp_lift; [apply (more_spec src); [done|lia]|]); destruct (Z.ltb_spec i eofTok); try lia.
  1, 3: wp_step; left; assert (i = eofTok) as -> by lia; apply cov_end.
  destruct (skip_in i Hi) as (j & Hj & Hij). wp_step. eapply wp_lift; [done|].
  assert (∀ f', covered j f f' → covered i f f') as Hcov by (intros f'; by apply (skipSeparators_covered (length toks))).
  destruct (tok_at toks j ltac:(lia)) as [t Ht]. rewrite (proj2 (Z.leb_gt _ _)) by (unfold SyntaxTokens.eofTok in *; lia).
  wp_step. eapply wp_lift; [by rewrite (kindIs_at _ _ _ _ Ht)|]. pose proof (tok_kind _ _ Hok _ _ Ht) as Hend.
  destruct (Z.eqb_spec TokenEOF (tokenKind t)) as [He|He].
  { wp_step. left. apply Hcov. assert (j = eofTok) as -> by (by apply Hend). apply cov_end. }
  assert (j < eofTok) as Hlt. { destruct (decide (j = eofTok)); [|lia]. exfalso. apply He. symmetry. by apply Hend. }
  wp_step. eapply wp_lift; [done|]. wp_step. eapply wp_conseq; [apply parseItem_spec; [lia|done]|].
  intros [next|] f1; simpl.
  - intros (Hn & Hg & Hkind). eapply wp_conseq; [apply IH; lia|]. intros _ f2 [Hc|Hfail].
    + left. apply Hcov. by eapply cov_decl.
    + right. destruct Hfail as (f3 & err & tok & Hg3 & -> & Herr & Htok). exists f3, err, tok. split_and!; try done; try lia.
      eapply (grown_weaken _ i j); [by eapply grown_trans|lia|lia].
  - intros (f3 & err & tok & Hg3 & -> & Herr & Htok). wp_step. right. exists f3, err, tok. split_and!; try done; try lia.
    by eapply grown_weaken; [done|lia|lia].
Qed.

(** A file starts with its package clause. *)
Definition package_clause : Prop := kindAt 0 TokenPackage ∧ kindAt 1 TokenIdent.

Lemma parseTokens_spec f :
  wp False (parseTokens src toks lineStarts) (λ _ f',
    (package_clause ∧ (covered 2 (withPackage 1 f) f' ∨ failed 2 (withPackage 1 f) f')) ∨
    (¬ (3 ≤ lenZ toks ∧ package_clause) ∧ f' = parseFail f ParseErrPackage 0)) f.
Proof.
  unfold parseTokens.
  assert (∃ bad, (Some (lenZ toks <? 3) ||? kindIs toks 0 (λ k, negb (k =? TokenPackage)) ||? kindIs toks 1 (λ k, negb (k =? TokenIdent))) = Some bad ∧
    (bad = false ↔ 3 ≤ lenZ toks ∧ package_clause)) as (bad & Hrun & Hbad).
  { unfold package_clause, SyntaxTokens.kindAt. destruct (Z.ltb_spec (lenZ toks) 3) as [|Hlen]; cbn [orO]; [exists true; split; [done|]; split; [done|lia]|].
    destruct (tok_at toks 0) as [t Ht]; [unfold SyntaxTokens.eofTok; lia|]. destruct (tok_at toks 1) as [t' Ht']; [unfold SyntaxTokens.eofTok; lia|].
    rewrite (kindIs_at _ _ _ _ Ht), (kindIs_at _ _ _ _ Ht'), Ht, Ht'.
    destruct (Z.eqb_spec (tokenKind t) TokenPackage), (Z.eqb_spec (tokenKind t') TokenIdent); simpl; eexists; (split; [done|]); naive_solver. }
  wp_step. eapply wp_lift; [done|]. destruct bad.
  - unfold parseFailInPlace. wp_step. right. split; [|done]. by intros ?%Hbad.
  - destruct (proj1 Hbad eq_refl) as [Hlen Hpack]. repeat wp_step. eapply wp_conseq.
    { apply parseItems_spec; unfold SyntaxTokens.eofTok, lenZ in *; lia. }
    intros ? f' Hf'. left. by split.
Qed.

(** No dot is followed by more dots. *)
Definition dots_ok : Prop :=
  ∀ i t, 2 ≤ i → tokCharIs toks i (chr ".") = true → toks !!z (i + 1) = Some t → tokenKind t = TokenOperator →
    src !!z (t_Start t) ≠ Some (chr ".").

Lemma badDot_spec fuel : ∀ i, 0 ≤ i → lenZ toks - i ≤ Z.of_nat fuel →
  ∃ r, badDot src toks fuel i = Some r ∧
    match r with
    | Some tok => i ≤ tok < eofTok
    | None => ∀ j t, i ≤ j → tokCharIs toks j (chr ".") = true → toks !!z (j + 1) = Some t → tokenKind t = TokenOperator →
        src !!z (t_Start t) ≠ Some (chr ".")
    end.
Proof.
  induction fuel as [|fuel IH]; intros i Hi Hf; cbn [badDot]; destruct (Z.ltb_spec (i + 1) (lenZ toks)); try lia.
  1, 3: exists None; split; [done|]; intros j t Hj _ Ht; apply lookupZ_lt_Some in Ht; lia.
  destruct (tok_at toks (i + 1)) as [t Ht]; [unfold SyntaxTokens.eofTok; lia|]. rewrite Ht. cbn [mbind option_bind].
  pose proof (tok_span _ _ Hok _ _ Ht) as Hspan.
  assert (∃ x, (Some (tokCharIs toks i (chr ".")) &&? (Some (tokenKind t =? TokenOperator) &&? byteIs src (t_Start t) (Z.eqb (chr ".")))) = Some x ∧
    (x = false → tokCharIs toks i (chr ".") = true → tokenKind t = TokenOperator → src !!z (t_Start t) ≠ Some (chr "."))) as (x & -> & Hx).
  { destruct (tokCharIs toks i (chr ".")); [|by exists false]. cbn [andO].
    destruct (Z.eqb_spec (tokenKind t) TokenOperator) as [Hk|]; [|by exists false]. cbn [andO].
    assert (i + 1 < eofTok) as Hlt.
    { destruct (decide (i + 1 = eofTok)) as [He|]; [|unfold SyntaxTokens.eofTok in *; lia].
      apply (tok_kind _ _ Hok _ _ Ht) in He. by rewrite Hk in He. }
    pose proof (tok_word _ _ Hok _ _ Ht Hlt). unfold byteIs. destruct (lookupZ_lt_is_Some src (t_Start t) ltac:(lia)) as [c Hc].
    rewrite Hc. cbn [mbind option_bind]. eexists. split; [done|]. intros Hne%Z.eqb_neq _ _. congruence. }
  cbn [mbind option_bind]. destruct x; [exists (Some i); split; [done|unfold SyntaxTokens.eofTok; lia]|].
  destruct (IH (i + 1)) as (r & -> & Hr); [lia..|]. exists r. split; [done|]. destruct r as [tok|]; [lia|].
  intros j t' Hj Hc Ht' Hk. destruct (decide (j = i)) as [->|]; [|apply (Hr j t'); done || lia].
  rewrite Ht in Ht'. injection Ht' as <-. by apply Hx.
Qed.
End parser.

(** * Lines of linked files *)

Lemma sorted_lookup l i j s t :
  StronglySorted Z.lt l → l !! i = Some s → l !! j = Some t → (i < j)%nat → s < t.
Proof.
  intros Hl. revert i j. induction Hl as [|x l Hl IH Hx]; intros i j Hi Hj Hij; [done|].
  destruct j as [|j]; [lia|]. destruct i as [|i]; [|by apply (IH i j); [done|done|lia]].
  injection Hi as ->. by eapply (proj1 (Forall_lookup _ _) Hx).
Qed.

Lemma lineStartsFrom_above src i : Forall (λ s, i < s) (lineStartsFrom src i).
Proof.
  revert i. induction src as [|c src IH]; intros i; simpl; [constructor|].
  assert (Forall (λ s, i < s) (lineStartsFrom src (i + 1))) as Hf by (eapply Forall_impl; [apply IH|]; simpl; lia).
  destruct (c =? newline); [|done]. constructor; [lia|done].
Qed.

Lemma lineStartsFrom_sorted src i : StronglySorted Z.lt (lineStartsFrom src i).
Proof.
  revert i. induction src as [|c src IH]; intros i; simpl; [constructor|]. destruct (c =? newline); [|done].
  constructor; [done|]. apply lineStartsFrom_above.
Qed.

(** A position has as many line starts up to it as there are line ends before it. *)
Lemma lineStartsFrom_count src i off :
  i ≤ off → lenZ (filter (λ s, s ≤ off) (lineStartsFrom src i)) = newlines (take (Z.to_nat (off - i)) src).
Proof.
  revert i. induction src as [|c src IH]; intros i Hi; cbn [lineStartsFrom]; [by rewrite take_nil|].
  destruct (decide (i = off)) as [->|Hne].
  - rewrite Z.sub_diag. simpl. change (newlines []) with 0.
    assert (Forall (λ s, ¬ s ≤ off) (if c =? newline then off + 1 :: lineStartsFrom src (off + 1) else lineStartsFrom src (off + 1))) as Hf.
    { pose proof (lineStartsFrom_above src (off + 1)) as Hf. destruct (c =? newline); [constructor; [lia|]|]; (eapply Forall_impl; [done|]; simpl; lia). }
    rewrite (filter_none _ _ (proj1 (Forall_forall _ _) Hf)). done.
  - replace (Z.to_nat (off - i)) with (S (Z.to_nat (off - (i + 1)))) by lia. simpl. unfold newlines. rewrite filter_cons.
    fold (newlines (take (Z.to_nat (off - (i + 1))) src)).
    destruct (Z.eqb_spec c newline) as [->|Hc].
    + rewrite filter_cons, !decide_True by (done || lia). rewrite !lenZ_cons, IH by lia. done.
    + rewrite (decide_False (P := c = newline)) by done. apply IH. lia.
Qed.

(** The search counts the line starts up to the position. *)
Lemma bisect_count l off :
  StronglySorted Z.lt l →
  bisect (length l) (λ mid, s ← l !!z mid; Some (s <=? off)) 0 (lenZ l) = Some (lenZ (filter (λ s, s ≤ off) l)).
Proof.
  intros Hsorted. pose proof (lenZ_nonneg l).
  set (p := λ i, match l !!z i with Some s => s <=? off | None => false end).
  destruct (bisect_spec p (λ mid, s ← l !!z mid; Some (s <=? off)) (lenZ l) (length l) 0 (lenZ l)) as (k & -> & Hk & Hlo & Hhi);
    [| |lia|lia|unfold lenZ; lia|lia|lia|].
  - intros i Hi. unfold p. destruct (lookupZ_lt_is_Some l i Hi) as [s ->]. done.
  - intros i j Hij Hj. unfold p. destruct (lookupZ_lt_is_Some l i ltac:(lia)) as [s Hs], (lookupZ_lt_is_Some l j ltac:(lia)) as [s' Hs'].
    rewrite Hs, Hs'. intros Hle%Z.leb_le. apply Z.leb_le. destruct (decide (i = j)) as [->|]; [congruence|].
    rewrite lookupZ_to_nat in Hs, Hs' by lia. pose proof (sorted_lookup l _ _ _ _ Hsorted Hs Hs' ltac:(lia)). lia.
  - f_equal. rewrite <- (take_drop (Z.to_nat k) l) at 1. rewrite filter_app, lenZ_app.
    rewrite (filter_all _ (take _ l)), (filter_none _ (drop _ l)).
    + unfold lenZ in *. rewrite length_take. simpl. lia.
    + intros s [i Hs]%list_elem_of_lookup. rewrite lookup_drop in Hs.
      assert (0 ≤ k + Z.of_nat i < lenZ l) as Hr by (apply lookup_lt_Some in Hs; unfold lenZ in *; lia).
      specialize (Hhi (k + Z.of_nat i) ltac:(lia)). unfold p in Hhi. rewrite lookupZ_to_nat in Hhi by lia.
      replace (Z.to_nat (k + Z.of_nat i)) with (Z.to_nat k + i)%nat in Hhi by lia. rewrite Hs in Hhi. by apply Z.leb_gt in Hhi; lia.
    + intros s [i Hs]%list_elem_of_lookup. apply lookup_take_Some in Hs as [Hs Hi].
      specialize (Hlo (Z.of_nat i) ltac:(lia)). unfold p in Hlo. rewrite lookupZ_of_nat, Hs in Hlo. by apply Z.leb_le.
Qed.

Lemma lineAt_linked src toks i t :
  toks !!z i = Some t → 0 ≤ t_Start t →
  lineAt toks (0 :: lineStartsFrom src 0) i = Some (1 + newlines (take (Z.to_nat (t_Start t)) src)).
Proof.
  intros Ht H0. unfold lineAt, TokenLineAt. rewrite Ht. cbn [mbind option_bind].
  rewrite (proj2 (Z.eqb_neq _ _)) by (rewrite lenZ_cons; pose proof (lenZ_nonneg (lineStartsFrom src 0)); lia).
  rewrite bisect_count by (constructor; [apply lineStartsFrom_sorted|apply lineStartsFrom_above]).
  rewrite filter_cons, decide_True, lenZ_cons, lineStartsFrom_count, Z.sub_0_r by done. done.
Qed.
