(* ===== verification/SyntaxBodyFacts.v ===== *)
(** The parser of function bodies: its loops over tokens, and the statement trees that it
    records. *)

From Stdlib Require Import String Ascii.
From S2P Require Import Prelude.
From S2P Require Import GoInt.
From S2P Require Import SyntaxToken.
From S2P Require Import SyntaxScan.
From S2P Require Import SyntaxBytes.
From S2P Require Import SyntaxParse.
From S2P Require Import SyntaxBody.
From S2P Require Import SyntaxTokens.

(** * Groups inside groups *)

Section inside.
Context (open close : Z) (Hne : open ≠ close).

Lemma levels_less l : ∀ k j, levels open close (S k) l = Some j → ∃ j', levels open close k l = Some j' ∧ j' < j.
Proof.
  induction l as [|t l IH]; intros k j; [done|]. simpl. destruct (tokenChar t =? open).
  { intros (i & (j' & -> & Hj')%IH & ->)%fmap_Some. eexists. split; [done|]. lia. }
  destruct (tokenChar t =? close).
  - intros (i & Hi & ->)%fmap_Some. destruct k as [|k].
    + exists 1. split; [done|]. apply levels_unwinds in Hi as (pre & c & post & _ & -> & _). pose proof (lenZ_nonneg pre). lia.
    + apply IH in Hi as (j' & -> & Hj'). eexists. split; [done|]. lia.
  - intros (i & (j' & -> & Hj')%IH & ->)%fmap_Some. eexists. split; [done|]. lia.
Qed.

Lemma levels_least l : ∀ k j, levels open close k l = Some j → ∃ j', levels open close 0 l = Some j' ∧ j' ≤ j.
Proof.
  intros k. induction k as [|k IH]; intros j Hj; [exists j; split; [done|lia]|].
  apply levels_less in Hj as (i & (j' & -> & Hj')%IH & Hi). exists j'. split; [done|lia].
Qed.

(** A group that is opened inside ends inside. *)
Lemma levels_inside l : ∀ k j p a, levels open close k l = Some j → l !! p = Some a → tokenChar a = open → Z.of_nat p < j →
  ∃ j', levels open close 0 (drop (S p) l) = Some j' ∧ Z.of_nat p + 1 + j' < j.
Proof.
  induction l as [|t l IH]; intros k j p a; [done|]. simpl. destruct p as [|p].
  - intros Hl [= ->] Ha Hj. rewrite Ha, Z.eqb_refl in Hl. apply fmap_Some in Hl as (i & Hi & ->).
    apply levels_less in Hi as (i' & Hi' & Hlt). apply levels_least in Hi' as (j' & Hj' & Hle). exists j'.
    rewrite drop_0. split; [done|]. simpl. lia.
  - intros Hl Hp Ha Hj. apply fmap_Some in Hl as (i & Hl & ->).
    assert (∃ k', levels open close k' l = Some i) as (k' & Hi).
    { destruct (_ =? open); [eauto|]. destruct (_ =? close); [|eauto]. destruct k; [|eauto]. injection Hl as <-. lia. }
    destruct (IH k' i p a Hi Hp Ha ltac:(lia)) as (j' & Hj' & Hlt). exists j'. split; [done|]. simpl in *. lia.
Qed.
End inside.

(** * Loops over tokens *)

Section body.
Context (src : list Z) (toks : list Token) (Hok : toks_ok src toks).
Local Notation eofTok := (eofTok toks).
Local Notation kindAt := (kindAt toks).
Local Notation braced := (grouped toks (chr "{") (chr "}")).

Lemma braced_inside o e s e' : braced o e → o < s < e - 1 → braced s e' → e' ≤ e - 1.
Proof.
  intros Ho Hs He. destruct (grouped_levels _ _ Hok _ _ _ _ Ho) as (_ & Hr & Hl).
  destruct (grouped_levels _ _ Hok _ _ _ _ He) as (Hc & Hr' & Hl'). apply tokCharIs_true in Hc as (a & Ha & Hc).
  assert (sublistZ toks (o + 1) eofTok !! Z.to_nat (s - (o + 1)) = Some a) as Hat.
  { rewrite <- lookupZ_to_nat by lia. rewrite sublistZ_lookup by (destruct Ho; lia). rewrite <- Ha. f_equal. lia. }
  destruct (levels_inside _ _ _ _ _ _ _ Hl Hat Hc ltac:(lia)) as (j' & Hj' & Hlt).
  assert (drop (S (Z.to_nat (s - (o + 1)))) (sublistZ toks (o + 1) eofTok) = sublistZ toks (s + 1) eofTok) as Hd.
  { unfold sublistZ. rewrite skipn_firstn_comm, drop_drop. destruct Ho. f_equal; [lia|]. f_equal. lia. }
  rewrite Hd, Hl' in Hj'. injection Hj' as <-. lia.
Qed.

Lemma lineOf_total i : 0 ≤ i ≤ eofTok → ∃ x, lineOf toks i = Some x.
Proof. intros Hi. unfold lineOf. destruct (tok_at toks i Hi) as [t ->]. by eexists. Qed.

Lemma charOf_total i : 0 ≤ i ≤ eofTok → ∃ x, charOf toks i = Some x.
Proof. intros Hi. unfold charOf. destruct (tok_at toks i Hi) as [t ->]. by eexists. Qed.

Lemma tokenIsAssign_total i t : toks !!z i = Some t → ∃ b, tokenIsAssign src t = Some b.
Proof.
  intros Ht. pose proof (tok_span _ _ Hok _ _ Ht). unfold tokenIsAssign. cbv zeta.
  destruct (_ || _ || _); [by eexists|]. destruct (_ || _ || _) eqn:Hsize; [|by eexists].
  assert (1 ≤ t_End t - t_Start t ≤ 3) as Hs.
  { apply orb_true_iff in Hsize as [[?%Z.eqb_eq|?%Z.eqb_eq]%orb_true_iff|?%Z.eqb_eq]; lia. }
  unfold assignOperator. destruct (lookupZ_lt_is_Some src (t_Start t) ltac:(lia)) as [a ->]. cbn [mbind option_bind].
  destruct (Z.eqb_spec (t_End t - t_Start t) 1); [by eexists|].
  destruct (lookupZ_lt_is_Some src (t_Start t + 1) ltac:(lia)) as [b ->].
  destruct (Z.eqb_spec (t_End t - t_Start t) 2); [by eexists|].
  destruct (Z.eqb_spec (t_End t - t_Start t) 3); [|by eexists].
  destruct (lookupZ_lt_is_Some src (t_Start t + 2) ltac:(lia)) as [c ->]. by eexists.
Qed.

Lemma findIn_total P start end_ :
  (∀ i t, toks !!z i = Some t → ∃ b, P t = Some b) → 0 ≤ start → end_ ≤ eofTok + 1 →
  ∃ r, findIn toks P start end_ = Some r ∧ ∀ j, r = Some j → start ≤ j < end_.
Proof.
  intros HP Hs He. unfold findIn.
  assert (∀ n i, 0 ≤ i → i + Z.of_nat n ≤ eofTok + 1 → ∃ r, findToken toks n P i = Some r ∧ ∀ j, r = Some j → i ≤ j < i + Z.of_nat n) as Hall.
  { induction n as [|n IH]; intros i Hi Hn; cbn [findToken]; [by exists None|].
    destruct (tok_at toks i ltac:(lia)) as [t Ht]. rewrite Ht. destruct (HP i t Ht) as [b Hb]. cbn [mbind option_bind]. rewrite Hb.
    cbn [mbind option_bind]. destruct b; [exists (Some i); split; [done|]; intros j [= <-]; lia|].
    destruct (IH (i + 1)) as (r & -> & Hr); [lia..|]. exists r. split; [done|]. intros j ?%Hr. lia. }
  destruct (decide (start ≤ end_)).
  - destruct (Hall (Z.to_nat (end_ - start)) start) as (r & -> & Hr); [lia..|]. exists r. split; [done|]. intros j ?%Hr. lia.
  - replace (Z.to_nat (end_ - start)) with 0%nat by lia. by exists None.
Qed.

Lemma findAssign_total start end_ : 0 ≤ start → end_ ≤ eofTok + 1 →
  ∃ r, findAssign src toks start end_ = Some r ∧ (r = -1 ∨ start ≤ r < end_).
Proof.
  intros Hs He. unfold findAssign. destruct (findIn_total (tokenIsAssign src) start end_) as (r & -> & Hr); [|done|done|].
  { intros i t Ht. by eapply tokenIsAssign_total. }
  eexists. split; [done|]. destruct r as [j|]; simpl; [right; by apply Hr|by left].
Qed.

Lemma findCaseHeaderEnd_total start limit : 0 ≤ start ≤ limit → limit ≤ eofTok →
  ∃ r, findCaseHeaderEnd toks start limit = Some r ∧ start ≤ r ≤ limit.
Proof.
  intros Hs He. unfold findCaseHeaderEnd.
  destruct (findIn_total (λ t, Some (tokenChar t =? chr ":")) start limit) as (r & -> & Hr); [intros; by eexists|lia|lia|].
  eexists. split; [done|]. destruct r as [j|]; [specialize (Hr j eq_refl)|]; lia.
Qed.

Lemma spanHas_total c start end_ : 0 ≤ start → end_ ≤ eofTok + 1 → ∃ b, spanHas toks c start end_ = Some b.
Proof.
  intros Hs He. unfold spanHas. destruct (findIn_total (λ t, Some (tokenChar t =? c)) start end_) as (r & -> & _); [intros; by eexists|done|done|].
  by eexists.
Qed.

Lemma topLevelChar_total c n : ∀ i d, 0 ≤ i → i + Z.of_nat n ≤ eofTok + 1 →
  ∃ r, topLevelChar toks n c i d = Some r ∧ (r = -1 ∨ i ≤ r < i + Z.of_nat n).
Proof.
  induction n as [|n IH]; intros i d Hi Hn; cbn [topLevelChar]; [exists (-1); split; [done|by left]|].
  destruct (charOf_total i ltac:(lia)) as [x ->]. cbn [mbind option_bind].
  destruct (_ && _); [exists i; split; [done|right; lia]|]. destruct (IH (i + 1) (enterLoose x d)) as (r & -> & Hr); [lia..|].
  exists r. split; [done|lia].
Qed.

Lemma isBinaryOp_total i : 0 ≤ i ≤ eofTok → ∃ b, isBinaryOp src toks i = Some b.
Proof.
  intros Hi. unfold isBinaryOp. destruct (tok_at toks i Hi) as [t Ht]. rewrite Ht. cbn [mbind option_bind]. cbv zeta.
  destruct (negb _); [by eexists|]. destruct (_ =? 1); [by eexists|]. destruct (_ || _ || _) eqn:Hc; [by eexists|].
  apply orb_false_iff in Hc as [[_ H0%Z.ltb_ge]%orb_false_iff H1%Z.leb_gt].
  destruct (lookupZ_lt_is_Some src (t_Start t) ltac:(lia)) as [a ->], (lookupZ_lt_is_Some src (t_Start t + 1) ltac:(lia)) as [b ->]. by eexists.
Qed.

Lemma isUnaryExpr_total i : 0 ≤ i ≤ eofTok → ∃ b, isUnaryExpr src toks i = Some b.
Proof.
  intros Hi. unfold isUnaryExpr. destruct (tok_at toks i Hi) as [t Ht]. rewrite Ht. cbn [mbind option_bind]. cbv zeta.
  destruct (negb _); [by eexists|]. destruct (_ =? 1); [by eexists|]. destruct (_ && _ && _) eqn:Hc; [|by eexists].
  apply andb_true_iff in Hc as [[_ H0%Z.leb_le]%andb_true_iff H1%Z.ltb_lt].
  destruct (byteIs_total src (t_Start t) (Z.eqb (chr "<")) ltac:(lia)) as [[] ->]; cbn [andO]; [|by eexists].
  apply byteIs_total. lia.
Qed.

Lemma topLevelBinary_total n : ∀ i d, 0 ≤ i → i + Z.of_nat n ≤ eofTok + 1 → ∃ b, topLevelBinary src toks n i d = Some b.
Proof.
  induction n as [|n IH]; intros i d Hi Hn; cbn [topLevelBinary]; [by eexists|].
  destruct (charOf_total i ltac:(lia)) as [x ->]. cbn [mbind option_bind]. destruct (isBracket x); [apply IH; lia|].
  destruct (guard_and (atTop d) (isBinaryOp src toks i)) as (b & -> & _); [intros _; apply isBinaryOp_total; lia|]. cbn [mbind option_bind].
  destruct b; [by eexists|]. apply IH; lia.
Qed.

Lemma trimStart_range n : ∀ start end_, start ≤ end_ → start ≤ trimStart toks n start end_ ≤ end_.
Proof.
  induction n as [|n IH]; intros start end_ Hle; cbn [trimStart]; (destruct (Z.ltb_spec start end_); simpl; [|lia]);
    (destruct (tokCharIs toks start (chr ";")); [|lia]); [lia|]. specialize (IH (start + 1) end_ ltac:(lia)). lia.
Qed.

Lemma trimEnd_range n : ∀ start end_, start ≤ end_ → start ≤ trimEnd toks n start end_ ≤ end_.
Proof.
  induction n as [|n IH]; intros start end_ Hle; cbn [trimEnd]; (destruct (Z.ltb_spec start end_); simpl; [|lia]);
    (destruct (tokCharIs toks (end_ - 1) (chr ";")); [|lia]); [lia|]. specialize (IH start (end_ - 1) ltac:(lia)). lia.
Qed.

Lemma trimSpan_range start end_ : start ≤ end_ →
  start ≤ (trimSpan toks start end_).1 ≤ (trimSpan toks start end_).2 ∧ (trimSpan toks start end_).2 ≤ end_.
Proof.
  intros Hle. unfold trimSpan. simpl. pose proof (trimStart_range (length toks) start end_ Hle) as Hs.
  pose proof (trimEnd_range (length toks) _ end_ (proj2 Hs)). lia.
Qed.

Lemma lineContinues_total prev next : ∃ b, lineContinues src toks prev next = Some b.
Proof.
  unfold lineContinues. destruct (_ || _ || _ || _) eqn:Hc; [by eexists|].
  apply orb_false_iff in Hc as [[[H1%Z.ltb_ge H2%Z.ltb_ge]%orb_false_iff H3%Z.leb_gt]%orb_false_iff H4%Z.leb_gt].
  assert (0 ≤ prev ≤ eofTok) as Hp by (unfold SyntaxTokens.eofTok; lia).
  destruct (tok_at toks prev Hp) as [t Ht]. rewrite Ht. cbn [mbind option_bind].
  destruct (isBinaryOp_total prev Hp) as [a ->], (tokenIsAssign_total prev t Ht) as [b ->]. destruct a, b; cbn [orO mbind option_bind]; eauto.
  destruct (_ || _); eauto.
Qed.

Lemma classifyExpr_total start end_ : 0 ≤ start → start ≤ end_ → end_ ≤ eofTok → ∃ k, classifyExpr src toks start end_ = Some k.
Proof.
  intros H0 Hle He. unfold classifyExpr. pose proof (trimSpan_range start end_ Hle) as Hr.
  destruct (trimSpan toks start end_) as [s e]. simpl in Hr. destruct (Z.leb_spec e s); [by eexists|].
  unfold kindOf. destruct (tok_at toks s ltac:(lia)) as [t ->]. cbn [mbind option_bind].
  destruct (_ && _); [by eexists|]. destruct (_ && _); [by eexists|].
  destruct (isUnaryExpr_total s ltac:(lia)) as [[] ->]; cbn [mbind option_bind]; [by eexists|].
  unfold hasTopLevelBinary. destruct (topLevelBinary_total (Z.to_nat (e - s)) s noDepth) as [[] ->]; [lia|lia|by eexists|]. cbn [mbind option_bind].
  unfold spanHasChar, spanHasCall.
  destruct (spanHas_total (chr "{") s e) as [[] ->]; [lia|lia|by eexists|]. cbn [mbind option_bind].
  destruct (spanHas_total (chr "(") (s + 1) e) as [[] ->]; [lia|lia|by eexists|]. cbn [mbind option_bind].
  destruct (spanHas_total (chr "[") s e) as [[] ->]; [lia|lia|by eexists|]. cbn [mbind option_bind].
  destruct (spanHas_total (chr ".") s e) as [[] ->]; [lia|lia| |]; by eexists.
Qed.

(** * Ends of statements *)

Lemma lineEnds_total prev i : 0 ≤ prev ≤ eofTok → 0 ≤ i ≤ eofTok → ∃ b, lineEnds src toks prev i = Some b.
Proof.
  intros Hp Hi. unfold lineEnds. destruct (lineOf_total i Hi) as [a ->], (lineOf_total prev Hp) as [b ->]. cbn [mbind option_bind].
  destruct (lineContinues_total prev i) as [c ->]. destruct (negb _); by eexists.
Qed.

Lemma stmtEnd_total start limit n : 0 ≤ start → limit ≤ eofTok → ∀ i d, start ≤ i → i + Z.of_nat n = limit →
  ∃ r, stmtEnd src toks n start i limit d = Some r ∧ i ≤ r ≤ limit.
Proof.
  intros Hs Hl. induction n as [|n IH]; intros i d Hi Hn; cbn [stmtEnd]; [exists limit; split; [done|lia]|].
  destruct (charOf_total i ltac:(lia)) as [c ->]. cbn [mbind option_bind].
  destruct (_ && _); [exists (i + 1); split; [done|lia]|].
  destruct (guard_and (atTop d && (start <? i)) (lineEnds src toks (i - 1) i)) as (x & -> & _).
  { intros [_ ?%Z.ltb_lt]%andb_true_iff. apply lineEnds_total; lia. }
  cbn [mbind option_bind]. destruct x; [exists i; split; [done|lia]|]. destruct (_ && _); [exists i; split; [done|lia]|].
  destruct (IH (i + 1) (enterLoose c d)) as (r & -> & Hr); [lia..|]. exists r. split; [done|lia].
Qed.

Lemma findStmtEnd_total start limit : 0 ≤ start ≤ limit → limit ≤ eofTok →
  ∃ r, findStmtEnd src toks start limit = Some r ∧ start ≤ r ≤ limit.
Proof.
  intros Hs Hl. unfold findStmtEnd.
  destruct (guard_and ((start <? limit) && (0 <? start)) (lineEnds src toks (start - 1) start)) as (x & -> & _).
  { intros [_ ?%Z.ltb_lt]%andb_true_iff. apply lineEnds_total; lia. }
  cbn [mbind option_bind]. destruct x; [exists start; split; [done|lia]|].
  apply (stmtEnd_total start limit (Z.to_nat (limit - start))); lia.
Qed.

(** * Headers *)

Lemma headerLiteral_total i limit hdr : 0 ≤ i → limit ≤ eofTok →
  ∃ r, headerLiteral src toks i limit hdr = Some r ∧ ∀ close, r = Some close → i < close < limit.
Proof.
  intros Hi Hl. unfold headerLiteral. destruct (skipBalanced_spec _ _ Hok (chr "{") (chr "}") i) as (e & -> & He). cbn [mbind option_bind].
  destruct (guard_and ((i <? e) && (e <? limit)) (a ← lineOf toks (e - 1); b ← lineOf toks e; Some (a =? b))) as (x & -> & Hx).
  { intros [?%Z.ltb_lt ?%Z.ltb_lt]%andb_true_iff. destruct (lineOf_total (e - 1) ltac:(lia)) as [a ->], (lineOf_total e ltac:(lia)) as [b ->].
    by eexists. }
  cbn [mbind option_bind]. destruct x; [|by exists None]. destruct (Hx eq_refl) as [[H1%Z.ltb_lt H2%Z.ltb_lt]%andb_true_iff _].
  destruct (tok_at toks e ltac:(lia)) as [t Ht]. rewrite Ht. cbn [mbind option_bind]. pose proof (tok_span _ _ Hok _ _ Ht).
  assert (∃ c, (if t_Start t <? t_End t then src !!z t_Start t else Some 0) = Some c) as [c ->].
  { destruct (Z.ltb_spec (t_Start t) (t_End t)); [apply lookupZ_lt_is_Some; lia|by eexists]. }
  cbn [mbind option_bind]. eexists. split; [done|]. intros close. destruct (continuesHeader c hdr); [|done]. intros [= <-]. lia.
Qed.

Lemma blockStart_total limit fuel : limit ≤ eofTok → ∀ i paren bracket hdr, 0 ≤ i → limit - i ≤ Z.of_nat fuel →
  ∃ r, blockStart src toks fuel i limit paren bracket hdr = Some r ∧
    (r = -1 ∨ (i ≤ r < limit ∧ tokCharIs toks r (chr "{") = true)).
Proof.
  intros Hl. induction fuel as [|fuel IH]; intros i paren bracket hdr Hi Hf; cbn [blockStart]; (destruct (Z.ltb_spec i limit) as [Hlt|Hge]);
    try lia; try (exists (-1); split; [done|by left]).
  destruct (tok_at toks i ltac:(lia)) as [t Ht]. rewrite Ht. cbn [mbind option_bind]. cbv zeta.
  set (assign := if (paren =? 0) && (bracket =? 0) then _ else _).
  assert (∃ h, assign = Some h) as [h ->].
  { unfold assign. destruct (_ && _); [|by eexists].
    destruct (tokenTextIs_total src toks Hok i t (text ":=") Ht) as [a ->], (tokenTextIs_total src toks Hok i t (text "=") Ht) as [b ->].
    destruct a, b; cbn [orO mbind option_bind]; by eexists. }
  cbn [mbind option_bind].
  assert (∀ j p b, i < j → ∃ r, blockStart src toks fuel j limit p b h = Some r ∧ (r = -1 ∨ (i ≤ r < limit ∧ tokCharIs toks r (chr "{") = true))) as Hgo.
  { intros j p b Hj. destruct (IH j p b h) as (r & -> & Hr); [lia..|]. exists r. split; [done|]. destruct Hr as [?|[? ?]]; [by left|right; split; [lia|done]]. }
  destruct (tokenChar t =? chr "("); [apply Hgo; lia|]. destruct (tokenChar t =? chr ")"); [apply Hgo; lia|].
  destruct (tokenChar t =? chr "["); [apply Hgo; lia|]. destruct (tokenChar t =? chr "]"); [apply Hgo; lia|].
  destruct ((tokenChar t =? chr "{") && (paren =? 0) && (bracket =? 0)) eqn:Hc; [|apply Hgo; lia].
  destruct (headerLiteral_total i limit h Hi Hl) as (r & -> & Hr). cbn [mbind option_bind]. destruct r as [close|].
  - specialize (Hr close eq_refl). apply Hgo. lia.
  - exists i. split; [done|]. right. split; [lia|]. apply tokCharIs_true. exists t. split; [done|].
    by apply andb_true_iff in Hc as [[?%Z.eqb_eq _]%andb_true_iff _].
Qed.

Lemma findStmtBlockStart_total start limit : 0 ≤ start → limit ≤ eofTok →
  ∃ r, findStmtBlockStart src toks start limit = Some r ∧ (r = -1 ∨ (start ≤ r < limit ∧ tokCharIs toks r (chr "{") = true)).
Proof. intros Hs Hl. apply blockStart_total; [done|done|]. unfold SyntaxTokens.eofTok, lenZ in *. lia. Qed.

(** * Statement trees *)

(** Only semicolons from [lo] up to [hi]. *)
Definition separators (lo hi : Z) : Prop := lo ≤ hi ∧ ∀ i, lo ≤ i < hi → tokCharIs toks i (chr ";") = true.

Lemma separators_none lo : separators lo lo.
Proof. split; [done|lia]. Qed.

Lemma separators_upto lo hi hi' : separators lo hi → lo ≤ hi' ≤ hi → separators lo hi'.
Proof. intros [_ Hs] Hle. split; [lia|]. intros i Hi. apply Hs. lia. Qed.

Lemma skipSeparators_separators fuel : ∀ i r, skipSeparators toks fuel i = Some r → separators i r.
Proof.
  induction fuel as [|fuel IH]; intros i r; cbn [skipSeparators]; destruct (_ && _) eqn:Hc; try done;
    try (intros [= <-]; apply separators_none).
  intros Hr. destruct (IH _ _ Hr) as [Hle Hs]. apply andb_true_iff in Hc as [_ Hc]. split; [lia|].
  intros k Hk. destruct (decide (k = i)) as [->|]; [done|]. apply Hs. lia.
Qed.

(** Where a header with its else ends. *)
Definition part_end (bodyEnd : Z) (part : elsePart) : Z :=
  match part with
  | NoElse => bodyEnd
  | ElseIf _ end_ => end_
  | ElseBlock _ close => close + 1
  end.

(** What follows the block of an if statement. *)
Definition part_ok (limit bodyEnd elseStart : Z) (part : elsePart) : Prop :=
  match part with
  | NoElse => elseStart = -1
  | ElseIf start end_ => separators bodyEnd elseStart ∧ kindAt elseStart TokenElse ∧ start = elseStart + 1 ∧ kindAt start TokenIf ∧
      start < end_ ≤ limit ∧ findIfEnd src toks (length toks) start limit = Some end_
  | ElseBlock open close => separators bodyEnd elseStart ∧ kindAt elseStart TokenElse ∧ open = elseStart + 1 ∧ braced open (close + 1) ∧ close < limit
  end.

Lemma findIfEnd_mono fuel : ∀ fuel' start limit r, (fuel ≤ fuel')%nat →
  findIfEnd src toks fuel start limit = Some r → findIfEnd src toks fuel' start limit = Some r.
Proof.
  induction fuel as [|fuel IH]; intros fuel' start limit r Hle; [done|]. destruct fuel' as [|fuel']; [lia|]. cbn [findIfEnd].
  destruct (findStmtBlockStart src toks (start + 1) limit) as [bs|]; [|done]. cbn [mbind option_bind]. destruct (bs <? 0); [done|].
  destruct (skipBalanced toks bs (chr "{") (chr "}")) as [be|]; [|done]. cbn [mbind option_bind]. destruct (_ || _); [done|].
  destruct (skipStmtSeparators toks be) as [next|]; [|done]. cbn [mbind option_bind].
  destruct (Some (next <? limit) &&? _) as [[]|]; cbn [mbind option_bind]; [|done..].
  destruct (Some (next + 1 <? limit) &&? _) as [[]|]; cbn [mbind option_bind]; [|done..]. apply IH. lia.
Qed.

Section block.
(** Statements are read between the braces of a block. *)
Context (open limit : Z) (Hblock : braced open (limit + 1)).

Lemma block_range : 0 ≤ open < limit ∧ limit < eofTok.
Proof. destruct (grouped_range _ _ Hok _ _ _ _ Hblock). lia. Qed.

(** The block behind a header. *)
Lemma header_block start : open < start < limit →
  ∃ bs, findStmtBlockStart src toks (start + 1) limit = Some bs ∧
    (bs = -1 ∨ (start < bs ∧ ∃ be, skipBalanced toks bs (chr "{") (chr "}") = Some be ∧ (be = bs ∨ (bs < be ≤ limit ∧ braced bs be)))).
Proof.
  intros Hs. pose proof block_range. destruct (findStmtBlockStart_total (start + 1) limit) as (bs & -> & Hbs); [lia..|].
  exists bs. split; [done|]. destruct Hbs as [->|[Hbs Hc]]; [by left|]. right. split; [lia|].
  destruct (skipBalanced_spec _ _ Hok (chr "{") (chr "}") bs) as (be & Hbe & Hcase). exists be. split; [done|].
  destruct Hcase as [[-> _]|[Hlt Hg]]; [by left|]. right. split; [|done].
  pose proof (braced_inside open (limit + 1) bs be Hblock ltac:(lia) Hg). lia.
Qed.

Lemma skipStmt_total i : 0 ≤ i → ∃ r, skipStmtSeparators toks i = Some r ∧ separators i r.
Proof.
  intros Hi. destruct (skip_total src toks Hok i Hi) as (r & Hr & _). exists r. split; [done|].
  by apply (skipSeparators_separators (length toks)).
Qed.

(** Whether a token of some kind follows. *)
Lemma follows i k : 0 ≤ i → ∃ b, (Some (i <? limit) &&? kindIs toks i (Z.eqb k)) = Some b ∧ (b = true → i < limit ∧ kindAt i k).
Proof.
  intros Hi. pose proof block_range. destruct (guard_and (i <? limit) (kindIs toks i (Z.eqb k))) as (b & -> & Hb).
  { intros ?%Z.ltb_lt. apply (kindIs_total toks). lia. }
  exists b. split; [done|]. intros [?%Z.ltb_lt Hk]%Hb. split; [done|]. by eapply kindIs_eqb.
Qed.

Lemma findIfEnd_total fuel : ∀ start, open < start < limit → limit - start ≤ Z.of_nat fuel →
  ∃ r, findIfEnd src toks fuel start limit = Some r ∧ (r = -1 ∨ start < r ≤ limit).
Proof.
  induction fuel as [|fuel IH]; intros start Hs Hf; [lia|]. cbn [findIfEnd]. pose proof block_range.
  destruct (header_block start Hs) as (bs & -> & Hbs). cbn [mbind option_bind].
  destruct Hbs as [->|(Hlt & be & Hbe & Hcase)]; [exists (-1); split; [done|by left]|].
  rewrite (proj2 (Z.ltb_ge bs 0)), Hbe by lia. cbn [mbind option_bind].
  destruct Hcase as [->|[Hr Hg]]; [rewrite (proj2 (Z.leb_le bs bs)) by lia; exists (-1); split; [done|by left]|].
  rewrite (proj2 (Z.leb_gt be bs)), (proj2 (Z.ltb_ge _ be)) by lia. simpl orb. cbv iota.
  destruct (skipStmt_total be ltac:(lia)) as (next & -> & Hsep). pose proof (proj1 Hsep) as Hn. cbn [mbind option_bind].
  destruct (follows next TokenElse ltac:(lia)) as ([] & -> & Helse); cbn [mbind option_bind]; [|exists be; split; [done|right; lia]].
  destruct (Helse eq_refl) as [Hnl _].
  destruct (follows (next + 1) TokenIf ltac:(lia)) as ([] & -> & Hif); cbn [mbind option_bind].
  - destruct (Hif eq_refl) as [Hl' _]. destruct (IH (next + 1)) as (r & -> & Hr'); [lia..|]. exists r. split; [done|]. destruct Hr'; [by left|right; lia].
  - destruct (tokCharIs toks (next + 1) (chr "{")); [|exists (-1); split; [done|by left]].
    destruct (skipBalanced_spec _ _ Hok (chr "{") (chr "}") (next + 1)) as (e & -> & He). cbn [mbind option_bind].
    destruct (Z.leb_spec (e - 1) next), (Z.leb_spec limit (e - 1)); simpl; eexists; (split; [done|]); try (by left). right. lia.
Qed.

(** What follows the block of an if statement. *)
Lemma findElse_total be : open < be ≤ limit →
  ∃ r, findElse src toks be limit = Some r ∧
    match r with
    | inl (es, part) => part_ok limit be es part
    | inr (err, tok) => BodyErrFunc ≤ err ≤ BodyErrStmt
    end.
Proof.
  intros Hb. pose proof block_range. unfold findElse.
  destruct (skipStmt_total be ltac:(lia)) as (next & -> & Hsep). pose proof (proj1 Hsep) as Hn. cbn [mbind option_bind].
  destruct (follows next TokenElse ltac:(lia)) as ([] & -> & Helse); cbn [mbind option_bind]; [|by eexists].
  destruct (Helse eq_refl) as [Hnl Hke].
  destruct (follows (next + 1) TokenIf ltac:(lia)) as ([] & -> & Hif); cbn [mbind option_bind].
  - destruct (Hif eq_refl) as [Hl' Hki].
    destruct (findIfEnd_total (length toks) (next + 1)) as (r & Hr & Hcase); [lia|unfold SyntaxTokens.eofTok, lenZ in *; lia|].
    rewrite Hr. cbn [mbind option_bind]. eexists. split; [done|]. destruct (Z.leb_spec r (next + 1)); [done|]. simpl. split_and!; try done; lia.
  - destruct (tokCharIs toks (next + 1) (chr "{")); [|by eexists].
    destruct (skipBalanced_spec _ _ Hok (chr "{") (chr "}") (next + 1)) as (e & -> & He). cbn [mbind option_bind]. eexists. split; [done|].
    destruct (Z.leb_spec (e - 1) next), (Z.leb_spec limit (e - 1)); simpl; try done. destruct He as [[-> _]|[He Hg]]; [lia|].
    replace (e - 1 + 1) with e by lia. split_and!; try done; lia.
Qed.

Lemma blockHeader_total start kind : open < start < limit →
  ∃ r, blockHeader src toks start limit kind = Some r ∧
    match r with
    | inl (bs, be, es, part) => start < bs ∧ braced bs be ∧ be ≤ limit ∧ part_ok limit be es part ∧ (kind ≠ StmtIf → part = NoElse)
    | inr (err, tok) => BodyErrFunc ≤ err ≤ BodyErrStmt
    end.
Proof.
  intros Hs. pose proof block_range. unfold blockHeader. destruct (header_block start Hs) as (bs & -> & Hbs). cbn [mbind option_bind].
  destruct Hbs as [->|(Hlt & be & Hbe & Hcase)]; [by eexists|].
  rewrite (proj2 (Z.ltb_ge bs 0)), Hbe by lia. cbn [mbind option_bind].
  destruct Hcase as [->|[Hr Hg]]; [rewrite (proj2 (Z.leb_le bs bs)) by lia; by eexists|].
  rewrite (proj2 (Z.leb_gt be bs)), (proj2 (Z.ltb_ge _ be)) by lia. simpl orb. cbv iota.
  destruct (Z.eqb_spec kind StmtIf) as [->|Hk]; [|eexists; split; [done|]; split_and!; done || lia].
  destruct (findElse_total be ltac:(lia)) as (r & -> & Hr'). cbn [mbind option_bind]. eexists. split; [done|].
  destruct r as [[es part]|[err tok]]; [|done]. split_and!; done || lia.
Qed.

(** The search for the end of an if statement agrees with the reading of its header. *)
Lemma findIfEnd_header fuel start r : (fuel ≤ length toks)%nat → open < start < limit →
  findIfEnd src toks fuel start limit = Some r → start < r →
  ∃ bs be es part, blockHeader src toks start limit StmtIf = Some (inl (bs, be, es, part)) ∧ part_end be part = r.
Proof.
  intros Hfuel Hs Hrun Hlt. pose proof block_range. destruct fuel as [|fuel]; [done|]. cbn [findIfEnd] in Hrun. unfold blockHeader.
  destruct (header_block start Hs) as (bs & Hstart & Hbs). rewrite Hstart in Hrun |- *. cbn [mbind option_bind] in Hrun |- *.
  destruct Hbs as [->|(Hlt' & be & Hbe & Hcase)]; [injection Hrun as <-; lia|].
  rewrite (proj2 (Z.ltb_ge bs 0)), Hbe in Hrun |- * by lia. cbn [mbind option_bind] in Hrun |- *.
  destruct Hcase as [->|[Hr Hg]]; [rewrite (proj2 (Z.leb_le bs bs)) in Hrun by lia; injection Hrun as <-; lia|].
  rewrite (proj2 (Z.leb_gt be bs)), (proj2 (Z.ltb_ge _ be)) in Hrun |- * by lia. simpl orb in Hrun |- *. cbv iota in Hrun |- *.
  unfold findElse. change (StmtIf =? StmtIf) with true. cbv iota.
  destruct (skipStmt_total be ltac:(lia)) as (next & Hskip & [Hn _]). rewrite Hskip in Hrun |- *. cbn [mbind option_bind] in Hrun |- *.
  destruct (follows next TokenElse ltac:(lia)) as (b & Hb & Helse). rewrite Hb in Hrun |- *. cbn [mbind option_bind] in Hrun |- *.
  destruct b; [|injection Hrun as <-; eexists _, _, _, _; split; [reflexivity|done]].
  destruct (follows (next + 1) TokenIf ltac:(lia)) as (b & Hb' & Hif). rewrite Hb' in Hrun |- *. cbn [mbind option_bind] in Hrun |- *. destruct b.
  - destruct (Hif eq_refl) as [Hl' _]. pose proof (findIfEnd_mono fuel (length toks) _ _ _ ltac:(lia) Hrun) as Hrun'. rewrite Hrun'. cbn [mbind option_bind].
    destruct (findIfEnd_total (length toks) (next + 1)) as (r' & Hr' & Hcase); [lia|unfold SyntaxTokens.eofTok, lenZ in *; lia|].
    rewrite Hr' in Hrun'. injection Hrun' as ->. destruct Hcase as [->|Hcase]; [lia|].
    rewrite (proj2 (Z.leb_gt _ _)) by lia. eexists _, _, _, _. split; [reflexivity|done].
  - destruct (tokCharIs toks (next + 1) (chr "{")); [|injection Hrun as <-; lia].
    destruct (skipBalanced toks (next + 1) (chr "{") (chr "}")) as [e|]; [|done]. cbn [mbind option_bind] in Hrun |- *.
    destruct (_ || _); injection Hrun as <-; [lia|]. eexists _, _, _, _. split; [reflexivity|]. simpl. lia.
Qed.
End block.

(** ** The specification *)

Definition blockStmt (start end_ : Z) : Stmt := MkStmt StmtBlock start end_ (-1) (-1) start end_ (-1) (-1).

(** The statements without a block, by the kind of their first token. *)
Definition plainKinds : list (Z * Z) :=
  [(StmtReturn, TokenReturn); (StmtCase, TokenCase); (StmtDefault, TokenDefault); (StmtDecl, TokenConst);
   (StmtDecl, TokenVar); (StmtDecl, TokenType); (StmtBreak, TokenBreak); (StmtContinue, TokenContinue);
   (StmtFallthrough, TokenFallthrough); (StmtGoto, TokenGoto); (StmtDefer, TokenDefer); (StmtGo, TokenGo);
   (StmtLabel, TokenIdent)].

(** The first tokens of expressions and assignments: no keyword of another statement. *)
Definition starts_expr (k : Z) : Prop := blockKind k = None ∧ ∀ kind, (kind, k) ∈ plainKinds → kind = StmtLabel.

(** The kind of a statement without a block: that of its first token, and otherwise
    whether an operator in it assigns. *)
Definition kind_ok (start end_ kind : Z) : Prop :=
  ∃ k, kindAt start k ∧
    ((kind, k) ∈ plainKinds ∨
     starts_expr k ∧ spanHasAssign src toks start end_ = Some (kind =? StmtAssign) ∧ (kind = StmtExpr ∨ kind = StmtAssign)).

Lemma kind_ok_plain start end_ kind k : kindAt start k → (kind, k) ∈ plainKinds → kind_ok start end_ kind.
Proof. intros Hk Hin. exists k. by split; [|left]. Qed.

(** No token, or a span. *)
Definition span_in (lo hi a b : Z) : Prop := (a = -1 ∧ b = -1) ∨ (lo ≤ a ≤ b ∧ b ≤ hi).

Record plain_ok (s : Stmt) : Prop := {
  pl_kind : kind_ok (st_StartTok s) (st_EndTok s) (st_Kind s);
  pl_span : st_StartTok s < st_EndTok s;
  pl_expr : span_in (st_StartTok s) (st_EndTok s) (st_ExprStart s) (st_ExprEnd s);
  pl_body : st_BodyStart s = -1 ∧ st_BodyEnd s = -1;
  pl_else : st_ElseStart s = -1 ∧ st_ElseEnd s = -1 }.

(** A statement with a block: its keyword, the header and the braces. *)
Record header_ok (s : Stmt) : Prop := {
  hd_kind : ∃ k, kindAt (st_StartTok s) k ∧ blockKind k = Some (st_Kind s);
  hd_body : st_StartTok s < st_BodyStart s ∧ braced (st_BodyStart s) (st_BodyEnd s);
  hd_expr : st_StartTok s < st_ExprStart s ≤ st_ExprEnd s ∧ st_ExprEnd s ≤ st_BodyStart s }.

(** The statements of a tree from its first token to its end, in the order of the
    source, and the trees in a block: they cover it, with semicolons only between the
    trees, before the first and behind the last. *)
Inductive tree : Z → Z → list Stmt → Prop :=
| tree_plain s : plain_ok s → tree (st_StartTok s) (st_EndTok s) [s]
| tree_block start end_ inner :
    braced start end_ → forest (start + 1) (end_ - 1) inner → tree start end_ (blockStmt start end_ :: inner)
| tree_header s inner :
    header_ok s → st_ElseStart s = -1 → st_ElseEnd s = -1 → st_EndTok s = st_BodyEnd s →
    forest (st_BodyStart s + 1) (st_BodyEnd s - 1) inner →
    tree (st_StartTok s) (st_EndTok s) (s :: blockStmt (st_BodyStart s) (st_BodyEnd s) :: inner)
| tree_else s inner inner' :
    header_ok s → st_Kind s = StmtIf → separators (st_BodyEnd s) (st_ElseStart s) → kindAt (st_ElseStart s) TokenElse → st_EndTok s = st_ElseEnd s →
    forest (st_BodyStart s + 1) (st_BodyEnd s - 1) inner →
    braced (st_ElseStart s + 1) (st_ElseEnd s) → forest (st_ElseStart s + 1 + 1) (st_ElseEnd s - 1) inner' →
    tree (st_StartTok s) (st_EndTok s)
      (s :: blockStmt (st_BodyStart s) (st_BodyEnd s) :: inner ++ blockStmt (st_ElseStart s + 1) (st_ElseEnd s) :: inner')
| tree_else_if s inner rest :
    header_ok s → st_Kind s = StmtIf → separators (st_BodyEnd s) (st_ElseStart s) → kindAt (st_ElseStart s) TokenElse → st_EndTok s = st_ElseEnd s →
    forest (st_BodyStart s + 1) (st_BodyEnd s - 1) inner →
    kindAt (st_ElseStart s + 1) TokenIf → tree (st_ElseStart s + 1) (st_ElseEnd s) rest →
    tree (st_StartTok s) (st_EndTok s) (s :: blockStmt (st_BodyStart s) (st_BodyEnd s) :: inner ++ rest)
with forest : Z → Z → list Stmt → Prop :=
| forest_nil lo hi : separators lo hi → forest lo hi []
| forest_cons lo start end_ hi l l' :
    separators lo start → tree start end_ l → end_ ≤ hi → forest end_ hi l' → forest lo hi (l ++ l').

(** The expression of a statement, if it has one. *)
Definition stmtExpr (s : Stmt) : option (Z * Z) :=
  if (0 <=? st_ExprStart s) && (st_ExprStart s <? st_ExprEnd s) then Some (st_ExprStart s, st_ExprEnd s) else None.

(** The expressions of a body are those of its statements, unless only statements are
    asked for, and have their kinds. *)
Record recorded (b : Body) : Prop := {
  re_spans : ((λ e, (e_StartTok e, e_EndTok e)) <$> b_Exprs b) = if b_stmtsOnly b then [] else omap stmtExpr (b_Stmts b);
  re_kinds : Forall (λ e, classifyExpr src toks (e_StartTok e) (e_EndTok e) = Some (e_Kind e)) (b_Exprs b) }.

(** What a run adds to a body. *)
Record run_ok (P : list Stmt → Prop) (b b' : Body) : Prop := {
  ru_recorded : recorded b → recorded b';
  ru_only : b_stmtsOnly b' = b_stmtsOnly b;
  ru_stmts : ∃ l, b_Stmts b' = b_Stmts b ++ l ∧
    if b_Ok b' then b_Error b' = b_Error b ∧ P l else BodyErrFunc ≤ b_Error b' ≤ BodyErrStmt }.

Lemma run_ok_refl (P : list Stmt → Prop) b : b_Ok b = true → P [] → run_ok P b b.
Proof. intros Hb HP. split; [done|done|]. exists []. by rewrite app_nil_r, Hb. Qed.

Lemma run_ok_impl (P Q : list Stmt → Prop) b b' : run_ok P b b' → (∀ l, P l → Q l) → run_ok Q b b'.
Proof. intros [H1 H2 (l & Hl & H3)] HPQ. split; [done|done|]. exists l. split; [done|]. destruct (b_Ok b'); naive_solver. Qed.

Lemma run_ok_trans (P Q : list Stmt → Prop) b b1 b2 :
  run_ok P b b1 → b_Ok b1 = true → run_ok Q b1 b2 → run_ok (λ l, ∃ l1 l2, l = l1 ++ l2 ∧ P l1 ∧ Q l2) b b2.
Proof.
  intros [H1 H2 (l & Hl & H3)] Hb [H4 H5 (l' & Hl' & H6)]. rewrite Hb in H3. destruct H3 as [He HP].
  split; [tauto|congruence|]. exists (l ++ l'). split; [by rewrite Hl', Hl, app_assoc|].
  destruct (b_Ok b2); [|done]. destruct H6 as [He' HQ]. split; [congruence|]. by exists l, l'.
Qed.

(** A failure after a run. *)
Lemma run_ok_fail (P Q : list Stmt → Prop) b b' err tok :
  run_ok P b b' → BodyErrFunc ≤ err ≤ BodyErrStmt → run_ok Q b (bodyFail b' err tok).
Proof. intros [H1 H2 (l & Hl & _)] He. split; [|done|by exists l]. intros Hr. destruct (H1 Hr) as [Hs Hk]. by split. Qed.

Lemma run_ok_error (P Q : list Stmt → Prop) b b' : run_ok P b b' → b_Ok b' = false → run_ok Q b b'.
Proof. intros [H1 H2 (l & Hl & H3)] Hb. split; [done|done|]. exists l. by rewrite Hb in *. Qed.

(** ** Adding statements *)

Lemma addStmt_run s b : b_Ok b = true → st_ExprStart s = -1 → run_ok (λ l, l = [s]) b (addStmt s b).
Proof.
  intros Hb Hs. split; [|done|exists [s]; simpl; by rewrite Hb]. intros [H1 H2]. split; [|done]. simpl. rewrite H1.
  destruct (b_stmtsOnly b); [done|]. rewrite omap_app. simpl. unfold stmtExpr. rewrite Hs. simpl. by rewrite app_nil_r.
Qed.

Lemma appendStmtExpr_spec s b lo :
  b_Ok b = true → 0 ≤ lo → span_in lo eofTok (st_ExprStart s) (st_ExprEnd s) →
  wp False (appendStmtExpr src toks s) (λ _ b', run_ok (λ l, l = [s]) b b' ∧ b_Ok b' = true) b.
Proof.
  intros Hb Hlo Hs. unfold appendStmtExpr. do 4 wp_step.
  destruct (negb (b_stmtsOnly (addStmt s b)) && (0 <=? st_ExprStart s) && (st_ExprStart s <? st_ExprEnd s)) eqn:Hc.
  - apply andb_true_iff in Hc as [[Honly%negb_true_iff H0]%andb_true_iff H1]. simpl in Honly.
    destruct (classifyExpr_total (st_ExprStart s) (st_ExprEnd s)) as [k Hk].
    { by apply Z.leb_le. } { apply Z.ltb_lt in H1. lia. } { apply Z.leb_le in H0. destruct Hs; lia. }
    wp_step. eapply wp_lift; [done|]. wp_step. split; [|done]. split; [|done|exists [s]; simpl; by rewrite Hb].
    intros [Hsp Hki]. split; simpl.
    + rewrite fmap_app, Hsp, Honly, omap_app. simpl. unfold stmtExpr. by rewrite H0, H1.
    + apply Forall_app. split; [done|]. by apply list.Forall_singleton.
  - wp_step. split; [|done]. split; [|done|exists [s]; simpl; by rewrite Hb]. intros [Hsp Hki]. split; [|done]. simpl in *.
    rewrite Hsp. destruct (b_stmtsOnly b); [done|]. simpl in Hc. rewrite omap_app. simpl. unfold stmtExpr. rewrite Hc. by rewrite app_nil_r.
Qed.

(** ** Statements without a block *)

Section statements.
Context (open limit : Z) (Hblock : braced open (limit + 1)).

(** What [parseStmt] answers at [start]. *)
Definition stmt_run (start : Z) (b : Body) (next : Z) (b' : Body) : Prop :=
  run_ok (λ l, start < next ≤ limit ∧ tree start next l) b b'.

Lemma stmt_run_one s b b' :
  run_ok (λ l, l = [s]) b b' → plain_ok s → st_EndTok s ≤ limit → stmt_run (st_StartTok s) b (st_EndTok s) b'.
Proof.
  intros Hrun Hs He. eapply run_ok_impl; [done|]. intros l ->. split; [|by apply tree_plain]. pose proof (pl_span _ Hs). lia.
Qed.

(** The expression of a plain statement lies between its ends. *)
Lemma plain_span kind start end_ lo hi :
  start < end_ → kind_ok start end_ kind → start ≤ lo ≤ hi → hi ≤ end_ →
  plain_ok (withExpr (trimSpan toks lo hi) (newStmt kind start end_)).
Proof.
  intros Hlt Hk Hlo Hhi. pose proof (trimSpan_range lo hi ltac:(lia)) as Hr. split; try done. right.
  change (start ≤ (trimSpan toks lo hi).1 ≤ (trimSpan toks lo hi).2 ∧ (trimSpan toks lo hi).2 ≤ end_). lia.
Qed.

Lemma plain_none kind start end_ :
  start < end_ → kind_ok start end_ kind → plain_ok (newStmt kind start end_).
Proof. intros Hlt Hk. split; simpl; try done. by left. Qed.

(** The statement is added with its expression. *)
Lemma append_plain s start end_ b :
  b_Ok b = true → 0 ≤ start → end_ ≤ limit → plain_ok s → st_StartTok s = start → st_EndTok s = end_ →
  wp False (_ ← appendStmtExpr src toks s; mret end_) (stmt_run start b) b.
Proof.
  intros Hb H0 He Hs <- <-. pose proof (block_range open limit Hblock). wp_step. eapply wp_conseq.
  { apply (appendStmtExpr_spec s b (st_StartTok s)); [done|done|]. destruct (pl_expr _ Hs) as [?|?]; [by left|right; lia]. }
  intros ? b' [Hrun _]. wp_step. by apply stmt_run_one.
Qed.

Lemma simpleStmt_spec kind k start withSpan b :
  b_Ok b = true → open < start < limit → kindAt start k → (kind, k) ∈ plainKinds →
  wp False (simpleStmt src toks kind start limit withSpan) (stmt_run start b) b.
Proof.
  intros Hb Hs Hk Hin. pose proof (block_range open limit Hblock). unfold simpleStmt.
  destruct (findStmtEnd_total (start + 1) limit) as (e & He & Hr); [lia..|]. wp_step. eapply wp_lift; [done|]. destruct withSpan.
  - apply append_plain; try done; [lia..|]. apply plain_span; [lia|by eapply kind_ok_plain|lia|lia].
  - do 3 wp_step. apply (stmt_run_one (newStmt kind start e)); [by apply addStmt_run| |simpl; lia]. apply plain_none; [lia|by eapply kind_ok_plain].
Qed.

Lemma gotoStmt_spec start b :
  b_Ok b = true → open < start < limit → kindAt start TokenGoto →
  wp False (gotoStmt src toks start limit) (stmt_run start b) b.
Proof.
  intros Hb Hs Hk. pose proof (block_range open limit Hblock). unfold gotoStmt.
  destruct (findStmtEnd_total (start + 1) limit) as (e & He & Hr); [lia..|]. wp_step. eapply wp_lift; [done|].
  set (stmt := withExpr _ _). assert (plain_ok stmt) as Hp.
  { apply plain_span; [lia|apply (kind_ok_plain _ _ _ TokenGoto); [done|repeat constructor]|lia|lia]. }
  pose proof (pl_expr _ Hp) as Hex. change (st_StartTok stmt) with start in Hex. change (st_EndTok stmt) with e in Hex.
  destruct (guard_or (negb (st_ExprEnd stmt - st_ExprStart stmt =? 1)) (kindIs toks (st_ExprStart stmt) (λ k, negb (k =? TokenIdent)))) as (bad & Hbad & _).
  { intros H1%negb_false_iff%Z.eqb_eq. apply (kindIs_total toks). destruct Hex; lia. }
  wp_step. eapply wp_lift; [done|]. destruct bad.
  - unfold fail. do 3 wp_step. apply (run_ok_fail (λ _, True)); [by apply run_ok_refl|done].
  - apply append_plain; try done; lia.
Qed.

Lemma caseStmt_spec start b :
  b_Ok b = true → open < start < limit → kindAt start TokenCase →
  wp False (caseStmt src toks start limit) (stmt_run start b) b.
Proof.
  intros Hb Hs Hk. pose proof (block_range open limit Hblock). unfold caseStmt.
  destruct (findCaseHeaderEnd_total (start + 1) limit) as (e & He & Hr); [lia..|]. wp_step. eapply wp_lift; [done|].
  unfold findTopLevelChar. destruct (topLevelChar_total (chr ":") (Z.to_nat (e - (start + 1))) (start + 1) noDepth) as (c & Hc & Hcr); [lia|lia|].
  wp_step. eapply wp_lift; [done|].
  assert (kind_ok start e StmtCase) as Hkind by (apply (kind_ok_plain _ _ _ TokenCase); [done|repeat constructor]).
  apply append_plain; try done; try lia; destruct (Z.leb_spec 0 c); try done; [apply plain_span|apply plain_none]; try done; lia.
Qed.

Lemma defaultStmt_spec start b :
  b_Ok b = true → open < start < limit → kindAt start TokenDefault →
  wp False (defaultStmt toks start limit) (stmt_run start b) b.
Proof.
  intros Hb Hs Hk. pose proof (block_range open limit Hblock). unfold defaultStmt.
  destruct (findCaseHeaderEnd_total (start + 1) limit) as (e & He & Hr); [lia..|]. wp_step. eapply wp_lift; [done|]. do 3 wp_step.
  apply (stmt_run_one (newStmt StmtDefault start e)); [by apply addStmt_run| |simpl; lia].
  apply plain_none; [lia|]. apply (kind_ok_plain _ _ _ TokenDefault); [done|repeat constructor].
Qed.

Lemma exprStmt_spec start k b :
  b_Ok b = true → open < start < limit → kindAt start k → starts_expr k →
  wp False (exprStmt src toks start limit) (stmt_run start b) b.
Proof.
  intros Hb Hs Hk Hst. pose proof (block_range open limit Hblock). unfold exprStmt.
  destruct (findStmtEnd_total (start + 1) limit) as (e & He & Hr); [lia..|]. wp_step. eapply wp_lift; [done|].
  destruct (findAssign_total start e) as (a & Ha & Har); [lia..|]. wp_step. eapply wp_lift; [unfold spanHasAssign; by rewrite Ha|].
  assert (kind_ok start e (if 0 <=? a then StmtAssign else StmtExpr)) as Hkind.
  { exists k. split; [done|]. right. split; [done|]. unfold spanHasAssign. rewrite Ha. cbn [mbind option_bind]. destruct (0 <=? a); (split; [done|auto]). }
  wp_step. destruct (Z.leb_spec 0 a).
  - wp_step. eapply wp_lift; [done|]. wp_step. apply append_plain; try done; [lia..|]. apply plain_span; [lia|done|lia|lia].
  - wp_step. apply append_plain; try done; [lia..|]. apply plain_span; [lia|done|lia|lia].
Qed.

Lemma label_end start : start < limit → tokCharIs toks (start + 1) (chr ":") = true → start + 2 ≤ limit.
Proof.
  intros Hs Hc. destruct (decide (start + 1 = limit)) as [He|]; [|lia]. exfalso.
  destruct (grouped_chars src toks Hok _ _ _ _ Hblock) as [_ Hend]. replace (limit + 1 - 1) with (start + 1) in Hend by lia.
  apply tokCharIs_true in Hc as (t & Ht & Hc). apply tokCharIs_true in Hend as (t' & Ht' & Hc'). rewrite Ht in Ht'. injection Ht' as <-. by rewrite Hc in Hc'.
Qed.

Lemma keywordStmt_spec start t run b :
  b_Ok b = true → open < start < limit → toks !!z start = Some t →
  keywordStmt src toks (tokenKind t) start limit = Some run → wp False run (stmt_run start b) b.
Proof.
  intros Hb Hs Ht. pose proof (block_range open limit Hblock).
  assert (∀ k, (tokenKind t =? k) = true → kindAt start k) as Hk by (intros k ?%Z.eqb_eq; by exists t).
  assert (∀ kind k w, (tokenKind t =? k) = true → (kind, k) ∈ plainKinds →
    wp False (simpleStmt src toks kind start limit w) (stmt_run start b) b) as Hsimple.
  { intros kind k w Hkk Hin. apply (simpleStmt_spec kind k); auto. }
  unfold keywordStmt. cbv zeta.
  destruct (tokenKind t =? TokenReturn) eqn:H1; [intros [= <-]; by eapply Hsimple; [done|repeat constructor]|].
  destruct (tokenKind t =? TokenCase) eqn:H2; [intros [= <-]; apply caseStmt_spec; auto|].
  destruct (tokenKind t =? TokenDefault) eqn:H3; [intros [= <-]; apply defaultStmt_spec; auto|].
  destruct (_ || _ || _) eqn:H4.
  { intros [= <-]. apply orb_true_iff in H4 as [[H4|H4]%orb_true_iff|H4]; by eapply Hsimple; [done|repeat constructor]. }
  destruct (tokenKind t =? TokenBreak) eqn:H5; [intros [= <-]; by eapply Hsimple; [done|repeat constructor]|].
  destruct (tokenKind t =? TokenContinue) eqn:H6; [intros [= <-]; by eapply Hsimple; [done|repeat constructor]|].
  destruct (tokenKind t =? TokenFallthrough) eqn:H7; [intros [= <-]; by eapply Hsimple; [done|repeat constructor]|].
  destruct (tokenKind t =? TokenGoto) eqn:H8; [intros [= <-]; apply gotoStmt_spec; auto|].
  destruct (tokenKind t =? TokenDefer) eqn:H9; [intros [= <-]; by eapply Hsimple; [done|repeat constructor]|].
  destruct (tokenKind t =? TokenGo) eqn:H10; [intros [= <-]; by eapply Hsimple; [done|repeat constructor]|done].
Qed.

(** What is no keyword starts an expression. *)
Lemma keywordStmt_none k start :
  blockKind k = None → keywordStmt src toks k start limit = None → starts_expr k.
Proof.
  intros Hb Hk. split; [done|]. intros kind Hin. unfold plainKinds in Hin.
  repeat (apply elem_of_cons in Hin as [[= -> ->]|Hin]; [done|]). by apply not_elem_of_nil in Hin.
Qed.

Lemma plainStmt_spec start t b :
  b_Ok b = true → open < start < limit → toks !!z start = Some t → starts_expr (tokenKind t) →
  wp False (plainStmt src toks (tokenKind t) start limit) (stmt_run start b) b.
Proof.
  intros Hb Hs Ht Hst. pose proof (block_range open limit Hblock). unfold plainStmt.
  destruct (_ && _) eqn:Hlabel; [|apply (exprStmt_spec start (tokenKind t)); try done; by exists t].
  apply andb_true_iff in Hlabel as [Hid%Z.eqb_eq Hc]. pose proof (label_end start ltac:(lia) Hc). do 3 wp_step.
  apply (stmt_run_one (newStmt StmtLabel start (start + 2))); [by apply addStmt_run| |simpl; lia].
  apply plain_none; [lia|]. apply (kind_ok_plain _ _ _ TokenIdent); [by exists t|repeat constructor].
Qed.
End statements.

(** ** All statements *)

Definition stmt_spec (fuel : nat) : Prop := ∀ open limit start b,
  braced open (limit + 1) → open < start < limit → 3 * (limit - start) ≤ Z.of_nat fuel → b_Ok b = true →
  wp False (parseStmt src toks fuel start limit) (λ next b', stmt_run limit start b next b' ∧
    (b_Ok b' = true → ∀ bs be es part, kindAt start TokenIf →
       blockHeader src toks start limit StmtIf = Some (inl (bs, be, es, part)) → next = part_end be part)) b.

(** The statements of a block. *)
Definition block_tree (open end_ : Z) (l : list Stmt) : Prop :=
  ∃ inner, l = blockStmt open end_ :: inner ∧ forest (open + 1) (end_ - 1) inner.

Definition block_spec (fuel : nat) : Prop := ∀ open close b,
  braced open (close + 1) → 3 * (close - open) - 1 ≤ Z.of_nat fuel → b_Ok b = true →
  wp False (parseBlockInto src toks fuel open close) (λ _ b', run_ok (block_tree open (close + 1)) b b') b.

Definition stmts_spec (fuel : nat) : Prop := ∀ open close i b,
  braced open (close + 1) → open < i ≤ close → 3 * (close - i) + 1 ≤ Z.of_nat fuel → b_Ok b = true →
  wp False (parseStmts src toks fuel i close) (λ _ b', run_ok (forest i close) b b') b.

Lemma blockKind_cases k sk : blockKind k = Some sk → (k = TokenIf ↔ sk = StmtIf).
Proof.
  unfold blockKind. destruct (Z.eqb_spec k TokenIf) as [->|]; [by intros [= <-]|].
  destruct (Z.eqb_spec k TokenFor) as [->|]; [by intros [= <-]|]. destruct (Z.eqb_spec k TokenSwitch) as [->|]; [by intros [= <-]|].
  destruct (Z.eqb_spec k TokenSelect) as [->|]; [by intros [= <-]|done].
Qed.

Lemma headerStmt_ok k sk start bs be es part limit :
  kindAt start k → blockKind k = Some sk → start < bs → braced bs be → part_ok limit be es part →
  header_ok (headerStmt toks sk start bs be es part) ∧ st_EndTok (headerStmt toks sk start bs be es part) = part_end be part ∧
  st_StartTok (headerStmt toks sk start bs be es part) = start.
Proof.
  intros Hk Hsk Hbs Hbe Hpart. pose proof (trimSpan_range (start + 1) bs ltac:(lia)) as Hr.
  assert (start < (trimSpan toks (start + 1) bs).1 ≤ (trimSpan toks (start + 1) bs).2 ∧ (trimSpan toks (start + 1) bs).2 ≤ bs) as Hex by lia.
  destruct part; (split; [|done]); (split; [exists k; done|done|exact Hex]).
Qed.

(** What an if statement adds behind its block. *)
Definition part_tree (part : elsePart) (elseEnd : Z) (l : list Stmt) : Prop :=
  match part with
  | NoElse => l = []
  | ElseIf start _ => tree start elseEnd l
  | ElseBlock open _ => block_tree open elseEnd l
  end.

Lemma header_tree k sk start bs be es part limit inner rest :
  kindAt start k → blockKind k = Some sk → start < bs → braced bs be → be ≤ limit → part_ok limit be es part →
  (sk ≠ StmtIf → part = NoElse) → forest (bs + 1) (be - 1) inner → part_tree part (part_end be part) rest →
  start < part_end be part ≤ limit ∧
  tree start (part_end be part) (headerStmt toks sk start bs be es part :: blockStmt bs be :: inner ++ rest).
Proof.
  intros Hk Hsk Hbs Hbe Hle Hpart Hno Hinner Hrest. destruct (headerStmt_ok k sk start bs be es part limit Hk Hsk Hbs Hbe Hpart) as (Hh & He & Hs).
  destruct (grouped_range _ _ Hok _ _ _ _ Hbe) as [_ Hr].
  assert (sk = StmtIf ∨ part = NoElse) as Hif by (destruct (decide (sk = StmtIf)); auto).
  set (s := headerStmt toks sk start bs be es part) in *.
  cut (st_StartTok s < st_EndTok s ≤ limit ∧ tree (st_StartTok s) (st_EndTok s) (s :: blockStmt bs be :: inner ++ rest)); [by rewrite Hs, He|].
  rewrite He at 1. rewrite Hs at 1. destruct part as [|es' ee|o c]; cbn [part_ok part_tree part_end] in *.
  - rewrite Hrest, app_nil_r. split; [lia|]. exact (tree_header s inner Hh eq_refl eq_refl eq_refl Hinner).
  - destruct Hif as [->|?]; [|done]. destruct Hpart as (Hes & Hke & -> & Hki & Hee & _). pose proof (proj1 Hes). split; [lia|].
    exact (tree_else_if s inner rest Hh eq_refl Hes Hke eq_refl Hinner Hki Hrest).
  - destruct Hif as [->|?]; [|done]. destruct Hpart as (Hes & Hke & -> & Hg & Hc). pose proof (proj1 Hes).
    destruct (grouped_range _ _ Hok _ _ _ _ Hg) as [_ Hr']. split; [lia|]. destruct Hrest as (inner' & -> & Hf).
    exact (tree_else s inner inner' Hh eq_refl Hes Hke eq_refl Hinner Hg Hf).
Qed.

Lemma stmt_header_spec fuel k sk open limit start b :
  stmt_spec fuel → block_spec fuel → braced open (limit + 1) → open < start < limit →
  3 * (limit - start) ≤ Z.of_nat (S fuel) → b_Ok b = true → kindAt start k → blockKind k = Some sk →
  wp False (parseStmt src toks (S fuel) start limit) (λ next b', stmt_run limit start b next b' ∧
    (b_Ok b' = true → ∀ bs be es part, kindAt start TokenIf →
       blockHeader src toks start limit StmtIf = Some (inl (bs, be, es, part)) → next = part_end be part)) b.
Proof.
  intros Hstmt Hbl Hg Hs Hf Hb Hk Hsk. pose proof (block_range open limit Hg) as Hrange.
  assert (kindOf toks start = Some k) as Hkind by (destruct Hk as (t & Ht & <-); unfold kindOf; by rewrite Ht).
  cbn [parseStmt]. wp_step. eapply wp_lift; [done|]. rewrite Hsk.
  destruct (blockHeader_total open limit Hg start sk Hs) as (h & Hh & Hhok). wp_step. eapply wp_lift; [done|].
  assert (∀ bs be es part, kindAt start TokenIf → blockHeader src toks start limit StmtIf = Some (inl (bs, be, es, part)) → h = inl (bs, be, es, part)) as Hagree.
  { intros bs be es part (t & Ht & Htk) Hh'. destruct Hk as (t' & Ht' & <-). rewrite Ht in Ht'. injection Ht' as <-.
    rewrite (proj1 (blockKind_cases _ _ Hsk) Htk) in Hh. congruence. }
  destruct h as [[[[bs be] es] part]|[err tok]].
  2: { unfold fail. do 3 wp_step. split; [|done]. apply (run_ok_fail (λ _, True) _ b b); [by apply run_ok_refl|done]. }
  destruct Hhok as (Hbs & Hbe & Hle & Hpart & Hno). destruct (grouped_range _ _ Hok _ _ _ _ Hbe) as [_ Hr].
  destruct (headerStmt_ok k sk start bs be es part limit Hk Hsk Hbs Hbe Hpart) as (Hhd & Hend & Hst).
  cbv zeta. wp_step. eapply wp_conseq.
  { apply (appendStmtExpr_spec (headerStmt toks sk start bs be es part) b start); [done|lia|].
    right. pose proof (hd_expr _ Hhd) as Hex. rewrite Hst in Hex. assert (st_BodyStart (headerStmt toks sk start bs be es part) = bs) as Hb1 by (by destruct part).
    rewrite Hb1 in Hex. lia. }
  intros ? b1 [Hrun1 Hb1]. wp_step. eapply wp_conseq; [apply Hbl; [by replace (be - 1 + 1) with be by lia|lia|done]|].
  intros ? b2 Hrun2. replace (be - 1 + 1) with be in Hrun2 by lia. pose proof (run_ok_trans _ _ _ _ _ Hrun1 Hb1 Hrun2) as Hrun.
  do 2 wp_step. destruct (b_Ok b2) eqn:Hb2; simpl negb; cbv iota.
  2: { wp_step. split; [by eapply run_ok_error|congruence]. }
  wp_step. eapply (wp_conseq _ (λ _ b3, run_ok (part_tree part (part_end be part)) b2 b3)).
  { destruct part as [|es' ee|o c]; cbn [part_ok] in Hpart.
    - wp_step. by apply run_ok_refl.
    - destruct Hpart as ([Hes _] & Hke & Hes' & Hki & Hee & Hfind). wp_step. eapply wp_conseq; [apply (Hstmt open); [done|lia|lia|done]|].
      intros next b3 [Hrun3 Hnext]. wp_step. destruct (b_Ok b3) eqn:Hb3; [|by eapply run_ok_error].
      destruct (findIfEnd_header open limit Hg (length toks) es' ee) as (bs' & be' & es'' & part' & Hh' & He'); [done|lia|done|lia|].
      rewrite (Hnext eq_refl _ _ _ _ Hki Hh') in Hrun3. cbn [part_end]. rewrite <- He'. eapply run_ok_impl; [done|]. by intros l [_ ?].
    - destruct Hpart as ([Hes _] & Hke & Ho & Hgo & Hc). apply Hbl; [done|lia|done]. }
  intros ? b3 Hrun3. wp_step. rewrite Hend. split.
  - eapply run_ok_impl; [by eapply run_ok_trans|]. intros l (l12 & l3 & -> & (l1 & l2 & -> & -> & inner & -> & Hinner) & Hl3).
    rewrite <- app_assoc. simpl. by apply (header_tree k sk start bs be es part limit).
  - intros _ bs' be' es' part' Hki Hh'. specialize (Hagree _ _ _ _ Hki Hh'). by injection Hagree as -> -> -> ->.
Qed.

Lemma parser_specs fuel : stmt_spec fuel ∧ block_spec fuel ∧ stmts_spec fuel.
Proof.
  induction fuel as [|fuel (IHstmt & IHblock & IHstmts)].
  { split_and!; [intros open limit start b Hg Hs Hf|intros open close b Hg Hf|intros open close i b Hg Hi Hf]; try lia.
    destruct (grouped_range _ _ Hok _ _ _ _ Hg). lia. }
  split_and!.
  - intros open limit start b Hg Hs Hf Hb. pose proof (block_range open limit Hg) as Hrange.
    destruct (tok_at toks start ltac:(lia)) as [t Ht].
    destruct (blockKind (tokenKind t)) as [sk|] eqn:Hsk; [eapply (stmt_header_spec fuel (tokenKind t)); try done; by exists t|].
    assert (¬ kindAt start TokenIf) as Hnoif. { intros (t' & Ht' & Hk). rewrite Ht in Ht'. injection Ht' as <-. by rewrite Hk in Hsk. }
    eapply (wp_conseq _ (stmt_run limit start b)); [|intros next b' Hrun; split; [done|]; intros _ bs be es part Hk; done].
    cbn [parseStmt]. wp_step. eapply wp_lift; [unfold kindOf; by rewrite Ht|]. rewrite Hsk.
    destruct (keywordStmt src toks (tokenKind t) start limit) as [run|] eqn:Hkw; [by apply (keywordStmt_spec open limit Hg start t)|].
    destruct (tokCharIs toks start (chr "{")) eqn:Hc; [|apply (plainStmt_spec open limit Hg); try done; by eapply keywordStmt_none].
    destruct (skipBalanced_spec _ _ Hok (chr "{") (chr "}") start) as (e & He & Hcase). wp_step. eapply wp_lift; [done|]. cbv zeta.
    destruct (Z.ltb_spec (e - 1) start), (Z.leb_spec limit (e - 1)); simpl.
    1-3: unfold fail; do 3 wp_step; apply (run_ok_fail (λ _, True) _ b b); [by apply run_ok_refl|done].
    destruct Hcase as [[-> _]|[Hlt Hgr]]; [lia|]. wp_step. eapply wp_conseq; [apply IHblock; [by replace (e - 1 + 1) with e by lia|lia|done]|].
    intros ? b' Hrun. wp_step. replace (e - 1 + 1) with e in * by lia. eapply run_ok_impl; [done|].
    intros l (inner & -> & Hin). split; [lia|]. by apply tree_block.
  - intros open close b Hg Hf Hb. destruct (grouped_range _ _ Hok _ _ _ _ Hg) as [H0 Hr].
    destruct (grouped_chars src toks Hok _ _ _ _ Hg) as [Hc1 Hc2]. replace (close + 1 - 1) with close in Hc2 by lia.
    cbn [parseBlockInto]. rewrite Hc1, Hc2. simpl orb. cbv iota. do 2 wp_step.
    pose proof (addStmt_run (blockStmt open (close + 1)) b Hb eq_refl) as Hadd.
    eapply wp_conseq; [apply (IHstmts open); [done|lia|lia|done]|]. intros ? b' Hrun.
    eapply run_ok_impl; [eapply run_ok_trans; [exact Hadd|done|exact Hrun]|].
    intros l (l1 & l2 & -> & -> & Hl2). exists l2. split; [done|]. by replace (close + 1 - 1) with close by lia.
  - intros open close i b Hg Hi Hf Hb.
    cbn [parseStmts]. do 2 wp_step. rewrite Hb, andb_true_r.
    destruct (Z.ltb_spec i close) as [Hlt|].
    2: { wp_step. apply run_ok_refl; [done|]. apply forest_nil. replace i with close by lia. apply separators_none. }
    destruct (grouped_range _ _ Hok _ _ _ _ Hg) as [H0 Hr].
    destruct (skipStmt_total i ltac:(lia)) as (j & Hj & Hsep). pose proof (proj1 Hsep) as Hij. wp_step. eapply wp_lift; [done|].
    destruct (Z.leb_spec close j) as [|Hjc].
    { wp_step. apply run_ok_refl; [done|]. apply forest_nil, (separators_upto i j); [done|lia]. }
    wp_step. eapply wp_conseq; [apply (IHstmt open); [done|lia|lia|done]|]. intros next b1 [Hrun _]. do 2 wp_step.
    destruct (b_Ok b1) eqn:Hb1; simpl negb; cbv iota; [|wp_step; by eapply run_ok_error].
    destruct (Z.leb_spec next j) as [|Hnext]; [unfold fail; wp_step; by eapply run_ok_fail|].
    assert (next ≤ close) as Hnc. { destruct Hrun as [_ _ (l & _ & Hl)]. rewrite Hb1 in Hl. destruct Hl as [_ [? _]]. lia. }
    eapply wp_conseq; [apply (IHstmts open); [done|lia|lia|done]|]. intros ? b2 Hrun2.
    eapply run_ok_impl; [exact (run_ok_trans _ _ _ _ _ Hrun Hb1 Hrun2)|]. intros l (l1 & l2 & -> & [Hn Ht] & Hl2).
    by eapply forest_cons; [|done|done|done].
Qed.

(** ** Function bodies *)

(** The statements of a function: those of its block, and none without a body. *)
Definition body_tree (fn : FuncDecl) (l : list Stmt) : Prop :=
  if fn_BodyStart fn <? 0 then l = [] else block_tree (fn_BodyStart fn) (fn_BodyEnd fn) l.

Lemma parseFuncBody_spec fn b :
  (fn_BodyStart fn = -1 ∧ fn_BodyEnd fn = -1) ∨ braced (fn_BodyStart fn) (fn_BodyEnd fn) → b_Ok b = true →
  wp False (parseFuncBody src toks fn) (λ _ b', run_ok (body_tree fn) b b') b.
Proof.
  intros Hfn Hb. unfold parseFuncBody, body_tree. destruct Hfn as [[-> ->]|Hg]; simpl.
  { wp_step. by apply run_ok_refl. }
  destruct (grouped_range _ _ Hok _ _ _ _ Hg) as [H0 Hr]. destruct (grouped_chars src toks Hok _ _ _ _ Hg) as [Hc1 Hc2].
  destruct (Z.ltb_spec (fn_BodyStart fn) 0); [lia|]. simpl. cbv zeta.
  destruct (Z.leb_spec (fn_BodyEnd fn - 1) (fn_BodyStart fn)); [lia|]. rewrite Hc1, Hc2. simpl.
  destruct (parser_specs (bodyFuel toks)) as (_ & Hblock & _).
  specialize (Hblock (fn_BodyStart fn) (fn_BodyEnd fn - 1) b). replace (fn_BodyEnd fn - 1 + 1) with (fn_BodyEnd fn) in Hblock by lia.
  apply Hblock; [done| |done]. unfold bodyFuel, SyntaxTokens.eofTok, lenZ in *. lia.
Qed.
End body.

(** * The bodies without their expressions *)

(** A body of [ParseFuncBodyStatements] with the statements of [b]. *)
Definition bare (b : Body) : Body := MkBody (b_Stmts b) [] (b_Ok b) (b_Error b) (b_ErrorTok b) true.

(** What a computation does to a body it also does to the body without expressions. *)
Definition bared {A} (c : GoM Body A) : Prop := ∀ b a b',
  c b = Some (a, b') → b_stmtsOnly b = false → b_stmtsOnly b' = false ∧ c (bare b) = Some (a, bare b').

Lemma bared_ret {A} (a : A) : bared (mret a).
Proof. by intros b ? ? [= <- <-]. Qed.

Lemma bared_lift {A} (o : option A) : bared (lift o).
Proof. intros b a b'. unfold lift. destruct o; [|done]. by intros [= -> ->]. Qed.

Lemma bared_modify f : (∀ b, f (bare b) = bare (f b) ∧ b_stmtsOnly (f b) = b_stmtsOnly b) → bared (modify f).
Proof. intros Hf b ? ? [= <- <-] Hb. destruct (Hf b) as [H1 H2]. unfold modify. by rewrite H1, H2. Qed.

Lemma bared_bind {A B} (c : GoM Body A) (k : A → GoM Body B) : bared c → (∀ a, bared (k a)) → bared (c ≫= k).
Proof.
  intros Hc Hk b a b'. unfold mbind, GoM_bind. destruct (c b) as [[a1 b1]|] eqn:H1; [|done]. intros H2 Hb.
  destruct (Hc _ _ _ H1 Hb) as [Hb1 ->]. by apply Hk.
Qed.

(** Only whether the body has failed is looked at. *)
Lemma bared_get {B} (k : Body → GoM Body B) : (∀ b, k (bare b) = k b) → (∀ b, bared (k b)) → bared (get ≫= k).
Proof. intros Hk Hb b a b'. unfold mbind, GoM_bind, get. rewrite Hk. apply Hb. Qed.

Section bare.
Context (src : list Z) (toks : list Token).

Lemma bared_append s : bared (appendStmtExpr src toks s).
Proof.
  intros b a b'. unfold appendStmtExpr, mbind, GoM_bind, modify, get. simpl. intros H Hb. rewrite Hb in H. simpl in H.
  destruct (_ && _); simpl in H.
  - unfold lift, mbind, GoM_bind in H. destruct (classifyExpr _ _ _ _); [|done]. by injection H as <- <-.
  - by injection H as <- <-.
Qed.
End bare.

Ltac bared_step :=
  match goal with
  | |- bared (mret _) => apply bared_ret
  | |- bared (lift _) => apply bared_lift
  | |- bared (modify _) => apply bared_modify; done
  | |- bared (appendStmtExpr _ _ _) => apply bared_append
  | |- bared (get ≫= _) => apply bared_get; [done|intros ?]
  | |- bared (_ ≫= _) => apply bared_bind; [|intros ?]
  | |- bared (if ?c then _ else _) => destruct c
  | |- bared (match ?c with _ => _ end) => destruct c eqn:?
  end.

Section bare.
Context (src : list Z) (toks : list Token).

Lemma bared_plain kind start limit : bared (plainStmt src toks kind start limit).
Proof. unfold plainStmt, exprStmt. cbv zeta. by repeat bared_step. Qed.

Lemma bared_keyword kind start limit run : keywordStmt src toks kind start limit = Some run → bared run.
Proof.
  unfold keywordStmt. cbv zeta. intros H.
  repeat (revert H; match goal with |- context [if ?c then _ else _] => destruct c end; intros H); try done; injection H as <-;
    unfold simpleStmt, caseStmt, defaultStmt, gotoStmt, fail; cbv zeta; by repeat bared_step.
Qed.

Lemma bared_parser fuel :
  (∀ start limit, bared (parseStmt src toks fuel start limit)) ∧
  (∀ open close, bared (parseBlockInto src toks fuel open close)) ∧
  (∀ i close, bared (parseStmts src toks fuel i close)).
Proof.
  induction fuel as [|fuel (IH1 & IH2 & IH3)]; [by split_and!; intros; apply bared_lift|].
  split_and!; intros; cbn [parseStmt parseBlockInto parseStmts]; unfold fail; cbv zeta;
    repeat first [apply IH1|apply IH2|apply IH3|apply bared_plain|by eapply bared_keyword|bared_step].
Qed.

Lemma bared_body fn : bared (parseFuncBody src toks fn).
Proof. unfold parseFuncBody, fail. cbv zeta. destruct (bared_parser (bodyFuel toks)) as (_ & H & _). repeat first [apply H|bared_step]. Qed.
End bare.
