(* ===== verification/SyntaxDirectiveFacts.v ===== *)
(** The loops of the directives as splits of the source, and that no reader of directives
    panics. *)

From Stdlib Require Import String Ascii.
From S2P Require Import Prelude.
From S2P Require Import GoInt.
From S2P Require Import SyntaxToken.
From S2P Require Import SyntaxLiteral.
From S2P Require Import SyntaxBytes.
From S2P Require Import SyntaxParse.
From S2P Require Import SyntaxDirective.
From S2P Require Import SyntaxTokens.

(** No byte, or one that does not satisfy [P]. *)
Definition halts (P : Z → bool) (o : option Z) : Prop := ∀ c, o = Some c → P c = false.

Lemma back_at P pre w rest :
  Forall (λ c, P c = true) w → halts P (last pre) → back (pre ++ w ++ rest) P (lenZ (pre ++ w)) = Some (lenZ pre).
Proof.
  intros Hw Hp. unfold back. assert (∀ n, (length w ≤ n)%nat → backWhile (pre ++ w ++ rest) n P (lenZ (pre ++ w)) = Some (lenZ pre)) as Hgo.
  2: { apply Hgo. unfold lenZ. rewrite Nat2Z.id, length_app. lia. }
  revert rest. induction w as [|c w IH] using rev_ind; intros rest n Hn.
  - rewrite app_nil_r. simpl. destruct (last pre) as [c|] eqn:Hl.
    + apply last_Some in Hl as [l ->]. pose proof (lenZ_nonneg l).
      assert (Some (0 <? lenZ (l ++ [c])) &&? byteIs ((l ++ [c]) ++ rest) (lenZ (l ++ [c]) - 1) P = Some false) as Hg.
      { rewrite lenZ_snoc, (proj2 (Z.ltb_lt _ _)) by lia. simpl. replace (lenZ l + 1 - 1) with (lenZ l) by lia.
        rewrite <- app_assoc. simpl. rewrite byteIs_head. f_equal. by apply Hp. }
      destruct n; cbn [backWhile]; by rewrite Hg.
    + apply last_None in Hl as ->. by destruct n.
  - apply Forall_app in Hw as [Hw Hc]. apply Forall_cons in Hc as [Hc _]. rewrite length_app in Hn. simpl in Hn. destruct n as [|n]; [lia|].
    pose proof (lenZ_nonneg (pre ++ w)). rewrite (app_assoc pre w [c]), lenZ_snoc. cbn [backWhile].
    rewrite (proj2 (Z.ltb_lt _ _)) by lia. simpl. replace (lenZ (pre ++ w) + 1 - 1) with (lenZ (pre ++ w)) by lia.
    replace (pre ++ (w ++ [c]) ++ rest) with ((pre ++ w) ++ c :: rest) by by rewrite <- !app_assoc.
    rewrite byteIs_head, Hc. simpl. rewrite <- app_assoc. apply IH; [done|lia].
Qed.

Lemma ahead_at P pre w mid post :
  Forall (λ c, P c = true) w → halts P (head mid) →
  ahead (pre ++ w ++ mid ++ post) P (lenZ pre) (lenZ (pre ++ w ++ mid)) = Some (lenZ (pre ++ w)).
Proof.
  intros Hw Hm. unfold ahead.
  assert (∀ n, (length w ≤ n)%nat → aheadWhile (pre ++ w ++ mid ++ post) n P (lenZ pre) (lenZ (pre ++ w ++ mid)) = Some (lenZ (pre ++ w))) as Hgo.
  2: { apply Hgo. unfold lenZ. rewrite !length_app. lia. }
  revert pre. induction Hw as [|c w Hc Hw IH]; intros pre n Hn.
  - rewrite app_nil_r. simpl. assert (Some (lenZ pre <? lenZ (pre ++ mid)) &&? byteIs (pre ++ mid ++ post) (lenZ pre) P = Some false) as Hg.
    { destruct mid as [|c mid]; [by rewrite outside|]. rewrite inside. simpl. rewrite byteIs_head. f_equal. by apply Hm. }
    destruct n; cbn [aheadWhile]; by rewrite Hg.
  - simpl in Hn. destruct n as [|n]; [lia|]. cbn [aheadWhile].
    replace (pre ++ (c :: w) ++ mid ++ post) with (pre ++ c :: (w ++ mid ++ post)) by done.
    replace (pre ++ (c :: w) ++ mid) with (pre ++ c :: (w ++ mid)) by done.
    rewrite inside. simpl. rewrite byteIs_head, Hc. simpl. rewrite <- (lenZ_snoc pre c).
    rewrite (cons_middle c pre (w ++ mid)), (cons_middle c pre (w ++ mid ++ post)), (cons_middle c pre w), !(app_assoc pre [c]).
    apply IH. lia.
Qed.

(** The last bytes that satisfy [P]. *)
Lemma split_last P (l : list Z) : ∃ pre w, l = pre ++ w ∧ Forall (λ c, P c = true) w ∧ halts P (last pre).
Proof.
  induction l as [|c l (pre & w & -> & Hw & Hp)] using rev_ind; [by exists [], []|].
  destruct (P c) eqn:Hc.
  - exists pre, (w ++ [c]). rewrite app_assoc. split_and!; [done| |done]. apply Forall_app. by split; [|constructor].
  - exists ((pre ++ w) ++ [c]), []. rewrite app_nil_r. split_and!; [done|done|]. rewrite last_snoc. by intros ? [= <-].
Qed.

Lemma split_head P (l : list Z) : ∃ w post, l = w ++ post ∧ Forall (λ c, P c = true) w ∧ halts P (head post).
Proof.
  exists (takeWhile P l), (dropWhile P l). rewrite takeWhile_dropWhile. split_and!; [done|apply takeWhile_all|].
  pose proof (dropWhile_head P l) as H. destruct (dropWhile P l); [done|]. by intros ? [= <-].
Qed.

Lemma bytesEqualString_spec a b : bytesEqualString a b = true ↔ a = b.
Proof.
  revert b. induction a as [|x a IH]; intros [|y b]; simpl; try done.
  destruct (Z.eqb_spec x y) as [->|Hne]; simpl; [rewrite IH; naive_solver|naive_solver].
Qed.

Lemma indent_blank c : isIndent c = true → isBlank c = true ∧ c ≠ newline.
Proof. unfold isIndent, isBlank. intros H%orb_true_iff. destruct H as [H|H]; apply Z.eqb_eq in H as ->; done. Qed.

(** The line behind [pre]: whatever is before it ends with a line end. *)
Definition notNewline (c : Z) : bool := negb (c =? newline).

Lemma lineStart_at pre indent body post :
  Forall (λ c, isIndent c = true) indent → Forall (λ c, notNewline c = true) body → halts isIndent (head body) → halts notNewline (last pre) →
  lineStart (pre ++ indent ++ body ++ post) (lenZ (pre ++ indent ++ body)) = Some (lenZ (pre ++ indent)).
Proof.
  intros Hi Hb Hh Hp. unfold lineStart. pose proof (back_at notNewline pre (indent ++ body) post) as Hback. rewrite <- app_assoc in Hback.
  change (λ c, negb (c =? newline)) with notNewline. rewrite Hback; [by apply ahead_at| |done]. apply Forall_app. split; [|done].
  eapply Forall_impl; [done|]. intros c [_ Hc]%indent_blank. apply negb_true_iff. by apply Z.eqb_neq.
Qed.

Lemma carriage_at l cr post :
  cr = [13] ∨ (cr = [] ∧ last l ≠ Some 13) →
  (Some (0 <? lenZ (l ++ cr)) &&? byteIs (l ++ cr ++ post) (lenZ (l ++ cr) - 1) (Z.eqb 13)) = Some (bool_decide (cr = [13])).
Proof.
  intros [->|[-> Hl]].
  - pose proof (lenZ_nonneg l). rewrite lenZ_snoc, (proj2 (Z.ltb_lt _ _)) by lia. simpl.
    replace (lenZ l + 1 - 1) with (lenZ l) by lia. by rewrite byteIs_head.
  - rewrite app_nil_r. simpl. destruct (last l) as [c|] eqn:Hc.
    + apply last_Some in Hc as [l' ->]. pose proof (lenZ_nonneg l'). rewrite lenZ_snoc, (proj2 (Z.ltb_lt _ _)) by lia. simpl.
      replace (lenZ l' + 1 - 1) with (lenZ l') by lia. rewrite <- app_assoc. simpl. rewrite byteIs_head. f_equal.
      destruct (Z.eqb_spec 13 c) as [<-|]; [congruence|done].
    + by apply last_None in Hc as ->.
Qed.

Lemma exportName_at pre indent body cr post :
  Forall (λ c, isIndent c = true) indent → Forall (λ c, notNewline c = true) body → halts isIndent (head body) → halts notNewline (last pre) →
  cr = [13] ∨ (cr = [] ∧ last (pre ++ indent ++ body) ≠ Some 13) →
  ∃ r, exportName (pre ++ indent ++ body ++ cr ++ post) (lenZ ((pre ++ indent ++ body) ++ cr)) = Some r ∧
    ∀ name, name ≠ [] → r = name ↔ body = exportPrefix ++ name ∧ exportIdentifier name = true.
Proof.
  intros Hi Hb Hh Hp Hcr. unfold exportName.
  pose proof (carriage_at (pre ++ indent ++ body) cr post Hcr) as Hc. rewrite <- !app_assoc in Hc. rewrite <- !app_assoc. rewrite Hc. cbn [mbind option_bind]. cbv zeta.
  assert ((if bool_decide (cr = [13]) then lenZ (pre ++ indent ++ body ++ cr) - 1 else lenZ (pre ++ indent ++ body ++ cr)) = lenZ (pre ++ indent ++ body)) as ->.
  { destruct Hcr as [->|[-> _]]; simpl; autorewrite with lenZ; lia. }
  rewrite lineStart_at by done. cbn [mbind option_bind]. set (src := pre ++ indent ++ body ++ cr ++ post).
  assert (lenZ (pre ++ indent ++ body) - lenZ (pre ++ indent) = lenZ body) as -> by (rewrite !lenZ_app; lia).
  assert (∀ name, name ≠ [] → lenZ (exportPrefix ++ name) > lenZ exportPrefix) as Hlong.
  { intros name Hn. destruct name; [done|]. rewrite lenZ_app, lenZ_cons. pose proof (lenZ_nonneg name). lia. }
  destruct (Z.leb_spec (lenZ body) (lenZ exportPrefix)) as [Hle|Hlt]; cbn [orO mbind option_bind].
  { exists []. split; [done|]. intros name Hn. split; [done|]. intros [-> _]. specialize (Hlong _ Hn). lia. }
  destruct (split_at body (lenZ exportPrefix)) as (a & b & -> & Ha); [pose proof (lenZ_nonneg exportPrefix); lia|]. clear Hlt.
  assert (textAt src (lenZ (pre ++ indent)) (lenZ (pre ++ indent) + lenZ exportPrefix) exportPrefix = Some (bytesEqualString a exportPrefix)) as ->.
  { unfold textAt, src. rewrite Ha. replace (pre ++ indent ++ (a ++ b) ++ cr ++ post) with ((pre ++ indent) ++ a ++ (b ++ cr ++ post)) by by rewrite <- !app_assoc.
    by rewrite slice_mid. }
  cbn [mbind option_bind]. destruct (bytesEqualString a exportPrefix) eqn:Heq; cbn [orO mbind option_bind negb].
  - apply bytesEqualString_spec in Heq as ->.
    assert (sliceZ src (lenZ (pre ++ indent) + lenZ exportPrefix) (lenZ (pre ++ indent ++ exportPrefix ++ b)) = Some b) as ->.
    { unfold src. replace (pre ++ indent ++ (exportPrefix ++ b) ++ cr ++ post) with ((pre ++ indent ++ exportPrefix) ++ b ++ (cr ++ post)) by by rewrite <- !app_assoc.
      replace (lenZ (pre ++ indent) + lenZ exportPrefix) with (lenZ (pre ++ indent ++ exportPrefix)) by (rewrite !lenZ_app; lia).
      replace (lenZ (pre ++ indent ++ exportPrefix ++ b)) with (lenZ (pre ++ indent ++ exportPrefix) + lenZ b) by (rewrite !lenZ_app; lia).
      apply slice_mid. }
    cbn [mbind option_bind]. eexists. split; [done|]. intros name Hn. destruct (exportIdentifier b) eqn:Hid; cbn [negb].
    + split; [by intros <-|]. by intros [?%app_inv_head _].
    + split; [done|]. intros [He%app_inv_head Hx]. congruence.
  - exists []. split; [done|]. intros name Hn. split; [done|]. intros [Hab _]. exfalso.
    apply app_inj_1 in Hab as [-> _]; [|unfold lenZ in Ha; lia]. by rewrite (proj2 (bytesEqualString_spec _ _) eq_refl) in Heq.
Qed.

Lemma lineBefore_at l blank post :
  Forall (λ c, isBlank c = true) blank → halts isBlank (last l) → l ++ blank ≠ [] →
  lineBefore (l ++ blank ++ post) (lenZ (l ++ blank)) = Some (if bool_decide (last l = Some newline) then Some (lenZ l - 1) else None).
Proof.
  intros Hb Hl Hne. unfold lineBefore. assert (0 < lenZ (l ++ blank)) as H0.
  { destruct (l ++ blank) as [|c w]; [done|]. rewrite lenZ_cons. pose proof (lenZ_nonneg w). lia. }
  pose proof (lenZ_nonneg post). rewrite (proj2 (Z.leb_gt _ _)) by lia. rewrite (proj2 (Z.ltb_ge _ _)) by (rewrite !lenZ_app in *; lia). cbn [orb].
  rewrite back_at by done. cbn [mbind option_bind]. destruct (last l) as [c|] eqn:Hc.
  - apply last_Some in Hc as [l' ->]. pose proof (lenZ_nonneg l'). rewrite lenZ_snoc, (proj2 (Z.eqb_neq _ _)) by lia. cbn [orO].
    replace (lenZ l' + 1 - 1) with (lenZ l') by lia. rewrite <- app_assoc. simpl. rewrite byteIs_head. cbn [mbind option_bind].
    destruct (Z.eqb_spec c newline) as [->|Hn]; cbn [negb].
    + by rewrite bool_decide_eq_true_2.
    + rewrite bool_decide_eq_false_2; [done|congruence].
  - by apply last_None in Hc as ->.
Qed.

(** The line before [start] is an export directive for [name]. *)
Definition export_line (src : list Z) (start : Z) (name : list Z) : Prop :=
  ∃ pre indent cr blank post,
    src = pre ++ indent ++ exportPrefix ++ name ++ cr ++ [newline] ++ blank ++ post ∧
    start = lenZ (pre ++ indent ++ exportPrefix ++ name ++ cr ++ [newline] ++ blank) ∧
    (pre = [] ∨ last pre = Some newline) ∧ Forall (λ c, isIndent c = true) indent ∧ (cr = [] ∨ cr = [13]) ∧
    Forall (λ c, isBlank c = true) blank ∧ exportIdentifier name = true.

Lemma identifier_bytes name : exportIdentifier name = true → Forall (λ c, notNewline c = true ∧ c ≠ 13) name.
Proof.
  assert (∀ c, exportIdentifierPart c = true → notNewline c = true ∧ c ≠ 13) as Hc.
  { intros c Hc. unfold notNewline. split; [apply negb_true_iff, Z.eqb_neq|]; by intros ->. }
  destruct name as [|c name]; [done|]. simpl. intros [H1 H2]%andb_true_iff. constructor.
  - apply Hc. unfold exportIdentifierPart. by rewrite H1.
  - apply Forall_forall. intros x Hx. apply Hc. rewrite forallb_forall in H2. apply H2. by apply list_elem_of_In.
Qed.

Definition exportBefore (src : list Z) (start : Z) : option (list Z) :=
  line ← lineBefore src start;
  match line with None => Some [] | Some end_ => exportName src end_ end.

Lemma exportBefore_complete src start name : export_line src start name → exportBefore src start = Some name.
Proof.
  intros (pre & indent & cr & blank & post & -> & -> & Hpre & Hi & Hcr & Hb & Hid).
  pose proof (identifier_bytes name Hid) as Hname. assert (name ≠ []) as Hne by (by intros ->).
  set (l := pre ++ indent ++ exportPrefix ++ name). unfold exportBefore.
  replace (pre ++ indent ++ exportPrefix ++ name ++ cr ++ [newline] ++ blank ++ post) with ((l ++ cr ++ [newline]) ++ blank ++ post) by by (unfold l; rewrite <- !app_assoc).
  replace (pre ++ indent ++ exportPrefix ++ name ++ cr ++ [newline] ++ blank) with ((l ++ cr ++ [newline]) ++ blank) by by (unfold l; rewrite <- !app_assoc).
  rewrite lineBefore_at; [|done|rewrite app_assoc, last_snoc; by intros ? [= <-]|by destruct l, cr].
  rewrite bool_decide_eq_true_2 by (by rewrite app_assoc, last_snoc). cbn [mbind option_bind].
  rewrite (app_assoc l), lenZ_snoc. replace (lenZ (l ++ cr) + 1 - 1) with (lenZ (l ++ cr)) by lia.
  destruct (exportName_at pre indent (exportPrefix ++ name) cr ([newline] ++ blank ++ post)) as (r & Hr & Hiff); [done| |by intros ? [= <-]| | |].
  - apply Forall_app. split; [by repeat constructor|]. eapply Forall_impl; [done|]. by intros c [? _].
  - destruct Hpre as [->| ->]; by intros ? [= <-].
  - destruct Hcr as [->| ->]; [right|by left]. split; [done|]. rewrite !app_assoc. destruct name as [|c name _] using rev_ind; [done|].
    rewrite app_assoc, last_snoc. intros [= ->]. apply Forall_app in Hname as [_ Hname]. by apply Forall_cons in Hname as [[_ Hx] _].
  - replace ((l ++ cr) ++ [newline]) with (l ++ cr ++ [newline]) by by rewrite <- app_assoc.
    unfold l. rewrite <- !app_assoc in *. rewrite Hr. f_equal. by apply Hiff.
Qed.

Lemma exportBefore_sound src start : ∃ r, exportBefore src start = Some r ∧ (r ≠ [] → export_line src start r).
Proof.
  unfold exportBefore. destruct (decide (0 < start ≤ lenZ src)) as [Hr|Hr].
  2: { unfold lineBefore. exists []. split; [|done]. destruct (Z.leb_spec start 0); [done|]. destruct (Z.ltb_spec (lenZ src) start); [done|lia]. }
  destruct (split_at src start) as (p & post & -> & ->); [lia|]. destruct (split_last isBlank p) as (l & blank & -> & Hb & Hl).
  rewrite <- app_assoc, lineBefore_at; [|done|done|by intros He; rewrite He in Hr; change (lenZ (@nil Z)) with 0 in Hr; lia].
  case_bool_decide as Hn; cbn [mbind option_bind]; [|by exists []]. apply last_Some in Hn as [l1 ->]. rewrite lenZ_snoc.
  replace (lenZ l1 + 1 - 1) with (lenZ l1) by lia.
  assert (∃ l2 cr, l1 = l2 ++ cr ∧ (cr = [13] ∨ (cr = [] ∧ last l2 ≠ Some 13))) as (l2 & cr & -> & Hcr).
  { destruct (decide (last l1 = Some 13)) as [[l2 ->]%last_Some|Hne]; [exists l2, [13]; by split; [|left]|].
    exists l1, []. rewrite app_nil_r. by split; [|right]. }
  destruct (split_last notNewline l2) as (pre & line & -> & Hline & Hpre).
  destruct (split_head isIndent line) as (indent & body & -> & Hi & Hbody). apply Forall_app in Hline as [_ Hline].
  destruct (exportName_at pre indent body cr ([newline] ++ blank ++ post)) as (r & Hrun & Hiff); [done..|].
  exists r. split; [rewrite <- Hrun; f_equal; by rewrite <- !app_assoc|]. intros Hne. destruct (Hiff r Hne) as [[-> Hid] _]; [done|].
  exists pre, indent, cr, blank, post. split_and!; [by rewrite <- !app_assoc|by rewrite <- !app_assoc| |done| |done|done].
  - destruct (last pre) as [c|] eqn:Hc; [right|left; by apply last_None]. specialize (Hpre c eq_refl). apply negb_false_iff in Hpre. apply Z.eqb_eq in Hpre. congruence.
  - destruct Hcr as [->|[-> _]]; auto.
Qed.

(** ** The readers do not panic *)

Lemma back_total src P i : 0 ≤ i ≤ lenZ src → ∃ r, back src P i = Some r ∧ 0 ≤ r ≤ i.
Proof.
  intros Hi. destruct (split_at src i Hi) as (p & post & -> & ->). destruct (split_last P p) as (pre & w & -> & Hw & Hp).
  exists (lenZ pre). rewrite <- app_assoc, back_at by done. split; [done|]. rewrite lenZ_app. pose proof (lenZ_nonneg pre). pose proof (lenZ_nonneg w). lia.
Qed.

Lemma ahead_total src P i end_ : 0 ≤ i ≤ end_ → end_ ≤ lenZ src → ∃ r, ahead src P i end_ = Some r ∧ i ≤ r ≤ end_.
Proof.
  intros Hi He. destruct (split_at src end_) as (p & post & -> & ->); [lia|]. destruct (split_at p i) as (pre & l & -> & ->); [lia|].
  destruct (split_head P l) as (w & mid & -> & Hw & Hm). exists (lenZ (pre ++ w)). rewrite <- !app_assoc, ahead_at by done.
  split; [done|]. rewrite !lenZ_app. pose proof (lenZ_nonneg w). pose proof (lenZ_nonneg mid). lia.
Qed.

Lemma lineStart_total src end_ : 0 ≤ end_ ≤ lenZ src → ∃ r, lineStart src end_ = Some r ∧ 0 ≤ r ≤ end_.
Proof.
  intros He. unfold lineStart. destruct (back_total src (λ c, negb (c =? newline)) end_ He) as (b & -> & Hb). cbn [mbind option_bind].
  destruct (ahead_total src isIndent b end_) as (r & -> & Hr); [lia..|]. exists r. split; [done|lia].
Qed.

Lemma lineBefore_total src start : ∃ r, lineBefore src start = Some r ∧ ∀ e, r = Some e → 0 ≤ e < start ∧ start ≤ lenZ src.
Proof.
  unfold lineBefore. destruct (Z.leb_spec start 0), (Z.ltb_spec (lenZ src) start); cbn [orb]; try (by exists None).
  destruct (back_total src isBlank start) as (i & -> & Hi); [lia|]. cbn [mbind option_bind].
  destruct (Z.eqb_spec i 0); cbn [orO mbind option_bind]; [by exists None|].
  destruct (byteIs_total src (i - 1) (λ c, negb (c =? newline))) as [b ->]; [lia|]. cbn [mbind option_bind]. destruct b; eexists; (split; [done|]); [done|].
  intros e [= <-]. lia.
Qed.

Lemma precedingDirectiveLine_total src start :
  ∃ b e, precedingDirectiveLine src start = Some (b, e) ∧ (b = -1 ∨ (0 ≤ b ≤ e ∧ e ≤ lenZ src)).
Proof.
  unfold precedingDirectiveLine. destruct (lineBefore_total src start) as ([e|] & -> & He); cbn [mbind option_bind]; [|by exists (-1), (-1); auto].
  specialize (He e eq_refl). destruct (back_total src isBlank e) as (e' & -> & He'); [lia|]. cbn [mbind option_bind].
  destruct (lineStart_total src e') as (b & -> & Hb); [lia|]. exists b, e'. split; [done|]. right. lia.
Qed.

Lemma textAt_total src a b txt : 0 ≤ a ≤ b → b ≤ lenZ src → ∃ r, textAt src a b txt = Some r.
Proof. intros Ha Hb. unfold textAt. rewrite sliceZ_Some by lia. by eexists. Qed.

Lemma escapeDigits_total n src base limit : ∀ i value, 0 ≤ i → i + Z.of_nat n ≤ lenZ src → ∃ r, escapeDigits n src i base limit value = Some r.
Proof.
  induction n as [|n IH]; intros i value Hi Hn; [by eexists|]. cbn [escapeDigits].
  destruct (lookupZ_lt_is_Some src i) as [c ->]; [lia|]. cbn [mbind option_bind]. destruct (hexValue c); [|by eexists].
  destruct (_ <=? _); [by eexists|]. destruct (_ <? _); [by eexists|]. apply IH; lia.
Qed.

Lemma stringEscapeValue_total src slash end_ :
  ∃ r, stringEscapeValue src slash end_ = Some r ∧ ∀ next v u, r = Some (next, v, u) → slash < next ≤ end_.
Proof.
  unfold stringEscapeValue.
  destruct (Z.ltb_spec slash 0), (Z.leb_spec end_ (slash + 1)), (Z.ltb_spec (lenZ src) end_); cbn [orb]; try (by exists None).
  destruct (lookupZ_lt_is_Some src (slash + 1)) as [esc ->]; [lia|]. cbn [mbind option_bind]. destruct (esc =? chr "x").
  - destruct (Z.ltb_spec end_ (slash + 4)); [by exists None|].
    destruct (lookupZ_lt_is_Some src (slash + 2)) as [a ->]; [lia|]. destruct (lookupZ_lt_is_Some src (slash + 3)) as [b ->]; [lia|]. cbn [mbind option_bind].
    destruct (_ || _); [by exists None|]. eexists. split; [done|]. intros ? ? ? [= <- _ _]. lia.
  - destruct (simpleEscape simpleEscapes esc); [eexists; split; [done|]; intros ? ? ? [= <- _ _]; lia|].
    destruct (escapeForm esc slash) as [[[[digits base] u] start]|] eqn:Hform; [|by exists None].
    assert (0 < digits ∧ slash < start) as [Hd Hs].
    { unfold escapeForm in Hform. repeat (destruct (_ =? _); [injection Hform as <- _ _ <-; lia|]).
      destruct (_ && _); [injection Hform as <- _ _ <-; lia|done]. }
    destruct (Z.ltb_spec end_ (start + digits)); [by exists None|].
    destruct (escapeDigits_total (Z.to_nat digits) src base (if u then 1114111 else 255) start 0) as [v ->]; [lia|lia|]. cbn [mbind option_bind].
    destruct v; [|by exists None]. destruct (_ || _); [by exists None|]. eexists. split; [done|]. intros ? ? ? [= <- _ _]. lia.
Qed.

Lemma stringBody_total src end_ fuel : ∀ i out, 0 ≤ i → end_ ≤ lenZ src → end_ - 1 - i ≤ Z.of_nat fuel → ∃ r, stringBody fuel src i end_ out = Some r.
Proof.
  induction fuel as [|fuel IH]; intros i out Hi He Hf; cbn [stringBody]; (destruct (Z.leb_spec (end_ - 1) i); [by eexists|]); [lia|].
  destruct (lookupZ_lt_is_Some src i) as [c ->]; [lia|]. cbn [mbind option_bind]. destruct (negb _); [apply IH; lia|].
  destruct (_ <=? _); [by eexists|]. destruct (stringEscapeValue_total src i (end_ - 1)) as (r & -> & Hr). cbn [mbind option_bind].
  destruct r as [[[next v] u]|]; [|by eexists]. specialize (Hr _ _ _ eq_refl). apply IH; lia.
Qed.

Lemma StringLiteralValue_total src tok : ∃ r, StringLiteralValue src tok = Some r.
Proof.
  unfold StringLiteralValue. cbv zeta. destruct (negb _); cbn [orb]; [by eexists|].
  destruct (Z.ltb_spec (t_Start tok) 0), (Z.ltb_spec (t_End tok - t_Start tok) 2), (Z.ltb_spec (lenZ src) (t_End tok)); cbn [orb]; try (by eexists).
  destruct (lookupZ_lt_is_Some src (t_Start tok)) as [q ->]; [lia|]. destruct (lookupZ_lt_is_Some src (t_End tok - 1)) as [l ->]; [lia|]. cbn [mbind option_bind].
  destruct (q =? chr "`"); [destruct (negb _); [by eexists|]; rewrite sliceZ_Some by lia; by eexists|].
  destruct (_ || _); [by eexists|]. apply stringBody_total; [lia|lia|unfold lenZ in *; lia].
Qed.

Lemma closingQuote_total src end_ n : ∀ pos, 0 ≤ pos → end_ ≤ lenZ src → end_ - pos ≤ Z.of_nat n →
  ∃ r, closingQuote src n pos end_ = Some r ∧ ∀ p, r = Some p → pos < p ≤ end_.
Proof.
  induction n as [|n IH]; intros pos Hp He Hn; cbn [closingQuote]; (destruct (Z.ltb_spec pos end_); [|by exists None]); [lia|].
  destruct (lookupZ_lt_is_Some src pos) as [c ->]; [lia|]. cbn [mbind option_bind].
  destruct (c =? quote); [eexists; split; [done|]; intros ? [= <-]; lia|].
  destruct (IH (if c =? 92 then pos + 2 else pos + 1)) as (r & -> & Hr); [destruct (_ =? _); lia|done|destruct (_ =? _); lia|].
  exists r. split; [done|]. intros p Hrp. specialize (Hr p Hrp). destruct (_ =? _); lia.
Qed.

Lemma directiveString_total src start end_ : 0 ≤ start → end_ ≤ lenZ src →
  ∃ v next ok, directiveString src start end_ = Some (v, next, ok) ∧ start ≤ next ∧ (ok = true → next ≤ end_).
Proof.
  intros Hs He. unfold directiveString. destruct (Z.leb_spec end_ start); cbn [orO mbind option_bind]; [by exists [], start, false|].
  destruct (byteIs_total src start (λ c, negb (c =? quote))) as [b ->]; [lia|]. cbn [mbind option_bind]. destruct b; [by exists [], start, false|].
  destruct (closingQuote_total src end_ (Z.to_nat (end_ - start)) (start + 1)) as (r & -> & Hr); [lia|lia|lia|]. cbn [mbind option_bind].
  destruct r as [p|]; [|by exists [], start, false]. specialize (Hr p eq_refl).
  destruct (StringLiteralValue_total src (MkToken TokenString (i32 start) (i32 p))) as [[v|] ->]; cbn [mbind option_bind];
    eexists _, p, _; (split; [done|]); lia.
Qed.

Lemma typeNames_total src b e : 0 ≤ b ≤ e → e ≤ lenZ src → ∃ r, typeNames src b e = Some r.
Proof.
  intros Hb He. unfold typeNames. cbv zeta. set (prefix := text "//renvo:typename "). pose proof (lenZ_nonneg prefix).
  destruct (Z.ltb_spec (e - b) (lenZ prefix)); cbn [orO mbind option_bind]; [by eexists|].
  destruct (textAt_total src b (b + lenZ prefix) prefix) as [same ->]; [lia|lia|]. cbn [mbind option_bind]. destruct (negb same); [by eexists|].
  destruct (directiveString_total src (b + lenZ prefix) e) as (v & next & ok & -> & Hn & _); [lia|lia|]. cbn [mbind option_bind].
  destruct ok; cbn [negb orb orO mbind option_bind]; [|by eexists]. destruct (Z.leb_spec e next); cbn [orO mbind option_bind]; [by eexists|].
  destruct (byteIs_total src next (λ c, negb (c =? chr " "))) as [bad ->]; [lia|]. cbn [mbind option_bind]. destruct bad; [by eexists|].
  destruct (directiveString_total src (next + 1) e) as (v' & next' & ok' & -> & _); [lia|lia|]. cbn [mbind option_bind]. destruct (_ || _); by eexists.
Qed.

Lemma GeneratedTypeNames_total src start : ∃ r, GeneratedTypeNames src start = Some r.
Proof.
  unfold GeneratedTypeNames. destruct (precedingDirectiveLine_total src start) as (b & e & -> & Hbe). cbn [mbind option_bind].
  destruct (Z.ltb_spec b 0); [by eexists|]. destruct (textAt_total src b e (text "//renvo:reflect")) as [same ->]; [lia|lia|]. cbn [mbind option_bind].
  destruct same; [|apply typeNames_total; lia]. destruct (precedingDirectiveLine_total src b) as (b' & e' & -> & Hbe'). cbn [mbind option_bind].
  destruct (Z.ltb_spec b' 0); [by eexists|]. apply typeNames_total; lia.
Qed.

Lemma ReflectDirective_total file decl : ∃ r, ReflectDirective file decl = Some r.
Proof.
  unfold ReflectDirective. cbv zeta. destruct (_ || _ || _) eqn:Hg; [by eexists|].
  apply orb_false_iff in Hg as [[_ H1]%orb_false_iff H2]. apply Z.ltb_ge in H1. apply Z.leb_gt in H2. set (toks := f_Tokens file) in *.
  destruct (guard_and (0 <? d_StartTok decl) (kindIs toks (d_StartTok decl - 1) (Z.eqb TokenType))) as (keyword & -> & Hk).
  { intros H3%Z.ltb_lt. unfold kindIs. destruct (lookupZ_lt_is_Some toks (d_StartTok decl - 1)) as [t ->]; [lia|]. by eexists. }
  cbn [mbind option_bind]. destruct (lookupZ_lt_is_Some toks (if keyword then d_StartTok decl - 1 else d_StartTok decl)) as [t ->].
  { destruct keyword; [|lia]. destruct (Hk eq_refl) as [H3%Z.ltb_lt _]. lia. }
  cbn [mbind option_bind]. destruct (precedingDirectiveLine_total (f_Src file) (TokenStart t)) as (b & e & -> & Hbe). cbn [mbind option_bind].
  destruct (Z.ltb_spec b 0); [by eexists|]. apply textAt_total; lia.
Qed.

Lemma blanksBefore_total src n : ∀ i k, 0 ≤ i ≤ lenZ src → i ≤ Z.of_nat n → ∃ j k', blanksBefore n src i k = Some (j, k') ∧ 0 ≤ j ≤ lenZ src.
Proof.
  induction n as [|n IH]; intros i k Hi Hn; cbn [blanksBefore];
    destruct (guard_and (0 <? i) (byteIs src (i - 1) (λ c, isBlank c || (c =? newline)))) as (go & -> & Hgo);
    try (intros H%Z.ltb_lt; apply byteIs_total; lia); cbn [mbind option_bind]; (destruct go; [|by eexists _, _]);
    destruct (Hgo eq_refl) as [H0%Z.ltb_lt _]; [lia|].
  destruct (lookupZ_lt_is_Some src (i - 1)) as [c ->]; [lia|]. cbn [mbind option_bind]. apply IH; lia.
Qed.

Lemma commentStart_total src n : ∀ begin, begin + 1 < lenZ src → begin < Z.of_nat n →
  ∃ r, commentStart n src begin = Some r ∧ ∀ b, r = Some b → 0 ≤ b ≤ begin.
Proof.
  induction n as [|n IH]; intros begin Hb Hn; cbn [commentStart]; (destruct (Z.leb_spec 0 begin); [|by exists None]); [lia|].
  destruct (byteIs_total src begin (Z.eqb (chr "/"))) as [x ->]; [lia|]. destruct (byteIs_total src (begin + 1) (Z.eqb (chr "*"))) as [y Hy]; [lia|].
  destruct x; cbn [andO]; rewrite ?Hy; cbn [mbind option_bind]; [destruct y|]; try (eexists; split; [done|]; intros b [= <-]; lia);
    (destruct (IH (begin - 1)) as (r & -> & Hr); [lia|lia|]; exists r; split; [done|]; intros b Hrb; specialize (Hr b Hrb); lia).
Qed.

Lemma commentBefore_total src i : 0 ≤ i ≤ lenZ src → ∃ r, commentBefore src i = Some r.
Proof.
  intros Hi. unfold commentBefore.
  assert (∃ b, (Some (2 <=? i) &&? byteIs src (i - 2) (Z.eqb (chr "*")) &&? byteIs src (i - 1) (Z.eqb (chr "/"))) = Some b ∧ (b = true → 2 ≤ i)) as (b & -> & Hb).
  { destruct (Z.leb_spec 2 i); cbn [andO]; [|by exists false]. destruct (byteIs_total src (i - 2) (Z.eqb (chr "*"))) as [[] ->]; [lia| |]; cbn [andO]; [|by exists false].
    destruct (byteIs_total src (i - 1) (Z.eqb (chr "/"))) as [y ->]; [lia|]. by exists y. }
  cbn [mbind option_bind]. destruct b.
  - specialize (Hb eq_refl). destruct (commentStart_total src (Z.to_nat i) (i - 4)) as (r & -> & Hr); [lia|lia|]. cbn [mbind option_bind].
    destruct r as [b|]; [|by eexists]. specialize (Hr b eq_refl). rewrite sliceZ_Some by lia. by eexists.
  - destruct (lineStart_total src i Hi) as (l & -> & Hl). cbn [mbind option_bind].
    assert (∃ c, (Some (l + 2 <=? i) &&? byteIs src l (Z.eqb (chr "/")) &&? byteIs src (l + 1) (Z.eqb (chr "/"))) = Some c ∧ (c = true → l + 2 ≤ i)) as (c & -> & Hc).
    { destruct (Z.leb_spec (l + 2) i); cbn [andO]; [|by exists false]. destruct (byteIs_total src l (Z.eqb (chr "/"))) as [[] ->]; [lia| |]; cbn [andO]; [|by exists false].
      destruct (byteIs_total src (l + 1) (Z.eqb (chr "/"))) as [y ->]; [lia|]. by exists y. }
    cbn [mbind option_bind]. destruct c; [|by eexists]. specialize (Hc eq_refl). rewrite sliceZ_Some by lia. by eexists.
Qed.

Lemma CgoPreamble_total file decl :
  (∀ i t, f_Tokens file !!z i = Some t → 0 ≤ t_Start t ≤ lenZ (f_Src file)) → ∃ r, CgoPreamble file decl = Some r.
Proof.
  intros Hspan. unfold CgoPreamble. cbv zeta. set (toks := f_Tokens file) in *.
  destruct (Z.ltb_spec (i_PathTok decl) 0), (Z.leb_spec (lenZ toks) (i_PathTok decl)); cbn [orb]; try (by eexists).
  destruct (lookupZ_lt_is_Some toks (i_PathTok decl)) as [t ->]; [lia|]. cbn [mbind option_bind].
  destruct (StringLiteralValue_total (f_Src file) t) as [[path|] ->]; cbn [mbind option_bind]; [|by eexists]. destruct (negb _); [by eexists|].
  destruct (Z.ltb_spec (i_StartTok decl - 1) 0), (Z.leb_spec (lenZ toks) (i_StartTok decl - 1)); cbn [orb orO mbind option_bind]; try (by eexists).
  destruct (lookupZ_lt_is_Some toks (i_StartTok decl - 1)) as [t' Ht]; [lia|]. unfold kindIs. rewrite Ht. cbn [mbind option_bind]. destruct (negb _); [by eexists|].
  specialize (Hspan _ _ Ht). destruct (blanksBefore_total (f_Src file) (Z.to_nat (TokenStart t')) (TokenStart t') 0) as (j & k & -> & Hj); [done|unfold TokenStart in *; lia|].
  cbn [mbind option_bind]. destruct (1 <? k); [by eexists|]. by apply commentBefore_total.
Qed.
