(* ===== verification/SyntaxParseProperties.v ===== *)
(** What the parsers of declarations, of function bodies and of directives guarantee. *)

From Stdlib Require Import String Ascii.
From S2P Require Import Prelude.
From S2P Require Import GoInt.
From S2P Require Import SyntaxToken.
From S2P Require Import SyntaxLiteral.
From S2P Require Import SyntaxScan.
From S2P Require Import SyntaxBytes.
From S2P Require Import SyntaxIdent.
From S2P Require Import SyntaxGrammar.
From S2P Require Import SyntaxScanner.
From S2P Require Import SyntaxParse.
From S2P Require Import SyntaxBody.
From S2P Require Import SyntaxDirective.
From S2P Require Import SyntaxTokens.
From S2P Require Import SyntaxParseFacts.
From S2P Require Import SyntaxBodyFacts.
From S2P Require Import SyntaxDirectiveFacts.

(** * Declarations *)

(** A file before its declarations are read. *)
Definition unparsed (src : list Z) (toks : list Token) (candidates : bool) : File :=
  MkFile src toks (-1) [] [] [] [] candidates true ParseOK (-1).

(** What a file holds when it is accepted. *)
Record file_ok (file : File) : Prop := {
  fl_error : f_Error file = ParseOK;
  fl_package : f_PackageName file = 1 ∧ package_clause (f_Tokens file);
  fl_covered :
    covered (f_Tokens file) 2
      (withPackage 1 (unparsed (f_Src file) (f_Tokens file) (f_HasInterfaceCandidates file))) file;
  fl_entries : entries_ok (f_Tokens file) 2 (eofTok (f_Tokens file)) (f_Imports file) (f_Decls file) (f_Funcs file) (f_Generics file);
  fl_dots : dots_ok (f_Src file) (f_Tokens file) }.

Lemma grown_fields toks lo hi f f' :
  grown toks lo hi f f' →
  f_Src f' = f_Src f ∧ f_Tokens f' = f_Tokens f ∧ f_HasInterfaceCandidates f' = f_HasInterfaceCandidates f ∧
  f_PackageName f' = f_PackageName f ∧ f_Ok f' = f_Ok f ∧ f_Error f' = f_Error f.
Proof. by intros (? & ? & ? & ? & _ & ->). Qed.

Lemma grown_entries toks lo hi src cand f' :
  grown toks lo hi (withPackage 1 (unparsed src toks cand)) f' →
  entries_ok toks lo hi (f_Imports f') (f_Decls f') (f_Funcs f') (f_Generics f').
Proof. by intros (? & ? & ? & ? & Hen & ->). Qed.

Lemma entries_weaken toks lo lo' hi ims ds fs gs :
  entries_ok toks lo hi ims ds fs gs → lo' ≤ lo → entries_ok toks lo' hi ims ds fs gs.
Proof. intros Hen Hle. change ims with ([] ++ ims). eapply (entries_app toks lo' lo hi [] [] [] []); [by apply entries_nil|done]. Qed.

(** The outcomes of a parse. *)
Definition outcome (toks : list Token) (scanned : bool) (file : File) : Prop :=
  if scanned then
    entries_ok toks 0 (eofTok toks) (f_Imports file) (f_Decls file) (f_Funcs file) (f_Generics file) ∧
    if f_Ok file then file_ok file
    else ParseErrPackage ≤ f_Error file ≤ ParseErrDot ∧ 0 ≤ f_ErrorTok file ≤ eofTok toks
  else
    f_Ok file = false ∧ f_Error file = ParseErrScan ∧ f_ErrorTok file = eofTok toks ∧
    f_Imports file = [] ∧ f_Decls file = [] ∧ f_Funcs file = [] ∧ f_Generics file = [].

Lemma validateDots_outcome src toks cand f :
  toks_ok src toks → package_clause toks → covered toks 2 (withPackage 1 (unparsed src toks cand)) f →
  wp False (validateDots src toks) (λ _ f',
    f_Src f' = src ∧ f_Tokens f' = toks ∧ f_HasInterfaceCandidates f' = cand ∧ outcome toks true f') f.
Proof.
  intros Hok Hpack Hcov. pose proof (covered_grown toks _ _ _ Hcov) as Hg. pose proof (grown_entries _ _ _ _ _ _ Hg) as Hen.
  destruct (grown_fields _ _ _ _ _ Hg) as (Hsrc & Htoks & Hcand & Hname & Hfok & Herr). pose proof (eofTok_nonneg _ _ Hok).
  unfold validateDots. destruct (badDot_spec src toks Hok (length toks) 2) as (r & Hrun & Hr); [lia|unfold lenZ; lia|].
  wp_step. eapply wp_lift; [done|]. destruct r as [tok|].
  - unfold parseFailInPlace. wp_step. do 3 (split; [done|]). split; [by eapply entries_weaken; [done|lia]|]. simpl. split; [done|lia].
  - wp_step. do 3 (split; [done|]). split; [by eapply entries_weaken; [done|lia]|]. rewrite Hfok. simpl.
    split; rewrite ?Hsrc, ?Htoks, ?Hcand; try done.
Qed.

Lemma parseTokens_outcome src toks lineStarts cand :
  toks_ok src toks →
  wp False (parseTokens src toks lineStarts) (λ _ f,
    wp False (if f_Ok f then validateDots src toks else mret tt) (λ _ f',
      f_Src f' = src ∧ f_Tokens f' = toks ∧ f_HasInterfaceCandidates f' = cand ∧ outcome toks true f') f) (unparsed src toks cand).
Proof.
  intros Hok. pose proof (eofTok_nonneg _ _ Hok). eapply wp_conseq; [by apply parseTokens_spec|].
  intros _ f [[Hpack [Hcov|Hf]]|[_ ->]].
  - pose proof (covered_grown toks _ _ _ Hcov) as Hg. destruct (grown_fields _ _ _ _ _ Hg) as (_ & _ & _ & _ & Hfok & _).
    rewrite Hfok. by apply validateDots_outcome.
  - destruct Hf as (f1 & err & tok & Hg & -> & Herr & Htok). destruct (grown_fields _ _ _ _ _ Hg) as (Hsrc & Htoks & Hcand & _).
    simpl. wp_step. do 3 (split; [done|]). split; [|simpl; unfold ParseErrImport, ParseErrTopLevel, ParseErrPackage, ParseErrDot in *; lia].
    eapply (entries_weaken _ 2); [exact (grown_entries _ _ _ _ _ _ Hg)|lia].
  - simpl. wp_step. do 3 (split; [done|]). split; [by apply entries_nil|]. simpl. split; [done|lia].
Qed.

Lemma parse_outcome wordSize base linked src :
  0 < wordSize → bytes_ok src → fits src →
  ∃ toks scanned candidates file lineStarts,
    scanTokensMode wordSize base src linked = Some (toks, scanned, candidates) ∧
    parseFileMode wordSize base src linked = Some (file, lineStarts) ∧
    f_Src file = src ∧ f_Tokens file = toks ∧ f_HasInterfaceCandidates file = candidates ∧ outcome toks scanned file ∧
    (scanned = true → toks_ok src toks).
Proof.
  intros Hword Hb Hf. destruct (scanTokensMode_spec wordSize base Hword linked src Hb Hf) as (toks & scanned & cand & Hscan & Hok).
  exists toks, scanned, cand. unfold parseFileMode. rewrite Hscan. cbn [mbind option_bind]. destruct scanned; simpl.
  2: { eexists _, _. split; [done|]. split; [done|]. by split_and!. }
  pose proof (scanned_toks_ok _ _ _ _ Hb (Hok eq_refl)) as Htoks. set (lineStarts := if linked then _ else _).
  pose proof (parseTokens_outcome src toks lineStarts cand Htoks) as Hrun. unfold wp at 1 in Hrun. fold (unparsed src toks cand).
  destruct (parseTokens src toks lineStarts (unparsed src toks cand)) as [[[] f]|]; [|done]. cbn [mbind option_bind].
  destruct (f_Ok f) eqn:Hfok.
  - unfold wp in Hrun. destruct (validateDots src toks f) as [[[] f']|]; [|done]. cbn [mbind option_bind].
    exists f', lineStarts. destruct Hrun as (? & ? & ? & ?). do 6 (split; [done|]). by intros _.
  - cbn [mbind option_bind]. exists f, lineStarts. unfold wp in Hrun. destruct Hrun as (? & ? & ? & ?). do 6 (split; [done|]). by intros _.
Qed.

(** C8. The parser ends without a panic on every source, whatever the scanner makes of
    it: it answers with the source, its tokens and entries that are well formed and in
    order, also when it stops at an error, whose code and token it reports. *)
Theorem parse_total wordSize base linked src :
  0 < wordSize → bytes_ok src → fits src →
  ∃ toks scanned candidates file lineStarts,
    scanTokensMode wordSize base src linked = Some (toks, scanned, candidates) ∧
    parseFileMode wordSize base src linked = Some (file, lineStarts) ∧
    f_Src file = src ∧ f_Tokens file = toks ∧ f_HasInterfaceCandidates file = candidates ∧ outcome toks scanned file.
Proof.
  intros Hword Hb Hf. destruct (parse_outcome wordSize base linked src Hword Hb Hf) as (toks & ok & cand & file & ls & H).
  exists toks, ok, cand, file, ls. tauto.
Qed.

(** The functions that a parse records. *)
Lemma parsed_func wordSize base linked src file lineStarts fn :
  0 < wordSize → bytes_ok src → fits src →
  parseFileMode wordSize base src linked = Some (file, lineStarts) → fn ∈ f_Funcs file →
  toks_ok (f_Src file) (f_Tokens file) ∧ func_ok (f_Tokens file) fn.
Proof.
  intros Hword Hb Hf Hparse Hin. destruct (parse_outcome wordSize base linked src Hword Hb Hf) as (toks & ok & cand & file' & ls & _ & Hp & Hsrc & Htoks & _ & Hout & Hok).
  rewrite Hparse in Hp. injection Hp as <- _. subst src toks. destruct ok; simpl in Hout.
  - split; [by apply Hok|]. destruct Hout as [[] _]. by eapply list.Forall_forall.
  - destruct Hout as (_ & _ & _ & _ & _ & Hno & _). rewrite Hno in Hin. by apply not_elem_of_nil in Hin.
Qed.

(** One declaration of each kind, with type parameters and a receiver. *)
Definition demoFile : list Z :=
  text "package p
import (
  m `math`
)
type Pair[K, V any] struct { k K; v V }
const one, two = 1, 2
func (p *Pair[K, V]) swap(q int) int { return q }
".

Definition demoParsed : File :=
  match parseFileMode 8 0 demoFile false with Some (file, _) => file | None => unparsed [] [] false end.

Lemma demoFile_bytes : bytes_ok demoFile.
Proof. apply bytes_okb. vm_compute. reflexivity. Qed.

Lemma parse_total_witness :
  file_ok demoParsed ∧ lenZ (f_Imports demoParsed) = 1 ∧ lenZ (f_Decls demoParsed) = 3 ∧ lenZ (f_Generics demoParsed) = 1 ∧
  f_Funcs demoParsed = [MkFuncDecl 42 31 52 33 41 43 47 47 48 48 52].
Proof.
  split; [|vm_compute; done].
  destruct (parse_total 8 0 false demoFile) as (toks & scanned & cand & file & ls & Hscan & Hparse & _ & _ & _ & Hout).
  - reflexivity.
  - exact demoFile_bytes.
  - vm_compute. reflexivity.
  - assert (parseFileMode 8 0 demoFile false = Some (demoParsed, [])) as Hd by (vm_compute; reflexivity).
    assert (f_Ok demoParsed = true) as Hfok by (vm_compute; reflexivity).
    pose proof (eq_trans (eq_sym Hparse) Hd) as He. clear Hscan Hparse Hd. revert Hout Hfok He.
    generalize demoParsed. intros d Hout Hfok He. injection He as -> _.
    unfold outcome in Hout. rewrite Hfok in Hout. destruct scanned; [exact (proj2 Hout)|]. destruct Hout as [Hout _]. discriminate.
Defined.

(** C19. [skipBalanced] finds groups exactly: it answers the end of the group that starts
    at the token, where every opening byte has its closing one, and where there is no
    such group it skips nothing. *)
Theorem skipBalanced_exact src toks open close start :
  toks_ok src toks → Brackets open close →
  ∃ r, skipBalanced toks start open close = Some r ∧ start ≤ r ∧
    ∀ end_, grouped toks open close start end_ ↔ end_ = r ∧ start < r.
Proof.
  intros Hok Hbr. destruct (skipBalanced_spec src toks Hok open close start) as (r & Hr & Hcase). exists r. split; [done|].
  destruct Hcase as [[-> Hno]|[Hlt Hg]].
  - split; [lia|]. intros end_. split; [by intros ?%Hno|lia].
  - split; [lia|]. intros end_. split; [|by intros [-> _]]. intros Hg'.
    pose proof (skipBalanced_grouped src toks Hok open close _ _ Hg'). split; [congruence|lia].
Qed.

Lemma skipBalanced_exact_witness :
  grouped (f_Tokens demoParsed) (chr "{") (chr "}") 48 52 ∧ ¬ grouped (f_Tokens demoParsed) (chr "{") (chr "}") 49 52.
Proof.
  assert (toks_ok demoFile (f_Tokens demoParsed)) as Hok.
  { destruct (scanTokensMode_spec 8 0 eq_refl false demoFile demoFile_bytes) as (toks & ok & cand & Hscan & Hok); [vm_compute; reflexivity|].
    assert (option_map (λ r, r.1) (scanTokensMode 8 0 demoFile false) = Some (f_Tokens demoParsed, true)) as Hd by (vm_compute; reflexivity).
    rewrite Hscan in Hd. revert Hd. generalize (f_Tokens demoParsed). intros t [= -> ->].
    exact (scanned_toks_ok _ _ _ _ demoFile_bytes (Hok eq_refl)). }
  split.
  - destruct (skipBalanced_exact demoFile (f_Tokens demoParsed) (chr "{") (chr "}") 48 Hok braces) as (r & Hr & _ & Hg).
    assert (skipBalanced (f_Tokens demoParsed) 48 (chr "{") (chr "}") = Some 52) as Hd by (vm_compute; reflexivity).
    rewrite Hd in Hr. apply Hg. injection Hr as <-. split; [reflexivity|lia].
  - destruct (skipBalanced_exact demoFile (f_Tokens demoParsed) (chr "{") (chr "}") 49 Hok braces) as (r & Hr & _ & Hg).
    assert (skipBalanced (f_Tokens demoParsed) 49 (chr "{") (chr "}") = Some 49) as Hd by (vm_compute; reflexivity).
    rewrite Hd in Hr. intros [_ Hlt]%Hg. injection Hr as <-. lia.
Defined.

(** C22. In a linked file the line of a token is one more than the number of line ends
    before it, whatever its packed word says: the parser's lines are physical lines also
    beyond the 16 bits of the word. *)
Theorem linked_lines wordSize base src toks candidates file lineStarts i t :
  0 < wordSize → bytes_ok src → fits src →
  scanTokensMode wordSize base src true = Some (toks, true, candidates) →
  ParseLinkedFile wordSize base src = Some (file, lineStarts) → toks !!z i = Some t →
  TokenLineAt toks i lineStarts = Some (1 + newlines (take (Z.to_nat (t_Start t)) src)).
Proof.
  intros Hword Hb Hf Hscan Hparse Ht.
  destruct (scanTokensMode_spec wordSize base Hword true src Hb Hf) as (toks' & ok & cand & Hscan' & Hok).
  rewrite Hscan in Hscan'. injection Hscan' as <- <- <-. pose proof (scanned_toks_ok _ _ _ _ Hb (Hok eq_refl)) as Htoks.
  assert (lineStarts = 0 :: lineStartsFrom src 0) as ->.
  { unfold ParseLinkedFile, parseFileMode in Hparse. rewrite Hscan in Hparse. cbn [mbind option_bind negb] in Hparse.
    destruct (parseTokens _ _ _ _) as [[[] f]|]; [|done]. cbn [mbind option_bind] in Hparse.
    destruct (if f_Ok f then _ else _) as [[[] f']|]; [|done]. by injection Hparse. }
  apply lineAt_linked; [done|]. pose proof (tok_span _ _ Htoks _ _ Ht). lia.
Qed.

Lemma linked_lines_witness :
  ∃ toks lineStarts, TokenLineAt toks 31 lineStarts = Some 7.
Proof.
  destruct (scanTokensMode 8 0 demoFile true) as [[[toks []] cand]|] eqn:Hscan; [|exfalso; vm_compute in Hscan; discriminate..].
  destruct (ParseLinkedFile 8 0 demoFile) as [[file ls]|] eqn:Hparse; [|exfalso; vm_compute in Hparse; discriminate].
  assert (t_Start <$> toks !!z 31 = Some 94) as Hd.
  { assert (option_map (λ r : list Token * bool * bool, t_Start <$> r.1.1 !!z 31) (scanTokensMode 8 0 demoFile true) = Some (Some 94)) as H by (vm_compute; reflexivity).
    rewrite Hscan in H. by injection H. }
  destruct (toks !!z 31) as [t|] eqn:Ht; [|discriminate]. injection Hd as Hd.
  exists toks, ls. rewrite (linked_lines 8 0 demoFile toks cand file ls 31 t eq_refl demoFile_bytes eq_refl Hscan Hparse Ht), Hd.
  vm_compute. reflexivity.
Defined.

(** * Function bodies *)

(** C9. The body of every function that a parse records is parsed without a panic: the
    statements of an accepted body form trees in the order of the source, with the kinds
    that their first tokens tell; an assignment differs from an expression in that an
    operator in it assigns.  The trees cover the block, and each inner block the same
    way: one starts where the one before it ends or behind semicolons, and the last ends
    at the closing brace or in front of semicolons, so no other token is skipped.  The
    expressions are those of the statements with their kinds; any other body has an
    error code. *)
Theorem body_total wordSize base linked src file lineStarts fn :
  0 < wordSize → bytes_ok src → fits src →
  parseFileMode wordSize base src linked = Some (file, lineStarts) → fn ∈ f_Funcs file →
  ∃ b, ParseFuncBody file fn = Some b ∧ recorded (f_Src file) (f_Tokens file) b ∧
    if b_Ok b then b_Error b = BodyOK ∧ body_tree (f_Src file) (f_Tokens file) fn (b_Stmts b) else BodyErrFunc ≤ b_Error b ≤ BodyErrStmt.
Proof.
  intros Hword Hb Hf Hparse Hin. destruct (parsed_func _ _ _ _ _ _ _ Hword Hb Hf Hparse Hin) as [Hok Hfn].
  pose proof (parseFuncBody_spec _ _ Hok fn (MkBody [] [] true BodyOK (-1) false)) as Hrun. unfold wp in Hrun. unfold ParseFuncBody.
  destruct (parseFuncBody _ _ _ _) as [[[] b]|].
  - exists b. split; [done|]. destruct Hrun as [Hrec _ (l & Hl & Hend)]; [|done|].
    { destruct (fo_body _ _ Hfn) as [(? & ? & _)|(_ & _ & ?)]; auto. }
    split; [by apply Hrec|]. simpl in Hl. by rewrite Hl.
  - exfalso. apply Hrun; [|done]. destruct (fo_body _ _ Hfn) as [(? & ? & _)|(_ & _ & ?)]; auto.
Qed.

(** Nested statements of most kinds. *)
Definition demoBody : list Z :=
  text "package p
func f(a int) int {
 x := a + 1
 if x > 2 { return x } else if y := 3; y == x { x++ } else { x -= 1 }
 for i := range xs { switch x { case 1: f(2); default: goto L } }
L: defer f()
 return g(x)
}
".

Definition bodyFile : File :=
  match parseFileMode 8 0 demoBody false with Some (file, _) => file | None => unparsed [] [] false end.

Definition bodyFunc : FuncDecl := MkFuncDecl 3 2 77 (-1) (-1) 4 8 8 9 9 77.

Lemma body_total_witness :
  ∃ b, ParseFuncBody bodyFile bodyFunc = Some b ∧ body_tree (f_Src bodyFile) (f_Tokens bodyFile) bodyFunc (b_Stmts b) ∧
    (st_Kind <$> b_Stmts b) =
      [StmtBlock; StmtAssign; StmtIf; StmtBlock; StmtReturn; StmtIf; StmtBlock; StmtExpr; StmtBlock; StmtAssign; StmtFor;
       StmtBlock; StmtSwitch; StmtBlock; StmtCase; StmtExpr; StmtDefault; StmtGoto; StmtLabel; StmtDefer; StmtReturn].
Proof.
  destruct (body_total 8 0 false demoBody bodyFile [] bodyFunc) as (b & Hb & _ & Hend).
  - reflexivity.
  - apply bytes_okb. vm_compute. reflexivity.
  - vm_compute. reflexivity.
  - vm_compute. reflexivity.
  - assert (f_Funcs bodyFile = [bodyFunc]) as -> by (vm_compute; reflexivity). by apply list_elem_of_singleton.
  - exists b. split; [done|].
    assert (option_map (λ b, (b_Ok b, st_Kind <$> b_Stmts b)) (ParseFuncBody bodyFile bodyFunc) =
      Some (true, [StmtBlock; StmtAssign; StmtIf; StmtBlock; StmtReturn; StmtIf; StmtBlock; StmtExpr; StmtBlock; StmtAssign; StmtFor;
       StmtBlock; StmtSwitch; StmtBlock; StmtCase; StmtExpr; StmtDefault; StmtGoto; StmtLabel; StmtDefer; StmtReturn])) as Hd by (vm_compute; reflexivity).
    rewrite Hb in Hd. simpl in Hd. destruct (b_Ok b); [|discriminate]. split; [exact (proj2 Hend)|]. congruence.
Defined.

(** C20. [ParseFuncBodyStatements] answers as [ParseFuncBody] does, without the
    expressions. *)
Theorem statements_same file fn b :
  ParseFuncBody file fn = Some b → ParseFuncBodyStatements file fn = Some (bare b).
Proof.
  unfold ParseFuncBody, ParseFuncBodyStatements. intros ([[] b'] & Hrun & ->)%fmap_Some. simpl.
  destruct (bared_body (f_Src file) (f_Tokens file) fn _ _ _ Hrun eq_refl) as [_ Hbare]. apply fmap_Some. by exists (tt, bare b').
Qed.

Lemma statements_same_witness :
  ∃ b, lenZ (b_Exprs b) = 13 ∧ lenZ (b_Stmts b) = 21 ∧ ParseFuncBodyStatements bodyFile bodyFunc = Some (bare b).
Proof.
  destruct (ParseFuncBody bodyFile bodyFunc) as [b|] eqn:Hb; [|exfalso; vm_compute in Hb; discriminate].
  exists b. pose proof (statements_same bodyFile bodyFunc b Hb) as Hs.
  assert (option_map (λ b, (lenZ (b_Exprs b), lenZ (b_Stmts b))) (ParseFuncBody bodyFile bodyFunc) = Some (13, 21)) as Hd by (vm_compute; reflexivity).
  rewrite Hb in Hd. simpl in Hd. injection Hd as H1 H2. split; [exact H1|split; [exact H2|exact Hs]].
Defined.

(** * Bodies that are read otherwise than Go reads them *)

(** The bodies of the functions of a source: their statements, or their error. *)
Definition bodies (src : list Z) : option (list (list (Z * Z * Z) + Z)) :=
  '(file, _) ← parseFileMode 8 0 src false;
  if f_Ok file then
    mapM (λ fn, b ← ParseFuncBody file fn;
      Some (if b_Ok b then inl ((λ s, (st_Kind s, st_StartTok s, st_EndTok s)) <$> b_Stmts b) else inr (b_Error b))) (f_Funcs file)
  else None.

(** A raw string of two lines in front of an operator: the statement ends behind the
    string, since [findStmtEnd] compares lines of tokens only, and the rest becomes a
    statement of its own. *)
Example raw_string_splits :
  bodies (text "package p
func g() { x := `a
b` + c }
") = Some [inl [(StmtBlock, 6, 13); (StmtAssign, 7, 10); (StmtExpr, 10, 12)]] ∧
  bodies (text "package p
func g() { x := `a` + c }
") = Some [inl [(StmtBlock, 6, 13); (StmtAssign, 7, 12)]].
Proof. vm_compute. done. Qed.

(** A switch with an assignment in its header, whose block a semicolon follows on the
    same line: [findStmtBlockStart] takes the block for a literal and finds none. *)
Example switch_block_lost :
  bodies (text "package p
func f(x any) { switch y := x.(type) { case int: g(y) }; h() }
") = Some [inr BodyErrBlock] ∧
  option_map (fmap (sum_map length id)) (bodies (text "package p
func f(x any) { switch y := x.(type) { case int: g(y) }
h() }
")) = Some [inl 6%nat].
Proof. vm_compute. done. Qed.

(** * Directives *)

(** C40. [ExportDirective] answers for every function, without a panic, and its answer is
    the name of an export directive exactly when the function has no receiver and the
    line before its first token is such a directive for the name. *)
Theorem ExportDirective_exact file fn :
  ∃ r, ExportDirective file fn = Some r ∧
    ∀ name, name ≠ [] →
      r = name ↔ fn_ReceiverStart fn < 0 ∧ ∃ t, f_Tokens file !!z fn_StartTok fn = Some t ∧ export_line (f_Src file) (t_Start t) name.
Proof.
  unfold ExportDirective. destruct (Z.leb_spec 0 (fn_ReceiverStart fn)).
  { exists []. split; [done|]. intros name Hne. split; [done|lia]. }
  destruct (f_Tokens file !!z fn_StartTok fn) as [t|] eqn:Ht.
  - pose proof (lookupZ_lt_Some _ _ _ Ht). rewrite (proj2 (Z.ltb_ge _ _)), (proj2 (Z.leb_gt _ _)) by lia. cbn [orb mbind option_bind].
    fold (exportBefore (f_Src file) (TokenStart t)). destruct (exportBefore_sound (f_Src file) (TokenStart t)) as (r & Hr & Hline).
    exists r. split; [done|]. intros name Hne. split.
    + intros ->. split; [done|]. exists t. split; [done|]. by apply Hline.
    + intros [_ (t' & [= <-] & He)]. apply exportBefore_complete in He. unfold TokenStart in Hr. congruence.
  - exists []. split; [destruct (_ || _ || _) eqn:E; [done|]|].
    + apply orb_false_iff in E as [[_ E1]%orb_false_iff E2]. apply lookupZ_None in Ht. apply Z.ltb_ge in E1. apply Z.leb_gt in E2. lia.
    + intros name Hne. split; [done|]. by intros [_ (t & [=] & _)].
Qed.

(** No reader of directives panics on the entries of a file that was parsed. *)
Theorem directives_total wordSize base linked src file lineStarts :
  0 < wordSize → bytes_ok src → fits src → parseFileMode wordSize base src linked = Some (file, lineStarts) →
  (∀ d, d ∈ f_Imports file → ∃ r, CgoPreamble file d = Some r) ∧ (∀ d, ∃ r, ReflectDirective file d = Some r) ∧
  ∀ start, ∃ r, GeneratedTypeNames src start = Some r.
Proof.
  intros Hword Hb Hf Hparse. split; [|split; [apply ReflectDirective_total|apply GeneratedTypeNames_total]]. intros d Hd.
  destruct (parse_outcome wordSize base linked src Hword Hb Hf) as (toks & ok & cand & file' & ls & _ & Hp & Hsrc & Htoks & _ & Hout & Hok).
  rewrite Hparse in Hp. injection Hp as <- _. destruct ok; simpl in Hout.
  - apply CgoPreamble_total. rewrite Hsrc, Htoks. intros i t Ht. pose proof (tok_span _ _ (Hok eq_refl) _ _ Ht). lia.
  - destruct Hout as (_ & _ & _ & Hno & _). rewrite Hno in Hd. by apply not_elem_of_nil in Hd.
Qed.

(** The opening of a comment inside a comment: [CgoPreamble] looks for the last one before
    the end and loses the text in front of it. *)
Example preamble_truncated :
  option_map (λ '(file, _), (f_Ok file, mapM (CgoPreamble file) (f_Imports file))) (parseFileMode 8 0 (text "package p
/* int x; /* y */
import `C`
") false) = Some (true, Some [(text " y ", 22, true)]).
Proof. vm_compute. done. Qed.
